(* ===== verification/_CoqProject ===== *)
-Q . S2P
Prelude.v
TxCommon.v
ScriptNum.v
Stack.v
Opcodes.v
Script.v
Builder.v
Hashes.v
Wire.v
Merkle.v
SigHash.v
SigCache.v
Address.v
Standard.v
Engine.v
EngineSafety.v
Conditionals.v
Signatures.v
SigEncoding.v
Witness.v
Scenario.v
Amount.v
Forks.v
Rewards.v
Base58.v
Bech32.v
AddressText.v
TrieEncoding.v
Trie.v
TrieSpec.v
Primality.v
Field.v
FieldSpec.v
Curve.v
CurveSpec.v
ScalarSpec.v
Keys.v
KeysSpec.v
PocHash.v
Poc.v
PocSpec.v
Block.v
MsgBlock.v
BlockSpec.v
Genesis.v
OrphanPool.v
OrphanPoolSpec.v
BlockTree.v
BlockTreeSpec.v
Chain.v
ChainTree.v
ChainSpec.v
ProcessSpec.v
ChainLive.v
ChainSample.v
Payload.v
Validate.v
ValidateSpec.v
ScriptVal.v
BindingState.v
TrieState.v
BindingSpec.v
Coinbase.v
CoinbaseSpec.v
TxLookup.v
TxLookupSpec.v
Staking.v
StakingSpec.v
StakingUndo.v
Policy.v
TxPool.v
TxPoolSpec.v
TxPoolRules.v
Connect.v
ValidateSample.v
LookupSample.v
PoolSample.v
