(* ===== verification/Prelude.v ===== *)
(** Verification of the consensus core of mass-core.

    * The program

    mass-core is the core library of a full node of the MASS blockchain, written in Go.  A
    transaction (src/wire) spends outputs of earlier transactions; every output carries a
    script, and an input is valid when the script engine (src/txscript) accepts the output's
    script together with the witness of the input.  MASS outputs are witness programs: version
    0 and the SHA-256 of a redeem script, followed for staking outputs by a frozen period and
    for binding outputs by a binding target, which the engine turns into a relative lock time.
    Blocks (src/wire) commit to their transactions and proposals by merkle roots and carry a
    proof of capacity (src/poc) signed with a key of src/pocec.  The chain (src/blockchain)
    checks each block, keeps a tree of blocks whose best leaf is the tip of the main chain,
    reorganises when another leaf becomes better, holds blocks and transactions whose parents
    are missing in orphan pools and valid transactions in a memory pool, pays staking nodes by
    a ranking (src/database), and keeps the bindings of plots and pools in a Merkle Patricia
    trie (src/trie).

    The parts meet as follows.  [processBlock] takes a block to [checkBlockSanity] and the
    block tree; connecting it at the tip calls [checkConnectBlock], which builds the store of
    the transactions the block refers to ([fetchInputTransactions]), checks inputs and fees,
    the coinbase against the subsidy and the ranking ([validateCoinbase]), the relative locks,
    the binding rules against the binding state, and the scripts of all inputs (the engine, run
    by a pool of goroutines); then the address index applies the block to the binding state and
    the memory pool drops what the block took.  The memory pool admits a transaction by the same
    checks of inputs, locks and scripts.

    * Files

    Foundations:
    - Prelude: Go integers with their wrap-around ([wrapU], [wrapS]), byte slices (lists of [Z]
      in [0, 256)), little- and big-endian codecs, the monads [outcome] (a value, an error or
      a panic) and [prog] (state passing; a failing call keeps the state it reached, as Go
      methods with a pointer receiver do), slices whose accesses panic out of range, the
      hint databases [golib] and [golen], the rewriting database [step] and the tactic [steps]
      that runs a program symbolically.
    - Hashes: the interface [HashFunctions] of the hash functions, with SHA-256 and SHA-1
      implemented and tested on their published vectors as an instance.
    - Amount (massutil/safetype, massutil/amount.go); Forks (consensus/massips.go,
      consensus/forks); Rewards (blockchain/reward_logic.go).
    - Base58, Bech32, AddressText (massutil/base58, massutil/bech32, massutil/address.go,
      the networks of config/params.go): text forms of addresses.

    Scripts and transactions:
    - TxCommon, ScriptNum, Stack, Opcodes, Script, Builder (txscript/common.go, error.go,
      scriptnum.go, stack.go, opcode.go, script.go, scriptbuilder.go): the language.  The table
      of opcodes names its handlers by constructors of [handler], since the handlers run on the
      engine, which holds parsed opcodes.
    - Wire (wire/msgtx.go, common.go, shahash.go, pb/tx.go): transactions and their encodings.
    - Merkle (wire/merkle.go, the merkle cache of blockchain/template.go).
    - SigHash (txscript/script.go, hashcache.go), SigCache (txscript/sigcache.go): digests and
      the signature cache.
    - Address (massutil/address.go), Standard (txscript/standard.go): standard outputs.
    - Engine (txscript/engine.go, opcode.go): the engine and its handlers; EngineSafety,
      Conditionals, Signatures, SigEncoding, Witness: theorems on it; Scenario: a spend run
      with concrete hash functions and a toy signature scheme, for the witnesses.

    Keys and proofs:
    - Primality, Field and FieldSpec (pocec/field.go), Curve, CurveSpec and ScalarSpec
      (pocec/pocec.go), Keys and KeysSpec (pocec/pubkey.go, signature.go, privkey.go).
    - PocHash (poc/pocutil/crypto/sha256), Poc and PocSpec (poc, poc/pocutil, poc/chiapos).

    Blocks and the chain:
    - Block, MsgBlock, BlockSpec (wire/blockheader.go, proposal.go, msgblock.go, wire/pb),
      Genesis (config/genesis.go).
    - OrphanPool and OrphanPoolSpec (blockchain/orphanpool, orphanblockpool.go,
      orphantxpool.go).
    - BlockTree and BlockTreeSpec (blockchain/blocktree.go, consensus.go,
      consensus/difficulty, consensus/challenge): nodes in a heap of addresses, the fork choice,
      targets and challenges.
    - Chain, ChainTree, ChainSpec, ProcessSpec, ChainLive (blockchain/process.go, chain.go,
      checkpoints.go); ChainSample: a chain of toy blocks.

    Validation and state:
    - Payload, Validate, ValidateSpec (blockchain/payload.go, validate.go); ScriptVal
      (blockchain/scriptval.go), with the goroutines as a step relation; Coinbase and
      CoinbaseSpec (blockchain/validate_coinbase.go); Connect (checkConnectBlock).
    - TxLookup and TxLookupSpec (blockchain/txlookup.go): the transaction store of a block on
      any branch.  Staking, StakingSpec, StakingUndo (txlookup.go, database/db.go,
      database/sort.go): staking outputs and their ranking.
    - TrieEncoding, Trie, TrieSpec, TrieState (trie/encoding.go, trie.go): the state trie.
      BindingState, BindingSpec (blockchain/state, addrindexer.go, addrindexer_massip2.go,
      connectState of chain.go): the binding state.
    - Policy, TxPool, TxPoolSpec, TxPoolRules (blockchain/policy.go, txpool.go): the pool.
    - ValidateSample, LookupSample, PoolSample: concrete blocks, states and pools.

    A Go function or method keeps its name; a method whose name occurs for several types is
    prefixed by its type.  A part of a long function that is a definition of its own is
    described where it is defined.

    * Interfaces

    Code outside src/ and components on the far side of a boundary are classes or records, and
    the theorems are proved against their laws: [HashFunctions] (hash functions), [Btcec]
    (signatures of scripts), [Ecdsa] (Go's ecdsa), [ChiaLib] (C libraries), [Protobuf]
    (marshalling), [SigCache.Env] (random source and map iteration), [Chain.Env] with
    [EnvLaws] and [EnvSucceeds] (what the chain calls), [StateTrie] (what the binding state asks
    of the trie, discharged by TrieState), and the records [ConnectContext], [PoolChain],
    [Lookup] and [StakingDb] (what validation, the pool and the lookups read from the rest).
    Each has an instance under which the theorems are applied to concrete inputs.

    * What is proved

    - Connecting and accepting (Connect, ValidateSpec, CoinbaseSpec, TxPoolRules): a connected
      block spends mature unspent outputs once, creates at most its subsidy, meets all relative
      locks and satisfies all scripts; likewise a transaction the pool accepts; exact
      characterisations of sane transactions and of active sequence locks; what a sane block is.
    - The chain (ChainSpec, ProcessSpec, ChainLive, BlockTreeSpec, OrphanPoolSpec): an invariant
      of the tree, the main chain, the caches and the orphan pool, kept by [processBlock] on any
      sequence of blocks; the tip is the best block known when the components succeed; adopting
      orphans ends; the target changes within bounds.
    - Other state machines (TxPoolSpec, TxPoolRules, ScriptVal, StakingUndo, BindingSpec): no
      double spend in the pool after any operations; removal closes over redeemers; the pool of
      goroutines decides validity under every interleaving; undoing a block restores the staking
      outputs; the binding total; the two ways of connecting a block agree.
    - Refinements (TxLookupSpec, TrieSpec, TrieState, SigCache, CurveSpec, ScalarSpec): the
      store of a side chain is its ledger; the trie is a finite map, the same tree whatever the
      history; the cache changes no answer; the word-level curve is the chord-and-tangent law.
    - Execution (EngineSafety, Witness, Signatures, SigEncoding, SigHash, Conditionals): runs
      end, stay within the limits and panic only in four opcodes; staking and binding locks are
      enforced; which signatures are accepted and what they commit to.  [esafe] is the program
      logic behind the first, with the hint database [safe].
    - Data (Amount, Rewards, Forks, Wire, Block, Script, ScriptNum, Standard, Merkle, PocHash,
      Base58, Bech32, AddressText, Keys): ranges, supply, round trips, canonicity, merkle roots,
      streaming.

    Errors and divergences found on the way are stated as theorems as well, such as the panic
    when a binding is withdrawn ([withdrawal_panics]), the panic of the signature check, and
    the loop of [GetRequiredBinding] that does not end for a large binding.

    * Bounds and fuel

    No result depends on fuel.  [Execute] takes the number of steps it may run;
    [EngineSafety.max_steps] is enough for every engine.  The parser consumes a byte per
    iteration of its fuel, the length of the script.  Trie operations return for every fuel
    above a bound computed from the key and the tree ([trie_refines_map]).  [processOrphans] is
    related to the fuel-free relation [ChainSpec.adopts], which is total and reached by every
    bound above the size of the orphan pool.  [removeTransaction] runs with the size of the
    pool and one more, which is enough ([removal_closes]).  [GetRequiredBinding] takes the
    number of iterations; the amounts for which the code ends, and the number that is enough,
    are stated in Forks.  Loops over merkle stores run for the size of the array.

    Integers have their Go width where they can wrap: heights and sequence locks are uint64 and
    int64, lengths wrap to uint32 where the code converts them, and the comparison of times
    wraps as [time.Time] does ([Block.instant]).  Lengths of slices are not bounded.

    * What is not modelled

    Storage and transport (database back ends, block files, p2p, netsync, rpc), the proposal
    pool and the selection of transactions for templates, the detector of double mining,
    fast import and other tools, signing of transactions, the hashing, committing and iterating
    of tries, the floating-point quality of proofs and plotting, and the float64 conversions of
    amounts.  Logging and printing are left out, and locks: each method of a cache or pool is
    one critical section.  Where Go ranges over a map the order is an argument or the theorems
    quantify over it, except in lists of results that are documented as unordered. *)

From Stdlib Require Import ZArith Lia.
From stdpp Require Export base list gmap strings.

#[global] Open Scope Z_scope.

(** * Go values *)

(** A byte is a [Z] in [0, 256); a byte slice is a list of them. *)
Abbreviation bytes := (list Z).

Definition is_byte (b : Z) : Prop := 0 <= b < 256.

Abbreviation bytes_ok := (Forall is_byte).

(** Go's [len] (an [int], 64 bits wide; every slice is far shorter than [2^63]). *)
Definition len {A} (l : list A) : Z := Z.of_nat (length l).

(** Conversion to a [w]-bit unsigned / two's complement signed integer. *)
Definition wrapU (w z : Z) : Z := z mod 2 ^ w.
Definition wrapS (w z : Z) : Z := (z + 2 ^ (w - 1)) mod 2 ^ w - 2 ^ (w - 1).

Abbreviation uint8 := (wrapU 8).
Abbreviation uint16 := (wrapU 16).
Abbreviation uint32 := (wrapU 32).
Abbreviation uint64 := (wrapU 64).
Abbreviation int32 := (wrapS 32).
Abbreviation int64 := (wrapS 64).

(** [binary.LittleEndian.PutUint{16,32,64}] and [Uint{16,32,64}]: [n] bytes, least
    significant first. *)
Fixpoint le_encode (n : nat) (z : Z) : bytes :=
  match n with
  | O => []
  | S n' => z mod 256 :: le_encode n' (z / 256)
  end.

Fixpoint le_decode (l : bytes) : Z :=
  match l with
  | [] => 0
  | b :: l' => b + 256 * le_decode l'
  end.

(** [big.Int.SetBytes]: big endian. *)
Definition be_decode (l : bytes) : Z := fold_left (fun acc b => acc * 256 + b) l 0.

(** [binary.BigEndian.PutUint{32,64}]: [n] bytes, most significant first. *)
Definition be_encode (n : nat) (z : Z) : bytes := rev (le_encode n z).

(** [bytes.Equal] *)
Definition bytes_Equal (a b : bytes) : bool := bool_decide (a = b).

(** [bytes.Contains(b, sub)]: [sub] occurs as a contiguous block of [b]. *)
Fixpoint is_prefix (sub b : bytes) : bool :=
  match sub, b with
  | [], _ => true
  | x :: sub', y :: b' => (x =? y) && is_prefix sub' b'
  | _ :: _, [] => false
  end.

Fixpoint bytes_Contains (b sub : bytes) : bool :=
  is_prefix sub b ||
  match b with
  | [] => false
  | _ :: b' => bytes_Contains b' sub
  end.

(** [bytes.Compare]: lexicographic. *)
Fixpoint bytes_Compare (a b : bytes) : comparison :=
  match a, b with
  | [], [] => Eq
  | [], _ :: _ => Lt
  | _ :: _, [] => Gt
  | x :: a', y :: b' =>
      match x ?= y with Eq => bytes_Compare a' b' | c => c end
  end.

(** * Outcomes and programs *)

(** What a Go call does: return, return a non-nil error, or panic. *)
Inductive outcome (E A : Type) : Type :=
| Ret (a : A)
| Err (e : E)
| Panic.
Arguments Ret {E A} a.
Arguments Err {E A} e.
Arguments Panic {E A}.

#[global] Instance outcome_eq_dec `{EqDecision E, EqDecision A} : EqDecision (outcome E A).
Proof. solve_decision. Defined.

#[global] Instance outcome_ret E : MRet (outcome E) := fun A a => Ret a.
#[global] Instance outcome_bind E : MBind (outcome E) := fun A B f o =>
  match o with Ret a => f a | Err e => Err e | Panic => Panic end.

(** A method on a receiver of type [S].  The receiver is mutated in place, so its
    state at the point of failure is kept: Go does not roll back. *)
Definition prog (S E A : Type) : Type := S -> outcome E A * S.

#[global] Instance prog_ret S E : MRet (prog S E) := fun A a s => (Ret a, s).
#[global] Instance prog_bind S E : MBind (prog S E) := fun A B f c s =>
  match c s with
  | (Ret a, s') => f a s'
  | (Err e, s') => (Err e, s')
  | (Panic, s') => (Panic, s')
  end.

Definition throw {S E A} (e : E) : prog S E A := fun s => (Err e, s).
Definition panic {S E A} : prog S E A := fun s => (Panic, s).
Definition gets {S E A} (f : S -> A) : prog S E A := fun s => (Ret (f s), s).
Definition modify {S E} (f : S -> S) : prog S E unit := fun s => (Ret tt, f s).
Definition lift {S E A} (o : outcome E A) : prog S E A := fun s => (o, s).

(** Run a method of a field. *)
Definition zoom {S T E A} (get : S -> T) (set : S -> T -> S) (c : prog T E A) : prog S E A :=
  fun s => let (o, t) := c (get s) in (o, set s t).

(** [_ = c()]: the error of [c] is discarded, its effects are kept. *)
Definition ignore_err {S E} (c : prog S E unit) : prog S E unit := fun s =>
  match c s with
  | (Err _, s') => (Ret tt, s')
  | r => r
  end.

(** [if b { return err }] *)
Definition fail_if {S E} (b : bool) (e : E) : prog S E unit :=
  if b then throw e else mret tt.

Definition check {E} (b : bool) (e : E) : outcome E unit :=
  if b then Err e else Ret tt.

(** Slice indexing and slicing panic out of range. *)
Definition index {E A} (l : list A) (i : Z) : outcome E A :=
  if (i <? 0) then Panic
  else match l !! Z.to_nat i with Some x => Ret x | None => Panic end.

Definition slice {E A} (l : list A) (i j : Z) : outcome E (list A) :=
  if (0 <=? i) && (i <=? j) && (j <=? len l)
  then Ret (take (Z.to_nat (j - i)) (drop (Z.to_nat i) l))
  else Panic.

(** [copy(dst[i:], src)] for [i] within [dst]: the destination afterwards. *)
Definition copy_at {A} (dst : list A) (i : nat) (src : list A) : list A :=
  take i dst ++ take (length dst - i) src ++ drop (i + length src) dst.

(** [o] is the return of a value satisfying [P]. *)
Definition returns {E A} (o : outcome E A) (P : A -> Prop) : Prop :=
  match o with Ret a => P a | _ => False end.

Definition is_Ret {E A} (o : outcome E A) : Prop := exists a, o = Ret a.
Definition is_Err {E A} (o : outcome E A) : Prop := exists e, o = Err e.

Definition is_panic {E A} (o : outcome E A) : bool :=
  match o with Panic => true | _ => false end.

(** * Tactics *)

(** Split the conjunctions of booleans in the context and turn boolean tests into
    propositions [lia] understands. *)
Ltac bool_to_prop :=
  repeat match goal with
  | H : (_ && _) = true |- _ => apply andb_true_iff in H; destruct H
  | H : (_ || _) = false |- _ => apply orb_false_iff in H; destruct H
  | H : negb _ = true |- _ => apply negb_true_iff in H
  | H : negb _ = false |- _ => apply negb_false_iff in H
  | H : (_ =? _) = true |- _ => apply Z.eqb_eq in H
  | H : (_ =? _) = false |- _ => apply Z.eqb_neq in H
  | H : (_ <? _) = true |- _ => apply Z.ltb_lt in H
  | H : (_ <? _) = false |- _ => apply Z.ltb_ge in H
  | H : (_ <=? _) = true |- _ => apply Z.leb_le in H
  | H : (_ <=? _) = false |- _ => apply Z.leb_gt in H
  | H : (_ >? _) = _ |- _ => rewrite Z.gtb_ltb in H
  | H : (_ >=? _) = _ |- _ => rewrite Z.geb_leb in H
  | H : bool_decide _ = true |- _ => apply bool_decide_eq_true_1 in H
  | H : bool_decide _ = false |- _ => apply bool_decide_eq_false_1 in H
  end.

(** Case analysis on the tests and matches of a definition under study. *)
Ltac case_if :=
  match goal with
  | |- context [if ?b then _ else _] => destruct b eqn:?
  | H : context [if ?b then _ else _] |- _ => destruct b eqn:?
  end.
Ltac case_ifs := repeat (case_if; simplify_eq/=); bool_to_prop.

(** [run] executes monadic code symbolically. *)
Ltac run :=
  cbn [mbind mret prog_bind prog_ret outcome_bind outcome_ret throw panic gets modify lift
       fail_if check ignore_err zoom fst snd] in *.

Create HintDb golib.
Create Rewrite HintDb golen.

(** * Lists and lengths *)

Section lists.
Context {A : Type}.
Implicit Types (l k : list A) (x : A) (i j : Z).

Lemma len_nil : len (@nil A) = 0.
Proof. done. Qed.

Lemma len_cons x l : len (x :: l) = 1 + len l.
Proof. unfold len. cbn [length]. lia. Qed.

Lemma len_one x : len [x] = 1.
Proof. done. Qed.

Lemma len_app l k : len (l ++ k) = len l + len k.
Proof. unfold len. rewrite length_app. lia. Qed.

Lemma len_nonneg l : 0 <= len l.
Proof. unfold len. lia. Qed.

Lemma len_take n l : len (take n l) = Z.min (Z.of_nat n) (len l).
Proof. unfold len. rewrite length_take. lia. Qed.

Lemma len_drop n l : len (drop n l) = Z.max 0 (len l - Z.of_nat n).
Proof. unfold len. rewrite length_drop. lia. Qed.

Lemma len_zero_iff l : len l = 0 <-> l = [].
Proof. unfold len. destruct l; cbn; split; intros; (done || lia). Qed.

Lemma len_nat l n : len l = Z.of_nat n -> length l = n.
Proof. unfold len. lia. Qed.

Lemma to_nat_len l : Z.to_nat (len l) = length l.
Proof. unfold len. lia. Qed.

Lemma index_Ret {E} l i x :
  index (E := E) l i = Ret x <-> 0 <= i /\ l !! Z.to_nat i = Some x.
Proof.
  unfold index. case_if; bool_to_prop; [split; [done|lia]|].
  destruct (l !! Z.to_nat i) eqn:?; split; intros; destruct_and?; simplify_eq; auto.
Qed.

Lemma index_total {E} l i :
  0 <= i < len l -> exists x, index (E := E) l i = Ret x /\ l !! Z.to_nat i = Some x.
Proof.
  intros Hi. destruct (lookup_lt_is_Some_2 l (Z.to_nat i)) as [x Hx].
  { unfold len in Hi. lia. }
  exists x. split; [apply index_Ret; split; [lia|done]|done].
Qed.

Lemma index_Panic {E} l i :
  index (E := E) l i = Panic <-> i < 0 \/ len l <= i.
Proof.
  unfold index, len. case_if; bool_to_prop; [split; [lia|done]|].
  destruct (l !! Z.to_nat i) eqn:Hl.
  - apply lookup_lt_Some in Hl. split; [done|lia].
  - apply lookup_ge_None in Hl. split; [lia|done].
Qed.

Lemma index_not_Err {E} l i (e : E) : index l i <> Err e.
Proof. unfold index. repeat case_match; done. Qed.

Lemma slice_Ret {E} l i j :
  0 <= i <= j -> j <= len l ->
  slice (E := E) l i j = Ret (take (Z.to_nat (j - i)) (drop (Z.to_nat i) l)).
Proof.
  intros. unfold slice. replace ((0 <=? i) && (i <=? j) && (j <=? len l)) with true; [done|].
  symmetry. rewrite !andb_true_iff, !Z.leb_le. lia.
Qed.

Lemma slice_mid {E} (a b c : list A) : slice (E := E) (a ++ b ++ c) (len a) (len a + len b) = Ret b.
Proof.
  pose proof (len_nonneg a). pose proof (len_nonneg b). pose proof (len_nonneg c).
  rewrite slice_Ret by (rewrite ?len_app; lia). f_equal.
  replace (Z.to_nat (len a)) with (length a) by (unfold len; lia). rewrite drop_app_length.
  replace (Z.to_nat (len a + len b - len a)) with (length b) by (unfold len; lia). apply take_app_length.
Qed.

Lemma slice_pre {E} (a b : list A) : slice (E := E) (a ++ b) 0 (len a) = Ret a.
Proof. pose proof (slice_mid (E := E) [] a b) as H. exact H. Qed.

Lemma slice_post {E} (a b : list A) : slice (E := E) (a ++ b) (len a) (len (a ++ b)) = Ret b.
Proof. pose proof (slice_mid (E := E) a b []) as H. rewrite app_nil_r in H. by rewrite len_app. Qed.

Lemma index_app_r {E} (l k : list A) j : 0 <= j -> index (E := E) (l ++ k) (len l + j) = index k j.
Proof.
  intros Hj. unfold index. pose proof (len_nonneg l).
  replace (len l + j <? 0) with false by (symmetry; apply Z.ltb_ge; lia).
  replace (j <? 0) with false by (symmetry; apply Z.ltb_ge; lia).
  replace (Z.to_nat (len l + j)) with (length l + Z.to_nat j)%nat by (unfold len; lia).
  by rewrite lookup_app_r, Nat.add_sub_swap, Nat.sub_diag by lia.
Qed.

Lemma lookup_app_mid l x k : (l ++ x :: k) !! length l = Some x.
Proof. rewrite lookup_app_r by lia. by rewrite Nat.sub_diag. Qed.

Lemma length_eq_Z l k : len l = len k -> length l = length k.
Proof. unfold len. lia. Qed.
End lists.

#[export] Hint Rewrite @len_one @len_cons @len_nil @len_app @len_take @len_drop : golen.
#[export] Hint Resolve len_nonneg : golib.

(** Arithmetic goals over lengths. *)
Ltac len_lia :=
  autorewrite with golen in *;
  repeat match goal with
  | l : list ?A |- _ =>
      lazymatch goal with
      | H : 0 <= len l |- _ => fail
      | _ => pose proof (len_nonneg l)
      end
  end; lia.

(** * Outcome lemmas *)

Lemma Ret_inj {E A} (a b : A) : Ret (E := E) a = Ret b -> a = b.
Proof. by intros [=]. Qed.

Lemma bind_Ret {E A B} (o : outcome E A) (f : A -> outcome E B) b :
  o ≫= f = Ret b <-> exists a, o = Ret a /\ f a = Ret b.
Proof.
  destruct o; cbn; split; [eauto|intros (?&[= ->]&?); done|done|intros (?&?&?); done|done|].
  intros (?&?&?); done.
Qed.

Lemma prog_bind_Ret {S E A B} (c : prog S E A) (f : A -> prog S E B) s s' b :
  (c ≫= f) s = (Ret b, s') <-> exists a t, c s = (Ret a, t) /\ f a t = (Ret b, s').
Proof.
  unfold mbind, prog_bind. split.
  - destruct (c s) as [[a|e|] t]; [eauto|done|done].
  - intros (a & t & -> & ?). done.
Qed.

(** Inversion of a successful run. *)
Ltac inv_run H :=
  let a := fresh "a" in let t := fresh "s" in let H1 := fresh "Hrun" in
  apply prog_bind_Ret in H; destruct H as (a & t & H1 & H).

(** * Machine integers *)

Lemma wrapU_range w z : 0 <= w -> 0 <= wrapU w z < 2 ^ w.
Proof. intros. apply Z.mod_pos_bound. lia. Qed.

Lemma wrapU_small w z : 0 <= z < 2 ^ w -> wrapU w z = z.
Proof. apply Z.mod_small. Qed.

Lemma wrapS_range w z : 1 <= w -> - 2 ^ (w - 1) <= wrapS w z < 2 ^ (w - 1).
Proof.
  intros. unfold wrapS.
  assert (2 ^ w = 2 * 2 ^ (w - 1)) as Hw.
  { rewrite <- Z.pow_succ_r by lia. f_equal. lia. }
  pose proof (Z.mod_pos_bound (z + 2 ^ (w - 1)) (2 ^ w) ltac:(lia)). lia.
Qed.

Lemma wrapS_small w z : 1 <= w -> - 2 ^ (w - 1) <= z < 2 ^ (w - 1) -> wrapS w z = z.
Proof.
  intros. unfold wrapS.
  assert (2 ^ w = 2 * 2 ^ (w - 1)) as Hw.
  { rewrite <- Z.pow_succ_r by lia. f_equal. lia. }
  rewrite Z.mod_small by lia. lia.
Qed.

Lemma int64_small z : - 2 ^ 63 <= z < 2 ^ 63 -> int64 z = z.
Proof. intros. apply wrapS_small; lia. Qed.

Lemma int32_small z : - 2 ^ 31 <= z < 2 ^ 31 -> int32 z = z.
Proof. intros. apply wrapS_small; lia. Qed.

(** Two's complement: bits below the sign bit are kept, the sign bit is replicated. *)
Lemma wrapS_testbit w z i :
  1 <= w -> 0 <= i ->
  Z.testbit (wrapS w z) i = Z.testbit z (Z.min i (w - 1)).
Proof.
  intros Hw Hi. unfold wrapS.
  assert (2 ^ w = 2 * 2 ^ (w - 1)) as Hp.
  { rewrite <- Z.pow_succ_r by lia. f_equal. lia. }
  set (h := 2 ^ (w - 1)) in *.
  assert (0 < h) as Hh by (unfold h; lia).
  rewrite Hp.
  assert (exists lo s k, z = lo + h * (s + 2 * k) /\ 0 <= lo < h /\ 0 <= s < 2) as (lo & s & k & Hz & Hlo & Hs).
  { exists (z mod h), ((z / h) mod 2), (z / h / 2).
    pose proof (Z.div_mod z h ltac:(lia)). pose proof (Z.div_mod (z / h) 2 ltac:(lia)).
    pose proof (Z.mod_pos_bound z h ltac:(lia)). pose proof (Z.mod_pos_bound (z / h) 2 ltac:(lia)).
    split; [nia|lia]. }
  replace ((z + h) mod (2 * h) - h) with (lo - h * s).
  2:{ assert (s = 0 \/ s = 1) as [-> | ->] by lia.
      - rewrite <- (Z.mod_unique (z + h) (2 * h) k (lo + h)); [lia|lia|nia].
      - rewrite <- (Z.mod_unique (z + h) (2 * h) (k + 1) lo); [lia|lia|nia]. }
  assert (forall q, 0 <= i < w - 1 -> Z.testbit (lo + h * q) i = Z.testbit lo i) as Hlow.
  { intros q Hq. unfold h. rewrite <- (Z.mod_pow2_bits_low (lo + 2 ^ (w - 1) * q) (w - 1) i) by lia.
    rewrite (Z.mul_comm _ q), Z_mod_plus_full, Z.mod_pow2_bits_low by lia. done. }
  destruct (decide (i < w - 1)).
  - rewrite Z.min_l by lia. subst z. rewrite Hlow by lia.
    replace (lo - h * s) with (lo + h * (- s)) by lia. by rewrite Hlow by lia.
  - rewrite Z.min_r by lia. subst z.
    assert (Z.testbit (lo + h * (s + 2 * k)) (w - 1) = Z.odd s) as ->.
    { rewrite Z.testbit_odd, Z.shiftr_div_pow2 by lia. fold h.
      rewrite (Z.mul_comm h), Z.div_add, Z.div_small by lia.
      rewrite Z.add_0_l, Z.odd_add_mul_2. done. }
    rewrite Z.testbit_odd, Z.shiftr_div_pow2 by lia.
    assert (h <= 2 ^ i) by (unfold h; apply Z.pow_le_mono_r; lia).
    assert (s = 0 \/ s = 1) as [-> | ->] by lia.
    + rewrite Z.mul_0_r, Z.sub_0_r, Z.div_small by lia. done.
    + rewrite <- (Z.div_unique (lo - h * 1) (2 ^ i) (-1) (2 ^ i + lo - h)); [done|lia|lia].
Qed.

Lemma wrapS_lor w a b : 1 <= w -> wrapS w (Z.lor a b) = Z.lor (wrapS w a) (wrapS w b).
Proof.
  intros. apply Z.bits_inj'. intros i Hi.
  rewrite Z.lor_spec, !wrapS_testbit, Z.lor_spec by lia. done.
Qed.

Lemma wrapS_land w a b : 1 <= w -> wrapS w (Z.land a b) = Z.land (wrapS w a) (wrapS w b).
Proof.
  intros. apply Z.bits_inj'. intros i Hi.
  rewrite Z.land_spec, !wrapS_testbit, Z.land_spec by lia. done.
Qed.

(** Disjoint [lor] is addition. *)
Lemma lor_shiftl_add a b n :
  0 <= n -> 0 <= a < 2 ^ n -> Z.lor a (Z.shiftl b n) = a + b * 2 ^ n.
Proof.
  intros Hn Ha. pose proof (Z.add_lor_land a (Z.shiftl b n)) as Hadd.
  rewrite Z.shiftl_mul_pow2 in Hadd at 3 by lia.
  enough (Z.land a (Z.shiftl b n) = 0) by lia.
  apply Z.bits_inj'. intros i Hi. rewrite Z.land_spec, Z.bits_0.
  destruct (decide (i < n)).
  - rewrite Z.shiftl_spec_low by lia. apply andb_false_r.
  - rewrite <- (Z.mod_small a (2 ^ n)) by lia. rewrite Z.mod_pow2_bits_high by lia. done.
Qed.

Lemma lor_range n a b : 0 <= n -> 0 <= a < 2 ^ n -> 0 <= b < 2 ^ n -> 0 <= Z.lor a b < 2 ^ n.
Proof.
  intros Hn Ha Hb. assert (Z.lor a b = Z.lor a b mod 2 ^ n) as ->.
  - apply Z.bits_inj'. intros i Hi. destruct (decide (i < n)).
    + by rewrite Z.mod_pow2_bits_low by lia.
    + rewrite Z.mod_pow2_bits_high, Z.lor_spec by lia.
      rewrite <- (Z.mod_small a (2 ^ n)), <- (Z.mod_small b (2 ^ n)) by lia.
      by rewrite !Z.mod_pow2_bits_high by lia.
  - apply Z.mod_pos_bound. lia.
Qed.

(** * Little-endian codecs *)

Lemma length_le_encode n z : length (le_encode n z) = n.
Proof. revert z. induction n; cbn; auto. Qed.

Lemma le_encode_ok n z : bytes_ok (le_encode n z).
Proof.
  revert z. induction n; intros z; cbn; constructor; auto.
  unfold is_byte. apply Z.mod_pos_bound. lia.
Qed.

Lemma le_decode_encode n z : le_decode (le_encode n z) = z mod 256 ^ Z.of_nat n.
Proof.
  revert z. induction n as [|n IH]; intros z.
  - change (256 ^ Z.of_nat 0) with 1. cbn. by rewrite Z.mod_1_r.
  - cbn [le_encode le_decode]. rewrite IH, Nat2Z.inj_succ, Z.pow_succ_r by lia.
    rewrite Z.rem_mul_r by lia. lia.
Qed.

Lemma le_encode_decode l : bytes_ok l -> le_encode (length l) (le_decode l) = l.
Proof.
  induction 1 as [|b l Hb Hl IH]; [done|].
  cbn [length le_encode le_decode]. unfold is_byte in Hb.
  rewrite (Z.mul_comm 256), Z.mod_add, Z.mod_small by lia.
  rewrite Z.div_add, Z.div_small by lia. rewrite Z.add_0_l. by rewrite IH.
Qed.

Lemma le_decode_range l : bytes_ok l -> 0 <= le_decode l < 256 ^ len l.
Proof.
  induction 1 as [|b l Hb Hl IH]; [done|].
  cbn [le_decode]. rewrite len_cons, Z.pow_add_r by (pose proof (len_nonneg l); lia).
  unfold is_byte in Hb. lia.
Qed.

Lemma le_decode_app l k : le_decode (l ++ k) = le_decode l + 256 ^ len l * le_decode k.
Proof.
  induction l as [|b l IH]; [change (len (@nil Z)) with 0; cbn [app le_decode]; lia|].
  cbn [le_decode app]. rewrite IH, len_cons, Z.pow_add_r by (pose proof (len_nonneg l); lia). lia.
Qed.

Lemma le_decode_inj l k :
  bytes_ok l -> bytes_ok k -> length l = length k -> le_decode l = le_decode k -> l = k.
Proof.
  intros Hl Hk Hlen Heq. rewrite <- (le_encode_decode l), <- (le_encode_decode k) by done.
  by rewrite Hlen, Heq.
Qed.

Lemma le_encode_inj n a b :
  0 <= a < 256 ^ Z.of_nat n -> 0 <= b < 256 ^ Z.of_nat n ->
  le_encode n a = le_encode n b -> a = b.
Proof.
  intros Ha Hb Heq. apply (f_equal le_decode) in Heq.
  by rewrite !le_decode_encode, !Z.mod_small in Heq.
Qed.

#[export] Hint Resolve le_encode_ok : golib.

(** * Big-endian codecs *)

Lemma be_decode_rev l : be_decode l = le_decode (rev l).
Proof.
  unfold be_decode. induction l as [|b l IH] using rev_ind; [done|].
  rewrite fold_left_app, rev_app_distr. cbn [fold_left rev app le_decode]. rewrite IH. lia.
Qed.

Lemma length_be_encode n z : length (be_encode n z) = n.
Proof. unfold be_encode. by rewrite length_rev, length_le_encode. Qed.

Lemma be_encode_ok n z : bytes_ok (be_encode n z).
Proof. apply Forall_rev, le_encode_ok. Qed.

Lemma be_encode_decode n l : bytes_ok l -> length l = n -> be_encode n (be_decode l) = l.
Proof.
  intros Hl <-. unfold be_encode. rewrite be_decode_rev, <- length_rev, le_encode_decode by by apply Forall_rev.
  apply rev_involutive.
Qed.

Lemma be_decode_encode n z : be_decode (be_encode n z) = z mod 256 ^ Z.of_nat n.
Proof. unfold be_encode. rewrite be_decode_rev, rev_involutive. apply le_decode_encode. Qed.

Lemma be_decode_range l : bytes_ok l -> 0 <= be_decode l < 256 ^ len l.
Proof.
  intros Hl. rewrite be_decode_rev. replace (len l) with (len (rev l)) by (unfold len; by rewrite length_rev).
  by apply le_decode_range, Forall_rev.
Qed.

Lemma be_decode_zeros n b : be_decode (replicate n 0 ++ b) = be_decode b.
Proof. unfold be_decode. rewrite fold_left_app. f_equal. induction n as [| n IH]; [reflexivity | exact IH]. Qed.

#[export] Hint Resolve be_encode_ok : golib.

Lemma bytes_Equal_true a b : bytes_Equal a b = true <-> a = b.
Proof. apply bool_decide_eq_true. Qed.

(** * Running programs *)

Section running.
Context {S E A B : Type}.
Implicit Types (c : prog S E A) (f : A -> prog S E B) (s : S).

Lemma bind_step c f s a s' : c s = (Ret a, s') -> (c ≫= f) s = f a s'.
Proof. intros H. unfold mbind, prog_bind. by rewrite H. Qed.

Lemma bind_err c f s e s' : c s = (Err e, s') -> (c ≫= f) s = (Err e, s').
Proof. intros H. unfold mbind, prog_bind. by rewrite H. Qed.

Lemma bind_panic c f s s' : c s = (Panic, s') -> (c ≫= f) s = (Panic, s').
Proof. intros H. unfold mbind, prog_bind. by rewrite H. Qed.
End running.

(** The elementary programs, as rewriting rules: [steps] runs a program symbolically. *)
Section elementary.
Context {S E : Type} {A B C : Type}.
Implicit Types (s : S).

Lemma bind_gets (g : S -> A) (f : A -> prog S E B) s : (gets g ≫= f) s = f (g s) s.
Proof. done. Qed.
Lemma bind_modify (g : S -> S) (f : unit -> prog S E B) s : (modify g ≫= f) s = f tt (g s).
Proof. done. Qed.
Lemma bind_mret (a : A) (f : A -> prog S E B) s : (mret a ≫= f) s = f a s.
Proof. done. Qed.
Lemma bind_throw (e : E) (f : A -> prog S E B) s : (throw e ≫= f) s = (Err e, s).
Proof. done. Qed.
Lemma bind_lift_Ret (a : A) (f : A -> prog S E B) s : (lift (Ret a) ≫= f) s = f a s.
Proof. done. Qed.
Lemma bind_lift_Err (e : E) (f : A -> prog S E B) s : (lift (Err e) ≫= f) s = (Err e, s).
Proof. done. Qed.
Lemma bind_lift_Panic (f : A -> prog S E B) s : (lift Panic ≫= f) s = (Panic, s).
Proof. done. Qed.
Lemma bind_fail_false (e : E) (f : unit -> prog S E B) s : (fail_if false e ≫= f) s = f tt s.
Proof. done. Qed.
Lemma bind_fail_true (e : E) (f : unit -> prog S E B) s : (fail_if true e ≫= f) s = (Err e, s).
Proof. done. Qed.
Lemma bind_bind (c : prog S E A) (f : A -> prog S E B) (g : B -> prog S E C) s :
  ((c ≫= f) ≫= g) s = (c ≫= fun a => f a ≫= g) s.
Proof. unfold mbind, prog_bind. by destruct (c s) as [[a|e|] s']. Qed.
End elementary.

Create Rewrite HintDb step.
#[export] Hint Rewrite @bind_gets @bind_modify @bind_mret @bind_throw @bind_lift_Ret @bind_lift_Err
  @bind_lift_Panic @bind_fail_false @bind_fail_true @bind_bind : step.
Ltac steps := repeat (progress (autorewrite with step; cbn beta iota)).

Lemma zoom_step {S T E A} (get : S -> T) (set : S -> T -> S) (c : prog T E A) s o t :
  c (get s) = (o, t) -> zoom get set c s = (o, set s t).
Proof. intros H. unfold zoom. by rewrite H. Qed.

(** Evaluate the boolean tests on integer literals in the goal. *)
Ltac is_literal a :=
  lazymatch a with
  | Z0 => idtac | Zpos _ => idtac | Zneg _ => idtac | Z.opp (Zpos _) => idtac
  end.
Ltac closed_test t a b :=
  is_literal a; is_literal b; let r := eval vm_compute in t in change t with r.
Ltac closed_tests :=
  repeat match goal with
  | |- context [?a =? ?b] => closed_test (a =? b) a b
  | |- context [?a <? ?b] => closed_test (a <? b) a b
  | |- context [?a <=? ?b] => closed_test (a <=? b) a b
  | |- context [?a >? ?b] => closed_test (a >? b) a b
  | |- context [?a >=? ?b] => closed_test (a >=? b) a b
  end; cbn [negb andb orb].

(** Deciding [bytes_ok] on concrete strings. *)
Definition bytes_okb (l : bytes) : bool := forallb (fun b => (0 <=? b) && (b <? 256)) l.

Lemma bytes_okb_ok l : bytes_okb l = true -> bytes_ok l.
Proof.
  unfold bytes_okb. rewrite forallb_forall. intros H. apply Forall_forall. intros b Hb.
  specialize (H b (proj1 (list_elem_of_In _ _) Hb)). bool_to_prop. split; lia.
Qed.

Ltac solve_bytes := apply bytes_okb_ok; vm_compute; reflexivity.

Lemma bytes_ok_one b : is_byte b -> bytes_ok [b].
Proof. intros. apply Forall_cons. split; [done|apply Forall_nil_2]. Qed.
#[export] Hint Resolve bytes_ok_one : golib.
