(* ===== verification/TxCommon.v ===== *)
(** Errors, limits and flags of the script package: txscript/error.go and
    txscript/common.go, with the formatted errors that opcode.go, engine.go,
    script.go and scriptbuilder.go build with fmt.Errorf. *)

From S2P Require Import Prelude.

(** The shape errors of a DER signature, in the order checkSignatureEncoding
    reports them. *)
Inductive der_error : Set :=
| DerTooShort | DerTooLong | DerWrongType | DerBadLength | DerSOutOfBounds
| DerInvalidRLength | DerNoFirstMarker | DerRLengthZero | DerRNegative | DerRInvalid
| DerNoSecondMarker | DerSLengthZero | DerSNegative | DerSInvalid.

(** The reasons for which the script builder records ErrScriptNotCanonical. *)
Inductive canonical_error : Set :=
| NcOpcode | NcData (size : Z) | NcElement (size : Z) | NcInteger
| NcCoinbaseHeight (val : Z) | NcCoinbaseLength (size : Z).

(** The package's sentinel errors by name, then its formatted errors with the values
    they print. *)
Inductive script_error : Set :=
| ErrStackShortScript
| ErrStackLongScript
| ErrStackUnderflow
| ErrStackInvalidArgs
| ErrStackOpDisabled
| ErrStackVerifyFailed
| ErrStackNumberTooBig
| ErrStackInvalidOpcode
| ErrStackReservedOpcode
| ErrTooManyOperations
| ErrStackEarlyReturn
| ErrStackNoIf
| ErrStackMissingEndif
| ErrStackTooManyPubKeys
| ErrStackTooManyOperations
| ErrStackElementTooBig
| ErrStackUnknownAddress
| ErrStackScriptFailed
| ErrStackScriptUnfinished
| ErrStackEmptyStack
| ErrStackP2SHNonPushOnly
| ErrStackInvalidParseType
| ErrStackInvalidAddrOffset
| ErrStackInvalidIndex
| ErrStackNonPushOnly
| ErrStackOverflow
| ErrStackInvalidLowSSignature
| ErrStackInvalidPubKey
| ErrStackCleanStack
| ErrStackMinimalData
| ErrWitnessProgramEmpty
| ErrWitnessProgramMismatch
| ErrWitnessPubKeyType
| ErrWitnessProgramLength
| ErrWitnessExtProgramLength
| ErrDiscourageUpgradableWitnessProgram
| ErrInvalidFlags
| ErrWitnessUnexpected
| ErrWitnessMalleated
| ErrWitnessLength
| ErrwitnessProgramFormat
| ErrUnsupportedAddress
| ErrBadNumRequired
| ErrNullFail
| ErrInvalidBindingScript
| ErrBindingUnexpected
| ErrFrozenPeriod
| ErrScriptTooBig
| ErrWitnessExtProgUnknown
| ErrScriptNotCanonical (why : canonical_error)
| ErrPastInputScripts (scriptIdx scriptOff : Z)
| ErrMalformedSignature (why : der_error)
| ErrInvalidHashType (hashType : Z)
| ErrReservedNop (n : Z)
| ErrNegativeLockTime (n : Z)
| ErrMismatchedLockTime (txLockTime lockTime : Z)
| ErrLockTimeUnsatisfied (lockTime txLockTime : Z)
| ErrInputFinalized
| ErrSequenceDisabled (txSequence : Z)
| ErrInvalidFrozenPeriod (n : Z)
| ErrInvalidOpcodeLength (length : Z)
| ErrInputIndex (idx txins : Z)
| ErrInvalidScriptHashType.

#[global] Instance der_error_eq_dec : EqDecision der_error.
Proof. solve_decision. Defined.
#[global] Instance canonical_error_eq_dec : EqDecision canonical_error.
Proof. solve_decision. Defined.
#[global] Instance script_error_eq_dec : EqDecision script_error.
Proof. solve_decision. Defined.

(** Methods of the package fail with a [script_error]. *)
Abbreviation result := (outcome script_error).
Abbreviation method S := (prog S script_error).

(** * common.go *)

Definition LockTimeThreshold : Z := 500000000.

(** Script flags (uint32 bit masks). *)
Definition ScriptDiscourageUpgradableNops : Z := Z.shiftl 1 0.
Definition ScriptMASSip2 : Z := Z.shiftl 1 1.
Definition StandardVerifyFlags : Z := ScriptDiscourageUpgradableNops.

(** Hash types (uint32). *)
Definition SigHashAll : Z := 0x1.
Definition SigHashNone : Z := 0x2.
Definition SigHashSingle : Z := 0x3.
Definition SigHashAnyOneCanPay : Z := 0x80.
Definition sigHashMask : Z := 0x1f.

Definition maxStackSize : Z := 1000.
Definition maxScriptSize : Z := 10000.
Definition MaxOpsPerScript : Z := 201.
Definition MaxPubKeysPerMultiSig : Z := 20.
Definition MaxScriptElementSize : Z := 520.
Definition maxInt32 : Z := Z.shiftl 1 31 - 1.
Definition minInt32 : Z := - Z.shiftl 1 31.
Definition defaultScriptNumLen : Z := 4.
Definition MaxDataCarrierSize : Z := 80.
Definition WitnessV0ScriptHashDataSize : Z := 32.
Definition WitnessV0FrozenPeriodDataSize : Z := 8.

Inductive ScriptClass : Set :=
| NonStandardTy | WitnessV0ScriptHashTy | StakingScriptHashTy | BindingScriptHashTy
| MultiSigTy | NullDataTy.

#[global] Instance ScriptClass_eq_dec : EqDecision ScriptClass.
Proof. solve_decision. Defined.
