(* ===== verification/ScriptNum.v ===== *)
(** Script numbers: txscript/scriptnum.go.  The sign-magnitude little-endian
    encoding of int64 values that the numeric opcodes read and write, its minimality
    check, and the round trips between the two. *)

From S2P Require Import Prelude TxCommon.

(** [Some ErrStackMinimalData] when [v] is not minimally encoded, [None] for nil. *)
Definition checkMinimalDataEncoding (v : bytes) : result unit :=
  if len v =? 0 then Ret tt
  else
    last ← index v (len v - 1);
    if Z.land last 0x7f =? 0 then
      if len v =? 1 then Err ErrStackMinimalData
      else
        second ← index v (len v - 2);
        if Z.land second 0x80 =? 0 then Err ErrStackMinimalData else Ret tt
    else Ret tt.

(** The loop [for n > 0 { result = append(result, byte(n&0xff)); n >>= 8 }].  A
    positive int64 is exhausted by 8 iterations. *)
Fixpoint scriptNum_magnitude (fuel : nat) (n : Z) : bytes :=
  match fuel with
  | O => []
  | S fuel' =>
      if n >? 0 then uint8 (Z.land n 0xff) :: scriptNum_magnitude fuel' (Z.shiftr n 8) else []
  end.

(** [scriptNum.Bytes]; [n] is an int64. *)
Definition scriptNum_Bytes (n : Z) : result bytes :=
  if n =? 0 then Ret []
  else
    let isNegative := n <? 0 in
    let n := if isNegative then int64 (- n) else n in
    let res := scriptNum_magnitude 8 n in
    last ← index res (len res - 1);
    if negb (Z.land last 0x80 =? 0) then
      Ret (res ++ [if isNegative then 0x80 else 0x00])
    else if isNegative then
      Ret (<[Z.to_nat (len res - 1) := Z.lor last 0x80]> res)
    else Ret res.

(** [scriptNum.Int32]: clamped, not truncated. *)
Definition scriptNum_Int32 (n : Z) : Z :=
  if n >? maxInt32 then maxInt32
  else if n <? minInt32 then minInt32
  else int32 n.

(** The decoding loop [for i, val := range v { result |= int64(val) << uint8(8*i) }]. *)
Fixpoint scriptNum_decode (i : Z) (v : bytes) (res : Z) : Z :=
  match v with
  | [] => res
  | val :: v' => scriptNum_decode (i + 1) v' (Z.lor res (int64 (Z.shiftl val (uint8 (8 * i)))))
  end.

Definition makeScriptNum (v : bytes) (requireMinimal : bool) (scriptNumLen : Z) : result Z :=
  if len v >? scriptNumLen then Err ErrStackNumberTooBig
  else
    _ ← (if requireMinimal then checkMinimalDataEncoding v else Ret tt);
    if len v =? 0 then Ret 0
    else
      let res := scriptNum_decode 0 v 0 in
      last ← index v (len v - 1);
      if negb (Z.land last 0x80 =? 0) then
        let res := Z.land res (Z.lnot (int64 (Z.shiftl 0x80 (uint8 (8 * (len v - 1)))))) in
        Ret (int64 (- res))
      else Ret res.

(** * The encodings documented at the head of Bytes *)

Example Bytes_127 : scriptNum_Bytes 127 = Ret [0x7f]. Proof. reflexivity. Qed.
Example Bytes_m127 : scriptNum_Bytes (-127) = Ret [0xff]. Proof. reflexivity. Qed.
Example Bytes_128 : scriptNum_Bytes 128 = Ret [0x80; 0x00]. Proof. reflexivity. Qed.
Example Bytes_m128 : scriptNum_Bytes (-128) = Ret [0x80; 0x80]. Proof. reflexivity. Qed.
Example Bytes_256 : scriptNum_Bytes 256 = Ret [0x00; 0x01]. Proof. reflexivity. Qed.
Example Bytes_m32768 : scriptNum_Bytes (-32768) = Ret [0x00; 0x80; 0x80].
Proof. reflexivity. Qed.

(** * Reading the last byte *)

Lemma index_last {E} (w : bytes) b : index (E := E) (w ++ [b]) (len (w ++ [b]) - 1) = Ret b.
Proof.
  apply index_Ret. rewrite len_app, len_one. pose proof (len_nonneg w).
  split; [lia|]. replace (Z.to_nat (len w + 1 - 1)) with (length w) by (unfold len; lia).
  apply lookup_app_mid.
Qed.

Lemma snoc_cases (v : bytes) : v = [] \/ exists w b, v = w ++ [b].
Proof. destruct v using rev_ind; eauto. Qed.

Lemma byte_high b : is_byte b -> (Z.land b 0x80 =? 0) = (b <? 128).
Proof.
  unfold is_byte. intros Hb. destruct (Z.ltb_spec b 128).
  - apply Z.eqb_eq. apply Z.bits_inj'. intros i Hi. rewrite Z.land_spec, Z.bits_0.
    destruct (decide (i = 7)) as [->|].
    + rewrite <- (Z.mod_small b (2 ^ 7)) by lia. by rewrite Z.mod_pow2_bits_high by lia.
    + change 0x80 with (2 ^ 7). rewrite Z.pow2_bits_false by done. apply andb_false_r.
  - apply Z.eqb_neq. intros Hz. apply (f_equal (fun z => Z.testbit z 7)) in Hz.
    rewrite Z.land_spec, Z.bits_0 in Hz. change (Z.testbit 0x80 7) with true in Hz.
    rewrite andb_true_r, Z.testbit_odd, Z.shiftr_div_pow2 in Hz by lia.
    rewrite <- (Z.div_unique b (2 ^ 7) 1 (b - 128)) in Hz by lia. done.
Qed.

Lemma byte_low7 b : is_byte b -> Z.land b 0x7f = b mod 128.
Proof. intros. change 0x7f with (Z.ones 7). by rewrite Z.land_ones by lia. Qed.

Lemma byte_set_high b : 0 <= b < 128 -> Z.lor b 0x80 = b + 128.
Proof. intros. change 0x80 with (Z.shiftl 1 7). rewrite lor_shiftl_add; [done|lia|lia]. Qed.

(** * Decoding *)

Lemma scriptNum_decode_spec v : forall i R,
  bytes_ok v -> 0 <= i -> i + len v <= 8 -> 0 <= R < 256 ^ i ->
  scriptNum_decode i v (int64 R) = int64 (R + 256 ^ i * le_decode v).
Proof.
  induction v as [|b v IH]; intros i R Hok Hi Hlen HR.
  { cbn. f_equal. lia. }
  apply Forall_cons in Hok as [Hb Hok]. rewrite len_cons in Hlen. pose proof (len_nonneg v).
  cbn [scriptNum_decode le_decode]. rewrite <- wrapS_lor by lia.
  rewrite (wrapU_small 8 (8 * i)) by lia.
  assert (2 ^ (8 * i) = 256 ^ i) as Hp by (rewrite Z.pow_mul_r by lia; done).
  rewrite lor_shiftl_add by lia. rewrite Hp.
  unfold is_byte in Hb.
  assert (256 ^ (i + 1) = 256 * 256 ^ i) as Hs by (rewrite Z.pow_add_r by lia; lia).
  rewrite IH; [|done|lia|lia|nia]. f_equal. rewrite Hs. lia.
Qed.

Lemma scriptNum_decode_0 v :
  bytes_ok v -> len v <= 8 -> scriptNum_decode 0 v 0 = int64 (le_decode v).
Proof.
  intros. change (scriptNum_decode 0 v 0) with (scriptNum_decode 0 v (int64 0)).
  rewrite scriptNum_decode_spec by (done || lia). f_equal. lia.
Qed.

Lemma clear_top n M : 0 <= n -> 0 <= M < 2 ^ n -> Z.land (M + 2 ^ n) (Z.lnot (2 ^ n)) = M.
Proof.
  intros Hn HM. replace (M + 2 ^ n) with (Z.lor M (Z.shiftl 1 n)) by (rewrite lor_shiftl_add; lia).
  rewrite Z.shiftl_mul_pow2, Z.mul_1_l by lia.
  apply Z.bits_inj'. intros i Hi. rewrite Z.land_spec, Z.lor_spec, Z.lnot_spec by lia.
  destruct (decide (i = n)) as [->|].
  - rewrite Z.pow2_bits_true by lia. rewrite andb_false_r.
    rewrite <- (Z.mod_small M (2 ^ n)) by lia. by rewrite Z.mod_pow2_bits_high by lia.
  - rewrite Z.pow2_bits_false by done. by rewrite orb_false_r, andb_true_r.
Qed.

(** The number a non-empty byte string denotes: sign bit and magnitude. *)
Definition signed_value (w : bytes) (b : Z) : Z :=
  if b <? 128 then le_decode (w ++ [b])
  else - (le_decode w + 256 ^ len w * (b - 128)).

Lemma signed_value_bound w b :
  bytes_ok w -> is_byte b -> Z.abs (signed_value w b) < 2 ^ (8 * len w + 7).
Proof.
  intros Hw Hb. unfold is_byte in Hb. pose proof (le_decode_range w Hw).
  pose proof (len_nonneg w).
  assert (2 ^ (8 * len w + 7) = 256 ^ len w * 128) as ->.
  { rewrite Z.pow_add_r, Z.pow_mul_r by lia. done. }
  unfold signed_value. rewrite le_decode_app. cbn [le_decode].
  destruct (Z.ltb_spec b 128); nia.
Qed.

Lemma pow256_mono a b : 0 <= a <= b -> 256 ^ a <= 256 ^ b.
Proof. intros. apply Z.pow_le_mono_r; lia. Qed.

(** What makeScriptNum computes on up to 8 bytes. *)
Lemma makeScriptNum_snoc w b minimal k :
  bytes_ok w -> is_byte b -> len w + 1 <= 8 -> len w + 1 <= k ->
  (minimal = true -> checkMinimalDataEncoding (w ++ [b]) = Ret tt) ->
  makeScriptNum (w ++ [b]) minimal k = Ret (signed_value w b).
Proof.
  intros Hw Hb H8 Hk Hmin. pose proof (len_nonneg w). pose proof (signed_value_bound w b Hw Hb) as Hsv.
  unfold makeScriptNum.
  assert (len (w ++ [b]) = len w + 1) as Hl by (rewrite len_app, len_one; lia).
  replace (len (w ++ [b]) >? k) with false by (symmetry; rewrite Z.gtb_ltb; apply Z.ltb_ge; lia).
  assert ((if minimal then checkMinimalDataEncoding (w ++ [b]) else Ret tt) = Ret tt) as ->.
  { destruct minimal; auto. }
  cbn [mbind outcome_bind]. rewrite index_last. cbn [mbind outcome_bind].
  replace (len (w ++ [b]) =? 0) with false by (symmetry; apply Z.eqb_neq; lia).
  rewrite byte_high by done.
  rewrite scriptNum_decode_0 by (lia || apply Forall_app; auto).
  assert (2 ^ (8 * len w + 7) <= 2 ^ 63) by (apply Z.pow_le_mono_r; lia).
  unfold signed_value in *. destruct (Z.ltb_spec b 128); cbn [negb].
  - rewrite int64_small by lia. done.
  - rewrite Hl. replace (len w + 1 - 1) with (len w) by lia.
    rewrite (wrapU_small 8) by lia.
    assert (Z.shiftl 0x80 (8 * len w) = 2 ^ (8 * len w + 7)) as ->.
    { rewrite Z.shiftl_mul_pow2, Z.pow_add_r by lia. lia. }
    set (M := le_decode w + 256 ^ len w * (b - 128)) in *.
    assert (0 <= M) by (unfold M; pose proof (le_decode_range w Hw); unfold is_byte in Hb; nia).
    assert (le_decode (w ++ [b]) = M + 2 ^ (8 * len w + 7)) as ->.
    { rewrite le_decode_app. cbn [le_decode]. unfold M.
      rewrite Z.pow_add_r, Z.pow_mul_r by lia. change (2 ^ 8) with 256. lia. }
    assert (Z.lnot (int64 (2 ^ (8 * len w + 7))) = int64 (Z.lnot (2 ^ (8 * len w + 7)))) as ->.
    { apply Z.bits_inj'. intros i Hi. rewrite Z.lnot_spec, !wrapS_testbit, Z.lnot_spec by lia. done. }
    rewrite <- wrapS_land, clear_top by lia.
    rewrite (int64_small M), int64_small by lia. done.
Qed.

Lemma makeScriptNum_nil minimal k : 0 <= k -> makeScriptNum [] minimal k = Ret 0.
Proof.
  intros. unfold makeScriptNum. change (len (@nil Z)) with 0. rewrite Z.gtb_ltb.
  destruct (Z.ltb_spec k 0); [lia|]. by destruct minimal.
Qed.

(** * Encoding *)

(** The byte loop yields the shortest little-endian representation. *)
Lemma scriptNum_magnitude_spec fuel : forall n,
  0 < n < 256 ^ Z.of_nat fuel ->
  exists w b, scriptNum_magnitude fuel n = w ++ [b] /\ bytes_ok w /\ 0 < b < 256 /\
    le_decode (w ++ [b]) = n /\ len w < Z.of_nat fuel.
Proof.
  induction fuel as [|fuel IH]; intros n Hn.
  { change (256 ^ Z.of_nat 0) with 1 in Hn. lia. }
  rewrite Nat2Z.inj_succ, Z.pow_succ_r in Hn by lia.
  cbn [scriptNum_magnitude]. rewrite Z.gtb_ltb. destruct (Z.ltb_spec 0 n); [|lia].
  assert (uint8 (Z.land n 0xff) = n mod 256) as ->.
  { change 0xff with (Z.ones 8). rewrite Z.land_ones by lia. apply wrapU_small, Z.mod_pos_bound. lia. }
  rewrite Z.shiftr_div_pow2 by lia. change (2 ^ 8) with 256.
  pose proof (Z.div_mod n 256 ltac:(lia)) as Hdm. pose proof (Z.mod_pos_bound n 256 ltac:(lia)).
  destruct (decide (n / 256 = 0)) as [Hz|Hz].
  - exists [], (n mod 256). rewrite Hz. split; [by destruct fuel|].
    change (len (@nil Z)) with 0. cbn [app le_decode]. repeat split; auto; lia.
  - destruct (IH (n / 256)) as (w & b & Heq & Hw & Hb & Hd & Hl).
    { split; [|apply Z.div_lt_upper_bound; lia]. pose proof (Z.div_pos n 256). lia. }
    exists (n mod 256 :: w), b. rewrite Heq, len_cons. split; [done|].
    repeat split; [constructor; [unfold is_byte; lia|done]|lia|lia| |lia].
    cbn [app le_decode]. rewrite Hd. lia.
Qed.

(** ... and it is the only one: it inverts the decoding of a string without a
    trailing zero. *)
Lemma scriptNum_magnitude_decode fuel w b :
  bytes_ok w -> 0 < b < 256 -> len w < Z.of_nat fuel ->
  scriptNum_magnitude fuel (le_decode (w ++ [b])) = w ++ [b].
Proof.
  revert w. induction fuel as [|fuel IH]; intros w Hw Hb Hl.
  { pose proof (len_nonneg w). lia. }
  assert (0 < le_decode (w ++ [b])) as Hpos.
  { rewrite le_decode_app. cbn [le_decode]. pose proof (le_decode_range w Hw). nia. }
  cbn [scriptNum_magnitude]. rewrite Z.gtb_ltb. destruct (Z.ltb_spec 0 (le_decode (w ++ [b]))); [|lia].
  change 0xff with (Z.ones 8). rewrite Z.land_ones, Z.shiftr_div_pow2 by lia. change (2 ^ 8) with 256.
  rewrite wrapU_small by (apply Z.mod_pos_bound; lia).
  destruct w as [|a w].
  - cbn [app le_decode]. rewrite Z.mul_0_r, Z.add_0_r, Z.mod_small, Z.div_small by lia.
    by destruct fuel.
  - apply Forall_cons in Hw as [Ha Hw]. unfold is_byte in Ha. rewrite len_cons in Hl.
    cbn [app le_decode]. rewrite (Z.mul_comm 256), Z.mod_add, Z.mod_small by lia.
    rewrite Z.div_add, Z.div_small, Z.add_0_l by lia. rewrite IH by (done || lia). done.
Qed.

(** The bytes of a sign and a magnitude without trailing zero byte. *)
Definition sign_bytes (neg : bool) (w : bytes) (b : Z) : bytes :=
  if b <? 128 then w ++ [if neg then b + 128 else b]
  else (w ++ [b]) ++ [if neg then 0x80 else 0x00].

Lemma insert_last (w : bytes) (b c : Z) :
  <[Z.to_nat (len (w ++ [b]) - 1) := c]> (w ++ [b]) = w ++ [c].
Proof.
  rewrite len_app, len_one. replace (Z.to_nat (len w + 1 - 1)) with (length w + 0)%nat by (unfold len; lia).
  by rewrite insert_app_r.
Qed.

Lemma scriptNum_Bytes_sign (neg : bool) w b n :
  0 < n < 2 ^ 63 -> scriptNum_magnitude 8 n = w ++ [b] -> 0 < b < 256 ->
  scriptNum_Bytes (if neg then - n else n) = Ret (sign_bytes neg w b).
Proof.
  intros Hn Hm Hb. unfold scriptNum_Bytes, sign_bytes.
  assert ((if neg then - n else n) =? 0 = false) as -> by (apply Z.eqb_neq; destruct neg; lia).
  assert ((if neg then - n else n) <? 0 = neg) as ->.
  { destruct neg; [apply Z.ltb_lt; lia|apply Z.ltb_ge; lia]. }
  assert ((if neg then int64 (- (if neg then - n else n)) else if neg then - n else n) = n) as ->.
  { destruct neg; [|done]. rewrite int64_small; lia. }
  rewrite Hm, index_last. cbn [mbind outcome_bind]. rewrite byte_high by (unfold is_byte; lia).
  destruct (Z.ltb_spec b 128); cbn [negb]; [|done].
  destruct neg; [|done]. by rewrite insert_last, byte_set_high by lia.
Qed.

Lemma pow_256_2 k : 0 <= k -> 256 ^ k = 2 ^ (8 * k).
Proof. intros. by rewrite Z.pow_mul_r by lia. Qed.

Lemma sign_cases (n : Z) : n <> 0 -> exists (neg : bool) m, n = (if neg then - m else m) /\ 0 < m /\ m = Z.abs n.
Proof.
  intros. destruct (decide (n < 0)); [exists true, (- n)|exists false, n]; lia.
Qed.

Lemma checkMinimal_snoc w b :
  bytes_ok w -> is_byte b ->
  checkMinimalDataEncoding (w ++ [b]) = Ret tt <->
  (b mod 128 <> 0 \/ exists u c, w = u ++ [c] /\ 128 <= c).
Proof.
  intros Hw Hb. unfold checkMinimalDataEncoding. pose proof (len_nonneg w).
  assert (len (w ++ [b]) = len w + 1) as Hl by (rewrite len_app, len_one; lia).
  replace (len (w ++ [b]) =? 0) with false by (symmetry; apply Z.eqb_neq; lia).
  rewrite index_last. cbn [mbind outcome_bind]. rewrite byte_low7 by done.
  destruct (Z.eqb_spec (b mod 128) 0) as [H0|H0]; [|tauto].
  destruct (snoc_cases w) as [->|(u & c & ->)].
  { change (len ([] ++ [b]) =? 1) with true. cbn [negb]. split; [done|].
    intros [?|(u & c & Hu & _)]; [lia|]. by destruct u. }
  pose proof (len_nonneg u).
  replace (len ((u ++ [c]) ++ [b]) =? 1) with false
    by (symmetry; apply Z.eqb_neq; rewrite !len_app, !len_one; lia).
  assert (index (E := script_error) ((u ++ [c]) ++ [b]) (len ((u ++ [c]) ++ [b]) - 2) = Ret c) as ->.
  { apply index_Ret. rewrite !len_app, !len_one. split; [lia|].
    rewrite <- app_assoc. replace (Z.to_nat (len u + 1 + 1 - 2)) with (length u) by (unfold len; lia).
    apply lookup_app_mid. }
  apply Forall_app in Hw as [_ Hc]. apply Forall_cons in Hc as [Hc _].
  cbn [mbind outcome_bind]. rewrite byte_high by done. destruct (Z.ltb_spec c 128).
  - split; [done|]. intros [?|(u' & c' & Heq & ?)]; [lia|]. apply app_inj_tail in Heq as [-> ->]. lia.
  - split; [|done]. intros _. right. exists u, c. auto.
Qed.

Lemma pow2_lt_inv a b : 0 <= b -> 2 ^ a < 2 ^ b -> a < b.
Proof. intros Hb H. apply (Z.pow_lt_mono_r_iff 2); lia. Qed.

(** A sign-magnitude encoding is minimal, denotes the signed number, and is as short
    as the number allows. *)
Lemma sign_bytes_spec (neg : bool) w b :
  bytes_ok w -> 0 < b < 256 ->
  exists w' b', sign_bytes neg w b = w' ++ [b'] /\ bytes_ok w' /\ is_byte b' /\
    signed_value w' b' = (if neg then - le_decode (w ++ [b]) else le_decode (w ++ [b])) /\
    checkMinimalDataEncoding (w' ++ [b']) = Ret tt /\
    (forall k, 1 <= k -> le_decode (w ++ [b]) < 2 ^ (8 * k - 1) -> len w' + 1 <= k).
Proof.
  intros Hw Hb. pose proof (len_nonneg w). pose proof (le_decode_range w Hw) as Hr.
  assert (le_decode (w ++ [b]) = le_decode w + 256 ^ len w * b) as Hd.
  { rewrite le_decode_app. cbn [le_decode]. lia. }
  unfold sign_bytes. destruct (Z.ltb_spec b 128).
  - exists w, (if neg then b + 128 else b). split; [done|].
    assert (is_byte (if neg then b + 128 else b)) as Hb' by (unfold is_byte; destruct neg; lia).
    split; [done|]. split; [done|]. split; [|split].
    + unfold signed_value. destruct neg.
      * destruct (Z.ltb_spec (b + 128) 128); [lia|]. rewrite Hd. lia.
      * destruct (Z.ltb_spec b 128); [done|lia].
    + apply checkMinimal_snoc; [done|done|]. left. destruct neg; [|rewrite Z.mod_small; lia].
      rewrite <- (Z.mod_unique (b + 128) 128 1 b); lia.
    + intros k Hk Hlt. rewrite Hd in Hlt.
      assert (2 ^ (8 * len w) < 2 ^ (8 * k - 1)) as Hp by (rewrite <- pow_256_2 by lia; nia).
      apply pow2_lt_inv in Hp; lia.
  - exists (w ++ [b]), (if neg then 0x80 else 0). split; [done|].
    assert (bytes_ok (w ++ [b])) as Hwb.
    { apply Forall_app. repeat constructor; unfold is_byte; (done || lia). }
    split; [done|]. split; [unfold is_byte; destruct neg; lia|]. split; [|split].
    + unfold signed_value. destruct neg; cbn [Z.ltb Z.compare Pos.compare Pos.compare_cont].
      * rewrite Hd. lia.
      * rewrite le_decode_app. cbn [le_decode]. lia.
    + apply checkMinimal_snoc; [done|unfold is_byte; destruct neg; lia|]. right. exists w, b. auto.
    + intros k Hk Hlt. rewrite Hd in Hlt. rewrite len_app, len_one.
      assert (2 ^ (8 * len w + 7) < 2 ^ (8 * k - 1)) as Hp.
      { rewrite Z.pow_add_r, <- pow_256_2 by lia. nia. }
      apply pow2_lt_inv in Hp; lia.
Qed.

(** Conversely every minimal string is the sign-magnitude encoding of its number. *)
Lemma minimal_sign_bytes w b :
  bytes_ok w -> is_byte b -> checkMinimalDataEncoding (w ++ [b]) = Ret tt ->
  exists (neg : bool) u c, w ++ [b] = sign_bytes neg u c /\ bytes_ok u /\ 0 < c < 256 /\
    len u <= len w /\
    signed_value w b = (if neg then - le_decode (u ++ [c]) else le_decode (u ++ [c])).
Proof.
  intros Hw Hb Hmin. apply checkMinimal_snoc in Hmin; [|done|done]. unfold is_byte in Hb.
  pose proof (Z.mod_pos_bound b 128 ltac:(lia)) as Hm. pose proof (Z.div_mod b 128 ltac:(lia)) as Hdm.
  exists (negb (b <? 128)). destruct (decide (b mod 128 = 0)) as [Hz|Hz].
  - destruct Hmin as [?|(u & c & -> & Hc)]; [lia|].
    apply Forall_app in Hw as [Hu Hcb]. apply Forall_cons in Hcb as [Hcb _]. unfold is_byte in Hcb.
    exists u, c. rewrite len_app, len_one. unfold sign_bytes, signed_value.
    rewrite !le_decode_app. cbn [le_decode].
    destruct (Z.ltb_spec c 128); [lia|]. destruct (Z.ltb_spec b 128); cbn [negb].
    + assert (b = 0) as -> by lia. repeat split; (done || lia).
    + assert (b = 128) as -> by lia. repeat split; (done || lia).
  - exists w, (b mod 128). unfold sign_bytes, signed_value. rewrite !le_decode_app. cbn [le_decode].
    destruct (Z.ltb_spec (b mod 128) 128); [|lia]. destruct (Z.ltb_spec b 128); cbn [negb].
    + rewrite (Z.mod_small b) in * by lia. repeat split; (done || lia).
    + assert (b mod 128 = b - 128) as Hb1 by (rewrite <- (Z.mod_unique b 128 1 (b - 128)); lia).
      rewrite Hb1 in *. replace (b - 128 + 128) with b by lia. repeat split; (done || lia).
Qed.

(** Encoding then decoding. *)
Lemma scriptNum_encodes (n : Z) :
  - 2 ^ 63 < n < 2 ^ 63 ->
  exists v, scriptNum_Bytes n = Ret v /\ bytes_ok v /\
    (forall k, 1 <= k -> Z.abs n < 2 ^ (8 * k - 1) -> len v <= k) /\
    (forall k, len v <= k -> makeScriptNum v true k = Ret n).
Proof.
  intros Hn. destruct (decide (n = 0)) as [->|Hz].
  { exists []. split; [done|]. split; [done|]. change (len (@nil Z)) with 0. split; [lia|].
    intros. by apply makeScriptNum_nil. }
  destruct (sign_cases n Hz) as (neg & m & Hnm & Hm & Habs).
  destruct (scriptNum_magnitude_spec 8 m) as (w & b & Heq & Hw & Hb & Hd & Hl).
  { change (256 ^ Z.of_nat 8) with (2 ^ 64). lia. }
  destruct (sign_bytes_spec neg w b Hw Hb) as (w' & b' & Hsb & Hw' & Hb' & Hv & Hmin & Hk).
  exists (sign_bytes neg w b). rewrite Hnm.
  rewrite (scriptNum_Bytes_sign neg w b m) by (done || lia). rewrite Hsb in *.
  split; [done|]. split; [apply Forall_app; auto|]. rewrite Hd in Hv, Hk.
  rewrite len_app, len_one. split.
  - intros k H1 Hlt. apply Hk; [done|]. destruct neg; lia.
  - intros k Hlen. rewrite makeScriptNum_snoc; [by rewrite Hv|done|done| |done|done].
    apply (Hk 8); lia.
Qed.

(** Decoding never panics, and a default-length operand fits in 32 bits. *)
Lemma checkMinimalDataEncoding_no_panic v : checkMinimalDataEncoding v <> Panic.
Proof.
  unfold checkMinimalDataEncoding. case_if; [done|]. bool_to_prop. pose proof (len_nonneg v).
  destruct (index_total (E := script_error) v (len v - 1)) as (x & -> & _); [lia|]. cbn [mbind outcome_bind].
  case_if; [|done]. case_if; [done|]. bool_to_prop.
  destruct (index_total (E := script_error) v (len v - 2)) as (y & -> & _); [lia|]. cbn. by case_if.
Qed.

Lemma makeScriptNum_no_panic v minimal k : makeScriptNum v minimal k <> Panic.
Proof.
  unfold makeScriptNum. case_if; [done|]. pose proof (checkMinimalDataEncoding_no_panic v).
  destruct minimal; [destruct (checkMinimalDataEncoding v); [|done|done]|]; cbn [mbind outcome_bind];
    (case_if; [done|]; bool_to_prop; pose proof (len_nonneg v);
     destruct (index_total (E := script_error) v (len v - 1)) as (x & -> & _); [lia|]; cbn; by case_if).
Qed.

Lemma makeScriptNum_operand (v : bytes) (minimal : bool) (n : Z) :
  bytes_ok v -> makeScriptNum v minimal defaultScriptNumLen = Ret n ->
  - 2 ^ 31 < n < 2 ^ 31.
Proof.
  intros Hok Hmk. destruct (snoc_cases v) as [->|(w & b & ->)].
  { rewrite makeScriptNum_nil in Hmk by (unfold defaultScriptNumLen; lia). simplify_eq. lia. }
  apply Forall_app in Hok as [Hw Hb]. apply Forall_cons in Hb as [Hb _].
  pose proof (len_nonneg w). unfold defaultScriptNumLen in Hmk.
  assert (len w <= 3 /\ (minimal = true -> checkMinimalDataEncoding (w ++ [b]) = Ret tt)) as [Hlen Hmin].
  { unfold makeScriptNum in Hmk. rewrite Z.gtb_ltb in Hmk.
    destruct (Z.ltb_spec 4 (len (w ++ [b]))); [done|]. rewrite len_app, len_one in *.
    split; [lia|]. intros ->. by destruct (checkMinimalDataEncoding (w ++ [b])) as [[]| |]. }
  rewrite makeScriptNum_snoc in Hmk by (done || lia). simplify_eq.
  pose proof (signed_value_bound w b Hw Hb) as Hbound.
  assert (2 ^ (8 * len w + 7) <= 2 ^ 31) by (apply Z.pow_le_mono_r; lia). lia.
Qed.

(** * Properties *)

(** every int64 except the least one is encoded, the encoding is a byte string of
    at most [k] bytes whenever the number has fewer than [8k-1] magnitude bits (so 8
    bytes always suffice), and makeScriptNum with the minimality check on reads back
    the same number at any admissible length limit. *)
Theorem scriptNum_roundtrip (n : Z) :
  - 2 ^ 63 < n < 2 ^ 63 ->
  exists v, scriptNum_Bytes n = Ret v /\ bytes_ok v /\
    (forall k, 1 <= k -> Z.abs n < 2 ^ (8 * k - 1) -> len v <= k) /\
    (forall k, len v <= k -> makeScriptNum v true k = Ret n).
Proof.
  apply scriptNum_encodes.
Qed.

Lemma scriptNum_roundtrip_witness :
  exists v, scriptNum_Bytes (-255) = Ret v /\ bytes_ok v /\
    (forall k, 1 <= k -> Z.abs (-255) < 2 ^ (8 * k - 1) -> len v <= k) /\
    (forall k, len v <= k -> makeScriptNum v true k = Ret (-255)).
Proof. apply (scriptNum_roundtrip (-255)). lia. Defined.

(** the minimality check makes the encoding canonical: a byte string of at most 8
    bytes that makeScriptNum accepts with requireMinimal is exactly what Bytes writes
    for the number it denotes, so no two accepted strings denote the same number. *)
Theorem makeScriptNum_canonical (v : bytes) (k n : Z) :
  bytes_ok v -> k <= 8 -> makeScriptNum v true k = Ret n -> scriptNum_Bytes n = Ret v.
Proof.
  intros Hok Hk Hmk. destruct (snoc_cases v) as [->|(w & b & ->)].
  { rewrite makeScriptNum_nil in Hmk; [by simplify_eq|].
    unfold makeScriptNum in Hmk. rewrite Z.gtb_ltb in Hmk.
    destruct (Z.ltb_spec k (len (@nil Z))); [done|]. change (len (@nil Z)) with 0 in *. lia. }
  apply Forall_app in Hok as [Hw Hb]. apply Forall_cons in Hb as [Hb _].
  assert (len w + 1 <= k /\ checkMinimalDataEncoding (w ++ [b]) = Ret tt) as [Hlen Hmin].
  { unfold makeScriptNum in Hmk. rewrite Z.gtb_ltb in Hmk.
    destruct (Z.ltb_spec k (len (w ++ [b]))); [done|]. rewrite len_app, len_one in *.
    split; [lia|]. by destruct (checkMinimalDataEncoding (w ++ [b])) as [[]| |]. }
  rewrite makeScriptNum_snoc in Hmk by (done || lia). simplify_eq.
  destruct (minimal_sign_bytes w b Hw Hb Hmin) as (neg & u & c & Heq & Hu & Hc & Hlu & Hsv).
  pose proof (signed_value_bound w b Hw Hb) as Hbound. pose proof (len_nonneg w).
  assert (2 ^ (8 * len w + 7) <= 2 ^ 63) by (apply Z.pow_le_mono_r; lia).
  assert (0 < le_decode (u ++ [c])) as Hpos.
  { rewrite le_decode_app. cbn [le_decode]. pose proof (le_decode_range u Hu). nia. }
  rewrite Hsv, Heq. rewrite Hsv in Hbound.
  apply scriptNum_Bytes_sign; [destruct neg; lia| |done].
  apply scriptNum_magnitude_decode; [done|done|lia].
Qed.

Lemma makeScriptNum_canonical_witness : scriptNum_Bytes (-32768) = Ret [0x00; 0x80; 0x80].
Proof.
  apply (makeScriptNum_canonical [0x00; 0x80; 0x80] 4);
    [solve_bytes|lia|reflexivity].
Defined.

(** arithmetic operands are confined to [-2^31+1, 2^31-1]: whatever bytes are read
    with the default length limit, the number lies in that range, so sums and
    differences of two operands never overflow an int64. *)
Theorem makeScriptNum_range (v : bytes) (minimal : bool) (n : Z) :
  bytes_ok v -> makeScriptNum v minimal defaultScriptNumLen = Ret n ->
  - 2 ^ 31 < n < 2 ^ 31.
Proof. apply makeScriptNum_operand. Qed.

Lemma makeScriptNum_range_witness : - 2 ^ 31 < -2147483647 < 2 ^ 31.
Proof.
  apply (makeScriptNum_range [0xff; 0xff; 0xff; 0xff] true);
    [solve_bytes|reflexivity].
Defined.

(** Bytes panics on exactly one int64, the least one: its negation overflows back
    to itself, the byte loop never runs and the read of the last byte is out of range. *)
Theorem scriptNum_Bytes_panic (n : Z) :
  - 2 ^ 63 <= n < 2 ^ 63 -> scriptNum_Bytes n = Panic <-> n = - 2 ^ 63.
Proof.
  intros Hn. split; [|intros ->; reflexivity].
  intros Hp. destruct (decide (n = - 2 ^ 63)) as [|Hne]; [done|].
  destruct (scriptNum_encodes n) as (v & Hv & _); [lia|congruence].
Qed.

Lemma scriptNum_Bytes_panic_witness : scriptNum_Bytes (- 2 ^ 63) = Panic <-> - 2 ^ 63 = - 2 ^ 63.
Proof. apply (scriptNum_Bytes_panic (- 2 ^ 63)). lia. Defined.
