(* ===== verification/Stack.v ===== *)
(** The data and alternate stacks: txscript/stack.go.  A stack keeps Go's slice
    order, bottom first; its methods run in the state monad and keep the partial
    effects of a failed call.  The properties give every operation the block
    transformation its Go comment documents, at any depth. *)

From S2P Require Import Prelude TxCommon ScriptNum.

(** [asBool]: some byte is non-zero, where a sign bit alone in the last byte (negative
    zero) does not count.  [i] is the loop index, [n] the length of the whole slice. *)
Fixpoint asBool_from (i n : Z) (t : bytes) : bool :=
  match t with
  | [] => false
  | b :: t' =>
      if negb (b =? 0) then negb ((i =? n - 1) && (b =? 0x80))
      else asBool_from (i + 1) n t'
  end.
Definition asBool (t : bytes) : bool := asBool_from 0 (len t) t.

Definition fromBool (v : bool) : bytes := if v then [1] else [].

Record stack := mkStack { stk : list bytes; verifyMinimalData : bool }.

Definition set_stk (s : stack) (l : list bytes) : stack := mkStack l (verifyMinimalData s).

Definition Depth (s : stack) : Z := int32 (len (stk s)).

Definition PushByteArray (so : bytes) : method stack unit :=
  modify (fun s => set_stk s (stk s ++ [so])).

Definition PushInt (val : Z) : method stack unit :=
  b ← lift (scriptNum_Bytes val); PushByteArray b.

Definition PushBool (val : bool) : method stack unit := PushByteArray (fromBool val).

(** [nipN]: the three branches build the shortened slice as the code does. *)
Definition nipN (idx : Z) : method stack bytes := fun s =>
  let sz := int32 (len (stk s)) in
  if (idx <? 0) || (idx >? sz - 1) then (Err ErrStackUnderflow, s)
  else
    match index (E := script_error) (stk s) (sz - idx - 1) with
    | Ret so =>
        let stk' :=
          if idx =? 0 then slice (stk s) 0 (sz - 1)
          else if idx =? sz - 1 then slice (stk s) 1 (len (stk s))
          else s1 ← slice (stk s) (sz - idx) sz;
               s0 ← slice (stk s) 0 (sz - idx - 1);
               Ret (s0 ++ s1) in
        match stk' with
        | Ret l => (Ret so, set_stk s l)
        | Err e => (Err e, s)
        | Panic => (Panic, s)
        end
    | Err e => (Err e, s)
    | Panic => (Panic, s)
    end.

Definition NipN (idx : Z) : method stack unit := _ ← nipN idx; mret tt.

Definition PopByteArray : method stack bytes := nipN 0.

Definition PopInt : method stack Z :=
  so ← PopByteArray;
  minimal ← gets verifyMinimalData;
  lift (makeScriptNum so minimal defaultScriptNumLen).

Definition PopBool : method stack bool := so ← PopByteArray; mret (asBool so).

Definition PeekByteArray (idx : Z) : method stack bytes := fun s =>
  let sz := int32 (len (stk s)) in
  if (idx <? 0) || (idx >=? sz) then (Err ErrStackUnderflow, s)
  else (index (stk s) (sz - idx - 1), s).

Definition PeekInt (idx : Z) : method stack Z :=
  so ← PeekByteArray idx;
  minimal ← gets verifyMinimalData;
  lift (makeScriptNum so minimal defaultScriptNumLen).

Definition PeekBool (idx : Z) : method stack bool := so ← PeekByteArray idx; mret (asBool so).

Definition Tuck : method stack unit :=
  so2 ← PopByteArray;
  so1 ← PopByteArray;
  PushByteArray so2;; PushByteArray so1;; PushByteArray so2.

(** [for i := n; i > 0; i-- { body }] *)
Fixpoint times (n : nat) (body : method stack unit) : method stack unit :=
  match n with
  | O => mret tt
  | S n' => body;; times n' body
  end.

Definition DropN (n : Z) : method stack unit :=
  if n <? 1 then throw ErrStackInvalidArgs
  else times (Z.to_nat n) (_ ← PopByteArray; mret tt).

Definition DupN (n : Z) : method stack unit :=
  if n <? 1 then throw ErrStackInvalidArgs
  else times (Z.to_nat n) (so ← PeekByteArray (n - 1); PushByteArray so).

Definition RotN (n : Z) : method stack unit :=
  if n <? 1 then throw ErrStackInvalidArgs
  else
    let entry := int32 (3 * n - 1) in
    times (Z.to_nat n) (so ← nipN entry; PushByteArray so).

Definition SwapN (n : Z) : method stack unit :=
  if n <? 1 then throw ErrStackInvalidArgs
  else
    let entry := int32 (2 * n - 1) in
    times (Z.to_nat n) (so ← nipN entry; PushByteArray so).

Definition OverN (n : Z) : method stack unit :=
  if n <? 1 then throw ErrStackInvalidArgs
  else
    let entry := int32 (2 * n - 1) in
    times (Z.to_nat n) (so ← PeekByteArray entry; PushByteArray so).

Definition PickN (n : Z) : method stack unit := so ← PeekByteArray n; PushByteArray so.

Definition RollN (n : Z) : method stack unit := so ← nipN n; PushByteArray so.

(** * Concrete runs *)

Example rot2 : stk (RotN 2 (mkStack [[0];[1];[2];[3];[4];[5];[6]] false)).2
  = [[0];[3];[4];[5];[6];[1];[2]].
Proof. reflexivity. Qed.
Example nip_short : (NipN 1 (mkStack [[1]] false)).1 = Err ErrStackUnderflow.
Proof. reflexivity. Qed.

(** * Elementary facts *)

(** Go's int32 depth is exact below 2^31 items (the engine allows 1000). *)
Definition small (s : stack) : Prop := len (stk s) < 2 ^ 31.

Lemma set_stk_stk s : set_stk s (stk s) = s.
Proof. by destruct s. Qed.

Lemma stk_set_stk s l : stk (set_stk s l) = l.
Proof. done. Qed.

Lemma set_stk_set_stk s l l' : set_stk (set_stk s l) l' = set_stk s l'.
Proof. done. Qed.

Lemma stack_eta s l : stk s = l -> s = set_stk s l.
Proof. intros <-. by rewrite set_stk_stk. Qed.

Lemma Depth_small s : small s -> Depth s = len (stk s).
Proof. intros. unfold Depth, small in *. apply int32_small. pose proof (len_nonneg (stk s)). lia. Qed.

Lemma index_from_top {E} (a : list bytes) x b :
  index (E := E) (a ++ x :: b) (len (a ++ x :: b) - len b - 1) = Ret x.
Proof.
  apply index_Ret. rewrite len_app, len_cons. pose proof (len_nonneg a).
  split; [lia|]. replace (Z.to_nat (len a + (1 + len b) - len b - 1)) with (length a) by (unfold len; lia).
  apply lookup_app_mid.
Qed.

Lemma nipN_mid s a x b :
  small s -> stk s = a ++ x :: b -> nipN (len b) s = (Ret x, set_stk s (a ++ b)).
Proof.
  intros Hs Heq. unfold nipN.
  change (int32 (len (stk s))) with (Depth s). rewrite Depth_small by done. rewrite Heq.
  pose proof (len_nonneg a). pose proof (len_nonneg b).
  replace ((len b <? 0) || (len b >? len (a ++ x :: b) - 1)) with false
    by (symmetry; rewrite Z.gtb_ltb, orb_false_iff, !Z.ltb_ge, len_app, len_cons; lia).
  rewrite index_from_top.
  assert (len (a ++ x :: b) = len a + 1 + len b) as Hl by (rewrite len_app, len_cons; lia).
  destruct (Z.eqb_spec (len b) 0) as [Hb|Hb].
  { apply len_zero_iff in Hb as ->. rewrite slice_Ret by (rewrite Hl; change (len (@nil bytes)) with 0; lia).
    f_equal. f_equal. rewrite app_nil_r, drop_0, Hl. change (len (@nil bytes)) with 0.
    apply take_app_length'. unfold len. lia. }
  destruct (Z.eqb_spec (len b) (len (a ++ x :: b) - 1)) as [Hb'|Hb'].
  { assert (a = []) as -> by (apply len_zero_iff; lia).
    rewrite slice_Ret by lia. f_equal. f_equal. cbn [app]. change (Z.to_nat 1) with 1%nat.
    cbn [drop]. apply take_ge. rewrite len_cons. unfold len. lia. }
  rewrite !slice_Ret by lia. cbn [mbind outcome_bind]. f_equal. f_equal. rewrite drop_0, Hl.
  f_equal.
  - apply take_app_length'. unfold len. lia.
  - replace (Z.to_nat (len a + 1 + len b - len b)) with (length (a ++ [x])) by (rewrite length_app; unfold len; cbn; lia).
    replace (a ++ x :: b) with ((a ++ [x]) ++ b) by (by rewrite <- app_assoc).
    rewrite drop_app_length. apply take_ge. unfold len. lia.
Qed.

Lemma nipN_short s idx :
  small s -> idx < 0 \/ len (stk s) <= idx -> nipN idx s = (Err ErrStackUnderflow, s).
Proof.
  intros Hs Hi. unfold nipN. change (int32 (len (stk s))) with (Depth s). rewrite Depth_small by done.
  replace ((idx <? 0) || (idx >? len (stk s) - 1)) with true; [done|].
  symmetry. rewrite Z.gtb_ltb, orb_true_iff, !Z.ltb_lt. lia.
Qed.

Lemma Peek_mid s a x b :
  small s -> stk s = a ++ x :: b -> PeekByteArray (len b) s = (Ret x, s).
Proof.
  intros Hs Heq. unfold PeekByteArray. change (int32 (len (stk s))) with (Depth s).
  rewrite Depth_small by done. rewrite Heq. pose proof (len_nonneg a). pose proof (len_nonneg b).
  replace ((len b <? 0) || (len b >=? len (a ++ x :: b))) with false
    by (symmetry; rewrite Z.geb_leb, orb_false_iff, Z.ltb_ge, Z.leb_gt, len_app, len_cons; lia).
  by rewrite index_from_top.
Qed.

Lemma Peek_short s idx :
  small s -> idx < 0 \/ len (stk s) <= idx -> PeekByteArray idx s = (Err ErrStackUnderflow, s).
Proof.
  intros Hs Hi. unfold PeekByteArray. change (int32 (len (stk s))) with (Depth s). rewrite Depth_small by done.
  replace ((idx <? 0) || (idx >=? len (stk s))) with true; [done|].
  symmetry. rewrite Z.geb_leb, orb_true_iff, Z.ltb_lt, Z.leb_le. lia.
Qed.

(** A position from the top splits the stack. *)
Lemma split_from_top (l : list bytes) idx :
  0 <= idx < len l -> exists a x b, l = a ++ x :: b /\ len b = idx.
Proof.
  intros Hi. unfold len in Hi.
  destruct (lookup_lt_is_Some_2 l (length l - Z.to_nat idx - 1)) as [x Hx]; [lia|].
  exists (take (length l - Z.to_nat idx - 1) l), x, (drop (S (length l - Z.to_nat idx - 1)) l).
  split; [symmetry; by apply take_drop_middle|]. rewrite len_drop. unfold len. lia.
Qed.

(** Every call of nipN or PeekByteArray either underflows, leaving the stack as it
    was, or hits an item: it never panics. *)
Lemma nipN_cases s idx :
  small s ->
  (nipN idx s = (Err ErrStackUnderflow, s) /\ (idx < 0 \/ len (stk s) <= idx)) \/
  (exists a x b, stk s = a ++ x :: b /\ len b = idx /\ nipN idx s = (Ret x, set_stk s (a ++ b))).
Proof.
  intros Hs. destruct (decide (0 <= idx < len (stk s))) as [Hi|Hi].
  - right. destruct (split_from_top (stk s) idx Hi) as (a & x & b & Heq & Hb).
    exists a, x, b. split; [done|]. split; [done|]. rewrite <- Hb. by apply nipN_mid.
  - left. split; [|lia]. apply nipN_short; [done|lia].
Qed.

Lemma Peek_cases s idx :
  small s ->
  (PeekByteArray idx s = (Err ErrStackUnderflow, s) /\ (idx < 0 \/ len (stk s) <= idx)) \/
  (exists a x b, stk s = a ++ x :: b /\ len b = idx /\ PeekByteArray idx s = (Ret x, s)).
Proof.
  intros Hs. destruct (decide (0 <= idx < len (stk s))) as [Hi|Hi].
  - right. destruct (split_from_top (stk s) idx Hi) as (a & x & b & Heq & Hb).
    exists a, x, b. split; [done|]. split; [done|]. rewrite <- Hb. by apply (Peek_mid s a x b).
  - left. split; [|lia]. apply Peek_short; [done|lia].
Qed.

Lemma Pop_snoc s a x :
  small s -> stk s = a ++ [x] -> PopByteArray s = (Ret x, set_stk s a).
Proof.
  intros Hs Heq. unfold PopByteArray. change 0 with (len (@nil bytes)).
  rewrite (nipN_mid s a x []) by done. by rewrite app_nil_r.
Qed.

Lemma Pop_empty s : stk s = [] -> PopByteArray s = (Err ErrStackUnderflow, s).
Proof.
  intros Heq. unfold PopByteArray. apply nipN_short; unfold small; rewrite Heq;
    change (len (@nil bytes)) with 0; lia.
Qed.

Lemma small_set s l : len l < 2 ^ 31 -> small (set_stk s l).
Proof. done. Qed.

#[export] Hint Resolve small_set : golib.

(** * Blocks of items *)

Section blocks.
Context (s : stack).
Implicit Types (pre mid xs : list bytes).

(** Moving the item at a fixed depth to the top, once per item of a block, moves the
    block above everything that lay over it. *)
Lemma times_nip xs : forall pre mid e,
  e = len xs + len mid - 1 -> len pre + len xs + len mid < 2 ^ 31 ->
  times (length xs) (so ← nipN e; PushByteArray so) (set_stk s (pre ++ xs ++ mid))
  = (Ret tt, set_stk s (pre ++ mid ++ xs)).
Proof.
  induction xs as [|x xs IH]; intros pre mid e He Hl; cbn [length times app].
  { by rewrite app_nil_r. }
  rewrite len_cons in He, Hl. erewrite bind_step.
  2:{ erewrite bind_step; [reflexivity|]. replace e with (len (xs ++ mid)) by (rewrite len_app; lia).
      apply (nipN_mid _ pre x (xs ++ mid)); [|done]. apply small_set. rewrite len_app, len_cons, len_app. lia. }
  cbn beta. rewrite !set_stk_set_stk, !stk_set_stk, <- !app_assoc.
  rewrite (IH pre (mid ++ [x])) by (rewrite len_app, len_one; lia || (rewrite !len_app, len_one; lia)).
  by rewrite <- !app_assoc.
Qed.

(** Likewise for copying the item at a fixed depth. *)
Lemma times_peek xs : forall pre mid e,
  e = len xs + len mid - 1 -> len pre + 2 * len xs + len mid < 2 ^ 31 ->
  times (length xs) (so ← PeekByteArray e; PushByteArray so) (set_stk s (pre ++ xs ++ mid))
  = (Ret tt, set_stk s (pre ++ xs ++ mid ++ xs)).
Proof.
  induction xs as [|x xs IH]; intros pre mid e He Hl; cbn [length times app].
  { by rewrite app_nil_r. }
  rewrite len_cons in He, Hl. erewrite bind_step.
  2:{ erewrite bind_step; [reflexivity|]. replace e with (len (xs ++ mid)) by (rewrite len_app; lia).
      apply (Peek_mid _ pre x (xs ++ mid)); [|done]. apply small_set.
      rewrite len_app, len_cons, len_app. pose proof (len_nonneg xs). lia. }
  cbn beta. rewrite !set_stk_set_stk, !stk_set_stk.
  replace ((pre ++ x :: xs ++ mid) ++ [x]) with ((pre ++ [x]) ++ xs ++ (mid ++ [x]))
    by (rewrite <- !app_assoc; cbn; by rewrite <- !app_assoc).
  rewrite (IH (pre ++ [x]) (mid ++ [x])) by (rewrite !len_app, !len_one; lia).
  rewrite <- !app_assoc. done.
Qed.

Lemma times_pop xs : forall pre,
  len pre + len xs < 2 ^ 31 ->
  times (length xs) (_ ← PopByteArray; mret tt) (set_stk s (pre ++ xs)) = (Ret tt, set_stk s pre).
Proof.
  induction xs as [|x xs IH] using rev_ind; intros pre Hl.
  { by rewrite app_nil_r. }
  rewrite len_app, len_one in Hl. rewrite length_app. cbn [length].
  rewrite Nat.add_comm. cbn [Nat.add times]. rewrite app_assoc. erewrite bind_step.
  2:{ erewrite bind_step; [reflexivity|]. apply (Pop_snoc _ (pre ++ xs) x); [|done].
      apply small_set. rewrite !len_app, len_one. lia. }
  rewrite set_stk_set_stk. apply IH. lia.
Qed.

Lemma times_pop_underflow n xs :
  len xs < 2 ^ 31 -> (length xs < n)%nat ->
  times n (_ ← PopByteArray; mret tt) (set_stk s xs) = (Err ErrStackUnderflow, set_stk s []).
Proof.
  revert n. induction xs as [|x xs IH] using rev_ind; intros n Hl Hn.
  { destruct n; [cbn in Hn; lia|]. cbn [times].
    erewrite bind_err; [reflexivity|]. apply bind_err. by apply Pop_empty. }
  destruct n; [lia|]. rewrite length_app in Hn. cbn [length] in Hn. rewrite len_app, len_one in Hl.
  cbn [times]. erewrite bind_step.
  2:{ erewrite bind_step; [reflexivity|]. apply (Pop_snoc _ xs x); [|done].
      apply small_set. rewrite len_app, len_one. lia. }
  rewrite set_stk_set_stk. apply IH; lia.
Qed.
End blocks.

Lemma guard_pos {A} n (a b : A) : 1 <= n -> (if n <? 1 then a else b) = b.
Proof. intros. destruct (Z.ltb_spec n 1); [lia|done]. Qed.

(** * Properties *)

(** the block operations of the stack are the transformations documented in
    stack.go, for blocks of any size [n]: DropN removes the top block, DupN duplicates
    it, RotN brings the third block to the top, SwapN exchanges two blocks and OverN
    copies the second one; what lies below is untouched. *)
Theorem stack_block_operations (s : stack) (n : Z) (pre x1 x2 x3 : list bytes) :
  1 <= n -> len x1 = n -> len x2 = n -> len x3 = n -> len pre + 4 * n < 2 ^ 31 ->
  DropN n (set_stk s (pre ++ x1)) = (Ret tt, set_stk s pre) /\
  DupN n (set_stk s (pre ++ x1)) = (Ret tt, set_stk s (pre ++ x1 ++ x1)) /\
  RotN n (set_stk s (pre ++ x1 ++ x2 ++ x3)) = (Ret tt, set_stk s (pre ++ x2 ++ x3 ++ x1)) /\
  SwapN n (set_stk s (pre ++ x1 ++ x2)) = (Ret tt, set_stk s (pre ++ x2 ++ x1)) /\
  OverN n (set_stk s (pre ++ x1 ++ x2)) = (Ret tt, set_stk s (pre ++ x1 ++ x2 ++ x1)).
Proof.
  intros Hn H1 H2 H3 Hl. pose proof (len_nonneg pre).
  assert (Z.to_nat n = length x1) as Hnat by (unfold len in H1; lia).
  unfold DropN, DupN, RotN, SwapN, OverN. rewrite !guard_pos by done.
  rewrite Hnat, !int32_small by lia. split; [|split; [|split; [|split]]].
  - apply times_pop. lia.
  - pose proof (times_peek s x1 pre [] (n - 1)) as Hp. rewrite app_nil_r in Hp. cbn [app] in Hp.
    apply Hp; change (len (@nil bytes)) with 0; lia.
  - rewrite (times_nip s x1 pre (x2 ++ x3)) by (rewrite len_app; lia). by rewrite <- app_assoc.
  - apply times_nip; lia.
  - apply times_peek; lia.
Qed.

Lemma stack_block_operations_witness :
  RotN 1 (mkStack [[9]; [1]; [2]; [3]] false) = (Ret tt, mkStack [[9]; [2]; [3]; [1]] false).
Proof.
  pose proof (stack_block_operations (mkStack [] false) 1 [[9]] [[1]] [[2]] [[3]]) as H.
  destruct H as (_ & _ & H & _); [lia|reflexivity..|exact H].
Defined.

(** underflow is detected without touching the stack by every operation that
    reads below the top (duplicate, rotate, swap, over, pick, roll, nip), while DropN
    beyond the bottom reports the underflow after having emptied the stack. *)
Theorem stack_underflow (s : stack) (n : Z) :
  1 <= n <= 2 ^ 29 -> small s ->
  (len (stk s) < n -> DupN n s = (Err ErrStackUnderflow, s) /\
     DropN n s = (Err ErrStackUnderflow, set_stk s [])) /\
  (len (stk s) < 2 * n -> SwapN n s = (Err ErrStackUnderflow, s) /\ OverN n s = (Err ErrStackUnderflow, s)) /\
  (len (stk s) < 3 * n -> RotN n s = (Err ErrStackUnderflow, s)) /\
  (len (stk s) <= n -> PickN n s = (Err ErrStackUnderflow, s) /\ RollN n s = (Err ErrStackUnderflow, s) /\
     NipN n s = (Err ErrStackUnderflow, s)).
Proof.
  intros Hn Hs. unfold DupN, DropN, SwapN, OverN, RotN, PickN, RollN, NipN.
  rewrite !guard_pos, !int32_small by lia.
  assert (exists k, Z.to_nat n = S k) as [k Hk] by (exists (Z.to_nat n - 1)%nat; lia).
  split; [|split; [|split]]; intros Hl; rewrite ?Hk.
  - split; [by cbn [times]; erewrite bind_err; [reflexivity|apply bind_err, Peek_short; (done || lia)]|].
    pose proof (times_pop_underflow s (Z.to_nat n) (stk s) Hs) as Hp. rewrite set_stk_stk, Hk in Hp.
    apply Hp. unfold len in Hl. lia.
  - split; cbn [times]; apply bind_err, bind_err; [apply nipN_short|apply Peek_short]; (done || lia).
  - cbn [times]. apply bind_err, bind_err, nipN_short; (done || lia).
  - repeat split; apply bind_err; [apply Peek_short|apply nipN_short..]; (done || lia).
Qed.

Lemma stack_underflow_witness :
  RotN 1 (mkStack [[1]; [2]] false) = (Err ErrStackUnderflow, mkStack [[1]; [2]] false).
Proof.
  apply (stack_underflow (mkStack [[1]; [2]] false) 1); [lia|reflexivity|reflexivity].
Defined.
