(* ===== verification/Opcodes.v ===== *)
(** Opcodes: the constants, the opcode table and the parsed-opcode methods of
    txscript/opcode.go.  The handler of a table entry is a tag; the engine maps each
    tag to its function. *)

From S2P Require Import Prelude TxCommon.

(** * Opcode values *)

Definition OP_0 : Z := 0x00.
Definition OP_FALSE : Z := 0x00.
Definition OP_DATA_1 : Z := 0x01.
Definition OP_DATA_2 : Z := 0x02.
Definition OP_DATA_3 : Z := 0x03.
Definition OP_DATA_4 : Z := 0x04.
Definition OP_DATA_5 : Z := 0x05.
Definition OP_DATA_6 : Z := 0x06.
Definition OP_DATA_7 : Z := 0x07.
Definition OP_DATA_8 : Z := 0x08.
Definition OP_DATA_9 : Z := 0x09.
Definition OP_DATA_10 : Z := 0x0a.
Definition OP_DATA_11 : Z := 0x0b.
Definition OP_DATA_12 : Z := 0x0c.
Definition OP_DATA_13 : Z := 0x0d.
Definition OP_DATA_14 : Z := 0x0e.
Definition OP_DATA_15 : Z := 0x0f.
Definition OP_DATA_16 : Z := 0x10.
Definition OP_DATA_17 : Z := 0x11.
Definition OP_DATA_18 : Z := 0x12.
Definition OP_DATA_19 : Z := 0x13.
Definition OP_DATA_20 : Z := 0x14.
Definition OP_DATA_21 : Z := 0x15.
Definition OP_DATA_22 : Z := 0x16.
Definition OP_DATA_23 : Z := 0x17.
Definition OP_DATA_24 : Z := 0x18.
Definition OP_DATA_25 : Z := 0x19.
Definition OP_DATA_26 : Z := 0x1a.
Definition OP_DATA_27 : Z := 0x1b.
Definition OP_DATA_28 : Z := 0x1c.
Definition OP_DATA_29 : Z := 0x1d.
Definition OP_DATA_30 : Z := 0x1e.
Definition OP_DATA_31 : Z := 0x1f.
Definition OP_DATA_32 : Z := 0x20.
Definition OP_DATA_33 : Z := 0x21.
Definition OP_DATA_34 : Z := 0x22.
Definition OP_DATA_35 : Z := 0x23.
Definition OP_DATA_36 : Z := 0x24.
Definition OP_DATA_37 : Z := 0x25.
Definition OP_DATA_38 : Z := 0x26.
Definition OP_DATA_39 : Z := 0x27.
Definition OP_DATA_40 : Z := 0x28.
Definition OP_DATA_41 : Z := 0x29.
Definition OP_DATA_42 : Z := 0x2a.
Definition OP_DATA_43 : Z := 0x2b.
Definition OP_DATA_44 : Z := 0x2c.
Definition OP_DATA_45 : Z := 0x2d.
Definition OP_DATA_46 : Z := 0x2e.
Definition OP_DATA_47 : Z := 0x2f.
Definition OP_DATA_48 : Z := 0x30.
Definition OP_DATA_49 : Z := 0x31.
Definition OP_DATA_50 : Z := 0x32.
Definition OP_DATA_51 : Z := 0x33.
Definition OP_DATA_52 : Z := 0x34.
Definition OP_DATA_53 : Z := 0x35.
Definition OP_DATA_54 : Z := 0x36.
Definition OP_DATA_55 : Z := 0x37.
Definition OP_DATA_56 : Z := 0x38.
Definition OP_DATA_57 : Z := 0x39.
Definition OP_DATA_58 : Z := 0x3a.
Definition OP_DATA_59 : Z := 0x3b.
Definition OP_DATA_60 : Z := 0x3c.
Definition OP_DATA_61 : Z := 0x3d.
Definition OP_DATA_62 : Z := 0x3e.
Definition OP_DATA_63 : Z := 0x3f.
Definition OP_DATA_64 : Z := 0x40.
Definition OP_DATA_65 : Z := 0x41.
Definition OP_DATA_66 : Z := 0x42.
Definition OP_DATA_67 : Z := 0x43.
Definition OP_DATA_68 : Z := 0x44.
Definition OP_DATA_69 : Z := 0x45.
Definition OP_DATA_70 : Z := 0x46.
Definition OP_DATA_71 : Z := 0x47.
Definition OP_DATA_72 : Z := 0x48.
Definition OP_DATA_73 : Z := 0x49.
Definition OP_DATA_74 : Z := 0x4a.
Definition OP_DATA_75 : Z := 0x4b.
Definition OP_PUSHDATA1 : Z := 0x4c.
Definition OP_PUSHDATA2 : Z := 0x4d.
Definition OP_PUSHDATA4 : Z := 0x4e.
Definition OP_1NEGATE : Z := 0x4f.
Definition OP_RESERVED : Z := 0x50.
Definition OP_1 : Z := 0x51.
Definition OP_TRUE : Z := 0x51.
Definition OP_2 : Z := 0x52.
Definition OP_3 : Z := 0x53.
Definition OP_4 : Z := 0x54.
Definition OP_5 : Z := 0x55.
Definition OP_6 : Z := 0x56.
Definition OP_7 : Z := 0x57.
Definition OP_8 : Z := 0x58.
Definition OP_9 : Z := 0x59.
Definition OP_10 : Z := 0x5a.
Definition OP_11 : Z := 0x5b.
Definition OP_12 : Z := 0x5c.
Definition OP_13 : Z := 0x5d.
Definition OP_14 : Z := 0x5e.
Definition OP_15 : Z := 0x5f.
Definition OP_16 : Z := 0x60.
Definition OP_NOP : Z := 0x61.
Definition OP_VER : Z := 0x62.
Definition OP_IF : Z := 0x63.
Definition OP_NOTIF : Z := 0x64.
Definition OP_VERIF : Z := 0x65.
Definition OP_VERNOTIF : Z := 0x66.
Definition OP_ELSE : Z := 0x67.
Definition OP_ENDIF : Z := 0x68.
Definition OP_VERIFY : Z := 0x69.
Definition OP_RETURN : Z := 0x6a.
Definition OP_TOALTSTACK : Z := 0x6b.
Definition OP_FROMALTSTACK : Z := 0x6c.
Definition OP_2DROP : Z := 0x6d.
Definition OP_2DUP : Z := 0x6e.
Definition OP_3DUP : Z := 0x6f.
Definition OP_2OVER : Z := 0x70.
Definition OP_2ROT : Z := 0x71.
Definition OP_2SWAP : Z := 0x72.
Definition OP_IFDUP : Z := 0x73.
Definition OP_DEPTH : Z := 0x74.
Definition OP_DROP : Z := 0x75.
Definition OP_DUP : Z := 0x76.
Definition OP_NIP : Z := 0x77.
Definition OP_OVER : Z := 0x78.
Definition OP_PICK : Z := 0x79.
Definition OP_ROLL : Z := 0x7a.
Definition OP_ROT : Z := 0x7b.
Definition OP_SWAP : Z := 0x7c.
Definition OP_TUCK : Z := 0x7d.
Definition OP_CAT : Z := 0x7e.
Definition OP_SUBSTR : Z := 0x7f.
Definition OP_LEFT : Z := 0x80.
Definition OP_RIGHT : Z := 0x81.
Definition OP_SIZE : Z := 0x82.
Definition OP_INVERT : Z := 0x83.
Definition OP_AND : Z := 0x84.
Definition OP_OR : Z := 0x85.
Definition OP_XOR : Z := 0x86.
Definition OP_EQUAL : Z := 0x87.
Definition OP_EQUALVERIFY : Z := 0x88.
Definition OP_RESERVED1 : Z := 0x89.
Definition OP_RESERVED2 : Z := 0x8a.
Definition OP_1ADD : Z := 0x8b.
Definition OP_1SUB : Z := 0x8c.
Definition OP_2MUL : Z := 0x8d.
Definition OP_2DIV : Z := 0x8e.
Definition OP_NEGATE : Z := 0x8f.
Definition OP_ABS : Z := 0x90.
Definition OP_NOT : Z := 0x91.
Definition OP_0NOTEQUAL : Z := 0x92.
Definition OP_ADD : Z := 0x93.
Definition OP_SUB : Z := 0x94.
Definition OP_MUL : Z := 0x95.
Definition OP_DIV : Z := 0x96.
Definition OP_MOD : Z := 0x97.
Definition OP_LSHIFT : Z := 0x98.
Definition OP_RSHIFT : Z := 0x99.
Definition OP_BOOLAND : Z := 0x9a.
Definition OP_BOOLOR : Z := 0x9b.
Definition OP_NUMEQUAL : Z := 0x9c.
Definition OP_NUMEQUALVERIFY : Z := 0x9d.
Definition OP_NUMNOTEQUAL : Z := 0x9e.
Definition OP_LESSTHAN : Z := 0x9f.
Definition OP_GREATERTHAN : Z := 0xa0.
Definition OP_LESSTHANOREQUAL : Z := 0xa1.
Definition OP_GREATERTHANOREQUAL : Z := 0xa2.
Definition OP_MIN : Z := 0xa3.
Definition OP_MAX : Z := 0xa4.
Definition OP_WITHIN : Z := 0xa5.
Definition OP_RIPEMD160 : Z := 0xa6.
Definition OP_SHA1 : Z := 0xa7.
Definition OP_SHA256 : Z := 0xa8.
Definition OP_HASH160 : Z := 0xa9.
Definition OP_HASH256 : Z := 0xaa.
Definition OP_CODESEPARATOR : Z := 0xab.
Definition OP_CHECKSIG : Z := 0xac.
Definition OP_CHECKSIGVERIFY : Z := 0xad.
Definition OP_CHECKMULTISIG : Z := 0xae.
Definition OP_CHECKMULTISIGVERIFY : Z := 0xaf.
Definition OP_NOP1 : Z := 0xb0.
Definition OP_NOP2 : Z := 0xb1.
Definition OP_CHECKLOCKTIMEVERIFY : Z := 0xb1.
Definition OP_NOP3 : Z := 0xb2.
Definition OP_CHECKSEQUENCEVERIFY : Z := 0xb2.
Definition OP_NOP4 : Z := 0xb3.
Definition OP_NOP5 : Z := 0xb4.
Definition OP_NOP6 : Z := 0xb5.
Definition OP_NOP7 : Z := 0xb6.
Definition OP_NOP8 : Z := 0xb7.
Definition OP_NOP9 : Z := 0xb8.
Definition OP_NOP10 : Z := 0xb9.
Definition OP_UNKNOWN186 : Z := 0xba.
Definition OP_UNKNOWN187 : Z := 0xbb.
Definition OP_UNKNOWN188 : Z := 0xbc.
Definition OP_UNKNOWN189 : Z := 0xbd.
Definition OP_UNKNOWN190 : Z := 0xbe.
Definition OP_UNKNOWN191 : Z := 0xbf.
Definition OP_UNKNOWN192 : Z := 0xc0.
Definition OP_UNKNOWN193 : Z := 0xc1.
Definition OP_UNKNOWN194 : Z := 0xc2.
Definition OP_UNKNOWN195 : Z := 0xc3.
Definition OP_UNKNOWN196 : Z := 0xc4.
Definition OP_UNKNOWN197 : Z := 0xc5.
Definition OP_UNKNOWN198 : Z := 0xc6.
Definition OP_UNKNOWN199 : Z := 0xc7.
Definition OP_UNKNOWN200 : Z := 0xc8.
Definition OP_UNKNOWN201 : Z := 0xc9.
Definition OP_UNKNOWN202 : Z := 0xca.
Definition OP_UNKNOWN203 : Z := 0xcb.
Definition OP_UNKNOWN204 : Z := 0xcc.
Definition OP_UNKNOWN205 : Z := 0xcd.
Definition OP_UNKNOWN206 : Z := 0xce.
Definition OP_UNKNOWN207 : Z := 0xcf.
Definition OP_UNKNOWN208 : Z := 0xd0.
Definition OP_UNKNOWN209 : Z := 0xd1.
Definition OP_UNKNOWN210 : Z := 0xd2.
Definition OP_UNKNOWN211 : Z := 0xd3.
Definition OP_UNKNOWN212 : Z := 0xd4.
Definition OP_UNKNOWN213 : Z := 0xd5.
Definition OP_UNKNOWN214 : Z := 0xd6.
Definition OP_UNKNOWN215 : Z := 0xd7.
Definition OP_UNKNOWN216 : Z := 0xd8.
Definition OP_UNKNOWN217 : Z := 0xd9.
Definition OP_UNKNOWN218 : Z := 0xda.
Definition OP_UNKNOWN219 : Z := 0xdb.
Definition OP_UNKNOWN220 : Z := 0xdc.
Definition OP_UNKNOWN221 : Z := 0xdd.
Definition OP_UNKNOWN222 : Z := 0xde.
Definition OP_UNKNOWN223 : Z := 0xdf.
Definition OP_UNKNOWN224 : Z := 0xe0.
Definition OP_UNKNOWN225 : Z := 0xe1.
Definition OP_UNKNOWN226 : Z := 0xe2.
Definition OP_UNKNOWN227 : Z := 0xe3.
Definition OP_UNKNOWN228 : Z := 0xe4.
Definition OP_UNKNOWN229 : Z := 0xe5.
Definition OP_UNKNOWN230 : Z := 0xe6.
Definition OP_UNKNOWN231 : Z := 0xe7.
Definition OP_UNKNOWN232 : Z := 0xe8.
Definition OP_UNKNOWN233 : Z := 0xe9.
Definition OP_UNKNOWN234 : Z := 0xea.
Definition OP_UNKNOWN235 : Z := 0xeb.
Definition OP_UNKNOWN236 : Z := 0xec.
Definition OP_UNKNOWN237 : Z := 0xed.
Definition OP_UNKNOWN238 : Z := 0xee.
Definition OP_UNKNOWN239 : Z := 0xef.
Definition OP_UNKNOWN240 : Z := 0xf0.
Definition OP_UNKNOWN241 : Z := 0xf1.
Definition OP_UNKNOWN242 : Z := 0xf2.
Definition OP_UNKNOWN243 : Z := 0xf3.
Definition OP_UNKNOWN244 : Z := 0xf4.
Definition OP_UNKNOWN245 : Z := 0xf5.
Definition OP_UNKNOWN246 : Z := 0xf6.
Definition OP_UNKNOWN247 : Z := 0xf7.
Definition OP_UNKNOWN248 : Z := 0xf8.
Definition OP_SMALLDATA : Z := 0xf9.
Definition OP_SMALLINTEGER : Z := 0xfa.
Definition OP_PUBKEYS : Z := 0xfb.
Definition OP_UNKNOWN252 : Z := 0xfc.
Definition OP_PUBKEYHASH : Z := 0xfd.
Definition OP_PUBKEY : Z := 0xfe.
Definition OP_INVALIDOPCODE : Z := 0xff.

(** Conditional execution values. *)
Definition OpCondFalse : Z := 0.
Definition OpCondTrue : Z := 1.
Definition OpCondSkip : Z := 2.

(** * The table *)

(** The handler functions the table refers to. *)
Inductive handler : Set :=
| fn_opcodeFalse
| fn_opcodePushData
| fn_opcode1Negate
| fn_opcodeReserved
| fn_opcodeN
| fn_opcodeNop
| fn_opcodeIf
| fn_opcodeNotIf
| fn_opcodeElse
| fn_opcodeEndif
| fn_opcodeVerify
| fn_opcodeReturn
| fn_opcodeCheckLockTimeVerify
| fn_opcodeCheckSequenceVerify
| fn_opcodeToAltStack
| fn_opcodeFromAltStack
| fn_opcode2Drop
| fn_opcode2Dup
| fn_opcode3Dup
| fn_opcode2Over
| fn_opcode2Rot
| fn_opcode2Swap
| fn_opcodeIfDup
| fn_opcodeDepth
| fn_opcodeDrop
| fn_opcodeDup
| fn_opcodeNip
| fn_opcodeOver
| fn_opcodePick
| fn_opcodeRoll
| fn_opcodeRot
| fn_opcodeSwap
| fn_opcodeTuck
| fn_opcodeDisabled
| fn_opcodeSize
| fn_opcodeEqual
| fn_opcodeEqualVerify
| fn_opcode1Add
| fn_opcode1Sub
| fn_opcodeNegate
| fn_opcodeAbs
| fn_opcodeNot
| fn_opcode0NotEqual
| fn_opcodeAdd
| fn_opcodeSub
| fn_opcodeBoolAnd
| fn_opcodeBoolOr
| fn_opcodeNumEqual
| fn_opcodeNumEqualVerify
| fn_opcodeNumNotEqual
| fn_opcodeLessThan
| fn_opcodeGreaterThan
| fn_opcodeLessThanOrEqual
| fn_opcodeGreaterThanOrEqual
| fn_opcodeMin
| fn_opcodeMax
| fn_opcodeWithin
| fn_opcodeRipemd160
| fn_opcodeSha1
| fn_opcodeSha256
| fn_opcodeHash160
| fn_opcodeHash256
| fn_opcodeCodeSeparator
| fn_opcodeCheckSig
| fn_opcodeCheckSigVerify
| fn_opcodeCheckMultiSig
| fn_opcodeCheckMultiSigVerify
| fn_opcodeInvalid.

#[global] Instance handler_eq_dec : EqDecision handler.
Proof. solve_decision. Defined.

Record opcode := mkOpcode {
  value : Z;
  name : string;
  length_ : Z;
  opfunc : handler
}.

(** A keyed element of the table literal. *)
Abbreviation entry k v n l f := (k, mkOpcode v n%string l f).

Definition opcodeArray_push : list (Z * opcode) :=
  [ entry OP_FALSE OP_FALSE "OP_0" 1 fn_opcodeFalse;
    entry OP_DATA_1 OP_DATA_1 "OP_DATA_1" 2 fn_opcodePushData;
    entry OP_DATA_2 OP_DATA_2 "OP_DATA_2" 3 fn_opcodePushData;
    entry OP_DATA_3 OP_DATA_3 "OP_DATA_3" 4 fn_opcodePushData;
    entry OP_DATA_4 OP_DATA_4 "OP_DATA_4" 5 fn_opcodePushData;
    entry OP_DATA_5 OP_DATA_5 "OP_DATA_5" 6 fn_opcodePushData;
    entry OP_DATA_6 OP_DATA_6 "OP_DATA_6" 7 fn_opcodePushData;
    entry OP_DATA_7 OP_DATA_7 "OP_DATA_7" 8 fn_opcodePushData;
    entry OP_DATA_8 OP_DATA_8 "OP_DATA_8" 9 fn_opcodePushData;
    entry OP_DATA_9 OP_DATA_9 "OP_DATA_9" 10 fn_opcodePushData;
    entry OP_DATA_10 OP_DATA_10 "OP_DATA_10" 11 fn_opcodePushData;
    entry OP_DATA_11 OP_DATA_11 "OP_DATA_11" 12 fn_opcodePushData;
    entry OP_DATA_12 OP_DATA_12 "OP_DATA_12" 13 fn_opcodePushData;
    entry OP_DATA_13 OP_DATA_13 "OP_DATA_13" 14 fn_opcodePushData;
    entry OP_DATA_14 OP_DATA_14 "OP_DATA_14" 15 fn_opcodePushData;
    entry OP_DATA_15 OP_DATA_15 "OP_DATA_15" 16 fn_opcodePushData;
    entry OP_DATA_16 OP_DATA_16 "OP_DATA_16" 17 fn_opcodePushData;
    entry OP_DATA_17 OP_DATA_17 "OP_DATA_17" 18 fn_opcodePushData;
    entry OP_DATA_18 OP_DATA_18 "OP_DATA_18" 19 fn_opcodePushData;
    entry OP_DATA_19 OP_DATA_19 "OP_DATA_19" 20 fn_opcodePushData;
    entry OP_DATA_20 OP_DATA_20 "OP_DATA_20" 21 fn_opcodePushData;
    entry OP_DATA_21 OP_DATA_21 "OP_DATA_21" 22 fn_opcodePushData;
    entry OP_DATA_22 OP_DATA_22 "OP_DATA_22" 23 fn_opcodePushData;
    entry OP_DATA_23 OP_DATA_23 "OP_DATA_23" 24 fn_opcodePushData;
    entry OP_DATA_24 OP_DATA_24 "OP_DATA_24" 25 fn_opcodePushData;
    entry OP_DATA_25 OP_DATA_25 "OP_DATA_25" 26 fn_opcodePushData;
    entry OP_DATA_26 OP_DATA_26 "OP_DATA_26" 27 fn_opcodePushData;
    entry OP_DATA_27 OP_DATA_27 "OP_DATA_27" 28 fn_opcodePushData;
    entry OP_DATA_28 OP_DATA_28 "OP_DATA_28" 29 fn_opcodePushData;
    entry OP_DATA_29 OP_DATA_29 "OP_DATA_29" 30 fn_opcodePushData;
    entry OP_DATA_30 OP_DATA_30 "OP_DATA_30" 31 fn_opcodePushData;
    entry OP_DATA_31 OP_DATA_31 "OP_DATA_31" 32 fn_opcodePushData;
    entry OP_DATA_32 OP_DATA_32 "OP_DATA_32" 33 fn_opcodePushData;
    entry OP_DATA_33 OP_DATA_33 "OP_DATA_33" 34 fn_opcodePushData;
    entry OP_DATA_34 OP_DATA_34 "OP_DATA_34" 35 fn_opcodePushData;
    entry OP_DATA_35 OP_DATA_35 "OP_DATA_35" 36 fn_opcodePushData;
    entry OP_DATA_36 OP_DATA_36 "OP_DATA_36" 37 fn_opcodePushData;
    entry OP_DATA_37 OP_DATA_37 "OP_DATA_37" 38 fn_opcodePushData;
    entry OP_DATA_38 OP_DATA_38 "OP_DATA_38" 39 fn_opcodePushData;
    entry OP_DATA_39 OP_DATA_39 "OP_DATA_39" 40 fn_opcodePushData;
    entry OP_DATA_40 OP_DATA_40 "OP_DATA_40" 41 fn_opcodePushData;
    entry OP_DATA_41 OP_DATA_41 "OP_DATA_41" 42 fn_opcodePushData;
    entry OP_DATA_42 OP_DATA_42 "OP_DATA_42" 43 fn_opcodePushData;
    entry OP_DATA_43 OP_DATA_43 "OP_DATA_43" 44 fn_opcodePushData;
    entry OP_DATA_44 OP_DATA_44 "OP_DATA_44" 45 fn_opcodePushData;
    entry OP_DATA_45 OP_DATA_45 "OP_DATA_45" 46 fn_opcodePushData;
    entry OP_DATA_46 OP_DATA_46 "OP_DATA_46" 47 fn_opcodePushData;
    entry OP_DATA_47 OP_DATA_47 "OP_DATA_47" 48 fn_opcodePushData;
    entry OP_DATA_48 OP_DATA_48 "OP_DATA_48" 49 fn_opcodePushData;
    entry OP_DATA_49 OP_DATA_49 "OP_DATA_49" 50 fn_opcodePushData;
    entry OP_DATA_50 OP_DATA_50 "OP_DATA_50" 51 fn_opcodePushData;
    entry OP_DATA_51 OP_DATA_51 "OP_DATA_51" 52 fn_opcodePushData;
    entry OP_DATA_52 OP_DATA_52 "OP_DATA_52" 53 fn_opcodePushData;
    entry OP_DATA_53 OP_DATA_53 "OP_DATA_53" 54 fn_opcodePushData;
    entry OP_DATA_54 OP_DATA_54 "OP_DATA_54" 55 fn_opcodePushData;
    entry OP_DATA_55 OP_DATA_55 "OP_DATA_55" 56 fn_opcodePushData;
    entry OP_DATA_56 OP_DATA_56 "OP_DATA_56" 57 fn_opcodePushData;
    entry OP_DATA_57 OP_DATA_57 "OP_DATA_57" 58 fn_opcodePushData;
    entry OP_DATA_58 OP_DATA_58 "OP_DATA_58" 59 fn_opcodePushData;
    entry OP_DATA_59 OP_DATA_59 "OP_DATA_59" 60 fn_opcodePushData;
    entry OP_DATA_60 OP_DATA_60 "OP_DATA_60" 61 fn_opcodePushData;
    entry OP_DATA_61 OP_DATA_61 "OP_DATA_61" 62 fn_opcodePushData;
    entry OP_DATA_62 OP_DATA_62 "OP_DATA_62" 63 fn_opcodePushData;
    entry OP_DATA_63 OP_DATA_63 "OP_DATA_63" 64 fn_opcodePushData;
    entry OP_DATA_64 OP_DATA_64 "OP_DATA_64" 65 fn_opcodePushData;
    entry OP_DATA_65 OP_DATA_65 "OP_DATA_65" 66 fn_opcodePushData;
    entry OP_DATA_66 OP_DATA_66 "OP_DATA_66" 67 fn_opcodePushData;
    entry OP_DATA_67 OP_DATA_67 "OP_DATA_67" 68 fn_opcodePushData;
    entry OP_DATA_68 OP_DATA_68 "OP_DATA_68" 69 fn_opcodePushData;
    entry OP_DATA_69 OP_DATA_69 "OP_DATA_69" 70 fn_opcodePushData;
    entry OP_DATA_70 OP_DATA_70 "OP_DATA_70" 71 fn_opcodePushData;
    entry OP_DATA_71 OP_DATA_71 "OP_DATA_71" 72 fn_opcodePushData;
    entry OP_DATA_72 OP_DATA_72 "OP_DATA_72" 73 fn_opcodePushData;
    entry OP_DATA_73 OP_DATA_73 "OP_DATA_73" 74 fn_opcodePushData;
    entry OP_DATA_74 OP_DATA_74 "OP_DATA_74" 75 fn_opcodePushData;
    entry OP_DATA_75 OP_DATA_75 "OP_DATA_75" 76 fn_opcodePushData;
    entry OP_PUSHDATA1 OP_PUSHDATA1 "OP_PUSHDATA1" (-1) fn_opcodePushData;
    entry OP_PUSHDATA2 OP_PUSHDATA2 "OP_PUSHDATA2" (-2) fn_opcodePushData;
    entry OP_PUSHDATA4 OP_PUSHDATA4 "OP_PUSHDATA4" (-4) fn_opcodePushData;
    entry OP_1NEGATE OP_1NEGATE "OP_1NEGATE" 1 fn_opcode1Negate;
    entry OP_RESERVED OP_RESERVED "OP_RESERVED" 1 fn_opcodeReserved;
    entry OP_TRUE OP_TRUE "OP_1" 1 fn_opcodeN;
    entry OP_2 OP_2 "OP_2" 1 fn_opcodeN;
    entry OP_3 OP_3 "OP_3" 1 fn_opcodeN;
    entry OP_4 OP_4 "OP_4" 1 fn_opcodeN;
    entry OP_5 OP_5 "OP_5" 1 fn_opcodeN;
    entry OP_6 OP_6 "OP_6" 1 fn_opcodeN;
    entry OP_7 OP_7 "OP_7" 1 fn_opcodeN;
    entry OP_8 OP_8 "OP_8" 1 fn_opcodeN;
    entry OP_9 OP_9 "OP_9" 1 fn_opcodeN;
    entry OP_10 OP_10 "OP_10" 1 fn_opcodeN;
    entry OP_11 OP_11 "OP_11" 1 fn_opcodeN;
    entry OP_12 OP_12 "OP_12" 1 fn_opcodeN;
    entry OP_13 OP_13 "OP_13" 1 fn_opcodeN;
    entry OP_14 OP_14 "OP_14" 1 fn_opcodeN;
    entry OP_15 OP_15 "OP_15" 1 fn_opcodeN;
    entry OP_16 OP_16 "OP_16" 1 fn_opcodeN ].

Definition opcodeArray_control : list (Z * opcode) :=
  [ entry OP_NOP OP_NOP "OP_NOP" 1 fn_opcodeNop;
    entry OP_VER OP_VER "OP_VER" 1 fn_opcodeReserved;
    entry OP_IF OP_IF "OP_IF" 1 fn_opcodeIf;
    entry OP_NOTIF OP_NOTIF "OP_NOTIF" 1 fn_opcodeNotIf;
    entry OP_VERIF OP_VERIF "OP_VERIF" 1 fn_opcodeReserved;
    entry OP_VERNOTIF OP_VERNOTIF "OP_VERNOTIF" 1 fn_opcodeReserved;
    entry OP_ELSE OP_ELSE "OP_ELSE" 1 fn_opcodeElse;
    entry OP_ENDIF OP_ENDIF "OP_ENDIF" 1 fn_opcodeEndif;
    entry OP_VERIFY OP_VERIFY "OP_VERIFY" 1 fn_opcodeVerify;
    entry OP_RETURN OP_RETURN "OP_RETURN" 1 fn_opcodeReturn;
    entry OP_CHECKLOCKTIMEVERIFY OP_CHECKLOCKTIMEVERIFY "OP_CHECKLOCKTIMEVERIFY" 1 fn_opcodeCheckLockTimeVerify;
    entry OP_CHECKSEQUENCEVERIFY OP_CHECKSEQUENCEVERIFY "OP_CHECKSEQUENCEVERIFY" 1 fn_opcodeCheckSequenceVerify ].

Definition opcodeArray_stack : list (Z * opcode) :=
  [ entry OP_TOALTSTACK OP_TOALTSTACK "OP_TOALTSTACK" 1 fn_opcodeToAltStack;
    entry OP_FROMALTSTACK OP_FROMALTSTACK "OP_FROMALTSTACK" 1 fn_opcodeFromAltStack;
    entry OP_2DROP OP_2DROP "OP_2DROP" 1 fn_opcode2Drop;
    entry OP_2DUP OP_2DUP "OP_2DUP" 1 fn_opcode2Dup;
    entry OP_3DUP OP_3DUP "OP_3DUP" 1 fn_opcode3Dup;
    entry OP_2OVER OP_2OVER "OP_2OVER" 1 fn_opcode2Over;
    entry OP_2ROT OP_2ROT "OP_2ROT" 1 fn_opcode2Rot;
    entry OP_2SWAP OP_2SWAP "OP_2SWAP" 1 fn_opcode2Swap;
    entry OP_IFDUP OP_IFDUP "OP_IFDUP" 1 fn_opcodeIfDup;
    entry OP_DEPTH OP_DEPTH "OP_DEPTH" 1 fn_opcodeDepth;
    entry OP_DROP OP_DROP "OP_DROP" 1 fn_opcodeDrop;
    entry OP_DUP OP_DUP "OP_DUP" 1 fn_opcodeDup;
    entry OP_NIP OP_NIP "OP_NIP" 1 fn_opcodeNip;
    entry OP_OVER OP_OVER "OP_OVER" 1 fn_opcodeOver;
    entry OP_PICK OP_PICK "OP_PICK" 1 fn_opcodePick;
    entry OP_ROLL OP_ROLL "OP_ROLL" 1 fn_opcodeRoll;
    entry OP_ROT OP_ROT "OP_ROT" 1 fn_opcodeRot;
    entry OP_SWAP OP_SWAP "OP_SWAP" 1 fn_opcodeSwap;
    entry OP_TUCK OP_TUCK "OP_TUCK" 1 fn_opcodeTuck ].

Definition opcodeArray_splice : list (Z * opcode) :=
  [ entry OP_CAT OP_CAT "OP_CAT" 1 fn_opcodeDisabled;
    entry OP_SUBSTR OP_SUBSTR "OP_SUBSTR" 1 fn_opcodeDisabled;
    entry OP_LEFT OP_LEFT "OP_LEFT" 1 fn_opcodeDisabled;
    entry OP_RIGHT OP_RIGHT "OP_RIGHT" 1 fn_opcodeDisabled;
    entry OP_SIZE OP_SIZE "OP_SIZE" 1 fn_opcodeSize ].

Definition opcodeArray_bitwise : list (Z * opcode) :=
  [ entry OP_INVERT OP_INVERT "OP_INVERT" 1 fn_opcodeDisabled;
    entry OP_AND OP_AND "OP_AND" 1 fn_opcodeDisabled;
    entry OP_OR OP_OR "OP_OR" 1 fn_opcodeDisabled;
    entry OP_XOR OP_XOR "OP_XOR" 1 fn_opcodeDisabled;
    entry OP_EQUAL OP_EQUAL "OP_EQUAL" 1 fn_opcodeEqual;
    entry OP_EQUALVERIFY OP_EQUALVERIFY "OP_EQUALVERIFY" 1 fn_opcodeEqualVerify;
    entry OP_RESERVED1 OP_RESERVED1 "OP_RESERVED1" 1 fn_opcodeReserved;
    entry OP_RESERVED2 OP_RESERVED2 "OP_RESERVED2" 1 fn_opcodeReserved ].

Definition opcodeArray_numeric : list (Z * opcode) :=
  [ entry OP_1ADD OP_1ADD "OP_1ADD" 1 fn_opcode1Add;
    entry OP_1SUB OP_1SUB "OP_1SUB" 1 fn_opcode1Sub;
    entry OP_2MUL OP_2MUL "OP_2MUL" 1 fn_opcodeDisabled;
    entry OP_2DIV OP_2DIV "OP_2DIV" 1 fn_opcodeDisabled;
    entry OP_NEGATE OP_NEGATE "OP_NEGATE" 1 fn_opcodeNegate;
    entry OP_ABS OP_ABS "OP_ABS" 1 fn_opcodeAbs;
    entry OP_NOT OP_NOT "OP_NOT" 1 fn_opcodeNot;
    entry OP_0NOTEQUAL OP_0NOTEQUAL "OP_0NOTEQUAL" 1 fn_opcode0NotEqual;
    entry OP_ADD OP_ADD "OP_ADD" 1 fn_opcodeAdd;
    entry OP_SUB OP_SUB "OP_SUB" 1 fn_opcodeSub;
    entry OP_MUL OP_MUL "OP_MUL" 1 fn_opcodeDisabled;
    entry OP_DIV OP_DIV "OP_DIV" 1 fn_opcodeDisabled;
    entry OP_MOD OP_MOD "OP_MOD" 1 fn_opcodeDisabled;
    entry OP_LSHIFT OP_LSHIFT "OP_LSHIFT" 1 fn_opcodeDisabled;
    entry OP_RSHIFT OP_RSHIFT "OP_RSHIFT" 1 fn_opcodeDisabled;
    entry OP_BOOLAND OP_BOOLAND "OP_BOOLAND" 1 fn_opcodeBoolAnd;
    entry OP_BOOLOR OP_BOOLOR "OP_BOOLOR" 1 fn_opcodeBoolOr;
    entry OP_NUMEQUAL OP_NUMEQUAL "OP_NUMEQUAL" 1 fn_opcodeNumEqual;
    entry OP_NUMEQUALVERIFY OP_NUMEQUALVERIFY "OP_NUMEQUALVERIFY" 1 fn_opcodeNumEqualVerify;
    entry OP_NUMNOTEQUAL OP_NUMNOTEQUAL "OP_NUMNOTEQUAL" 1 fn_opcodeNumNotEqual;
    entry OP_LESSTHAN OP_LESSTHAN "OP_LESSTHAN" 1 fn_opcodeLessThan;
    entry OP_GREATERTHAN OP_GREATERTHAN "OP_GREATERTHAN" 1 fn_opcodeGreaterThan;
    entry OP_LESSTHANOREQUAL OP_LESSTHANOREQUAL "OP_LESSTHANOREQUAL" 1 fn_opcodeLessThanOrEqual;
    entry OP_GREATERTHANOREQUAL OP_GREATERTHANOREQUAL "OP_GREATERTHANOREQUAL" 1 fn_opcodeGreaterThanOrEqual;
    entry OP_MIN OP_MIN "OP_MIN" 1 fn_opcodeMin;
    entry OP_MAX OP_MAX "OP_MAX" 1 fn_opcodeMax;
    entry OP_WITHIN OP_WITHIN "OP_WITHIN" 1 fn_opcodeWithin ].

Definition opcodeArray_crypto : list (Z * opcode) :=
  [ entry OP_RIPEMD160 OP_RIPEMD160 "OP_RIPEMD160" 1 fn_opcodeRipemd160;
    entry OP_SHA1 OP_SHA1 "OP_SHA1" 1 fn_opcodeSha1;
    entry OP_SHA256 OP_SHA256 "OP_SHA256" 1 fn_opcodeSha256;
    entry OP_HASH160 OP_HASH160 "OP_HASH160" 1 fn_opcodeHash160;
    entry OP_HASH256 OP_HASH256 "OP_HASH256" 1 fn_opcodeHash256;
    entry OP_CODESEPARATOR OP_CODESEPARATOR "OP_CODESEPARATOR" 1 fn_opcodeCodeSeparator;
    entry OP_CHECKSIG OP_CHECKSIG "OP_CHECKSIG" 1 fn_opcodeCheckSig;
    entry OP_CHECKSIGVERIFY OP_CHECKSIGVERIFY "OP_CHECKSIGVERIFY" 1 fn_opcodeCheckSigVerify;
    entry OP_CHECKMULTISIG OP_CHECKMULTISIG "OP_CHECKMULTISIG" 1 fn_opcodeCheckMultiSig;
    entry OP_CHECKMULTISIGVERIFY OP_CHECKMULTISIGVERIFY "OP_CHECKMULTISIGVERIFY" 1 fn_opcodeCheckMultiSigVerify ].

Definition opcodeArray_reserved : list (Z * opcode) :=
  [ entry OP_NOP1 OP_NOP1 "OP_NOP1" 1 fn_opcodeNop;
    entry OP_NOP4 OP_NOP4 "OP_NOP4" 1 fn_opcodeNop;
    entry OP_NOP5 OP_NOP5 "OP_NOP5" 1 fn_opcodeNop;
    entry OP_NOP6 OP_NOP6 "OP_NOP6" 1 fn_opcodeNop;
    entry OP_NOP7 OP_NOP7 "OP_NOP7" 1 fn_opcodeNop;
    entry OP_NOP8 OP_NOP8 "OP_NOP8" 1 fn_opcodeNop;
    entry OP_NOP9 OP_NOP9 "OP_NOP9" 1 fn_opcodeNop;
    entry OP_NOP10 OP_NOP10 "OP_NOP10" 1 fn_opcodeNop ].

Definition opcodeArray_undefined : list (Z * opcode) :=
  [ entry OP_UNKNOWN186 OP_UNKNOWN186 "OP_UNKNOWN186" 1 fn_opcodeInvalid;
    entry OP_UNKNOWN187 OP_UNKNOWN187 "OP_UNKNOWN187" 1 fn_opcodeInvalid;
    entry OP_UNKNOWN188 OP_UNKNOWN188 "OP_UNKNOWN188" 1 fn_opcodeInvalid;
    entry OP_UNKNOWN189 OP_UNKNOWN189 "OP_UNKNOWN189" 1 fn_opcodeInvalid;
    entry OP_UNKNOWN190 OP_UNKNOWN190 "OP_UNKNOWN190" 1 fn_opcodeInvalid;
    entry OP_UNKNOWN191 OP_UNKNOWN191 "OP_UNKNOWN191" 1 fn_opcodeInvalid;
    entry OP_UNKNOWN192 OP_UNKNOWN192 "OP_UNKNOWN192" 1 fn_opcodeInvalid;
    entry OP_UNKNOWN193 OP_UNKNOWN193 "OP_UNKNOWN193" 1 fn_opcodeInvalid;
    entry OP_UNKNOWN194 OP_UNKNOWN194 "OP_UNKNOWN194" 1 fn_opcodeInvalid;
    entry OP_UNKNOWN195 OP_UNKNOWN195 "OP_UNKNOWN195" 1 fn_opcodeInvalid;
    entry OP_UNKNOWN196 OP_UNKNOWN196 "OP_UNKNOWN196" 1 fn_opcodeInvalid;
    entry OP_UNKNOWN197 OP_UNKNOWN197 "OP_UNKNOWN197" 1 fn_opcodeInvalid;
    entry OP_UNKNOWN198 OP_UNKNOWN198 "OP_UNKNOWN198" 1 fn_opcodeInvalid;
    entry OP_UNKNOWN199 OP_UNKNOWN199 "OP_UNKNOWN199" 1 fn_opcodeInvalid;
    entry OP_UNKNOWN200 OP_UNKNOWN200 "OP_UNKNOWN200" 1 fn_opcodeInvalid;
    entry OP_UNKNOWN201 OP_UNKNOWN201 "OP_UNKNOWN201" 1 fn_opcodeInvalid;
    entry OP_UNKNOWN202 OP_UNKNOWN202 "OP_UNKNOWN202" 1 fn_opcodeInvalid;
    entry OP_UNKNOWN203 OP_UNKNOWN203 "OP_UNKNOWN203" 1 fn_opcodeInvalid;
    entry OP_UNKNOWN204 OP_UNKNOWN204 "OP_UNKNOWN204" 1 fn_opcodeInvalid;
    entry OP_UNKNOWN205 OP_UNKNOWN205 "OP_UNKNOWN205" 1 fn_opcodeInvalid;
    entry OP_UNKNOWN206 OP_UNKNOWN206 "OP_UNKNOWN206" 1 fn_opcodeInvalid;
    entry OP_UNKNOWN207 OP_UNKNOWN207 "OP_UNKNOWN207" 1 fn_opcodeInvalid;
    entry OP_UNKNOWN208 OP_UNKNOWN208 "OP_UNKNOWN208" 1 fn_opcodeInvalid;
    entry OP_UNKNOWN209 OP_UNKNOWN209 "OP_UNKNOWN209" 1 fn_opcodeInvalid;
    entry OP_UNKNOWN210 OP_UNKNOWN210 "OP_UNKNOWN210" 1 fn_opcodeInvalid;
    entry OP_UNKNOWN211 OP_UNKNOWN211 "OP_UNKNOWN211" 1 fn_opcodeInvalid;
    entry OP_UNKNOWN212 OP_UNKNOWN212 "OP_UNKNOWN212" 1 fn_opcodeInvalid;
    entry OP_UNKNOWN213 OP_UNKNOWN213 "OP_UNKNOWN213" 1 fn_opcodeInvalid;
    entry OP_UNKNOWN214 OP_UNKNOWN214 "OP_UNKNOWN214" 1 fn_opcodeInvalid;
    entry OP_UNKNOWN215 OP_UNKNOWN215 "OP_UNKNOWN215" 1 fn_opcodeInvalid;
    entry OP_UNKNOWN216 OP_UNKNOWN216 "OP_UNKNOWN216" 1 fn_opcodeInvalid;
    entry OP_UNKNOWN217 OP_UNKNOWN217 "OP_UNKNOWN217" 1 fn_opcodeInvalid;
    entry OP_UNKNOWN218 OP_UNKNOWN218 "OP_UNKNOWN218" 1 fn_opcodeInvalid;
    entry OP_UNKNOWN219 OP_UNKNOWN219 "OP_UNKNOWN219" 1 fn_opcodeInvalid;
    entry OP_UNKNOWN220 OP_UNKNOWN220 "OP_UNKNOWN220" 1 fn_opcodeInvalid;
    entry OP_UNKNOWN221 OP_UNKNOWN221 "OP_UNKNOWN221" 1 fn_opcodeInvalid;
    entry OP_UNKNOWN222 OP_UNKNOWN222 "OP_UNKNOWN222" 1 fn_opcodeInvalid;
    entry OP_UNKNOWN223 OP_UNKNOWN223 "OP_UNKNOWN223" 1 fn_opcodeInvalid;
    entry OP_UNKNOWN224 OP_UNKNOWN224 "OP_UNKNOWN224" 1 fn_opcodeInvalid;
    entry OP_UNKNOWN225 OP_UNKNOWN225 "OP_UNKNOWN225" 1 fn_opcodeInvalid;
    entry OP_UNKNOWN226 OP_UNKNOWN226 "OP_UNKNOWN226" 1 fn_opcodeInvalid;
    entry OP_UNKNOWN227 OP_UNKNOWN227 "OP_UNKNOWN227" 1 fn_opcodeInvalid;
    entry OP_UNKNOWN228 OP_UNKNOWN228 "OP_UNKNOWN228" 1 fn_opcodeInvalid;
    entry OP_UNKNOWN229 OP_UNKNOWN229 "OP_UNKNOWN229" 1 fn_opcodeInvalid;
    entry OP_UNKNOWN230 OP_UNKNOWN230 "OP_UNKNOWN230" 1 fn_opcodeInvalid;
    entry OP_UNKNOWN231 OP_UNKNOWN231 "OP_UNKNOWN231" 1 fn_opcodeInvalid;
    entry OP_UNKNOWN232 OP_UNKNOWN232 "OP_UNKNOWN232" 1 fn_opcodeInvalid;
    entry OP_UNKNOWN233 OP_UNKNOWN233 "OP_UNKNOWN233" 1 fn_opcodeInvalid;
    entry OP_UNKNOWN234 OP_UNKNOWN234 "OP_UNKNOWN234" 1 fn_opcodeInvalid;
    entry OP_UNKNOWN235 OP_UNKNOWN235 "OP_UNKNOWN235" 1 fn_opcodeInvalid;
    entry OP_UNKNOWN236 OP_UNKNOWN236 "OP_UNKNOWN236" 1 fn_opcodeInvalid;
    entry OP_UNKNOWN237 OP_UNKNOWN237 "OP_UNKNOWN237" 1 fn_opcodeInvalid;
    entry OP_UNKNOWN238 OP_UNKNOWN238 "OP_UNKNOWN238" 1 fn_opcodeInvalid;
    entry OP_UNKNOWN239 OP_UNKNOWN239 "OP_UNKNOWN239" 1 fn_opcodeInvalid;
    entry OP_UNKNOWN240 OP_UNKNOWN240 "OP_UNKNOWN240" 1 fn_opcodeInvalid;
    entry OP_UNKNOWN241 OP_UNKNOWN241 "OP_UNKNOWN241" 1 fn_opcodeInvalid;
    entry OP_UNKNOWN242 OP_UNKNOWN242 "OP_UNKNOWN242" 1 fn_opcodeInvalid;
    entry OP_UNKNOWN243 OP_UNKNOWN243 "OP_UNKNOWN243" 1 fn_opcodeInvalid;
    entry OP_UNKNOWN244 OP_UNKNOWN244 "OP_UNKNOWN244" 1 fn_opcodeInvalid;
    entry OP_UNKNOWN245 OP_UNKNOWN245 "OP_UNKNOWN245" 1 fn_opcodeInvalid;
    entry OP_UNKNOWN246 OP_UNKNOWN246 "OP_UNKNOWN246" 1 fn_opcodeInvalid;
    entry OP_UNKNOWN247 OP_UNKNOWN247 "OP_UNKNOWN247" 1 fn_opcodeInvalid;
    entry OP_UNKNOWN248 OP_UNKNOWN248 "OP_UNKNOWN248" 1 fn_opcodeInvalid ].

Definition opcodeArray_internal : list (Z * opcode) :=
  [ entry OP_SMALLDATA OP_SMALLDATA "OP_SMALLDATA" 1 fn_opcodeInvalid;
    entry OP_SMALLINTEGER OP_SMALLINTEGER "OP_SMALLINTEGER" 1 fn_opcodeInvalid;
    entry OP_PUBKEYS OP_PUBKEYS "OP_PUBKEYS" 1 fn_opcodeInvalid;
    entry OP_UNKNOWN252 OP_UNKNOWN252 "OP_UNKNOWN252" 1 fn_opcodeInvalid;
    entry OP_PUBKEYHASH OP_PUBKEYHASH "OP_PUBKEYHASH" 1 fn_opcodeInvalid;
    entry OP_PUBKEY OP_PUBKEY "OP_PUBKEY" 1 fn_opcodeInvalid;
    entry OP_INVALIDOPCODE OP_INVALIDOPCODE "OP_INVALIDOPCODE" 1 fn_opcodeInvalid ].

Definition opcodeArray_entries : list (Z * opcode) :=
  opcodeArray_push ++
  opcodeArray_control ++
  opcodeArray_stack ++
  opcodeArray_splice ++
  opcodeArray_bitwise ++
  opcodeArray_numeric ++
  opcodeArray_crypto ++
  opcodeArray_reserved ++
  opcodeArray_undefined ++
  opcodeArray_internal.

(** The element of the array a missing key would leave: Go's zero value, whose nil
    handler panics when called. *)
Definition opcode_zero : opcode := mkOpcode 0 "" 0 fn_opcodeInvalid.

Fixpoint keyed {A} (i : Z) (l : list (Z * A)) : option A :=
  match l with
  | [] => None
  | (k, a) :: l' => if k =? i then Some a else keyed i l'
  end.

(** [opcodeArray[i]] for a byte [i]; the 256 elements are laid out once. *)
Definition opcodeArray : list opcode :=
  Eval vm_compute in
  map (fun i => default opcode_zero (keyed (Z.of_nat i) opcodeArray_entries)) (seq 0 256).

Definition opcode_at (b : Z) : opcode := nth (Z.to_nat b) opcodeArray opcode_zero.

(** * Parsed opcodes *)

(** [data] is a slice that may be nil ([None]). *)
Record parsedOpcode := mkParsed { opcode_of : opcode; data : option bytes }.

Definition pop_value (pop : parsedOpcode) : Z := value (opcode_of pop).
Definition pop_data (pop : parsedOpcode) : bytes :=
  match data pop with Some d => d | None => [] end.

Definition isDisabled (pop : parsedOpcode) : bool :=
  let v := pop_value pop in
  (v =? OP_CAT) || (v =? OP_SUBSTR) || (v =? OP_LEFT) || (v =? OP_RIGHT) || (v =? OP_INVERT) ||
  (v =? OP_AND) || (v =? OP_OR) || (v =? OP_XOR) || (v =? OP_2MUL) || (v =? OP_2DIV) ||
  (v =? OP_MUL) || (v =? OP_DIV) || (v =? OP_MOD) || (v =? OP_LSHIFT) || (v =? OP_RSHIFT).

Definition alwaysIllegal (pop : parsedOpcode) : bool :=
  let v := pop_value pop in (v =? OP_VERIF) || (v =? OP_VERNOTIF).

Definition isConditional (pop : parsedOpcode) : bool :=
  let v := pop_value pop in
  (v =? OP_IF) || (v =? OP_NOTIF) || (v =? OP_ELSE) || (v =? OP_ENDIF).

Definition checkMinimalDataPush (pop : parsedOpcode) : result unit :=
  let data := pop_data pop in
  let dataLen := len data in
  let opcode := pop_value pop in
  let data0 := hd 0 data in
  if (dataLen =? 0) && negb (opcode =? OP_0) then Err ErrStackMinimalData
  else if (dataLen =? 1) && (data0 >=? 1) && (data0 <=? 16) then
    check (negb (opcode =? uint8 (OP_1 + data0 - 1))) ErrStackMinimalData
  else if (dataLen =? 1) && (data0 =? 0x81) then
    check (negb (opcode =? OP_1NEGATE)) ErrStackMinimalData
  else if dataLen <=? 75 then check (negb (opcode =? dataLen)) ErrStackMinimalData
  else if dataLen <=? 255 then check (negb (opcode =? OP_PUSHDATA1)) ErrStackMinimalData
  else if dataLen <=? 65535 then check (negb (opcode =? OP_PUSHDATA2)) ErrStackMinimalData
  else Ret tt.

(** [parsedOpcode.bytes]: the opcode, its length field if it has one, and the data. *)
Definition parsedOpcode_bytes (pop : parsedOpcode) : result bytes :=
  let oplen := length_ (opcode_of pop) in
  let retbytes := [pop_value pop] in
  if oplen =? 1 then
    if negb (len (pop_data pop) =? 0) then Err ErrStackInvalidOpcode else Ret retbytes
  else
    let l := len (pop_data pop) in
    let '(retbytes, nbytes) :=
      if oplen <? 0 then
        if oplen =? -1 then
          (retbytes ++ [uint8 l], uint8 l + 2)
        else if oplen =? -2 then
          let field := [uint8 (Z.land l 0xff); uint8 (Z.land (Z.shiftr l 8) 0xff)] in
          (retbytes ++ field, le_decode field + 3)
        else if oplen =? -4 then
          let field := [uint8 (Z.land l 0xff); uint8 (Z.land (Z.shiftr l 8) 0xff);
                        uint8 (Z.land (Z.shiftr l 16) 0xff); uint8 (Z.land (Z.shiftr l 24) 0xff)] in
          (retbytes ++ field, le_decode field + 5)
        else (retbytes, oplen)
      else (retbytes, oplen) in
    let retbytes := retbytes ++ pop_data pop in
    if negb (len retbytes =? nbytes) then Err ErrStackInvalidOpcode else Ret retbytes.

(** * The table is complete *)

(** Every byte has an entry under its own value, with a length parseScript can act
    on: 1, a direct push of 2 to 76 bytes, or one of the three length-prefixed pushes. *)
Definition opcode_wf (b : Z) (op : opcode) : bool :=
  (value op =? b) &&
  ((length_ op =? 1) ||
   ((1 <? length_ op) && (length_ op <=? 76) && (b =? length_ op - 1)) ||
   ((length_ op =? -1) && (b =? OP_PUSHDATA1)) ||
   ((length_ op =? -2) && (b =? OP_PUSHDATA2)) ||
   ((length_ op =? -4) && (b =? OP_PUSHDATA4))).

Lemma opcode_table_checked :
  forallb (fun i => opcode_wf (Z.of_nat i) (opcode_at (Z.of_nat i))) (seq 0 256) = true.
Proof. vm_compute. reflexivity. Qed.

Lemma opcode_at_wf b : is_byte b -> opcode_wf b (opcode_at b) = true.
Proof.
  intros Hb. unfold is_byte in Hb.
  pose proof (proj1 (forallb_forall _ _) opcode_table_checked (Z.to_nat b)) as H.
  cbn beta in H. rewrite Z2Nat.id in H by lia. apply H. apply in_seq. lia.
Qed.

Lemma opcode_at_value b : is_byte b -> value (opcode_at b) = b.
Proof. intros H%opcode_at_wf. apply andb_true_iff in H as [H _]. by apply Z.eqb_eq. Qed.

(** The lengths of the entries, case by case. *)
Lemma opcode_at_length b :
  is_byte b ->
  length_ (opcode_at b) = 1 \/
  (2 <= length_ (opcode_at b) <= 76 /\ b = length_ (opcode_at b) - 1) \/
  (length_ (opcode_at b) = -1 /\ b = OP_PUSHDATA1) \/
  (length_ (opcode_at b) = -2 /\ b = OP_PUSHDATA2) \/
  (length_ (opcode_at b) = -4 /\ b = OP_PUSHDATA4).
Proof.
  intros H%opcode_at_wf. unfold opcode_wf in H. bool_to_prop.
  repeat match goal with H : _ || _ = true |- _ => apply orb_true_iff in H as [H|H] end;
    bool_to_prop; auto 6. right. left. lia.
Qed.

(** The direct pushes: OP_DATA_n is followed by n bytes, for 1 <= n <= 75. *)
Lemma opcode_at_data n : 1 <= n <= 75 -> length_ (opcode_at n) = n + 1.
Proof.
  intros Hn.
  assert (forallb (fun i => length_ (opcode_at (Z.of_nat i)) =? Z.of_nat i + 1) (seq 1 75) = true) as H
    by (vm_compute; reflexivity).
  rewrite forallb_forall in H. specialize (H (Z.to_nat n)). cbn beta in H.
  rewrite Z2Nat.id in H by lia. apply Z.eqb_eq, H. apply in_seq. lia.
Qed.
