(* ===== verification/Script.v ===== *)
(** Scripts: txscript/script.go without the signature hashes.  Parsing and unparsing,
    the recognisers of witness programs, canonical pushes, and the counting of
    signature operations. *)

From S2P Require Import Prelude TxCommon Opcodes.

(** * Recognisers *)

Definition isSmallInt (op : opcode) : bool :=
  (value op =? OP_0) || ((value op >=? OP_1) && (value op <=? OP_16)).

Definition asSmallInt (op : opcode) : Z :=
  if value op =? OP_0 then 0 else uint8 (value op - (OP_1 - 1)).

Definition canonicalPush (pop : parsedOpcode) : bool :=
  let opcode := pop_value pop in
  let data := pop_data pop in
  let dataLen := len data in
  if opcode >? OP_16 then true
  else if (opcode <? OP_PUSHDATA1) && (opcode >? OP_0) && ((dataLen =? 1) && (hd 0 data <=? 16)) then false
  else if (opcode =? OP_PUSHDATA1) && (dataLen <? OP_PUSHDATA1) then false
  else if (opcode =? OP_PUSHDATA2) && (dataLen <=? 0xff) then false
  else if (opcode =? OP_PUSHDATA4) && (dataLen <=? 0xffff) then false
  else true.

Definition isWitnessScriptHash (pops : list parsedOpcode) : bool :=
  match pops with
  | [p0; p1] => (pop_value p0 =? OP_0) && (pop_value p1 =? OP_DATA_32)
  | _ => false
  end.

Definition isWitnessStakingScript (pops : list parsedOpcode) : bool :=
  match pops with
  | [p0; p1; p2] =>
      (pop_value p0 =? OP_0) && (pop_value p1 =? OP_DATA_32) && (pop_value p2 =? OP_DATA_8)
  | _ => false
  end.

Definition isWitnessBindingScript (pops : list parsedOpcode) : bool :=
  match pops with
  | [p0; p1; p2] =>
      (pop_value p0 =? OP_0) && (pop_value p1 =? OP_DATA_32) &&
      ((pop_value p2 =? OP_DATA_20) || (pop_value p2 =? OP_DATA_22))
  | _ => false
  end.

Definition between (a x b : Z) : bool := (a <=? x) && (x <=? b).

Definition isWitnessProgram (pops : list parsedOpcode) : bool :=
  match pops with
  | [p0; p1] =>
      isSmallInt (opcode_of p0) && canonicalPush p1 && between 2 (len (pop_data p1)) 40
  | _ => false
  end.

Definition isMASSWitnessProgram (pops : list parsedOpcode) : bool :=
  match pops with
  | [p0; p1; p2] =>
      isSmallInt (opcode_of p0) &&
      canonicalPush p1 && between 2 (len (pop_data p1)) 40 &&
      canonicalPush p2 &&
      ((len (pop_data p2) =? 8) || (len (pop_data p2) =? 20) || (len (pop_data p2) =? 22))
  | _ => false
  end.

(** [extractWitnessProgramInfo]: version, program and extension program. *)
Definition extractWitnessProgramInfo (pops : list parsedOpcode)
    : result (Z * option bytes * list parsedOpcode) :=
  if negb (isWitnessProgram pops) && negb (isMASSWitnessProgram pops)
  then Err ErrwitnessProgramFormat
  else
    p0 ← index pops 0;
    p1 ← index pops 1;
    ext ← slice pops 2 (len pops);
    Ret (asSmallInt (opcode_of p0), data p1, ext).

Definition isPushOnly (pops : list parsedOpcode) : bool :=
  forallb (fun pop => negb (pop_value pop >? OP_16)) pops.

(** * Parsing *)

(** The length field of OP_PUSHDATA{1,2,4}, little endian, at the head of [field]. *)
Definition pushdata_length (oplen : Z) (field : bytes) : option Z :=
  let b i := nth i field 0 in
  if oplen =? -1 then Some (b 0%nat)
  else if oplen =? -2 then Some (Z.lor (Z.shiftl (b 1%nat) 8) (b 0%nat))
  else if oplen =? -4 then
    Some (Z.lor (Z.lor (Z.lor (Z.shiftl (b 3%nat) 24) (Z.shiftl (b 2%nat) 16))
                       (Z.shiftl (b 1%nat) 8)) (b 0%nat))
  else None.

(** The loop of parseScriptTemplate on the bytes still to parse, [script[i:]], and the
    opcodes parsed so far.  The error comes with the opcodes parsed before it.  [None]
    when the fuel runs out: an entry of length 0 would make the loop spin. *)
Fixpoint parse_loop (opcodes : Z -> opcode) (fuel : nat) (script : bytes)
    (retScript : list parsedOpcode) : option (list parsedOpcode * option script_error) :=
  match script with
  | [] => Some (retScript, None)
  | instr :: rest =>
      match fuel with
      | O => None
      | S fuel' =>
          let op := opcodes instr in
          let oplen := length_ op in
          if oplen =? 1 then
            parse_loop opcodes fuel' rest (retScript ++ [mkParsed op None])
          else if oplen >? 1 then
            if len script <? oplen then Some (retScript, Some ErrStackShortScript)
            else
              parse_loop opcodes fuel' (drop (Z.to_nat oplen) script)
                (retScript ++ [mkParsed op (Some (take (Z.to_nat (oplen - 1)) rest))])
          else if oplen <? 0 then
            if len rest <? - oplen then Some (retScript, Some ErrStackShortScript)
            else
              match pushdata_length oplen rest with
              | None => Some (retScript, Some (ErrInvalidOpcodeLength oplen))
              | Some l =>
                  let body := drop (Z.to_nat (- oplen)) rest in
                  if (int64 l >? len body) || (int64 l <? 0)
                  then Some (retScript, Some ErrStackShortScript)
                  else
                    parse_loop opcodes fuel' (drop (Z.to_nat (int64 l)) body)
                      (retScript ++ [mkParsed op (Some (take (Z.to_nat (int64 l)) body))])
              end
          else parse_loop opcodes fuel' script (retScript ++ [mkParsed op None])
      end
  end.

Definition parseScriptTemplate (script : bytes) (opcodes : Z -> opcode)
    : option (list parsedOpcode * option script_error) :=
  parse_loop opcodes (length script) script [].

(** [parseScript] always terminates (parseScript_total). *)
Definition parseScript (script : bytes) : list parsedOpcode * option script_error :=
  default ([], None) (parseScriptTemplate script opcode_at).

(** For callers that return on an error. *)
Definition parse_ok (script : bytes) : result (list parsedOpcode) :=
  match parseScript script with
  | (pops, None) => Ret pops
  | (_, Some e) => Err e
  end.

Fixpoint unparseScript (pops : list parsedOpcode) : result bytes :=
  match pops with
  | [] => Ret []
  | pop :: pops' =>
      b ← parsedOpcode_bytes pop;
      script ← unparseScript pops';
      Ret (b ++ script)
  end.

(** * Exported recognisers on raw scripts *)

Definition with_parsed (script : bytes) (f : list parsedOpcode -> bool) : bool :=
  match parseScript script with (pops, None) => f pops | (_, Some _) => false end.

Definition IsPayToWitnessScriptHash (script : bytes) : bool := with_parsed script isWitnessScriptHash.
Definition IsPayToStakingScriptHash (script : bytes) : bool := with_parsed script isWitnessStakingScript.
Definition IsPayToBindingScriptHash (script : bytes) : bool := with_parsed script isWitnessBindingScript.
Definition IsWitnessProgram (script : bytes) : bool :=
  if (len script <? 4) || (len script >? 42) then false else with_parsed script isWitnessProgram.
Definition IsMASSWitnessProgram (script : bytes) : bool := with_parsed script isMASSWitnessProgram.
Definition IsPushOnlyScript (script : bytes) : bool := with_parsed script isPushOnly.

Definition ExtractWitnessProgramInfo (script : bytes) : result (Z * option bytes * list parsedOpcode) :=
  pops ← parse_ok script; extractWitnessProgramInfo pops.

Definition IsUnspendable (pkScript : bytes) : bool :=
  match parseScript pkScript with
  | (_, Some _) => true
  | (pops, None) => match pops with p :: _ => pop_value p =? OP_RETURN | [] => false end
  end.

(** * Signature operations *)

(** [prev] is [pops[i-1]] when [i > 0]. *)
Fixpoint sigops_loop (precise : bool) (prev : option parsedOpcode) (pops : list parsedOpcode)
    (nSigs : Z) : Z :=
  match pops with
  | [] => nSigs
  | pop :: pops' =>
      let v := pop_value pop in
      let n :=
        if (v =? OP_CHECKSIG) || (v =? OP_CHECKSIGVERIFY) then nSigs + 1
        else if (v =? OP_CHECKMULTISIG) || (v =? OP_CHECKMULTISIGVERIFY) then
          match prev with
          | Some p =>
              if precise && (pop_value p >=? OP_1) && (pop_value p <=? OP_16)
              then nSigs + asSmallInt (opcode_of p)
              else nSigs + MaxPubKeysPerMultiSig
          | None => nSigs + MaxPubKeysPerMultiSig
          end
        else nSigs in
      sigops_loop precise (Some pop) pops' n
  end.

Definition getSigOpCount (pops : list parsedOpcode) (precise : bool) : Z :=
  sigops_loop precise None pops 0.

Definition GetSigOpCount (script : bytes) : Z := getSigOpCount (parseScript script).1 true.

Definition getWitnessSigOps (pkScript : bytes) (witness : list bytes) : Z :=
  match ExtractWitnessProgramInfo pkScript with
  | Ret (witnessVersion, witnessProgram, _) =>
      if witnessVersion =? 0 then
        if (len (default [] witnessProgram) =? WitnessV0ScriptHashDataSize) && (len witness >? 0) then
          getSigOpCount (parseScript (List.last witness [])).1 true
        else 0
      else 0
  | _ => 0
  end.

Definition GetWitnessSigOpCount (pkScript : bytes) (witness : list bytes) : Z :=
  if IsWitnessProgram pkScript then getWitnessSigOps pkScript witness else 0.

(** [removeOpcodeByData] *)
Definition removeOpcodeByData (pkscript : list parsedOpcode) (data : bytes) : list parsedOpcode :=
  List.filter (fun pop => negb (canonicalPush pop) || negb (bytes_Contains (pop_data pop) data)) pkscript.

(** * One instruction at a time *)

(** The opcodes parseScript produces: an entry of the table, with a data slice exactly
    when the entry has a length other than 1. *)
Definition pop_wf (pop : parsedOpcode) : Prop :=
  exists b, is_byte b /\ opcode_of pop = opcode_at b /\
    if length_ (opcode_at b) =? 1 then data pop = None
    else exists d, data pop = Some d /\ bytes_ok d.

Lemma pushdata_length_decode k rest :
  k = 1 \/ k = 2 \/ k = 4 -> bytes_ok (take (Z.to_nat k) rest) -> k <= len rest ->
  pushdata_length (- k) rest = Some (le_decode (take (Z.to_nat k) rest)).
Proof.
  intros Hk Hok Hl. unfold pushdata_length, len in *.
  destruct Hk as [-> | [-> | ->]]; unfold Z.to_nat, Pos.to_nat in *; cbn -[Z.lor Z.shiftl Z.add Z.mul] in *.
  - destruct rest as [|a rest]; [cbn in Hl; lia|]. cbn -[Z.add Z.mul]. rewrite take_0. cbn [le_decode]. f_equal. lia.
  - destruct rest as [|a [|b rest]]; try (cbn in Hl; lia).
    apply Forall_cons in Hok as [Ha Hok]. apply Forall_cons in Hok as [Hb Hok]. unfold is_byte in *.
    cbn -[Z.lor Z.shiftl Z.add Z.mul]. rewrite take_0. cbn [le_decode]. f_equal. rewrite Z.lor_comm, lor_shiftl_add by lia. lia.
  - destruct rest as [|a [|b [|c [|d rest]]]]; try (cbn in Hl; lia).
    repeat (apply Forall_cons in Hok as [? Hok]). unfold is_byte in *.
    cbn -[Z.lor Z.shiftl Z.add Z.mul]. rewrite take_0. cbn [le_decode]. f_equal.
    rewrite (Z.lor_comm (Z.lor _ (Z.shiftl b 8)) a).
    rewrite (Z.lor_comm (Z.lor (Z.shiftl d 24) (Z.shiftl c 16)) (Z.shiftl b 8)), Z.lor_assoc.
    rewrite (Z.lor_comm (Z.shiftl d 24) (Z.shiftl c 16)), Z.lor_assoc.
    rewrite (lor_shiftl_add a b 8) by lia.
    rewrite (lor_shiftl_add _ c 16) by lia. rewrite (lor_shiftl_add _ d 24) by lia. lia.
Qed.

Lemma uint8_low l i : 0 <= i -> uint8 (Z.land (Z.shiftr l i) 0xff) = (l / 2 ^ i) mod 256.
Proof.
  intros. change 0xff with (Z.ones 8). rewrite Z.land_ones, Z.shiftr_div_pow2 by lia.
  apply wrapU_small, Z.mod_pos_bound. lia.
Qed.

(** What parsedOpcode.bytes writes for a length-prefixed push. *)
Lemma bytes_pushdata pop k :
  k = 1 \/ k = 2 \/ k = 4 -> length_ (opcode_of pop) = - k ->
  parsedOpcode_bytes pop =
    if len (pop_data pop) <? 256 ^ k
    then Ret (pop_value pop :: le_encode (Z.to_nat k) (len (pop_data pop)) ++ pop_data pop)
    else Err ErrStackInvalidOpcode.
Proof.
  intros Hk Hlen. unfold parsedOpcode_bytes. rewrite Hlen.
  set (d := pop_data pop). pose proof (len_nonneg d). set (l := len d) in *.
  assert (uint8 (Z.land l 0xff) = l mod 256) as E0.
  { rewrite <- (Z.shiftr_0_r l) at 1. rewrite uint8_low by lia. by rewrite Z.div_1_r. }
  assert (forall m, 0 < m -> (l mod m =? l) = (l <? m)) as Hmod.
  { intros m Hm. destruct (Z.ltb_spec l m).
    - rewrite Z.mod_small by lia. apply Z.eqb_refl.
    - apply Z.eqb_neq. pose proof (Z.mod_pos_bound l m). lia. }
  assert (forall (f : bytes) n m (v : Z), m = l mod n + 1 + len f -> 0 < n ->
    negb (len (([v] ++ f) ++ d) =? m) = negb (l <? n)) as Hchk.
  { intros f n m v -> Hn. rewrite !len_app, len_one. fold l. rewrite <- Hmod by done. f_equal.
    destruct (Z.eqb_spec (l mod n) l); [apply Z.eqb_eq|apply Z.eqb_neq]; lia. }
  assert (forall n (x y : result bytes), (if negb (l <? n) then x else y) = (if l <? n then y else x)) as Hif.
  { intros n x y. by destruct (l <? n). }
  destruct Hk as [-> | [-> | ->]];
    closed_tests; cbv zeta iota beta.
  - change (uint8 l) with (l mod 256).
    rewrite (Hchk [l mod 256] (256 ^ 1)), Hif; [done|rewrite len_one; change (256 ^ 1) with 256; lia|lia].
  - rewrite E0, uint8_low by lia. change (2 ^ 8) with 256.
    change [l mod 256; (l / 256) mod 256] with (le_encode 2 l). rewrite le_decode_encode.
    rewrite (Hchk (le_encode 2 l) (256 ^ 2)), Hif; [done| |lia].
    change (len (le_encode 2 l)) with 2. change (Z.of_nat 2) with 2. lia.
  - rewrite E0, !uint8_low by lia.
    change (2 ^ 16) with (256 * 256). change (2 ^ 24) with (256 * 256 * 256). change (2 ^ 8) with 256.
    rewrite <- !Z.div_div by lia.
    change [l mod 256; (l / 256) mod 256; (l / 256 / 256) mod 256; (l / 256 / 256 / 256) mod 256]
      with (le_encode 4 l). rewrite le_decode_encode.
    rewrite (Hchk (le_encode 4 l) (256 ^ 4)), Hif; [done| |lia].
    change (len (le_encode 4 l)) with 4. change (Z.of_nat 4) with 4. lia.
Qed.

(** Unfolding one iteration of the loop. *)
Lemma parse_loop_cons opcodes fuel instr rest acc :
  parse_loop opcodes (S fuel) (instr :: rest) acc =
  let op := opcodes instr in
  let oplen := length_ op in
  if oplen =? 1 then parse_loop opcodes fuel rest (acc ++ [mkParsed op None])
  else if oplen >? 1 then
    if len (instr :: rest) <? oplen then Some (acc, Some ErrStackShortScript)
    else parse_loop opcodes fuel (drop (Z.to_nat oplen) (instr :: rest))
           (acc ++ [mkParsed op (Some (take (Z.to_nat (oplen - 1)) rest))])
  else if oplen <? 0 then
    if len rest <? - oplen then Some (acc, Some ErrStackShortScript)
    else match pushdata_length oplen rest with
         | None => Some (acc, Some (ErrInvalidOpcodeLength oplen))
         | Some l =>
             let body := drop (Z.to_nat (- oplen)) rest in
             if (int64 l >? len body) || (int64 l <? 0) then Some (acc, Some ErrStackShortScript)
             else parse_loop opcodes fuel (drop (Z.to_nat (int64 l)) body)
                    (acc ++ [mkParsed op (Some (take (Z.to_nat (int64 l)) body))])
         end
  else parse_loop opcodes fuel (instr :: rest) (acc ++ [mkParsed op None]).
Proof. done. Qed.

Lemma parse_loop_nil opcodes fuel acc : parse_loop opcodes fuel [] acc = Some (acc, None).
Proof. by destruct fuel. Qed.

(** Rewrite a test on an opcode length that the context decides. *)
Ltac decide_len :=
  repeat match goal with
  | |- context [?a =? 1] => replace (a =? 1) with false by (symmetry; apply Z.eqb_neq; lia)
  | |- context [?a >? 1] => replace (a >? 1) with true by (symmetry; rewrite Z.gtb_ltb; apply Z.ltb_lt; lia)
  | |- context [?a >? 1] => replace (a >? 1) with false by (symmetry; rewrite Z.gtb_ltb; apply Z.ltb_ge; lia)
  | |- context [?a <? 0] => replace (a <? 0) with true by (symmetry; apply Z.ltb_lt; lia)
  | |- context [?a <? 0] => replace (a <? 0) with false by (symmetry; apply Z.ltb_ge; lia)
  end; cbv zeta iota beta.

(** parsedOpcode.bytes on the three kinds of entries of the table. *)
Lemma bytes_plain v :
  is_byte v -> length_ (opcode_at v) = 1 -> parsedOpcode_bytes (mkParsed (opcode_at v) None) = Ret [v].
Proof.
  intros Hv Hl. unfold parsedOpcode_bytes, pop_value, pop_data. cbn [opcode_of data].
  rewrite Hl, opcode_at_value by done. done.
Qed.

Lemma bytes_data v d :
  is_byte v -> 2 <= length_ (opcode_at v) ->
  parsedOpcode_bytes (mkParsed (opcode_at v) (Some d)) =
    if 1 + len d =? length_ (opcode_at v) then Ret (v :: d) else Err ErrStackInvalidOpcode.
Proof.
  intros Hv Hl. unfold parsedOpcode_bytes, pop_value, pop_data. cbn [opcode_of data].
  rewrite opcode_at_value by done. decide_len. rewrite len_app, len_one.
  by destruct (1 + len d =? length_ (opcode_at v)).
Qed.

(** Parsing the bytes of a well-formed opcode yields that opcode and goes on after it. *)
Lemma parse_plain v s fuel acc :
  length_ (opcode_at v) = 1 ->
  parse_loop opcode_at (S fuel) (v :: s) acc = parse_loop opcode_at fuel s (acc ++ [mkParsed (opcode_at v) None]).
Proof. intros Hl. rewrite parse_loop_cons. cbv zeta. by rewrite Hl. Qed.

Lemma parse_data v d s fuel acc :
  2 <= length_ (opcode_at v) -> 1 + len d = length_ (opcode_at v) ->
  parse_loop opcode_at (S fuel) (v :: d ++ s) acc =
  parse_loop opcode_at fuel s (acc ++ [mkParsed (opcode_at v) (Some d)]).
Proof.
  intros Hl Hd. pose proof (len_nonneg s). rewrite parse_loop_cons. cbv zeta. decide_len.
  replace (len (v :: d ++ s) <? length_ (opcode_at v)) with false
    by (symmetry; apply Z.ltb_ge; rewrite len_cons, len_app; lia).
  replace (Z.to_nat (length_ (opcode_at v))) with (S (length d)) by (unfold len in Hd; lia).
  cbn [drop]. rewrite drop_app_length.
  replace (Z.to_nat (length_ (opcode_at v) - 1)) with (length d) by (unfold len in Hd; lia).
  by rewrite take_app_length.
Qed.

Lemma parse_push v k d s fuel acc :
  k = 1 \/ k = 2 \/ k = 4 -> length_ (opcode_at v) = - k -> len d < 256 ^ k ->
  parse_loop opcode_at (S fuel) (v :: le_encode (Z.to_nat k) (len d) ++ d ++ s) acc =
  parse_loop opcode_at fuel s (acc ++ [mkParsed (opcode_at v) (Some d)]).
Proof.
  intros Hk Hl Hd. pose proof (len_nonneg s). pose proof (len_nonneg d).
  set (f := le_encode (Z.to_nat k) (len d)).
  assert (length f = Z.to_nat k) as Hf by (unfold f; apply length_le_encode).
  assert (len f = k) as Hf' by (unfold len; rewrite Hf; lia).
  rewrite parse_loop_cons. cbv zeta. rewrite Hl. decide_len.
  replace (len (f ++ d ++ s) <? - - k) with false by (symmetry; apply Z.ltb_ge; rewrite !len_app; lia).
  rewrite pushdata_length_decode; [|done| |rewrite !len_app; lia].
  2:{ rewrite <- Hf, take_app_length. apply le_encode_ok. }
  replace (Z.to_nat (- - k)) with (length f) by (rewrite Hf; lia).
  rewrite <- Hf. rewrite take_app_length, drop_app_length.
  assert (le_decode f = len d) as ->.
  { unfold f. rewrite le_decode_encode, Z2Nat.id by lia. apply Z.mod_small. lia. }
  assert (256 ^ k <= 256 ^ 4) by (apply Z.pow_le_mono_r; lia).
  rewrite int64_small by lia.
  replace ((len d >? len (d ++ s)) || (len d <? 0)) with false
    by (symmetry; rewrite orb_false_iff, Z.gtb_ltb, !Z.ltb_ge, len_app; lia).
  rewrite to_nat_len, drop_app_length, take_app_length. done.
Qed.

(** The kind of a well-formed opcode. *)
Lemma pop_wf_cases pop :
  pop_wf pop ->
  exists v, is_byte v /\
  ((length_ (opcode_at v) = 1 /\ pop = mkParsed (opcode_at v) None) \/
   (exists d, 2 <= length_ (opcode_at v) /\ bytes_ok d /\ pop = mkParsed (opcode_at v) (Some d)) \/
   (exists d k, (k = 1 \/ k = 2 \/ k = 4) /\ length_ (opcode_at v) = - k /\ bytes_ok d /\
      pop = mkParsed (opcode_at v) (Some d))).
Proof.
  intros (v & Hv & Hop & Hdata). destruct pop as [op d]. cbn [opcode_of data] in *. subst op.
  exists v. split; [done|].
  destruct (opcode_at_length v Hv) as [H1|[[Hr _]|Hpush]].
  - left. rewrite H1 in Hdata. cbn in Hdata. by subst.
  - right. left. destruct (Z.eqb_spec (length_ (opcode_at v)) 1); [lia|].
    destruct Hdata as (d' & -> & ?). exists d'. auto with lia.
  - right. right. destruct (Z.eqb_spec (length_ (opcode_at v)) 1); [lia|].
    destruct Hdata as (d' & -> & ?). exists d'.
    destruct Hpush as [[-> _]|[[-> _]|[-> _]]]; [exists 1|exists 2|exists 4]; auto 6.
Qed.

Lemma parse_one pop b s fuel acc :
  pop_wf pop -> parsedOpcode_bytes pop = Ret b ->
  b <> [] /\ parse_loop opcode_at (S fuel) (b ++ s) acc = parse_loop opcode_at fuel s (acc ++ [pop]).
Proof.
  intros (v & Hv & [[Hl ->]|[(d & Hl & Hd & ->)|(d & k & Hk & Hl & Hd & ->)]])%pop_wf_cases Hb.
  - rewrite bytes_plain in Hb by done. injection Hb as <-. split; [done|]. by apply parse_plain.
  - rewrite bytes_data in Hb by done. destruct (Z.eqb_spec (1 + len d) (length_ (opcode_at v))); [|done].
    injection Hb as <-. split; [done|]. by apply parse_data.
  - rewrite (bytes_pushdata _ k) in Hb by done. unfold pop_value, pop_data in Hb.
    cbn [opcode_of data] in Hb. rewrite opcode_at_value in Hb by done.
    destruct (Z.ltb_spec (len d) (256 ^ k)); [|done]. injection Hb as <-. split; [done|].
    cbn [app]. rewrite <- app_assoc. by apply parse_push.
Qed.

Lemma bytes_of_wf_ok pop b : pop_wf pop -> parsedOpcode_bytes pop = Ret b -> bytes_ok b.
Proof.
  intros (v & Hv & [[Hl ->]|[(d & Hl & Hd & ->)|(d & k & Hk & Hl & Hd & ->)]])%pop_wf_cases Hb.
  - rewrite bytes_plain in Hb by done. injection Hb as <-. by apply bytes_ok_one.
  - rewrite bytes_data in Hb by done. destruct (1 + len d =? _); [|done].
    injection Hb as <-. by apply Forall_cons.
  - rewrite (bytes_pushdata _ k) in Hb by done. unfold pop_value, pop_data in Hb.
    cbn [opcode_of data] in Hb. rewrite opcode_at_value in Hb by done.
    destruct (_ <? _); [|done]. injection Hb as <-.
    apply Forall_cons. split; [done|]. apply Forall_app. split; [apply le_encode_ok|done].
Qed.

(** Conversely, a non-empty script either starts with the bytes of a well-formed
    opcode or is cut short inside its first instruction. *)
Lemma parse_step script :
  bytes_ok script -> script <> [] ->
  (forall fuel acc, parse_loop opcode_at (S fuel) script acc = Some (acc, Some ErrStackShortScript)) \/
  (exists pop b s, pop_wf pop /\ parsedOpcode_bytes pop = Ret b /\ b <> [] /\ script = b ++ s).
Proof.
  intros Hok Hne. destruct script as [|v rest]; [done|]. apply Forall_cons in Hok as [Hv Hok].
  destruct (opcode_at_length v Hv) as [H1|[[Hr _]|Hpush]].
  - right. exists (mkParsed (opcode_at v) None), [v], rest. split; [|by rewrite bytes_plain].
    exists v. rewrite H1. done.
  - destruct (decide (len (v :: rest) < length_ (opcode_at v))) as [Hs|Hs].
    { left. intros. rewrite parse_loop_cons. cbv zeta. decide_len.
      by rewrite (proj2 (Z.ltb_lt _ _) Hs). }
    right. rewrite len_cons in Hs. set (n := Z.to_nat (length_ (opcode_at v) - 1)).
    assert (1 + len (take n rest) = length_ (opcode_at v)) as Hlen by (rewrite len_take; unfold n; lia).
    exists (mkParsed (opcode_at v) (Some (take n rest))), (v :: take n rest), (drop n rest).
    split; [|split; [|split; [done|]]].
    + exists v. cbn [opcode_of data]. destruct (Z.eqb_spec (length_ (opcode_at v)) 1); [lia|].
      split; [done|]. split; [done|]. exists (take n rest). split; [done|]. by apply Forall_take.
    + rewrite bytes_data by (done || lia). by rewrite (proj2 (Z.eqb_eq _ _) Hlen).
    + cbn [app]. by rewrite take_drop.
  - assert (exists k, (k = 1 \/ k = 2 \/ k = 4) /\ length_ (opcode_at v) = - k) as (k & Hk & Hl).
    { destruct Hpush as [[-> _]|[[-> _]|[-> _]]]; [exists 1|exists 2|exists 4]; lia. }
    destruct (decide (len rest < k)) as [Hs|Hs].
    { left. intros. rewrite parse_loop_cons. cbv zeta. rewrite Hl. decide_len.
      rewrite (proj2 (Z.ltb_lt (len rest) (- - k))) by lia. done. }
    set (f := take (Z.to_nat k) rest). set (body := drop (Z.to_nat k) rest).
    assert (bytes_ok f) as Hf by (by apply Forall_take).
    assert (length f = Z.to_nat k) as Hlf by (unfold f; rewrite length_take; unfold len in Hs; lia).
    pose proof (le_decode_range f Hf) as Hrange. unfold len in Hrange at 1. rewrite Hlf, Z2Nat.id in Hrange by lia.
    assert (256 ^ k <= 256 ^ 4) by (apply Z.pow_le_mono_r; lia).
    destruct (decide (len body < le_decode f)) as [Hb|Hb].
    { left. intros. rewrite parse_loop_cons. cbv zeta. rewrite Hl. decide_len.
      rewrite (proj2 (Z.ltb_ge (len rest) (- - k))) by lia.
      rewrite pushdata_length_decode by (done || lia). fold f.
      replace (Z.to_nat (- - k)) with (Z.to_nat k) by lia. fold body. rewrite int64_small by lia.
      rewrite Z.gtb_ltb, (proj2 (Z.ltb_lt _ _) Hb). done. }
    right. set (l := Z.to_nat (le_decode f)).
    assert (len (take l body) = le_decode f) as Hll by (rewrite len_take; unfold l; lia).
    exists (mkParsed (opcode_at v) (Some (take l body))),
      (v :: le_encode (Z.to_nat k) (le_decode f) ++ take l body), (drop l body).
    split; [|split; [|split; [done|]]].
    + exists v. cbn [opcode_of data]. destruct (Z.eqb_spec (length_ (opcode_at v)) 1); [lia|].
      split; [done|]. split; [done|]. exists (take l body). split; [done|]. by apply Forall_take, Forall_drop.
    + rewrite (bytes_pushdata _ k) by done. unfold pop_value, pop_data. cbn [opcode_of data].
      rewrite opcode_at_value, Hll by done. by rewrite (proj2 (Z.ltb_lt (le_decode f) (256 ^ k))) by lia.
    + cbn [app]. rewrite <- app_assoc, take_drop, <- Hlf, le_encode_decode by done.
      unfold f, body. by rewrite take_drop.
Qed.

Lemma unparse_cons pop pops b s :
  parsedOpcode_bytes pop = Ret b -> unparseScript pops = Ret s -> unparseScript (pop :: pops) = Ret (b ++ s).
Proof. intros Hb Hs. cbn [unparseScript]. rewrite Hb. cbn. by rewrite Hs. Qed.

(** The result of the loop: the opcodes of a prefix of the script, the whole of it
    when there is no error. *)
Lemma parse_loop_spec fuel : forall script acc,
  bytes_ok script -> (length script <= fuel)%nat ->
  exists pops p rest oe,
    parse_loop opcode_at fuel script acc = Some (acc ++ pops, oe) /\
    script = p ++ rest /\ unparseScript pops = Ret p /\ Forall pop_wf pops /\
    ((oe = None /\ rest = []) \/ (oe = Some ErrStackShortScript /\ rest <> [])).
Proof.
  induction fuel as [|fuel IH]; intros script acc Hok Hl.
  { destruct script; [|cbn in Hl; lia]. exists [], [], [], None.
    rewrite parse_loop_nil, app_nil_r. split_and!; auto. }
  destruct (decide (script = [])) as [->|Hne].
  { exists [], [], [], None. rewrite parse_loop_nil, app_nil_r. split_and!; auto. }
  destruct (parse_step script Hok Hne) as [Hshort|(pop & b & s & Hwf & Hb & Hbne & ->)].
  { exists [], [], script, (Some ErrStackShortScript). rewrite Hshort, app_nil_r. split_and!; auto. }
  destruct (parse_one pop b s fuel acc Hwf Hb) as [_ Hstep]. rewrite Hstep.
  apply Forall_app in Hok as [_ Hs].
  destruct (IH s (acc ++ [pop]) Hs) as (pops & p & rest & oe & Heq & -> & Hun & Hwfs & Hoe).
  { rewrite length_app in Hl. destruct b; [done|]. cbn [length] in Hl. lia. }
  exists (pop :: pops), (b ++ p), rest, oe. rewrite Heq, <- !app_assoc.
  split; [done|]. split; [done|]. split; [by apply unparse_cons|]. split; [by constructor|done].
Qed.

Lemma parse_loop_unparse pops : forall s fuel acc,
  Forall pop_wf pops -> unparseScript pops = Ret s -> (length s <= fuel)%nat ->
  parse_loop opcode_at fuel s acc = Some (acc ++ pops, None).
Proof.
  induction pops as [|pop pops IH]; intros s fuel acc Hwf Hun Hl.
  { cbn in Hun. simplify_eq. by rewrite parse_loop_nil, app_nil_r. }
  apply Forall_cons in Hwf as [Hp Hwf]. cbn [unparseScript] in Hun.
  apply bind_Ret in Hun as (b & Hb & Hun). apply bind_Ret in Hun as (s' & Hs' & Hun). simplify_eq.
  rewrite length_app in Hl.
  destruct fuel as [|fuel].
  { destruct (parse_one pop b s' 0 acc Hp Hb) as [Hne _]. destruct b; [done|cbn in Hl; lia]. }
  destruct (parse_one pop b s' fuel acc Hp Hb) as [Hne ->].
  rewrite (IH s'); [by rewrite <- app_assoc|done|done|]. destruct b; [done|]. cbn [length] in Hl. lia.
Qed.

Lemma parseScript_total script :
  bytes_ok script -> parseScriptTemplate script opcode_at = Some (parseScript script).
Proof.
  intros Hok. destruct (parse_loop_spec (length script) script [] Hok) as (? & ? & ? & ? & Heq & _); [lia|].
  unfold parseScript, parseScriptTemplate. by rewrite Heq.
Qed.

Lemma parseScript_wf script : bytes_ok script -> Forall pop_wf (parseScript script).1.
Proof.
  intros Hok. destruct (parse_loop_spec (length script) script [] Hok) as
    (? & ? & ? & ? & Heq & _ & _ & Hwf & _); [lia|].
  unfold parseScript, parseScriptTemplate. by rewrite Heq.
Qed.

(** * Properties *)

(** C31: parseScript terminates on every byte string and its result is faithful to the
    bytes: unparsing the opcodes it returns gives back the script when it parses, and a
    proper prefix of it, cut at an instruction boundary, when it reports
    ErrStackShortScript, which is the only error there is. *)
Theorem parse_unparse (script : bytes) :
  bytes_ok script ->
  exists pops p rest oe,
    parseScriptTemplate script opcode_at = Some (pops, oe) /\
    parseScript script = (pops, oe) /\ unparseScript pops = Ret p /\ script = p ++ rest /\
    ((oe = None /\ rest = []) \/ (oe = Some ErrStackShortScript /\ rest <> [])).
Proof.
  intros Hok. destruct (parse_loop_spec (length script) script [] Hok) as
    (pops & p & rest & oe & Heq & Hs & Hun & Hwf & Hoe); [lia|].
  exists pops, p, rest, oe. unfold parseScript, parseScriptTemplate. rewrite Heq. auto 6.
Qed.

Lemma parse_unparse_witness :
  exists pops p rest oe,
    parseScriptTemplate [OP_DUP; OP_PUSHDATA1; 3; 1; 2] opcode_at = Some (pops, oe) /\
    parseScript [OP_DUP; OP_PUSHDATA1; 3; 1; 2] = (pops, oe) /\ unparseScript pops = Ret p /\
    [OP_DUP; OP_PUSHDATA1; 3; 1; 2] = p ++ rest /\
    ((oe = None /\ rest = []) \/ (oe = Some ErrStackShortScript /\ rest <> [])).
Proof.
  apply (parse_unparse [OP_DUP; OP_PUSHDATA1; 3; 1; 2]). solve_bytes.
Defined.

(** parsing inverts unparsing: a list of well-formed opcodes that unparses is what
    parseScript reads from the bytes, so distinct opcode lists never share a script. *)
Theorem unparse_parse (pops : list parsedOpcode) (script : bytes) :
  Forall pop_wf pops -> unparseScript pops = Ret script -> parseScript script = (pops, None).
Proof.
  intros Hwf Hun. unfold parseScript, parseScriptTemplate.
  by rewrite (parse_loop_unparse pops) by (done || lia).
Qed.

Lemma unparse_parse_witness :
  parseScript [OP_DATA_2; 7; 8; OP_CHECKSIG] =
  ([mkParsed (opcode_at OP_DATA_2) (Some [7; 8]); mkParsed (opcode_at OP_CHECKSIG) None], None).
Proof.
  apply unparse_parse; [|reflexivity].
  exact (parseScript_wf [OP_DATA_2; 7; 8; OP_CHECKSIG] ltac:(solve_bytes)).
Defined.
