(* ===== verification/Builder.v ===== *)
(** The script builder: txscript/scriptbuilder.go.  Its methods return the receiver
    after recording an error in it; the first error makes every later call a no-op. *)

From S2P Require Import Prelude TxCommon ScriptNum Opcodes Script.

Record ScriptBuilder := mkBuilder { script : bytes; err : option script_error }.

Definition NewScriptBuilder : ScriptBuilder := mkBuilder [] None.

Definition set_script (b : ScriptBuilder) (s : bytes) : ScriptBuilder := mkBuilder s (err b).
Definition set_err (b : ScriptBuilder) (why : canonical_error) : ScriptBuilder :=
  mkBuilder (script b) (Some (ErrScriptNotCanonical why)).

Definition AddOp (opcode : Z) (b : ScriptBuilder) : ScriptBuilder :=
  match err b with
  | Some _ => b
  | None =>
      if len (script b) + 1 >? maxScriptSize then set_err b NcOpcode
      else set_script b (script b ++ [opcode])
  end.

Definition canonicalDataSize (data : bytes) : Z :=
  let dataLen := len data in
  if dataLen =? 0 then 1
  else if (dataLen =? 1) && (hd 0 data <=? 16) then 1
  else if (dataLen =? 1) && (hd 0 data =? 0x81) then 1
  else if dataLen <? OP_PUSHDATA1 then 1 + dataLen
  else if dataLen <=? 0xff then 2 + dataLen
  else if dataLen <=? 0xffff then 3 + dataLen
  else 5 + dataLen.

Definition addData (data : bytes) (b : ScriptBuilder) : ScriptBuilder :=
  let dataLen := len data in
  let data0 := hd 0 data in
  if (dataLen =? 0) || ((dataLen =? 1) && (data0 =? 0)) then
    set_script b (script b ++ [OP_0])
  else if (dataLen =? 1) && (data0 <=? 16) then
    set_script b (script b ++ [uint8 (OP_1 - 1 + data0)])
  else if (dataLen =? 1) && (data0 =? 0x81) then
    set_script b (script b ++ [OP_1NEGATE])
  else
    let header :=
      if dataLen <? OP_PUSHDATA1 then [uint8 (OP_DATA_1 - 1 + dataLen)]
      else if dataLen <=? 0xff then [OP_PUSHDATA1; uint8 dataLen]
      else if dataLen <=? 0xffff then [OP_PUSHDATA2] ++ le_encode 2 (uint16 dataLen)
      else [OP_PUSHDATA4] ++ le_encode 4 (uint32 dataLen) in
    set_script b ((script b ++ header) ++ data).

Definition AddFullData (data : bytes) (b : ScriptBuilder) : ScriptBuilder :=
  match err b with Some _ => b | None => addData data b end.

Definition AddData (data : bytes) (b : ScriptBuilder) : ScriptBuilder :=
  match err b with
  | Some _ => b
  | None =>
      let dataSize := canonicalDataSize data in
      if len (script b) + dataSize >? maxScriptSize then set_err b (NcData dataSize)
      else if len data >? MaxScriptElementSize then set_err b (NcElement (len data))
      else addData data b
  end.

(** [AddInt64]; panics where scriptNum.Bytes does. *)
Definition AddInt64 (val : Z) (b : ScriptBuilder) : result ScriptBuilder :=
  match err b with
  | Some _ => Ret b
  | None =>
      if len (script b) + 1 >? maxScriptSize then Ret (set_err b NcInteger)
      else if val =? 0 then Ret (set_script b (script b ++ [OP_0]))
      else if (val =? -1) || ((val >=? 1) && (val <=? 16)) then
        Ret (set_script b (script b ++ [uint8 (OP_1 - 1 + val)]))
      else d ← scriptNum_Bytes val; Ret (AddData d b)
  end.

Definition AddCoinbaseHeight (val : Z) (b : ScriptBuilder) : result ScriptBuilder :=
  match err b with
  | Some _ => Ret b
  | None =>
      if val <=? 0 then Ret (set_err b (NcCoinbaseHeight val))
      else if len (script b) + 1 >? maxScriptSize then Ret (set_err b NcInteger)
      else
        data ← scriptNum_Bytes val;
        let dataSize := canonicalDataSize data in
        if len (script b) + dataSize >? maxScriptSize then Ret (set_err b (NcData dataSize))
        else if len data >? MaxScriptElementSize then Ret (set_err b (NcElement (len data)))
        else if len data <=? 8 then
          Ret (set_script b ((script b ++ [uint8 (OP_DATA_1 - 1 + len data)]) ++ data))
        else Ret (set_err b (NcCoinbaseLength (len data)))
  end.

Definition Reset (b : ScriptBuilder) : ScriptBuilder := mkBuilder [] None.

(** [Script]: the bytes built so far with the recorded error. *)
Definition Script_ (b : ScriptBuilder) : bytes * option script_error := (script b, err b).

(** For callers that return on an error. *)
Definition Script_ok (b : ScriptBuilder) : result bytes :=
  match Script_ b with (s, None) => Ret s | (_, Some e) => Err e end.

(** * What a push opcode leaves on the stack *)

(** The bytes the push opcodes push: OP_0 .. OP_PUSHDATA4 their data, OP_1NEGATE and
    OP_1 .. OP_16 the encoding of their number. *)
Definition pushed (pop : parsedOpcode) : option bytes :=
  let v := pop_value pop in
  if v <=? OP_PUSHDATA4 then Some (pop_data pop)
  else if v =? OP_1NEGATE then Some [0x81]
  else if (OP_1 <=? v) && (v <=? OP_16) then Some [v - (OP_1 - 1)]
  else None.


(** The zero byte alone is the one string addData does not push verbatim: OP_0 pushes
    the empty string, the canonical zero. *)
Definition normal_push (d : bytes) : bytes := if decide (d = [0]) then [] else d.

Definition plain_op (v : Z) : parsedOpcode := mkParsed (opcode_at v) None.
Definition data_op (v : Z) (d : bytes) : parsedOpcode := mkParsed (opcode_at v) (Some d).

Lemma plain_op_wf v : is_byte v -> length_ (opcode_at v) = 1 -> pop_wf (plain_op v).
Proof. intros Hv Hl. exists v. cbn [opcode_of data plain_op]. rewrite Hl. done. Qed.

Lemma data_op_wf v d :
  is_byte v -> length_ (opcode_at v) <> 1 -> bytes_ok d -> pop_wf (data_op v d).
Proof.
  intros Hv Hl Hd. exists v. cbn [opcode_of data data_op].
  destruct (Z.eqb_spec (length_ (opcode_at v)) 1); [done|]. eauto.
Qed.

Lemma small_int_length x : 1 <= x <= 16 -> length_ (opcode_at (0x50 + x)) = 1.
Proof.
  intros Hx.
  assert (forallb (fun i => length_ (opcode_at (0x50 + Z.of_nat i)) =? 1) (seq 1 16) = true) as H
    by (vm_compute; reflexivity).
  rewrite forallb_forall in H. specialize (H (Z.to_nat x)). cbn beta in H.
  rewrite Z2Nat.id in H by lia. apply Z.eqb_eq, H. apply in_seq. lia.
Qed.

Lemma pop_value_at v d : is_byte v -> pop_value (mkParsed (opcode_at v) d) = v.
Proof. intros. unfold pop_value. by apply opcode_at_value. Qed.

(** The first of the three disjuncts of addData's header selection that applies. *)
Lemma push_header d :
  0 < len d < 2 ^ 32 -> bytes_ok d ->
  exists v,
    let header :=
      if len d <? OP_PUSHDATA1 then [uint8 (OP_DATA_1 - 1 + len d)]
      else if len d <=? 0xff then [OP_PUSHDATA1; uint8 (len d)]
      else if len d <=? 0xffff then [OP_PUSHDATA2] ++ le_encode 2 (uint16 (len d))
      else [OP_PUSHDATA4] ++ le_encode 4 (uint32 (len d)) in
    v <= OP_PUSHDATA4 /\ is_byte v /\ pop_wf (data_op v d) /\
    parsedOpcode_bytes (data_op v d) = Ret (header ++ d).
Proof.
  intros Hl Hok. cbv zeta. unfold OP_PUSHDATA1, OP_PUSHDATA2, OP_PUSHDATA4, OP_DATA_1.
  destruct (Z.ltb_spec (len d) 0x4c) as [H1|H1].
  { exists (len d). assert (is_byte (len d)) as Hb by (unfold is_byte; lia).
    split; [lia|]. split; [done|]. pose proof (opcode_at_data (len d) ltac:(lia)) as Ho.
    split; [apply data_op_wf; [done|lia|done]|]. rewrite wrapU_small by lia.
    unfold data_op. rewrite bytes_data, Ho by (done || lia).
    rewrite (proj2 (Z.eqb_eq _ _)) by lia. done. }
  assert (forall v k, (k = 1 \/ k = 2 \/ k = 4) -> is_byte v -> length_ (opcode_at v) = - k -> len d < 256 ^ k ->
    pop_wf (data_op v d) /\
    parsedOpcode_bytes (data_op v d) = Ret (v :: le_encode (Z.to_nat k) (len d) ++ d)) as Hp.
  { intros v k Hk Hv Hlen Hd. split; [apply data_op_wf; [done|lia|done]|].
    rewrite (bytes_pushdata _ k) by done. unfold data_op. rewrite pop_value_at by done.
    unfold pop_data. cbn [data]. by rewrite (proj2 (Z.ltb_lt _ _) Hd). }
  destruct (Z.leb_spec (len d) 0xff) as [H2|H2].
  { exists 0x4c. split; [lia|]. split; [unfold is_byte; lia|].
    destruct (Hp 0x4c 1) as [Hw Hb]; [auto|unfold is_byte; lia|reflexivity|lia|]. split; [done|].
    rewrite Hb, wrapU_small by lia. change (Z.to_nat 1) with 1%nat. cbn [le_encode app].
    by rewrite Z.mod_small by lia. }
  destruct (Z.leb_spec (len d) 0xffff) as [H3|H3].
  { exists 0x4d. split; [lia|]. split; [unfold is_byte; lia|].
    destruct (Hp 0x4d 2) as [Hw Hb]; [auto|unfold is_byte; lia|reflexivity|lia|]. split; [done|].
    by rewrite Hb, wrapU_small by lia. }
  exists 0x4e. split; [lia|]. split; [unfold is_byte; lia|].
  destruct (Hp 0x4e 4) as [Hw Hb]; [auto|unfold is_byte; lia|reflexivity|lia|]. split; [done|].
  by rewrite Hb, wrapU_small by lia.
Qed.

(** addData appends the bytes of exactly one push opcode. *)
Lemma addData_push d b :
  bytes_ok d -> len d < 2 ^ 32 ->
  exists pop chunk,
    addData d b = set_script b (script b ++ chunk) /\ bytes_ok chunk /\
    pop_wf pop /\ parsedOpcode_bytes pop = Ret chunk /\ pushed pop = Some (normal_push d).
Proof.
  intros Hok Hl. unfold addData. cbv zeta.
  assert (forall v, is_byte v -> length_ (opcode_at v) = 1 ->
    pop_wf (plain_op v) /\ parsedOpcode_bytes (plain_op v) = Ret [v] /\ bytes_ok [v]) as Hplain.
  { intros v Hv Hlen. split; [by apply plain_op_wf|]. split; [by apply bytes_plain|]. by apply bytes_ok_one. }
  destruct (decide (d = [] \/ d = [0])) as [Hz|Hz].
  { exists (plain_op OP_0), [OP_0]. destruct (Hplain OP_0) as (? & ? & ?); [unfold is_byte, OP_0; lia|reflexivity|].
    destruct Hz as [-> | ->]; (split; [done|]); by split_and!. }
  assert (0 < len d) as Hpos.
  { pose proof (len_nonneg d). destruct (decide (len d = 0)) as [E|E]; [|lia].
    apply len_zero_iff in E. tauto. }
  assert (normal_push d = d) as Hnorm by (unfold normal_push; case_decide; tauto).
  rewrite (proj2 (Z.eqb_neq (len d) 0)) by lia. cbn [orb].
  destruct (Z.eqb_spec (len d) 1) as [H1|H1]; cbn [andb].
  - destruct d as [|x [|y d]]; [done| |rewrite !len_cons in H1; pose proof (len_nonneg d); lia].
    apply Forall_cons in Hok as [Hx _]. unfold is_byte in Hx. cbn [hd].
    rewrite (proj2 (Z.eqb_neq x 0)) by (intros ->; tauto). cbn [andb].
    destruct (Z.leb_spec x 16) as [H16|H16].
    { assert (1 <= x) by (destruct (decide (x = 0)) as [->|]; [tauto|lia]).
      assert (uint8 (OP_1 - 1 + x) = 0x50 + x) as -> by (rewrite wrapU_small; unfold OP_1; lia).
      destruct (Hplain (0x50 + x)) as (? & ? & ?); [unfold is_byte; lia|by apply small_int_length|].
      exists (plain_op (0x50 + x)), [0x50 + x]. split_and!; try done.
      unfold pushed, plain_op. rewrite pop_value_at by (unfold is_byte; lia).
      unfold OP_PUSHDATA4, OP_1NEGATE, OP_1, OP_16.
      rewrite (proj2 (Z.leb_gt _ 0x4e)), (proj2 (Z.eqb_neq _ 0x4f)), (proj2 (Z.leb_le 0x51 _)),
        (proj2 (Z.leb_le _ 0x60)) by lia. cbn [andb]. rewrite Hnorm. do 2 f_equal. lia. }
    destruct (Z.eqb_spec x 0x81) as [->|H81].
    { exists (plain_op OP_1NEGATE), [OP_1NEGATE].
      destruct (Hplain OP_1NEGATE) as (? & ? & ?); [unfold is_byte, OP_1NEGATE; lia|reflexivity|].
      split_and!; try done. }
    destruct (push_header [x]) as (v & Hv4 & Hv & Hwf & Hb); [rewrite H1; lia|by apply bytes_ok_one|].
    exists (data_op v [x]). eexists. rewrite <- app_assoc. split; [done|].
    split_and!; [by eapply bytes_of_wf_ok|done|done|].
    unfold pushed, data_op. rewrite pop_value_at by done. by rewrite (proj2 (Z.leb_le _ _) Hv4), Hnorm.
  - destruct (push_header d) as (v & Hv4 & Hv & Hwf & Hb); [lia|done|].
    exists (data_op v d). eexists. rewrite <- app_assoc. split; [done|].
    split_and!; [by eapply bytes_of_wf_ok|done|done|].
    unfold pushed, data_op. rewrite pop_value_at by done. by rewrite (proj2 (Z.leb_le _ _) Hv4), Hnorm.
Qed.

Lemma addData_size d b : len (script (addData d b)) = len (script b) + canonicalDataSize d.
Proof.
  unfold addData, canonicalDataSize, OP_PUSHDATA1. cbv zeta.
  destruct (Z.eqb_spec (len d) 0); cbn [orb script set_script]; [by rewrite len_app, len_one|].
  destruct (Z.eqb_spec (len d) 1) as [H1|H1]; cbn [andb].
  - destruct (Z.eqb_spec (hd 0 d) 0) as [E|E]; cbn [script set_script].
    { rewrite E. cbn. by rewrite len_app, len_one. }
    destruct (hd 0 d <=? 16); cbn [script set_script]; [by rewrite len_app, len_one|].
    destruct (hd 0 d =? 129); cbn [script set_script]; [by rewrite len_app, len_one|].
    rewrite H1. cbn -[len app]. rewrite !len_app, len_one. lia.
  - cbn [script set_script]. rewrite !len_app.
    destruct (len d <? 76); [rewrite len_one; lia|].
    destruct (len d <=? 255); [rewrite len_cons, len_one; lia|].
    destruct (len d <=? 65535); rewrite len_app, len_one; unfold len at 2; rewrite length_le_encode; lia.
Qed.

Lemma unparse_app p1 p2 s1 s2 :
  unparseScript p1 = Ret s1 -> unparseScript p2 = Ret s2 -> unparseScript (p1 ++ p2) = Ret (s1 ++ s2).
Proof.
  revert s1. induction p1 as [|p p1 IH]; intros s1 H1 H2; cbn [unparseScript app] in *.
  { by simplify_eq. }
  apply bind_Ret in H1 as (b & Hb & H1). apply bind_Ret in H1 as (s & Hs & H1). simplify_eq.
  rewrite Hb. cbn. rewrite (IH s) by done. cbn. by rewrite <- app_assoc.
Qed.

(** Appending the bytes of one opcode to a script that parses. *)
Lemma parse_snoc s pops pop chunk :
  bytes_ok s -> parseScript s = (pops, None) -> pop_wf pop -> parsedOpcode_bytes pop = Ret chunk ->
  parseScript (s ++ chunk) = (pops ++ [pop], None).
Proof.
  intros Hs Hp Hwf Hb.
  destruct (parse_loop_spec (length s) s [] Hs) as (pops' & p & rest & oe & Heq & Hsp & Hun & Hwfs & Hoe); [lia|].
  unfold parseScript, parseScriptTemplate in Hp. rewrite Heq in Hp. cbn in Hp. simplify_eq.
  destruct Hoe as [[_ ->]|[? _]]; [|done]. rewrite app_nil_r.
  unfold parseScript, parseScriptTemplate.
  erewrite parse_loop_unparse; [done|apply Forall_app; split; [done|by constructor]| |done].
  apply unparse_app; [done|]. cbn [unparseScript]. rewrite Hb. cbn. by rewrite app_nil_r.
Qed.

Lemma AddData_None d b :
  err (AddData d b) = None ->
  err b = None /\ len d <= MaxScriptElementSize /\ len (script b) + canonicalDataSize d <= maxScriptSize /\
  AddData d b = addData d b.
Proof.
  unfold AddData. destruct (err b) eqn:Hb; [by rewrite Hb|]. cbv zeta.
  repeat case_if; cbn; try done. bool_to_prop. auto.
Qed.

(** * Properties *)

(** what the builder appends for a data element, the parser reads back as exactly
    one push opcode, and that opcode pushes the element: AddData composes with
    parseScript, for every script already built and every element within the limits
    (a lone zero byte is pushed as the empty string). *)
Theorem AddData_parses (d : bytes) (b : ScriptBuilder) (pops : list parsedOpcode) :
  bytes_ok d -> bytes_ok (script b) -> parseScript (script b) = (pops, None) ->
  err (AddData d b) = None ->
  exists pop, parseScript (script (AddData d b)) = (pops ++ [pop], None) /\
    pushed pop = Some (normal_push d) /\ bytes_ok (script (AddData d b)).
Proof.
  intros Hd Hs Hp He. apply AddData_None in He as (_ & Hl & _ & ->).
  unfold MaxScriptElementSize in Hl.
  destruct (addData_push d b Hd) as (pop & chunk & -> & Hc & Hwf & Hb & Hpush); [lia|].
  exists pop. cbn [script set_script]. split; [by apply parse_snoc|].
  split; [done|]. by apply Forall_app.
Qed.

Lemma AddData_parses_witness :
  exists pop, parseScript (script (AddData [1; 2; 3] NewScriptBuilder)) = ([] ++ [pop], None) /\
    pushed pop = Some (normal_push [1; 2; 3]) /\ bytes_ok (script (AddData [1; 2; 3] NewScriptBuilder)).
Proof.
  apply AddData_parses; [solve_bytes|solve_bytes|reflexivity|reflexivity].
Defined.

(** The calls a client can make on a builder: the ordinary ones, then AddCoinbaseHeight
    (AddFullData exists to exceed the limits). *)
Inductive builder_step : ScriptBuilder -> ScriptBuilder -> Prop :=
| step_AddOp op b : builder_step b (AddOp op b)
| step_AddData d b : builder_step b (AddData d b)
| step_AddInt64 n b b' : AddInt64 n b = Ret b' -> builder_step b b'
| step_Reset b : builder_step b (Reset b).

Lemma AddData_bound d b : len (script b) <= maxScriptSize -> len (script (AddData d b)) <= maxScriptSize.
Proof.
  intros Hb. unfold AddData. destruct (err b); [done|]. cbv zeta.
  repeat case_if; cbn [script set_err]; try done. bool_to_prop. rewrite addData_size. lia.
Qed.

Lemma builder_step_bound b b' :
  builder_step b b' -> len (script b) <= maxScriptSize -> len (script b') <= maxScriptSize.
Proof.
  intros [op c|d c|n c c' H|c] Hb.
  - unfold AddOp. destruct (err c); [done|]. case_if; cbn [script set_err set_script]; [done|].
    bool_to_prop. rewrite len_app, len_one. lia.
  - by apply AddData_bound.
  - unfold AddInt64 in H. destruct (err c); [by simplify_eq|].
    repeat case_if; bool_to_prop; simplify_eq; cbn [script set_err set_script];
      rewrite ?len_app, ?len_one; try lia.
    apply bind_Ret in H as (v & _ & H). simplify_eq. by apply AddData_bound.
  - done.
Qed.

(** a script built by any sequence of AddOp, AddData, AddInt64 and Reset calls
    never exceeds the engine's limit of 10000 bytes, and once an error is recorded
    every call but Reset leaves the builder as it is. *)
Theorem builder_limits (b : ScriptBuilder) :
  rtc builder_step NewScriptBuilder b ->
  len (script b) <= maxScriptSize /\
  (err b <> None -> forall op d n,
     AddOp op b = b /\ AddData d b = b /\ AddFullData d b = b /\ AddInt64 n b = Ret b /\
     AddCoinbaseHeight n b = Ret b).
Proof.
  intros Hr. split.
  - assert (len (script NewScriptBuilder) <= maxScriptSize) as H0 by done.
    induction Hr as [|b0 b1 b2 Hstep _ IH]; [done|]. apply IH. by eapply builder_step_bound.
  - intros He op d n. unfold AddOp, AddData, AddFullData, AddInt64, AddCoinbaseHeight.
    by destruct (err b).
Qed.

Lemma builder_limits_witness :
  len (script (AddOp OP_DUP (AddData [5] NewScriptBuilder))) <= maxScriptSize.
Proof.
  apply (builder_limits (AddOp OP_DUP (AddData [5] NewScriptBuilder))).
  eapply rtc_l; [apply (step_AddData [5])|]. eapply rtc_l; [apply (step_AddOp OP_DUP)|]. apply rtc_refl.
Defined.

(** A builder one byte short of the limit. *)
Definition nearly_full : ScriptBuilder := mkBuilder (repeat OP_NOP 9999) None.

(** AddCoinbaseHeight can exceed the limit without reporting an error: for heights
    1 to 16 it reserves one byte, the size of a small-integer opcode, but writes the
    two bytes of a data push. *)
Theorem AddCoinbaseHeight_exceeds :
  exists b', AddCoinbaseHeight 16 nearly_full = Ret b' /\ err b' = None /\
    len (script b') = maxScriptSize + 1.
Proof. eexists. split; [vm_compute; reflexivity|]. split; vm_compute; reflexivity. Qed.

(** an integer added to a script is read back by the parser as one push opcode
    whose pushed bytes are the number's canonical encoding, small integers and -1
    through their dedicated opcodes included. *)
Theorem AddInt64_parses (n : Z) (b b' : ScriptBuilder) (pops : list parsedOpcode) :
  - 2 ^ 63 < n < 2 ^ 63 -> bytes_ok (script b) -> parseScript (script b) = (pops, None) ->
  AddInt64 n b = Ret b' -> err b' = None ->
  exists pop v, parseScript (script b') = (pops ++ [pop], None) /\
    pushed pop = Some v /\ scriptNum_Bytes n = Ret v.
Proof.
  intros Hn Hs Hp H He. unfold AddInt64 in H. destruct (err b) eqn:Heb; [by simplify_eq|].
  destruct (_ >? _); [by simplify_eq|].
  destruct (Z.eqb_spec n 0) as [->|Hnz].
  { simplify_eq. exists (plain_op OP_0), []. cbn [script set_script]. split; [|done].
    apply parse_snoc; [done|done|apply plain_op_wf; [unfold is_byte, OP_0; lia|reflexivity]|reflexivity]. }
  destruct ((n =? -1) || ((n >=? 1) && (n <=? 16))) eqn:Hsmall.
  - simplify_eq. cbn [script set_script].
    assert (n = -1 \/ 1 <= n <= 16) as Hc.
    { apply orb_true_iff in Hsmall as [Hsmall|Hsmall]; bool_to_prop; lia. }
    destruct Hc as [-> | Hc].
    { exists (plain_op OP_1NEGATE), [0x81]. split; [|done].
      apply parse_snoc; [done|done|apply plain_op_wf; [unfold is_byte, OP_1NEGATE; lia|reflexivity]|reflexivity]. }
    assert (uint8 (OP_1 - 1 + n) = 0x50 + n) as -> by (rewrite wrapU_small; unfold OP_1; lia).
    assert (is_byte (0x50 + n)) as Hb by (unfold is_byte; lia).
    exists (plain_op (0x50 + n)), [n]. split; [|split].
    + apply parse_snoc; [done|done|apply plain_op_wf; [done|by apply small_int_length]|].
      apply bytes_plain; [done|by apply small_int_length].
    + unfold pushed, plain_op. rewrite pop_value_at by done. unfold OP_PUSHDATA4, OP_1NEGATE, OP_1, OP_16.
      rewrite (proj2 (Z.leb_gt _ 0x4e)), (proj2 (Z.eqb_neq _ 0x4f)), (proj2 (Z.leb_le 0x51 _)),
        (proj2 (Z.leb_le _ 0x60)) by lia. cbn [andb]. do 2 f_equal. lia.
    + assert (forallb (fun i => bool_decide (scriptNum_Bytes (Z.of_nat i) = Ret [Z.of_nat i])) (seq 1 16) = true) as Hall
        by (vm_compute; reflexivity).
      rewrite forallb_forall in Hall. specialize (Hall (Z.to_nat n)). cbn beta in Hall.
      rewrite Z2Nat.id in Hall by lia. eapply bool_decide_eq_true_1, Hall, in_seq. lia.
  - apply bind_Ret in H as (v & Hv & H). simplify_eq.
    destruct (scriptNum_encodes n) as (v' & Hv' & Hok & _ & Hback); [lia|].
    rewrite Hv in Hv'. simplify_eq. apply AddData_None in He as (_ & Hl & _ & ->).
    unfold MaxScriptElementSize in Hl.
    destruct (addData_push v' b Hok) as (pop & chunk & -> & Hc & Hwf & Hb & Hpush); [lia|].
    exists pop, v'. cbn [script set_script]. split; [by apply parse_snoc|]. split; [|done].
    rewrite Hpush. unfold normal_push. case_decide as E; [|done]. subst v'. exfalso.
    specialize (Hback 1). rewrite len_one in Hback. specialize (Hback ltac:(lia)).
    vm_compute in Hback. done.
Qed.

Lemma AddInt64_parses_witness :
  exists pop v, parseScript (script (mkBuilder [OP_DATA_2; 0xe8; 0x03] None)) = ([] ++ [pop], None) /\
    pushed pop = Some v /\ scriptNum_Bytes 1000 = Ret v.
Proof.
  apply (AddInt64_parses 1000 NewScriptBuilder); [lia|solve_bytes|reflexivity|reflexivity|reflexivity].
Defined.
