(* ===== verification/Hashes.v ===== *)
(** The hash functions the program calls: crypto/sha256 and crypto/sha1 of Go's standard
    library and the third-party ripemd160.  The components are written against the
    interface [HashFunctions]; [Sha] gives the FIPS 180-4 functions, which instantiate it. *)

From S2P Require Import Prelude.

(** Digests have a fixed size and are byte strings. *)
Class HashFunctions := {
  sha256_Sum256 : bytes -> bytes;
  sha1_Sum : bytes -> bytes;
  ripemd160_Sum : bytes -> bytes;
  sha256_length b : length (sha256_Sum256 b) = 32%nat;
  sha256_bytes_ok b : bytes_ok (sha256_Sum256 b);
  sha1_length b : length (sha1_Sum b) = 20%nat;
  sha1_bytes_ok b : bytes_ok (sha1_Sum b);
  ripemd160_length b : length (ripemd160_Sum b) = 20%nat;
  ripemd160_bytes_ok b : bytes_ok (ripemd160_Sum b);
}.

#[export] Hint Resolve sha256_bytes_ok sha1_bytes_ok ripemd160_bytes_ok : golib.

(** * FIPS 180-4 *)

Module Sha.

Definition w32 (z : Z) : Z := Z.land z 0xffffffff.
Definition rotr (n x : Z) : Z := w32 (Z.lor (Z.shiftr x n) (Z.shiftl x (32 - n))).
Definition rotl (n x : Z) : Z := rotr (32 - n) x.
Definition ch x y z := Z.lxor (Z.land x y) (Z.land (Z.lxor x 0xffffffff) z).
Definition maj x y z := Z.lxor (Z.lxor (Z.land x y) (Z.land x z)) (Z.land y z).
Definition parity x y z := Z.lxor (Z.lxor x y) z.

(** Padding to a multiple of 64 bytes, and the blocks of the padded message. *)
Definition pad (m : bytes) : bytes :=
  m ++ [0x80] ++ replicate (Z.to_nat ((55 - len m) mod 64)) 0 ++ be_encode 8 (8 * len m).

Fixpoint chunks {A} (fuel n : nat) (l : list A) : list (list A) :=
  match fuel, l with
  | O, _ | _, [] => []
  | S fuel', _ => take n l :: chunks fuel' n (drop n l)
  end.

Definition blocks (m : bytes) : list (list Z) :=
  map (fun b => map be_decode (chunks 16 4 b)) (let p := pad m in chunks (length p) 64 p).

(** The message schedule, newest word first: [step] computes word [t] from the earlier ones. *)
Fixpoint schedule (step : list Z -> Z) (n : nat) (w : list Z) : list Z :=
  match n with O => w | S n' => schedule step n' (step w :: w) end.

Abbreviation word w i := (nth i w 0).

(** The constants of SHA-256 are the first 32 bits of the fractional parts of the cube roots
    and of the square roots of the first primes. *)
Fixpoint primes_up_to (n : nat) : list Z :=
  match n with
  | O => []
  | S n' =>
      let ps := primes_up_to n' in
      let c := Z.of_nat n in
      if (1 <? c) && forallb (fun p => negb (c mod p =? 0)) ps then ps ++ [c] else ps
  end.

(** The integer cube root of [n < 2 ^ (3 * k)], bit by bit. *)
Fixpoint cube_root (k : nat) (n r : Z) : Z :=
  match k with
  | O => r
  | S k' => let r' := r + 2 ^ Z.of_nat k' in cube_root k' n (if r' * r' * r' <=? n then r' else r)
  end.

Definition K256 : list Z :=
  Eval vm_compute in map (fun p => w32 (cube_root 36 (p * 2 ^ 96) 0)) (primes_up_to 311).

Definition H256 : list Z :=
  Eval vm_compute in map (fun p => w32 (Z.sqrt (p * 2 ^ 64))) (primes_up_to 19).

Definition schedule256 (w : list Z) : Z :=
  let s1 := let x := word w 1%nat in Z.lxor (Z.lxor (rotr 17 x) (rotr 19 x)) (Z.shiftr x 10) in
  let s0 := let x := word w 14%nat in Z.lxor (Z.lxor (rotr 7 x) (rotr 18 x)) (Z.shiftr x 3) in
  w32 (s1 + word w 6%nat + s0 + word w 15%nat).

Definition round256 (st : list Z) (kw : Z * Z) : list Z :=
  match st with
  | [a; b; c; d; e; f; g; h] =>
      let S1 := Z.lxor (Z.lxor (rotr 6 e) (rotr 11 e)) (rotr 25 e) in
      let S0 := Z.lxor (Z.lxor (rotr 2 a) (rotr 13 a)) (rotr 22 a) in
      let t1 := h + S1 + ch e f g + kw.1 + kw.2 in
      let t2 := S0 + maj a b c in
      [w32 (t1 + t2); a; b; c; w32 (d + t1); e; f; g]
  | _ => st
  end.

Definition block256 (K h : list Z) (b : list Z) : list Z :=
  let w := rev (schedule schedule256 48 (rev b)) in
  zip_with (fun x y => w32 (x + y)) h (fold_left round256 (zip K w) h).

Definition digest (h : list Z) : bytes := concat (map (be_encode 4) h).

(** The function with round constants [K] and initial value [H]; SHA-256 is [sha256]. *)
Definition sha256_with (K H : list Z) (m : bytes) : bytes := digest (fold_left (block256 K) (blocks m) H).
Definition sha256 : bytes -> bytes := sha256_with K256 H256.

Definition H1 : list Z := [0x67452301; 0xefcdab89; 0x98badcfe; 0x10325476; 0xc3d2e1f0].

Definition schedule1 (w : list Z) : Z :=
  rotl 1 (Z.lxor (Z.lxor (word w 2%nat) (word w 7%nat)) (Z.lxor (word w 13%nat) (word w 15%nat))).

Definition K1 : list ((Z -> Z -> Z -> Z) * Z) :=
  replicate 20 (ch, 0x5a827999) ++ replicate 20 (parity, 0x6ed9eba1) ++
  replicate 20 (maj, 0x8f1bbcdc) ++ replicate 20 (parity, 0xca62c1d6).

Definition round1 (st : list Z) (fkw : ((Z -> Z -> Z -> Z) * Z) * Z) : list Z :=
  match st with
  | [a; b; c; d; e] =>
      [w32 (rotl 5 a + fkw.1.1 b c d + e + fkw.1.2 + fkw.2); a; rotl 30 b; c; d]
  | _ => st
  end.

Definition block1 (h : list Z) (b : list Z) : list Z :=
  let w := rev (schedule schedule1 64 (rev b)) in
  zip_with (fun x y => w32 (x + y)) h (fold_left round1 (zip K1 w) h).

Definition sha1 (m : bytes) : bytes := digest (fold_left block1 (blocks m) H1).

(** Test vectors of the standard. *)
Example sha256_abc : be_decode (sha256 [0x61; 0x62; 0x63])
  = 0xba7816bf8f01cfea414140de5dae2223b00361a396177a9cb410ff61f20015ad.
Proof. vm_compute. reflexivity. Qed.
Example sha256_empty : be_decode (sha256 [])
  = 0xe3b0c44298fc1c149afbf4c8996fb92427ae41e4649b934ca495991b7852b855.
Proof. vm_compute. reflexivity. Qed.
Example sha1_abc : be_decode (sha1 [0x61; 0x62; 0x63])
  = 0xa9993e364706816aba3e25717850c26c9cd0d89d.
Proof. vm_compute. reflexivity. Qed.

(** * The laws *)

Lemma length_fold_zip {B} (f : list Z -> B -> list Z) (n : nat) (Hf : forall h b, length h = n -> length (f h b) = n) l :
  forall h, length h = n -> length (fold_left f l h) = n.
Proof. induction l as [|b l IH]; intros h Hh; cbn; [done|]. apply IH. by apply Hf. Qed.

Lemma length_round256 st kw : length st = 8%nat -> length (round256 st kw) = 8%nat.
Proof. do 9 (destruct st as [|? st]; try done). Qed.

Lemma length_round1 st kw : length st = 5%nat -> length (round1 st kw) = 5%nat.
Proof. do 6 (destruct st as [|? st]; try done). Qed.

Lemma length_digest h : length (digest h) = (4 * length h)%nat.
Proof.
  unfold digest. induction h as [|x h IH]; [done|]. cbn [map concat].
  rewrite length_app, IH, length_be_encode. cbn [length]. lia.
Qed.

Lemma digest_ok h : bytes_ok (digest h).
Proof.
  unfold digest. induction h as [|x h IH]; [constructor|]. cbn [map concat].
  apply Forall_app. split; [apply be_encode_ok|done].
Qed.

Lemma length_sha256_with K H m : length H = 8%nat -> length (sha256_with K H m) = 32%nat.
Proof.
  intros HH. unfold sha256_with. rewrite length_digest, (length_fold_zip (block256 K) 8); [done| |done].
  intros h b Hh. unfold block256. rewrite length_zip_with.
  rewrite (length_fold_zip round256 8); [lia|apply length_round256|done].
Qed.

Lemma length_sha256 m : length (sha256 m) = 32%nat.
Proof. by apply length_sha256_with. Qed.

Lemma length_sha1 m : length (sha1 m) = 20%nat.
Proof.
  unfold sha1. rewrite length_digest, (length_fold_zip block1 5); [done| |done].
  intros h b Hh. unfold block1. rewrite length_zip_with.
  rewrite (length_fold_zip round1 5); [lia|apply length_round1|done].
Qed.

(** An instance for evaluating the components; RIPEMD-160, which is not in the
    repository, is replaced by an arbitrary function with its digest size. *)
Definition concrete : HashFunctions.
Proof.
  refine {| sha256_Sum256 := sha256; sha1_Sum := sha1;
            ripemd160_Sum := fun b => take 20 (sha256 b);
            sha256_length := length_sha256; sha1_length := length_sha1 |}.
  - intros. apply digest_ok.
  - intros. apply digest_ok.
  - intros. rewrite length_take, length_sha256. done.
  - intros. apply Forall_take, digest_ok.
Defined.

End Sha.
