(* ===== verification/Wire.v ===== *)
(** Transactions on the wire: wire/msgtx.go, wire/shahash.go, wire/common.go,
    wire/message.go and the plain serialisation of wire/pb/tx.go, wire/pb/util.go and
    wire/pb/ec.go.

    A Hash is its 32 bytes; pointers to structs are the structs, and [option] where the code
    tests them for nil.  Go's nil and empty byte slices are both [[]] (MoveBytes, which maps
    the first to the second, is then the identity).  The writers are used with a
    bytes.Buffer, whose Write never fails: a writer is the string it appends. *)

From S2P Require Import Prelude Hashes.

Inductive wire_error : Set :=
| NilProtoTx | NilProtoTxIn | NilProtoOutPoint | NilProtoTxOut | NilProtoHash
| ErrInvalidCodecMode | InvalidShaLength (n : Z) | MarshalError.

#[global] Instance wire_error_eq_dec : EqDecision wire_error.
Proof. solve_decision. Defined.

(** * Constants *)

Definition TxVersion : Z := 1.
Definition MaxTxInSequenceNum : Z := 2 ^ 64 - 1.
Definition MaxPrevOutIndex : Z := 2 ^ 32 - 1.
Definition SequenceLockTimeDisabled : Z := Z.shiftl 1 63.
Definition SequenceLockTimeIsSeconds : Z := Z.shiftl 1 38.
Definition SequenceLockTimeMask : Z := 0x00000000ffffffff.
Definition SequenceLockTimeGranularity : Z := 5.
Definition HashSize : Z := 32.
Definition zeroHash : bytes := replicate 32 0.

(** consensus/params.go *)
Definition MaxwellPerMass : Z := 100000000.
Definition MinFrozenPeriod : Z := 61440.
Definition MinStakingValue : Z := 2048 * MaxwellPerMass.

Inductive CodecMode : Set := DB | Packet | Plain | ID | WitnessID | PoCID | ChainID.

(** * Data *)

Abbreviation Hash := bytes.

Record OutPoint := mkOutPoint { op_Hash : Hash; op_Index : Z }.
Record TxIn := mkTxIn { PreviousOutPoint : OutPoint; Witness : list bytes; Sequence : Z }.
Record TxOut := mkTxOut { Value : Z; PkScript : bytes }.
Record MsgTx := mkMsgTx {
  Version : Z; TxIns : list TxIn; TxOuts : list TxOut; LockTime : Z; Payload : bytes }.

#[global] Instance OutPoint_eq_dec : EqDecision OutPoint.
Proof. solve_decision. Defined.
#[global] Instance TxIn_eq_dec : EqDecision TxIn.
Proof. solve_decision. Defined.
#[global] Instance TxOut_eq_dec : EqDecision TxOut.
Proof. solve_decision. Defined.
#[global] Instance MsgTx_eq_dec : EqDecision MsgTx.
Proof. solve_decision. Defined.

Definition NewOutPoint (hash : Hash) (index : Z) : OutPoint := mkOutPoint hash index.
Definition NewTxIn (prevOut : OutPoint) (witness : list bytes) : TxIn :=
  mkTxIn prevOut witness MaxTxInSequenceNum.
Definition NewTxOut (value : Z) (pkScript : bytes) : TxOut := mkTxOut value pkScript.
Definition NewMsgTx : MsgTx := mkMsgTx TxVersion [] [] 0 [].

(** The Go types of the fields. *)
Definition hash_ok (h : Hash) : Prop := length h = 32%nat /\ bytes_ok h.
Definition txin_ok (ti : TxIn) : Prop :=
  hash_ok (op_Hash (PreviousOutPoint ti)) /\ 0 <= op_Index (PreviousOutPoint ti) < 2 ^ 32 /\
  Forall bytes_ok (Witness ti) /\ 0 <= Sequence ti < 2 ^ 64.
Definition txout_ok (to : TxOut) : Prop :=
  - 2 ^ 63 <= Value to < 2 ^ 63 /\ bytes_ok (PkScript to).
Definition msgtx_ok (tx : MsgTx) : Prop :=
  0 <= Version tx < 2 ^ 32 /\ Forall txin_ok (TxIns tx) /\ Forall txout_ok (TxOuts tx) /\
  0 <= LockTime tx < 2 ^ 64 /\ bytes_ok (Payload tx).

(** * Methods of MsgTx *)

Definition AddTxIn (ti : TxIn) : prog MsgTx wire_error unit :=
  modify (fun msg => mkMsgTx (Version msg) (TxIns msg ++ [ti]) (TxOuts msg) (LockTime msg) (Payload msg)).

Definition set_TxOuts (msg : MsgTx) (outs : list TxOut) : MsgTx :=
  mkMsgTx (Version msg) (TxIns msg) outs (LockTime msg) (Payload msg).

Definition AddTxOut (to : TxOut) : prog MsgTx wire_error unit :=
  modify (fun msg => set_TxOuts msg (TxOuts msg ++ [to])).

(** [append(msg.TxOut[:index], msg.TxOut[index+1:]...)] *)
Definition RemoveTxOut (idx : Z) : prog MsgTx wire_error unit :=
  outs ← gets TxOuts;
  pre ← lift (slice outs 0 idx);
  post ← lift (slice outs (idx + 1) (len outs));
  modify (fun msg => set_TxOuts msg (pre ++ post)).

Definition RemoveAllTxOut : prog MsgTx wire_error unit := modify (fun msg => set_TxOuts msg []).

Definition SetPayload (payload : bytes) : prog MsgTx wire_error unit :=
  modify (fun msg => mkMsgTx (Version msg) (TxIns msg) (TxOuts msg) (LockTime msg) payload).

Definition Hash_IsEqual (hash target : option Hash) : bool :=
  match hash, target with
  | None, None => true
  | Some h, Some t => bool_decide (h = t)
  | _, _ => false
  end.

Definition IsCoinBaseTx (msg : MsgTx) : bool :=
  match TxIns msg with
  | [] => false
  | ti :: _ =>
      let prevOut := PreviousOutPoint ti in
      negb (negb (op_Index prevOut =? 2 ^ 32 - 1) || negb (Hash_IsEqual (Some (op_Hash prevOut)) (Some zeroHash)))
  end.

Definition TxWitness_PlainSize (t : list bytes) : Z :=
  fold_left (fun n witItem => n + len witItem) t 0.

Definition TxIn_PlainSize (t : TxIn) : Z := 4 + 32 + TxWitness_PlainSize (Witness t) + 8.

Definition TxOut_PlainSize (t : TxOut) : Z := 8 + len (PkScript t).

Definition PlainSize (msg : MsgTx) : Z :=
  let n := fold_left (fun n ti => n + TxIn_PlainSize ti) (TxIns msg) 4 in
  let n := fold_left (fun n to => n + TxOut_PlainSize to) (TxOuts msg) n in
  n + 8 + len (Payload msg).

Definition IsValidFrozenPeriod (height : Z) : bool :=
  (height >=? MinFrozenPeriod) && (height <=? SequenceLockTimeMask - 1).

Definition IsValidStakingValue (value : Z) : bool := value >=? int64 MinStakingValue.

(** * common.go *)

(** [ReadUint64]: [r.Read] fills the eight-byte buffer as far as the input goes and fails on
    an empty input (io.EOF); the bytes it does not reach keep their zeros. *)
Definition ReadUint64 (r : bytes) : option (Z * Z) :=
  match r with
  | [] => None
  | _ => let got := take 8 r in
         Some (le_decode (got ++ replicate (8 - length got) 0), len got)
  end.

Definition WriteUint64 (val : Z) : bytes := le_encode 8 val.
Definition WriteVarBytes (bs : bytes) : bytes := bs.
Definition MoveBytes (bs : bytes) : bytes := if len bs =? 0 then [] else bs.

Definition WriteTxOut (to : TxOut) : bytes :=
  WriteUint64 (uint64 (Value to)) ++ WriteVarBytes (PkScript to).

Section hashing.
Context {HF : HashFunctions}.

Definition HashB (b : bytes) : bytes := sha256_Sum256 b.
Definition HashH (b : bytes) : Hash := sha256_Sum256 b.
Definition DoubleHashB (b : bytes) : bytes := sha256_Sum256 (sha256_Sum256 b).
Definition DoubleHashH (b : bytes) : Hash := sha256_Sum256 (sha256_Sum256 b).
End hashing.

(** [Hash.SetBytes] and [NewHash] *)
Definition Hash_SetBytes (newHash : bytes) : prog Hash wire_error unit :=
  let nhlen := len newHash in
  if negb (nhlen =? HashSize) then throw (InvalidShaLength nhlen)
  else modify (fun _ => newHash).

Definition NewHash (newHash : bytes) : outcome wire_error Hash :=
  match Hash_SetBytes newHash zeroHash with
  | (Ret _, sh) => Ret sh
  | (Err e, _) => Err e
  | (Panic, _) => Panic
  end.

(** * Protocol buffers *)

Record pbHash := mkPbHash { S0 : Z; S1 : Z; S2 : Z; S3 : Z }.
Record pbOutPoint := mkPbOutPoint { pbop_Hash : option pbHash; pbop_Index : Z }.
Record pbTxIn := mkPbTxIn {
  pb_PreviousOutPoint : option pbOutPoint; pb_Witness : list bytes; pb_Sequence : Z }.
Record pbTxOut := mkPbTxOut { pb_Value : Z; pb_PkScript : bytes }.
Record pbTx := mkPbTx {
  pb_Version : Z; pb_TxIn : list (option pbTxIn); pb_TxOut : list (option pbTxOut);
  pb_LockTime : Z; pb_Payload : bytes }.

Definition Hash_ToProto (hash : Hash) : pbHash :=
  let part i := be_decode (take 8 (drop (8 * i) hash)) in
  mkPbHash (part 0%nat) (part 1%nat) (part 2%nat) (part 3%nat).

Definition Hash_FromProto (pb : option pbHash) : outcome wire_error Hash :=
  match pb with
  | None => Err NilProtoHash
  | Some pb => Ret (be_encode 8 (S0 pb) ++ be_encode 8 (S1 pb) ++ be_encode 8 (S2 pb) ++ be_encode 8 (S3 pb))
  end.

Definition TxIn_ToProto (ti : TxIn) : pbTxIn :=
  mkPbTxIn (Some (mkPbOutPoint (Some (Hash_ToProto (op_Hash (PreviousOutPoint ti))))
                               (op_Index (PreviousOutPoint ti))))
           (Witness ti) (Sequence ti).

Definition ToProto (msg : MsgTx) : pbTx :=
  mkPbTx (Version msg) (map (fun ti => Some (TxIn_ToProto ti)) (TxIns msg))
         (map (fun to => Some (mkPbTxOut (Value to) (PkScript to))) (TxOuts msg))
         (LockTime msg) (Payload msg).

Definition TxIn_FromProto (ti : option pbTxIn) : outcome wire_error TxIn :=
  match ti with
  | None => Err NilProtoTxIn
  | Some ti =>
      match pb_PreviousOutPoint ti with
      | None => Err NilProtoOutPoint
      | Some op =>
          opHash ← Hash_FromProto (pbop_Hash op);
          Ret (mkTxIn (mkOutPoint opHash (pbop_Index op)) (map MoveBytes (pb_Witness ti)) (pb_Sequence ti))
      end
  end.

Definition TxOut_FromProto (to : option pbTxOut) : outcome wire_error TxOut :=
  match to with
  | None => Err NilProtoTxOut
  | Some to => Ret (mkTxOut (pb_Value to) (MoveBytes (pb_PkScript to)))
  end.

(** The receiver is written only after every part has been converted. *)
Definition FromProto (pb : option pbTx) : prog MsgTx wire_error unit :=
  match pb with
  | None => throw NilProtoTx
  | Some pb =>
      txIns ← lift (mapM TxIn_FromProto (pb_TxIn pb));
      txOuts ← lift (mapM TxOut_FromProto (pb_TxOut pb));
      modify (fun _ => mkMsgTx (pb_Version pb) txIns txOuts (pb_LockTime pb) (MoveBytes (pb_Payload pb)))
  end.

Definition NewTxFromProto (pb : option pbTx) : outcome wire_error MsgTx :=
  match FromProto pb (mkMsgTx 0 [] [] 0 []) with
  | (Ret _, msg) => Ret msg
  | (Err e, _) => Err e
  | (Panic, _) => Panic
  end.

(** * The plain encoding: wire/pb *)

Definition pbHash_Bytes (m : pbHash) : bytes :=
  le_encode 8 (S0 m) ++ le_encode 8 (S1 m) ++ le_encode 8 (S2 m) ++ le_encode 8 (S3 m).

(** A nil pointer here would be dereferenced. *)
Definition deref {E A} (p : option A) : outcome E A :=
  match p with Some a => Ret a | None => Panic end.

Definition pbOutPoint_Bytes (m : pbOutPoint) : outcome wire_error bytes :=
  h ← deref (pbop_Hash m); Ret (pbHash_Bytes h ++ le_encode 4 (pbop_Index m)).

Definition pbTxIn_Bytes (m : option pbTxIn) : outcome wire_error bytes :=
  m ← deref m;
  op ← deref (pb_PreviousOutPoint m);
  b ← pbOutPoint_Bytes op;
  Ret (b ++ concat (pb_Witness m) ++ le_encode 8 (pb_Sequence m)).

Definition pbTxIn_BytesNoWitness (m : option pbTxIn) : outcome wire_error bytes :=
  m ← deref m;
  op ← deref (pb_PreviousOutPoint m);
  b ← pbOutPoint_Bytes op;
  Ret (b ++ le_encode 8 (pb_Sequence m)).

Definition pbTxOut_Bytes (m : option pbTxOut) : outcome wire_error bytes :=
  m ← deref m; Ret (le_encode 8 (uint64 (pb_Value m)) ++ pb_PkScript m).

Definition pbTx_Write (m : pbTx) : outcome wire_error bytes :=
  ins ← mapM pbTxIn_Bytes (pb_TxIn m);
  outs ← mapM pbTxOut_Bytes (pb_TxOut m);
  Ret (le_encode 4 (pb_Version m) ++ concat ins ++ concat outs ++ le_encode 8 (pb_LockTime m) ++ pb_Payload m).

Definition pbTx_WriteNoWitness (m : pbTx) : outcome wire_error bytes :=
  ins ← mapM pbTxIn_BytesNoWitness (pb_TxIn m);
  outs ← mapM pbTxOut_Bytes (pb_TxOut m);
  Ret (le_encode 4 (pb_Version m) ++ concat ins ++ concat outs ++ le_encode 8 (pb_LockTime m) ++ pb_Payload m).

(** [Encode] and [Bytes]; the protobuf library's Marshal is a parameter. *)
Definition Encode (Marshal : pbTx -> outcome wire_error bytes) (msg : MsgTx) (mode : CodecMode)
    : outcome wire_error bytes :=
  let pb := ToProto msg in
  match mode with
  | DB | Packet => Marshal pb
  | Plain | WitnessID => pbTx_Write pb
  | ID => pbTx_WriteNoWitness pb
  | _ => Err ErrInvalidCodecMode
  end.

(** [TxHash] and [WitnessHash]: the modes they use do not reach Marshal. *)
Section txhash.
Context {HF : HashFunctions}.

Definition no_Marshal : pbTx -> outcome wire_error bytes := fun _ => Err MarshalError.

Definition hash_of_encoding (buf : outcome wire_error bytes) : outcome wire_error Hash :=
  match buf with Ret b => Ret (DoubleHashH b) | Err _ => Ret zeroHash | Panic => Panic end.

Definition TxHash (msg : MsgTx) : outcome wire_error Hash :=
  hash_of_encoding (Encode no_Marshal msg ID).

Definition WitnessHash (msg : MsgTx) : outcome wire_error Hash :=
  hash_of_encoding (Encode no_Marshal msg WitnessID).
End txhash.

(** * Lemmas *)

Lemma MoveBytes_id bs : MoveBytes bs = bs.
Proof. unfold MoveBytes. case_if; [|done]. bool_to_prop. by apply len_zero_iff in Heqb as ->. Qed.

Lemma take_drop_next {A} n k (l : list A) : take n (drop k l) ++ drop (k + n) l = drop k l.
Proof. rewrite <- drop_drop. apply take_drop. Qed.

Lemma Hash_proto_roundtrip h : hash_ok h -> Hash_FromProto (Some (Hash_ToProto h)) = Ret h.
Proof.
  intros [Hl Hb]. unfold Hash_FromProto, Hash_ToProto. cbn [S0 S1 S2 S3].
  rewrite !be_encode_decode by (solve [auto using Forall_take, Forall_drop] || (rewrite length_take, length_drop; lia)).
  f_equal. rewrite (take_ge (drop (8 * 3) h)) by (rewrite length_drop; lia).
  change (8 * 3)%nat with (8 * 2 + 8)%nat. rewrite take_drop_next.
  change (8 * 2)%nat with (8 * 1 + 8)%nat. rewrite take_drop_next.
  change (8 * 1)%nat with (8 * 0 + 8)%nat. by rewrite take_drop_next.
Qed.

Lemma mapM_total {E A B} (f : A -> outcome E B) (g : A -> B) l :
  (forall x, x ∈ l -> f x = Ret (g x)) -> mapM f l = Ret (map g l).
Proof.
  induction l as [|x l IH]; intros Hf; [done|]. cbn [mapM].
  rewrite (Hf x) by set_solver. cbn [mbind outcome_bind].
  rewrite IH; [done|]. intros y Hy. apply Hf. set_solver.
Qed.

Lemma mapM_total_map {E A B C} (h : A -> C) (f : C -> outcome E B) (g : A -> B) l :
  (forall x, x ∈ l -> f (h x) = Ret (g x)) -> mapM f (map h l) = Ret (map g l).
Proof.
  intros Hf. induction l as [|x l IH]; [done|]. cbn [mapM map].
  rewrite (Hf x) by set_solver. cbn [mbind outcome_bind].
  rewrite IH; [done|]. intros y Hy. apply Hf. set_solver.
Qed.

Definition hash_wire (h : Hash) : bytes := pbHash_Bytes (Hash_ToProto h).
Definition outpoint_wire (op : OutPoint) : bytes := hash_wire (op_Hash op) ++ le_encode 4 (op_Index op).
Definition txin_wire (witness : bool) (ti : TxIn) : bytes :=
  outpoint_wire (PreviousOutPoint ti) ++ (if witness then concat (Witness ti) else []) ++ le_encode 8 (Sequence ti).
Definition tx_wire (witness : bool) (msg : MsgTx) : bytes :=
  le_encode 4 (Version msg) ++ concat (map (txin_wire witness) (TxIns msg)) ++
  concat (map WriteTxOut (TxOuts msg)) ++ le_encode 8 (LockTime msg) ++ Payload msg.

(** The plain encodings of a transaction never fail. *)
Lemma Write_ToProto msg : pbTx_Write (ToProto msg) = Ret (tx_wire true msg).
Proof.
  unfold pbTx_Write, ToProto. cbn [pb_TxIn pb_TxOut pb_Version pb_LockTime pb_Payload].
  rewrite (mapM_total_map _ pbTxIn_Bytes (txin_wire true)) by (intros; unfold txin_wire, outpoint_wire; cbn; by rewrite ?app_assoc).
  rewrite (mapM_total_map _ pbTxOut_Bytes WriteTxOut) by done. done.
Qed.

Lemma WriteNoWitness_ToProto msg : pbTx_WriteNoWitness (ToProto msg) = Ret (tx_wire false msg).
Proof.
  unfold pbTx_WriteNoWitness, ToProto. cbn [pb_TxIn pb_TxOut pb_Version pb_LockTime pb_Payload].
  rewrite (mapM_total_map _ pbTxIn_BytesNoWitness (txin_wire false)) by (intros; unfold txin_wire, outpoint_wire; cbn; by rewrite ?app_assoc).
  rewrite (mapM_total_map _ pbTxOut_Bytes WriteTxOut) by done. done.
Qed.

Lemma len_hash_wire h : len (hash_wire h) = 32.
Proof. unfold hash_wire, pbHash_Bytes. rewrite !len_app. unfold len. by rewrite !length_le_encode. Qed.

Lemma fold_sum {A} (f : A -> Z) l : forall n, fold_left (fun n x => n + f x) l n = n + fold_left (fun n x => n + f x) l 0.
Proof.
  induction l as [|x l IH]; intros n; cbn [fold_left]; [lia|]. rewrite IH, (IH (0 + f x)). lia.
Qed.

Lemma len_concat {A} (f : A -> bytes) l : len (concat (map f l)) = fold_left (fun n x => n + len (f x)) l 0.
Proof.
  induction l as [|x l IH]; [done|]. cbn [map concat fold_left].
  rewrite len_app, IH, (fold_sum _ l (0 + _)). lia.
Qed.

Lemma len_txin_wire ti : len (txin_wire true ti) = TxIn_PlainSize ti.
Proof.
  unfold txin_wire, outpoint_wire, TxIn_PlainSize, TxWitness_PlainSize. rewrite !len_app, len_hash_wire.
  rewrite <- (map_id (Witness ti)) at 1. rewrite len_concat. unfold len. rewrite !length_le_encode. lia.
Qed.

Lemma len_WriteTxOut to : len (WriteTxOut to) = TxOut_PlainSize to.
Proof.
  unfold WriteTxOut, WriteUint64, WriteVarBytes, TxOut_PlainSize. rewrite len_app. unfold len at 1.
  rewrite length_le_encode. lia.
Qed.

Lemma fold_ext {A} (f g : A -> Z) l : (forall x, f x = g x) ->
  forall n, fold_left (fun n x => n + f x) l n = fold_left (fun n x => n + g x) l n.
Proof. intros Hfg. induction l as [|x l IH]; intros n; cbn [fold_left]; [done|]. by rewrite Hfg, IH. Qed.

Lemma len_tx_wire msg : len (tx_wire true msg) = PlainSize msg.
Proof.
  unfold tx_wire, PlainSize. rewrite !len_app, !len_concat.
  rewrite (fold_ext _ _ _ len_txin_wire), (fold_ext _ _ _ len_WriteTxOut).
  rewrite (fold_sum TxOut_PlainSize _ (fold_left _ _ _)), (fold_sum TxIn_PlainSize _ 4).
  unfold len at 1 2. rewrite !length_le_encode. lia.
Qed.

Lemma mapM_not_panic {E A B} (f : A -> outcome E B) l : (forall x, f x <> Panic) -> mapM f l <> Panic.
Proof.
  intros Hf. induction l as [|x l IH]; [done|]. cbn [mapM].
  specialize (Hf x). destruct (f x); cbn; [|done|done]. destruct (mapM f l); cbn; done.
Qed.

(** Replacing the witnesses of the inputs. *)
Definition strip_witness (ti : TxIn) : TxIn := mkTxIn (PreviousOutPoint ti) [] (Sequence ti).

(** * Properties *)

Lemma FromProto_ToProto (tx old : MsgTx) : msgtx_ok tx -> FromProto (Some (ToProto tx)) old = (Ret tt, tx).
Proof.
  intros (_ & Hin & _ & _ & _). unfold FromProto, ToProto.
  cbn [pb_TxIn pb_TxOut pb_Version pb_LockTime pb_Payload].
  rewrite (mapM_total_map _ TxIn_FromProto id), (mapM_total_map _ TxOut_FromProto id), !map_id.
  - run. rewrite MoveBytes_id. by destruct tx.
  - intros [v s] _. cbn. by rewrite MoveBytes_id.
  - intros ti Hti. rewrite Forall_forall in Hin. destruct (Hin ti Hti) as [Hh _].
    unfold TxIn_FromProto, TxIn_ToProto. cbn [pb_PreviousOutPoint pb_Witness pb_Sequence pbop_Hash pbop_Index].
    rewrite Hash_proto_roundtrip by done. run. rewrite (map_ext _ id MoveBytes_id), map_id.
    by destruct ti as [[? ?] ? ?].
Qed.

(** decoding what a transaction was encoded to gives the transaction back: FromProto
    inverts ToProto on every transaction whose fields have their Go types, whatever the
    receiver held. *)
Theorem tx_proto_roundtrip (tx old : MsgTx) :
  msgtx_ok tx -> FromProto (Some (ToProto tx)) old = (Ret tt, tx).
Proof. apply FromProto_ToProto. Qed.

Lemma tx_proto_roundtrip_witness :
  let tx := mkMsgTx 1 [mkTxIn (mkOutPoint (replicate 32 7) 3) [[1; 2]; []] 9] [mkTxOut (-5) [0x6a]] 10 [1] in
  FromProto (Some (ToProto tx)) NewMsgTx = (Ret tt, tx).
Proof.
  apply tx_proto_roundtrip. repeat split; cbn; try lia; try solve_bytes; repeat constructor; cbn; try lia.
Defined.

(** A protobuf transaction with every part FromProto needs. *)
Definition txin_present (ti : option pbTxIn) : bool :=
  match ti with Some (mkPbTxIn (Some (mkPbOutPoint (Some _) _)) _ _) => true | _ => false end.
Definition tx_present (pb : pbTx) : bool :=
  forallb txin_present (pb_TxIn pb) && forallb (fun to => bool_decide (is_Some to)) (pb_TxOut pb).

Lemma mapM_present {E A B} (f : A -> outcome E B) (p : A -> bool) l :
  (forall x, if p x then is_Ret (f x) else is_Err (f x)) ->
  if forallb p l then is_Ret (mapM f l) else is_Err (mapM f l).
Proof.
  intros Hf. induction l as [|x l IH]; [by eexists|]. cbn [mapM forallb]. specialize (Hf x).
  destruct (p x); cbn [andb].
  - destruct Hf as [y ->]. cbn. destruct (forallb p l); destruct IH as [ys ->]; cbn; by eexists.
  - destruct Hf as [e ->]. cbn. by eexists.
Qed.

(** FromProto accepts exactly the protobuf transactions in which no input, output,
    out-point or hash is missing; otherwise it returns an error (it never dereferences a nil
    pointer) and leaves the receiver as it was. *)
Theorem FromProto_accepts (pb : pbTx) (old : MsgTx) :
  if tx_present pb then exists tx, FromProto (Some pb) old = (Ret tt, tx)
  else exists e, FromProto (Some pb) old = (Err e, old).
Proof.
  pose proof (mapM_present TxIn_FromProto txin_present (pb_TxIn pb)) as Hi.
  pose proof (mapM_present TxOut_FromProto (fun to => bool_decide (is_Some to)) (pb_TxOut pb)) as Ho.
  unfold tx_present, FromProto. run.
  destruct (forallb txin_present (pb_TxIn pb)); destruct Hi as [ins ->];
    try (intros [[[[[?|] ?]|] ? ?]|]; by eexists); cbn [andb]; [|by eexists].
  destruct (forallb _ (pb_TxOut pb)); destruct Ho as [outs ->]; try by eexists.
  all: intros [?|]; rewrite ?bool_decide_eq_true_2 by eauto; by eexists.
Qed.

(** PlainSize is the length of the plain encoding, which never fails, of any
    transaction. *)
Theorem PlainSize_correct (Marshal : pbTx -> outcome wire_error bytes) (tx : MsgTx) :
  exists b, Encode Marshal tx Plain = Ret b /\ len b = PlainSize tx.
Proof. exists (tx_wire true tx). split; [apply Write_ToProto|apply len_tx_wire]. Qed.

Section ids.
Context {HF : HashFunctions}.

Lemma TxHash_wire tx : TxHash tx = Ret (DoubleHashH (tx_wire false tx)).
Proof. unfold TxHash, Encode. by rewrite WriteNoWitness_ToProto. Qed.

Lemma WitnessHash_wire tx : WitnessHash tx = Ret (DoubleHashH (tx_wire true tx)).
Proof. unfold WitnessHash, Encode. by rewrite Write_ToProto. Qed.

(** the transaction id does not depend on the witnesses, so signing an input or
    altering a signature leaves it unchanged. *)
Theorem TxHash_ignores_witness (tx tx' : MsgTx) :
  Version tx = Version tx' -> map strip_witness (TxIns tx) = map strip_witness (TxIns tx') ->
  TxOuts tx = TxOuts tx' -> LockTime tx = LockTime tx' -> Payload tx = Payload tx' ->
  TxHash tx = TxHash tx'.
Proof.
  intros Hv Hi Ho Hl Hp. rewrite !TxHash_wire. unfold tx_wire. rewrite Hv, Ho, Hl, Hp.
  assert (forall ins, map (txin_wire false) ins = map (txin_wire false) (map strip_witness ins)) as Hs.
  { intros ins. rewrite map_map. apply map_ext. done. }
  by rewrite (Hs (TxIns tx)), Hi, <- Hs.
Qed.

(** the encoding under the transaction id has no length prefixes (wire.WriteVarBytes
    and TxOut.Bytes append the script alone), so distinct transactions share an id: two
    outputs can be read as one whose script swallows the second. *)
Theorem TxHash_ambiguous (ver lock v1 v2 : Z) (ins : list TxIn) (s1 s2 payload : bytes) :
  TxHash (mkMsgTx ver ins [mkTxOut v1 s1; mkTxOut v2 s2] lock payload) =
  TxHash (mkMsgTx ver ins [mkTxOut v1 (s1 ++ le_encode 8 (uint64 v2) ++ s2)] lock payload).
Proof.
  rewrite !TxHash_wire. unfold tx_wire, WriteTxOut, WriteUint64, WriteVarBytes.
  cbn [Version TxIns TxOuts LockTime Payload map concat Value PkScript].
  rewrite <- !app_assoc, !app_nil_l. done.
Qed.
End ids.

Lemma TxHash_ignores_witness_witness :
  let tx w := mkMsgTx 1 [mkTxIn (mkOutPoint zeroHash 0) w 5] [] 0 [] in
  TxHash (HF := Sha.concrete) (tx [[1]]) = TxHash (HF := Sha.concrete) (tx [[2; 3]]).
Proof. apply TxHash_ignores_witness; reflexivity. Defined.

Lemma TxHash_ambiguous_witness :
  TxHash (HF := Sha.concrete) (mkMsgTx 1 [] [mkTxOut 5 [1; 2]; mkTxOut 6 [3]] 0 []) =
  TxHash (HF := Sha.concrete) (mkMsgTx 1 [] [mkTxOut 5 ([1; 2] ++ le_encode 8 (uint64 6) ++ [3])] 0 []).
Proof. exact (TxHash_ambiguous (HF := Sha.concrete) 1 0 5 6 [] [1; 2] [3] []). Defined.
