(* ===== verification/Merkle.v ===== *)
(** Merkle trees: wire/merkle.go for transactions, and the merkle cache that
    blockchain/template.go hands to miners. *)

From S2P Require Import Prelude TxCommon Hashes Wire.

(** [uint(math.Log2(float64(n)))] is the integer logarithm: the float logarithm of a number of
    transactions is not rounded up to the next integer below 2^47 of them, more than a block of
    any size can hold. *)
Definition nextPowerOfTwo (n : Z) : Z :=
  if Z.land n (n - 1) =? 0 then n else 2 ^ (Z.log2 n + 1).

(** [l[i] = x] panics out of range. *)
Definition store_at {E A} (l : list A) (i : Z) (x : A) : outcome E (list A) :=
  if (i <? 0) || (len l <=? i) then Panic else Ret (<[Z.to_nat i := x]> l).

Lemma store_mid {E A} (l l1 l2 l' : list A) i (x y : A) :
  i = len l1 -> l = l1 ++ y :: l2 -> l' = l1 ++ x :: l2 -> store_at (E := E) l i x = Ret l'.
Proof.
  intros -> -> ->. unfold store_at. rewrite len_app, len_cons. pose proof (len_nonneg l1). pose proof (len_nonneg l2).
  replace (len l1 <? 0) with false by (symmetry; apply Z.ltb_ge; lia).
  replace (len l1 + (1 + len l2) <=? len l1) with false by (symmetry; apply Z.leb_gt; lia).
  cbn [orb]. f_equal. rewrite to_nat_len. replace (length l1) with (length l1 + 0)%nat by lia. by rewrite insert_app_r.
Qed.

(** [n & (n-1) == 0] holds of powers of two only. *)
Lemma land_pred_pow2 n : 1 <= n -> Z.land n (n - 1) = 0 -> n = 2 ^ Z.log2 n.
Proof.
  intros Hn H. destruct (Z.log2_spec n ltac:(lia)) as [Hlo Hhi].
  destruct (Z.eq_dec n (2 ^ Z.log2 n)) as [?|Hne]; [done|exfalso].
  assert (Z.log2 (n - 1) = Z.log2 n) as Hlog by (apply Z.log2_unique; [apply Z.log2_nonneg|lia]).
  pose proof (Z.log2_nonneg n). assert (0 < 2 ^ Z.log2 n) by (apply Z.pow_pos_nonneg; lia).
  assert (Z.testbit (Z.land n (n - 1)) (Z.log2 n) = true) as Hb.
  { rewrite Z.land_spec, (Z.bit_log2 n) by lia. rewrite <- Hlog. rewrite (Z.bit_log2 (n - 1)) by lia. done. }
  by rewrite H, Z.bits_0 in Hb.
Qed.

Lemma nextPowerOfTwo_spec n :
  1 <= n -> exists k : nat, nextPowerOfTwo n = 2 ^ Z.of_nat k /\ n <= 2 ^ Z.of_nat k < 2 * n.
Proof.
  intros Hn. pose proof (Z.log2_nonneg n) as Hl. destruct (Z.log2_spec n ltac:(lia)) as [Hlo Hhi].
  unfold nextPowerOfTwo. destruct (Z.eqb_spec (Z.land n (n - 1)) 0) as [He|He].
  - exists (Z.to_nat (Z.log2 n)). rewrite Z2Nat.id by lia. pose proof (land_pred_pow2 n Hn He). lia.
  - exists (Z.to_nat (Z.log2 n + 1)). rewrite Z2Nat.id by lia. split; [done|].
    rewrite Z.pow_succ_r in Hhi by lia. rewrite Z.pow_add_r by lia.
    assert (n <> 2 ^ Z.log2 n) as Hne; [|lia]. intros Heq. apply He. rewrite Heq.
    rewrite Z.sub_1_r, <- Z.ones_equiv. rewrite Z.land_ones by lia. by apply Z.mod_same, Z.pow_nonzero; lia.
Qed.

Section merkle.
Context {HF : HashFunctions}.

Definition HashMerkleBranches (left right : Hash) : Hash := DoubleHashH (left ++ right).

(** A nil pointer to a hash is [None]. *)
Fixpoint fold_cache (baseHash : Hash) (cache : list (option Hash)) : outcome wire_error Hash :=
  match cache with
  | [] => Ret baseHash
  | p :: cache' => h ← deref p; fold_cache (HashMerkleBranches baseHash h) cache'
  end.

Definition GetMerkleRootFromCache (baseHash : Hash) (cache : list (option Hash)) : outcome wire_error Hash :=
  rest ← slice cache 1 (len cache); fold_cache baseHash rest.

(** The loop of [buildMerkleTreeStore]. *)
Fixpoint merkle_loop (fuel : nat) (arraySize i offset : Z) (merkles : list (option Hash))
    : outcome wire_error (list (option Hash)) :=
  match fuel with
  | O => Ret merkles
  | S fuel' =>
      if i <? arraySize - 1 then
        left ← index merkles i;
        parent ← (match left with
                  | None => Ret None
                  | Some l =>
                      right ← index merkles (i + 1);
                      Ret (Some (HashMerkleBranches l (default l right)))
                  end);
        merkles ← store_at merkles offset parent;
        merkle_loop fuel' arraySize (i + 2) (offset + 1) merkles
      else Ret merkles
  end.

Definition buildMerkleTreeStore (merkles : list (option Hash)) (nextPoT arraySize : Z)
    : outcome wire_error (list (option Hash)) :=
  merkle_loop (Z.to_nat arraySize) arraySize 0 nextPoT merkles.

Definition tx_id (witness : bool) (tx : MsgTx) : outcome wire_error Hash :=
  if witness then WitnessHash tx else TxHash tx.

(** [for i, tx := range transactions { merkles[i] = &id }] *)
Fixpoint populate (witness : bool) (i : Z) (transactions : list MsgTx) (merkles : list (option Hash))
    : outcome wire_error (list (option Hash)) :=
  match transactions with
  | [] => Ret merkles
  | tx :: transactions' =>
      sha ← tx_id witness tx;
      merkles ← store_at merkles i (Some sha);
      populate witness (i + 1) transactions' merkles
  end.

(** [make] with a negative length panics. *)
Definition BuildMerkleTreeStoreTransactions (transactions : list MsgTx) (witness : bool)
    : outcome wire_error (list (option Hash)) :=
  let nextPoT := nextPowerOfTwo (len transactions) in
  let arraySize := nextPoT * 2 - 1 in
  if arraySize <? 0 then Panic
  else
    merkles ← populate witness 0 transactions (replicate (Z.to_nat arraySize) None);
    buildMerkleTreeStore merkles nextPoT arraySize.

(** [for i := 1; i < len(merkles) && base > 0; { append merkles[i]; i += base; base /= 2 }] *)
Fixpoint cache_loop (fuel : nat) (merkles : list (option Hash)) (i base : Z)
    : outcome wire_error (list (option Hash)) :=
  match fuel with
  | O => Ret []
  | S fuel' =>
      if (i <? len merkles) && (base >? 0) then
        h ← index merkles i;
        rest ← cache_loop fuel' merkles (i + base) (base / 2);
        Ret (h :: rest)
      else Ret []
  end.

(** [merklesCache] of newBlockTemplate. *)
Definition merklesCache (merkles : list (option Hash)) : outcome wire_error (list (option Hash)) :=
  first ← index merkles 0;
  rest ← (if len merkles >? 1 then cache_loop (length merkles) merkles 1 ((len merkles + 1) / 2) else Ret []);
  Ret (first :: rest).

(** ** The tree the array stores *)

(** The parent of two slots, and the level above a level of slots. *)
Definition merkle_parent (l r : option Hash) : option Hash :=
  match l with None => None | Some l => Some (HashMerkleBranches l (default l r)) end.

Fixpoint up (l : list (option Hash)) : list (option Hash) :=
  match l with a :: b :: l' => merkle_parent a b :: up l' | _ => [] end.

(** A complete tree over [2 ^ k] slots, level by level. *)
Fixpoint levels (k : nat) (l : list (option Hash)) : list (option Hash) :=
  match k with O => l | S k' => l ++ levels k' (up l) end.

(** The reference root: pair the hashes of a level, the last with itself when it is alone,
    until one is left. *)
Fixpoint next_level (l : list Hash) : list Hash :=
  match l with
  | a :: b :: l' => HashMerkleBranches a b :: next_level l'
  | [a] => [HashMerkleBranches a a]
  | [] => []
  end.

Fixpoint merkle_root (fuel : nat) (l : list Hash) : option Hash :=
  match l, fuel with
  | [h], _ => Some h
  | _ :: _, S fuel' => merkle_root fuel' (next_level l)
  | _, _ => None
  end.

(** A level of [2 ^ k] slots whose first ones hold hashes. *)
Definition pad (k : nat) (l : list Hash) : list (option Hash) := map Some l ++ replicate (2 ^ k - length l) None.

(** [2 ^ k] is the least power of two that is at least the number of leaves. *)
Definition fits (k : nat) (l : list Hash) : Prop := (length l <= 2 ^ k < 2 * length l)%nat.

Lemma length_next_level n l : (2 * n - 1 <= length l <= 2 * n)%nat -> length (next_level l) = n.
Proof.
  revert l. induction n as [|n IH]; intros [|a [|b l]] Hl; cbn [length next_level] in *; try lia.
  rewrite IH; lia.
Qed.

Lemma fits_next k l : fits (S k) l -> (2 <= length l)%nat /\ fits k (next_level l).
Proof.
  unfold fits. cbn [Nat.pow]. intros Hl. pose proof (Nat.pow_nonzero 2 k ltac:(lia)). split; [lia|].
  rewrite (length_next_level ((length l + 1) / 2)).
  - pose proof (Nat.div_mod (length l + 1) 2 ltac:(lia)). pose proof (Nat.mod_upper_bound (length l + 1) 2 ltac:(lia)). lia.
  - pose proof (Nat.div_mod (length l + 1) 2 ltac:(lia)). pose proof (Nat.mod_upper_bound (length l + 1) 2 ltac:(lia)). lia.
Qed.

Lemma up_pad n l m :
  (length l + m = 2 * n)%nat ->
  up (map Some l ++ replicate m None) = map Some (next_level l) ++ replicate (n - length (next_level l)) None.
Proof.
  revert l m. induction n as [|n IH]; intros [|a [|b l]] m Hl; cbn [length] in Hl; try lia.
  - by replace m with O by lia.
  - destruct m as [|[|m]]; try lia. cbn [map app replicate up merkle_parent next_level length Nat.sub].
    pose proof (IH [] m ltac:(cbn; lia)) as E. cbn in E. rewrite E. cbn. by rewrite ?Nat.sub_0_r.
  - destruct m as [|m]; [lia|]. cbn [map app replicate up merkle_parent next_level length Nat.sub default].
    pose proof (IH [] m ltac:(cbn; lia)) as E. cbn in E. rewrite E. cbn. by rewrite ?Nat.sub_0_r.
  - cbn [map app up merkle_parent next_level length Nat.sub default]. by rewrite IH by lia.
Qed.

Lemma up_pad_level k l : fits (S k) l -> up (pad (S k) l) = pad k (next_level l).
Proof. unfold fits, pad. intros Hl. apply up_pad. cbn [Nat.pow] in *. lia. Qed.

Lemma length_pad k l : fits k l -> length (pad k l) = (2 ^ k)%nat.
Proof. unfold fits, pad. intros. rewrite length_app, length_map, length_replicate. lia. Qed.

Lemma length_up n l : length l = (2 * n)%nat -> length (up l) = n.
Proof.
  revert l. induction n as [|n IH]; intros [|a [|b l]] Hl; cbn [length] in Hl; try lia; [done|].
  cbn [up length]. by rewrite IH by lia.
Qed.

Lemma length_levels k l : length l = (2 ^ k)%nat -> length (levels k l) = (2 * 2 ^ k - 1)%nat.
Proof.
  revert l. induction k as [|k IH]; intros l Hl; cbn [levels Nat.pow] in *; [lia|].
  rewrite length_app, IH by (apply length_up; lia). pose proof (Nat.pow_nonzero 2 k ltac:(lia)). lia.
Qed.

(** One level of the loop: the slots [lvl] are paired into the array after [made]. *)
Lemma loop_level n : forall lvl pre made junk fuel arraySize i offset,
  length lvl = (2 * n)%nat -> (n <= length junk)%nat -> (n <= fuel)%nat ->
  i = len pre -> offset = len pre + len lvl + len made -> i + 2 * Z.of_nat n <= arraySize - 1 ->
  merkle_loop fuel arraySize i offset (pre ++ lvl ++ made ++ junk) =
  merkle_loop (fuel - n) arraySize (i + 2 * Z.of_nat n) (offset + Z.of_nat n)
    (pre ++ lvl ++ made ++ up lvl ++ drop n junk).
Proof.
  induction n as [|n IH]; intros [|a [|b lvl]] pre made junk fuel arraySize i offset Hl Hj Hf Hi Ho Ha; cbn [length] in Hl; try lia.
  { cbn [up app Z.of_nat]. rewrite !Z.add_0_r, Nat.sub_0_r, drop_0. done. }
  destruct fuel as [|fuel]; [lia|]. destruct junk as [|j junk]; [cbn in Hj; lia|]. cbn [merkle_loop].
  replace (i <? arraySize - 1) with true by (symmetry; apply Z.ltb_lt; lia).
  assert (index (E := wire_error) (pre ++ (a :: b :: lvl) ++ made ++ j :: junk) i = Ret a) as ->
    by (apply index_Ret; split; [unfold len in *; lia|]; subst i; rewrite to_nat_len; apply lookup_app_mid).
  assert (index (E := wire_error) (pre ++ (a :: b :: lvl) ++ made ++ j :: junk) (i + 1) = Ret b) as Hb.
  { apply index_Ret; split; [unfold len in *; lia|]. replace (Z.to_nat (i + 1)) with (length (pre ++ [a]))
      by (rewrite length_app; cbn; unfold len in *; lia). 
    change (pre ++ (a :: b :: lvl) ++ made ++ j :: junk) with (pre ++ [a] ++ b :: lvl ++ made ++ j :: junk).
    rewrite (app_assoc pre [a]). apply lookup_app_mid. }
  cbn [mbind outcome_bind].
  assert (match a with
          | None => Ret None
          | Some l => right ← index (pre ++ (a :: b :: lvl) ++ made ++ j :: junk) (i + 1);
                      Ret (Some (HashMerkleBranches l (default l right)))
          end = Ret (merkle_parent a b)) as -> by (destruct a; [by rewrite Hb|done]).
  cbn [mbind outcome_bind]. assert (store_at (E := wire_error) (pre ++ (a :: b :: lvl) ++ made ++ j :: junk) offset (merkle_parent a b) =
    Ret ((pre ++ [a; b]) ++ lvl ++ (made ++ [merkle_parent a b]) ++ junk)) as ->.
  { apply (store_mid _ (pre ++ (a :: b :: lvl) ++ made) junk _ _ _ j).
    - rewrite Ho, !len_app. lia.
    - by rewrite <- ?app_assoc.
    - rewrite <- !app_assoc. cbn [app]. by rewrite <- ?app_assoc. }
  cbn [mbind outcome_bind]. rewrite (IH lvl (pre ++ [a; b]) (made ++ [merkle_parent a b]) junk);
    try (rewrite ?len_app, ?len_cons, ?len_nil in *; cbn [length] in *; lia).
  cbn [Nat.sub up drop]. f_equal; [lia|lia|]. rewrite <- !app_assoc. cbn [app]. by rewrite <- ?app_assoc.
Qed.

(** The whole loop, level after level. *)
Lemma loop_levels k : forall l pre junk fuel,
  length l = (2 ^ k)%nat -> length junk = (2 ^ k - 1)%nat -> (2 ^ k - 1 <= fuel)%nat ->
  merkle_loop fuel (len pre + 2 ^ (Z.of_nat k + 1) - 1) (len pre) (len pre + 2 ^ Z.of_nat k) (pre ++ l ++ junk) =
  Ret (pre ++ levels k l).
Proof.
  induction k as [|k IH]; intros l pre junk fuel Hl Hj Hf.
  - destruct junk; [|done]. rewrite app_nil_r. destruct fuel; [done|]. cbn [merkle_loop].
    change (2 ^ (Z.of_nat 0 + 1)) with 2. replace (len pre <? len pre + 2 - 1 - 1) with false; [done|].
    symmetry. apply Z.ltb_ge. lia.
  - assert (2 ^ S k = 2 * 2 ^ k)%nat as Hp by (cbn [Nat.pow]; lia). rewrite Hp in *.
    assert (2 ^ Z.of_nat (S k) = 2 * 2 ^ Z.of_nat k) as Hz by (rewrite Nat2Z.inj_succ, Z.pow_succ_r; lia).
    assert (2 ^ (Z.of_nat (S k) + 1) = 4 * 2 ^ Z.of_nat k) as Hz1 by (rewrite Z.pow_add_r, Hz by lia; lia).
    assert (2 ^ (Z.of_nat k + 1) = 2 * 2 ^ Z.of_nat k) as Hz2 by (rewrite Z.pow_add_r by lia; lia).
    assert (Z.of_nat (2 ^ k) = 2 ^ Z.of_nat k) as Hk by (rewrite Nat2Z.inj_pow; done).
    pose proof (Nat.pow_nonzero 2 k ltac:(lia)).
    pose proof (loop_level (2 ^ k) l pre [] junk fuel (len pre + 2 ^ (Z.of_nat (S k) + 1) - 1)
      (len pre) (len pre + 2 ^ Z.of_nat (S k))) as Hlev. cbn [app] in Hlev.
    rewrite Hlev by (rewrite ?len_nil; unfold len; lia). rewrite app_assoc.
    specialize (IH (up l) (pre ++ l) (drop (2 ^ k) junk) (fuel - 2 ^ k)%nat).
    assert (len (pre ++ l) = len pre + 2 * 2 ^ Z.of_nat k) as Hpl by (rewrite len_app; unfold len; lia).
    rewrite Hpl in IH.
    replace (len pre + 2 ^ (Z.of_nat (S k) + 1) - 1) with (len pre + 2 * 2 ^ Z.of_nat k + 2 ^ (Z.of_nat k + 1) - 1) by lia.
    replace (len pre + 2 * Z.of_nat (2 ^ k)) with (len pre + 2 * 2 ^ Z.of_nat k) by lia.
    replace (len pre + 2 ^ Z.of_nat (S k) + Z.of_nat (2 ^ k)) with (len pre + 2 * 2 ^ Z.of_nat k + 2 ^ Z.of_nat k) by lia.
    rewrite IH; [by rewrite <- app_assoc|by apply length_up|rewrite length_drop; lia|lia].
Qed.

(** The last slot is the root. *)
Lemma levels_root k : forall l, fits k l -> exists h,
  merkle_root k l = Some h /\ last (levels k (pad k l)) = Some (Some h).
Proof.
  induction k as [|k IH]; intros l Hl.
  - unfold fits in Hl. destruct l as [|h [|? ?]]; cbn in Hl; try lia. by exists h.
  - destruct (fits_next k l Hl) as [Hl2 Hn]. destruct (IH _ Hn) as (h & Hr & Hlast). exists h. split.
    + destruct l as [|a [|b l]]; cbn [length] in Hl2; try lia. exact Hr.
    + cbn [levels]. rewrite up_pad_level by done. rewrite last_app, Hlast. done.
Qed.

(** More fuel does not change the root; [length l] is always enough. *)
Lemma merkle_root_fuel k : forall l h fuel, merkle_root k l = Some h -> (k <= fuel)%nat -> merkle_root fuel l = Some h.
Proof.
  induction k as [|k IH]; intros [|a [|b l]] h fuel Hr Hf; cbn [merkle_root] in Hr; try done;
    destruct fuel as [|fuel]; try done; try lia. cbn [merkle_root]. apply IH; [done|lia].
Qed.

Lemma fits_fuel k l : fits k l -> (k <= length l)%nat.
Proof. unfold fits. intros. pose proof (Nat.pow_gt_lin_r 2 k ltac:(lia)).
  destruct k; [lia|]. pose proof (Nat.pow_gt_lin_r 2 k ltac:(lia)). cbn [Nat.pow] in *. lia. Qed.

(** Filling the leaves. *)
Lemma populate_ok w txs : forall hs done_ junk,
  Forall2 (fun tx h => tx_id w tx = Ret h) txs hs -> (length txs <= length junk)%nat ->
  populate w (len done_) txs (done_ ++ junk) = Ret (done_ ++ map Some hs ++ drop (length txs) junk).
Proof.
  induction txs as [|tx txs IH]; intros hs done_ junk Hf Hl; inversion Hf as [|? h ? hs' Hh Hhs]; subst.
  { cbn [map app length drop]. by rewrite drop_0. }
  destruct junk as [|j junk]; cbn [length] in Hl; [lia|]. cbn [populate]. rewrite Hh. cbn [mbind outcome_bind].
  rewrite (store_mid _ done_ junk ((done_ ++ [Some h]) ++ junk) _ _ j) by (by rewrite <- ?app_assoc).
  cbn [mbind outcome_bind]. replace (len done_ + 1) with (len (done_ ++ [Some h])) by (rewrite len_app, len_one; lia).
  rewrite (IH hs') by (done || lia). cbn [length drop map app]. by rewrite <- app_assoc.
Qed.

Lemma ids_exist w txs : exists hs, Forall2 (fun tx h => tx_id w tx = Ret h) txs hs.
Proof.
  induction txs as [|tx txs [hs IH]]; [by exists []|].
  exists (DoubleHashH (tx_wire w tx) :: hs). constructor; [|done]. unfold tx_id.
  destruct w; [apply WitnessHash_wire|apply TxHash_wire].
Qed.

(** The store over given leaves. *)
Lemma store_levels k hs n : fits k hs -> (n = Z.to_nat (Z.of_nat (2 ^ k) * 2 - 1) - length hs)%nat ->
  buildMerkleTreeStore (map Some hs ++ replicate n None) (Z.of_nat (2 ^ k)) (Z.of_nat (2 ^ k) * 2 - 1) = Ret (levels k (pad k hs)).
Proof.
  intros Hfit ->. assert (2 ^ Z.of_nat k = Z.of_nat (2 ^ k)) as Hp by (by rewrite Nat2Z.inj_pow).
  pose proof (Nat.pow_nonzero 2 k ltac:(lia)). unfold buildMerkleTreeStore.
  assert (map Some hs ++ replicate (Z.to_nat (Z.of_nat (2 ^ k) * 2 - 1) - length hs) None =
    pad k hs ++ replicate (2 ^ k - 1) None) as ->.
  { unfold pad. rewrite <- app_assoc, <- replicate_add. do 2 f_equal. unfold fits in Hfit. lia. }
  replace (Z.of_nat (2 ^ k) * 2 - 1) with (len (@nil (option Hash)) + 2 ^ (Z.of_nat k + 1) - 1)
    by (rewrite len_nil, Z.pow_add_r, Hp by lia; lia).
  replace (Z.of_nat (2 ^ k)) with (len (@nil (option Hash)) + 2 ^ Z.of_nat k) by (rewrite len_nil; lia).
  apply (loop_levels k (pad k hs) []).
  - by apply length_pad.
  - by rewrite length_replicate.
  - rewrite len_nil, Z.pow_add_r, Hp by lia. lia.
Qed.

Lemma build_levels w txs hs :
  txs <> [] -> Forall2 (fun tx h => tx_id w tx = Ret h) txs hs ->
  exists k, nextPowerOfTwo (len txs) = 2 ^ Z.of_nat k /\ fits k hs /\
    BuildMerkleTreeStoreTransactions txs w = Ret (levels k (pad k hs)).
Proof.
  intros Hne Hf. assert (1 <= len txs) as Hn by (destruct txs; [done|rewrite len_cons; pose proof (len_nonneg txs); lia]).
  destruct (nextPowerOfTwo_spec _ Hn) as (k & Hk & Hr). exists k.
  pose proof (Forall2_length _ _ _ Hf) as Hlen. assert (2 ^ Z.of_nat k = Z.of_nat (2 ^ k)) as Hp by (by rewrite Nat2Z.inj_pow).
  assert (fits k hs) as Hfit by (unfold fits; unfold len in Hr; lia). split_and!; [done|done|].
  unfold BuildMerkleTreeStoreTransactions. rewrite Hk, Hp.
  replace (Z.of_nat (2 ^ k) * 2 - 1 <? 0) with false by (symmetry; apply Z.ltb_ge; unfold len in *; lia).
  pose proof (populate_ok w txs hs [] (replicate (Z.to_nat (Z.of_nat (2 ^ k) * 2 - 1)) None) Hf) as Hpop.
  cbn [app] in Hpop. change (len []) with 0 in Hpop. rewrite Hpop by (rewrite length_replicate; unfold len in *; lia).
  cbn [mbind outcome_bind app]. rewrite drop_replicate. apply store_levels; [done|]. lia.
Qed.

(** ** The cached branch of the first leaf *)

(** Its sibling on every level. *)
Fixpoint siblings (k : nat) (l : list (option Hash)) : list (option Hash) :=
  match k with O => [] | S k' => (default None (l !! 1%nat)) :: siblings k' (up l) end.

Lemma cache_levels k : forall l pre fuel,
  length l = (2 ^ k)%nat -> (k < fuel)%nat ->
  cache_loop fuel (pre ++ levels k l) (len pre + 1) (2 ^ Z.of_nat k) = Ret (siblings k l).
Proof.
  induction k as [|k IH]; intros l pre fuel Hl Hf; destruct fuel as [|fuel]; try lia; cbn [cache_loop].
  { replace (len pre + 1 <? len (pre ++ levels 0 l)) with false; [done|].
    symmetry. apply Z.ltb_ge. rewrite len_app. cbn [levels]. cbn in Hl. unfold len. lia. }
  assert (2 ^ S k = 2 * 2 ^ k)%nat as Hp by (cbn [Nat.pow]; lia). rewrite Hp in Hl.
  assert (2 ^ Z.of_nat (S k) = 2 * 2 ^ Z.of_nat k) as Hz by (rewrite Nat2Z.inj_succ, Z.pow_succ_r; lia).
  assert (Z.of_nat (2 ^ k) = 2 ^ Z.of_nat k) as Hk by (rewrite Nat2Z.inj_pow; done).
  pose proof (Nat.pow_nonzero 2 k ltac:(lia)) as Hnz. cbn [Nat.eqb levels siblings].
  destruct l as [|a [|b l]]; cbn [length] in Hl; try lia.
  assert (len (pre ++ (a :: b :: l) ++ levels k (up (a :: b :: l))) >= len pre + 2) as Hlen
    by (rewrite !len_app, !len_cons; pose proof (len_nonneg l); pose proof (len_nonneg (levels k (up (a :: b :: l)))); lia).
  replace (len pre + 1 <? _) with true by (symmetry; apply Z.ltb_lt; lia).
  replace (2 ^ Z.of_nat (S k) >? 0) with true by (symmetry; rewrite Z.gtb_ltb; apply Z.ltb_lt; lia). cbn [andb].
  assert (index (E := wire_error) (pre ++ (a :: b :: l) ++ levels k (up (a :: b :: l))) (len pre + 1) = Ret b) as ->.
  { apply index_Ret; split; [unfold len; lia|]. replace (Z.to_nat (len pre + 1)) with (length (pre ++ [a]))
      by (rewrite length_app; cbn; unfold len in *; lia).
    change (pre ++ (a :: b :: l) ++ ?x) with (pre ++ [a] ++ b :: l ++ x). rewrite (app_assoc pre [a]). apply lookup_app_mid. }
  cbn [mbind outcome_bind]. rewrite app_assoc.
  assert (len (pre ++ a :: b :: l) = len pre + 2 ^ Z.of_nat (S k)) as Hpl
    by (rewrite len_app, !len_cons; unfold len; lia).
  replace (len pre + 1 + 2 ^ Z.of_nat (S k)) with (len (pre ++ a :: b :: l) + 1) by lia.
  replace (2 ^ Z.of_nat (S k) / 2) with (2 ^ Z.of_nat k) by (rewrite Hz, Z.mul_comm, Z.div_mul; lia).
  rewrite IH by (lia || (apply length_up; cbn [length]; lia)). done.
Qed.

(** Hashing a leaf up its cached branch gives the root of the tree with that leaf first. *)
Lemma fold_siblings k : forall h h' rest, fits k (h :: rest) ->
  exists r, merkle_root k (h' :: rest) = Some r /\ fold_cache h' (siblings k (pad k (h :: rest))) = Ret r.
Proof.
  induction k as [|k IH]; intros h h' rest Hf.
  { unfold fits in Hf. destruct rest; cbn in Hf; [by exists h'|lia]. }
  destruct (fits_next k _ Hf) as [Hl Hn]. destruct rest as [|b rest]; cbn [length] in Hl; [lia|].
  cbn [next_level] in Hn. destruct (IH _ (HashMerkleBranches h' b) _ Hn) as (r & Hr & Hc). exists r.
  split; [exact Hr|]. cbn [siblings]. rewrite up_pad_level by done. exact Hc.
Qed.

(** * Properties *)

(** C32: the linear array [BuildMerkleTreeStoreTransactions] fills is a merkle tree: for any
    block with a transaction it returns (no access is out of range, no nil hash is used) an
    array of twice the next power of two, less one, whose last entry is the root obtained by
    pairing the transaction ids level by level.  Without transactions it panics.  In the tree of
    witness ids the entry of the coinbase is its witness hash like that of any transaction, not
    the zero hash that the comment on [buildMerkleTreeStore] announces. *)
Theorem merkle_store_root (txs : list MsgTx) (w : bool) :
  match txs with
  | [] => BuildMerkleTreeStoreTransactions txs w = Panic
  | _ => exists ids store root,
      Forall2 (fun tx h => tx_id w tx = Ret h) txs ids /\
      BuildMerkleTreeStoreTransactions txs w = Ret store /\
      len store = 2 * nextPowerOfTwo (len txs) - 1 /\
      merkle_root (length ids) ids = Some root /\ last store = Some (Some root)
  end.
Proof.
  destruct txs as [|tx txs]; [done|]. destruct (ids_exist w (tx :: txs)) as [ids Hids].
  destruct (build_levels w (tx :: txs) ids ltac:(done) Hids) as (k & Hk & Hf & Hb).
  destruct (levels_root k ids Hf) as (root & Hr & Hl). exists ids, (levels k (pad k ids)), root.
  split_and!; [done|done| |by eapply merkle_root_fuel, fits_fuel|done].
  rewrite Hk. unfold len. rewrite length_levels by (by apply length_pad).
  assert (2 ^ Z.of_nat k = Z.of_nat (2 ^ k)) as Hp by (by rewrite Nat2Z.inj_pow).
  pose proof (Nat.pow_nonzero 2 k ltac:(lia)). lia.
Qed.

(** the cache a block template carries is the branch of its coinbase: after the coinbase
    is replaced, hashing the new one's id up the cached branch
    ([GetMerkleRootFromCache]) gives exactly the root of the tree rebuilt from scratch. *)
Theorem merkle_cache_root (coinbase coinbase' : MsgTx) (txs : list MsgTx) (w : bool) :
  exists store cache id' store' root,
    BuildMerkleTreeStoreTransactions (coinbase :: txs) w = Ret store /\ merklesCache store = Ret cache /\
    tx_id w coinbase' = Ret id' /\ BuildMerkleTreeStoreTransactions (coinbase' :: txs) w = Ret store' /\
    last store' = Some (Some root) /\ GetMerkleRootFromCache id' cache = Ret root.
Proof.
  destruct (ids_exist w (coinbase :: txs)) as [ids Hids]. inversion Hids as [|? h ? hs Hh Hhs]; subst.
  destruct (ids_exist w [coinbase']) as [ids' Hids']. inversion Hids' as [|? h' ? [|] Hh' Hn]; subst; [|by inversion Hn].
  destruct (build_levels w (coinbase :: txs) (h :: hs) ltac:(done) Hids) as (k & Hk & Hf & Hb).
  destruct (build_levels w (coinbase' :: txs) (h' :: hs) ltac:(done) ltac:(by constructor)) as (k' & Hk' & Hf' & Hb').
  assert (k' = k) as ->. { rewrite len_cons in Hk, Hk'. rewrite Hk in Hk'. apply Z.pow_inj_r in Hk'; lia. }
  destruct (levels_root k _ Hf') as (root & Hr & Hl).
  destruct (fold_siblings k h h' hs Hf) as (r & Hr' & Hc). rewrite Hr in Hr'. injection Hr' as <-.
  exists (levels k (pad k (h :: hs))), (Some h :: siblings k (pad k (h :: hs))), h', (levels k (pad k (h' :: hs))), root.
  split_and!; [done| |done|done|done|].
  - unfold merklesCache. pose proof (length_pad _ _ Hf) as Hlp. pose proof (length_levels _ _ Hlp) as Hll.
    assert (index (E := wire_error) (levels k (pad k (h :: hs))) 0 = Ret (Some h)) as -> by (apply index_Ret; by destruct k).
    cbn [mbind outcome_bind]. assert (2 ^ Z.of_nat k = Z.of_nat (2 ^ k)) as Hp by (by rewrite Nat2Z.inj_pow).
    pose proof (Nat.pow_gt_lin_r 2 k ltac:(lia)) as Hg.
    destruct k as [|k]; [unfold len; by rewrite Hll|]. cbn [Nat.pow] in Hg, Hll, Hp.
    replace (len (levels (S k) (pad (S k) (h :: hs))) >? 1) with true
      by (symmetry; rewrite Z.gtb_ltb; apply Z.ltb_lt; unfold len; lia).
    replace ((len (levels (S k) (pad (S k) (h :: hs))) + 1) / 2) with (2 ^ Z.of_nat (S k)).
    2:{ unfold len. rewrite Hll, Hp. apply Z.div_unique_exact; lia. }
    pose proof (cache_levels (S k) (pad (S k) (h :: hs)) [] (length (levels (S k) (pad (S k) (h :: hs)))) Hlp) as Hcl.
    cbn [app] in Hcl. change (len [] + 1) with 1 in Hcl. rewrite Hcl by lia. done.
  - unfold GetMerkleRootFromCache. rewrite slice_Ret by (rewrite len_cons; pose proof (len_nonneg (siblings k (pad k (h :: hs)))); lia).
    cbn [mbind outcome_bind]. change (drop (Z.to_nat 1) (Some h :: ?l)) with l.
    rewrite take_ge by (rewrite len_cons; unfold len; lia). exact Hc.
Qed.
End merkle.
