(* ===== verification/SigHash.v ===== *)
(** Signature hashes: the digest half of txscript/script.go and txscript/hashcache.go. *)

From S2P Require Import Prelude TxCommon Opcodes Script Hashes Wire.

Section sighash.
Context {HF : HashFunctions}.

Definition calcHashPrevOuts (tx : MsgTx) : Hash :=
  DoubleHashH (concat (map (fun ti =>
    op_Hash (PreviousOutPoint ti) ++ le_encode 4 (op_Index (PreviousOutPoint ti))) (TxIns tx))).

Definition calcHashSequence (tx : MsgTx) : Hash :=
  DoubleHashH (concat (map (fun ti => le_encode 8 (Sequence ti)) (TxIns tx))).

Definition calcHashOutputs (tx : MsgTx) : Hash :=
  DoubleHashH (concat (map WriteTxOut (TxOuts tx))).
End sighash.

Record TxSigHashes := mkTxSigHashes {
  HashPrevOuts : Hash; HashSequence : Hash; HashOutputs : Hash;
  shTxVersion : bytes; shTxLockTime : bytes }.

Section sighash.
Context {HF : HashFunctions}.

Definition NewTxSigHashes (tx : MsgTx) : TxSigHashes :=
  mkTxSigHashes (calcHashPrevOuts tx) (calcHashSequence tx) (calcHashOutputs tx)
    (le_encode 4 (Version tx)) (le_encode 8 (LockTime tx)).

(** The bytes written to the sigHash buffer; [hashType] is a uint32. *)
Definition sigHash_preimage (subScript : list parsedOpcode) (sigHashes : TxSigHashes)
    (hashType : Z) (tx : MsgTx) (idx amt : Z) : result bytes :=
  if idx >? len (TxIns tx) - 1 then Err (ErrInputIndex idx (len (TxIns tx)))
  else
    let anyone := negb (Z.land hashType SigHashAnyOneCanPay =? 0) in
    let masked := Z.land hashType sigHashMask in
    txIn ← index (TxIns tx) idx;
    rawScript ← (match unparseScript subScript with
                 | Ret s => Ret s | Err _ => Ret [] | Panic => Panic end);
    outputs ←
      (if negb (Z.land hashType SigHashSingle =? SigHashSingle) &&
          negb (Z.land hashType SigHashNone =? SigHashNone) then Ret (HashOutputs sigHashes)
       else if (masked =? SigHashSingle) && (idx <? len (TxOuts tx)) then
         to ← index (TxOuts tx) idx; Ret (DoubleHashB (WriteTxOut to))
       else Ret zeroHash);
    Ret (shTxVersion sigHashes ++
         (if negb anyone then HashPrevOuts sigHashes else zeroHash) ++
         (if negb anyone && negb (masked =? SigHashSingle) && negb (masked =? SigHashNone)
          then HashSequence sigHashes else zeroHash) ++
         op_Hash (PreviousOutPoint txIn) ++ le_encode 4 (op_Index (PreviousOutPoint txIn)) ++
         WriteVarBytes rawScript ++
         le_encode 8 (uint64 amt) ++ le_encode 8 (Sequence txIn) ++ Payload tx ++
         outputs ++ shTxLockTime sigHashes ++ le_encode 4 hashType).

Definition calcWitnessSignatureHash (subScript : list parsedOpcode) (sigHashes : TxSigHashes)
    (hashType : Z) (tx : MsgTx) (idx amt : Z) : result bytes :=
  pre ← sigHash_preimage subScript sigHashes hashType tx idx amt; Ret (DoubleHashB pre).
End sighash.

(** * The shared cache of partial hashes *)

(** [sigHashes] is keyed by transaction id; the lock makes each method atomic. *)
Record HashCache := mkHashCache { sigHashes : gmap bytes TxSigHashes }.

Section hashcache.
Context {HF : HashFunctions}.

Definition NewHashCache : HashCache := mkHashCache ∅.

Definition AddSigHashes (tx : MsgTx) (h : HashCache) : outcome wire_error HashCache :=
  txid ← TxHash tx; Ret (mkHashCache (<[txid := NewTxSigHashes tx]> (sigHashes h))).

Definition ContainsHashes (txid : Hash) (h : HashCache) : bool :=
  bool_decide (is_Some (sigHashes h !! txid)).

Definition GetSigHashes (txid : Hash) (h : HashCache) : option TxSigHashes := sigHashes h !! txid.

Definition PurgeSigHashes (txid : Hash) (h : HashCache) : HashCache :=
  mkHashCache (delete txid (sigHashes h)).
End hashcache.

(** * Lemmas *)

Section facts.
Context {HF : HashFunctions}.

Lemma sigHash_preimage_all sub sh tx txIn idx amt raw :
  0 <= idx -> TxIns tx !! Z.to_nat idx = Some txIn -> unparseScript sub = Ret raw ->
  sigHash_preimage sub sh SigHashAll tx idx amt =
  Ret (shTxVersion sh ++ HashPrevOuts sh ++ HashSequence sh ++
       op_Hash (PreviousOutPoint txIn) ++ le_encode 4 (op_Index (PreviousOutPoint txIn)) ++
       raw ++ le_encode 8 (uint64 amt) ++ le_encode 8 (Sequence txIn) ++ Payload tx ++
       HashOutputs sh ++ shTxLockTime sh ++ le_encode 4 SigHashAll).
Proof.
  intros Hi Hin Hraw. unfold sigHash_preimage.
  assert (idx < len (TxIns tx)) by (apply lookup_lt_Some in Hin; unfold len; lia).
  replace (idx >? len (TxIns tx) - 1) with false by (symmetry; rewrite Z.gtb_ltb; apply Z.ltb_ge; lia).
  rewrite (proj2 (index_Ret _ _ _) (conj Hi Hin)). cbn [mbind outcome_bind]. rewrite Hraw. done.
Qed.

Lemma calcWitnessSignatureHash_length sub sh ht tx idx amt h :
  calcWitnessSignatureHash sub sh ht tx idx amt = Ret h -> length h = 32%nat.
Proof. intros (pre & _ & [= <-])%bind_Ret. apply sha256_length. Qed.

(** The digest fails only on an input index out of range, and never panics for an index
    that is not negative. *)
Lemma calcWitnessSignatureHash_total sub sh ht tx idx amt :
  0 <= idx < len (TxIns tx) -> unparseScript sub <> Panic ->
  exists h, calcWitnessSignatureHash sub sh ht tx idx amt = Ret h /\ length h = 32%nat.
Proof.
  intros Hi Hsub. unfold calcWitnessSignatureHash, sigHash_preimage.
  replace (idx >? len (TxIns tx) - 1) with false by (symmetry; rewrite Z.gtb_ltb; apply Z.ltb_ge; lia).
  destruct (index_total (E := script_error) (TxIns tx) idx Hi) as (txIn & -> & _). cbn [mbind outcome_bind].
  set (raw := match unparseScript sub with Ret s => Ret s | Err _ => Ret [] | Panic => Panic end).
  assert (exists r, raw = Ret r) as [r ->] by (unfold raw; destruct (unparseScript sub) eqn:Hu; eauto; congruence).
  cbn [mbind outcome_bind].
  match goal with |- context [(?o ≫= _) ≫= _] => assert (exists outs, o = Ret outs) as [outs ->] end.
  { case_if; [eauto|]. case_if; [|eauto]. bool_to_prop.
    destruct (index_total (E := script_error) (TxOuts tx) idx) as (to & -> & _); [lia|]. cbn. eauto. }
  eexists; split; [done|apply sha256_length].
Qed.
End facts.

(** * Properties *)

Section properties.
Context {HF : HashFunctions}.

(** C30: the digest computed from the cached partial hashes of a transaction covers what
    BIP0143 has it cover for SigHashAll: two spends with the same digest pre-image, whose
    scripts and payloads have the same lengths (these fields are not length-prefixed),
    spend the same input with the same sequence number under the same script, and commit to
    the same amount, payload, version, lock time, previous outputs hash, sequences hash and
    outputs hash. *)
Theorem sighash_all_commits (sub sub' : list parsedOpcode) (raw raw' : bytes) (tx tx' : MsgTx)
    (idx idx' amt amt' : Z) (txIn txIn' : TxIn) (pre : bytes) :
  msgtx_ok tx -> msgtx_ok tx' -> 0 <= idx -> 0 <= idx' ->
  TxIns tx !! Z.to_nat idx = Some txIn -> TxIns tx' !! Z.to_nat idx' = Some txIn' ->
  unparseScript sub = Ret raw -> unparseScript sub' = Ret raw' ->
  length raw = length raw' -> length (Payload tx) = length (Payload tx') ->
  sigHash_preimage sub (NewTxSigHashes tx) SigHashAll tx idx amt = Ret pre ->
  sigHash_preimage sub' (NewTxSigHashes tx') SigHashAll tx' idx' amt' = Ret pre ->
  Version tx = Version tx' /\ LockTime tx = LockTime tx' /\
  PreviousOutPoint txIn = PreviousOutPoint txIn' /\ Sequence txIn = Sequence txIn' /\
  raw = raw' /\ uint64 amt = uint64 amt' /\ Payload tx = Payload tx' /\
  calcHashPrevOuts tx = calcHashPrevOuts tx' /\ calcHashSequence tx = calcHashSequence tx' /\
  calcHashOutputs tx = calcHashOutputs tx'.
Proof.
  intros (Hv & Hins & _ & Hlt & _) (Hv' & Hins' & _ & Hlt' & _) Hi Hi' Hin Hin' Hraw Hraw' Hrl Hpl Hp Hp'.
  rewrite (sigHash_preimage_all _ _ _ _ _ _ _ Hi Hin Hraw) in Hp.
  rewrite (sigHash_preimage_all _ _ _ _ _ _ _ Hi' Hin' Hraw') in Hp'.
  pose proof (Forall_lookup_1 _ _ _ _ Hins Hin) as ([Hh _] & Hix & _ & Hsq).
  pose proof (Forall_lookup_1 _ _ _ _ Hins' Hin') as ([Hh' _] & Hix' & _ & Hsq').
  rewrite <- Hp' in Hp. apply Ret_inj in Hp. clear Hp' pre.
  unfold NewTxSigHashes in Hp. cbn [shTxVersion HashPrevOuts HashSequence HashOutputs shTxLockTime] in Hp.
  apply app_inj_1 in Hp as [HV Hp]; [|by rewrite !length_le_encode].
  apply app_inj_1 in Hp as [HPO Hp]; [|by unfold calcHashPrevOuts, DoubleHashH; rewrite !sha256_length].
  apply app_inj_1 in Hp as [HSQ Hp]; [|by unfold calcHashSequence, DoubleHashH; rewrite !sha256_length].
  apply app_inj_1 in Hp as [HH Hp]; [|by rewrite Hh, Hh'].
  apply app_inj_1 in Hp as [HI Hp]; [|by rewrite !length_le_encode].
  apply app_inj_1 in Hp as [HR Hp]; [|done].
  apply app_inj_1 in Hp as [HA Hp]; [|by rewrite !length_le_encode].
  apply app_inj_1 in Hp as [HS Hp]; [|by rewrite !length_le_encode].
  apply app_inj_1 in Hp as [HP Hp]; [|done].
  apply app_inj_1 in Hp as [HO Hp]; [|by unfold calcHashOutputs, DoubleHashH; rewrite !sha256_length].
  apply app_inj_1 in Hp as [HL _]; [|by rewrite !length_le_encode].
  apply le_encode_inj in HV, HI, HA, HS, HL; try done;
    try (change (256 ^ Z.of_nat 8) with (2 ^ 64); apply wrapU_range; lia).
  split_and!; try done. destruct (PreviousOutPoint txIn), (PreviousOutPoint txIn'). cbn in *. by subst.
Qed.
End properties.

Definition example_tx (w : list bytes) : MsgTx :=
  mkMsgTx 1 [mkTxIn (mkOutPoint (replicate 32 7) 3) w 9] [mkTxOut 5 [0x51]] 10 [1].

Lemma example_tx_ok w : Forall bytes_ok w -> msgtx_ok (example_tx w).
Proof.
  intros Hw. unfold msgtx_ok, example_tx. cbn [Version TxIns TxOuts LockTime Payload].
  split_and!; try lia; try solve_bytes.
  - apply Forall_singleton. split_and!; cbn; try lia; [split; [done|solve_bytes]|done].
  - apply Forall_singleton. split; [cbn; lia|cbn; solve_bytes].
Qed.

Lemma sighash_all_commits_witness :
  exists pre,
    sigHash_preimage (HF := Sha.concrete) [] (NewTxSigHashes (HF := Sha.concrete) (example_tx []))
      SigHashAll (example_tx []) 0 50 = Ret pre /\
    Version (example_tx []) = Version (example_tx [[8]]).
Proof.
  eexists. split; [vm_compute; reflexivity|].
  eapply proj1, (sighash_all_commits (HF := Sha.concrete) [] [] [] [] (example_tx []) (example_tx [[8]])
    0 0 50 50 (mkTxIn (mkOutPoint (replicate 32 7) 3) [] 9) (mkTxIn (mkOutPoint (replicate 32 7) 3) [[8]] 9)).
  - apply example_tx_ok. constructor.
  - apply example_tx_ok, Forall_singleton. solve_bytes.
  - done.
  - done.
  - reflexivity.
  - reflexivity.
  - reflexivity.
  - reflexivity.
  - reflexivity.
  - reflexivity.
  - vm_compute. reflexivity.
  - vm_compute. reflexivity.
Defined.
