(* ===== verification/SigCache.v ===== *)
(** The signature cache: txscript/sigcache.go, with the interface of the btcec package the
    script engine verifies signatures with.

    What the cache reads from outside is a parameter: the answers of crypto/rand and the
    order in which Go ranges over the map, which differ from call to call.  They are indexed
    by the number of calls made so far, which the model counts in the cache. *)

From S2P Require Import Prelude TxCommon Hashes Wire.

(** btcec (third party): parsing, verification and serialisation.  Serialize and
    SerializeCompressed are canonical forms: they determine the signature, up to the sign of
    its S value, and the key, so verification depends on nothing else. *)
Class Btcec := {
  PublicKey : Type;
  Signature : Type;
  ParsePubKey : bytes -> option PublicKey;
  ParseDERSignature : bytes -> option Signature;
  Verify : Signature -> bytes -> PublicKey -> bool;
  Serialize : Signature -> bytes;
  SerializeCompressed : PublicKey -> bytes;
  SerializeUncompressed : PublicKey -> bytes;
  SerializeHybrid : PublicKey -> bytes;
  IsCompressedPubKey : bytes -> bool;
  curve_N : Z;
  Verify_canonical s s' k k' h :
    Serialize s = Serialize s' -> SerializeCompressed k = SerializeCompressed k' ->
    Verify s h k = Verify s' h k';
}.

Record sigInfo := mkSigInfo { si_sigHash : Hash; si_sig : bytes; si_pubKey : bytes }.

#[global] Instance sigInfo_eq_dec : EqDecision sigInfo.
Proof. solve_decision. Defined.
#[global] Instance sigInfo_countable : Countable sigInfo.
Proof.
  refine (inj_countable' (fun i => (si_sigHash i, si_sig i, si_pubKey i))
            (fun t => mkSigInfo t.1.1 t.1.2 t.2) _). by intros [].
Defined.

(** [calls] counts the calls of Add that consulted the environment. *)
Record SigCache := mkSigCache { validSigs : gset sigInfo; maxEntries : Z; calls : nat }.

(** crypto/rand (None: an error) and map iteration: each range visits every entry once. *)
Class Env := {
  rand_Read : nat -> option bytes;
  map_range : nat -> gset sigInfo -> list sigInfo;
  map_range_elements n s : Permutation (map_range n s) (elements s);
}.

Definition NewSigCache (max : Z) : SigCache := mkSigCache ∅ max 0.

(** The eviction loop: the first entry is the fallback, an entry whose hash is above the
    random one ends the search. *)
Fixpoint find_victim (randHashBytes : bytes) (entries : list sigInfo) (foundEntry : sigInfo) : sigInfo :=
  match entries with
  | [] => foundEntry
  | sigEntry :: entries' =>
      let foundEntry := if bytes_Equal (si_sig foundEntry) [] then sigEntry else foundEntry in
      match bytes_Compare (si_sigHash sigEntry) randHashBytes with
      | Gt => sigEntry
      | _ => find_victim randHashBytes entries' foundEntry
      end
  end.

(** The zero value of sigInfo. *)
Definition sigInfo_zero : sigInfo := mkSigInfo zeroHash [] [].

Section cache.
Context {BC : Btcec} {EV : Env}.

Definition info (sigHash : Hash) (sig : Signature) (pubKey : PublicKey) : sigInfo :=
  mkSigInfo sigHash (Serialize sig) (SerializeCompressed pubKey).

Definition Exists (sigHash : Hash) (sig : Signature) (pubKey : PublicKey) (s : SigCache) : bool :=
  bool_decide (info sigHash sig pubKey ∈ validSigs s).

Definition Add (sigHash : Hash) (sig : Signature) (pubKey : PublicKey) (s : SigCache) : SigCache :=
  if maxEntries s <=? 0 then s
  else if Z.of_nat (size (validSigs s)) + 1 >? maxEntries s then
    match rand_Read (calls s) with
    | None => mkSigCache (validSigs s) (maxEntries s) (S (calls s))
    | Some randHashBytes =>
        let foundEntry := find_victim randHashBytes (map_range (calls s) (validSigs s)) sigInfo_zero in
        mkSigCache ({[info sigHash sig pubKey]} ∪ (validSigs s ∖ {[foundEntry]})) (maxEntries s) (S (calls s))
    end
  else mkSigCache ({[info sigHash sig pubKey]} ∪ validSigs s) (maxEntries s) (calls s).

(** How CheckSig and CheckMultiSig use the cache, if there is one.  The code copies the digest
    into an array of 32 bytes first, its length. *)
Definition cached_Verify (sigCache : option SigCache) (sig : Signature) (hash : bytes)
    (pubKey : PublicKey) : bool * option SigCache :=
  match sigCache with
  | None => (Verify sig hash pubKey, None)
  | Some s =>
      if Exists hash sig pubKey s then (true, Some s)
      else if Verify sig hash pubKey then (true, Some (Add hash sig pubKey s))
      else (false, Some s)
  end.

(** * The cache invariant *)

(** Every entry is a signature that verifies, and the bound is kept. *)
Definition sound (s : SigCache) : Prop :=
  forall i, i ∈ validSigs s -> exists sig k,
    si_sig i = Serialize sig /\ si_pubKey i = SerializeCompressed k /\ Verify sig (si_sigHash i) k = true.

Definition bounded (s : SigCache) : Prop := Z.of_nat (size (validSigs s)) <= Z.max 0 (maxEntries s).

Lemma find_victim_in r entries : forall f,
  find_victim r entries f ∈ entries \/ (find_victim r entries f = f /\ (si_sig f <> [] \/ entries = [])).
Proof.
  induction entries as [|e entries IH]; intros f; [right; auto|]. cbn [find_victim].
  destruct (bytes_Compare _ _); [| |left; set_solver].
  all: destruct (bytes_Equal (si_sig f) []) eqn:Hf.
  all: try (destruct (IH e) as [?|[-> _]]; left; set_solver).
  all: destruct (IH f) as [?|[-> _]]; [left; set_solver|right; split; [done|left]].
  all: intros Hn; rewrite Hn in Hf; unfold bytes_Equal in Hf; by rewrite bool_decide_eq_true_2 in Hf.
Qed.

Lemma victim_entry r n vs : vs <> ∅ -> find_victim r (map_range n vs) sigInfo_zero ∈ vs.
Proof.
  intros Hne. destruct (find_victim_in r (map_range n vs) sigInfo_zero) as [Hin|[_ [Hz|Hnil]]].
  - apply elem_of_elements. by rewrite <- map_range_elements.
  - done.
  - exfalso. apply Hne, leibniz_equiv, elements_empty_iff. apply Permutation_nil. rewrite <- Hnil. apply map_range_elements.
Qed.

Lemma Exists_sound s h sig k : sound s -> Exists h sig k s = true -> Verify sig h k = true.
Proof.
  intros Hs (sig' & k' & Hsig & Hk & Hv)%bool_decide_eq_true_1%Hs. cbn in *.
  rewrite <- Hv. by apply Verify_canonical.
Qed.

Lemma Add_sound s h sig k : sound s -> Verify sig h k = true -> sound (Add h sig k s).
Proof.
  intros Hs Hv. unfold Add. case_if; [done|].
  assert (forall vs n m, vs ⊆ validSigs s -> sound (mkSigCache ({[info h sig k]} ∪ vs) n m)) as Hadd.
  { intros vs n m Hvs i [Hi|Hi]%elem_of_union; [|by apply Hs, Hvs].
    apply elem_of_singleton in Hi as ->. by exists sig, k. }
  case_if; [destruct (rand_Read _)|]; [apply Hadd; set_solver|exact Hs|by apply Hadd].
Qed.

Lemma Add_bounded s h sig k : bounded s -> bounded (Add h sig k s).
Proof.
  intros Hb. unfold Add, bounded in *. case_if; [done|]. bool_to_prop.
  case_if; bool_to_prop.
  - destruct (rand_Read _) as [r|]; [|exact Hb]. cbn [validSigs maxEntries].
    set (v := find_victim r (map_range (calls s) (validSigs s)) sigInfo_zero).
    assert (v ∈ validSigs s) as Hv.
    { apply victim_entry. intros Hz. rewrite Hz, size_empty in Heqb0. lia. }
    pose proof (size_union_alt ({[info h sig k]} : gset sigInfo) (validSigs s ∖ {[v]})) as Hu.
    rewrite size_singleton in Hu.
    pose proof (subseteq_size ((validSigs s ∖ {[v]}) ∖ {[info h sig k]}) (validSigs s ∖ {[v]}) ltac:(set_solver)).
    pose proof (size_difference (validSigs s) {[v]} ltac:(set_solver)) as Hd. rewrite size_singleton in Hd.
    pose proof (subseteq_size {[v]} (validSigs s) ltac:(set_solver)) as H1. rewrite size_singleton in H1. lia.
  - cbn [validSigs maxEntries].
    pose proof (size_union_alt ({[info h sig k]} : gset sigInfo) (validSigs s)) as Hu. rewrite size_singleton in Hu.
    pose proof (subseteq_size (validSigs s ∖ {[info h sig k]}) (validSigs s) ltac:(set_solver)). lia.
Qed.

Lemma cached_Verify_agrees c sig h k :
  (forall s, c = Some s -> sound s) -> (cached_Verify c sig h k).1 = Verify sig h k.
Proof.
  intros Hs. destruct c as [s|]; [|done]. unfold cached_Verify.
  destruct (Exists h sig k s) eqn:He; [|by destruct (Verify sig h k)].
  cbn. symmetry. eapply Exists_sound; eauto.
Qed.

Lemma cached_Verify_sound c sig h k s' :
  (forall s, c = Some s -> sound s) -> (cached_Verify c sig h k).2 = Some s' -> sound s'.
Proof.
  intros Hs. destruct c as [s|]; [|done]. unfold cached_Verify.
  destruct (Exists h sig k s); [intros [= <-]; auto|].
  destruct (Verify sig h k) eqn:Hv; intros [= <-]; [apply Add_sound; auto|auto].
Qed.

(** * Properties *)

(** A history of uses of one cache. *)
Fixpoint run_cache (c : SigCache) (uses : list (Signature * bytes * PublicKey)) : list bool * SigCache :=
  match uses with
  | [] => ([], c)
  | (sig, h, k) :: uses' =>
      let '(v, c') := cached_Verify (Some c) sig h k in
      let '(vs, c'') := run_cache (default c c') uses' in (v :: vs, c'')
  end.

(** C33: caching is transparent: whatever is verified through a fresh cache, in any
    order, with any eviction choices, each answer is the one verification without a cache
    gives, and the cache never holds more than maxEntries entries. *)
Theorem sigcache_transparent (max : Z) (uses : list (Signature * bytes * PublicKey)) :
  (run_cache (NewSigCache max) uses).1 = map (fun '(sig, h, k) => Verify sig h k) uses /\
  Z.of_nat (size (validSigs (run_cache (NewSigCache max) uses).2)) <= Z.max 0 max.
Proof.
  assert (forall us c, sound c -> bounded c ->
    (run_cache c us).1 = map (fun '(sig, h, k) => Verify sig h k) us /\
    bounded (run_cache c us).2 /\ maxEntries (run_cache c us).2 = maxEntries c) as Hgen.
  { induction us as [|[[sig h] k] us IH]; intros c Hs Hb; [done|]. cbn [run_cache map].
    pose proof (cached_Verify_agrees (Some c) sig h k ltac:(by intros ? [= <-])) as Ha.
    pose proof (fun s' => cached_Verify_sound (Some c) sig h k s' ltac:(by intros ? [= <-])) as Hs'.
    assert (exists c', (cached_Verify (Some c) sig h k).2 = Some c' /\ bounded c' /\ maxEntries c' = maxEntries c)
      as (c' & Hc' & Hb' & Hm).
    { unfold cached_Verify. destruct (Exists h sig k c); [by exists c|]. destruct (Verify sig h k); [|by exists c].
      exists (Add h sig k c). split; [done|]. split; [by apply Add_bounded|].
      unfold Add. repeat case_if; [done| |done]. by destruct (rand_Read _). }
    destruct (cached_Verify (Some c) sig h k) as [v o]. cbn in *. subst o v. cbn.
    destruct (IH c') as (IH1 & IH2 & IH3); [by apply Hs'|done|].
    destruct (run_cache c' us) as [vs c'']. cbn in *. subst vs. by rewrite IH3. }
  destruct (Hgen uses (NewSigCache max)) as (H1 & H2 & H3).
  - intros i Hi. cbn in Hi. set_solver.
  - unfold bounded. cbn. rewrite size_empty. lia.
  - unfold bounded in H2. rewrite H3 in H2. auto.
Qed.
End cache.

(** * A concrete environment *)

(** A toy signature scheme with btcec's interface, for evaluating the components: keys are
    33-byte strings, and a signature verifies when the first byte of its R value is the
    first byte of the digest modulo 128. *)
Module Toy.

Definition btcec : Btcec.
Proof.
  refine {|
    PublicKey := bytes; Signature := bytes;
    ParsePubKey := fun b => if len b =? 33 then Some b else None;
    ParseDERSignature := fun b => Some b;
    Verify := fun s h _ => nth 4 s 0 =? nth 0 h 0 mod 128;
    Serialize := fun s => s; SerializeCompressed := fun k => k;
    SerializeUncompressed := fun k => 4 :: drop 1 k ++ replicate 32 0;
    SerializeHybrid := fun k => 6 :: drop 1 k ++ replicate 32 0;
    IsCompressedPubKey := fun b => (len b =? 33) && ((hd 0 b =? 2) || (hd 0 b =? 3));
    curve_N := 0xfffffffffffffffffffffffffffffffebaaedce6af48a03bbfd25e8cd0364141 |}.
  by intros ? ? ? ? ? -> _.
Defined.

Definition env : Env.
Proof.
  refine {| rand_Read := fun _ => Some (replicate 32 0); map_range := fun _ s => elements s |}.
  reflexivity.
Defined.

End Toy.

Lemma sigcache_transparent_witness :
  (run_cache (BC := Toy.btcec) (EV := Toy.env) (NewSigCache 1)
    [([0;0;0;0;5], [5], []); ([0;0;0;0;6], [5], []); ([0;0;0;0;5], [5], [])]).1 = [true; false; true].
Proof.
  exact (proj1 (sigcache_transparent (BC := Toy.btcec) (EV := Toy.env) 1
    [([0;0;0;0;5], [5], []); ([0;0;0;0;6], [5], []); ([0;0;0;0;5], [5], [])])).
Defined.
