(* ===== verification/Address.v ===== *)
(** Addresses: the constructors and predicates of massutil/address.go that the script
    templates use.  Their string encodings are in AddressText. *)

From S2P Require Import Prelude TxCommon Hashes SigCache.

(** The parameters of a network that addresses carry (config.Params). *)
Record Params := mkParams { Bech32HRPSegwit : string; PubKeyHashAddrID : Z; ScriptHashAddrID : Z }.

(** [strings.ToLower] on ASCII. *)
Definition lower_ascii (a : Ascii.ascii) : Ascii.ascii :=
  let n := Ascii.nat_of_ascii a in
  if (Nat.leb 65 n && Nat.leb n 90)%bool then Ascii.ascii_of_nat (n + 32) else a.
Fixpoint ToLower (s : string) : string :=
  match s with
  | EmptyString => EmptyString
  | String a s' => String (lower_ascii a) (ToLower s')
  end.

Inductive address_error : Set :=
| ErrPkHashSize | ErrProgramSize | ErrExtendVersion (v : Z) | ErrTargetLength | ErrTargetType (t : Z)
| ErrTargetSize (s : Z) | ErrPubKeyParse | ErrScriptHashSize.

Inductive PubKeyFormat : Set := PKFUncompressed | PKFCompressed | PKFHybrid.

Section address.
Context {BC : Btcec}.

Record AddressPubKey := mkAddressPubKey { pubKeyFormat : PubKeyFormat; pubKey : PublicKey; pubKeyHashID : Z }.

(** The types that implement the Address interface. *)
Inductive Address :=
| AddressPubKeyHash (hash : bytes) (netID : Z)
| AddressPubKey_ (a : AddressPubKey)
| AddressWitnessScriptHash (hrp : string) (witnessVersion extendVersion : Z) (program : bytes)
| AddressBindingTarget (script : bytes) (netID : Z)
| AddressScriptHash (hash : bytes) (netID : Z).

Definition newAddressPubKeyHash (pkHash : bytes) (netID : Z) : outcome address_error Address :=
  if negb (len pkHash =? 20) then Err ErrPkHashSize else Ret (AddressPubKeyHash pkHash netID).

Definition NewAddressPubKeyHash (pkHash : bytes) (net : Params) : outcome address_error Address :=
  newAddressPubKeyHash pkHash (PubKeyHashAddrID net).

Definition newAddressScriptHashFromHash (scriptHash : bytes) (netID : Z) : outcome address_error Address :=
  if negb (len scriptHash =? 20) then Err ErrScriptHashSize else Ret (AddressScriptHash scriptHash netID).

Definition NewAddressScriptHashFromHash (scriptHash : bytes) (net : Params) : outcome address_error Address :=
  newAddressScriptHashFromHash scriptHash (ScriptHashAddrID net).

(** btcec.ParsePubKey rejects an empty string, so the read of the first byte is safe. *)
Definition NewAddressPubKey (serializedPubKey : bytes) (net : Params) : outcome address_error AddressPubKey :=
  match ParsePubKey serializedPubKey with
  | None => Err ErrPubKeyParse
  | Some key =>
      b ← index serializedPubKey 0;
      let pkFormat :=
        if (b =? 0x02) || (b =? 0x03) then PKFCompressed
        else if (b =? 0x06) || (b =? 0x07) then PKFHybrid
        else PKFUncompressed in
      Ret (mkAddressPubKey pkFormat key (PubKeyHashAddrID net))
  end.

Definition serialize (a : AddressPubKey) : bytes :=
  match pubKeyFormat a with
  | PKFUncompressed => SerializeUncompressed (pubKey a)
  | PKFCompressed => SerializeCompressed (pubKey a)
  | PKFHybrid => SerializeHybrid (pubKey a)
  end.

(** [a.PubKey()] dereferences its receiver. *)
Definition AddressPubKey_PubKey {E} (a : option AddressPubKey) : outcome E PublicKey :=
  match a with Some a => Ret (pubKey a) | None => Panic end.

Definition newAddressWitnessScriptHash (hrp : string) (extendVersion : Z) (witnessProg : bytes)
    : outcome address_error Address :=
  if negb (len witnessProg =? 32) then Err ErrProgramSize
  else if extendVersion >? 1 then Err (ErrExtendVersion extendVersion)
  else Ret (AddressWitnessScriptHash (ToLower hrp) 0 extendVersion witnessProg).

Definition NewAddressWitnessScriptHash (witnessProg : bytes) (net : Params) : outcome address_error Address :=
  newAddressWitnessScriptHash (Bech32HRPSegwit net) 0 witnessProg.

Definition NewAddressStakingScriptHash (witnessProg : bytes) (net : Params) : outcome address_error Address :=
  newAddressWitnessScriptHash (Bech32HRPSegwit net) 1 witnessProg.

Definition newAddressBindingTarget (serialized : bytes) (netID : Z) : outcome address_error Address :=
  if negb (len serialized =? 20 + 2) then Err ErrTargetLength
  else
    ty ← index serialized 20;
    if negb ((ty =? 0) || (ty =? 1)) then Err (ErrTargetType ty)
    else
      sz ← index serialized 21;
      if (sz <? 20) || (sz >? 200) then Err (ErrTargetSize sz)
      else Ret (AddressBindingTarget serialized netID).

Definition NewAddressBindingTarget (serialized : bytes) (net : Params) : outcome address_error Address :=
  newAddressBindingTarget serialized (PubKeyHashAddrID net).

Definition ScriptAddress (a : Address) : bytes :=
  match a with
  | AddressPubKeyHash hash _ => hash
  | AddressPubKey_ a => serialize a
  | AddressWitnessScriptHash _ _ _ program => program
  | AddressBindingTarget script _ => script
  | AddressScriptHash hash _ => hash
  end.

Definition IsForNet (a : Address) (net : Params) : bool :=
  match a with
  | AddressPubKeyHash _ netID => netID =? PubKeyHashAddrID net
  | AddressPubKey_ a => pubKeyHashID a =? PubKeyHashAddrID net
  | AddressWitnessScriptHash hrp _ _ _ => String.eqb hrp (Bech32HRPSegwit net)
  | AddressBindingTarget _ netID => netID =? PubKeyHashAddrID net
  | AddressScriptHash _ netID => netID =? ScriptHashAddrID net
  end.

(** A nil interface value is [None]. *)
Definition IsWitnessV0Address (ad : option Address) : bool :=
  match ad with Some (AddressWitnessScriptHash _ v e _) => (v =? 0) && (e =? 0) | _ => false end.
Definition IsWitnessStakingAddress (ad : option Address) : bool :=
  match ad with Some (AddressWitnessScriptHash _ v e _) => (v =? 0) && (e =? 1) | _ => false end.
Definition IsAddressPubKeyHash (ad : option Address) : bool :=
  match ad with Some (AddressPubKeyHash _ _) => true | _ => false end.
Definition IsValidBindingTarget (target : option Address) : bool :=
  if IsAddressPubKeyHash target then true
  else match target with Some (AddressBindingTarget _ _) => true | _ => false end.
End address.
