(* ===== verification/Standard.v ===== *)
(** Standard scripts: txscript/standard.go.  Recognising the templates, building them from
    hashes, keys and addresses, and reading the data back. *)

From S2P Require Import Prelude TxCommon ScriptNum Opcodes Script Builder Hashes Wire SigCache Address.

(** * Classification *)

Definition isMultiSig (pops : list parsedOpcode) : bool :=
  let l := length pops in
  if (Z.of_nat l <? 4) then false
  else
    match pops, pops !! (l - 2)%nat, pops !! (l - 1)%nat with
    | first :: _, Some numkeys, Some last =>
        if negb (isSmallInt (opcode_of first)) then false
        else if negb (isSmallInt (opcode_of numkeys)) then false
        else if negb (pop_value last =? OP_CHECKMULTISIG) then false
        else if negb (Z.of_nat l - 2 - 1 =? asSmallInt (opcode_of numkeys)) then false
        else forallb (fun pop => (len (pop_data pop) =? 33) || (len (pop_data pop) =? 65))
               (take (l - 3) (drop 1 pops))
    | _, _, _ => false
    end.

Definition isNullData (pops : list parsedOpcode) : bool :=
  match pops with
  | [p0] => pop_value p0 =? OP_RETURN
  | [p0; p1] =>
      (pop_value p0 =? OP_RETURN) && (pop_value p1 <=? OP_PUSHDATA4) &&
      (len (pop_data p1) <=? MaxDataCarrierSize)
  | _ => false
  end.

Definition typeOfScript (pops : list parsedOpcode) : ScriptClass :=
  if isWitnessScriptHash pops then WitnessV0ScriptHashTy
  else if isWitnessStakingScript pops then StakingScriptHashTy
  else if isWitnessBindingScript pops then BindingScriptHashTy
  else if isMultiSig pops then MultiSigTy
  else if isNullData pops then NullDataTy
  else NonStandardTy.

Definition GetScriptInfo (script : bytes) : ScriptClass * list parsedOpcode :=
  match parseScript script with
  | (pops, None) => (typeOfScript pops, pops)
  | (_, Some _) => (NonStandardTy, [])
  end.

Definition GetScriptClass (script : bytes) : ScriptClass :=
  match parseScript script with
  | (pops, None) => typeOfScript pops
  | (_, Some _) => NonStandardTy
  end.

(** [ScriptClass.String] on the byte behind a class. *)
Definition scriptClassToName : list string :=
  ["nonstandard"; "witness_v0_scripthash"; "staking_scripthash"; "binding_scripthash"; "multisig"; "nulldata"]%string.

Definition ScriptClass_String (t : Z) : result string :=
  if (t >? len scriptClassToName) || (t <? 0) then Ret "Invalid"%string
  else index scriptClassToName t.

(** * Reading the data of a template *)

(** The frozen period (0 where there is none) and the script hash. *)
Definition GetParsedOpcode (pops : list parsedOpcode) (class : ScriptClass) : result (Z * bytes) :=
  match class with
  | StakingScriptHashTy =>
      p1 ← index pops 1;
      check (negb (len (pop_data p1) =? WitnessV0ScriptHashDataSize)) ErrWitnessProgramLength;;
      p2 ← index pops 2;
      height ← slice (pop_data p2) 0 8;
      Ret (le_decode height, pop_data p1)
  | WitnessV0ScriptHashTy =>
      p1 ← index pops 1;
      check (negb (len (pop_data p1) =? WitnessV0ScriptHashDataSize)) ErrWitnessProgramLength;;
      Ret (0, pop_data p1)
  | BindingScriptHashTy =>
      p1 ← index pops 1;
      check (negb (len (pop_data p1) =? WitnessV0ScriptHashDataSize)) ErrWitnessProgramLength;;
      p2 ← index pops 2;
      check (negb (len (pop_data p2) =? OP_DATA_20) && negb (len (pop_data p2) =? OP_DATA_22)) ErrWitnessExtProgramLength;;
      Ret (0, pop_data p1)
  | _ => Err ErrInvalidScriptHashType
  end.

Definition GetParsedBindingOpcode (pops : list parsedOpcode) : result (bytes * bytes) :=
  if negb (isWitnessBindingScript pops) then Err ErrInvalidBindingScript
  else p1 ← index pops 1; p2 ← index pops 2; Ret (pop_data p1, pop_data p2).

Definition GetBindingScriptHash (script : bytes) : result (bytes * bytes) :=
  pops ← parse_ok script;
  if negb (isWitnessBindingScript pops) then Err ErrInvalidBindingScript
  else p1 ← index pops 1; p2 ← index pops 2; Ret (pop_data p1, pop_data p2).

(** massutil.WitPkScriptParseFunc, set by init: class, frozen period, hash, bound script. *)
Definition WitPkScriptParseFunc (pkScript : bytes) : result (ScriptClass * Z * bytes * bytes) :=
  let '(clazz, pops) := GetScriptInfo pkScript in
  match clazz with
  | WitnessV0ScriptHashTy | StakingScriptHashTy | BindingScriptHashTy =>
      match GetParsedOpcode pops clazz with
      | Ret (frozen, witHash) =>
          if bool_decide (clazz = BindingScriptHashTy) then
            match GetParsedBindingOpcode pops with
            | Ret (_, bound) => Ret (clazz, frozen, witHash, bound)
            | Err _ => Ret (clazz, frozen, witHash, [])
            | Panic => Panic
            end
          else Ret (clazz, frozen, witHash, [])
      | Err _ => Ret (NonStandardTy, 0, replicate 32 0, [])
      | Panic => Panic
      end
  | _ => Ret (clazz, 0, replicate 32 0, [])
  end.

Definition expectedInputs (pops : list parsedOpcode) (class : ScriptClass) : result Z :=
  match class with
  | WitnessV0ScriptHashTy | StakingScriptHashTy | BindingScriptHashTy => Ret 1
  | MultiSigTy => p0 ← index pops 0; Ret (asSmallInt (opcode_of p0))
  | _ => Ret (-1)
  end.

Record ScriptInfo := mkScriptInfo { PkScriptClass : ScriptClass; NumInputs : Z; ExpectedInputs : Z; SigOps : Z }.

Definition CalcScriptInfo (pkScript : bytes) (witness : list bytes) : result ScriptInfo :=
  pkPops ← parse_ok pkScript;
  let class := typeOfScript pkPops in
  expected ← expectedInputs pkPops class;
  witnessScript ← index witness (len witness - 1);
  let pops := (parseScript witnessScript).1 in
  witnesssig ← index witness 0;
  let popsigs := (parseScript witnesssig).1 in
  match class with
  | WitnessV0ScriptHashTy | StakingScriptHashTy | BindingScriptHashTy =>
      shInputs ← expectedInputs pops (typeOfScript pops);
      Ret (mkScriptInfo class (len popsigs + 1)
             (if shInputs =? -1 then -1 else expected + shInputs) (GetWitnessSigOpCount pkScript witness))
  | _ => Ret (mkScriptInfo class (len popsigs + len pops) expected (getSigOpCount pkPops true))
  end.

(** The number of keys, then the number of signatures. *)
Definition CalcMultiSigStats (script : bytes) : result (Z * Z) :=
  pops ← parse_ok script;
  if len pops <? 4 then Err ErrStackUnderflow
  else
    p0 ← index pops 0;
    pn ← index pops (len pops - 2);
    Ret (asSmallInt (opcode_of pn), asSmallInt (opcode_of p0)).

(** * Building the templates *)

Definition payToWitnessScriptHashScript (scriptHash : bytes) : result bytes :=
  if negb (len scriptHash =? WitnessV0ScriptHashDataSize) then Err ErrWitnessProgramLength
  else Script_ok (AddData scriptHash (AddOp OP_0 NewScriptBuilder)).

Definition payToBindingScriptHashScript (scriptHash1 scriptHash2 : bytes) : result bytes :=
  if negb (len scriptHash1 =? WitnessV0ScriptHashDataSize) ||
     (negb (len scriptHash2 =? OP_DATA_20) && negb (len scriptHash2 =? OP_DATA_22))
  then Err ErrWitnessProgramLength
  else Script_ok (AddData scriptHash2 (AddData scriptHash1 (AddOp OP_0 NewScriptBuilder))).

Definition payToStakingScriptHashScript (scriptHash : bytes) (frozenPeriod : Z) : result bytes :=
  if negb (len scriptHash =? WitnessV0ScriptHashDataSize) then Err ErrWitnessProgramLength
  else if negb (IsValidFrozenPeriod frozenPeriod) then Err ErrFrozenPeriod
  else Script_ok (AddData (le_encode 8 frozenPeriod) (AddData scriptHash (AddOp OP_0 NewScriptBuilder))).

Definition PushedData (script : bytes) : result (list (option bytes)) :=
  pops ← parse_ok script;
  Ret (concat (map (fun pop => match data pop with
                               | Some d => [Some d]
                               | None => if pop_value pop =? OP_0 then [None] else []
                               end) pops)).

Section addresses.
Context {BC : Btcec}.

Definition PayToStakingAddrScript (addr : option Address) (frozenPeriod : Z) : result bytes :=
  if negb (IsWitnessStakingAddress addr) then Err ErrUnsupportedAddress
  else a ← (match addr with Some a => Ret a | None => Panic end);
       payToStakingScriptHashScript (ScriptAddress a) frozenPeriod.

Definition PayToAddrScript (addr : option Address) : result bytes :=
  if negb (IsWitnessV0Address addr) then Err ErrUnsupportedAddress
  else a ← (match addr with Some a => Ret a | None => Panic end);
       payToWitnessScriptHashScript (ScriptAddress a).

Definition MultiSigScript (pubkeys : list AddressPubKey) (nrequired : Z) : result bytes :=
  if len pubkeys <? nrequired then Err ErrBadNumRequired
  else
    builder ← AddInt64 nrequired NewScriptBuilder;
    let builder := fold_left (fun b key => AddData (serialize key) b) pubkeys builder in
    builder ← AddInt64 (len pubkeys) builder;
    Script_ok (AddOp OP_CHECKMULTISIG builder).

(** The loop over the keys of a multisig script: [addr.PubKey()] is evaluated before the
    error of NewAddressPubKey is looked at. *)
Fixpoint multisig_addrs (pops : list parsedOpcode) (net : Params) (i : Z) (n : nat)
    : result (list Address * list PublicKey) :=
  match n with
  | O => Ret ([], [])
  | S n' =>
      pop ← index pops (i + 1);
      let r := NewAddressPubKey (pop_data pop) net in
      pk ← AddressPubKey_PubKey (match r with Ret a => Some a | _ => None end);
      '(addrs, pks) ← multisig_addrs pops net (i + 1) n';
      match r with
      | Ret addr => Ret (AddressPubKey_ addr :: addrs, pk :: pks)
      | _ => Ret (addrs, pks)
      end
  end.

Definition ok_addr {E} (r : outcome E Address) : list Address := match r with Ret a => [a] | _ => [] end.

(** Class, addresses, public keys, required signatures. *)
Definition ExtractPkScriptAddrs (pkScript : bytes) (net : Params)
    : result (ScriptClass * list Address * list PublicKey * Z) :=
  pops ← parse_ok pkScript;
  let scriptClass := typeOfScript pops in
  match scriptClass with
  | WitnessV0ScriptHashTy =>
      p1 ← index pops 1;
      Ret (scriptClass, ok_addr (NewAddressWitnessScriptHash (pop_data p1) net), [], 1)
  | StakingScriptHashTy =>
      p1 ← index pops 1;
      Ret (scriptClass, ok_addr (NewAddressStakingScriptHash (pop_data p1) net), [], 1)
  | BindingScriptHashTy =>
      p1 ← index pops 1;
      p2 ← index pops 2;
      let target := if len (pop_data p2) =? OP_DATA_20 then NewAddressPubKeyHash (pop_data p2) net
                    else NewAddressBindingTarget (pop_data p2) net in
      Ret (scriptClass, ok_addr (NewAddressWitnessScriptHash (pop_data p1) net) ++ ok_addr target, [], 1)
  | MultiSigTy =>
      p0 ← index pops 0;
      pn ← index pops (len pops - 2);
      '(addrs, pks) ← multisig_addrs pops net 0 (Z.to_nat (asSmallInt (opcode_of pn)));
      Ret (scriptClass, addrs, pks, asSmallInt (opcode_of p0))
  | NullDataTy | NonStandardTy => Ret (scriptClass, [], [], 0)
  end.
End addresses.

(** * Witness programs *)

Lemma index_cons_1 {E A} (x y : A) l : index (E := E) (x :: y :: l) 1 = Ret y.
Proof. done. Qed.
Lemma index_cons_2 {E A} (x y z : A) l : index (E := E) (x :: y :: z :: l) 2 = Ret z.
Proof. done. Qed.

(** Version 0, a 32-byte program and, for staking and binding outputs, an extension. *)
Definition program_script (h : bytes) (ext : option bytes) : bytes :=
  OP_0 :: OP_DATA_32 :: h ++ match ext with Some d => len d :: d | None => [] end.

Definition ext_pops (ext : option bytes) : list parsedOpcode :=
  match ext with Some d => [mkParsed (opcode_at (len d)) (Some d)] | None => [] end.

Definition program_pops (h : bytes) (ext : option bytes) : list parsedOpcode :=
  mkParsed (opcode_at OP_0) None :: mkParsed (opcode_at OP_DATA_32) (Some h) :: ext_pops ext.

Definition ext_ok (ext : option bytes) : Prop :=
  match ext with Some d => bytes_ok d /\ (len d = 8 \/ len d = 20 \/ len d = 22) | None => True end.

Lemma data_pop d : 1 <= len d <= 75 -> bytes_ok d ->
  pop_wf (mkParsed (opcode_at (len d)) (Some d)) /\
  parsedOpcode_bytes (mkParsed (opcode_at (len d)) (Some d)) = Ret (len d :: d).
Proof.
  intros Hl Hd. assert (is_byte (len d)) as Hb by (unfold is_byte; lia).
  pose proof (opcode_at_data (len d) Hl) as Hlen. split.
  - exists (len d). cbn [opcode_of data]. rewrite Hlen.
    replace (len d + 1 =? 1) with false by (symmetry; apply Z.eqb_neq; lia). eauto.
  - rewrite bytes_data by (done || lia). by rewrite Hlen, (proj2 (Z.eqb_eq _ _)) by lia.
Qed.

Lemma program_parse h ext :
  hash_ok h -> ext_ok ext -> parse_ok (program_script h ext) = Ret (program_pops h ext).
Proof.
  intros [Hl Hh] Hext. assert (len h = 32) as Hl' by (unfold len; lia).
  destruct (data_pop h ltac:(lia) Hh) as [Hw1 Hb1]. rewrite Hl' in Hw1, Hb1.
  assert (pop_wf (mkParsed (opcode_at OP_0) None)) as Hw0 by (exists OP_0; split; [vm_compute; split; congruence|done]).
  assert (Forall pop_wf (ext_pops ext) /\
    unparseScript (ext_pops ext) = Ret match ext with Some d => len d :: d | None => [] end) as [Hwe Hbe].
  { destruct ext as [d|]; [|done]. destruct Hext as [Hd Hdl]. destruct (data_pop d ltac:(lia) Hd) as [? Hb].
    split; [by apply Forall_singleton|]. cbn [ext_pops unparseScript]. rewrite Hb. cbn. by rewrite app_nil_r. }
  unfold parse_ok, parseScript, parseScriptTemplate.
  rewrite (parse_loop_unparse (program_pops h ext)); [done| | |lia].
  - apply Forall_cons. split; [done|]. by apply Forall_cons.
  - unfold program_pops, program_script. cbn [unparseScript].
    change (parsedOpcode_bytes (mkParsed (opcode_at OP_0) None)) with (Ret (E := script_error) [OP_0]).
    change OP_DATA_32 with 32. rewrite Hb1, Hbe. done.
Qed.


(** The builder on one instruction. *)
Lemma AddOp_step op b :
  err b = None -> len (script b) + 1 <= maxScriptSize -> AddOp op b = mkBuilder (script b ++ [op]) None.
Proof.
  intros He Hl. unfold AddOp. rewrite He, Z.gtb_ltb.
  replace (maxScriptSize <? len (script b) + 1) with false by (symmetry; apply Z.ltb_ge; lia).
  unfold set_script. by rewrite He.
Qed.

Lemma AddData_step d b :
  err b = None -> 2 <= len d <= 75 -> len (script b) + 1 + len d <= maxScriptSize ->
  AddData d b = mkBuilder (script b ++ len d :: d) None.
Proof.
  intros He Hd Hl. unfold AddData, canonicalDataSize, addData, MaxScriptElementSize, OP_PUSHDATA1, OP_DATA_1 in *. rewrite He.
  replace (len d =? 0) with false by (symmetry; apply Z.eqb_neq; lia).
  replace (len d =? 1) with false by (symmetry; apply Z.eqb_neq; lia).
  replace (len d <? 0x4c) with true by (symmetry; apply Z.ltb_lt; lia). cbn [andb orb].
  replace (len (script b) + (1 + len d) >? maxScriptSize) with false by (symmetry; rewrite Z.gtb_ltb; apply Z.ltb_ge; lia).
  replace (len d >? 520) with false by (symmetry; rewrite Z.gtb_ltb; apply Z.ltb_ge; lia).
  unfold set_script. rewrite He, wrapU_small by lia. by rewrite <- app_assoc.
Qed.

(** The programs the three builders produce. *)
Lemma payTo_program h :
  len h = 32 ->
  payToWitnessScriptHashScript h = Ret (program_script h None) /\
  (forall fp, IsValidFrozenPeriod fp = true ->
     payToStakingScriptHashScript h fp = Ret (program_script h (Some (le_encode 8 fp)))) /\
  (forall target, len target = 20 \/ len target = 22 ->
     payToBindingScriptHashScript h target = Ret (program_script h (Some target))).
Proof.
  intros Hl. unfold maxScriptSize in *.
  assert (AddData h (AddOp OP_0 NewScriptBuilder) = mkBuilder (OP_0 :: OP_DATA_32 :: h) None) as Hb.
  { rewrite AddOp_step by done. rewrite AddData_step by (cbn; unfold maxScriptSize; rewrite ?len_one; lia || done).
    cbn [script app]. by rewrite Hl. }
  assert (forall d, 8 <= len d <= 22 ->
    Script_ok (AddData d (AddData h (AddOp OP_0 NewScriptBuilder))) = Ret (program_script h (Some d))) as Hext.
  { intros d Hd. rewrite Hb, AddData_step; [|done|lia|cbn; rewrite !len_cons; unfold maxScriptSize; lia]. done. }
  split_and!.
  - unfold payToWitnessScriptHashScript. rewrite Hl, Hb. cbn. unfold program_script. by rewrite app_nil_r.
  - intros fp Hfp. unfold payToStakingScriptHashScript. rewrite Hl, Hfp. cbn [negb].
    apply Hext. unfold len. rewrite length_le_encode. lia.
  - intros tg Htg. unfold payToBindingScriptHashScript. rewrite Hl.
    assert (negb (len tg =? OP_DATA_20) && negb (len tg =? OP_DATA_22) = false) as -> by (by destruct Htg as [-> | ->]).
    apply Hext. lia.
Qed.

Lemma program_type h ext :
  typeOfScript (program_pops h ext) =
  match ext with
  | None => WitnessV0ScriptHashTy
  | Some d => if len d =? 8 then StakingScriptHashTy
              else if (len d =? 20) || (len d =? 22) then BindingScriptHashTy else typeOfScript (program_pops h ext)
  end.
Proof.
  destruct ext as [d|]; [|done]. destruct (Z.eqb_spec (len d) 8) as [H8|H8].
  { unfold program_pops. cbn [ext_pops]. by rewrite H8. }
  destruct (Z.eqb_spec (len d) 20) as [H20|H20].
  { unfold program_pops. cbn [ext_pops]. by rewrite H20. }
  destruct (Z.eqb_spec (len d) 22) as [H22|H22]; [|done].
  unfold program_pops. cbn [ext_pops]. by rewrite H22.
Qed.

Lemma program_info h ext :
  hash_ok h -> ext_ok ext -> GetScriptInfo (program_script h ext) = (typeOfScript (program_pops h ext), program_pops h ext).
Proof.
  intros Hh Hext. pose proof (program_parse h ext Hh Hext) as Hp. unfold parse_ok in Hp. unfold GetScriptInfo.
  destruct (parseScript _) as [pops [e|]]; [done|]. by simplify_eq.
Qed.

(** * Properties *)

(** the three output templates round-trip: the script built for a 32-byte script hash
    (with a valid frozen period, or a binding target of 20 or 22 bytes) is recognised as its
    class, and the hash, the frozen period and the target are read back from it. *)
Theorem template_roundtrip (h target : bytes) (frozenPeriod : Z) :
  hash_ok h -> IsValidFrozenPeriod frozenPeriod = true -> bytes_ok target -> len target = 20 \/ len target = 22 ->
  (exists s pops, payToWitnessScriptHashScript h = Ret s /\
     GetScriptInfo s = (WitnessV0ScriptHashTy, pops) /\ GetParsedOpcode pops WitnessV0ScriptHashTy = Ret (0, h)) /\
  (exists s pops, payToStakingScriptHashScript h frozenPeriod = Ret s /\
     GetScriptInfo s = (StakingScriptHashTy, pops) /\ GetParsedOpcode pops StakingScriptHashTy = Ret (frozenPeriod, h)) /\
  (exists s pops, payToBindingScriptHashScript h target = Ret s /\
     GetScriptInfo s = (BindingScriptHashTy, pops) /\ GetParsedOpcode pops BindingScriptHashTy = Ret (0, h) /\
     GetBindingScriptHash s = Ret (h, target)).
Proof.
  intros Hh Hfp Htg Hlen. assert (len h = 32) as Hl by (destruct Hh; unfold len; lia).
  destruct (payTo_program h Hl) as (P1 & P2 & P3).
  assert (ext_ok (Some (le_encode 8 frozenPeriod))) as Hext8
    by (split; [apply le_encode_ok|left; unfold len; by rewrite length_le_encode]).
  assert (ext_ok (Some target)) as Hextt by (split; [done|lia]).
  split_and!.
  - exists (program_script h None), (program_pops h None). rewrite program_info by done. split_and!; [done|done|].
    unfold GetParsedOpcode, program_pops. rewrite index_cons_1. cbn [mbind outcome_bind]. unfold pop_data. cbn [data]. by rewrite Hl.
  - exists (program_script h (Some (le_encode 8 frozenPeriod))), (program_pops h (Some (le_encode 8 frozenPeriod))).
    rewrite program_info, program_type by done. split_and!; [by apply P2|unfold len; by rewrite length_le_encode|].
    unfold GetParsedOpcode, program_pops. rewrite index_cons_1. cbn [mbind outcome_bind]. unfold pop_data. cbn [data].
    rewrite Hl. cbn [Z.eqb negb check mbind outcome_bind ext_pops]. rewrite index_cons_2. cbn [mbind outcome_bind data].
    rewrite slice_Ret by (unfold len; rewrite ?length_le_encode; lia). cbn [mbind outcome_bind]. rewrite drop_0, take_ge
      by (rewrite length_le_encode; done). rewrite le_decode_encode.
    unfold IsValidFrozenPeriod, MinFrozenPeriod, SequenceLockTimeMask in Hfp. bool_to_prop.
    change (256 ^ Z.of_nat 8) with (2 ^ 64). rewrite Z.mod_small by lia. done.
  - exists (program_script h (Some target)), (program_pops h (Some target)).
    rewrite program_info, program_type by done. split_and!; [by apply P3|by destruct Hlen as [-> | ->]| |].
    + unfold GetParsedOpcode, program_pops. rewrite index_cons_1. cbn [mbind outcome_bind]. unfold pop_data. cbn [data].
      rewrite Hl. cbn [Z.eqb negb check mbind outcome_bind ext_pops]. rewrite index_cons_2. cbn [mbind outcome_bind data].
      by destruct Hlen as [-> | ->].
    + unfold GetBindingScriptHash. rewrite program_parse by done. cbn [mbind outcome_bind].
      assert (isWitnessBindingScript (program_pops h (Some target)) = true) as ->
        by (unfold program_pops; cbn [ext_pops]; by destruct Hlen as [-> | ->]).
      unfold program_pops. by rewrite index_cons_1.
Qed.

Lemma template_roundtrip_witness :
  exists s pops, payToStakingScriptHashScript (replicate 32 7) 61440 = Ret s /\
     GetScriptInfo s = (StakingScriptHashTy, pops) /\ GetParsedOpcode pops StakingScriptHashTy = Ret (61440, replicate 32 7).
Proof.
  apply (template_roundtrip (replicate 32 7) (replicate 20 1) 61440);
    [split; [reflexivity|solve_bytes]|reflexivity|solve_bytes|left; reflexivity].
Defined.

(** ** Multisignature scripts *)

(** The push of a small number. *)
Definition small_op (n : Z) : parsedOpcode := plain_op (0x50 + n).

Lemma small_op_facts n :
  1 <= n <= 16 ->
  pop_wf (small_op n) /\ parsedOpcode_bytes (small_op n) = Ret [0x50 + n] /\ pop_value (small_op n) = 0x50 + n /\
  isSmallInt (opcode_of (small_op n)) = true /\ asSmallInt (opcode_of (small_op n)) = n.
Proof.
  intros Hn. assert (is_byte (0x50 + n)) as Hb by (unfold is_byte; lia).
  pose proof (small_int_length n Hn) as Hl. pose proof (opcode_at_value _ Hb) as Hv.
  split_and!.
  - by apply plain_op_wf.
  - by apply bytes_plain.
  - by apply pop_value_at.
  - unfold isSmallInt, small_op, plain_op. cbn [opcode_of]. rewrite Hv. unfold OP_0, OP_1, OP_16.
    apply orb_true_iff. right. rewrite Z.geb_leb, andb_true_iff, !Z.leb_le. lia.
  - unfold asSmallInt, small_op, plain_op. cbn [opcode_of]. rewrite Hv. unfold OP_0, OP_1.
    replace (0x50 + n =? 0) with false by (symmetry; apply Z.eqb_neq; lia). rewrite wrapU_small by lia. lia.
Qed.

Lemma AddInt64_small n b :
  1 <= n <= 16 -> err b = None -> len (script b) + 1 <= maxScriptSize ->
  AddInt64 n b = Ret (mkBuilder (script b ++ [0x50 + n]) None).
Proof.
  intros Hn He Hl. unfold AddInt64. rewrite He.
  replace (len (script b) + 1 >? maxScriptSize) with false by (symmetry; rewrite Z.gtb_ltb; apply Z.ltb_ge; lia).
  replace (n =? 0) with false by (symmetry; apply Z.eqb_neq; lia).
  replace ((n =? -1) || ((n >=? 1) && (n <=? 16))) with true
    by (symmetry; rewrite orb_true_iff, andb_true_iff, Z.geb_leb, !Z.leb_le; right; lia).
  unfold set_script. rewrite He. do 4 f_equal. unfold OP_1. rewrite wrapU_small by lia. lia.
Qed.

Definition key_bytes (ks : list bytes) : bytes := concat (map (fun k => len k :: k) ks).
Definition key_ok (k : bytes) : Prop := bytes_ok k /\ (len k = 33 \/ len k = 65).

Lemma AddData_keys ks : forall b,
  Forall key_ok ks -> err b = None -> len (script b) + 66 * len ks <= maxScriptSize ->
  fold_left (fun b k => AddData k b) ks b = mkBuilder (script b ++ key_bytes ks) None.
Proof.
  induction ks as [|k ks IH]; intros b Hks He Hl.
  { cbn. rewrite app_nil_r. destruct b. cbn in *. by subst. }
  apply Forall_cons in Hks as [[_ Hk] Hks]. rewrite len_cons in Hl. cbn [fold_left]. pose proof (len_nonneg ks).
  rewrite AddData_step by (done || lia). rewrite IH; [|done|done|cbn [script]; rewrite len_app, len_cons; lia].
  cbn [script key_bytes map concat]. by rewrite <- app_assoc.
Qed.

(** The script [n <keys> m OP_CHECKMULTISIG] and its opcodes. *)
Definition multisig_script (n : Z) (ks : list bytes) : bytes :=
  [0x50 + n] ++ key_bytes ks ++ [0x50 + len ks; OP_CHECKMULTISIG].
Definition multisig_pops (n : Z) (ks : list bytes) : list parsedOpcode :=
  small_op n :: map (fun k => mkParsed (opcode_at (len k)) (Some k)) ks ++ [small_op (len ks); plain_op OP_CHECKMULTISIG].

Lemma unparse_keys ks : Forall key_ok ks ->
  Forall pop_wf (map (fun k => mkParsed (opcode_at (len k)) (Some k)) ks) /\
  unparseScript (map (fun k => mkParsed (opcode_at (len k)) (Some k)) ks) = Ret (key_bytes ks).
Proof.
  induction 1 as [|k ks [Hk Hl] _ [IH1 IH2]]; [split; [constructor|done]|].
  destruct (data_pop k ltac:(lia) Hk) as [Hw Hb]. split; [by constructor|]. by apply unparse_cons.
Qed.

Lemma multisig_parse n ks :
  1 <= n <= 16 -> 1 <= len ks <= 16 -> Forall key_ok ks -> parse_ok (multisig_script n ks) = Ret (multisig_pops n ks).
Proof.
  intros Hn Hl Hks. destruct (unparse_keys ks Hks) as [Hw Hu].
  destruct (small_op_facts n Hn) as (Wn & Bn & _). destruct (small_op_facts (len ks) Hl) as (Wm & Bm & _).
  assert (pop_wf (plain_op OP_CHECKMULTISIG)) as Wc by (apply plain_op_wf; [unfold is_byte, OP_CHECKMULTISIG; lia|reflexivity]).
  unfold parse_ok, parseScript, parseScriptTemplate.
  rewrite (parse_loop_unparse (multisig_pops n ks)); [done| | |lia].
  - apply Forall_cons. split; [done|]. apply Forall_app. split; [done|]. apply Forall_cons. split; [done|]. by apply Forall_singleton.
  - unfold multisig_pops, multisig_script. cbn [app]. eapply unparse_cons in Bn; [exact Bn|].
    apply unparse_app; [done|]. cbn [unparseScript]. rewrite Bm. reflexivity.
Qed.

Lemma isMultiSig_shape first mid a b :
  mid <> [] -> isSmallInt (opcode_of first) = true -> isSmallInt (opcode_of a) = true ->
  pop_value b = OP_CHECKMULTISIG -> asSmallInt (opcode_of a) = len mid ->
  Forall (fun p => len (pop_data p) = 33 \/ len (pop_data p) = 65) mid ->
  isMultiSig (first :: mid ++ [a; b]) = true.
Proof.
  intros Hm Hf Ha Hb Hn Hk. unfold isMultiSig.
  assert (length (first :: mid ++ [a; b]) = length mid + 3)%nat as Hl by (cbn; rewrite length_app; cbn; lia). rewrite Hl.
  assert (1 <= length mid)%nat by (destruct mid; [done|cbn; lia]).
  replace (Z.of_nat (length mid + 3) <? 4) with false by (symmetry; apply Z.ltb_ge; lia).
  replace (length mid + 3 - 2)%nat with (S (length mid)) by lia.
  replace (length mid + 3 - 1)%nat with (S (length mid + 1)) by lia.
  replace (length mid + 3 - 3)%nat with (length mid) by lia. cbn [drop].
  assert ((first :: mid ++ [a; b]) !! S (length mid) = Some a) as -> by (change ((mid ++ [a; b]) !! length mid = Some a); apply lookup_app_mid).
  assert ((first :: mid ++ [a; b]) !! S (length mid + 1) = Some b) as ->.
  { change ((mid ++ [a; b]) !! (length mid + 1)%nat = Some b). rewrite lookup_app_r by lia.
    by replace (length mid + 1 - length mid)%nat with 1%nat by lia. }
  rewrite Hf, Ha, Hb, Hn. cbn [negb]. change (OP_CHECKMULTISIG =? OP_CHECKMULTISIG) with true. cbn [negb].
  replace (Z.of_nat (length mid + 3) - 2 - 1 =? len mid) with true by (symmetry; apply Z.eqb_eq; unfold len; lia).
  cbn [negb]. rewrite drop_0, take_app_length. apply forallb_forall. intros p Hp%list_elem_of_In.
  rewrite Forall_forall in Hk. apply orb_true_iff. rewrite !Z.eqb_eq. by apply Hk.
Qed.

Lemma multisig_shape_ok n ks :
  1 <= n <= 16 -> 1 <= len ks <= 16 -> Forall key_ok ks -> isMultiSig (multisig_pops n ks) = true.
Proof.
  intros Hn Hl Hks. destruct (small_op_facts n Hn) as (_ & _ & _ & Sn & _).
  destruct (small_op_facts (len ks) Hl) as (_ & _ & _ & Sm & Vm). apply isMultiSig_shape; try done.
  - by destruct ks.
  - rewrite Vm. unfold len. by rewrite length_map.
  - apply Forall_map. eapply Forall_impl; [exact Hks|]. by intros k [_ ?].
Qed.

Lemma multisig_type n ks :
  1 <= n <= 16 -> 1 <= len ks <= 16 -> Forall key_ok ks -> typeOfScript (multisig_pops n ks) = MultiSigTy.
Proof.
  intros Hn Hl Hks. destruct (small_op_facts n Hn) as (_ & _ & Vn & _). unfold typeOfScript.
  rewrite (multisig_shape_ok n ks) by done.
  assert (pop_value (small_op n) =? OP_0 = false) as Hz by (rewrite Vn; apply Z.eqb_neq; unfold OP_0; lia).
  unfold isWitnessScriptHash, isWitnessStakingScript, isWitnessBindingScript, multisig_pops.
  destruct (map _ ks ++ _) as [|p1 [|p2 [|p3 ?]]]; rewrite ?Hz; done.
Qed.

(** Counting: pushes are not signature operations; OP_CHECKMULTISIG counts its keys. *)
Lemma sigops_skip precise prev pop pops n :
  pop_value pop < OP_CHECKSIG -> sigops_loop precise prev (pop :: pops) n = sigops_loop precise (Some pop) pops n.
Proof.
  unfold OP_CHECKSIG. intros H. cbn [sigops_loop].
  unfold OP_CHECKSIG, OP_CHECKSIGVERIFY, OP_CHECKMULTISIG, OP_CHECKMULTISIGVERIFY.
  by repeat match goal with |- context [pop_value pop =? ?c] =>
    replace (pop_value pop =? c) with false by (symmetry; apply Z.eqb_neq; lia) end.
Qed.

Lemma sigops_keys ks : Forall key_ok ks -> forall prev rest acc,
  exists prev', sigops_loop true prev (map (fun k => mkParsed (opcode_at (len k)) (Some k)) ks ++ rest) acc =
  sigops_loop true prev' rest acc.
Proof.
  induction 1 as [|k ks [Hk Hl] _ IH]; intros prev rest acc; [by exists prev|]. cbn [map app].
  assert (pop_value (mkParsed (opcode_at (len k)) (Some k)) = len k) as Hv by (apply pop_value_at; unfold is_byte; lia).
  rewrite sigops_skip by (rewrite Hv; unfold OP_CHECKSIG; lia). apply IH.
Qed.

Lemma multisig_sigops n ks :
  1 <= n <= 16 -> 1 <= len ks <= 16 -> Forall key_ok ks -> getSigOpCount (multisig_pops n ks) true = len ks.
Proof.
  intros Hn Hl Hks. destruct (small_op_facts n Hn) as (_ & _ & Vn & _).
  destruct (small_op_facts (len ks) Hl) as (_ & _ & Vm & _ & Am).
  unfold getSigOpCount, multisig_pops. rewrite sigops_skip by (rewrite Vn; unfold OP_CHECKSIG; lia).
  destruct (sigops_keys ks Hks (Some (small_op n)) [small_op (len ks); plain_op OP_CHECKMULTISIG] 0) as [prev' ->].
  rewrite sigops_skip by (rewrite Vm; unfold OP_CHECKSIG; lia). cbn [sigops_loop].
  change (pop_value (plain_op OP_CHECKMULTISIG)) with 0xae. rewrite Vm, Am.
  unfold OP_CHECKSIG, OP_CHECKSIGVERIFY, OP_CHECKMULTISIG, OP_CHECKMULTISIGVERIFY, OP_1, OP_16. closed_tests.
  replace (0x50 + len ks >=? 0x51) with true by (symmetry; rewrite Z.geb_leb; apply Z.leb_le; lia).
  replace (0x50 + len ks <=? 0x60) with true by (symmetry; apply Z.leb_le; lia). cbn [andb orb]. lia.
Qed.

Lemma multisig_len n ks : len (multisig_pops n ks) = len ks + 3.
Proof.
  unfold multisig_pops. rewrite len_cons, len_app, !len_cons. change (len (@nil parsedOpcode)) with 0.
  unfold len. rewrite length_map. lia.
Qed.

(** The second opcode from the end holds the number of keys. *)
Lemma multisig_numkeys n ks :
  index (E := script_error) (multisig_pops n ks) (len (multisig_pops n ks) - 2) = Ret (small_op (len ks)).
Proof.
  apply index_Ret. rewrite multisig_len. split; [unfold len; lia|].
  replace (Z.to_nat (len ks + 3 - 2)) with (S (length ks)) by (unfold len; lia).
  change ((map (fun k => mkParsed (opcode_at (len k)) (Some k)) ks ++ [small_op (len ks); plain_op OP_CHECKMULTISIG]) !! length ks = Some (small_op (len ks))).
  rewrite <- (length_map (fun k => mkParsed (opcode_at (len k)) (Some k)) ks). apply lookup_app_mid.
Qed.

Section multisig.
Context {BC : Btcec}.

(** MultiSigScript builds what the classifier and the counters expect: for at most 16
    keys, each serialised to 33 or 65 bytes, and a number of required signatures between 1
    and the number of keys, the script is a multisig script, CalcMultiSigStats reads back
    both numbers and GetSigOpCount counts one signature operation per key. *)
Theorem multisig_template (keys : list AddressPubKey) (nrequired : Z) :
  1 <= nrequired <= len keys -> len keys <= 16 ->
  Forall (fun k => bytes_ok (serialize k) /\ (len (serialize k) = 33 \/ len (serialize k) = 65)) keys ->
  exists s, MultiSigScript keys nrequired = Ret s /\ GetScriptClass s = MultiSigTy /\
    CalcMultiSigStats s = Ret (len keys, nrequired) /\ GetSigOpCount s = len keys.
Proof.
  intros Hn Hl Hks. set (ks := map serialize keys).
  assert (Forall key_ok ks) as Hks' by (by apply Forall_map).
  assert (len ks = len keys) as Hlk by (unfold ks, len; by rewrite length_map).
  assert (1 <= nrequired <= 16 /\ 1 <= len ks <= 16) as [Hn' Hl'] by lia.
  pose proof (multisig_parse nrequired ks Hn' Hl' Hks') as Hp.
  assert (parseScript (multisig_script nrequired ks) = (multisig_pops nrequired ks, None)) as Hps.
  { unfold parse_ok in Hp. destruct (parseScript _) as [? [?|]]; [done|]. by simplify_eq. }
  exists (multisig_script nrequired ks). split_and!.
  - unfold MultiSigScript. replace (len keys <? nrequired) with false by (symmetry; apply Z.ltb_ge; lia).
    rewrite AddInt64_small by done. cbn [mbind outcome_bind].
    assert (forall b, fold_left (fun b key => AddData (serialize key) b) keys b = fold_left (fun b k => AddData k b) ks b) as ->.
    { unfold ks. clear. induction keys as [|k keys IH]; intros b; [done|]. cbn. apply IH. }
    rewrite AddData_keys by (done || (cbn; rewrite ?len_one; unfold maxScriptSize; lia)). cbn [script app NewScriptBuilder].
    assert (len (key_bytes ks) <= 66 * len ks) as Hkl.
    { clear - Hks'. induction Hks' as [|k ks [_ Hk] _ IH]; [done|]. unfold key_bytes in *. cbn [map concat].
      rewrite len_app, !len_cons. lia. }
    rewrite AddInt64_small by (done || (cbn [script]; rewrite ?len_cons; unfold maxScriptSize; lia)).
    cbn [mbind outcome_bind]. rewrite AddOp_step by (done || (cbn [script]; rewrite len_app, len_cons, len_one; unfold maxScriptSize; lia)).
    unfold Script_ok. cbn [Script_ script err]. f_equal. unfold multisig_script. rewrite Hlk. cbn [app]. by rewrite <- app_assoc.
  - unfold GetScriptClass. rewrite Hps. by apply multisig_type.
  - unfold CalcMultiSigStats. rewrite Hp. cbn [mbind outcome_bind].
    replace (len (multisig_pops nrequired ks) <? 4) with false by (symmetry; apply Z.ltb_ge; rewrite multisig_len; lia).
    change (index (multisig_pops nrequired ks) 0) with (Ret (E := script_error) (small_op nrequired)). cbn [mbind outcome_bind].
    rewrite multisig_numkeys.
    cbn [mbind outcome_bind]. destruct (small_op_facts nrequired Hn') as (_ & _ & _ & _ & ->).
    destruct (small_op_facts (len ks) Hl') as (_ & _ & _ & _ & ->). by rewrite Hlk.
  - unfold GetSigOpCount. rewrite Hps. cbn [fst]. by rewrite multisig_sigops, Hlk by done.
Qed.
End multisig.

Lemma multisig_template_witness :
  let key x := mkAddressPubKey (BC := Toy.btcec) PKFCompressed (2 :: replicate 32 x) 0 in
  exists s, MultiSigScript (BC := Toy.btcec) [key 7; key 8; key 9] 2 = Ret s /\ GetScriptClass s = MultiSigTy /\
    CalcMultiSigStats s = Ret (3, 2) /\ GetSigOpCount s = 3.
Proof.
  intros key. apply (multisig_template (BC := Toy.btcec) [key 7; key 8; key 9] 2);
    [split; vm_compute; discriminate|vm_compute; discriminate|].
  repeat (apply Forall_cons; split; [split; [solve_bytes|left; reflexivity]|]). apply Forall_nil_2.
Defined.

(** ** Addresses *)

Section address_roundtrip.
Context {BC : Btcec}.

(** scripts and addresses determine each other.  The address extracted from a
    pay-to-witness-script-hash output rebuilds that output, the one extracted from a staking
    output rebuilds it given the frozen period, and a binding output yields its holder's
    address and, for a 20-byte target, the public key hash it is bound to; one signature is
    required of each. *)
Theorem address_roundtrip (net : Params) (h target : bytes) (fp : Z) :
  hash_ok h -> IsValidFrozenPeriod fp = true -> bytes_ok target -> len target = 20 ->
  (exists a, ExtractPkScriptAddrs (program_script h None) net = Ret (WitnessV0ScriptHashTy, [a], [], 1) /\
     PayToAddrScript (Some a) = Ret (program_script h None)) /\
  (exists a, ExtractPkScriptAddrs (program_script h (Some (le_encode 8 fp))) net = Ret (StakingScriptHashTy, [a], [], 1) /\
     PayToStakingAddrScript (Some a) fp = Ret (program_script h (Some (le_encode 8 fp))) /\
     is_Err (PayToAddrScript (Some a))) /\
  (exists holder t, ExtractPkScriptAddrs (program_script h (Some target)) net = Ret (BindingScriptHashTy, [holder; t], [], 1) /\
     PayToAddrScript (Some holder) = Ret (program_script h None) /\
     IsValidBindingTarget (Some t) = true /\ ScriptAddress t = target).
Proof.
  intros Hh Hfp Htg Hlen. assert (len h = 32) as Hl by (destruct Hh; unfold len; lia).
  destruct (payTo_program h Hl) as (P1 & P2 & _).
  assert (len (le_encode 8 fp) = 8) as Hl8 by (unfold len; by rewrite length_le_encode).
  assert (ext_ok (Some (le_encode 8 fp))) as Hext8 by (split; [apply le_encode_ok|by left]).
  assert (ext_ok (Some target)) as Hextt by (split; [done|lia]).
  unfold ExtractPkScriptAddrs, NewAddressWitnessScriptHash, NewAddressStakingScriptHash, newAddressWitnessScriptHash, NewAddressPubKeyHash, newAddressPubKeyHash.
  split_and!.
  - rewrite program_parse by done. cbn [mbind outcome_bind]. rewrite program_type. unfold program_pops. rewrite index_cons_1.
    cbn [mbind outcome_bind]. unfold pop_data. cbn [data default id from_option]. rewrite Hl. eexists. split; [reflexivity|]. exact P1.
  - rewrite program_parse by done. cbn [mbind outcome_bind]. rewrite program_type, Hl8. cbn [Z.eqb Pos.eqb].
    unfold program_pops. rewrite index_cons_1.
    cbn [mbind outcome_bind]. unfold pop_data. cbn [data default id from_option]. rewrite Hl. eexists. split; [reflexivity|].
    split; [by apply P2|by eexists].
  - rewrite program_parse by done. cbn [mbind outcome_bind]. rewrite program_type, Hlen. cbn [Z.eqb Pos.eqb orb].
    unfold program_pops. cbn [ext_pops]. rewrite index_cons_1, index_cons_2.
    cbn [mbind outcome_bind]. unfold pop_data. cbn [data default id from_option]. rewrite Hl, Hlen.
    do 2 eexists. split; [reflexivity|]. done.
Qed.
End address_roundtrip.

Lemma address_roundtrip_witness :
  exists a, ExtractPkScriptAddrs (BC := Toy.btcec) (program_script (replicate 32 7) None) (mkParams "ms" 0 5) =
      Ret (WitnessV0ScriptHashTy, [a], [], 1) /\
    PayToAddrScript (Some a) = Ret (program_script (replicate 32 7) None).
Proof.
  apply (address_roundtrip (BC := Toy.btcec) (mkParams "ms" 0 5) (replicate 32 7) (replicate 20 1) 61440);
    [split; [reflexivity|solve_bytes]|reflexivity|solve_bytes|reflexivity].
Defined.

(** ** What the readers of an output do not handle *)

(** [CalcScriptInfo] indexes the last witness item without looking at the number of items:
    with an empty witness it fails exactly as an out-of-range access on every output script
    that parses, whatever its class. *)
Theorem CalcScriptInfo_empty_witness (pkScript : bytes) :
  CalcScriptInfo pkScript [] = Panic <-> exists pops, parse_ok pkScript = Ret pops.
Proof.
  unfold CalcScriptInfo. split.
  - destruct (parse_ok pkScript) eqn:Hp; [eauto|done|]. unfold parse_ok in Hp. by destruct (parseScript pkScript) as [? [?|]].
  - intros [pops ->]. cbn [mbind outcome_bind].
    assert (exists n, expectedInputs pops (typeOfScript pops) = Ret n) as [n ->]; [|done].
    unfold expectedInputs. destruct (typeOfScript pops) eqn:Ht; eauto. destruct pops as [|p pops]; [done|]. by eexists.
Qed.

(** The name of a script class is found for every class; the guard of
    [ScriptClass.String] lets one value past the table. *)
Theorem ScriptClass_String_domain (t : Z) :
  (0 <= t <= 5 -> exists name, ScriptClass_String t = Ret name /\ scriptClassToName !! Z.to_nat t = Some name) /\
  (t < 0 \/ 6 < t -> ScriptClass_String t = Ret "Invalid"%string) /\
  (t = 6 -> ScriptClass_String t = Panic).
Proof.
  unfold ScriptClass_String. change (len scriptClassToName) with 6. rewrite Z.gtb_ltb. split_and!.
  - intros Ht. assert (6 <? t = false /\ t <? 0 = false) as [-> ->] by (split; apply Z.ltb_ge; lia). cbn [orb].
    assert (exists name, scriptClassToName !! Z.to_nat t = Some name) as [name Hn]
      by (apply lookup_lt_is_Some; cbn; lia).
    exists name. split; [|done]. apply index_Ret. split; [lia|done].
  - intros Ht. assert ((6 <? t) || (t <? 0) = true) as -> by (rewrite orb_true_iff, !Z.ltb_lt; lia). done.
  - by intros ->.
Qed.

(** the signature operations of a witness script are counted for a plain witness output,
    and not at all for a staking or binding output, whose script is longer than the 42 bytes
    [IsWitnessProgram] admits. *)
Theorem witness_sigops_counted (h w : bytes) (d : bytes) (ws : list bytes) :
  hash_ok h -> bytes_ok d -> len d = 8 \/ len d = 20 \/ len d = 22 ->
  GetWitnessSigOpCount (program_script h None) (ws ++ [w]) = GetSigOpCount w /\
  GetWitnessSigOpCount (program_script h (Some d)) (ws ++ [w]) = 0.
Proof.
  intros Hh Hd Hl. assert (len h = 32) as Hl' by (destruct Hh; unfold len; lia).
  unfold GetWitnessSigOpCount, IsWitnessProgram. split.
  - assert (len (program_script h None) = 34) as -> by (unfold program_script; rewrite app_nil_r, !len_cons; lia).
    closed_tests. unfold with_parsed, getWitnessSigOps, ExtractWitnessProgramInfo.
    pose proof (program_parse h None Hh I) as Hp. rewrite Hp. unfold parse_ok in Hp.
    destruct (parseScript (program_script h None)) as [? [?|]]; [done|]. simplify_eq.
    assert (isWitnessProgram (program_pops h None) = true) as Hw.
    { unfold isWitnessProgram, program_pops. cbn [ext_pops]. unfold canonicalPush.
      change (pop_data (mkParsed (opcode_at OP_DATA_32) (Some h))) with h. rewrite Hl'.
      by change (pop_value (mkParsed (opcode_at OP_DATA_32) (Some h))) with OP_DATA_32. }
    rewrite Hw. cbn [mbind outcome_bind]. unfold extractWitnessProgramInfo. rewrite Hw. cbn [negb andb].
    unfold program_pops. change (index _ 0) with (Ret (E := script_error) (mkParsed (opcode_at OP_0) None)). rewrite index_cons_1.
    cbn [mbind outcome_bind ext_pops data opcode_of].
    match goal with |- context [slice ?l 2 (len ?l)] => change (slice l 2 (len l)) with (Ret (E := script_error) (@nil parsedOpcode)) end.
    cbn [mbind outcome_bind]. change (asSmallInt (opcode_at OP_0) =? 0) with true. cbn [default from_option id].
    rewrite Hl'. change (32 =? WitnessV0ScriptHashDataSize) with true. cbn [andb].
    replace (len (ws ++ [w]) >? 0) with true by (symmetry; rewrite Z.gtb_ltb; apply Z.ltb_lt; rewrite len_app, len_one; unfold len; lia).
    by rewrite last_last.
  - replace (len (program_script h (Some d)) >? 42) with true; [by rewrite orb_true_r|].
    symmetry. rewrite Z.gtb_ltb. apply Z.ltb_lt. unfold program_script. rewrite !len_cons, len_app, len_cons. lia.
Qed.

Lemma witness_sigops_counted_witness :
  GetWitnessSigOpCount (program_script (replicate 32 7) None) ([[1]] ++ [[OP_CHECKSIG]]) = GetSigOpCount [OP_CHECKSIG] /\
  GetWitnessSigOpCount (program_script (replicate 32 7) (Some (replicate 8 1))) ([[1]] ++ [[OP_CHECKSIG]]) = 0.
Proof.
  apply (witness_sigops_counted (replicate 32 7) [OP_CHECKSIG] (replicate 8 1) [[1]]);
    [split; [reflexivity|solve_bytes]|solve_bytes|left; reflexivity].
Defined.

Section multisig_addresses.
Context {BC : Btcec}.

(** The loop over the keys, started anywhere in the script. *)
Lemma multisig_addrs_keys net ks : Forall key_ok ks -> forall pre rest i, i = len pre - 1 ->
  let r := multisig_addrs (pre ++ map (fun k => mkParsed (opcode_at (len k)) (Some k)) ks ++ rest) net i (length ks) in
  (Forall (fun k => ParsePubKey k <> None) ks ->
     exists addrs pks, r = Ret (addrs, pks) /\ map Some pks = map ParsePubKey ks /\ length addrs = length ks) /\
  (List.Exists (fun k => ParsePubKey k = None) ks -> r = Panic).
Proof.
  induction 1 as [|k ks [Hk Hl] _ IH]; intros pre rest i Hi r; subst r; cbn [length map multisig_addrs].
  { split; [by exists [], []|]. intros HE. inversion HE. }
  set (kp := mkParsed (opcode_at (len k)) (Some k)).
  assert (index (E := script_error) (pre ++ (kp :: map (fun k => mkParsed (opcode_at (len k)) (Some k)) ks) ++ rest) (i + 1) = Ret kp) as ->.
  { apply index_Ret. split; [unfold len in *; lia|]. replace (Z.to_nat (i + 1)) with (length pre) by (unfold len in *; lia).
    cbn [app]. apply lookup_app_mid. }
  cbn [mbind outcome_bind]. change (pop_data kp) with k. unfold NewAddressPubKey.
  destruct (IH (pre ++ [kp]) rest (i + 1)) as [IHok IHbad]; [rewrite len_app, len_one; lia|].
  rewrite <- app_assoc in IHok, IHbad. cbn [app] in IHok, IHbad |- *.
  destruct (ParsePubKey k) as [pk|] eqn:Hp; cbn [AddressPubKey_PubKey mbind outcome_bind].
  - destruct k as [|b k]; [by destruct Hl|]. change (index (b :: k) 0) with (Ret (E := address_error) b).
    cbn [mbind outcome_bind AddressPubKey_PubKey pubKey]. split.
    + intros [_ Hks]%Forall_cons. destruct (IHok Hks) as (addrs & pks & -> & Hm & Hla). cbn [mbind outcome_bind].
      do 2 eexists. split; [reflexivity|]. cbn [map length]. rewrite Hm, Hla. done.
    + intros HE. inversion HE as [? ? Hn|? ? Hex]; subst; [congruence|]. rewrite IHbad by done. done.
  - split; [|done]. intros [? _]%Forall_cons. done.
Qed.

(** reading a multisignature output back.  With keys that parse, [ExtractPkScriptAddrs]
    returns them all, in order, with the number of signatures required; one key of the right
    length that does not parse stops it with a nil dereference, although the loop means to
    skip such keys. *)
Theorem multisig_addresses (net : Params) (n : Z) (ks : list bytes) :
  1 <= n <= 16 -> 1 <= len ks <= 16 -> Forall key_ok ks ->
  (Forall (fun k => ParsePubKey k <> None) ks ->
     exists addrs pks, ExtractPkScriptAddrs (multisig_script n ks) net = Ret (MultiSigTy, addrs, pks, n) /\
       map Some pks = map ParsePubKey ks /\ len addrs = len ks) /\
  (List.Exists (fun k => ParsePubKey k = None) ks -> ExtractPkScriptAddrs (multisig_script n ks) net = Panic).
Proof.
  intros Hn Hl Hks. unfold ExtractPkScriptAddrs. rewrite multisig_parse by done. cbn [mbind outcome_bind].
  rewrite multisig_type by done. destruct (small_op_facts n Hn) as (_ & _ & _ & _ & An).
  destruct (small_op_facts (len ks) Hl) as (_ & _ & _ & _ & Am).
  change (index (multisig_pops n ks) 0) with (Ret (E := script_error) (small_op n)). cbn [mbind outcome_bind].
  rewrite multisig_numkeys. cbn [mbind outcome_bind]. rewrite An, Am.
  replace (Z.to_nat (len ks)) with (length ks) by (unfold len; lia).
  destruct (multisig_addrs_keys net ks Hks [small_op n] [small_op (len ks); plain_op OP_CHECKMULTISIG] 0 eq_refl) as [Hok Hbad].
  unfold multisig_pops. cbn [app] in *. split.
  - intros (addrs & pks & -> & Hm & Hla)%Hok. cbn [mbind outcome_bind]. exists addrs, pks. split_and!; [done|done|].
    unfold len. by rewrite Hla.
  - intros ->%Hbad. done.
Qed.
End multisig_addresses.

Lemma multisig_addresses_witness :
  ExtractPkScriptAddrs (BC := Toy.btcec) (multisig_script 1 [2 :: replicate 32 7; 4 :: replicate 64 7]) (mkParams "ms" 0 5) = Panic.
Proof.
  apply (proj2 (multisig_addresses (BC := Toy.btcec) (mkParams "ms" 0 5) 1 [2 :: replicate 32 7; 4 :: replicate 64 7]
    ltac:(lia) ltac:(vm_compute; split; discriminate)
    ltac:(apply Forall_cons; split; [split; [solve_bytes|left; reflexivity]|];
          apply Forall_cons; split; [split; [solve_bytes|right; reflexivity]|apply Forall_nil_2]))).
  apply Exists_cons_tl, Exists_cons_hd. reflexivity.
Defined.
