(* ===== verification/Engine.v ===== *)
(** The script engine: txscript/engine.go and the opcode handlers of txscript/opcode.go.

    [Engine] is the Go struct; a method is a state-passing program ([method Engine A]) that
    keeps the engine's state when it fails, as the Go methods do.  The table of opcodes names
    its handlers by tags (Opcodes.v); [opfunc_of] maps a tag to the handler.  Logging and
    disassembly, which read the state only, are left out. *)

From S2P Require Import Prelude TxCommon ScriptNum Stack Opcodes Script Builder Hashes Wire SigHash SigCache.

Record Engine := mkEngine {
  scripts : list (list parsedOpcode);
  scriptIdx : Z;
  scriptOff : Z;
  lastCodeSep : Z;
  dstack : stack;
  astack : stack;
  tx : MsgTx;
  txIdx : Z;
  condStack : list Z;
  numOps : Z;
  flags : Z;
  sigCache : option SigCache;
  hashCache : option TxSigHashes;
  witnessVersion : Z;
  witnessProgram : option bytes;
  witnessExtProg : list parsedOpcode;
  inputAmount : Z
}.

Section setters.
Context (vm : Engine).
Let mk sc si so cs ds als cd no sg :=
  mkEngine sc si so cs ds als (tx vm) (txIdx vm) cd no (flags vm) sg (hashCache vm)
    (witnessVersion vm) (witnessProgram vm) (witnessExtProg vm) (inputAmount vm).

Definition set_scripts x := mk x (scriptIdx vm) (scriptOff vm) (lastCodeSep vm) (dstack vm) (astack vm) (condStack vm) (numOps vm) (sigCache vm).
Definition set_scriptIdx x := mk (scripts vm) x (scriptOff vm) (lastCodeSep vm) (dstack vm) (astack vm) (condStack vm) (numOps vm) (sigCache vm).
Definition set_scriptOff x := mk (scripts vm) (scriptIdx vm) x (lastCodeSep vm) (dstack vm) (astack vm) (condStack vm) (numOps vm) (sigCache vm).
Definition set_lastCodeSep x := mk (scripts vm) (scriptIdx vm) (scriptOff vm) x (dstack vm) (astack vm) (condStack vm) (numOps vm) (sigCache vm).
Definition set_dstack x := mk (scripts vm) (scriptIdx vm) (scriptOff vm) (lastCodeSep vm) x (astack vm) (condStack vm) (numOps vm) (sigCache vm).
Definition set_astack x := mk (scripts vm) (scriptIdx vm) (scriptOff vm) (lastCodeSep vm) (dstack vm) x (condStack vm) (numOps vm) (sigCache vm).
Definition set_condStack x := mk (scripts vm) (scriptIdx vm) (scriptOff vm) (lastCodeSep vm) (dstack vm) (astack vm) x (numOps vm) (sigCache vm).
Definition set_numOps x := mk (scripts vm) (scriptIdx vm) (scriptOff vm) (lastCodeSep vm) (dstack vm) (astack vm) (condStack vm) x (sigCache vm).
Definition set_sigCache x := mk (scripts vm) (scriptIdx vm) (scriptOff vm) (lastCodeSep vm) (dstack vm) (astack vm) (condStack vm) (numOps vm) x.
End setters.

(** Methods of the two stacks. *)
Definition on_d {A} (c : method stack A) : method Engine A := zoom dstack set_dstack c.
Definition on_a {A} (c : method stack A) : method Engine A := zoom astack set_astack c.

Definition dPop : method Engine bytes := on_d PopByteArray.
Definition dPopInt : method Engine Z := on_d PopInt.
Definition dPopBool : method Engine bool := on_d PopBool.
Definition dPeek (idx : Z) : method Engine bytes := on_d (PeekByteArray idx).
Definition dPush (b : bytes) : method Engine unit := on_d (PushByteArray b).
Definition dPushInt (n : Z) : method Engine unit := on_d (PushInt n).
Definition dPushBool (b : bool) : method Engine unit := on_d (PushBool b).

(** * Queries *)

Definition addScript (script : list parsedOpcode) : method Engine unit :=
  modify (fun vm => set_scripts vm (scripts vm ++ [script])).

Definition hasFlag (vm : Engine) (flag : Z) : bool := Z.land (flags vm) flag =? flag.

Definition isBranchExecuting (vm : Engine) : bool :=
  match condStack vm with
  | [] => true
  | _ => List.last (condStack vm) 0 =? OpCondTrue
  end.

Definition isWitnessVersionActive (vm : Engine) (version : Z) : bool :=
  match witnessProgram vm with Some _ => uint64 (witnessVersion vm) =? version | None => false end.

Definition validPC : method Engine unit := fun vm =>
  if scriptIdx vm >=? len (scripts vm) then
    (Err (ErrPastInputScripts (scriptIdx vm) (scriptOff vm)), vm)
  else
    match index (scripts vm) (scriptIdx vm) with
    | Ret s => if scriptOff vm >=? len s
               then (Err (ErrPastInputScripts (scriptIdx vm) (scriptOff vm)), vm)
               else (Ret tt, vm)
    | Err e => (Err e, vm)
    | Panic => (Panic, vm)
    end.

Definition curPC : method Engine (Z * Z) :=
  validPC;; gets (fun vm => (scriptIdx vm, scriptOff vm)).

(** [vm.scripts[vm.scriptIdx][vm.lastCodeSep:]] *)
Definition subScript : method Engine (list parsedOpcode) := fun vm =>
  (s ← index (scripts vm) (scriptIdx vm); slice s (lastCodeSep vm) (len s), vm).

(** * Opcode handlers: constants and control flow *)

Abbreviation handler_fn := (parsedOpcode -> method Engine unit).

Definition opcodeDisabled : handler_fn := fun op => throw ErrStackOpDisabled.
Definition opcodeReserved : handler_fn := fun op => throw ErrStackReservedOpcode.
Definition opcodeInvalid : handler_fn := fun op => throw ErrStackInvalidOpcode.
Definition opcodeFalse : handler_fn := fun op => dPush [].
Definition opcodePushData : handler_fn := fun op => dPush (pop_data op).
Definition opcode1Negate : handler_fn := fun op => dPushInt (-1).
Definition opcodeN : handler_fn := fun op => dPushInt (uint8 (pop_value op - (OP_1 - 1))).

Definition upgradable_nop (v : Z) : bool :=
  (v =? OP_NOP1) || (v =? OP_NOP4) || (v =? OP_NOP5) || (v =? OP_NOP6) || (v =? OP_NOP7) ||
  (v =? OP_NOP8) || (v =? OP_NOP9) || (v =? OP_NOP10).

Definition opcodeNop : handler_fn := fun op vm =>
  let v := pop_value op in
  if upgradable_nop v && hasFlag vm ScriptDiscourageUpgradableNops
  then (Err (ErrReservedNop (uint8 (v - (OP_NOP1 - 1)))), vm) else (Ret tt, vm).

Definition push_cond (c : Z) : method Engine unit :=
  modify (fun vm => set_condStack vm (condStack vm ++ [c])).

Definition opcodeIf : handler_fn := fun op =>
  executing ← gets isBranchExecuting;
  if (executing : bool) then
    ok ← dPopBool; push_cond (if (ok : bool) then OpCondTrue else OpCondFalse)
  else push_cond OpCondSkip.

Definition opcodeNotIf : handler_fn := fun op =>
  executing ← gets isBranchExecuting;
  if (executing : bool) then
    ok ← dPopBool; push_cond (if negb ok then OpCondTrue else OpCondFalse)
  else push_cond OpCondSkip.

Definition flip_cond (c : Z) : Z :=
  if c =? OpCondTrue then OpCondFalse else if c =? OpCondFalse then OpCondTrue else c.

Definition opcodeElse : handler_fn := fun op vm =>
  if len (condStack vm) =? 0 then (Err ErrStackNoIf, vm)
  else
    (Ret tt, set_condStack vm (alter flip_cond (Z.to_nat (len (condStack vm) - 1)) (condStack vm))).

Definition opcodeEndif : handler_fn := fun op vm =>
  if len (condStack vm) =? 0 then (Err ErrStackNoIf, vm)
  else (Ret tt, set_condStack vm (take (Z.to_nat (len (condStack vm) - 1)) (condStack vm))).

Definition opcodeVerify : handler_fn := fun op =>
  verified ← dPopBool; fail_if (negb verified) ErrStackVerifyFailed.

Definition opcodeReturn : handler_fn := fun op => throw ErrStackEarlyReturn.

(** * Lock times *)

Definition verifyLockTime (txLockTime threshold lockTime : Z) : result unit :=
  if negb (((txLockTime <? threshold) && (lockTime <? threshold)) ||
           ((txLockTime >=? threshold) && (lockTime >=? threshold)))
  then Err (ErrMismatchedLockTime txLockTime lockTime)
  else if lockTime >? txLockTime then Err (ErrLockTimeUnsatisfied lockTime txLockTime)
  else Ret tt.

Definition txInput : method Engine TxIn := fun vm => (index (TxIns (tx vm)) (txIdx vm), vm).

Definition opcodeCheckLockTimeVerify : handler_fn := fun op =>
  so ← dPeek 0;
  minimal ← gets (fun vm => verifyMinimalData (dstack vm));
  lockTime ← lift (makeScriptNum so minimal 5);
  fail_if (lockTime <? 0) (ErrNegativeLockTime lockTime);;
  txLockTime ← gets (fun vm => LockTime (tx vm));
  fail_if (negb (((txLockTime <? LockTimeThreshold) && (lockTime <? LockTimeThreshold)) ||
                 ((txLockTime >=? LockTimeThreshold) && (lockTime >=? LockTimeThreshold))))
          (ErrMismatchedLockTime txLockTime lockTime);;
  fail_if (lockTime >? int64 txLockTime) (ErrLockTimeUnsatisfied lockTime txLockTime);;
  txIn ← txInput;
  fail_if (Sequence txIn =? MaxTxInSequenceNum) ErrInputFinalized.

Definition opcodeCheckSequenceVerify : handler_fn := fun op =>
  so ← dPeek 0;
  minimal ← gets (fun vm => verifyMinimalData (dstack vm));
  stackSequence ← lift (makeScriptNum so minimal 9);
  fail_if (stackSequence <? 0) (ErrNegativeLockTime stackSequence);;
  let sequence := uint64 stackSequence in
  if negb (Z.land sequence SequenceLockTimeDisabled =? 0) then mret tt
  else
    txIn ← txInput;
    let txSequence := Sequence txIn in
    fail_if (negb (Z.land txSequence SequenceLockTimeDisabled =? 0)) (ErrSequenceDisabled txSequence);;
    let lockTimeMask := Z.lor SequenceLockTimeIsSeconds SequenceLockTimeMask in
    lift (verifyLockTime (Z.land txSequence lockTimeMask) SequenceLockTimeIsSeconds
            (Z.land sequence lockTimeMask)).

(** * Stack opcodes *)

Definition opcodeToAltStack : handler_fn := fun op => so ← dPop; on_a (PushByteArray so).
Definition opcodeFromAltStack : handler_fn := fun op => so ← on_a PopByteArray; dPush so.
Definition opcode2Drop : handler_fn := fun op => on_d (DropN 2).
Definition opcode2Dup : handler_fn := fun op => on_d (DupN 2).
Definition opcode3Dup : handler_fn := fun op => on_d (DupN 3).
Definition opcode2Over : handler_fn := fun op => on_d (OverN 2).
Definition opcode2Rot : handler_fn := fun op => on_d (RotN 2).
Definition opcode2Swap : handler_fn := fun op => on_d (SwapN 2).
Definition opcodeIfDup : handler_fn := fun op =>
  so ← dPeek 0; if asBool so then dPush so else mret tt.
Definition opcodeDepth : handler_fn := fun op => d ← gets (fun vm => Depth (dstack vm)); dPushInt d.
Definition opcodeDrop : handler_fn := fun op => on_d (DropN 1).
Definition opcodeDup : handler_fn := fun op => on_d (DupN 1).
Definition opcodeNip : handler_fn := fun op => on_d (NipN 1).
Definition opcodeOver : handler_fn := fun op => on_d (OverN 1).
Definition opcodePick : handler_fn := fun op => val ← dPopInt; on_d (PickN (scriptNum_Int32 val)).
Definition opcodeRoll : handler_fn := fun op => val ← dPopInt; on_d (RollN (scriptNum_Int32 val)).
Definition opcodeRot : handler_fn := fun op => on_d (RotN 1).
Definition opcodeSwap : handler_fn := fun op => on_d (SwapN 1).
Definition opcodeTuck : handler_fn := fun op => on_d Tuck.
Definition opcodeSize : handler_fn := fun op => so ← dPeek 0; dPushInt (len so).

Definition opcodeEqual : handler_fn := fun op =>
  a ← dPop; b ← dPop; dPushBool (bytes_Equal a b).
Definition opcodeEqualVerify : handler_fn := fun op => opcodeEqual op;; opcodeVerify op.

(** * Numeric opcodes (int64 arithmetic) *)

Definition push_test (b : bool) : method Engine unit := dPushInt (if b then 1 else 0).

Definition opcode1Add : handler_fn := fun op => m ← dPopInt; dPushInt (int64 (m + 1)).
Definition opcode1Sub : handler_fn := fun op => m ← dPopInt; dPushInt (int64 (m - 1)).
Definition opcodeNegate : handler_fn := fun op => m ← dPopInt; dPushInt (int64 (- m)).
Definition opcodeAbs : handler_fn := fun op =>
  m ← dPopInt; dPushInt (if m <? 0 then int64 (- m) else m).
Definition opcodeNot : handler_fn := fun op => m ← dPopInt; push_test (m =? 0).
Definition opcode0NotEqual : handler_fn := fun op =>
  m ← dPopInt; dPushInt (if negb (m =? 0) then 1 else m).
Definition opcodeAdd : handler_fn := fun op => v0 ← dPopInt; v1 ← dPopInt; dPushInt (int64 (v0 + v1)).
Definition opcodeSub : handler_fn := fun op => v0 ← dPopInt; v1 ← dPopInt; dPushInt (int64 (v1 - v0)).
Definition opcodeBoolAnd : handler_fn := fun op =>
  v0 ← dPopInt; v1 ← dPopInt; push_test (negb (v0 =? 0) && negb (v1 =? 0)).
Definition opcodeBoolOr : handler_fn := fun op =>
  v0 ← dPopInt; v1 ← dPopInt; push_test (negb (v0 =? 0) || negb (v1 =? 0)).
Definition opcodeNumEqual : handler_fn := fun op => v0 ← dPopInt; v1 ← dPopInt; push_test (v0 =? v1).
Definition opcodeNumEqualVerify : handler_fn := fun op => opcodeNumEqual op;; opcodeVerify op.
Definition opcodeNumNotEqual : handler_fn := fun op =>
  v0 ← dPopInt; v1 ← dPopInt; push_test (negb (v0 =? v1)).
Definition opcodeLessThan : handler_fn := fun op => v0 ← dPopInt; v1 ← dPopInt; push_test (v1 <? v0).
Definition opcodeGreaterThan : handler_fn := fun op => v0 ← dPopInt; v1 ← dPopInt; push_test (v1 >? v0).
Definition opcodeLessThanOrEqual : handler_fn := fun op =>
  v0 ← dPopInt; v1 ← dPopInt; push_test (v1 <=? v0).
Definition opcodeGreaterThanOrEqual : handler_fn := fun op =>
  v0 ← dPopInt; v1 ← dPopInt; push_test (v1 >=? v0).
Definition opcodeMin : handler_fn := fun op =>
  v0 ← dPopInt; v1 ← dPopInt; dPushInt (if v1 <? v0 then v1 else v0).
Definition opcodeMax : handler_fn := fun op =>
  v0 ← dPopInt; v1 ← dPopInt; dPushInt (if v1 >? v0 then v1 else v0).
Definition opcodeWithin : handler_fn := fun op =>
  maxVal ← dPopInt; minVal ← dPopInt; x ← dPopInt; push_test ((x >=? minVal) && (x <? maxVal)).

(** * Encoding checks *)

Definition checkHashTypeEncoding (hashType : Z) : result unit :=
  let sigHashType := Z.land hashType (Z.lxor SigHashAnyOneCanPay 0xffffffff) in
  check ((sigHashType <? SigHashAll) || (sigHashType >? SigHashSingle)) (ErrInvalidHashType hashType).

(** [a && b()] where evaluating [b] may panic. *)
Definition and_then (a : bool) (b : result bool) : result bool := if a then b else Ret false.

Definition high_bit (sig : bytes) (i : Z) : result bool :=
  b ← index sig i; Ret (negb (Z.land b 0x80 =? 0)).

Section engine.
Context {HF : HashFunctions} {BC : Btcec} {EV : Env}.

Definition halfOrder : Z := Z.shiftr curve_N 1.

Definition malformed (why : der_error) : script_error := ErrMalformedSignature why.

Definition checkPubKeyEncoding (vm : Engine) (pubKey : bytes) : result unit :=
  if isWitnessVersionActive vm 0 && negb (IsCompressedPubKey pubKey) then Err ErrWitnessPubKeyType
  else if (len pubKey =? 33) && ((hd 0 pubKey =? 0x02) || (hd 0 pubKey =? 0x03)) then Ret tt
  else if (len pubKey =? 65) && (hd 0 pubKey =? 0x04) then Ret tt
  else Err ErrStackInvalidPubKey.

(** Indexing beyond the slice panics, as it does in Go. *)
Definition checkSignatureEncoding (sig : bytes) : result unit :=
  check (len sig <? 8) (malformed DerTooShort);;
  check (len sig >? 72) (malformed DerTooLong);;
  b0 ← index sig 0;
  check (negb (b0 =? 0x30)) (malformed DerWrongType);;
  b1 ← index sig 1;
  check (negb (b1 =? len sig - 2)) (malformed DerBadLength);;
  rLen ← index sig 3;
  check (rLen + 5 >? len sig) (malformed DerSOutOfBounds);;
  sLen ← index sig (rLen + 5);
  check (negb (rLen + sLen + 6 =? len sig)) (malformed DerInvalidRLength);;
  b2 ← index sig 2;
  check (negb (b2 =? 0x02)) (malformed DerNoFirstMarker);;
  check (rLen =? 0) (malformed DerRLengthZero);;
  rneg ← high_bit sig 4;
  check rneg (malformed DerRNegative);;
  rbad ← and_then (rLen >? 1) (b4 ← index sig 4;
           and_then (b4 =? 0x00) (h ← high_bit sig 5; Ret (negb h)));
  check rbad (malformed DerRInvalid);;
  m2 ← index sig (rLen + 4);
  check (negb (m2 =? 0x02)) (malformed DerNoSecondMarker);;
  check (sLen =? 0) (malformed DerSLengthZero);;
  sneg ← high_bit sig (rLen + 6);
  check sneg (malformed DerSNegative);;
  sbad ← and_then (sLen >? 1) (b6 ← index sig (rLen + 6);
           and_then (b6 =? 0x00) (h ← high_bit sig (rLen + 7); Ret (negb h)));
  check sbad (malformed DerSInvalid);;
  sBytes ← slice sig (rLen + 6) (rLen + 6 + sLen);
  check (be_decode sBytes >? halfOrder) ErrStackInvalidLowSSignature.

(** * Crypto opcodes *)

Definition opcodeRipemd160 : handler_fn := fun op => buf ← dPop; dPush (ripemd160_Sum buf).
Definition opcodeSha1 : handler_fn := fun op => buf ← dPop; dPush (sha1_Sum buf).
Definition opcodeSha256 : handler_fn := fun op => buf ← dPop; dPush (sha256_Sum256 buf).
Definition opcodeHash160 : handler_fn := fun op =>
  buf ← dPop; dPush (ripemd160_Sum (sha256_Sum256 buf)).
Definition opcodeHash256 : handler_fn := fun op => buf ← dPop; dPush (DoubleHashB buf).
Definition opcodeCodeSeparator : handler_fn := fun op =>
  modify (fun vm => set_lastCodeSep vm (scriptOff vm)).

(** The digest under verification, from the cached partial hashes if there are any. *)
Definition signatureHash (script : list parsedOpcode) (hashType : Z) : method Engine bytes := fun vm =>
  let sigHashes := match hashCache vm with Some h => h | None => NewTxSigHashes (tx vm) end in
  (calcWitnessSignatureHash script sigHashes hashType (tx vm) (txIdx vm) (inputAmount vm), vm).

(** The use of vm.sigCache around Verify. *)
Definition verifySignature (sig : Signature) (hash : bytes) (pubKey : PublicKey) : method Engine bool :=
  fun vm => let '(valid, c) := cached_Verify (sigCache vm) sig hash pubKey in
            (Ret valid, set_sigCache vm c).

(** [raw[len(raw)-1]] and [raw[:len(raw)-1]] *)
Definition split_signature (raw : bytes) : result (Z * bytes) :=
  hashType ← index raw (len raw - 1);
  sig ← slice raw 0 (len raw - 1);
  Ret (hashType, sig).

Definition opcodeCheckSig : handler_fn := fun op =>
  pkBytes ← dPop;
  fullSigBytes ← dPop;
  if len fullSigBytes <? 1 then dPushBool false
  else
    '(hashType, sigBytes) ← lift (split_signature fullSigBytes);
    lift (checkHashTypeEncoding hashType);;
    lift (checkSignatureEncoding sigBytes);;
    pkErr ← gets (fun vm => checkPubKeyEncoding vm pkBytes);
    lift pkErr;;
    script ← subScript;
    hash ← signatureHash script hashType;
    match ParsePubKey pkBytes with
    | None => dPushBool false
    | Some pubKey =>
        match ParseDERSignature sigBytes with
        | None => dPushBool false
        | Some signature =>
            valid ← verifySignature signature hash pubKey;
            fail_if (negb valid && (len sigBytes >? 0)) ErrNullFail;;
            dPushBool valid
        end
    end.

Definition opcodeCheckSigVerify : handler_fn := fun op => opcodeCheckSig op;; opcodeVerify op.

Record parsedSigInfo := mkSigI {
  signature_ : bytes; parsedSignature : option Signature; parsed : bool }.

Fixpoint popN (n : nat) : method Engine (list bytes) :=
  match n with
  | O => mret []
  | S n' => b ← dPop; bs ← popN n'; mret (b :: bs)
  end.

(** The parsing step of the loop: the entry with what is remembered in it. *)
Definition parse_sig (sigInfo : parsedSigInfo) (signature : bytes) (hashType : Z) : result parsedSigInfo :=
  if parsed sigInfo then Ret sigInfo
  else
    checkHashTypeEncoding hashType;;
    checkSignatureEncoding signature;;
    Ret (mkSigI (signature_ sigInfo) (ParseDERSignature signature) true).

(** The matching loop.  [pubKeys] is [pubKeys[pubKeyIdx:]] and [sigs] is
    [signatures[signatureIdx:]], so that numPubKeys and numSignatures, after the decrement
    at the head of the loop, are their lengths; a key is consumed by every iteration, a
    signature by a valid one. *)
Fixpoint multisig_loop (script : list parsedOpcode) (pubKeys : list bytes) (sigs : list parsedSigInfo)
    : method Engine bool :=
  match sigs, pubKeys with
  | [], _ => mret true
  | _ :: _, [] => mret false
  | sigInfo :: sigs', pubKey :: pubKeys' =>
      if len sigs >? len pubKeys then mret false
      else
        let rawSig := signature_ sigInfo in
        if len rawSig =? 0 then multisig_loop script pubKeys' sigs
        else
          '(hashType, signature) ← lift (split_signature rawSig);
          sigInfo ← lift (parse_sig sigInfo signature hashType);
          match parsedSignature sigInfo with
          | None => multisig_loop script pubKeys' (sigInfo :: sigs')
          | Some parsedSig =>
              pkErr ← gets (fun vm => checkPubKeyEncoding vm pubKey);
              lift pkErr;;
              match ParsePubKey pubKey with
              | None => multisig_loop script pubKeys' (sigInfo :: sigs')
              | Some parsedPubKey =>
                  hash ← signatureHash script hashType;
                  valid ← verifySignature parsedSig hash parsedPubKey;
                  if (valid : bool) then multisig_loop script pubKeys' sigs'
                  else multisig_loop script pubKeys' (sigInfo :: sigs')
              end
          end
  end.

Definition opcodeCheckMultiSig : handler_fn := fun op =>
  numKeys ← dPopInt;
  let numPubKeys := scriptNum_Int32 numKeys in
  fail_if (numPubKeys <? 0) ErrStackInvalidPubKey;;
  fail_if (numPubKeys >? MaxPubKeysPerMultiSig) ErrStackTooManyPubKeys;;
  modify (fun vm => set_numOps vm (numOps vm + numPubKeys));;
  ops ← gets numOps;
  fail_if (ops >? MaxOpsPerScript) ErrTooManyOperations;;
  pubKeys ← popN (Z.to_nat numPubKeys);
  numSigs ← dPopInt;
  let numSignatures := scriptNum_Int32 numSigs in
  fail_if (numSignatures <? 0) ErrStackTooManyPubKeys;;
  fail_if (numSignatures >? numPubKeys) ErrStackTooManyPubKeys;;
  signatures ← popN (Z.to_nat numSignatures);
  script ← subScript;
  v0 ← gets (fun vm => isWitnessVersionActive vm 0);
  let script := if negb v0 then fold_left removeOpcodeByData signatures script else script in
  success ← multisig_loop script pubKeys (map (fun s => mkSigI s None false) signatures);
  fail_if (negb success && existsb (fun s => len s >? 0) signatures) ErrNullFail;;
  dPushBool success.

Definition opcodeCheckMultiSigVerify : handler_fn := fun op => opcodeCheckMultiSig op;; opcodeVerify op.

(** * Dispatch *)

Definition opfunc_of (h : handler) : handler_fn :=
  match h with
  | fn_opcodeFalse => opcodeFalse
  | fn_opcodePushData => opcodePushData
  | fn_opcode1Negate => opcode1Negate
  | fn_opcodeReserved => opcodeReserved
  | fn_opcodeN => opcodeN
  | fn_opcodeNop => opcodeNop
  | fn_opcodeIf => opcodeIf
  | fn_opcodeNotIf => opcodeNotIf
  | fn_opcodeElse => opcodeElse
  | fn_opcodeEndif => opcodeEndif
  | fn_opcodeVerify => opcodeVerify
  | fn_opcodeReturn => opcodeReturn
  | fn_opcodeCheckLockTimeVerify => opcodeCheckLockTimeVerify
  | fn_opcodeCheckSequenceVerify => opcodeCheckSequenceVerify
  | fn_opcodeToAltStack => opcodeToAltStack
  | fn_opcodeFromAltStack => opcodeFromAltStack
  | fn_opcode2Drop => opcode2Drop
  | fn_opcode2Dup => opcode2Dup
  | fn_opcode3Dup => opcode3Dup
  | fn_opcode2Over => opcode2Over
  | fn_opcode2Rot => opcode2Rot
  | fn_opcode2Swap => opcode2Swap
  | fn_opcodeIfDup => opcodeIfDup
  | fn_opcodeDepth => opcodeDepth
  | fn_opcodeDrop => opcodeDrop
  | fn_opcodeDup => opcodeDup
  | fn_opcodeNip => opcodeNip
  | fn_opcodeOver => opcodeOver
  | fn_opcodePick => opcodePick
  | fn_opcodeRoll => opcodeRoll
  | fn_opcodeRot => opcodeRot
  | fn_opcodeSwap => opcodeSwap
  | fn_opcodeTuck => opcodeTuck
  | fn_opcodeDisabled => opcodeDisabled
  | fn_opcodeSize => opcodeSize
  | fn_opcodeEqual => opcodeEqual
  | fn_opcodeEqualVerify => opcodeEqualVerify
  | fn_opcode1Add => opcode1Add
  | fn_opcode1Sub => opcode1Sub
  | fn_opcodeNegate => opcodeNegate
  | fn_opcodeAbs => opcodeAbs
  | fn_opcodeNot => opcodeNot
  | fn_opcode0NotEqual => opcode0NotEqual
  | fn_opcodeAdd => opcodeAdd
  | fn_opcodeSub => opcodeSub
  | fn_opcodeBoolAnd => opcodeBoolAnd
  | fn_opcodeBoolOr => opcodeBoolOr
  | fn_opcodeNumEqual => opcodeNumEqual
  | fn_opcodeNumEqualVerify => opcodeNumEqualVerify
  | fn_opcodeNumNotEqual => opcodeNumNotEqual
  | fn_opcodeLessThan => opcodeLessThan
  | fn_opcodeGreaterThan => opcodeGreaterThan
  | fn_opcodeLessThanOrEqual => opcodeLessThanOrEqual
  | fn_opcodeGreaterThanOrEqual => opcodeGreaterThanOrEqual
  | fn_opcodeMin => opcodeMin
  | fn_opcodeMax => opcodeMax
  | fn_opcodeWithin => opcodeWithin
  | fn_opcodeRipemd160 => opcodeRipemd160
  | fn_opcodeSha1 => opcodeSha1
  | fn_opcodeSha256 => opcodeSha256
  | fn_opcodeHash160 => opcodeHash160
  | fn_opcodeHash256 => opcodeHash256
  | fn_opcodeCodeSeparator => opcodeCodeSeparator
  | fn_opcodeCheckSig => opcodeCheckSig
  | fn_opcodeCheckSigVerify => opcodeCheckSigVerify
  | fn_opcodeCheckMultiSig => opcodeCheckMultiSig
  | fn_opcodeCheckMultiSigVerify => opcodeCheckMultiSigVerify
  | fn_opcodeInvalid => opcodeInvalid
  end.

Definition executeOpcode (pop : parsedOpcode) : method Engine unit :=
  fail_if (isDisabled pop) ErrStackOpDisabled;;
  fail_if (alwaysIllegal pop) ErrStackReservedOpcode;;
  (if pop_value pop >? OP_16 then
     modify (fun vm => set_numOps vm (numOps vm + 1));;
     ops ← gets numOps;
     fail_if (ops >? MaxOpsPerScript) ErrStackTooManyOperations
   else fail_if (len (pop_data pop) >? MaxScriptElementSize) ErrStackElementTooBig);;
  executing ← gets isBranchExecuting;
  if negb executing && negb (isConditional pop) then mret tt
  else
    minimal ← gets (fun vm => verifyMinimalData (dstack vm));
    (if (minimal && executing && (pop_value pop >=? 0) && (pop_value pop <=? OP_PUSHDATA4) : bool)
     then lift (checkMinimalDataPush pop) else mret tt);;
    opfunc_of (opfunc (opcode_of pop)) pop.

(** * Running *)

Definition CheckErrorCondition (finalScript : bool) : method Engine unit :=
  unfinished ← gets (fun vm => scriptIdx vm <? len (scripts vm));
  fail_if unfinished ErrStackScriptUnfinished;;
  depth ← gets (fun vm => Depth (dstack vm));
  (if finalScript && negb (depth =? 1) then throw ErrStackCleanStack
   else fail_if (depth <? 1) ErrStackEmptyStack);;
  v ← dPopBool;
  fail_if (negb v) ErrStackScriptFailed.

Definition getStack (s : stack) : list bytes :=
  rev (map (fun i => match (PeekByteArray (int32 (Z.of_nat i)) s).1 with Ret b => b | _ => [] end)
           (seq 0 (Z.to_nat (Depth s)))).

Definition setStack (data : list bytes) : method stack unit :=
  d ← gets Depth;
  ignore_err (DropN d);;
  foldr (fun b rest => PushByteArray b;; rest) (mret tt) data.

Definition GetStack : method Engine (list bytes) := gets (fun vm => getStack (dstack vm)).
Definition SetStack (data : list bytes) : method Engine unit := on_d (setStack data).

(** consensus/massips.go *)
Definition MASSIP0002BindingLockedPeriod : Z := 0xffffffff - 1.

(** [<lock> OP_CHECKSEQUENCEVERIFY OP_DROP], built and parsed. *)
Definition lock_script (lock : Z) : result (list parsedOpcode) :=
  pkScript ← Script_ok (AddOp OP_DROP (AddOp OP_CHECKSEQUENCEVERIFY
               (AddData (le_encode 8 lock) NewScriptBuilder)));
  parse_ok pkScript.

(** The witness extension: nothing for a standard program, a staking or binding lock. *)
Definition witness_extension : method Engine unit :=
  ext ← gets witnessExtProg;
  match ext with
  | [] => mret tt
  | [e] =>
      if len (pop_data e) =? WitnessV0FrozenPeriodDataSize then
        minimal ← gets (fun vm => verifyMinimalData (dstack vm));
        frozenPeriod ← lift (makeScriptNum (pop_data e) minimal 9);
        fail_if ((frozenPeriod <? 0) || (int64 (frozenPeriod + 1) <? 0)) (ErrInvalidFrozenPeriod frozenPeriod);;
        pops ← lift (lock_script (uint64 (int64 (frozenPeriod + 1))));
        addScript pops
      else if (len (pop_data e) =? OP_DATA_20) || (len (pop_data e) =? OP_DATA_22) then
        massip2 ← gets (fun vm => hasFlag vm ScriptMASSip2);
        if (massip2 : bool) then
          pops ← lift (lock_script MASSIP0002BindingLockedPeriod); addScript pops
        else mret tt
      else throw ErrWitnessExtProgUnknown
  | _ => throw ErrWitnessExtProgUnknown
  end.

Definition add_witness_script (script : bytes) : method Engine unit :=
  fail_if (len script >? maxScriptSize) ErrScriptTooBig;;
  pops ← lift (parse_ok script);
  addScript pops.

Definition verifyWitnessProgram (witness : list bytes) : method Engine unit :=
  active ← gets (fun vm => isWitnessVersionActive vm 0);
  fail_if (negb active) ErrDiscourageUpgradableWitnessProgram;;
  match witness with
  | [w0; w1] =>
      fail_if ((len w0 =? 0) || (len w1 =? 0)) ErrWitnessLength;;
      program ← gets witnessProgram;
      fail_if (negb (bytes_Equal (sha256_Sum256 w1) (default [] program))) ErrWitnessProgramMismatch;;
      witness_extension;;
      add_witness_script w0;; add_witness_script w1;;
      st ← GetStack;
      fail_if (existsb (fun e => len e >? MaxScriptElementSize) st) ErrStackElementTooBig
  | _ => throw ErrWitnessLength
  end.

(** The end of Step: skip a zero-length script, reset the code separator, report whether
    there is a script left. *)
Definition enter_script : method Engine bool :=
  more ← gets (fun vm => scriptIdx vm <? len (scripts vm));
  (if (more : bool) then
     st ← gets (fun vm => (scripts vm, scriptIdx vm, scriptOff vm));
     let '(scs, idx, off) := st in
     s ← lift (index scs idx);
     if off >=? len s then modify (fun vm => set_scriptIdx vm (scriptIdx vm + 1)) else mret tt
   else mret tt);;
  modify (fun vm => set_lastCodeSep vm 0);;
  gets (fun vm => scriptIdx vm >=? len (scripts vm)).

(** The public key script of a witness program has run: its two or three items are
    dropped and the witness is verified and loaded. *)
Definition load_witness : method Engine unit :=
  dd ← gets (fun vm => Depth (dstack vm));
  fail_if (negb (dd =? 2) && negb (dd =? 3)) ErrStackUnderflow;;
  ignore_err (on_d (DropN dd));;
  txIn ← txInput;
  verifyWitnessProgram (Witness txIn).

(** What Step does after the last opcode of a script. *)
Definition next_script : method Engine bool :=
  pending ← gets (fun vm => negb (len (condStack vm) =? 0));
  fail_if pending ErrStackMissingEndif;;
  ad ← gets (fun vm => Depth (astack vm));
  ignore_err (on_a (DropN ad));;
  modify (fun vm => set_scriptOff (set_numOps vm 0) 0);;
  witnessed ← gets (fun vm => (scriptIdx vm =? 0) && bool_decide (is_Some (witnessProgram vm)));
  modify (fun vm => set_scriptIdx vm (scriptIdx vm + 1));;
  (if (witnessed : bool) then load_witness else mret tt);;
  enter_script.

(** Step after the opcode was executed: the stack limit, then the next script if this was
    the last opcode. *)
Definition after_opcode : method Engine bool :=
  overflow ← gets (fun vm => int32 (Depth (dstack vm) + Depth (astack vm)) >? maxStackSize);
  fail_if overflow ErrStackOverflow;;
  st ← gets (fun vm => (scripts vm, scriptIdx vm, scriptOff vm));
  let '(scs, idx, off) := st in
  script ← lift (index scs idx);
  if off >=? len script then next_script else mret false.

(** [Step]: the done flag; it is not looked at when there is an error. *)
Definition Step : method Engine bool :=
  validPC;;
  st ← gets (fun vm => (scripts vm, scriptIdx vm, scriptOff vm));
  let '(scs, idx, off) := st in
  script ← lift (index scs idx);
  opcode ← lift (index script off);
  modify (fun vm => set_scriptOff vm (scriptOff vm + 1));;
  executeOpcode opcode;;
  after_opcode.

(** The loop of Execute; None when [fuel] steps are not enough. *)
Fixpoint Execute (fuel : nat) (vm : Engine) : option (result unit * Engine) :=
  match fuel with
  | O => None
  | S fuel' =>
      match Step vm with
      | (Ret true, vm') => Some (CheckErrorCondition true vm')
      | (Ret false, vm') => Execute fuel' vm'
      | (Err e, vm') => Some (Err e, vm')
      | (Panic, vm') => Some (Panic, vm')
      end
  end.

Definition NewEngine (pkScript : bytes) (tx : MsgTx) (txIdx flags : Z) (sigCache : option SigCache)
    (hashCache : option TxSigHashes) (inputAmount : Z) : result Engine :=
  if (txIdx <? 0) || (txIdx >=? len (TxIns tx)) then Err ErrStackInvalidIndex
  else if len pkScript =? 0 then Err ErrWitnessUnexpected
  else if len pkScript >? maxScriptSize then Err ErrScriptTooBig
  else
    pops ← parse_ok pkScript;
    '(version, program, ext) ←
      (if isMASSWitnessProgram pops || isWitnessProgram pops then
         '(version, program, ext) ← extractWitnessProgramInfo pops;
         txIn ← index (TxIns tx) txIdx;
         if bool_decide (program = None) && negb (len (Witness txIn) =? 0)
         then Err ErrWitnessUnexpected else Ret (version, program, ext)
       else Ret (0, None, []));
    Ret (mkEngine [pops] 0 0 0 (mkStack [] false) (mkStack [] false) tx txIdx [] 0 flags
           sigCache hashCache version program ext inputAmount).
End engine.
