(* ===== verification/EngineSafety.v ===== *)
(** Type safety of the script engine: a well-formedness invariant of the engine's state, the
    proof that every opcode handler keeps it, and what follows: Step keeps the limits of
    common.go, panics nowhere but in the signature opcodes, and Execute terminates. *)

From S2P Require Import Prelude TxCommon ScriptNum Stack Opcodes Script Builder Hashes Wire SigHash SigCache Engine.

(** * Safe stack methods *)

(** An item is a byte string of at most MaxScriptElementSize bytes. *)
Definition item_ok (b : bytes) : Prop := bytes_ok b /\ len b <= MaxScriptElementSize.

Definition stack_ok (n : Z) (s : stack) : Prop := Forall item_ok (stk s) /\ len (stk s) <= n.

(** [c] never panics on a stack of at most [n] byte strings, adds at most [k] items and
    returns a value satisfying [Q]. *)
Definition ssafe {A} (k : Z) (Q : A -> Prop) (c : method stack A) : Prop := forall n s,
  n + k <= 2000 -> stack_ok n s ->
  match c s with
  | (Ret a, s') => Q a /\ stack_ok (n + k) s' /\ verifyMinimalData s' = verifyMinimalData s
  | (Err _, _) => True
  | (Panic, _) => False
  end.

Lemma stack_ok_small n s : n <= 2000 -> stack_ok n s -> small s.
Proof. intros ? [_ ?]. unfold small. lia. Qed.

Lemma stack_ok_mono n m s : n <= m -> stack_ok n s -> stack_ok m s.
Proof. intros ? [? ?]. split; [done|lia]. Qed.

Lemma ssafe_ret {A} k (Q : A -> Prop) a : 0 <= k -> Q a -> ssafe k Q (mret a).
Proof. intros ? ? n s ? Hs. cbn. split; [done|]. split; [|done]. eapply stack_ok_mono; [|done]. lia. Qed.

Lemma ssafe_bind {A B} k1 k2 (Q1 : A -> Prop) (Q2 : B -> Prop) c f :
  0 <= k2 -> ssafe k1 Q1 c -> (forall a, Q1 a -> ssafe k2 Q2 (f a)) -> ssafe (k1 + k2) Q2 (c ≫= f).
Proof.
  intros Hk Hc Hf n s Hn Hs. unfold mbind, prog_bind. specialize (Hc n s ltac:(lia) Hs).
  destruct (c s) as [[a|e|] s']; [|done|done]. destruct Hc as (Ha & Hs' & Hm).
  specialize (Hf a Ha (n + k1) s' ltac:(lia) Hs'). destruct (f a s') as [[b|e|] s'']; [|done|done].
  destruct Hf as (? & ? & ?). rewrite Z.add_assoc. split_and!; try done. congruence.
Qed.

Lemma ssafe_weaken {A} k k' (Q Q' : A -> Prop) c :
  k <= k' -> (forall a, Q a -> Q' a) -> ssafe k Q c -> ssafe k' Q' c.
Proof.
  intros Hk HQ Hc n s Hn Hs. specialize (Hc n s ltac:(lia) Hs). destruct (c s) as [[a|e|] s']; [|done|done].
  destruct Hc as (? & ? & ?). split_and!; auto. eapply stack_ok_mono; [|done]. lia.
Qed.

Lemma ssafe_throw {A} k (Q : A -> Prop) e : ssafe k Q (throw e).
Proof. done. Qed.

Lemma ssafe_push k b : 1 <= k -> item_ok b -> ssafe k (fun _ => True) (PushByteArray b).
Proof.
  intros Hk Hb n s Hn [Hs Hl]. cbn. split; [done|]. split; [|done]. split.
  - apply Forall_app. split; [done|by constructor].
  - cbn. rewrite len_app, len_one. lia.
Qed.

Lemma ssafe_nip idx : ssafe 0 item_ok (nipN idx).
Proof.
  intros n s Hn Hs. destruct (nipN_cases s idx) as [[-> _]|(a & x & b & Heq & Hb & ->)].
  - by apply (stack_ok_small n); [lia|].
  - done.
  - destruct Hs as [Hf Hl]. rewrite Heq in Hf, Hl. apply Forall_app in Hf as [Ha Hx].
    apply Forall_cons in Hx as [Hx Hb']. split; [done|]. split; [|done]. split.
    + apply Forall_app. done.
    + cbn. rewrite len_app in *. rewrite len_cons in Hl. lia.
Qed.

Lemma ssafe_peek idx : ssafe 0 item_ok (PeekByteArray idx).
Proof.
  intros n s Hn Hs. destruct (Peek_cases s idx) as [[-> _]|(a & x & b & Heq & Hb & ->)].
  - by apply (stack_ok_small n); [lia|].
  - done.
  - pose proof Hs as [Hf _]. rewrite Heq in Hf. apply Forall_app in Hf as [_ Hx].
    apply Forall_cons in Hx as [Hx _]. split; [done|]. split; [|done]. by rewrite Z.add_0_r.
Qed.

Lemma ssafe_pop : ssafe 0 item_ok PopByteArray.
Proof. apply ssafe_nip. Qed.

Lemma ssafe_times k n c : 0 <= k -> ssafe k (fun _ => True) c -> ssafe (Z.of_nat n * k) (fun _ => True) (times n c).
Proof.
  intros Hk Hc. induction n as [|n IH]; [by apply ssafe_ret|]. cbn [times].
  replace (Z.of_nat (S n) * k) with (k + Z.of_nat n * k) by lia.
  eapply ssafe_bind; [lia|exact Hc|]. intros _ _. exact IH.
Qed.

(** Reading a number. *)
Definition operand (n : Z) : Prop := - 2 ^ 31 < n < 2 ^ 31.

Lemma ssafe_popint : ssafe 0 operand PopInt.
Proof.
  change 0 with (0 + 0). eapply ssafe_bind; [lia|apply ssafe_pop|]. intros b Hb n s Hn Hs. steps.
  pose proof (makeScriptNum_no_panic b (verifyMinimalData s) defaultScriptNumLen). unfold lift.
  destruct (makeScriptNum b (verifyMinimalData s) defaultScriptNumLen) as [z|e|] eqn:Hz; [|done|congruence].
  rewrite Z.add_0_r. split; [|done]. unfold operand. destruct Hb. eapply makeScriptNum_operand; eauto.
Qed.

Lemma ssafe_popbool : ssafe 0 (fun _ => True) PopBool.
Proof. change 0 with (0 + 0). eapply ssafe_bind; [lia|apply ssafe_pop|]. intros. by apply ssafe_ret. Qed.

Lemma ssafe_pushint z : - 2 ^ 63 < z < 2 ^ 63 -> ssafe 1 (fun _ => True) (PushInt z).
Proof.
  intros Hz n s Hn Hs. unfold PushInt. destruct (scriptNum_encodes z Hz) as (v & Hv & Hok & Hlen & _).
  rewrite Hv. steps. apply (ssafe_push 1 v); [lia| |done|done]. split; [done|].
  specialize (Hlen 8 ltac:(lia) ltac:(lia)). unfold MaxScriptElementSize. lia.
Qed.

Lemma ssafe_pushbool b : ssafe 1 (fun _ => True) (PushBool b).
Proof. apply ssafe_push; [lia|]. destruct b; (split; [solve_bytes|done]). Qed.

Section blockops.
Variables (k n : Z).
Hypothesis Hn : 0 <= n <= k.

Lemma ssafe_loop (c : method stack unit) :
  ssafe 1 (fun _ => True) c ->
  ssafe k (fun _ => True) (if n <? 1 then throw ErrStackInvalidArgs else times (Z.to_nat n) c).
Proof.
  intros Hc. case_if; [apply ssafe_throw|]. eapply ssafe_weaken; [|done|apply (ssafe_times 1); [lia|done]]. lia.
Qed.

Lemma ssafe_then_push (c : method stack bytes) :
  ssafe 0 item_ok c -> ssafe 1 (fun _ => True) (so ← c; PushByteArray so).
Proof.
  intros Hc. change 1 with (0 + 1). eapply ssafe_bind; [lia|exact Hc|]. intros. by apply ssafe_push.
Qed.

Lemma ssafe_DupN : ssafe k (fun _ => True) (DupN n).
Proof. apply ssafe_loop, ssafe_then_push, ssafe_peek. Qed.
Lemma ssafe_RotN : ssafe k (fun _ => True) (RotN n).
Proof. apply ssafe_loop, ssafe_then_push, ssafe_nip. Qed.
Lemma ssafe_SwapN : ssafe k (fun _ => True) (SwapN n).
Proof. apply ssafe_loop, ssafe_then_push, ssafe_nip. Qed.
Lemma ssafe_OverN : ssafe k (fun _ => True) (OverN n).
Proof. apply ssafe_loop, ssafe_then_push, ssafe_peek. Qed.
End blockops.

Lemma ssafe_DropN n : ssafe 0 (fun _ => True) (DropN n).
Proof.
  unfold DropN. case_if; [apply ssafe_throw|].
  eapply ssafe_weaken; [|done|apply (ssafe_times 0); [lia|]]; [lia|].
  change 0 with (0 + 0). eapply ssafe_bind; [lia|apply ssafe_pop|]. intros. by apply ssafe_ret.
Qed.

Lemma ssafe_Tuck : ssafe 3 (fun _ => True) Tuck.
Proof.
  change 3 with (0 + (0 + (1 + (1 + 1)))).
  eapply ssafe_bind; [lia|apply ssafe_pop|]. intros a Ha. eapply ssafe_bind; [lia|apply ssafe_pop|]. intros b Hb.
  eapply ssafe_bind; [lia|by apply ssafe_push|]. intros _ _.
  eapply ssafe_bind; [lia|by apply ssafe_push|]. intros _ _. by apply ssafe_push.
Qed.

Lemma ssafe_PickN n : ssafe 1 (fun _ => True) (PickN n).
Proof. apply ssafe_then_push, ssafe_peek. Qed.
Lemma ssafe_RollN n : ssafe 1 (fun _ => True) (RollN n).
Proof. apply ssafe_then_push, ssafe_nip. Qed.
Lemma ssafe_NipN n : ssafe 0 (fun _ => True) (NipN n).
Proof. change 0 with (0 + 0). eapply ssafe_bind; [lia|apply ssafe_nip|]. intros. by apply ssafe_ret. Qed.

(** * Safe engine methods *)

Section engine.
Context {HF : HashFunctions} {BC : Btcec} {EV : Env}.

(** The parts of the engine that no opcode handler changes. *)
Definition stable (vm0 vm : Engine) : Prop :=
  scripts vm = scripts vm0 /\ scriptIdx vm = scriptIdx vm0 /\ scriptOff vm = scriptOff vm0 /\
  tx vm = tx vm0 /\ txIdx vm = txIdx vm0 /\ flags vm = flags vm0 /\ hashCache vm = hashCache vm0 /\
  witnessVersion vm = witnessVersion vm0 /\ witnessProgram vm = witnessProgram vm0 /\
  witnessExtProg vm = witnessExtProg vm0 /\ inputAmount vm = inputAmount vm0 /\
  verifyMinimalData (dstack vm) = verifyMinimalData (dstack vm0).

(** The values the handlers work on: at most [n] items per stack, every one a byte
    string; conditions among the three OpCond values; the operation count within its
    limit; the code separator within the executed part of the script; only valid
    signatures in the cache. *)
Definition values_ok (n : Z) (vm : Engine) : Prop :=
  stack_ok n (dstack vm) /\ stack_ok n (astack vm) /\
  Forall (fun c => c = OpCondFalse \/ c = OpCondTrue \/ c = OpCondSkip) (condStack vm) /\
  0 <= numOps vm <= MaxOpsPerScript /\ 0 <= lastCodeSep vm <= scriptOff vm /\
  (forall c, sigCache vm = Some c -> sound c).

(** A position inside a parsed script, and a valid input. *)
Definition position_ok (vm : Engine) : Prop :=
  Forall (Forall pop_wf) (scripts vm) /\ 0 <= txIdx vm < len (TxIns (tx vm)) /\
  exists s, 0 <= scriptIdx vm /\ scripts vm !! Z.to_nat (scriptIdx vm) = Some s /\ 0 <= scriptOff vm <= len s.

Definition engine_ok (vm0 : Engine) (n : Z) (vm : Engine) : Prop :=
  stable vm0 vm /\ values_ok n vm /\ position_ok vm.

(** [c] keeps the invariant, adds at most [k] items and panics only if [X]. *)
Definition esafe {A} (X : Prop) (k : Z) (Q : A -> Prop) (c : method Engine A) : Prop := forall vm0 n vm,
  n + k <= 2000 -> engine_ok vm0 n vm ->
  match c vm with
  | (Ret a, vm') => Q a /\ engine_ok vm0 (n + k) vm'
  | (Err _, _) => True
  | (Panic, _) => X
  end.

Lemma values_ok_mono n m vm : n <= m -> values_ok n vm -> values_ok m vm.
Proof. intros Hm (? & ? & ?). split; [|split; [|done]]; (eapply stack_ok_mono; [|done]; lia). Qed.

Lemma engine_ok_mono vm0 n m vm : n <= m -> engine_ok vm0 n vm -> engine_ok vm0 m vm.
Proof. intros ? (? & ? & ?). split_and!; eauto using values_ok_mono. Qed.

Lemma esafe_ret {A} X k (Q : A -> Prop) a : 0 <= k -> Q a -> esafe X k Q (mret a).
Proof. intros ? ? vm0 n vm ? Hvm. cbn. split; [done|]. eapply engine_ok_mono; [|done]. lia. Qed.

Lemma esafe_throw {A} X k (Q : A -> Prop) e : esafe X k Q (throw e).
Proof. done. Qed.

Lemma esafe_bind {A B} X k1 k2 (Q1 : A -> Prop) (Q2 : B -> Prop) c f :
  0 <= k2 -> esafe X k1 Q1 c -> (forall a, Q1 a -> esafe X k2 Q2 (f a)) -> esafe X (k1 + k2) Q2 (c ≫= f).
Proof.
  intros Hk Hc Hf vm0 n vm Hn Hvm. unfold mbind, prog_bind. specialize (Hc vm0 n vm ltac:(lia) Hvm).
  destruct (c vm) as [[a|e|] vm']; [|done|done]. destruct Hc as (Ha & Hvm').
  specialize (Hf a Ha vm0 (n + k1) vm' ltac:(lia) Hvm'). by rewrite Z.add_assoc.
Qed.

Lemma esafe_weaken {A} (X X' : Prop) k k' (Q Q' : A -> Prop) c :
  (X -> X') -> k <= k' -> (forall a, Q a -> Q' a) -> esafe X k Q c -> esafe X' k' Q' c.
Proof.
  intros HX Hk HQ Hc vm0 n vm Hn Hvm. specialize (Hc vm0 n vm ltac:(lia) Hvm).
  destruct (c vm) as [[a|e|] vm']; [|done|auto]. destruct Hc as [? ?]. split; [auto|].
  eapply engine_ok_mono; [|done]. lia.
Qed.

Lemma esafe_gets {A} X k (Q : A -> Prop) f : 0 <= k -> (forall vm, Q (f vm)) -> esafe X k Q (gets f).
Proof. intros ? HQ vm0 n vm ? Hvm. cbn. split; [done|]. eapply engine_ok_mono; [|done]. lia. Qed.

Lemma esafe_lift {A} (X : Prop) k (Q : A -> Prop) (o : result A) :
  0 <= k -> (o = Panic -> X) -> (forall a, o = Ret a -> Q a) -> esafe X k Q (lift o).
Proof.
  intros ? HX HQ vm0 n vm ? Hvm. cbn. destruct o; auto. split; [auto|]. eapply engine_ok_mono; [|done]. lia.
Qed.

Lemma esafe_fail_if X k b e : 0 <= k -> esafe X k (fun _ => b = false) (fail_if b e).
Proof. intros. unfold fail_if. destruct b; [apply esafe_throw|by apply esafe_ret]. Qed.

Lemma esafe_fail_ifT X k b e : 0 <= k -> esafe X k (fun _ => True) (fail_if b e).
Proof. intros. unfold fail_if. destruct b; [apply esafe_throw|by apply esafe_ret]. Qed.

Lemma esafe_on_d {A} X k k' (Q : A -> Prop) c : 0 <= k <= k' -> ssafe k Q c -> esafe X k' Q (on_d c).
Proof.
  intros Hk Hc vm0 n vm Hn (Hst & (Hd & Ha & Hrest) & Hpos). unfold on_d, zoom.
  specialize (Hc n (dstack vm) ltac:(lia) Hd). destruct (c (dstack vm)) as [[a|e|] s]; [|done|done].
  destruct Hc as (HQ & Hs & Hm). split; [done|]. split; [|split; [|done]].
  - unfold stable in *. cbn. intuition congruence.
  - split; [|split; [|done]]; [eapply stack_ok_mono; [|done]; lia|eapply stack_ok_mono; [|exact Ha]; lia].
Qed.

Lemma esafe_on_a {A} X k k' (Q : A -> Prop) c : 0 <= k <= k' -> ssafe k Q c -> esafe X k' Q (on_a c).
Proof.
  intros Hk Hc vm0 n vm Hn (Hst & (Hd & Ha & Hrest) & Hpos). unfold on_a, zoom.
  specialize (Hc n (astack vm) ltac:(lia) Ha). destruct (c (astack vm)) as [[a|e|] s]; [|done|done].
  destruct Hc as (HQ & Hs & Hm). split; [done|]. split; [done|split; [|done]].
  split; [|split; [|done]]; [eapply stack_ok_mono; [|exact Hd]; lia|eapply stack_ok_mono; [|done]; lia].
Qed.
(** The first part of a sequence adds nothing. *)
Lemma esafe_bind0 {A B} X k (Q1 : A -> Prop) (Q2 : B -> Prop) c f :
  0 <= k -> esafe X 0 Q1 c -> (forall a, Q1 a -> esafe X k Q2 (f a)) -> esafe X k Q2 (c ≫= f).
Proof. intros. change k with (0 + k). by eapply esafe_bind. Qed.

Lemma esafe_dPop X : esafe X 0 item_ok dPop.
Proof. apply (esafe_on_d _ 0); [lia|apply ssafe_pop]. Qed.
Lemma esafe_aPop X : esafe X 0 item_ok (on_a PopByteArray).
Proof. apply (esafe_on_a _ 0); [lia|apply ssafe_pop]. Qed.
Lemma esafe_dPopInt X : esafe X 0 operand dPopInt.
Proof. apply (esafe_on_d _ 0); [lia|apply ssafe_popint]. Qed.
Lemma esafe_dPopBool X : esafe X 0 (fun _ => True) dPopBool.
Proof. apply (esafe_on_d _ 0); [lia|apply ssafe_popbool]. Qed.
Lemma esafe_dPeek X idx : esafe X 0 item_ok (dPeek idx).
Proof. apply (esafe_on_d _ 0); [lia|apply ssafe_peek]. Qed.
Lemma esafe_dPush X k b : 1 <= k -> item_ok b -> esafe X k (fun _ => True) (dPush b).
Proof. intros. apply (esafe_on_d _ 1); [lia|by apply ssafe_push]. Qed.
Lemma esafe_aPush X k b : 1 <= k -> item_ok b -> esafe X k (fun _ => True) (on_a (PushByteArray b)).
Proof. intros. apply (esafe_on_a _ 1); [lia|by apply ssafe_push]. Qed.
Lemma esafe_dPushInt X k z : 1 <= k -> - 2 ^ 63 < z < 2 ^ 63 -> esafe X k (fun _ => True) (dPushInt z).
Proof. intros. apply (esafe_on_d _ 1); [lia|by apply ssafe_pushint]. Qed.
Lemma esafe_dPushBool X k b : 1 <= k -> esafe X k (fun _ => True) (dPushBool b).
Proof. intros. apply (esafe_on_d _ 1); [lia|apply ssafe_pushbool]. Qed.
Lemma esafe_push_test X k b : 1 <= k -> esafe X k (fun _ => True) (push_test b).
Proof. intros. apply esafe_dPushInt; [lia|]. destruct b; lia. Qed.

Lemma esafe_gets' {A} X k (f : Engine -> A) : 0 <= k -> esafe X k (fun _ => True) (gets f).
Proof. intros. by apply esafe_gets. Qed.

Lemma esafe_lift_num X k v m l : 0 <= k -> esafe X k (fun _ => True) (lift (makeScriptNum v m l)).
Proof. intros. apply esafe_lift; [lia| |done]. intros Hp. by apply makeScriptNum_no_panic in Hp. Qed.

Lemma esafe_verifyLockTime X k a b c : 0 <= k -> esafe X k (fun _ => True) (lift (verifyLockTime a b c)).
Proof. intros. apply esafe_lift; [lia| |done]. unfold verifyLockTime. by repeat case_if. Qed.

Lemma esafe_txInput X k : 0 <= k -> esafe X k (fun _ => True) txInput.
Proof.
  intros Hk vm0 n vm Hn Hvm. unfold txInput.
  pose proof Hvm as (_ & _ & _ & Hi & _). destruct (index_total (E := script_error) _ _ Hi) as (x & -> & _).
  split; [done|]. eapply engine_ok_mono; [|done]. lia.
Qed.

Lemma values_ok_cond n vm l :
  Forall (fun c => c = OpCondFalse \/ c = OpCondTrue \/ c = OpCondSkip) l -> values_ok n vm ->
  values_ok n (set_condStack vm l).
Proof. intros Hl (? & ? & _ & ?). split; [done|]. split; [done|]. split; [exact Hl|done]. Qed.

Lemma esafe_push_cond X k c :
  0 <= k -> c = OpCondFalse \/ c = OpCondTrue \/ c = OpCondSkip -> esafe X k (fun _ => True) (push_cond c).
Proof.
  intros Hk Hc vm0 n vm Hn Hvm. cbn. split; [done|].
  apply (engine_ok_mono _ n); [lia|]. destruct Hvm as (? & Hv & ?).
  split; [done|]. split; [|done]. apply values_ok_cond; [|done]. destruct Hv as (_ & _ & Hcs & _).
  apply Forall_app. split; [done|by constructor].
Qed.
End engine.

Create HintDb safe.
#[export] Hint Resolve esafe_dPop esafe_aPop esafe_dPopInt esafe_dPopBool esafe_dPeek esafe_dPush esafe_aPush
  esafe_dPushBool esafe_push_test esafe_lift_num esafe_verifyLockTime esafe_txInput esafe_throw : safe.
#[export] Hint Resolve esafe_fail_if esafe_gets' : safe.
#[export] Hint Extern 1 (_ <= _) => lia : safe.

Lemma digest_item `{HashFunctions} b :
  item_ok (sha256_Sum256 b) /\ item_ok (sha1_Sum b) /\ item_ok (ripemd160_Sum b).
Proof.
  unfold item_ok, len, MaxScriptElementSize. rewrite sha256_length, sha1_length, ripemd160_length.
  split_and!; auto with golib; lia.
Qed.
Lemma sha256_item `{HashFunctions} b : item_ok (sha256_Sum256 b).
Proof. apply digest_item. Qed.
Lemma sha1_item `{HashFunctions} b : item_ok (sha1_Sum b).
Proof. apply digest_item. Qed.
Lemma ripemd160_item `{HashFunctions} b : item_ok (ripemd160_Sum b).
Proof. apply digest_item. Qed.
Lemma nil_item : item_ok [].
Proof. split; [constructor|done]. Qed.
#[export] Hint Resolve sha256_item sha1_item ripemd160_item nil_item : safe.

(** The range of an int64 computed from operands. *)
Ltac int_range :=
  unfold operand in *; repeat case_if; rewrite ?int64_small by lia; lia.

Ltac safe_step :=
  lazymatch goal with
  | |- esafe _ _ _ (_ ≫= _) => eapply esafe_bind0; [lia|solve [eauto with safe]|intros ? ?; cbn beta]
  | |- esafe _ _ _ (let _ := _ in _) => cbv zeta
  | |- esafe _ _ _ (if ?b then _ else _) => destruct b eqn:?
  | |- esafe _ _ _ (dPushInt _) => apply esafe_dPushInt; [lia|int_range]
  | |- esafe _ _ _ (mret _) => apply esafe_ret; [lia|done]
  | |- esafe _ _ _ (fail_if _ _) => apply esafe_fail_ifT; lia
  | |- esafe _ _ _ (push_cond _) => apply esafe_push_cond; [lia|repeat case_if; auto]
  | |- esafe _ _ _ (on_d (DropN _)) => apply (esafe_on_d _ 0); [lia|apply ssafe_DropN]
  | |- esafe _ _ _ (on_d (DupN _)) => apply (esafe_on_d _ 3); [lia|apply ssafe_DupN; lia]
  | |- esafe _ _ _ (on_d (RotN _)) => apply (esafe_on_d _ 3); [lia|apply ssafe_RotN; lia]
  | |- esafe _ _ _ (on_d (SwapN _)) => apply (esafe_on_d _ 3); [lia|apply ssafe_SwapN; lia]
  | |- esafe _ _ _ (on_d (OverN _)) => apply (esafe_on_d _ 3); [lia|apply ssafe_OverN; lia]
  | |- esafe _ _ _ (on_d (PickN _)) => apply (esafe_on_d _ 1); [lia|apply ssafe_PickN]
  | |- esafe _ _ _ (on_d (RollN _)) => apply (esafe_on_d _ 1); [lia|apply ssafe_RollN]
  | |- esafe _ _ _ (on_d (NipN _)) => apply (esafe_on_d _ 0); [lia|apply ssafe_NipN]
  | |- esafe _ _ _ (on_d Tuck) => apply (esafe_on_d _ 3); [lia|apply ssafe_Tuck]
  | |- esafe _ _ _ _ => solve [eauto with safe]
  end.
Ltac safe := repeat safe_step.

Section handlers.
Context {HF : HashFunctions} {BC : Btcec} {EV : Env}.

Definition is_sig_handler (h : handler) : Prop :=
  h = fn_opcodeCheckSig \/ h = fn_opcodeCheckSigVerify \/ h = fn_opcodeCheckMultiSig \/ h = fn_opcodeCheckMultiSigVerify.

#[global] Instance is_sig_handler_dec h : Decision (is_sig_handler h).
Proof. unfold is_sig_handler. apply _. Defined.

Lemma pop_wf_data pop : pop_wf pop -> bytes_ok (pop_data pop).
Proof.
  intros (b & _ & _ & Hd). unfold pop_data. case_if; [by rewrite Hd|]. by destruct Hd as (d & -> & ?).
Qed.

Lemma esafe_cond X k f (g : Engine -> list Z) e :
  0 <= k ->
  (forall vm, Forall (fun c => c = OpCondFalse \/ c = OpCondTrue \/ c = OpCondSkip) (condStack vm) ->
              Forall (fun c => c = OpCondFalse \/ c = OpCondTrue \/ c = OpCondSkip) (g vm)) ->
  esafe X k (fun _ => True) (fun vm => if (f vm : bool) then (Err e, vm) else (Ret tt, set_condStack vm (g vm))).
Proof.
  intros Hk Hg vm0 n vm Hn Hvm. case_if; [done|]. split; [done|].
  apply (engine_ok_mono _ n); [lia|]. destruct Hvm as (? & Hv & ?). split; [done|]. split; [|done].
  apply values_ok_cond; [|done]. destruct Hv as (_ & _ & ? & _). auto.
Qed.

Lemma Forall_alter {A} (P : A -> Prop) f i (l : list A) :
  Forall P l -> (forall x, P x -> P (f x)) -> Forall P (alter f i l).
Proof.
  intros Hl Hf. revert i. induction Hl as [|x l Hx Hl IH]; intros [|i]; cbn; constructor; auto.
Qed.

Lemma handler_else X op : esafe X 3 (fun _ => True) (opcodeElse op).
Proof.
  apply (esafe_cond X 3 (fun vm => len (condStack vm) =? 0)); [lia|]. intros vm Hvm.
  apply Forall_alter; [done|]. intros c Hc. unfold flip_cond. destruct Hc as [-> | [-> | ->]]; auto.
Qed.

Lemma handler_endif X op : esafe X 3 (fun _ => True) (opcodeEndif op).
Proof. apply (esafe_cond X 3 (fun vm => len (condStack vm) =? 0)); [lia|]. intros vm Hvm. by apply Forall_take. Qed.

Lemma handler_nop X op : esafe X 3 (fun _ => True) (opcodeNop op).
Proof. intros vm0 n vm Hn Hvm. unfold opcodeNop. case_if; [done|]. split; [done|]. eapply engine_ok_mono; [|done]. lia. Qed.

Lemma handler_depth X op : esafe X 3 (fun _ => True) (opcodeDepth op).
Proof.
  eapply (esafe_bind0 _ _ (fun d => - 2 ^ 31 <= d < 2 ^ 31)); [lia| |intros d Hd; apply esafe_dPushInt; lia].
  apply esafe_gets; [lia|]. intros vm. unfold Depth. apply (wrapS_range 32). lia.
Qed.

Lemma handler_size X op : esafe X 3 (fun _ => True) (opcodeSize op).
Proof.
  eapply (esafe_bind0 _ _ item_ok); [lia|auto with safe|]. intros b [_ Hb]. apply esafe_dPushInt; [lia|].
  unfold MaxScriptElementSize in Hb. pose proof (len_nonneg b). lia.
Qed.

(** The operation count, checked against its limit. *)
Lemma esafe_count {A} (X : Prop) k (Q : A -> Prop) d e (f : method Engine A) :
  0 <= k -> 0 <= d -> esafe X k Q f ->
  esafe X k Q (modify (fun vm => set_numOps vm (numOps vm + d));;
               ops ← gets numOps; fail_if (ops >? MaxOpsPerScript) e;; f).
Proof.
  intros Hk Hd Hf vm0 n vm Hn (Hst & Hv & Hpos). steps.
  destruct (numOps (set_numOps vm (numOps vm + d)) >? MaxOpsPerScript) eqn:Hops; [done|]. steps.
  apply Hf; [done|]. split; [done|]. split; [|done].
  destruct Hv as (? & ? & ? & ? & ? & ?). cbn in Hops. bool_to_prop.
  do 3 (split; [done|]). split; [cbn; lia|done].
Qed.

Lemma esafe_popN X n : esafe X 0 (Forall item_ok) (popN n).
Proof.
  induction n as [|n IH]; cbn [popN]; [apply esafe_ret; [lia|constructor]|].
  eapply esafe_bind0; [lia|auto with safe|]. intros b Hb. eapply esafe_bind0; [lia|exact IH|].
  intros bs Hbs. apply esafe_ret; [lia|by constructor].
Qed.

Lemma esafe_signatureHash k s h : 0 <= k -> esafe True k (fun _ => True) (signatureHash s h).
Proof.
  intros Hk vm0 n vm Hn Hvm. unfold signatureHash. destruct (calcWitnessSignatureHash _ _ _ _ _ _); [|done|done].
  split; [done|]. eapply engine_ok_mono; [|done]. lia.
Qed.

Lemma esafe_verifySignature X k s h p : 0 <= k -> esafe X k (fun _ => True) (verifySignature s h p).
Proof.
  intros Hk vm0 n vm Hn (Hst & Hv & Hpos). unfold verifySignature.
  destruct (cached_Verify (sigCache vm) s h p) as [v c] eqn:Hc. split; [done|].
  split; [done|]. split; [|done]. apply (values_ok_mono n); [lia|].
  destruct Hv as (? & ? & ? & ? & ? & Hs). do 5 (split; [done|]). intros c' Hc'. cbn in Hc'.
  apply (cached_Verify_sound (sigCache vm) s h p); [done|by rewrite Hc].
Qed.

Lemma esafe_subScript X k : 0 <= k -> esafe X k (fun _ => True) subScript.
Proof.
  intros Hk vm0 n vm Hn Hvm. pose proof Hvm as (_ & (_ & _ & _ & _ & Hsep & _) & _ & _ & s & Hi & Hs & Ho).
  unfold subScript. rewrite (proj2 (index_Ret _ _ _) (conj Hi Hs)). cbn [mbind outcome_bind].
  rewrite slice_Ret by lia. split; [done|]. eapply engine_ok_mono; [|done]. lia.
Qed.

Lemma esafe_liftT {A} k (o : result A) : 0 <= k -> esafe True k (fun _ => True) (lift o).
Proof. intros. by apply esafe_lift. Qed.

Hint Resolve esafe_signatureHash esafe_verifySignature esafe_subScript esafe_liftT esafe_popN : safe.

Lemma esafe_multisig s pubKeys : forall sigs, esafe True 0 (fun _ => True) (multisig_loop s pubKeys sigs).
Proof.
  induction pubKeys as [|pubKey pubKeys IH]; intros [|sigInfo sigs]; cbn [multisig_loop]; safe; try apply IH.
  destruct a as [hashType sg]. safe.
  destruct (parsedSignature _); [|apply IH]. safe. destruct (ParsePubKey _); [|apply IH]. safe; apply IH.
Qed.

Lemma handler_checksig op : esafe True 1 (fun _ => True) (opcodeCheckSig op).
Proof.
  unfold opcodeCheckSig. safe. destruct a1 as [hashType sg]. safe.
  destruct (ParsePubKey _); [|safe]. destruct (ParseDERSignature _); safe.
Qed.

Lemma handler_multisig op : esafe True 1 (fun _ => True) (opcodeCheckMultiSig op).
Proof.
  unfold opcodeCheckMultiSig. do 3 safe_step. apply esafe_count; [lia|cbn beta in *; bool_to_prop; lia|].
  do 7 safe_step. eapply esafe_bind0; [lia|apply esafe_multisig|]. intros. safe.
Qed.

Lemma handler_verify X k op : 0 <= k -> esafe X k (fun _ => True) (opcodeVerify op).
Proof.
  intros. unfold opcodeVerify. safe_step. eapply esafe_weaken; [| | |apply (esafe_fail_if _ 0)]; done.
Qed.

Lemma then_verify X op (f : handler_fn) :
  esafe X 1 (fun _ => True) (f op) -> esafe X 3 (fun _ => True) (f op;; opcodeVerify op).
Proof. intros Hf. change 3 with (1 + 2). eapply esafe_bind; [lia|exact Hf|]. intros. by apply handler_verify. Qed.

Lemma handler_codesep X op : esafe X 3 (fun _ => True) (opcodeCodeSeparator op).
Proof.
  intros vm0 n vm Hn (Hst & Hv & Hpos). split; [done|]. split; [done|]. split; [|done].
  apply (values_ok_mono n); [lia|]. destruct Hv as (? & ? & ? & ? & ? & ?).
  do 4 (split; [done|]). split; [cbn; lia|done].
Qed.

Lemma esafe_grow {X X' : Prop} k k' (c : method Engine unit) :
  (X -> X') -> k <= k' -> esafe X k (fun _ => True) c -> esafe X' k' (fun _ => True) c.
Proof. intros HX Hk. by apply esafe_weaken. Qed.

Lemma handler_equal X op : esafe X 1 (fun _ => True) (opcodeEqual op).
Proof. unfold opcodeEqual. safe. Qed.
Lemma handler_numequal X op : esafe X 1 (fun _ => True) (opcodeNumEqual op).
Proof. unfold opcodeNumEqual. safe. Qed.

Hint Resolve handler_else handler_endif handler_nop handler_depth handler_size handler_codesep : safe.
Hint Resolve handler_equal handler_numequal then_verify : safe.

(** Every handler is safe; only the four signature handlers may panic. *)
Lemma handler_safe h pop :
  item_ok (pop_data pop) -> esafe (is_sig_handler h) 3 (fun _ => True) (opfunc_of h pop).
Proof.
  intros Hpop. destruct (decide (h = fn_opcodeN)) as [->|Hn].
  { apply esafe_dPushInt; [lia|]. pose proof (wrapU_range 8 (pop_value pop - (OP_1 - 1))). lia. }
  unfold is_sig_handler. destruct h; cbn [opfunc_of]; try done.
  all: try solve [auto with safe].
  all: try solve [match goal with |- esafe _ _ _ (?f _) => unfold f end; safe].
  all: try solve [unfold opcodeRipemd160, opcodeSha1, opcodeSha256, opcodeHash160, opcodeHash256, DoubleHashB; safe].
  - eapply esafe_grow; [| |apply handler_checksig]; [tauto|lia].
  - eapply esafe_grow; [| |apply then_verify, handler_checksig]; [tauto|lia].
  - eapply esafe_grow; [| |apply handler_multisig]; [tauto|lia].
  - eapply esafe_grow; [| |apply then_verify, handler_multisig]; [tauto|lia].
Qed.

Lemma wf_data_push pop : pop_wf pop -> pop_value pop > OP_16 -> pop_data pop = [].
Proof.
  intros (b & Hb & Hop & Hd) Hv. unfold pop_value in Hv. rewrite Hop, opcode_at_value in Hv by done.
  unfold pop_data. unfold OP_16 in Hv.
  destruct (opcode_at_length b Hb) as [H1|[[Hr Hr']|[[_ ->]|[[_ ->]|[_ ->]]]]];
    [|lia|by vm_compute in Hv..]. rewrite H1 in Hd. cbn in Hd. by rewrite Hd.
Qed.

Lemma esafe_count_end (X : Prop) k d e (Q : unit -> Prop) :
  0 <= k -> 0 <= d -> Q tt ->
  esafe X k Q (modify (fun vm => set_numOps vm (numOps vm + d));;
               ops ← gets numOps; fail_if (ops >? MaxOpsPerScript) e).
Proof.
  intros Hk Hd HQ vm0 n vm Hn Hvm.
  pose proof (esafe_count X k Q d e (mret tt) Hk Hd (esafe_ret X k Q tt Hk HQ) vm0 n vm Hn Hvm) as Hc.
  revert Hc. steps. unfold fail_if. by destruct (_ >? MaxOpsPerScript).
Qed.

Lemma executeOpcode_safe pop :
  pop_wf pop -> esafe (is_sig_handler (opfunc (opcode_of pop))) 3 (fun _ => True) (executeOpcode pop).
Proof.
  intros Hwf. unfold executeOpcode. do 2 safe_step.
  eapply (esafe_bind0 _ _ (fun _ => item_ok (pop_data pop))); [lia| |].
  { case_if; bool_to_prop.
    - apply esafe_count_end; [lia|lia|]. rewrite wf_data_push by (done || lia). apply nil_item.
    - eapply esafe_weaken; [| | |apply (esafe_fail_if _ 0); lia]; [done|lia|].
      intros u Hf. cbn beta in Hf. bool_to_prop. split; [by apply pop_wf_data|lia]. }
  intros _ Hitem. safe_step. safe_step; [safe|]. safe_step.
  eapply (esafe_bind0 _ _ (fun _ => True)); [lia| |intros _ _; by apply handler_safe].
  case_if; [|safe]. apply esafe_lift; [lia| |done]. unfold checkMinimalDataPush, check. by repeat case_if.
Qed.
End handlers.

(** * Steps *)

Section steps.
Context {HF : HashFunctions} {BC : Btcec} {EV : Env}.

(** The invariant at the boundary of two steps. *)
Definition vm_ok (vm : Engine) : Prop :=
  values_ok maxStackSize vm /\ len (stk (dstack vm)) + len (stk (astack vm)) <= maxStackSize /\
  Forall (Forall pop_wf) (scripts vm) /\ 0 <= txIdx vm < len (TxIns (tx vm)) /\ msgtx_ok (tx vm) /\
  0 <= scriptIdx vm /\ 0 <= scriptOff vm.

(** The opcode Step is about to execute. *)
Definition current (vm : Engine) (pop : parsedOpcode) : Prop :=
  0 <= scriptIdx vm /\ 0 <= scriptOff vm /\
  exists s, scripts vm !! Z.to_nat (scriptIdx vm) = Some s /\ s !! Z.to_nat (scriptOff vm) = Some pop.

Lemma drop_all s : small s -> ignore_err (DropN (Depth s)) s = (Ret tt, set_stk s []).
Proof.
  intros Hs. rewrite Depth_small by done. unfold ignore_err, DropN. destruct (Z.ltb_spec (len (stk s)) 1).
  - pose proof (len_nonneg (stk s)). cbn. f_equal. apply stack_eta, len_zero_iff. lia.
  - pose proof (times_pop s (stk s) [] ltac:(unfold small in Hs; change (len (@nil bytes)) with 0; lia)) as Ht.
    cbn [app] in Ht. rewrite set_stk_stk in Ht. rewrite to_nat_len, Ht. done.
Qed.

Lemma ignore_on_a vm : small (astack vm) ->
  ignore_err (on_a (DropN (Depth (astack vm)))) vm = (Ret tt, set_astack vm (set_stk (astack vm) [])).
Proof.
  intros Hs. pose proof (drop_all (astack vm) Hs) as Hd. unfold ignore_err, on_a, zoom in *.
  destruct (DropN _ (astack vm)) as [[?|?|] s']; simplify_eq; done.
Qed.

Lemma ignore_on_d vm : small (dstack vm) ->
  ignore_err (on_d (DropN (Depth (dstack vm)))) vm = (Ret tt, set_dstack vm (set_stk (dstack vm) [])).
Proof.
  intros Hs. pose proof (drop_all (dstack vm) Hs) as Hd. unfold ignore_err, on_d, zoom in *.
  destruct (DropN _ (dstack vm)) as [[?|?|] s']; simplify_eq; done.
Qed.

(** The lock script is the push of the eight bytes, OP_CHECKSEQUENCEVERIFY and OP_DROP. *)
Definition lock_pops (lock : Z) : list parsedOpcode :=
  [mkParsed (opcode_at OP_DATA_8) (Some (le_encode 8 lock));
   mkParsed (opcode_at OP_CHECKSEQUENCEVERIFY) None; mkParsed (opcode_at OP_DROP) None].

Lemma lock_script_run lock : lock_script lock = Ret (lock_pops lock).
Proof.
  unfold lock_pops. set (d := le_encode 8 lock).
  assert (exists a b c e f g h i, d = [a; b; c; e; f; g; h; i]) as (a & b & c & e & f & g & h & i & Hd)
    by (unfold d; cbn; do 8 eexists; reflexivity).
  unfold lock_script. fold d. rewrite Hd. vm_compute. reflexivity.
Qed.

Lemma lock_pops_wf lock : Forall pop_wf (lock_pops lock).
Proof.
  unfold lock_pops. apply Forall_cons; split; [|apply Forall_cons; split; [|apply Forall_cons; split; [|constructor]]].
  - exists OP_DATA_8. split; [vm_compute; split; congruence|]. split; [done|].
    exact (ex_intro _ (le_encode 8 lock) (conj eq_refl (le_encode_ok 8 lock))).
  - exists OP_CHECKSEQUENCEVERIFY. split; [vm_compute; split; congruence|]. done.
  - exists OP_DROP. split; [vm_compute; split; congruence|]. done.
Qed.

(** The lock a witness extension program imposes, if any. *)
Definition extension_lock (vm : Engine) : result (option Z) :=
  match witnessExtProg vm with
  | [] => Ret None
  | [e] =>
      if len (pop_data e) =? WitnessV0FrozenPeriodDataSize then
        frozenPeriod ← makeScriptNum (pop_data e) (verifyMinimalData (dstack vm)) 9;
        if (frozenPeriod <? 0) || (int64 (frozenPeriod + 1) <? 0) then Err (ErrInvalidFrozenPeriod frozenPeriod)
        else Ret (Some (uint64 (int64 (frozenPeriod + 1))))
      else if (len (pop_data e) =? OP_DATA_20) || (len (pop_data e) =? OP_DATA_22) then
        Ret (if hasFlag vm ScriptMASSip2 then Some MASSIP0002BindingLockedPeriod else None)
      else Err ErrWitnessExtProgUnknown
  | _ => Err ErrWitnessExtProgUnknown
  end.

Definition lock_scripts (lock : option Z) : list (list parsedOpcode) :=
  match lock with Some l => [lock_pops l] | None => [] end.

Lemma set_scripts_nil vm : set_scripts vm (scripts vm ++ []) = vm.
Proof. rewrite app_nil_r. by destruct vm. Qed.

Lemma witness_extension_run vm :
  witness_extension vm =
  match extension_lock vm with
  | Ret lock => (Ret tt, set_scripts vm (scripts vm ++ lock_scripts lock))
  | Err e => (Err e, vm)
  | Panic => (Panic, vm)
  end.
Proof.
  unfold witness_extension, extension_lock. steps.
  destruct (witnessExtProg vm) as [|e [|? ?]]; [by rewrite set_scripts_nil| |done].
  case_if.
  { steps. destruct (makeScriptNum _ _ 9) as [fp|?|]; steps; try done. cbn [mbind outcome_bind].
    case_if; steps; [done|]. by rewrite lock_script_run. }
  case_if; [|done]. steps. destruct (hasFlag vm ScriptMASSip2); [|by rewrite set_scripts_nil].
  by rewrite lock_script_run.
Qed.

Lemma extension_lock_no_panic vm : extension_lock vm <> Panic.
Proof.
  unfold extension_lock. destruct (witnessExtProg vm) as [|e [|? ?]]; [done| |done]. case_if.
  - pose proof (makeScriptNum_no_panic (pop_data e) (verifyMinimalData (dstack vm)) 9).
    destruct (makeScriptNum _ _ 9); [|done|done]. cbn. by case_if.
  - by case_if.
Qed.

Lemma add_witness_script_run w vm :
  add_witness_script w vm =
  if len w >? maxScriptSize then (Err ErrScriptTooBig, vm)
  else match parse_ok w with
       | Ret pops => (Ret tt, set_scripts vm (scripts vm ++ [pops]))
       | Err e => (Err e, vm)
       | Panic => (Panic, vm)
       end.
Proof. unfold add_witness_script. case_if; steps; [done|]. by destruct (parse_ok w). Qed.

Lemma parse_ok_wf w pops : bytes_ok w -> parse_ok w = Ret pops -> Forall pop_wf pops.
Proof.
  intros Hw Hp. pose proof (parseScript_wf w Hw) as Hwf. unfold parse_ok in Hp.
  destruct (parseScript w) as [ps [e|]]; [done|]. by simplify_eq.
Qed.

Lemma parse_ok_no_panic w : parse_ok w <> Panic.
Proof. unfold parse_ok. by destruct (parseScript w) as [? [?|]]. Qed.

(** What verifying the witness program amounts to. *)
Lemma verifyWitnessProgram_run w vm :
  match verifyWitnessProgram w vm with
  | (Ret _, vm') => exists w0 w1 lock p0 p1,
      w = [w0; w1] /\ isWitnessVersionActive vm 0 = true /\
      witnessProgram vm = Some (sha256_Sum256 w1) /\ extension_lock vm = Ret lock /\
      len w0 <= maxScriptSize /\ len w1 <= maxScriptSize /\
      parse_ok w0 = Ret p0 /\ parse_ok w1 = Ret p1 /\
      vm' = set_scripts vm (scripts vm ++ lock_scripts lock ++ [p0; p1])
  | (Err _, _) => True
  | (Panic, _) => False
  end.
Proof.
  unfold verifyWitnessProgram. steps.
  destruct (isWitnessVersionActive vm 0) eqn:Hact; cbn [negb]; steps; [|done].
  destruct w as [|w0 [|w1 [|? ?]]]; try done.
  destruct (_ || _); steps; [done|].
  destruct (bytes_Equal _ _) eqn:Hprog; cbn [negb]; steps; [|done].
  apply bytes_Equal_true in Hprog.
  assert (witnessProgram vm = Some (sha256_Sum256 w1)) as Hwp.
  { unfold isWitnessVersionActive in Hact. destruct (witnessProgram vm); [|done]. cbn in Hprog. by subst. }
  unfold mbind at 1, prog_bind at 1. rewrite witness_extension_run.
  pose proof (extension_lock_no_panic vm). destruct (extension_lock vm) as [lock| |] eqn:Hlock; [|done|done].
  unfold mbind at 1, prog_bind at 1. rewrite add_witness_script_run. case_if; [done|].
  pose proof (parse_ok_no_panic w0). destruct (parse_ok w0) as [p0| |] eqn:Hp0; [|done|done].
  unfold mbind at 1, prog_bind at 1. rewrite add_witness_script_run. case_if; [done|].
  pose proof (parse_ok_no_panic w1). destruct (parse_ok w1) as [p1| |] eqn:Hp1; [|done|done].
  unfold GetStack. steps. unfold fail_if. case_if; [done|]. bool_to_prop.
  exists w0, w1, lock, p0, p1. split_and!; try done. cbn. by rewrite <- !app_assoc.
Qed.

(** * One step *)

(** The opcodes left to execute, with an allowance for the witness scripts that are still
    to be loaded. *)
Definition pending_witness (vm : Engine) : bool :=
  (scriptIdx vm =? 0) && bool_decide (is_Some (witnessProgram vm)).

Definition witness_budget : Z := 3 + 2 * maxScriptSize.

Definition todo (vm : Engine) : Z :=
  len (concat (drop (Z.to_nat (scriptIdx vm)) (scripts vm))) - scriptOff vm +
  (if pending_witness vm then witness_budget else 0).

(** What no step changes. *)
Definition same_job (vm vm' : Engine) : Prop :=
  tx vm' = tx vm /\ txIdx vm' = txIdx vm /\ flags vm' = flags vm /\ hashCache vm' = hashCache vm /\
  witnessVersion vm' = witnessVersion vm /\ witnessProgram vm' = witnessProgram vm /\
  witnessExtProg vm' = witnessExtProg vm /\ inputAmount vm' = inputAmount vm.

Lemma unparse_length pops : forall s, Forall pop_wf pops -> unparseScript pops = Ret s -> len pops <= len s.
Proof.
  induction pops as [|pop pops IH]; intros s Hwf Hs; [cbn in Hs; by simplify_eq|].
  apply Forall_cons in Hwf as [Hp Hwf]. cbn [unparseScript] in Hs.
  apply bind_Ret in Hs as (b & Hb & (t & Ht & Heq)%bind_Ret). simplify_eq.
  destruct (parse_one pop b [] 0 [] Hp Hb) as [Hne _]. specialize (IH t Hwf Ht).
  destruct b as [|x b]; [done|]. rewrite len_app, !len_cons. pose proof (len_nonneg b). lia.
Qed.

Lemma parse_ok_length w pops : bytes_ok w -> parse_ok w = Ret pops -> len pops <= len w.
Proof.
  intros Hw Hp. destruct (parse_loop_spec (length w) w [] Hw) as
    (ps & p & rest & oe & Heq & Hs & Hun & Hwf & Hoe); [lia|].
  unfold parse_ok, parseScript, parseScriptTemplate in Hp. rewrite Heq in Hp. cbn in Hp.
  destruct oe; [done|]. simplify_eq. pose proof (unparse_length _ _ Hwf Hun).
  rewrite len_app. pose proof (len_nonneg rest). lia.
Qed.

Lemma validPC_run vm :
  match validPC vm with
  | (Ret _, vm') => vm' = vm /\ (0 <= scriptIdx vm -> exists s,
      scripts vm !! Z.to_nat (scriptIdx vm) = Some s /\ scriptOff vm < len s)
  | (Err _, _) => True
  | (Panic, _) => scriptIdx vm < 0
  end.
Proof.
  unfold validPC. case_if; [done|]. bool_to_prop.
  destruct (index (scripts vm) (scriptIdx vm)) as [s| |] eqn:Hs; [|done|].
  - apply index_Ret in Hs as [_ Hs]. case_if; [done|]. bool_to_prop. split; [done|]. intros _. exists s. split; [done|lia].
  - apply index_Panic in Hs. lia.
Qed.

Lemma drop_script {A} (l : list A) i s : l !! i = Some s -> drop i l = s :: drop (S i) l.
Proof. revert i. induction l as [|x l IH]; intros [|i] Hl; simplify_eq/=; [done|]. by apply IH. Qed.

(** The script at the program counter and the rest. *)
Lemma todo_split vm s :
  0 <= scriptIdx vm -> scripts vm !! Z.to_nat (scriptIdx vm) = Some s ->
  todo vm = len s - scriptOff vm + len (concat (drop (Z.to_nat (scriptIdx vm + 1)) (scripts vm))) +
            (if pending_witness vm then witness_budget else 0).
Proof.
  intros Hi Hs. unfold todo. rewrite (drop_script _ _ _ Hs). cbn [concat].
  replace (Z.to_nat (scriptIdx vm + 1)) with (S (Z.to_nat (scriptIdx vm))) by lia. rewrite len_app. lia.
Qed.

Lemma enter_script_run vm :
  0 <= scriptIdx vm -> scriptOff vm = 0 ->
  exists idx', scriptIdx vm <= idx' /\
    len (concat (drop (Z.to_nat idx') (scripts vm))) = len (concat (drop (Z.to_nat (scriptIdx vm)) (scripts vm))) /\
    enter_script vm = (Ret (idx' >=? len (scripts vm)), set_lastCodeSep (set_scriptIdx vm idx') 0).
Proof.
  intros Hi Ho. unfold enter_script. steps. destruct (Z.ltb_spec (scriptIdx vm) (len (scripts vm))) as [Hl|Hl].
  2:{ exists (scriptIdx vm). split; [lia|]. split; [done|]. steps. by destruct vm. }
  steps. destruct (index_total (E := script_error) (scripts vm) (scriptIdx vm)) as (s & -> & Hs); [lia|].
  steps. destruct (scriptOff vm >=? len s) eqn:He.
  - exists (scriptIdx vm + 1). split; [lia|]. bool_to_prop. split; [|done].
    rewrite (drop_script _ _ _ Hs). cbn [concat]. rewrite len_app. pose proof (len_nonneg s).
    replace (Z.to_nat (scriptIdx vm + 1)) with (S (Z.to_nat (scriptIdx vm))) by lia. lia.
  - exists (scriptIdx vm). split; [lia|]. split; [done|]. steps. by destruct vm.
Qed.

(** The parts of the invariant that do not speak of the program counter. *)
Definition job_ok (vm : Engine) : Prop :=
  Forall (Forall pop_wf) (scripts vm) /\ 0 <= txIdx vm < len (TxIns (tx vm)) /\ msgtx_ok (tx vm).

(** An engine between two scripts: nothing on the alternate stack, no open condition. *)
Definition between_scripts (vm : Engine) : Prop :=
  job_ok vm /\ stack_ok maxStackSize (dstack vm) /\ stk (astack vm) = [] /\ condStack vm = [] /\
  numOps vm = 0 /\ scriptOff vm = 0 /\ 1 <= scriptIdx vm /\ (forall c, sigCache vm = Some c -> sound c).

Lemma enter_script_safe vm :
  between_scripts vm ->
  match enter_script vm with
  | (Ret done, vm') => vm_ok vm' /\ same_job vm vm' /\ todo vm' = todo vm
  | _ => False
  end.
Proof.
  intros ((Hwf & Hti & Htx) & Hd & Ha & Hc & Hn & Ho & Hi & Hs).
  destruct (enter_script_run vm ltac:(lia) Ho) as (idx' & Hidx & Hrest & ->).
  split; [|split; [done|]].
  - split; [|split; [cbn; rewrite Ha; destruct Hd; change (len (@nil bytes)) with 0; lia|]].
    + split; [done|]. split; [split; cbn; rewrite Ha; [constructor|done]|].
      cbn. rewrite Hc, Hn, Ho. split_and!; [constructor|unfold MaxOpsPerScript..|]; try lia. done.
    + cbn. split_and!; try done; lia.
  - unfold todo, pending_witness. cbn. rewrite Hrest.
    replace (idx' =? 0) with false by (symmetry; apply Z.eqb_neq; lia).
    replace (scriptIdx vm =? 0) with false by (symmetry; apply Z.eqb_neq; lia). done.
Qed.

Lemma len_concat_drop {A} n (l : list (list A)) : len (concat (drop n l)) <= len (concat l).
Proof.
  revert n. induction l as [|x l IH]; intros [|n]; cbn [drop concat]; try lia.
  rewrite len_app. pose proof (len_nonneg x). specialize (IH n). lia.
Qed.

Lemma concat_drop_app {A} n (l k : list (list A)) :
  len (concat (drop n (l ++ k))) <= len (concat (drop n l)) + len (concat k).
Proof. rewrite drop_app, concat_app, len_app. pose proof (len_concat_drop (n - length l) k). lia. Qed.

Lemma witness_of_tx vm ti :
  msgtx_ok (tx vm) -> index (TxIns (tx vm)) (txIdx vm) = Ret (E := script_error) ti -> Forall bytes_ok (Witness ti).
Proof.
  intros (_ & Hins & _) [_ Hti]%index_Ret. by destruct (Forall_lookup_1 _ _ _ _ Hins Hti) as (_ & _ & ? & _).
Qed.

Lemma len_lock_scripts lock : len (concat (lock_scripts lock)) <= 3.
Proof. destruct lock; [done|]. cbn. unfold len. cbn. lia. Qed.

Lemma load_witness_safe vm :
  between_scripts vm ->
  match load_witness vm with
  | (Ret _, vm') => between_scripts vm' /\ same_job vm vm' /\ todo vm' <= todo vm + witness_budget
  | (Err _, _) => True
  | (Panic, _) => False
  end.
Proof.
  intros ((Hwf & Hti & Htx) & Hd & Ha & Hc & Hn & Ho & Hi & Hs). unfold load_witness. steps.
  destruct (negb _ && negb _); steps; [done|].
  erewrite bind_step by (apply ignore_on_d; eapply stack_ok_small; [|exact Hd]; unfold maxStackSize; lia).
  unfold mbind, prog_bind, txInput. cbn [tx txIdx set_dstack].
  destruct (index_total (E := script_error) _ _ Hti) as (ti & Hidx & _). rewrite Hidx.
  pose proof (witness_of_tx _ _ Htx Hidx) as Hw.
  set (vm1 := set_dstack vm _).
  pose proof (verifyWitnessProgram_run (Witness ti) vm1) as Hv.
  destruct (verifyWitnessProgram (Witness ti) vm1) as [[?|?|] vm']; [|done|done].
  destruct Hv as (w0 & w1 & lock & p0 & p1 & Hwit & _ & _ & _ & Hl0 & Hl1 & Hp0 & Hp1 & ->).
  rewrite Hwit in Hw. apply Forall_cons in Hw as [Hw0 Hw1]. apply Forall_cons in Hw1 as [Hw1 _].
  split; [|split; [done|]].
  - split; [|cbn; split_and!; try done; (constructor || lia || idtac)].
    + split; [|done]. cbn. apply Forall_app. split; [done|]. apply Forall_app. split.
      * destruct lock; cbn; [|constructor]. apply Forall_singleton, lock_pops_wf.
      * apply Forall_cons. split; [exact (parse_ok_wf w0 p0 Hw0 Hp0)|].
        apply Forall_singleton. exact (parse_ok_wf w1 p1 Hw1 Hp1).
  - unfold todo, pending_witness, vm1. cbn.
    replace (scriptIdx vm =? 0) with false by (symmetry; apply Z.eqb_neq; lia). cbn [andb].
    pose proof (parse_ok_length _ _ Hw0 Hp0). pose proof (parse_ok_length _ _ Hw1 Hp1).
    pose proof (len_lock_scripts lock).
    pose proof (concat_drop_app (Z.to_nat (scriptIdx vm)) (scripts vm) (lock_scripts lock ++ [p0; p1])) as Hdrop.
    rewrite concat_app, len_app in Hdrop. cbn [concat] in Hdrop. rewrite app_nil_r, len_app in Hdrop.
    unfold witness_budget. lia.
Qed.

Lemma same_job_trans vm1 vm2 vm3 : same_job vm1 vm2 -> same_job vm2 vm3 -> same_job vm1 vm3.
Proof. unfold same_job. intuition congruence. Qed.

Lemma next_script_safe vm s :
  job_ok vm -> stack_ok maxStackSize (dstack vm) -> stack_ok maxStackSize (astack vm) ->
  (forall c, sigCache vm = Some c -> sound c) ->
  0 <= scriptIdx vm -> scripts vm !! Z.to_nat (scriptIdx vm) = Some s -> scriptOff vm <= len s ->
  match next_script vm with
  | (Ret _, vm') => vm_ok vm' /\ same_job vm vm' /\ todo vm' <= todo vm
  | (Err _, _) => True
  | (Panic, _) => False
  end.
Proof.
  intros Hjob Hd Ha Hs Hi Hscr Hoff. unfold next_script. steps.
  destruct (Z.eqb_spec (len (condStack vm)) 0) as [Hc|]; cbn [negb]; steps; [|done].
  apply len_zero_iff in Hc.
  erewrite bind_step by (apply ignore_on_a; eapply stack_ok_small; [|exact Ha]; unfold maxStackSize; lia).
  steps. set (vm1 := set_scriptIdx _ _). cbn [scriptIdx witnessProgram set_scriptOff set_numOps set_astack].
  fold (pending_witness vm).
  assert (between_scripts vm1) as Hb by (unfold vm1; cbn; split_and!; try done; cbn; lia).
  assert (todo vm1 = len (concat (drop (Z.to_nat (scriptIdx vm + 1)) (scripts vm)))) as Ht1.
  { unfold todo, pending_witness, vm1. cbn.
    replace (scriptIdx vm + 1 =? 0) with false by (symmetry; apply Z.eqb_neq; lia). cbn. lia. }
  pose proof (todo_split vm s Hi Hscr) as Ht. assert (same_job vm vm1) as Hj by done.
  clearbody vm1. destruct (pending_witness vm).
  - unfold mbind, prog_bind. pose proof (load_witness_safe vm1 Hb) as Hl.
    destruct (load_witness vm1) as [[?|?|] vm2]; [|done|done]. destruct Hl as (Hb2 & Hj2 & Ht2).
    pose proof (enter_script_safe vm2 Hb2) as He.
    destruct (enter_script vm2) as [[?|?|] vm3]; [|done|done]. destruct He as (? & Hj3 & Ht3).
    split; [done|]. split; [eauto using same_job_trans|]. lia.
  - steps. pose proof (enter_script_safe vm1 Hb) as He.
    destruct (enter_script vm1) as [[?|?|] vm3]; [|done|done]. destruct He as (? & Hj3 & Ht3).
    split; [done|]. split; [eauto using same_job_trans|]. lia.
Qed.

(** Step fetches the opcode at the program counter, moves past it and executes it. *)
Lemma Step_run vm s pop :
  0 <= scriptIdx vm -> 0 <= scriptOff vm ->
  scripts vm !! Z.to_nat (scriptIdx vm) = Some s -> s !! Z.to_nat (scriptOff vm) = Some pop ->
  Step vm = (executeOpcode pop;; after_opcode) (set_scriptOff vm (scriptOff vm + 1)).
Proof.
  intros Hi Ho Hs Hpop. unfold Step.
  assert (validPC vm = (Ret tt, vm)) as Hpc.
  { unfold validPC. apply lookup_lt_Some in Hs as Hl. rewrite (proj2 (index_Ret _ _ _) (conj Hi Hs)).
    apply lookup_lt_Some in Hpop. unfold len.
    replace (scriptIdx vm >=? _) with false by (symmetry; rewrite Z.geb_leb; apply Z.leb_gt; lia).
    by replace (scriptOff vm >=? _) with false by (symmetry; rewrite Z.geb_leb; apply Z.leb_gt; lia). }
  erewrite bind_step by exact Hpc. steps. rewrite (proj2 (index_Ret _ _ _) (conj Hi Hs)). steps.
  rewrite (proj2 (index_Ret _ _ _) (conj Ho Hpop)). by steps.
Qed.

(** When Step does not fail at once there is an opcode at the program counter. *)
Lemma Step_fetch vm :
  0 <= scriptIdx vm -> 0 <= scriptOff vm ->
  (exists e, Step vm = (Err e, vm)) \/ exists s pop,
    scripts vm !! Z.to_nat (scriptIdx vm) = Some s /\ s !! Z.to_nat (scriptOff vm) = Some pop.
Proof.
  intros Hi Ho. pose proof (validPC_run vm) as Hpc. unfold Step, mbind at 1, prog_bind at 1.
  assert (forall o vm', validPC vm = (o, vm') -> vm' = vm) as Hst.
  { unfold validPC. intros o vm'. repeat case_match; by intros [= _ <-]. }
  destruct (validPC vm) as [[[]|e|] vm'] eqn:Hv; [|left; exists e; by rewrite (Hst _ _ eq_refl)|lia].
  destruct Hpc as [-> Hpc]. destruct (Hpc Hi) as (s & Hs & Hlt). right.
  destruct (index_total (E := script_error) s (scriptOff vm)) as (pop & _ & Hpop); [lia|]. eauto.
Qed.

Lemma after_opcode_safe vm s :
  job_ok vm -> values_ok (maxStackSize + 3) vm -> 0 <= scriptIdx vm -> 0 <= scriptOff vm <= len s ->
  scripts vm !! Z.to_nat (scriptIdx vm) = Some s ->
  match after_opcode vm with
  | (Ret _, vm') => vm_ok vm' /\ same_job vm vm' /\ todo vm' <= todo vm
  | (Err _, _) => True
  | (Panic, _) => False
  end.
Proof.
  intros Hjob Hv Hi Ho Hscr. unfold after_opcode. steps.
  pose proof (len_nonneg (stk (dstack vm))) as Hnd. pose proof (len_nonneg (stk (astack vm))) as Hna.
  destruct Hv as ([Hd Hdl] & [Ha Hal] & Hrest). unfold maxStackSize in Hdl, Hal.
  rewrite !Depth_small, int32_small by (unfold small; lia).
  destruct (_ >? maxStackSize) eqn:Hov; steps; [done|]. bool_to_prop.
  rewrite (proj2 (index_Ret _ _ _) (conj Hi Hscr)). steps. case_if.
  - apply (next_script_safe vm s); try done; try (split; [done|lia]); [apply Hrest|lia].
  - destruct Hjob as (? & ? & ?). split; [|split; [done|lia]].
    split; [|split_and!; done || lia]. split; [split; [done|lia]|]. split; [split; [done|lia]|done].
Qed.

(** Step keeps the invariant, makes progress, and panics only in a signature opcode. *)
Lemma Step_safe vm :
  vm_ok vm ->
  match Step vm with
  | (Ret _, vm') => vm_ok vm' /\ same_job vm vm' /\ todo vm' < todo vm /\ 1 <= todo vm
  | (Err _, _) => True
  | (Panic, _) => exists pop, current vm pop /\ is_sig_handler (opfunc (opcode_of pop))
  end.
Proof.
  intros (Hv & Hsum & Hwf & Hti & Htx & Hi & Ho).
  destruct (Step_fetch vm Hi Ho) as [[e ->]|(s & pop & Hscr & Hpop)]; [done|].
  rewrite (Step_run vm s pop) by done. apply lookup_lt_Some in Hpop as Hlt.
  assert (pop_wf pop) as Hpwf by (eapply Forall_lookup_1; [eapply Forall_lookup_1|]; eauto).
  set (vm1 := set_scriptOff vm (scriptOff vm + 1)).
  assert (todo vm = todo vm1 + 1 /\ 1 <= todo vm) as [Hstep Hpos].
  { rewrite (todo_split vm s), (todo_split vm1 s) by done. unfold vm1, pending_witness, len. cbn.
    unfold witness_budget, maxScriptSize. destruct (_ && _); lia. }
  assert (engine_ok vm1 maxStackSize vm1) as Hok.
  { split; [unfold stable; tauto|]. split.
    - destruct Hv as (? & ? & ? & ? & ? & ?). do 4 (split; [done|]). split; [cbn; lia|done].
    - split; [done|]. split; [done|]. exists s. cbn. unfold len. split; [done|]. split; [done|lia]. }
  pose proof (executeOpcode_safe pop Hpwf vm1 maxStackSize vm1 ltac:(unfold maxStackSize; lia) Hok) as Hex.
  unfold mbind at 1, prog_bind at 1.
  destruct (executeOpcode pop vm1) as [[?|?|] vm2]; [|done|exists pop; split; [by repeat split; eauto|done]].
  destruct Hex as (_ & Hst & Hv2 & Hwf2 & Hti2 & s2 & Hi2 & Hscr2 & Ho2).
  assert (same_job vm vm2) as Hsj by (unfold stable, same_job, vm1 in *; cbn in *; tauto).
  assert (todo vm2 = todo vm1) as Ht2.
  { destruct Hst as (E1 & E2 & E3 & _ & _ & _ & _ & _ & E4 & _). unfold todo, pending_witness.
    by rewrite E1, E2, E3, E4. }
  pose proof (after_opcode_safe vm2 s2) as Haf. destruct (after_opcode vm2) as [[?|?|] vm3]; [|done|].
  - destruct Haf as (? & ? & ?); try done; [split_and!; try done; try lia; by rewrite (proj1 Hsj)|].
    split; [done|]. split; [eauto using same_job_trans|lia].
  - destruct Haf; try done. split_and!; try done; try lia. by rewrite (proj1 Hsj).
Qed.
End steps.

(** * Whole executions *)

Section execution.
Context {HF : HashFunctions} {BC : Btcec} {EV : Env}.

(** The opcodes behind the signature handlers. *)
Lemma sig_handler_value pop :
  pop_wf pop -> is_sig_handler (opfunc (opcode_of pop)) ->
  pop_value pop = OP_CHECKSIG \/ pop_value pop = OP_CHECKSIGVERIFY \/
  pop_value pop = OP_CHECKMULTISIG \/ pop_value pop = OP_CHECKMULTISIGVERIFY.
Proof.
  intros (b & Hb & Hop & _) Hsig. unfold pop_value. rewrite Hop in Hsig |- *. rewrite opcode_at_value by done.
  assert (forallb (fun i => negb (bool_decide (is_sig_handler (opfunc (opcode_at (Z.of_nat i))))) ||
    existsb (Z.eqb (Z.of_nat i)) [OP_CHECKSIG; OP_CHECKSIGVERIFY; OP_CHECKMULTISIG; OP_CHECKMULTISIGVERIFY])
    (seq 0 256) = true) as Hall by (vm_compute; reflexivity).
  rewrite forallb_forall in Hall. unfold is_byte in Hb. specialize (Hall (Z.to_nat b) ltac:(apply in_seq; lia)).
  rewrite Z2Nat.id, bool_decide_eq_true_2 in Hall by (done || lia). cbn [negb orb existsb] in Hall.
  rewrite !orb_true_iff, !Z.eqb_eq in Hall. naive_solver.
Qed.

(** Engines reached from [vm0] by successful steps. *)
Inductive reachable (vm0 : Engine) : Engine -> Prop :=
| reach_start : reachable vm0 vm0
| reach_step vm vm' done : reachable vm0 vm -> Step vm = (Ret done, vm') -> reachable vm0 vm'.

(** The engine after [n] successful steps. *)
Fixpoint run_steps (n : nat) (vm : Engine) : option Engine :=
  match n with
  | O => Some vm
  | S n' => match run_steps n' vm with
            | Some vm1 => match Step vm1 with (Ret _, vm2) => Some vm2 | _ => None end
            | None => None
            end
  end.

Lemma run_steps_reachable n vm0 vm : run_steps n vm0 = Some vm -> reachable vm0 vm.
Proof.
  revert vm. induction n as [|n IH]; intros vm Hr; cbn in Hr; [simplify_eq; constructor|].
  destruct (run_steps n vm0) as [vm1|]; [|done]. destruct (Step vm1) as [[d|?|] vm2] eqn:Hs; simplify_eq.
  by apply (reach_step _ vm1 vm d); [apply IH|].
Qed.

(** The arguments of NewEngine have their Go types, and the cache passed in holds valid
    signatures only. *)
Definition inputs_ok (pkScript : bytes) (t : MsgTx) (sc : option SigCache) : Prop :=
  bytes_ok pkScript /\ msgtx_ok t /\ (forall c, sc = Some c -> sound c).

Lemma NewEngine_fields pkScript t i fl sc hc amt vm :
  NewEngine pkScript t i fl sc hc amt = Ret vm ->
  exists pops version program ext,
    0 <= i < len (TxIns t) /\ len pkScript <= maxScriptSize /\ parse_ok pkScript = Ret pops /\
    vm = mkEngine [pops] 0 0 0 (mkStack [] false) (mkStack [] false) t i [] 0 fl sc hc version program ext amt /\
    (if isMASSWitnessProgram pops || isWitnessProgram pops
     then extractWitnessProgramInfo pops = Ret (version, program, ext)
     else (version, program, ext) = (0, None, [])).
Proof.
  unfold NewEngine. intros Hn. case_if; [done|]. case_if; [done|]. case_if; [done|]. bool_to_prop.
  apply bind_Ret in Hn as (pops & Hp & Hn). apply bind_Ret in Hn as ([[version program] ext] & He & Hn).
  exists pops, version, program, ext. simplify_eq. split; [lia|]. split; [lia|]. split; [done|]. split; [done|].
  destruct (_ || _); [|by simplify_eq].
  apply bind_Ret in He as ([[v p] e] & Hx & He). apply bind_Ret in He as (ti & _ & He). case_if; [done|]. by simplify_eq.
Qed.

Lemma NewEngine_ok pkScript t i fl sc hc amt vm :
  inputs_ok pkScript t sc -> NewEngine pkScript t i fl sc hc amt = Ret vm ->
  vm_ok vm /\ todo vm <= maxScriptSize + witness_budget.
Proof.
  intros (Hpk & Htx & Hsc) (pops & version & program & ext & Hi & Hl & Hp & -> & _)%NewEngine_fields.
  pose proof (parse_ok_wf _ _ Hpk Hp). pose proof (parse_ok_length _ _ Hpk Hp).
  split.
  - split; [|cbn; split_and!; try done; try lia; by apply Forall_singleton].
    split; [split; [constructor|done]|]. split; [split; [constructor|done]|]. cbn. split_and!; try done; constructor.
  - unfold todo, pending_witness. cbn. change (drop (Z.to_nat 0) [pops]) with [pops]. cbn [concat]. rewrite app_nil_r. unfold witness_budget, maxScriptSize in *.
    destruct (bool_decide _); lia.
Qed.

Lemma reachable_ok vm0 vm : vm_ok vm0 -> reachable vm0 vm -> vm_ok vm /\ same_job vm0 vm.
Proof.
  intros H0. induction 1 as [|vm vm' d _ [IH Hj] Hs]; [done|].
  pose proof (Step_safe vm IH) as Hok. rewrite Hs in Hok. destruct Hok as (? & ? & _).
  split; [done|]. eauto using same_job_trans.
Qed.

Lemma Execute_fuel fuel : forall vm, vm_ok vm -> Z.max 0 (todo vm) < Z.of_nat fuel ->
  exists r vm', forall extra, Execute (fuel + extra) vm = Some (r, vm').
Proof.
  induction fuel as [|fuel IH]; intros vm Hvm Ht; [lia|].
  pose proof (Step_safe vm Hvm) as Hs. destruct (Step vm) as [[[]|e|] vm'] eqn:Hstep.
  - destruct (CheckErrorCondition true vm') as [r vm''] eqn:Hc. exists r, vm''. intros. cbn [Execute Nat.add].
    by rewrite Hstep, Hc.
  - destruct Hs as (Hvm' & _ & Hlt & Hpos). destruct (IH vm' Hvm' ltac:(lia)) as (r & vm'' & Hr).
    exists r, vm''. intros. cbn [Execute Nat.add]. rewrite Hstep. apply Hr.
  - exists (Err e), vm'. intros. cbn [Execute Nat.add]. by rewrite Hstep.
  - exists Panic, vm'. intros. cbn [Execute Nat.add]. by rewrite Hstep.
Qed.

(** An upper bound on the steps of any execution: one per opcode of the public key script,
    the lock script and the two witness scripts. *)
Definition max_steps : nat := Z.to_nat (maxScriptSize + witness_budget + 1).

(** C8: every execution of an engine made by NewEngine terminates: the loop of Execute
    ends within max_steps iterations, whatever the scripts and the witness are, and giving
    it more changes nothing. *)
Theorem execute_terminates (pkScript : bytes) (t : MsgTx) (i fl : Z) (sc : option SigCache)
    (hc : option TxSigHashes) (amt : Z) (vm : Engine) :
  inputs_ok pkScript t sc -> NewEngine pkScript t i fl sc hc amt = Ret vm ->
  exists r vm', forall extra, Execute (max_steps + extra) vm = Some (r, vm').
Proof.
  intros Hin Hvm. destruct (NewEngine_ok _ _ _ _ _ _ _ _ Hin Hvm) as [Hok Ht].
  apply Execute_fuel; [done|]. unfold max_steps, witness_budget, maxScriptSize in *. lia.
Qed.

(** C9: the limits of common.go hold in every engine an execution reaches: the two stacks
    together hold at most maxStackSize items, each a byte string of at most
    MaxScriptElementSize bytes, the operation count is at most MaxOpsPerScript, and the
    condition stack holds only OpCond values. *)
Theorem engine_limits (pkScript : bytes) (t : MsgTx) (i fl : Z) (sc : option SigCache)
    (hc : option TxSigHashes) (amt : Z) (vm0 vm : Engine) :
  inputs_ok pkScript t sc -> NewEngine pkScript t i fl sc hc amt = Ret vm0 -> reachable vm0 vm ->
  len (stk (dstack vm)) + len (stk (astack vm)) <= maxStackSize /\
  Forall (fun b => bytes_ok b /\ len b <= MaxScriptElementSize) (stk (dstack vm) ++ stk (astack vm)) /\
  0 <= numOps vm <= MaxOpsPerScript /\
  Forall (fun c => c = OpCondFalse \/ c = OpCondTrue \/ c = OpCondSkip) (condStack vm).
Proof.
  intros Hin Hvm Hr. destruct (NewEngine_ok _ _ _ _ _ _ _ _ Hin Hvm) as [Hok _].
  destruct (reachable_ok _ _ Hok Hr) as [(([Hd _] & [Ha _] & Hc & Hn & _) & Hsum & _) _].
  split; [done|]. split; [by apply Forall_app|done].
Qed.

(** C10: an execution can panic only while one of the four signature opcodes runs: every
    other opcode, and the switch from one script to the next with the loading of the
    witness, returns or fails with an error on every input.  The steps are meant: the check of
    the final stack after the last of them is not. *)
Theorem panic_only_in_signature_opcodes (pkScript : bytes) (t : MsgTx) (i fl : Z) (sc : option SigCache)
    (hc : option TxSigHashes) (amt : Z) (vm0 vm vm' : Engine) :
  inputs_ok pkScript t sc -> NewEngine pkScript t i fl sc hc amt = Ret vm0 -> reachable vm0 vm ->
  Step vm = (Panic, vm') ->
  exists pop, current vm pop /\
    (pop_value pop = OP_CHECKSIG \/ pop_value pop = OP_CHECKSIGVERIFY \/
     pop_value pop = OP_CHECKMULTISIG \/ pop_value pop = OP_CHECKMULTISIGVERIFY).
Proof.
  intros Hin Hvm Hr Hp. destruct (NewEngine_ok _ _ _ _ _ _ _ _ Hin Hvm) as [Hok _].
  destruct (reachable_ok _ _ Hok Hr) as [Hok' _]. pose proof (Step_safe vm Hok') as Hs. rewrite Hp in Hs.
  destruct Hs as (pop & Hcur & Hsig). exists pop. split; [done|].
  apply sig_handler_value; [|done]. destruct Hok' as (_ & _ & Hwf & _).
  destruct Hcur as (_ & _ & s & Hs & Hpop). eapply Forall_lookup_1; [eapply Forall_lookup_1|]; eauto.
Qed.
End execution.
