(* ===== verification/Conditionals.v ===== *)
(** Conditional execution: what the engine does to the part of a script it skips. *)

From S2P Require Import Prelude TxCommon Stack Opcodes Script Hashes Wire SigHash SigCache Engine.

(** How deep in its own conditionals a block is, opcode by opcode; a closed block ends at the
    depth it starts from and never goes above it. *)
Fixpoint closed (n : nat) (block : list parsedOpcode) : bool :=
  match block with
  | [] => (n =? 0)%nat
  | p :: block' =>
      let v := pop_value p in
      if (v =? OP_IF) || (v =? OP_NOTIF) then closed (S n) block'
      else if v =? OP_ELSE then negb (n =? 0)%nat && closed n block'
      else if v =? OP_ENDIF then match n with O => false | S n' => closed n' block' end
      else closed n block'
  end.

(** The opcodes that count towards the limit of operations. *)
Definition cost (p : parsedOpcode) : Z := if pop_value p >? OP_16 then 1 else 0.
Definition total_cost (block : list parsedOpcode) : Z := fold_right (fun p n => cost p + n) 0 block.

(** An entry of the opcode table that is not refused outright. *)
Definition admissible (p : parsedOpcode) : Prop :=
  opcode_of p = opcode_at (pop_value p) /\ isDisabled p = false /\ alwaysIllegal p = false /\
  len (pop_data p) <= MaxScriptElementSize.

Section conditionals.
Context {HF : HashFunctions} {BC : Btcec} {EV : Env}.

(** Opcodes executed one after another. *)
Fixpoint run_block (block : list parsedOpcode) : method Engine unit :=
  match block with
  | [] => mret tt
  | p :: block' => executeOpcode p;; run_block block'
  end.

(** [vm], [n] skipped conditionals deeper and after [k] operations. *)
Definition skipping (vm : Engine) (n : nat) (k : Z) : Engine :=
  set_numOps (set_condStack vm (condStack vm ++ replicate n OpCondSkip)) k.

Lemma skipping_inactive vm n k : isBranchExecuting vm = false -> isBranchExecuting (skipping vm n k) = false.
Proof.
  unfold isBranchExecuting, skipping. cbn. destruct (condStack vm) as [|c cs] eqn:Hc; [done|]. intros Hl.
  destruct n as [|n]; [by rewrite app_nil_r|]. rewrite replicate_S_end, app_assoc, List.last_last.
  done.
Qed.

(** The prologue of executeOpcode in a skipped branch. *)
Lemma execute_skipped vm n k p :
  isBranchExecuting vm = false -> admissible p -> k + cost p <= MaxOpsPerScript ->
  executeOpcode p (skipping vm n k) =
    if isConditional p then opfunc_of (opfunc (opcode_of p)) p (skipping vm n (k + cost p))
    else (Ret tt, skipping vm n (k + cost p)).
Proof.
  intros Hb (_ & Hd & Hi & Hl) Hk. unfold executeOpcode, cost in *. rewrite Hd, Hi. steps.
  destruct (pop_value p >? OP_16); steps.
  - change (numOps (set_numOps ?a ?b)) with b. change (numOps (skipping vm n k)) with k.
    replace (k + 1 >? MaxOpsPerScript) with false by (symmetry; rewrite Z.gtb_ltb; apply Z.ltb_ge; lia). steps.
    change (set_numOps (skipping vm n k) ?b) with (skipping vm n b). rewrite skipping_inactive by done.
    destruct (isConditional p); cbn [negb andb]; steps; [|done]. rewrite andb_false_r. by steps.
  - replace (len (pop_data p) >? MaxScriptElementSize) with false by (symmetry; rewrite Z.gtb_ltb; apply Z.ltb_ge; lia).
    steps. rewrite Z.add_0_r, skipping_inactive by done.
    destruct (isConditional p); cbn [negb andb]; steps; [|done]. rewrite andb_false_r. by steps.
Qed.

(** The conditionals themselves, in a skipped branch. *)
Lemma skip_if vm n k p :
  isBranchExecuting vm = false -> opcodeIf p (skipping vm n k) = (Ret tt, skipping vm (S n) k) /\
  opcodeNotIf p (skipping vm n k) = (Ret tt, skipping vm (S n) k).
Proof.
  intros Hb. unfold opcodeIf, opcodeNotIf. steps. rewrite skipping_inactive by done. unfold push_cond, modify, skipping. cbn.
  by rewrite <- !app_assoc, <- replicate_S_end.
Qed.

Lemma skip_else vm n k p : opcodeElse p (skipping vm (S n) k) = (Ret tt, skipping vm (S n) k).
Proof.
  unfold opcodeElse, skipping. cbn [condStack set_numOps set_condStack]. rewrite replicate_S_end, app_assoc, len_app, len_one.
  pose proof (len_nonneg (condStack vm ++ replicate n OpCondSkip)).
  replace (_ + 1 =? 0) with false by (symmetry; apply Z.eqb_neq; lia).
  rewrite Z.add_simpl_r, to_nat_len. rewrite <- (Nat.add_0_r (length _)). by rewrite alter_app_r.
Qed.

Lemma skip_endif vm n k p : opcodeEndif p (skipping vm (S n) k) = (Ret tt, skipping vm n k).
Proof.
  unfold opcodeEndif, skipping. cbn [condStack set_numOps set_condStack]. rewrite replicate_S_end, app_assoc, len_app, len_one.
  pose proof (len_nonneg (condStack vm ++ replicate n OpCondSkip)).
  replace (_ + 1 =? 0) with false by (symmetry; apply Z.eqb_neq; lia).
  rewrite Z.add_simpl_r, to_nat_len. by rewrite take_app_length.
Qed.

Lemma run_skipped vm block : isBranchExecuting vm = false -> Forall admissible block -> forall n k,
  closed n block = true -> k + total_cost block <= MaxOpsPerScript ->
  run_block block (skipping vm n k) = (Ret tt, skipping vm 0 (k + total_cost block)).
Proof.
  intros Hb. induction 1 as [|p block Hp Hall IH]; intros n k Hc Hk.
  { cbn [closed total_cost fold_right] in *. apply Nat.eqb_eq in Hc as ->. by rewrite Z.add_0_r. }
  cbn [run_block total_cost fold_right] in *. fold (total_cost block) in *.
  assert (0 <= total_cost block) as Hpos.
  { clear. induction block as [|q block IH]; cbn; [lia|]. fold (total_cost block). unfold cost. case_if; lia. }
  assert (exists n', executeOpcode p (skipping vm n k) = (Ret tt, skipping vm n' (k + cost p)) /\ closed n' block = true)
    as (n' & Hex & Hcl).
  { rewrite execute_skipped by (done || lia). destruct Hp as (Hop & _). rewrite Hop. unfold isConditional. cbn [closed] in Hc.
    destruct (Z.eqb_spec (pop_value p) OP_IF) as [->|_]; [exists (S n); split; [apply skip_if; done|exact Hc]|].
    destruct (Z.eqb_spec (pop_value p) OP_NOTIF) as [->|_]; [exists (S n); split; [apply skip_if; done|exact Hc]|].
    cbn [orb] in Hc |- *. destruct (Z.eqb_spec (pop_value p) OP_ELSE) as [->|_].
    { apply andb_true_iff in Hc as [Hn Hc]. destruct n as [|n]; [done|]. exists (S n). split; [apply skip_else|done]. }
    destruct (Z.eqb_spec (pop_value p) OP_ENDIF) as [->|_]; [|by exists n].
    destruct n as [|n]; [done|]. exists n. split; [apply skip_endif|done]. }
  erewrite bind_step by exact Hex. rewrite IH by (done || lia). by rewrite Z.add_assoc.
Qed.

(** the branch not taken has no effect.  In an engine whose current branch is not
    executing, running any block of opcodes whose conditionals are balanced, nested ones and
    their OP_ELSE included, succeeds and changes nothing but the count of operations: no
    stack, no condition, no code separator; only disabled and reserved opcodes, oversized
    pushes and the operation limit could have stopped it. *)
Theorem skipped_branch_inert (vm : Engine) (block : list parsedOpcode) :
  isBranchExecuting vm = false -> closed 0 block = true -> Forall admissible block ->
  numOps vm + total_cost block <= MaxOpsPerScript ->
  run_block block vm = (Ret tt, set_numOps vm (numOps vm + total_cost block)).
Proof.
  intros Hb Hc Ha Hk. assert (forall k, skipping vm 0 k = set_numOps vm k) as Hs
    by (intros k; unfold skipping; cbn [replicate]; rewrite app_nil_r; by destruct vm).
  assert (vm = skipping vm 0 (numOps vm)) as Hvm by (rewrite Hs; by destruct vm).
  rewrite Hvm at 1. rewrite <- Hs. by apply run_skipped.
Qed.

(** Some opcodes cannot be hidden in a skipped branch: whatever the state, a disabled
    opcode, OP_VERIF or OP_VERNOTIF, and a push of more than 520 bytes fail. *)
Lemma refused_even_when_skipped (vm : Engine) (p : parsedOpcode) :
  isDisabled p = true \/ alwaysIllegal p = true \/
  (pop_value p <= OP_16 /\ MaxScriptElementSize < len (pop_data p)) ->
  is_Err (executeOpcode p vm).1 /\ (executeOpcode p vm).2 = vm.
Proof.
  intros Hp. unfold executeOpcode. destruct (isDisabled p); steps; [split; [by eexists|done]|].
  destruct (alwaysIllegal p); steps; [split; [by eexists|done]|]. destruct Hp as [?|[?|[Hv Hl]]]; [done|done|].
  replace (pop_value p >? OP_16) with false by (symmetry; rewrite Z.gtb_ltb; apply Z.ltb_ge; lia).
  replace (len (pop_data p) >? MaxScriptElementSize) with true by (symmetry; rewrite Z.gtb_ltb; apply Z.ltb_lt; lia).
  steps. split; [by eexists|done].
Qed.
End conditionals.
