(* ===== verification/Signatures.v ===== *)
(** Signature checking: what OP_CHECKMULTISIG decides.  The handler walks the keys once,
    consuming a signature at every key that verifies it, through the signature cache; the
    theorem says this greedy walk decides whether the signatures can be assigned, in order,
    to distinct keys. *)

From stdpp Require Import list.
From S2P Require Import Prelude TxCommon ScriptNum Stack Opcodes Script Hashes Wire SigHash SigCache Engine.

(** * Matching in order *)

Lemma sublist_reverse {A} (l k : list A) : l `sublist_of` k -> reverse l `sublist_of` reverse k.
Proof.
  induction 1 as [|x l k _ IH|x l k _ IH]; [done| |]; rewrite ?reverse_cons.
  - by apply sublist_app.
  - rewrite <- (app_nil_r (reverse l)). apply sublist_app; [done|]. apply sublist_nil_l.
Qed.

Section greedy.
Context {K G : Type} (valid : K -> G -> bool).

(** The walk. *)
Fixpoint greedy (keys : list K) (sigs : list G) : bool :=
  match sigs, keys with
  | [], _ => true
  | _ :: _, [] => false
  | s :: sigs', k :: keys' => if valid k s then greedy keys' sigs' else greedy keys' sigs
  end.

(** Some keys, in order, verify the signatures one to one. *)
Definition matches (keys : list K) (sigs : list G) : Prop :=
  exists ks, ks `sublist_of` keys /\ Forall2 (fun k s => valid k s = true) ks sigs.

Lemma matches_skip k keys sigs : matches keys sigs -> matches (k :: keys) sigs.
Proof. intros (ks & Hs & Hf). exists ks. split; [by apply sublist_cons|done]. Qed.

Lemma matches_tail keys s sigs : matches keys (s :: sigs) -> matches keys sigs.
Proof.
  intros (ks & Hs & Hf). inversion Hf as [|k ? ks' ? _ Hks]; subst. exists ks'. split; [|done].
  etrans; [|exact Hs]. by apply sublist_cons.
Qed.

Lemma greedy_spec keys : forall sigs, greedy keys sigs = true <-> matches keys sigs.
Proof.
  induction keys as [|k keys IH]; intros [|s sigs]; cbn [greedy].
  - split; [intros _; by exists []|done].
  - split; [done|]. intros (ks & Hs & Hf). apply sublist_nil_r in Hs as ->. inversion Hf.
  - split; [intros _; exists []; split; [apply sublist_nil_l|constructor]|done].
  - destruct (valid k s) eqn:Hv; rewrite IH; split.
    + intros (ks & Hs & Hf). exists (k :: ks). split; [by apply sublist_skip|by constructor].
    + intros (ks & Hs & Hf). inversion Hf as [|k' ? ks' ? _ Hks]; subst.
      exists ks'. split; [|done]. apply sublist_cons_r in Hs as [Hs|(l & [= -> ->] & Hs)]; [|done].
      etrans; [|exact Hs]. by apply sublist_cons.
    + apply matches_skip.
    + intros (ks & Hs & Hf). inversion Hf as [|k' ? ks' ? Hv' Hks]; subst. exists (k' :: ks'). split; [|by constructor].
      apply sublist_cons_r in Hs as [Hs|(l & [= -> ->] & Hs)]; [done|congruence].
Qed.

Lemma greedy_short keys : forall sigs, (length keys < length sigs)%nat -> greedy keys sigs = false.
Proof.
  induction keys as [|k keys IH]; intros [|s sigs] Hl; cbn [length] in Hl; try lia; [done|]. cbn [greedy].
  destruct (valid k s); apply IH; cbn [length]; lia.
Qed.

Lemma matches_reverse keys sigs : matches keys sigs -> matches (reverse keys) (reverse sigs).
Proof. intros (ks & Hs & Hf). exists (reverse ks). split; [by apply sublist_reverse|by apply Forall2_reverse]. Qed.
End greedy.

(** * The signatures of a spend *)

Section multisig.
Context {HF : HashFunctions} {BC : Btcec} {EV : Env}.

(** [raw], split into the signature and its hash type, is a signature by [pk] of the digest
    of [script] in the transaction [vm] runs for. *)
Definition sig_valid (vm : Engine) (script : list parsedOpcode) (pk raw : bytes) : bool :=
  match split_signature raw with
  | Ret (hashType, sig) =>
      match ParseDERSignature sig, ParsePubKey pk, (signatureHash script hashType vm).1 with
      | Some s, Some k, Ret h => Verify s h k
      | _, _, _ => false
      end
  | _ => false
  end.

(** A signature the engine does not reject before it looks at the keys. *)
Definition sig_ready (vm : Engine) (script : list parsedOpcode) (raw : bytes) : Prop :=
  0 < len raw /\ exists hashType sig h, split_signature raw = Ret (hashType, sig) /\
    checkHashTypeEncoding hashType = Ret tt /\ checkSignatureEncoding sig = Ret tt /\
    (signatureHash script hashType vm).1 = Ret h.

Definition cache_sound (c : option SigCache) : Prop := forall s, c = Some s -> sound s.

(** An entry of the loop that remembers what it parsed. *)
Definition info_ok (i : parsedSigInfo) : Prop :=
  parsed i = true -> forall hashType sig, split_signature (signature_ i) = Ret (hashType, sig) ->
    parsedSignature i = ParseDERSignature sig.

Lemma multisig_loop_greedy vm script keys : forall infos c,
  Forall (fun k => checkPubKeyEncoding vm k = Ret tt) keys ->
  Forall (fun i => sig_ready vm script (signature_ i) /\ info_ok i) infos -> cache_sound c ->
  exists c', cache_sound c' /\ multisig_loop script keys infos (set_sigCache vm c) =
    (Ret (greedy (sig_valid vm script) keys (map signature_ infos)), set_sigCache vm c').
Proof.
  induction keys as [|k keys IH]; intros [|i infos] c Hk Hi Hc; try (by exists c).
  apply Forall_cons in Hk as [Hk Hks]. apply Forall_cons in Hi as [[Hr Hio] His].
  cbn [multisig_loop map greedy]. destruct (len (i :: infos) >? len (k :: keys)) eqn:Hlen.
  { exists c. split; [done|]. bool_to_prop. change (len (k :: keys) < len (i :: infos)) in Hlen.
    pose proof (greedy_short (sig_valid vm script) (k :: keys) (map signature_ (i :: infos))) as Hg.
    cbn [map greedy] in Hg. rewrite Hg; [done|]. unfold len in Hlen. cbn [length] in *. rewrite length_map. lia. }
  pose proof Hr as (Hl & ht & sg & h & Hsp & Hht & Hse & Hh). 
  replace (len (signature_ i) =? 0) with false by (symmetry; apply Z.eqb_neq; lia).
  rewrite Hsp. steps.
  assert (exists i', parse_sig i sg ht = Ret i' /\ signature_ i' = signature_ i /\ info_ok i' /\
    parsedSignature i' = ParseDERSignature sg) as (i' & -> & Hs' & Hio' & Hp').
  { unfold parse_sig. destruct (parsed i) eqn:Hpi; [exists i; eauto|]. rewrite Hht, Hse. eexists. split; [reflexivity|].
    split_and!; [done| |done]. intros _ ht' sg' Hsp'. cbn in Hsp' |- *. rewrite Hsp in Hsp'. by injection Hsp' as <- <-. }
  steps. rewrite Hp'.
  assert (Forall (fun i => sig_ready vm script (signature_ i) /\ info_ok i) (i' :: infos)) as Hi'
    by (apply Forall_cons; split; [by rewrite Hs'|done]).
  unfold sig_valid at 1. rewrite Hsp. destruct (ParseDERSignature sg) as [s|].
  2:{ rewrite <- Hs'. by apply IH. }
  steps. change (checkPubKeyEncoding (set_sigCache vm c) k) with (checkPubKeyEncoding vm k). rewrite Hk. steps.
  destruct (ParsePubKey k) as [pk|]; [|rewrite <- Hs'; by apply IH].
  erewrite bind_step; [|instantiate (2 := h); unfold signatureHash in *; cbn in Hh |- *; by rewrite Hh].
  rewrite Hh. unfold verifySignature at 1, mbind at 1, prog_bind at 1. cbn [sigCache set_sigCache].
  pose proof (cached_Verify_agrees c s h pk Hc) as Ha. pose proof (fun s' => cached_Verify_sound c s h pk s' Hc) as Hs2.
  destruct (cached_Verify c s h pk) as [v c2]. cbn [fst snd] in Ha, Hs2. rewrite <- Ha.
  change (set_sigCache (set_sigCache vm c) c2) with (set_sigCache vm c2).
  destruct v; [by apply IH|]. rewrite <- Hs'. by apply IH.
Qed.

(** Popping from the data stack. *)
Definition with_stk (vm : Engine) (l : list bytes) : Engine := set_dstack vm (set_stk (dstack vm) l).

Lemma dPop_snoc vm a x : len a + 1 < 2 ^ 31 -> dPop (with_stk vm (a ++ [x])) = (Ret x, with_stk vm a).
Proof.
  intros Hl. unfold dPop, on_d. erewrite zoom_step; [|apply (Pop_snoc _ a x); [|done]]; [done|].
  unfold small. cbn. rewrite len_app, len_one. lia.
Qed.

Lemma dPopInt_snoc vm a x n :
  len a + 1 < 2 ^ 31 -> makeScriptNum x (verifyMinimalData (dstack vm)) defaultScriptNumLen = Ret n ->
  dPopInt (with_stk vm (a ++ [x])) = (Ret n, with_stk vm a).
Proof.
  intros Hl Hn. unfold dPopInt, on_d. erewrite zoom_step; [reflexivity|]. unfold PopInt.
  erewrite bind_step; [|apply (Pop_snoc _ a x); [|done]].
  - steps. unfold lift. cbn. rewrite Hn. done.
  - unfold small. cbn. rewrite len_app, len_one. lia.
Qed.

Lemma popN_app vm xs : forall a, len a + len xs < 2 ^ 31 ->
  popN (length xs) (with_stk vm (a ++ xs)) = (Ret (reverse xs), with_stk vm a).
Proof.
  induction xs as [|x xs IH] using rev_ind; intros a Hl; [by rewrite app_nil_r|].
  rewrite length_app, Nat.add_comm. cbn [length Nat.add popN]. rewrite len_app, len_one in Hl.
  rewrite app_assoc. erewrite bind_step by (apply dPop_snoc; rewrite len_app; lia).
  erewrite bind_step by (apply IH; lia). by rewrite reverse_snoc.
Qed.

(** The script code the signatures commit to. *)
Definition script_code (vm : Engine) (script : list parsedOpcode) (sigs : list bytes) : list parsedOpcode :=
  if isWitnessVersionActive vm 0 then script else fold_left removeOpcodeByData (reverse sigs) script.

(** The handler on a stack of this shape: one walk, then the null-fail rule. *)
Lemma checkmultisig_run op vm rest sigs keys m n script :
  stk (dstack vm) = rest ++ sigs ++ [m] ++ keys ++ [n] -> small (dstack vm) ->
  makeScriptNum n (verifyMinimalData (dstack vm)) defaultScriptNumLen = Ret (len keys) ->
  makeScriptNum m (verifyMinimalData (dstack vm)) defaultScriptNumLen = Ret (len sigs) ->
  len sigs <= len keys <= MaxPubKeysPerMultiSig -> numOps vm + len keys <= MaxOpsPerScript ->
  subScript vm = (Ret script, vm) -> cache_sound (sigCache vm) ->
  Forall (sig_ready vm (script_code vm script sigs)) sigs ->
  Forall (fun k => checkPubKeyEncoding vm k = Ret tt) keys ->
  let found := greedy (sig_valid vm (script_code vm script sigs)) (reverse keys) (reverse sigs) in
  exists vm', stk (dstack vm') = rest /\ opcodeCheckMultiSig op vm =
    (fail_if (negb found && existsb (fun s => len s >? 0) (reverse sigs)) ErrNullFail;; dPushBool found) vm'.
Proof.
  intros Hstk Hsm Hn Hm Hle Hops Hsub Hc Hsigs Hkeys found. unfold small in Hsm.
  set (vm1 := set_numOps vm (numOps vm + len keys)).
  assert (len rest + len sigs + len keys + 2 < 2 ^ 31) as Hlen
  by (rewrite Hstk in Hsm; rewrite !len_app, !len_one in Hsm; lia).
  pose proof (len_nonneg rest). pose proof (len_nonneg sigs). pose proof (len_nonneg keys).
  assert (forall k, 0 <= k <= 20 -> scriptNum_Int32 k = k) as Hint.
  { intros k Hk. unfold scriptNum_Int32. change maxInt32 with 2147483647. change minInt32 with (-2147483648).
  rewrite Z.gtb_ltb, (proj2 (Z.ltb_ge 2147483647 k)), (proj2 (Z.ltb_ge k (-2147483648))) by lia. apply wrapS_small; lia. }
  unfold MaxPubKeysPerMultiSig in *.
  assert (vm = with_stk vm ((((rest ++ sigs) ++ [m]) ++ keys) ++ [n])) as Hvm.
  { rewrite <- !app_assoc, <- Hstk. unfold with_stk. rewrite set_stk_stk. by destruct vm. }
  apply (f_equal (opcodeCheckMultiSig op)) in Hvm.
  destruct (multisig_loop_greedy (with_stk vm1 rest) (script_code vm script sigs) (reverse keys)
  (map (fun s => mkSigI s None false) (reverse sigs)) (sigCache vm)) as (c' & _ & Hloop).
  { by apply Forall_reverse. }
  { apply Forall_map. apply Forall_reverse in Hsigs. eapply Forall_impl; [exact Hsigs|]. intros s Hs. split; [exact Hs|done]. }
  { done. }
  rewrite map_map, map_id in Hloop.
  exists (set_sigCache (with_stk vm1 rest) c'). split; [done|].
  rewrite Hvm. clear Hvm. unfold opcodeCheckMultiSig, MaxPubKeysPerMultiSig.
  erewrite bind_step by (apply dPopInt_snoc; [rewrite !len_app, len_one; lia|done]).
  cbv zeta. rewrite !Hint by lia. rewrite (proj2 (Z.ltb_ge (len keys) 0)), (Z.gtb_ltb (len keys) 20), (proj2 (Z.ltb_ge 20 (len keys))) by lia.
  steps. change (numOps (set_numOps ?a ?b)) with b. change (numOps (with_stk vm ?l)) with (numOps vm).
  rewrite (Z.gtb_ltb (numOps vm + len keys)), (proj2 (Z.ltb_ge MaxOpsPerScript (numOps vm + len keys))) by lia. steps.
  change (set_numOps (with_stk vm ?l) _) with (with_stk vm1 l). rewrite to_nat_len.
  erewrite bind_step by (apply popN_app; rewrite !len_app, len_one; lia).
  erewrite bind_step by (apply dPopInt_snoc; [rewrite !len_app; lia|done]). cbv zeta. rewrite !Hint by lia.
  rewrite (proj2 (Z.ltb_ge (len sigs) 0)), (Z.gtb_ltb (len sigs)), (proj2 (Z.ltb_ge (len keys) (len sigs))) by lia. steps.
  rewrite to_nat_len. erewrite bind_step by (apply popN_app; lia).
  erewrite bind_step; [|instantiate (2 := script); unfold subScript in Hsub |- *; injection Hsub as Hsub; cbn; by rewrite Hsub].
  steps. change (isWitnessVersionActive (with_stk vm1 rest) 0) with (isWitnessVersionActive vm 0).
  erewrite bind_step; [reflexivity|].
  replace (if negb (isWitnessVersionActive vm 0) then _ else script) with (script_code vm script sigs)
    by (unfold script_code; by destruct (isWitnessVersionActive vm 0)). exact Hloop.
Qed.

(** C28: OP_CHECKMULTISIG decides whether its signatures are by some of its keys, in the same
    order.  For any stack holding m signatures, m, n keys and n (m <= n <= 20) whose
    encodings are accepted, any state of a sound signature cache and any numbers of
    operations within the limit, the handler replaces them by true when the signatures can be
    assigned to distinct keys in order, and fails with the null-fail error when they cannot,
    whatever the order in which it tries keys and whatever is cached. *)
Theorem checkmultisig_decides (op : parsedOpcode) (vm : Engine) (rest sigs keys : list bytes)
    (m n : bytes) (script : list parsedOpcode) :
  stk (dstack vm) = rest ++ sigs ++ [m] ++ keys ++ [n] -> small (dstack vm) ->
  makeScriptNum n (verifyMinimalData (dstack vm)) defaultScriptNumLen = Ret (len keys) ->
  makeScriptNum m (verifyMinimalData (dstack vm)) defaultScriptNumLen = Ret (len sigs) ->
  len sigs <= len keys <= MaxPubKeysPerMultiSig -> numOps vm + len keys <= MaxOpsPerScript ->
  subScript vm = (Ret script, vm) -> cache_sound (sigCache vm) ->
  Forall (sig_ready vm (script_code vm script sigs)) sigs ->
  Forall (fun k => checkPubKeyEncoding vm k = Ret tt) keys ->
  (matches (sig_valid vm (script_code vm script sigs)) keys sigs ->
     exists vm', opcodeCheckMultiSig op vm = (Ret tt, vm') /\ stk (dstack vm') = rest ++ [fromBool true]) /\
  (~ matches (sig_valid vm (script_code vm script sigs)) keys sigs -> (opcodeCheckMultiSig op vm).1 = Err ErrNullFail).
Proof.
  intros Hstk Hsm Hn Hm Hle Hops Hsub Hc Hsigs Hkeys. set (valid := sig_valid vm (script_code vm script sigs)).
  destruct (checkmultisig_run op vm rest sigs keys m n script) as (vm' & Hrest & ->); try done. fold valid.
  pose proof (greedy_spec valid (reverse keys) (reverse sigs)) as Hg. split.
  - intros Hmt. apply matches_reverse in Hmt. apply Hg in Hmt. rewrite Hmt. cbn [negb andb]. steps.
    eexists. split; [reflexivity|]. cbn. by rewrite Hrest.
  - intros Hnm. destruct (greedy valid (reverse keys) (reverse sigs)).
    { exfalso. apply Hnm. rewrite <- (reverse_involutive keys), <- (reverse_involutive sigs). by apply matches_reverse, Hg. }
    destruct sigs as [|s0 sigs]; [exfalso; apply Hnm; exists []; split; [apply sublist_nil_l|constructor]|].
    assert (existsb (fun s => len s >? 0) (reverse (s0 :: sigs)) = true) as ->.
    { apply existsb_exists. exists s0. split; [apply list_elem_of_In; set_solver|].
      apply Forall_cons in Hsigs as [[Hs0 _] _]. rewrite Z.gtb_ltb. by apply Z.ltb_lt. }
    cbn [negb andb]. by steps.
Qed.
End multisig.
