(* ===== verification/SigEncoding.v ===== *)
(** What the encoding checks of the engine accept: checkSignatureEncoding,
    checkHashTypeEncoding and checkPubKeyEncoding of txscript/engine.go against a
    declarative description of strict DER. *)

From S2P Require Import Prelude TxCommon ScriptNum Opcodes Script Hashes Wire SigHash SigCache Engine.

(** * Strict DER *)

(** A DER integer that is not negative, in the fewest bytes. *)
Definition der_int (r : bytes) : bool :=
  match r with
  | [] => false
  | [b] => b <? 128
  | b :: c :: _ => (b <? 128) && negb ((b =? 0) && (c <? 128))
  end.

(** 0x30 <total length> 0x02 <length of R> <R> 0x02 <length of S> <S> *)
Definition der (r s : bytes) : bytes :=
  [0x30; len r + len s + 4; 0x02; len r] ++ r ++ [0x02; len s] ++ s.

Lemma index_0 {E A} (x : A) l : index (E := E) (x :: l) 0 = Ret x.
Proof. done. Qed.

Lemma index_1 {E A} (x y : A) l : index (E := E) (x :: y :: l) 1 = Ret y.
Proof. done. Qed.

(** Indexing a signature split into its header, R, the second header and S. *)
Section layout.
Context (x0 x1 x2 x3 m2 sl : Z) (r s : bytes).
Let sig : bytes := [x0; x1; x2; x3] ++ r ++ [m2; sl] ++ s.

Lemma layout_r {E} j : 0 <= j -> index (E := E) sig (4 + j) = index (r ++ [m2; sl] ++ s) j.
Proof. intros. exact (index_app_r [x0; x1; x2; x3] _ j ltac:(lia)). Qed.

Lemma layout_tail {E} j : 0 <= j -> index (E := E) sig (len r + 4 + j) = index ([m2; sl] ++ s) j.
Proof.
  intros. replace (len r + 4 + j) with (4 + (len r + j)) by lia. pose proof (len_nonneg r).
  rewrite layout_r by lia. by apply index_app_r.
Qed.

Lemma layout_m2 {E} : index (E := E) sig (len r + 4) = Ret m2.
Proof. replace (len r + 4) with (len r + 4 + 0) by lia. by rewrite layout_tail by lia. Qed.

Lemma layout_sl {E} : index (E := E) sig (len r + 5) = Ret sl.
Proof. replace (len r + 5) with (len r + 4 + 1) by lia. by rewrite layout_tail by lia. Qed.

Lemma layout_s {E} j : 0 <= j -> index (E := E) sig (len r + 6 + j) = index s j.
Proof.
  intros. replace (len r + 6 + j) with (len r + 4 + (2 + j)) by lia. rewrite layout_tail by lia.
  exact (index_app_r [m2; sl] s j ltac:(lia)).
Qed.

Lemma layout_slice {E} : slice (E := E) sig (len r + 6) (len r + 6 + len s) = Ret s.
Proof.
  pose proof (len_nonneg r). pose proof (len_nonneg s). unfold sig.
  rewrite slice_Ret by (rewrite ?len_app, ?len_cons; change (len (@nil Z)) with 0; lia).
  replace (Z.to_nat (len r + 6)) with (length ([x0; x1; x2; x3] ++ r ++ [m2; sl]))
    by (rewrite !length_app; unfold len; cbn; lia).
  replace ([x0; x1; x2; x3] ++ r ++ [m2; sl] ++ s) with (([x0; x1; x2; x3] ++ r ++ [m2; sl]) ++ s)
    by (by rewrite <- !app_assoc).
  rewrite drop_app_length. f_equal. apply take_ge. unfold len. lia.
Qed.

Lemma layout_len : len sig = len r + len s + 6.
Proof. unfold sig. rewrite !len_app, !len_cons. change (len (@nil Z)) with 0. lia. Qed.
End layout.

(** Any string with room for S after R has that layout. *)
Lemma layout_exists sig rLen :
  bytes_ok sig -> sig !! 3%nat = Some rLen -> rLen + 5 < len sig ->
  exists x0 x1 x2 m2 sl r s, sig = [x0; x1; x2; rLen] ++ r ++ [m2; sl] ++ s /\ len r = rLen.
Proof.
  intros Hok H3 Hlen. destruct sig as [|x0 [|x1 [|x2 [|x3 rest]]]]; try done. cbn in H3. injection H3 as ->.
  assert (is_byte rLen) as Hr by (by rewrite !Forall_cons in Hok; destruct_and!). unfold is_byte in Hr.
  rewrite !len_cons in Hlen. set (n := Z.to_nat rLen).
  destruct (drop n rest) as [|m2 [|sl s]] eqn:Hd.
  - apply (f_equal len) in Hd. rewrite len_drop in Hd. change (len (@nil Z)) with 0 in Hd. lia.
  - apply (f_equal len) in Hd. rewrite len_drop, len_one in Hd. lia.
  - exists x0, x1, x2, m2, sl, (take n rest), s. split.
    + cbn. f_equal. f_equal. f_equal. f_equal. rewrite <- (take_drop n rest) at 1. by rewrite Hd.
    + apply (f_equal len) in Hd. rewrite len_drop, !len_cons in Hd. rewrite len_take. lia.
Qed.

Section checks.
Context {BC : Btcec}.

(** The checks on the two integers, for a signature with the layout. *)
Lemma high_bit_byte sig i b : is_byte b -> index (E := script_error) sig i = Ret b -> high_bit sig i = Ret (negb (b <? 128)).
Proof. intros Hb Hi. unfold high_bit. rewrite Hi. cbn. by rewrite byte_high. Qed.

(** [der_int] is what the tests on a non-empty integer at [at_] decide. *)
Lemma integer_checks sig i r (e1 e2 : script_error) (k : result unit) :
  bytes_ok r -> r <> [] -> (forall j, 0 <= j < len r -> index sig (i + j) = index (E := script_error) r j) ->
  (neg ← high_bit sig i; check neg e1;;
   bad ← and_then (len r >? 1) (b ← index sig i; and_then (b =? 0x00) (h ← high_bit sig (i + 1); Ret (negb h)));
   check bad e2;; k) =
  if der_int r then k else if nth 0 r 0 <? 128 then Err e2 else Err e1.
Proof.
  intros Hok Hne Hidx. destruct r as [|b r]; [done|]. apply Forall_cons in Hok as [Hb Hok].
  pose proof (len_nonneg r) as Hlr.
  assert (index (E := script_error) sig i = Ret b) as Hi by (rewrite <- (Z.add_0_r i), Hidx; [done|rewrite len_cons; lia]).
  rewrite (high_bit_byte sig i b Hb Hi). cbn [mbind outcome_bind nth]. destruct (b <? 128) eqn:Hb128; cbn [negb].
  2:{ destruct r; cbn; by rewrite Hb128. }
  unfold check at 1. cbn [mbind outcome_bind]. destruct r as [|c r].
  { cbn. by rewrite Hb128. }
  apply Forall_cons in Hok as [Hc _].
  replace (len (b :: c :: r) >? 1) with true by (symmetry; rewrite Z.gtb_ltb; apply Z.ltb_lt; rewrite !len_cons; pose proof (len_nonneg r); lia).
  assert (index (E := script_error) sig (i + 1) = Ret c) as Hi1 by (rewrite Hidx; [done|rewrite !len_cons; pose proof (len_nonneg r); lia]).
  unfold and_then at 1. rewrite Hi. cbn [mbind outcome_bind der_int]. rewrite Hb128. cbn [andb].
  destruct (b =? 0); cbn [and_then andb negb]; [|done].
  rewrite (high_bit_byte sig (i + 1) c Hc Hi1). cbn [mbind outcome_bind]. rewrite negb_involutive.
  by destruct (c <? 128).
Qed.

(** The check on a signature with the layout, as one test per error. *)
Lemma checkSignatureEncoding_layout x0 x1 x2 m2 sl r s :
  let sig := [x0; x1; x2; len r] ++ r ++ [m2; sl] ++ s in
  bytes_ok sig -> 8 <= len sig <= 72 -> x0 = 0x30 -> x1 = len sig - 2 ->
  checkSignatureEncoding sig =
    if negb (len r + sl + 6 =? len sig) then Err (malformed DerInvalidRLength)
    else if negb (x2 =? 2) then Err (malformed DerNoFirstMarker)
    else if len r =? 0 then Err (malformed DerRLengthZero)
    else if negb (der_int r) then if nth 0 r 0 <? 128 then Err (malformed DerRInvalid) else Err (malformed DerRNegative)
    else if negb (m2 =? 2) then Err (malformed DerNoSecondMarker)
    else if sl =? 0 then Err (malformed DerSLengthZero)
    else if negb (der_int s) then if nth 0 s 0 <? 128 then Err (malformed DerSInvalid) else Err (malformed DerSNegative)
    else if be_decode s >? halfOrder then Err ErrStackInvalidLowSSignature else Ret tt.
Proof.
  intros sig Hok Hlen H0 H1. unfold checkSignatureEncoding, check.
  pose proof (layout_len x0 x1 x2 (len r) m2 sl r s) as HL. fold sig in HL.
  pose proof (layout_sl (E := script_error) x0 x1 x2 (len r) m2 sl r s) as Isl. fold sig in Isl.
  pose proof (layout_m2 (E := script_error) x0 x1 x2 (len r) m2 sl r s) as Im2. fold sig in Im2.
  pose proof (layout_slice (E := script_error) x0 x1 x2 (len r) m2 sl r s) as Isl2. fold sig in Isl2.
  assert (bytes_ok r /\ bytes_ok s) as [Hr Hs].
  { unfold sig in Hok. rewrite !Forall_app in Hok. tauto. }
  replace (len sig <? 8) with false by (symmetry; apply Z.ltb_ge; lia).
  replace (len sig >? 72) with false by (symmetry; rewrite Z.gtb_ltb; apply Z.ltb_ge; lia).
  cbn [mbind outcome_bind]. change (index sig 0) with (Ret (E := script_error) x0).
  cbn [mbind outcome_bind]. rewrite H0. closed_tests. cbn [mbind outcome_bind].
  change (index sig 1) with (Ret (E := script_error) x1). cbn [mbind outcome_bind].
  rewrite (proj2 (Z.eqb_eq x1 (len sig - 2)) H1). cbn [mbind outcome_bind negb].
  change (index sig 3) with (Ret (E := script_error) (len r)). cbn [mbind outcome_bind].
  pose proof (len_nonneg s) as Hls.
  replace (len r + 5 >? len sig) with false by (symmetry; rewrite Z.gtb_ltb; apply Z.ltb_ge; lia).
  cbn [mbind outcome_bind]. rewrite Isl. cbn [mbind outcome_bind].
  destruct (Z.eqb_spec (len r + sl + 6) (len sig)) as [Hsl|]; cbn [negb]; [|done].
  assert (sl = len s) as -> by lia. cbn [mbind outcome_bind].
  change (index sig 2) with (Ret (E := script_error) x2). cbn [mbind outcome_bind].
  destruct (x2 =? 2); cbn [negb]; [|done]. cbn [mbind outcome_bind].
  destruct (Z.eqb_spec (len r) 0) as [|Hr0]; [done|]. cbn [mbind outcome_bind].
  etransitivity; [apply (integer_checks sig 4 r (malformed DerRNegative) (malformed DerRInvalid)); [done| |]|].
  { intros ->. done. }
  { intros j Hj. unfold sig. rewrite layout_r by lia. unfold index. case_if; [done|].
    rewrite lookup_app_l by (unfold len in Hj; lia). done. }
  destruct (der_int r); cbn [negb]; [|done].
  rewrite Im2. cbn [mbind outcome_bind].
  destruct (m2 =? 2); cbn [negb]; [|done]. cbn [mbind outcome_bind].
  destruct (Z.eqb_spec (len s) 0) as [|Hs0]; [done|]. cbn [mbind outcome_bind].
  replace (len r + 7) with (len r + 6 + 1) by lia.
  etransitivity; [apply (integer_checks sig (len r + 6) s (malformed DerSNegative) (malformed DerSInvalid)); [done| |]|].
  { intros ->. done. }
  { intros j Hj. unfold sig. by rewrite layout_s by lia. }
  destruct (der_int s); cbn [negb]; [|done].
  by rewrite Isl2.
Qed.

(** The header tests, then the read of the length of S. *)
Definition header_ok (sig : bytes) : bool :=
  (8 <=? len sig) && (len sig <=? 72) && (nth 0 sig 0 =? 0x30) && (nth 1 sig 0 =? len sig - 2).

Lemma checkSignatureEncoding_header sig :
  header_ok sig = false -> exists e, checkSignatureEncoding sig = Err e.
Proof.
  unfold header_ok, checkSignatureEncoding, check. intros Hh.
  destruct (len sig <? 8) eqn:H8; [by eexists|]. destruct (len sig >? 72) eqn:H72; [by eexists|]. bool_to_prop.
  destruct sig as [|x0 [|x1 sig']]; [unfold len in *; cbn [length] in *; lia..|]. cbn [mbind outcome_bind nth] in *.
  rewrite index_0. cbn [mbind outcome_bind]. destruct (x0 =? 48); cbn [negb]; [|by eexists].
  cbn [mbind outcome_bind]. rewrite index_1. cbn [mbind outcome_bind].
  destruct (x1 =? len (x0 :: x1 :: sig') - 2); cbn [negb]; [|by eexists].
  rewrite !andb_true_r, andb_false_iff, !Z.leb_gt in Hh. lia.
Qed.

Lemma checkSignatureEncoding_rlen sig :
  bytes_ok sig -> header_ok sig = true -> len sig <= nth 3 sig 0 + 5 ->
  checkSignatureEncoding sig = if len sig =? nth 3 sig 0 + 5 then Panic else Err (malformed DerSOutOfBounds).
Proof.
  unfold header_ok. intros Hok Hh Hr. bool_to_prop. unfold checkSignatureEncoding, check.
  replace (len sig <? 8) with false by (symmetry; apply Z.ltb_ge; lia).
  replace (len sig >? 72) with false by (symmetry; rewrite Z.gtb_ltb; apply Z.ltb_ge; lia).
  destruct sig as [|x0 [|x1 [|x2 [|x3 sig']]]]; [unfold len in *; cbn [length] in *; lia..|]. cbn [nth] in *. cbn [mbind outcome_bind].
  rewrite index_0. cbn [mbind outcome_bind]. subst x0. closed_tests. cbn [mbind outcome_bind].
  rewrite index_1. cbn [mbind outcome_bind].
  rewrite (proj2 (Z.eqb_eq x1 _)) by done. cbn [mbind outcome_bind negb].
  change (index (48 :: x1 :: x2 :: x3 :: sig') 3) with (Ret (E := script_error) x3). cbn [mbind outcome_bind].
  set (sig := 48 :: x1 :: x2 :: x3 :: sig') in *.
  destruct (Z.eqb_spec (len sig) (x3 + 5)).
  - replace (x3 + 5 >? len sig) with false by (symmetry; rewrite Z.gtb_ltb; apply Z.ltb_ge; lia). cbn [mbind outcome_bind].
    rewrite (proj2 (index_Panic (E := script_error) sig (x3 + 5))) by lia. reflexivity.
  - by replace (x3 + 5 >? len sig) with true by (symmetry; rewrite Z.gtb_ltb; apply Z.ltb_lt; lia).
Qed.

(** The three ways through the check. *)
Lemma checkSignatureEncoding_cases sig :
  bytes_ok sig ->
  (header_ok sig = false /\ exists e, checkSignatureEncoding sig = Err e) \/
  (header_ok sig = true /\ len sig <= nth 3 sig 0 + 5 /\
   checkSignatureEncoding sig = if len sig =? nth 3 sig 0 + 5 then Panic else Err (malformed DerSOutOfBounds)) \/
  (header_ok sig = true /\ exists x2 m2 sl r s,
     sig = [0x30; len sig - 2; x2; len r] ++ r ++ [m2; sl] ++ s /\ len r = nth 3 sig 0).
Proof.
  intros Hok. destruct (header_ok sig) eqn:Hh; [|left; eauto using checkSignatureEncoding_header].
  right. destruct (decide (len sig <= nth 3 sig 0 + 5)) as [Hr|Hr].
  { left. eauto using checkSignatureEncoding_rlen. }
  right. split; [done|]. unfold header_ok in Hh. bool_to_prop.
  destruct (layout_exists sig (nth 3 sig 0) Hok) as (x0 & x1 & x2 & m2 & sl & r & s & Heq & Hlr).
  { destruct sig as [|? [|? [|? [|? ?]]]]; [unfold len in *; cbn [length] in *; lia..|]. done. }
  { lia. }
  exists x2, m2, sl, r, s. split; [|done].
  assert (nth 0 sig 0 = x0) as Hx0 by (by rewrite Heq). assert (nth 1 sig 0 = x1) as Hx1 by (by rewrite Heq).
  rewrite Hlr. congruence.
Qed.

(** * Properties *)

(** C29: checkSignatureEncoding accepts exactly the strict DER encodings of a pair (R, S)
    of non-negative, minimally encoded integers of at most 72 bytes in all, with S at most
    half the group order. *)
Theorem signature_encoding_accepts (sig : bytes) :
  bytes_ok sig ->
  checkSignatureEncoding sig = Ret tt <->
  exists r s, sig = der r s /\ der_int r = true /\ der_int s = true /\ len sig <= 72 /\ be_decode s <= halfOrder.
Proof.
  intros Hok. split.
  - intros Hc. destruct (checkSignatureEncoding_cases sig Hok) as
      [[_ [e He]]|[(_ & _ & Hr)|(Hh & x2 & m2 & sl & r & s & Heq & Hlr)]]; [congruence|rewrite Hr in Hc; by case_if|].
    unfold header_ok in Hh. bool_to_prop. set (L := len sig) in *. rewrite Heq in Hc, Hok.
    rewrite (checkSignatureEncoding_layout 0x30 (L - 2) x2 m2 sl r s) in Hc
      by (done || (rewrite <- Heq; fold L; lia)).
    rewrite <- Heq in Hc. fold L in Hc. pose proof (layout_len 48 (L - 2) x2 (len r) m2 sl r s) as HL.
    rewrite <- Heq in HL. fold L in HL.
    repeat (case_if; [by (repeat case_if)|]). bool_to_prop. exists r, s. split; [|split_and!; done || lia].
    rewrite Heq. unfold der. assert (sl = len s) as -> by lia. replace (len r + len s + 4) with (L - 2) by lia.
    by subst x2 m2.
  - intros (r & s & -> & Hr & Hs & Hl & Hord). pose proof (len_nonneg r). pose proof (len_nonneg s).
    assert (1 <= len r /\ 1 <= len s) as [].
    { destruct r; [done|]. destruct s; [done|]. rewrite !len_cons in *. pose proof (len_nonneg r). pose proof (len_nonneg s). lia. }
    pose proof (layout_len 48 (len r + len s + 4) 2 (len r) 2 (len s) r s) as HL. fold (der r s) in HL.
    unfold der. rewrite checkSignatureEncoding_layout; fold (der r s); [|done|lia|done|lia].
    rewrite (proj2 (Z.eqb_eq _ _)) by lia. closed_tests. cbn [negb].
    replace (len r =? 0) with false by (symmetry; apply Z.eqb_neq; lia).
    replace (len s =? 0) with false by (symmetry; apply Z.eqb_neq; lia).
    rewrite Hr, Hs. cbn [negb]. by replace (be_decode s >? halfOrder) with false
      by (symmetry; rewrite Z.gtb_ltb; apply Z.ltb_ge; lia).
Qed.

(** the bounds test of R against the signature is off by one (rLen+5 > len(sig) where
    reading sig[rLen+5] needs rLen+5 < len(sig)): the check panics on exactly the strings
    with a valid header whose declared length of R is five less than their length. *)
Theorem signature_encoding_panics (sig : bytes) :
  bytes_ok sig ->
  checkSignatureEncoding sig = Panic <->
  8 <= len sig <= 72 /\ nth 0 sig 0 = 0x30 /\ nth 1 sig 0 = len sig - 2 /\ nth 3 sig 0 = len sig - 5.
Proof.
  intros Hok. assert (header_ok sig = true <-> 8 <= len sig <= 72 /\ nth 0 sig 0 = 0x30 /\ nth 1 sig 0 = len sig - 2) as Hhead.
  { unfold header_ok. rewrite !andb_true_iff, !Z.leb_le, !Z.eqb_eq. tauto. }
  destruct (checkSignatureEncoding_cases sig Hok) as
      [[Hh [e ->]]|[(Hh & Hr & ->)|(Hh & x2 & m2 & sl & r & s & Heq & Hlr)]].
  - split; [done|]. intros (H1 & H2 & H3 & _). rewrite (proj2 Hhead) in Hh by tauto. done.
  - rewrite Hhead in Hh. case_if; bool_to_prop; [|split; [done|lia]]. split; [|done]. intros _. split_and!; try tauto. lia.
  - rewrite Hhead in Hh. pose proof (layout_len 48 (len sig - 2) x2 (len r) m2 sl r s) as HL. rewrite <- Heq in HL.
    pose proof (len_nonneg s). split; [|lia]. intros Hp. exfalso. revert Hp. rewrite Heq.
    rewrite checkSignatureEncoding_layout by (rewrite <- ?Heq; done || lia). by repeat case_if.
Qed.
End checks.

Lemma signature_encoding_accepts_witness :
  checkSignatureEncoding (BC := Toy.btcec) [0x30; 6; 2; 1; 9; 2; 1; 7] = Ret tt.
Proof.
  apply (signature_encoding_accepts (BC := Toy.btcec)); [solve_bytes|].
  exists [9], [7]. split; [reflexivity|]. split; [reflexivity|]. split; [reflexivity|].
  split; vm_compute; congruence.
Defined.

Lemma signature_encoding_panics_witness :
  checkSignatureEncoding (BC := Toy.btcec) [0x30; 6; 2; 3; 1; 1; 1; 1] = Panic.
Proof.
  apply (signature_encoding_panics (BC := Toy.btcec)); [solve_bytes|].
  split; [vm_compute; split; congruence|]. repeat split; reflexivity.
Defined.
