(* ===== verification/Witness.v ===== *)
(** Spending witness programs: what a successful execution of the engine says about the
    input that was spent.  The public key script of a witness program only pushes its version
    and data; the engine then loads the lock script of a staking or binding output and the
    two witness scripts, and runs them. *)

From S2P Require Import Prelude TxCommon ScriptNum Stack Opcodes Script Builder Hashes Wire SigHash SigCache Standard Engine EngineSafety.

(** * Numbers *)

Lemma le_encode_snoc n z : le_encode (S n) z = le_encode n z ++ [(z / 256 ^ Z.of_nat n) mod 256].
Proof.
  revert z. induction n as [|n IH]; intros z; [by change (256 ^ Z.of_nat 0) with 1; cbn; rewrite Z.div_1_r|].
  cbn [le_encode] in *. rewrite IH. cbn [app]. do 3 f_equal.
  rewrite Z.div_div by lia. do 3 f_equal. rewrite Nat2Z.inj_succ, Z.pow_succ_r by lia. lia.
Qed.

(** Eight little-endian bytes below 2^63 read as the script number they encode. *)
Lemma makeScriptNum_le L : 0 <= L < 2 ^ 63 -> makeScriptNum (le_encode 8 L) false 9 = Ret L.
Proof.
  intros HL. rewrite (le_encode_snoc 7 L). change (256 ^ Z.of_nat 7) with (2 ^ 56).
  assert (0 <= L / 2 ^ 56 < 128) as Hb.
  { split; [apply Z.div_pos; lia|]. apply Z.div_lt_upper_bound; lia. }
  rewrite (Z.mod_small (L / 2 ^ 56)) by lia.
  rewrite makeScriptNum_snoc; [|apply le_encode_ok|unfold is_byte; lia|unfold len; rewrite length_le_encode; lia|
    unfold len; rewrite length_le_encode; lia|done].
  f_equal. unfold signed_value. replace (L / 2 ^ 56 <? 128) with true by (symmetry; apply Z.ltb_lt; lia).
  rewrite le_decode_app. unfold len. rewrite length_le_encode, le_decode_encode.
  change (256 ^ Z.of_nat 7) with (2 ^ 56). cbn [le_decode]. pose proof (Z.div_mod L (2 ^ 56)). lia.
Qed.

(** * The lock time test *)

(** The parts of a sequence number a relative lock looks at. *)
Lemma land_lock_mask T : 0 <= T ->
  Z.land T (Z.lor SequenceLockTimeIsSeconds SequenceLockTimeMask) =
  (if Z.testbit T 38 then 2 ^ 38 else 0) + T mod 2 ^ 32.
Proof.
  intros HT. rewrite Z.land_lor_distr_r.
  change SequenceLockTimeMask with (Z.ones 32). rewrite Z.land_ones by lia.
  change SequenceLockTimeIsSeconds with (2 ^ 38).
  assert (Z.land T (2 ^ 38) = (if Z.testbit T 38 then 1 else 0) * 2 ^ 38) as ->.
  { apply Z.bits_inj'. intros i Hi. rewrite Z.land_spec, Z.pow2_bits_eqb by lia.
    destruct (Z.eqb_spec 38 i) as [<-|Hne].
    - rewrite andb_true_r. destruct (Z.testbit T 38); [by rewrite Z.mul_1_l, Z.pow2_bits_true by lia|by rewrite Z.mul_0_l, Z.bits_0].
    - rewrite andb_false_r. destruct (Z.testbit T 38); [by rewrite Z.mul_1_l, Z.pow2_bits_false by lia|by rewrite Z.mul_0_l, Z.bits_0]. }
  rewrite Z.lor_comm, <- Z.shiftl_mul_pow2, lor_shiftl_add by lia || (pose proof (Z.mod_pos_bound T (2 ^ 32)); lia).
  destruct (Z.testbit T 38); lia.
Qed.

Lemma land_disabled T : 0 <= T -> (Z.land T SequenceLockTimeDisabled =? 0) = negb (Z.testbit T 63).
Proof.
  intros HT. change SequenceLockTimeDisabled with (2 ^ 63).
  destruct (Z.testbit T 63) eqn:Hb; cbn [negb].
  - apply Z.eqb_neq. intros Hz. apply (f_equal (fun z => Z.testbit z 63)) in Hz.
    rewrite Z.land_spec, Hb, Z.bits_0, Z.pow2_bits_true in Hz by lia. done.
  - apply Z.eqb_eq. apply Z.bits_inj'. intros i Hi. rewrite Z.land_spec, Z.bits_0, Z.pow2_bits_eqb by lia.
    destruct (Z.eqb_spec 63 i) as [<-|]; [by rewrite Hb|by rewrite andb_false_r].
Qed.

(** The relative lock a sequence number expresses satisfies the lock [L] (in blocks). *)
Definition lock_satisfied (L seq : Z) : Prop :=
  Z.testbit seq 63 = false /\ Z.testbit seq 38 = false /\ L <= seq mod 2 ^ 32.

Lemma verifyLockTime_blocks L T :
  0 <= L < 2 ^ 32 -> 0 <= T ->
  let mask := Z.lor SequenceLockTimeIsSeconds SequenceLockTimeMask in
  verifyLockTime (Z.land T mask) SequenceLockTimeIsSeconds (Z.land L mask) = Ret tt <->
  Z.testbit T 38 = false /\ L <= T mod 2 ^ 32.
Proof.
  intros HL HT mask. unfold mask. rewrite !land_lock_mask by lia.
  assert (Z.testbit L 38 = false) as ->.
  { rewrite <- (Z.mod_small L (2 ^ 32)) by lia. by rewrite Z.mod_pow2_bits_high by lia. }
  rewrite (Z.mod_small L) by lia. change SequenceLockTimeIsSeconds with (2 ^ 38).
  pose proof (Z.mod_pos_bound T (2 ^ 32) ltac:(lia)). unfold verifyLockTime.
  replace (0 + L <? 2 ^ 38) with true by (symmetry; apply Z.ltb_lt; lia).
  replace (0 + L >=? 2 ^ 38) with false by (symmetry; rewrite Z.geb_leb; apply Z.leb_gt; lia).
  rewrite andb_true_r, andb_false_r, orb_false_r. destruct (Z.testbit T 38).
  - replace (2 ^ 38 + T mod 2 ^ 32 <? 2 ^ 38) with false by (symmetry; apply Z.ltb_ge; lia). cbn [negb]. split; [done|].
    intros [? _]. done.
  - replace (0 + T mod 2 ^ 32 <? 2 ^ 38) with true by (symmetry; apply Z.ltb_lt; lia). cbn [negb].
    rewrite Z.gtb_ltb. destruct (Z.ltb_spec (0 + T mod 2 ^ 32) (0 + L)); split; try done; lia.
Qed.

Section witness.
Context {HF : HashFunctions} {BC : Btcec} {EV : Env}.

(** * Inverting executions *)

Lemma Execute_inv fuel vm vm' :
  Execute fuel vm = Some (Ret tt, vm') ->
  exists fuel' d vm1, Step vm = (Ret d, vm1) /\
    if (d : bool) then CheckErrorCondition true vm1 = (Ret tt, vm') else Execute fuel' vm1 = Some (Ret tt, vm').
Proof.
  destruct fuel as [|fuel]; [done|]. cbn [Execute]. destruct (Step vm) as [[d|?|] vm1]; intros He; [|done|done].
  exists fuel, d, vm1. split; [done|]. destruct d; [congruence|done].
Qed.

(** A push opcode: not a counted operation, its handler pushes its data. *)
Definition push_op (pop : parsedOpcode) : Prop :=
  isDisabled pop = false /\ alwaysIllegal pop = false /\ pop_value pop <= OP_16 /\
  len (pop_data pop) <= MaxScriptElementSize /\
  opfunc_of (opfunc (opcode_of pop)) pop = dPush (pop_data pop).

Definition push_item (d : bytes) (vm : Engine) : Engine :=
  set_dstack (set_scriptOff vm (scriptOff vm + 1)) (set_stk (dstack vm) (stk (dstack vm) ++ [d])).

Lemma executeOpcode_push vm pop :
  push_op pop -> condStack vm = [] -> verifyMinimalData (dstack vm) = false ->
  executeOpcode pop vm = (Ret tt, set_dstack vm (set_stk (dstack vm) (stk (dstack vm) ++ [pop_data pop]))).
Proof.
  intros (Hd & Ha & Hv & Hl & Hf) Hc Hm. unfold executeOpcode. rewrite Hd, Ha. steps.
  replace (pop_value pop >? OP_16) with false by (symmetry; rewrite Z.gtb_ltb; apply Z.ltb_ge; lia).
  replace (len (pop_data pop) >? MaxScriptElementSize) with false by (symmetry; rewrite Z.gtb_ltb; apply Z.ltb_ge; lia).
  steps. unfold isBranchExecuting. rewrite Hc. cbn [negb andb]. steps. rewrite Hm. cbn [andb]. steps. by rewrite Hf.
Qed.

(** A push that does not end the script, and one that does. *)
Lemma Step_push vm s pop :
  0 <= scriptIdx vm -> 0 <= scriptOff vm ->
  scripts vm !! Z.to_nat (scriptIdx vm) = Some s -> s !! Z.to_nat (scriptOff vm) = Some pop ->
  push_op pop -> condStack vm = [] -> verifyMinimalData (dstack vm) = false ->
  len (stk (dstack vm)) + len (stk (astack vm)) < maxStackSize ->
  Step vm = if scriptOff vm + 1 >=? len s then next_script (push_item (pop_data pop) vm)
            else (Ret false, push_item (pop_data pop) vm).
Proof.
  intros Hi Ho Hs Hpop Hpush Hc Hm Hl. rewrite (Step_run vm s pop) by done.
  erewrite bind_step by (by apply executeOpcode_push). 
  set (vm1 := push_item (pop_data pop) vm). match goal with |- after_opcode ?x = _ => change x with vm1 end. unfold after_opcode. steps.
  pose proof (len_nonneg (stk (dstack vm))). pose proof (len_nonneg (stk (astack vm))). unfold maxStackSize in *.
  assert (len (stk (dstack vm1)) = len (stk (dstack vm)) + 1) as Hd by (cbn; rewrite len_app, len_one; lia).
  assert (astack vm1 = astack vm) as Ha by done.
  rewrite !Depth_small, int32_small, Hd, Ha by (unfold small; rewrite ?Hd, ?Ha; lia).
  replace (len (stk (dstack vm)) + 1 + len (stk (astack vm)) >? 1000) with false
    by (symmetry; rewrite Z.gtb_ltb; apply Z.ltb_ge; lia).
  steps. change (scripts vm1) with (scripts vm). change (scriptIdx vm1) with (scriptIdx vm).
  change (scriptOff vm1) with (scriptOff vm + 1). rewrite (proj2 (index_Ret _ _ _) (conj Hi Hs)). steps. by case_if.
Qed.

(** * CHECKSEQUENCEVERIFY *)

Lemma csv_success op vm vm' base L :
  0 <= L < 2 ^ 63 -> stk (dstack vm) = base ++ [le_encode 8 L] -> small (dstack vm) ->
  verifyMinimalData (dstack vm) = false -> msgtx_ok (tx vm) ->
  opcodeCheckSequenceVerify op vm = (Ret tt, vm') ->
  exists ti, TxIns (tx vm) !! Z.to_nat (txIdx vm) = Some ti /\ txin_ok ti /\
    Z.testbit (Sequence ti) 63 = false /\
    let mask := Z.lor SequenceLockTimeIsSeconds SequenceLockTimeMask in
    verifyLockTime (Z.land (Sequence ti) mask) SequenceLockTimeIsSeconds (Z.land L mask) = Ret tt.
Proof.
  intros HL Hstk Hsm Hm (_ & Hins & _). unfold opcodeCheckSequenceVerify.
  assert (dPeek 0 vm = (Ret (le_encode 8 L), vm)) as Hpeek.
  { unfold dPeek, on_d, zoom. change 0 with (len (@nil bytes)). rewrite (Peek_mid _ base (le_encode 8 L) []) by done.
    by destruct vm. }
  erewrite bind_step by exact Hpeek. steps. rewrite Hm, makeScriptNum_le by lia. steps.
  replace (L <? 0) with false by (symmetry; apply Z.ltb_ge; lia). steps.
  rewrite wrapU_small by lia. rewrite land_disabled by lia.
  assert (Z.testbit L 63 = false) as ->.
  { rewrite <- (Z.mod_small L (2 ^ 63)) by lia. by rewrite Z.mod_pow2_bits_high by lia. }
  cbn [negb]. unfold mbind at 1, prog_bind at 1, txInput.
  destruct (index (TxIns (tx vm)) (txIdx vm)) as [ti| |] eqn:Hti; [|done|done].
  apply index_Ret in Hti as [_ Hti]. pose proof (Forall_lookup_1 _ _ _ _ Hins Hti) as Hok.
  pose proof Hok as (_ & _ & _ & Hseq). rewrite land_disabled by lia.
  destruct (Z.testbit (Sequence ti) 63) eqn:Hbit; cbn [negb]; steps; [done|].
  unfold lift. intros [= Hv _]. exists ti. split; [done|]. split; [done|]. split; [done|]. exact Hv.
Qed.

(** * Witness programs *)

(** The engine NewEngine builds for a witness program. *)
Lemma NewEngine_program h ext t i fl sc hc amt vm :
  hash_ok h -> ext_ok ext -> NewEngine (program_script h ext) t i fl sc hc amt = Ret vm ->
  0 <= i < len (TxIns t) /\
  vm = mkEngine [program_pops h ext] 0 0 0 (mkStack [] false) (mkStack [] false) t i [] 0 fl sc hc
         0 (Some h) (ext_pops ext) amt.
Proof.
  intros Hh Hext (pops & version & program & e & Hi & _ & Hp & -> & Hinfo)%NewEngine_fields.
  rewrite program_parse in Hp by done. simplify_eq. split; [done|].
  assert (isMASSWitnessProgram (program_pops h ext) || isWitnessProgram (program_pops h ext) = true) as Hprog.
  { destruct Hh as [Hl Hh]. assert (len h = 32) as Hl' by (unfold len; lia).
    unfold isMASSWitnessProgram, isWitnessProgram, program_pops, canonicalPush, pop_data, between.
    destruct ext as [d|]; cbn [ext_pops data opcode_of]; rewrite Hl'; [|reflexivity].
    destruct Hext as [_ [-> | [-> | ->]]]; reflexivity. }
  rewrite Hprog in Hinfo. unfold extractWitnessProgramInfo in Hinfo.
  apply orb_true_iff in Hprog. destruct (isWitnessProgram _), (isMASSWitnessProgram _); try (exfalso; by destruct Hprog).
  all: cbn [negb andb] in Hinfo; destruct ext as [d|]; injection Hinfo as <- <- <-; done.
Qed.

Lemma enter_lock vm s0 L rest :
  scripts vm = s0 :: lock_pops L :: rest -> scriptIdx vm = 1 -> scriptOff vm = 0 ->
  enter_script vm = (Ret false, set_lastCodeSep vm 0).
Proof.
  intros Hs Hi Ho. unfold enter_script. steps. rewrite Hs, Hi, !len_cons. pose proof (len_nonneg rest).
  replace (1 <? 1 + (1 + len rest)) with true by (symmetry; apply Z.ltb_lt; lia). steps.
  rewrite Hs, Hi, Ho. rewrite index_cons_1. steps. change (0 >=? len (lock_pops L)) with false. steps. unfold gets. cbn [scriptIdx scripts set_lastCodeSep].
  rewrite Hi, Hs, !len_cons. do 2 f_equal. rewrite Z.geb_leb. apply Z.leb_gt. lia.
Qed.

Lemma next_script_witness vm vm2 d :
  len (scripts vm) = 1 -> scriptIdx vm = 0 -> is_Some (witnessProgram vm) -> small (dstack vm) -> small (astack vm) ->
  next_script vm = (Ret d, vm2) ->
  exists ti w0 w1 lock p0 p1,
    TxIns (tx vm) !! Z.to_nat (txIdx vm) = Some ti /\ Witness ti = [w0; w1] /\
    witnessProgram vm = Some (sha256_Sum256 w1) /\ extension_lock vm = Ret lock /\
    parse_ok w0 = Ret p0 /\ parse_ok w1 = Ret p1 /\
    forall L, lock = Some L ->
      d = false /\ scripts vm2 !! 1%nat = Some (lock_pops L) /\ scriptIdx vm2 = 1 /\ scriptOff vm2 = 0 /\
      stk (dstack vm2) = [] /\ stk (astack vm2) = [] /\ condStack vm2 = [] /\
      verifyMinimalData (dstack vm2) = verifyMinimalData (dstack vm) /\ same_job vm vm2.
Proof.
  intros Hn Hi Hp Hd Ha. unfold next_script. steps.
  destruct (Z.eqb_spec (len (condStack vm)) 0) as [Hc|]; cbn [negb]; steps; [|done]. apply len_zero_iff in Hc.
  erewrite bind_step by (by apply ignore_on_a). steps. cbn [scriptIdx witnessProgram set_scriptOff set_numOps set_astack].
  rewrite Hi, bool_decide_eq_true_2 by done. cbn [Z.eqb andb]. unfold load_witness. steps.
  destruct (negb _ && negb _); steps; [done|]. erewrite bind_step by (by apply ignore_on_d). steps.
  unfold mbind at 1, prog_bind at 1, txInput.
  set (vm1 := set_dstack _ _). destruct (index (TxIns (tx vm1)) (txIdx vm1)) as [ti| |] eqn:Hti; [|done|done].
  apply index_Ret in Hti as [_ Hti]. unfold mbind at 1, prog_bind at 1.
  pose proof (verifyWitnessProgram_run (Witness ti) vm1) as Hv.
  destruct (verifyWitnessProgram (Witness ti) vm1) as [[?|?|] vm']; [|done|done].
  destruct Hv as (w0 & w1 & lock & p0 & p1 & Hwit & _ & Hprog & Hlock & _ & _ & Hp0 & Hp1 & ->). intros He.
  exists ti, w0, w1, lock, p0, p1. do 6 (split; [done|]). intros L ->.
  destruct (scripts vm) as [|s0 [|s1 ss]] eqn:Hscr; [done| |rewrite !len_cons in Hn; pose proof (len_nonneg ss); lia].
  pose proof (enter_lock (set_scripts vm1 (scripts vm1 ++ lock_scripts (Some L) ++ [p0; p1])) s0 L [p0; p1]) as Hen.
  rewrite He in Hen. cbn [scripts set_scripts] in Hen. unfold vm1 in Hen. cbn in Hen. rewrite Hscr in Hen.
  specialize (Hen eq_refl eq_refl eq_refl). injection Hen as -> ->. done.
Qed.

Lemma push_op_0 : push_op (mkParsed (opcode_at OP_0) None).
Proof. split_and!; vm_compute; congruence. Qed.

Lemma push_op_data d : len d = 8 \/ len d = 20 \/ len d = 22 \/ len d = 32 ->
  push_op (mkParsed (opcode_at (len d)) (Some d)).
Proof.
  intros Hd. unfold push_op, pop_data. cbn [data]. unfold MaxScriptElementSize.
  split_and!; [| | |lia|]; by destruct Hd as [-> | [-> | [-> | ->]]].
Qed.

(** A step of a successful execution that pushes, before the end of a script. *)
Lemma Execute_push fuel vm vm' s pop :
  0 <= scriptIdx vm -> 0 <= scriptOff vm ->
  scripts vm !! Z.to_nat (scriptIdx vm) = Some s -> s !! Z.to_nat (scriptOff vm) = Some pop ->
  push_op pop -> condStack vm = [] -> verifyMinimalData (dstack vm) = false ->
  len (stk (dstack vm)) + len (stk (astack vm)) < maxStackSize -> scriptOff vm + 1 < len s ->
  Execute fuel vm = Some (Ret tt, vm') ->
  exists fuel', Execute fuel' (push_item (pop_data pop) vm) = Some (Ret tt, vm').
Proof.
  intros Hi Ho Hs Hpop Hpush Hc Hm Hl Hoff (fuel' & d & vm1 & Hst & He)%Execute_inv. exists fuel'.
  rewrite (Step_push vm s pop) in Hst by done.
  replace (scriptOff vm + 1 >=? len s) with false in Hst by (symmetry; rewrite Z.geb_leb; apply Z.leb_gt; lia).
  by simplify_eq.
Qed.

(** The last push of a witness program: the engine goes on to the witness. *)
Lemma Execute_last_push fuel vm vm' s pop :
  scriptIdx vm = 0 -> scripts vm = [s] -> 0 <= scriptOff vm -> s !! Z.to_nat (scriptOff vm) = Some pop ->
  push_op pop -> condStack vm = [] -> verifyMinimalData (dstack vm) = false ->
  len (stk (dstack vm)) + len (stk (astack vm)) < maxStackSize -> scriptOff vm + 1 = len s ->
  Execute fuel vm = Some (Ret tt, vm') ->
  exists fuel' d vm1, next_script (push_item (pop_data pop) vm) = (Ret d, vm1) /\
    if (d : bool) then CheckErrorCondition true vm1 = (Ret tt, vm') else Execute fuel' vm1 = Some (Ret tt, vm').
Proof.
  intros Hi Hs Ho Hpop Hpush Hc Hm Hl Hoff (fuel' & d & vm1 & Hst & He)%Execute_inv. exists fuel', d, vm1.
  rewrite (Step_push vm s pop) in Hst by (done || (rewrite ?Hi, ?Hs; done)).
  replace (scriptOff vm + 1 >=? len s) with true in Hst by (symmetry; rewrite Z.geb_leb; apply Z.leb_le; lia). done.
Qed.

(** A counted opcode in an executing branch. *)
Lemma executeOpcode_counted vm pop :
  isDisabled pop = false -> alwaysIllegal pop = false -> (pop_value pop >? OP_16) = true ->
  condStack vm = [] -> verifyMinimalData (dstack vm) = false ->
  executeOpcode pop vm =
    if numOps vm + 1 >? MaxOpsPerScript then (Err ErrStackTooManyOperations, set_numOps vm (numOps vm + 1))
    else opfunc_of (opfunc (opcode_of pop)) pop (set_numOps vm (numOps vm + 1)).
Proof.
  intros Hd Ha Hv Hc Hm. unfold executeOpcode. rewrite Hd, Ha, Hv. steps.
  change (numOps (set_numOps vm (numOps vm + 1))) with (numOps vm + 1).
  destruct (numOps vm + 1 >? MaxOpsPerScript); steps; [done|].
  assert (isBranchExecuting (set_numOps vm (numOps vm + 1)) = true) as ->
    by (unfold isBranchExecuting; cbn [condStack set_numOps]; by rewrite Hc).
  cbn [negb andb]. steps. change (dstack (set_numOps vm (numOps vm + 1))) with (dstack vm).
  rewrite Hm. cbn [andb]. by steps.
Qed.

Lemma opfunc_CSV : opfunc (opcode_at OP_CHECKSEQUENCEVERIFY) = fn_opcodeCheckSequenceVerify.
Proof. vm_compute. reflexivity. Qed.

(** Running the lock script: OP_CHECKSEQUENCEVERIFY succeeds. *)
Lemma lock_enforced fuel vm vm' L :
  scripts vm !! 1%nat = Some (lock_pops L) -> scriptIdx vm = 1 -> scriptOff vm = 0 -> stk (dstack vm) = [] ->
  stk (astack vm) = [] -> condStack vm = [] -> verifyMinimalData (dstack vm) = false -> msgtx_ok (tx vm) ->
  0 <= L < 2 ^ 63 -> Execute fuel vm = Some (Ret tt, vm') ->
  exists ti, TxIns (tx vm) !! Z.to_nat (txIdx vm) = Some ti /\ txin_ok ti /\
    Z.testbit (Sequence ti) 63 = false /\
    let mask := Z.lor SequenceLockTimeIsSeconds SequenceLockTimeMask in
    verifyLockTime (Z.land (Sequence ti) mask) SequenceLockTimeIsSeconds (Z.land L mask) = Ret tt.
Proof.
  intros Hs Hi Ho Hd Ha Hc Hm Htx HL He.
  apply (Execute_push _ _ _ (lock_pops L) (mkParsed (opcode_at OP_DATA_8) (Some (le_encode 8 L)))) in He as [fuel1 He];
    [|lia|lia|by rewrite Hi|by rewrite Ho| |done|done|by rewrite Hd, Ha|by rewrite Ho].
  2:{ change OP_DATA_8 with (len (le_encode 8 L)). apply push_op_data. left. unfold len. by rewrite length_le_encode. }
  set (vm1 := push_item _ vm) in He. apply Execute_inv in He as (fuel2 & d & vm2 & Hst & _).
  rewrite (Step_run vm1 (lock_pops L) (mkParsed (opcode_at OP_CHECKSEQUENCEVERIFY) None)) in Hst;
    [|cbn; lia|cbn; lia|cbn; by rewrite Hi|cbn; by rewrite Ho].
  apply prog_bind_Ret in Hst as ([] & vm3 & Hex & _).
  set (vm4 := set_scriptOff vm1 (scriptOff vm1 + 1)) in Hex.
  rewrite executeOpcode_counted in Hex by (done || (unfold vm4, vm1; cbn; by rewrite ?Hc)).
  cbn [opcode_of] in Hex. rewrite opfunc_CSV in Hex. case_if; [done|]. cbn [opfunc_of] in Hex.
  set (vm5 := set_numOps vm4 (numOps vm4 + 1)) in Hex.
  change (tx vm) with (tx vm5). change (txIdx vm) with (txIdx vm5).
  assert (stk (dstack vm5) = [le_encode 8 L]) as Hd5 by (unfold vm5, vm4, vm1; cbn [stk dstack set_numOps set_scriptOff push_item set_dstack set_stk]; by rewrite Hd).
  apply (csv_success (mkParsed (opcode_at OP_CHECKSEQUENCEVERIFY) None) vm5 vm3 [] L HL Hd5); [by unfold small; rewrite Hd5|exact Hm|exact Htx|exact Hex].
Qed.

(** What the success of the rest shows, once the public key script has been run. *)
Lemma program_loaded h vm d vm1 vm' fuel :
  len (scripts vm) = 1 -> scriptIdx vm = 0 -> witnessProgram vm = Some h -> small (dstack vm) -> small (astack vm) ->
  verifyMinimalData (dstack vm) = false -> msgtx_ok (tx vm) -> next_script vm = (Ret d, vm1) ->
  (if (d : bool) then CheckErrorCondition true vm1 = (Ret tt, vm') else Execute fuel vm1 = Some (Ret tt, vm')) ->
  exists ti w0 w1 lock,
    TxIns (tx vm) !! Z.to_nat (txIdx vm) = Some ti /\ txin_ok ti /\ Witness ti = [w0; w1] /\
    sha256_Sum256 w1 = h /\ extension_lock vm = Ret lock /\
    forall L, lock = Some L -> 0 <= L < 2 ^ 32 -> lock_satisfied L (Sequence ti).
Proof.
  intros Hn Hi Hp Hsd Hsa Hm Htx Hns He.
  destruct (next_script_witness vm vm1 d Hn Hi ltac:(eauto) Hsd Hsa Hns) as
    (ti & w0 & w1 & lock & p0 & p1 & Hti & Hwit & Hprog & Hlock & _ & _ & Hrest).
  pose proof Htx as (_ & Hins & _). pose proof (Forall_lookup_1 _ _ _ _ Hins Hti) as Hok.
  exists ti, w0, w1, lock. do 3 (split; [done|]). split; [congruence|]. split; [done|]. intros L HL Hrange.
  destruct (Hrest L HL) as (-> & Hs1 & Hi1 & Ho1 & Hd1 & Ha1 & Hc1 & Hm1 & Hjob).
  pose proof Hjob as (Htx1 & Hix1 & _).
  destruct (lock_enforced fuel vm1 vm' L) as (ti' & Hti' & _ & Hb & Hv); try done; [congruence|by rewrite Htx1|lia|].
  rewrite Htx1, Hix1 in Hti'. assert (ti' = ti) as -> by congruence.
  destruct Hok as (_ & _ & _ & Hseq). cbv zeta in Hv. apply verifyLockTime_blocks in Hv; [|lia|lia].
  split; [done|]. done.
Qed.

(** What a successful spend of a witness program shows. *)
Lemma program_spent h ext t i fl sc hc amt vm vm' fuel :
  hash_ok h -> ext_ok ext -> msgtx_ok t -> NewEngine (program_script h ext) t i fl sc hc amt = Ret vm ->
  Execute fuel vm = Some (Ret tt, vm') ->
  exists ti w0 w1 lock,
    TxIns t !! Z.to_nat i = Some ti /\ txin_ok ti /\ Witness ti = [w0; w1] /\ sha256_Sum256 w1 = h /\
    extension_lock vm = Ret lock /\
    forall L, lock = Some L -> 0 <= L < 2 ^ 32 -> lock_satisfied L (Sequence ti).
Proof.
  intros Hh Hext Htx Hvm He. apply NewEngine_program in Hvm as [Hi Hvm]; [|done|done].
  assert (len h = 32) as Hl by (destruct Hh; unfold len; lia).
  assert (push_op (mkParsed (opcode_at OP_DATA_32) (Some h))) as Hpush.
  { change OP_DATA_32 with 32. rewrite <- Hl. apply push_op_data. lia. }
  set (pops := program_pops h ext) in *.
  assert (scripts vm = [pops] /\ witnessProgram vm = Some h /\ verifyMinimalData (dstack vm) = false) as (Hs & Hp & Hm)
    by (by subst).
  apply (Execute_push _ _ _ pops (mkParsed (opcode_at OP_0) None)) in He as [fuel1 He];
    [|subst vm; (done || apply push_op_0)..|subst vm pops; by destruct ext].
  set (vm1 := push_item (pop_data (mkParsed (opcode_at OP_0) None)) vm) in He.
  destruct ext as [d|].
  - apply (Execute_push _ _ _ pops (mkParsed (opcode_at OP_DATA_32) (Some h))) in He as [fuel2 He];
      [|unfold vm1; subst vm; done..].
    set (vm2 := push_item _ vm1) in He.
    apply (Execute_last_push _ _ _ pops (mkParsed (opcode_at (len d)) (Some d))) in He as (fuel3 & dn & vm4 & Hns & He);
      [|unfold vm2, vm1; subst vm; (done || (destruct Hext; apply push_op_data; lia))..].
    eapply (program_loaded h) in He; [|..|exact Hns]; unfold vm2, vm1 in *; subst vm; done.
  - apply (Execute_last_push _ _ _ pops (mkParsed (opcode_at OP_DATA_32) (Some h))) in He as (fuel3 & dn & vm4 & Hns & He);
      [|unfold vm1; subst vm; done..].
    eapply (program_loaded h) in He; [|..|exact Hns]; unfold vm1 in *; subst vm; done.
Qed.

(** * Properties *)

(** Input [i] of [t] is accepted as a spend of the output [pkScript]: the engine is created and
    its execution ends without an error. *)
Definition accepts (pkScript : bytes) (t : MsgTx) (i fl : Z) (sc : option SigCache) (hc : option TxSigHashes)
    (amt : Z) : Prop :=
  exists vm vm' fuel, NewEngine pkScript t i fl sc hc amt = Ret vm /\ Execute fuel vm = Some (Ret tt, vm').

(** C13: a standard witness program can only be spent by revealing its script: if the engine
    accepts input [i], its witness is a pair whose second element hashes to the program. *)
Theorem witness_program_matches (h : bytes) (t : MsgTx) (i fl amt : Z) (sc : option SigCache)
    (hc : option TxSigHashes) :
  hash_ok h -> msgtx_ok t ->
  accepts (program_script h None) t i fl sc hc amt ->
  exists ti w0 w1, TxIns t !! Z.to_nat i = Some ti /\ Witness ti = [w0; w1] /\ sha256_Sum256 w1 = h.
Proof.
  intros Hh Htx (vm & vm' & fuel & Hvm & He). destruct (program_spent h None _ _ _ _ _ _ _ _ _ Hh I Htx Hvm He) as (ti & w0 & w1 & _ & ? & _ & ? & ? & _).
  eauto 6.
Qed.

(** C11: a staking output stays frozen: for every valid frozen period, if the engine accepts
    the input that spends it, the witness reveals the script behind the program, and the
    sequence number of the input expresses an enabled relative lock in blocks of at least
    frozenPeriod + 1. *)
Theorem staking_lock_enforced (h : bytes) (frozenPeriod : Z) (t : MsgTx) (i fl amt : Z) (sc : option SigCache)
    (hc : option TxSigHashes) :
  hash_ok h -> IsValidFrozenPeriod frozenPeriod = true -> msgtx_ok t ->
  accepts (program_script h (Some (le_encode 8 frozenPeriod))) t i fl sc hc amt ->
  exists ti w0 w1, TxIns t !! Z.to_nat i = Some ti /\ Witness ti = [w0; w1] /\ sha256_Sum256 w1 = h /\
    Z.testbit (Sequence ti) 63 = false /\ Z.testbit (Sequence ti) 38 = false /\
    frozenPeriod + 1 <= Sequence ti mod 2 ^ 32.
Proof.
  intros Hh Hfp Htx (vm & vm' & fuel & Hvm & He). unfold IsValidFrozenPeriod in Hfp. bool_to_prop.
  unfold MinFrozenPeriod, SequenceLockTimeMask in *.
  assert (ext_ok (Some (le_encode 8 frozenPeriod))) as Hext.
  { split; [apply le_encode_ok|]. left. unfold len. by rewrite length_le_encode. }
  destruct (program_spent _ _ _ _ _ _ _ _ _ _ _ Hh Hext Htx Hvm He) as (ti & w0 & w1 & lock & Hti & _ & Hw & Hs & Hlock & HL).
  exists ti, w0, w1. do 3 (split; [done|]). apply (HL (frozenPeriod + 1)); [|lia].
  apply NewEngine_program in Hvm as [_ ->]; [|done|done].
  assert (extension_lock (mkEngine [program_pops h (Some (le_encode 8 frozenPeriod))] 0 0 0 (mkStack [] false)
    (mkStack [] false) t i [] 0 fl sc hc 0 (Some h) (ext_pops (Some (le_encode 8 frozenPeriod))) amt)
    = Ret (Some (frozenPeriod + 1))) as Hlock'; [|rewrite Hlock in Hlock'; by injection Hlock'].
  unfold extension_lock. cbn [witnessExtProg ext_pops dstack verifyMinimalData pop_data data].
  unfold pop_data. cbn [data]. unfold len. rewrite length_le_encode. cbn [Z.of_nat]. closed_tests.
  rewrite makeScriptNum_le by lia. cbn [mbind outcome_bind]. rewrite int64_small by lia.
  replace ((frozenPeriod <? 0) || (frozenPeriod + 1 <? 0)) with false
    by (symmetry; rewrite orb_false_iff, !Z.ltb_ge; lia).
  by rewrite wrapU_small by lia.
Qed.

(** C12: under the MASSip2 rules a binding output is locked for MASSIP0002BindingLockedPeriod
    blocks: the engine accepts an input that spends it only if the sequence number of the
    input expresses an enabled relative lock in blocks of at least that many. *)
Theorem binding_lock_enforced (h target : bytes) (t : MsgTx) (i fl amt : Z) (sc : option SigCache)
    (hc : option TxSigHashes) :
  hash_ok h -> bytes_ok target -> len target = 20 \/ len target = 22 -> msgtx_ok t ->
  Z.land fl ScriptMASSip2 = ScriptMASSip2 ->
  accepts (program_script h (Some target)) t i fl sc hc amt ->
  exists ti w0 w1, TxIns t !! Z.to_nat i = Some ti /\ Witness ti = [w0; w1] /\ sha256_Sum256 w1 = h /\
    Z.testbit (Sequence ti) 63 = false /\ Z.testbit (Sequence ti) 38 = false /\
    MASSIP0002BindingLockedPeriod <= Sequence ti mod 2 ^ 32.
Proof.
  intros Hh Htg Hlen Htx Hfl (vm & vm' & fuel & Hvm & He).
  assert (ext_ok (Some target)) as Hext by (split; [done|lia]).
  destruct (program_spent _ _ _ _ _ _ _ _ _ _ _ Hh Hext Htx Hvm He) as (ti & w0 & w1 & lock & Hti & _ & Hw & Hs & Hlock & HL).
  exists ti, w0, w1. do 3 (split; [done|]). apply (HL MASSIP0002BindingLockedPeriod); [|unfold MASSIP0002BindingLockedPeriod; lia].
  apply NewEngine_program in Hvm as [_ ->]; [|done|done].
  unfold extension_lock in Hlock. cbn [witnessExtProg ext_pops] in Hlock. unfold pop_data in Hlock. cbn [data] in Hlock.
  unfold hasFlag in Hlock. cbn [flags] in Hlock. rewrite (proj2 (Z.eqb_eq _ _) Hfl) in Hlock.
  by destruct Hlen as [Hl | Hl]; rewrite Hl in Hlock; injection Hlock.
Qed.
End witness.
