(* ===== verification/Scenario.v ===== *)
(** A concrete spend, evaluated: a one-of-one multisig script behind a standard, a staking and
    a binding output, signed with the toy scheme of SigCache.v and hashed with SHA-256.  The
    runs instantiate the theorems on the engine. *)

From S2P Require Import Prelude TxCommon Stack Opcodes Script Hashes Wire Merkle SigHash SigCache Standard Engine EngineSafety Conditionals Signatures Witness.

#[local] Existing Instance Sha.concrete.
#[local] Existing Instance Toy.btcec.
#[local] Existing Instance Toy.env.

Definition pubKey : bytes := 2 :: replicate 32 7.

(** [1 <pubKey> 1 OP_CHECKMULTISIG] and its hash *)
Definition redeem : bytes := [OP_1; OP_DATA_33] ++ pubKey ++ [OP_1; OP_CHECKMULTISIG].
Definition program : bytes := Eval vm_compute in sha256_Sum256 redeem.

(** The input spends an output with the sequence number [seq] and the witness [w]. *)
Definition spend (seq : Z) (w : list bytes) : MsgTx :=
  mkMsgTx 1 [mkTxIn (mkOutPoint (replicate 32 9) 0) w seq] [mkTxOut 1000 [OP_1]] 0 [].

(** A signature with the R value [r]; the toy scheme accepts the one that starts with the
    first byte of the digest modulo 128. *)
Definition signature (r : Z) : bytes := [0x30; 6; 2; 1; r; 2; 1; 1; SigHashAll].

Definition digest_byte (seq : Z) : Z :=
  match calcWitnessSignatureHash (parseScript redeem).1 (NewTxSigHashes (spend seq [])) SigHashAll (spend seq []) 0 5000 with
  | Ret h => nth 0 h 0 mod 128
  | _ => 0
  end.

Definition signed (seq : Z) : MsgTx :=
  spend seq [OP_DATA_9 :: signature (digest_byte seq); redeem].

Definition no_engine : Engine :=
  mkEngine [] 0 0 0 (mkStack [] false) (mkStack [] false) NewMsgTx 0 [] 0 0 None None 0 None [] 0.

(** The engine for [ext] and the transaction, and the engine after its execution. *)
Definition start (ext : option bytes) (t : MsgTx) (fl : Z) : Engine :=
  match NewEngine (program_script program ext) t 0 fl None None 5000 with Ret vm => vm | _ => no_engine end.

Definition finish (vm : Engine) : Engine :=
  match Execute 20 vm with Some (_, vm') => vm' | None => no_engine end.

Lemma spend_ok seq w : 0 <= seq < 2 ^ 64 -> Forall bytes_ok w -> msgtx_ok (spend seq w).
Proof.
  intros Hs Hw. unfold msgtx_ok, spend. cbn [Version TxIns TxOuts LockTime Payload].
  split_and!; try lia; try solve_bytes.
  - apply Forall_singleton. split_and!; cbn; try lia; [split; [done|solve_bytes]|done].
  - apply Forall_singleton. split; [cbn; lia|cbn; solve_bytes].
Qed.

Lemma program_ok : hash_ok program.
Proof. split; [reflexivity|solve_bytes]. Qed.

(** The runs. *)
Example run_standard : Execute 20 (start None (signed 5) 0) = Some (Ret tt, finish (start None (signed 5) 0)).
Proof. vm_compute. reflexivity. Qed.
Example run_staking_early :
  fst <$> Execute 20 (start (Some (le_encode 8 61440)) (signed 61440) 0) = Some (Err (ErrLockTimeUnsatisfied 61441 61440)).
Proof. vm_compute. reflexivity. Qed.
Example run_bad_signature :
  fst <$> Execute 20 (start None (spend 5 [OP_DATA_9 :: signature 1; redeem]) 0) = Some (Err ErrNullFail).
Proof. vm_compute. reflexivity. Qed.

(** * Instances of the theorems *)

Lemma witness_program_matches_witness :
  exists ti w0 w1, TxIns (signed 5) !! Z.to_nat 0 = Some ti /\ Witness ti = [w0; w1] /\ sha256_Sum256 w1 = program.
Proof.
  apply (witness_program_matches program (signed 5) 0 0 5000 None None).
  - exact program_ok.
  - apply spend_ok; [lia|]. apply Forall_cons_2; [solve_bytes|]. apply Forall_cons_2; [solve_bytes|apply Forall_nil_2].
  - exists (start None (signed 5) 0), (finish (start None (signed 5) 0)), 20%nat. split; vm_compute; reflexivity.
Defined.

Lemma staking_lock_enforced_witness :
  exists ti w0 w1, TxIns (signed 61441) !! Z.to_nat 0 = Some ti /\ Witness ti = [w0; w1] /\ sha256_Sum256 w1 = program /\
    Z.testbit (Sequence ti) 63 = false /\ Z.testbit (Sequence ti) 38 = false /\ 61440 + 1 <= Sequence ti mod 2 ^ 32.
Proof.
  apply (staking_lock_enforced program 61440 (signed 61441) 0 0 5000 None None).
  - exact program_ok.
  - reflexivity.
  - apply spend_ok; [lia|]. apply Forall_cons_2; [solve_bytes|]. apply Forall_cons_2; [solve_bytes|apply Forall_nil_2].
  - exists (start (Some (le_encode 8 61440)) (signed 61441) 0), (finish (start (Some (le_encode 8 61440)) (signed 61441) 0)), 20%nat. split; vm_compute; reflexivity.
Defined.

Lemma binding_lock_enforced_witness :
  exists ti w0 w1, TxIns (signed 0xfffffffe) !! Z.to_nat 0 = Some ti /\ Witness ti = [w0; w1] /\ sha256_Sum256 w1 = program /\
    Z.testbit (Sequence ti) 63 = false /\ Z.testbit (Sequence ti) 38 = false /\
    MASSIP0002BindingLockedPeriod <= Sequence ti mod 2 ^ 32.
Proof.
  apply (binding_lock_enforced program (replicate 20 3) (signed 0xfffffffe) 0 ScriptMASSip2 5000 None None).
  - exact program_ok.
  - solve_bytes.
  - left. reflexivity.
  - apply spend_ok; [lia|]. apply Forall_cons_2; [solve_bytes|]. apply Forall_cons_2; [solve_bytes|apply Forall_nil_2].
  - reflexivity.
  - exists (start (Some (replicate 20 3)) (signed 0xfffffffe) ScriptMASSip2), (finish (start (Some (replicate 20 3)) (signed 0xfffffffe) ScriptMASSip2)), 20%nat. split; vm_compute; reflexivity.
Defined.

(** A signature item whose declared length of R is five less than the length of the
    signature: the spend passes every check up to the signature, then panics. *)
Definition crashing : MsgTx := spend 5 [[OP_DATA_9; 0x30; 6; 2; 3; 1; 1; 1; 1; SigHashAll]; redeem].

Example run_crash : fst <$> Execute 20 (start None crashing 0) = Some Panic.
Proof. vm_compute. reflexivity. Qed.

Definition nth_engine (n : nat) (vm : Engine) : Engine := default no_engine (run_steps n vm).

Lemma inputs_standard t : msgtx_ok t -> inputs_ok (program_script program None) t None.
Proof. intros Ht. split; [solve_bytes|]. split; [done|]. by intros. Qed.

Lemma crashing_ok : msgtx_ok crashing.
Proof. apply spend_ok; [lia|]. apply Forall_cons_2; [solve_bytes|]. apply Forall_cons_2; [solve_bytes|apply Forall_nil_2]. Qed.

Lemma execute_terminates_witness :
  exists r vm', forall extra, Execute (max_steps + extra) (start None crashing 0) = Some (r, vm').
Proof.
  apply (execute_terminates (program_script program None) crashing 0 0 None None 5000 (start None crashing 0)).
  - apply inputs_standard, crashing_ok.
  - vm_compute. reflexivity.
Defined.

Lemma engine_limits_witness :
  len (stk (dstack (nth_engine 6 (start None crashing 0)))) = 4 /\
  Forall (fun c => c = OpCondFalse \/ c = OpCondTrue \/ c = OpCondSkip) (condStack (nth_engine 6 (start None crashing 0))).
Proof.
  split; [vm_compute; reflexivity|].
  apply (engine_limits (program_script program None) crashing 0 0 None None 5000 (start None crashing 0)).
  - apply inputs_standard, crashing_ok.
  - vm_compute. reflexivity.
  - apply (run_steps_reachable 6). vm_compute. reflexivity.
Defined.

Lemma panic_only_in_signature_opcodes_witness :
  exists pop, current (nth_engine 6 (start None crashing 0)) pop /\
    (pop_value pop = OP_CHECKSIG \/ pop_value pop = OP_CHECKSIGVERIFY \/
     pop_value pop = OP_CHECKMULTISIG \/ pop_value pop = OP_CHECKMULTISIGVERIFY).
Proof.
  apply (panic_only_in_signature_opcodes (program_script program None) crashing 0 0 None None 5000
           (start None crashing 0) (nth_engine 6 (start None crashing 0)) (Step (nth_engine 6 (start None crashing 0))).2).
  - apply inputs_standard, crashing_ok.
  - vm_compute. reflexivity.
  - apply (run_steps_reachable 6). vm_compute. reflexivity.
  - vm_compute. reflexivity.
Defined.

(** The engine in front of OP_CHECKMULTISIG. *)
Definition at_multisig : Engine := nth_engine 6 (start None (signed 5) 0).

Lemma checkmultisig_decides_witness :
  exists vm', opcodeCheckMultiSig (mkParsed (opcode_at OP_CHECKMULTISIG) None) at_multisig = (Ret tt, vm') /\
    stk (dstack vm') = [] ++ [fromBool true].
Proof.
  apply (checkmultisig_decides (mkParsed (opcode_at OP_CHECKMULTISIG) None) at_multisig []
           [signature (digest_byte 5)] [pubKey] [1] [1] (parseScript redeem).1).
  - vm_compute. reflexivity.
  - vm_compute. reflexivity.
  - vm_compute. reflexivity.
  - vm_compute. reflexivity.
  - vm_compute. split; discriminate.
  - vm_compute. discriminate.
  - vm_compute. reflexivity.
  - intros c Hc. vm_compute in Hc. discriminate.
  - apply Forall_singleton. split; [vm_compute; reflexivity|].
    exists SigHashAll, (take 8 (signature (digest_byte 5))),
      (match calcWitnessSignatureHash (parseScript redeem).1 (NewTxSigHashes (spend 5 [])) SigHashAll (spend 5 []) 0 5000 with Ret h => h | _ => [] end).
    split; [vm_compute; reflexivity|]. split; [vm_compute; reflexivity|]. split; vm_compute; reflexivity.
  - apply Forall_singleton. vm_compute. reflexivity.
  - exists [pubKey]. split; [reflexivity|]. constructor; [vm_compute; reflexivity|constructor].
Defined.

(** An engine in a branch that is not taken, and a block with a nested conditional. *)
Definition in_false_branch : Engine := set_condStack no_engine [OpCondFalse].
Definition untaken : list parsedOpcode :=
  (parseScript [OP_1; OP_IF; OP_RETURN; OP_ELSE; OP_DUP; OP_ENDIF; OP_VERIFY]).1.

Lemma skipped_branch_inert_witness :
  run_block untaken in_false_branch = (Ret tt, set_numOps in_false_branch 6).
Proof.
  apply (skipped_branch_inert in_false_branch untaken).
  - vm_compute. reflexivity.
  - vm_compute. reflexivity.
  - unfold untaken. repeat (apply Forall_cons_2; [repeat split; vm_compute; (reflexivity || discriminate)|]). apply Forall_nil_2.
  - vm_compute. discriminate.
Defined.

Lemma merkle_store_root_witness :
  exists ids store root,
    Forall2 (fun tx h => tx_id false tx = Ret h) [signed 5; signed 6; crashing] ids /\
    BuildMerkleTreeStoreTransactions [signed 5; signed 6; crashing] false = Ret store /\
    len store = 7 /\ merkle_root (length ids) ids = Some root /\ last store = Some (Some root).
Proof. exact (merkle_store_root [signed 5; signed 6; crashing] false). Defined.

Lemma merkle_cache_root_witness :
  exists store cache id' store' root,
    BuildMerkleTreeStoreTransactions [signed 5; signed 6; crashing] true = Ret store /\ merklesCache store = Ret cache /\
    tx_id true (signed 7) = Ret id' /\ BuildMerkleTreeStoreTransactions [signed 7; signed 6; crashing] true = Ret store' /\
    last store' = Some (Some root) /\ GetMerkleRootFromCache id' cache = Ret root.
Proof. exact (merkle_cache_root (signed 5) (signed 7) [signed 6; crashing] true). Defined.
