(* ===== verification/Amount.v ===== *)
(** Amounts: the checked 128-bit integers of massutil/safetype/uint128.go and the monetary
    amounts of massutil/amount.go.  A [big.Int] is a [Z]; operations that the code performs on
    a [big.Int] and then validates are computed exactly and checked.  The conversions through
    float64 (ToUnit, Format, NewAmountFromMass, MulF64) are left out, and so are TstSetMaxAmount
    and TstSetMinRelayTxFee, which the tests use to change the limits: the maximum here is the
    one the program starts with. *)

From Stdlib Require Import Zeuclid Ascii.
From S2P Require Import Prelude Wire.

Inductive amount_error : Set :=
| ErrUint128Overflow | ErrUint128Underflow | ErrUint128InvalidBytes | ErrUint128InvalidString
| ErrUint128DividedByZero | ErrMaxAmount.

#[global] Instance amount_error_eq_dec : EqDecision amount_error.
Proof. solve_decision. Defined.

Abbreviation checked := (outcome amount_error).

(** * 128-bit integers *)

Definition Uint128Bytes : Z := 16.
Definition Uint128Bits : Z := 128.

(** The code holds a pointer to a [big.Int] that no method changes after the object is built;
    all constructors but [NewUint128FromBigInt] allocate it, and [BigValue] returns a copy. *)
Record Uint128 := mkUint128 { u_value : Z }.

(** The length of the absolute value in bits; the length of 0 is 0. *)
Definition BitLen (z : Z) : Z := if z =? 0 then 0 else Z.log2 (Z.abs z) + 1.

Definition Validate (u : Uint128) : checked unit :=
  if u_value u <? 0 then Err ErrUint128Underflow
  else if BitLen (u_value u) >? Uint128Bits then Err ErrUint128Overflow
  else Ret tt.

(** The pattern of every operation: build the object, validate it, return it. *)
Definition validated (z : Z) : checked Uint128 := Validate (mkUint128 z);; Ret (mkUint128 z).

Definition NewUint128 : Uint128 := mkUint128 0.
Definition NewUint128FromUint (i : Z) : Uint128 := mkUint128 i.
Definition NewUint128FromInt (i : Z) : checked Uint128 := validated i.

(** The code keeps the caller's pointer: this is the object as long as the caller does not change
    the [big.Int] it passed. *)
Definition NewUint128FromBigInt (i : Z) : checked Uint128 := validated i.

(** The loop looks for the first non-zero byte and reads the rest. *)
Fixpoint drop_zeros (b : bytes) : bytes :=
  match b with
  | x :: b' => if x =? 0 then drop_zeros b' else b
  | [] => []
  end.

Definition NewUint128FromBytes (b : bytes) : checked Uint128 :=
  if len b >? Uint128Bytes then Err ErrUint128InvalidBytes else Ret (mkUint128 (be_decode (drop_zeros b))).

(** [big.Int.Bytes]: the absolute value, big-endian, without leading zeros. *)
Definition big_Bytes (z : Z) : bytes := be_encode (Z.to_nat ((BitLen z + 7) / 8)) (Z.abs z).

(** [copy(ret[16-l:], bs)]: the slice expression panics when [bs] is longer than the array. *)
Definition Uint128_Bytes (u : Uint128) : checked bytes :=
  let bs := big_Bytes (u_value u) in
  let l := len bs in
  if l >? Uint128Bytes then Panic
  else Ret (replicate (Z.to_nat (Uint128Bytes - l)) 0 ++ bs).

Definition AbsBytes (u : Uint128) : bytes := big_Bytes (u_value u).

Definition maxUint64 : Uint128 := NewUint128FromUint (2 ^ 64 - 1).
Definition maxInt64 : Uint128 := NewUint128FromUint (2 ^ 63 - 1).

(** Comparisons: -1, 0 or 1 as the Go method. *)
Definition Uint128_Cmp (u x : Uint128) : Z :=
  match u_value u ?= u_value x with Lt => -1 | Eq => 0 | Gt => 1 end.
Definition Uint128_Gt (u x : Uint128) : bool := Uint128_Cmp u x >? 0.
Definition Uint128_Ge (u x : Uint128) : bool := Uint128_Cmp u x >=? 0.
Definition Uint128_Lt (u x : Uint128) : bool := Uint128_Cmp u x <? 0.
Definition Uint128_Le (u x : Uint128) : bool := Uint128_Cmp u x <=? 0.
Definition Uint128_Eq (u x : Uint128) : bool := Uint128_Cmp u x =? 0.
Definition Uint128_IsZero (u : Uint128) : bool := Z.sgn (u_value u) =? 0.

Definition UintValue (u : Uint128) : checked Z :=
  if Uint128_Gt u maxUint64 then Panic else Ret (uint64 (u_value u)).
Definition IntValue (u : Uint128) : checked Z :=
  if Uint128_Gt u maxInt64 then Panic else Ret (int64 (u_value u)).

Definition Uint128_Add (u x : Uint128) : checked Uint128 := validated (u_value u + u_value x).
Definition Uint128_AddInt (u : Uint128) (i : Z) : checked Uint128 :=
  x ← NewUint128FromInt i; Uint128_Add u x.
Definition Uint128_AddUint (u : Uint128) (i : Z) : checked Uint128 := Uint128_Add u (NewUint128FromUint i).
Definition Uint128_Sub (u x : Uint128) : checked Uint128 := validated (u_value u - u_value x).
Definition Uint128_SubUint (u : Uint128) (i : Z) : checked Uint128 := Uint128_Sub u (NewUint128FromUint i).
Definition Uint128_Mul (u x : Uint128) : checked Uint128 := validated (u_value u * u_value x).
Definition Uint128_MulInt (u : Uint128) (i : Z) : checked Uint128 :=
  x ← NewUint128FromInt i; Uint128_Mul u x.

(** [big.Int.Div] and [Mod] are Euclidean. *)
Definition Uint128_Div (u x : Uint128) : checked Uint128 :=
  if Uint128_IsZero x then Err ErrUint128DividedByZero
  else validated (ZEuclid.div (u_value u) (u_value x)).
Definition Uint128_DivInt (u : Uint128) (i : Z) : checked Uint128 :=
  x ← NewUint128FromInt i; Uint128_Div u x.
Definition Uint128_Mod (u x : Uint128) : checked Uint128 :=
  if Uint128_IsZero x then Err ErrUint128DividedByZero
  else validated (ZEuclid.modulo (u_value u) (u_value x)).

(** [big.Int.Exp] without a modulus: a negative exponent gives 1. *)
Definition Uint128_Exp (u x : Uint128) : checked Uint128 :=
  validated (if u_value x <? 0 then 1 else u_value u ^ u_value x).

Definition Uint128_Rsh (u : Uint128) (n : Z) : Uint128 := mkUint128 (Z.shiftr (u_value u) n).
Definition DeepCopy (u : Uint128) : Uint128 := mkUint128 (u_value u).

(** ** Decimal strings *)

(** [big.Int.SetString] with base 10: an optional sign and at least one digit. *)
Definition digit_of (a : Ascii.ascii) : option Z :=
  let n := Z.of_nat (Ascii.nat_of_ascii a) in
  if (48 <=? n) && (n <=? 57) then Some (n - 48) else None.

Fixpoint digits_value (s : string) (acc : Z) : option Z :=
  match s with
  | EmptyString => Some acc
  | String a s' => match digit_of a with Some d => digits_value s' (10 * acc + d) | None => None end
  end.

Definition big_SetString (s : string) : option Z :=
  match s with
  | EmptyString => None
  | String a s' =>
      let neg := Ascii.eqb a "-"%char in
      if neg || Ascii.eqb a "+"%char then
        match s' with
        | EmptyString => None
        | _ => v ← digits_value s' 0; Some (if neg then - v else v)
        end
      else digits_value s 0
  end.

Definition NewUint128FromString (str : string) : checked Uint128 :=
  match big_SetString str with
  | None => Err ErrUint128InvalidString
  | Some b => validated b
  end.

(** [big.Int.Text(10)] of a natural number below [10 ^ fuel]. *)
Fixpoint decimal (fuel : nat) (z : Z) (acc : string) : string :=
  match fuel with
  | O => acc
  | S fuel' =>
      let acc := String (Ascii.ascii_of_nat (Z.to_nat (48 + z mod 10))) acc in
      if z <? 10 then acc else decimal fuel' (z / 10) acc
  end.

Definition Uint128_String (u : Uint128) : string :=
  let digits := decimal (S (Z.to_nat (Z.log2 (Z.abs (u_value u))))) (Z.abs (u_value u)) EmptyString in
  if u_value u <? 0 then String "-"%char digits else digits.

(** * Amounts *)

Record Amount := mkAmount { a_value : Uint128 }.

(** consensus.MaxMass and consensus.MinRelayTxFee *)
Definition MaxMass : Z := 206438400.
Definition consensus_MinRelayTxFee : Z := 10000.

Definition ZeroAmount : Amount := mkAmount NewUint128.

(** Set by init, which would panic if the product overflowed. *)
Definition MaxAmount : Amount := mkAmount (mkUint128 (MaxMass * MaxwellPerMass)).

Definition checkedAmount (u : Uint128) : checked Amount :=
  if Uint128_Gt u (a_value MaxAmount) then Err ErrMaxAmount else Ret (mkAmount u).

Definition NewAmount (u : Uint128) : checked Amount := checkedAmount u.
Definition NewAmountFromInt (i : Z) : checked Amount := u ← NewUint128FromInt i; checkedAmount u.
Definition NewAmountFromUint (i : Z) : checked Amount := NewAmount (NewUint128FromUint i).

Definition MinRelayTxFee : Amount := mkAmount (mkUint128 consensus_MinRelayTxFee).

Definition Amount_Add (a b : Amount) : checked Amount := u ← Uint128_Add (a_value a) (a_value b); checkedAmount u.
Definition Amount_AddInt (a : Amount) (i : Z) : checked Amount := u ← Uint128_AddInt (a_value a) i; checkedAmount u.
Definition Amount_Sub (a b : Amount) : checked Amount := u ← Uint128_Sub (a_value a) (a_value b); checkedAmount u.
Definition Amount_Cmp (a b : Amount) : Z := Uint128_Cmp (a_value a) (a_value b).
Definition Amount_IsZero (a : Amount) : bool := Uint128_IsZero (a_value a).
Definition Amount_Value (a : Amount) : Uint128 := a_value a.
Definition Amount_IntValue (a : Amount) : checked Z := IntValue (a_value a).
Definition Amount_UintValue (a : Amount) : checked Z := UintValue (a_value a).

(** What init does. *)
Example init_maxAmount :
  Uint128_Mul (NewUint128FromUint MaxMass) (NewUint128FromUint MaxwellPerMass) = Ret (a_value MaxAmount).
Proof. reflexivity. Qed.
Example init_minRelayTxFee : NewAmountFromUint consensus_MinRelayTxFee = Ret MinRelayTxFee.
Proof. reflexivity. Qed.
Example string_max : Uint128_String (a_value MaxAmount) = "20643840000000000"%string.
Proof. vm_compute. reflexivity. Qed.

(** * Validation *)

Definition u128_ok (u : Uint128) : Prop := 0 <= u_value u < 2 ^ 128.
Definition amount_ok (a : Amount) : Prop := 0 <= u_value (a_value a) <= u_value (a_value MaxAmount).

Lemma BitLen_le z n : 0 <= n -> 0 <= z -> BitLen z <= n <-> z < 2 ^ n.
Proof.
  intros Hn Hz. unfold BitLen. case_if; bool_to_prop; [split; lia|].
  rewrite Z.abs_eq by lia. pose proof (Z.log2_lt_pow2 z n ltac:(lia)). lia.
Qed.

(** The check of every operation: the value is within range, or the error says on which side it
    is not. *)
Lemma validated_spec z :
  validated z = if decide (z < 0) then Err ErrUint128Underflow
                else if decide (2 ^ 128 <= z) then Err ErrUint128Overflow else Ret (mkUint128 z).
Proof.
  unfold validated, Validate. cbn [u_value]. pose proof (BitLen_le z 128 ltac:(lia)) as HB.
  unfold Uint128Bits. rewrite Z.gtb_ltb.
  repeat case_decide; destruct (Z.ltb_spec z 0); try lia; try done;
    destruct (Z.ltb_spec 128 (BitLen z)); (done || lia).
Qed.

Lemma validated_ok z u : validated z = Ret u -> u_value u = z /\ u128_ok u.
Proof. rewrite validated_spec. repeat case_decide; intros [=<-]. unfold u128_ok. cbn. lia. Qed.

Lemma validated_Ret z : 0 <= z < 2 ^ 128 -> validated z = Ret (mkUint128 z).
Proof. intros. rewrite validated_spec. by repeat case_decide; try lia. Qed.

Lemma Uint128_Gt_spec u x : Uint128_Gt u x = bool_decide (u_value x < u_value u).
Proof.
  unfold Uint128_Gt, Uint128_Cmp. destruct (Z.compare_spec (u_value u) (u_value x));
    case_bool_decide; (done || lia).
Qed.

Lemma checkedAmount_spec u :
  checkedAmount u = if decide (u_value u <= u_value (a_value MaxAmount)) then Ret (mkAmount u) else Err ErrMaxAmount.
Proof. unfold checkedAmount. rewrite Uint128_Gt_spec. case_decide; case_bool_decide; (done || lia). Qed.

Lemma max_value : u_value (a_value MaxAmount) = 20643840000000000.
Proof. done. Qed.

(** An operation on amounts: compute, validate, compare with the maximum. *)
Lemma checked_validated z :
  (u ← validated z; checkedAmount u) =
  if decide (z < 0) then Err ErrUint128Underflow
  else if decide (2 ^ 128 <= z) then Err ErrUint128Overflow
  else if decide (z <= u_value (a_value MaxAmount)) then Ret (mkAmount (mkUint128 z)) else Err ErrMaxAmount.
Proof. rewrite validated_spec. repeat case_decide; cbn; rewrite ?checkedAmount_spec; cbn [u_value]; by repeat case_decide. Qed.

Lemma amount_ok_u128 a : amount_ok a -> u128_ok (a_value a).
Proof. unfold amount_ok, u128_ok. rewrite max_value. lia. Qed.

Lemma IntValue_exact u : 0 <= u_value u < 2 ^ 63 -> IntValue u = Ret (u_value u).
Proof.
  intros. unfold IntValue. rewrite Uint128_Gt_spec. rewrite bool_decide_eq_false_2.
  - by rewrite int64_small by lia.
  - change (u_value maxInt64) with (2 ^ 63 - 1). lia.
Qed.

Lemma UintValue_exact u : 0 <= u_value u < 2 ^ 64 -> UintValue u = Ret (u_value u).
Proof.
  intros. unfold UintValue. rewrite Uint128_Gt_spec. rewrite bool_decide_eq_false_2.
  - by rewrite wrapU_small by lia.
  - change (u_value maxUint64) with (2 ^ 64 - 1). lia.
Qed.

(** Multiplication and division by a positive int64. *)
Lemma MulInt_Ret x i :
  0 <= x -> 0 <= i -> x * i < 2 ^ 128 -> i < 2 ^ 63 -> Uint128_MulInt (mkUint128 x) i = Ret (mkUint128 (x * i)).
Proof.
  intros. unfold Uint128_MulInt, NewUint128FromInt, Uint128_Mul. rewrite validated_Ret by lia.
  cbn [mbind outcome_bind u_value]. apply validated_Ret. lia.
Qed.

Lemma DivInt_Ret x i :
  0 <= x < 2 ^ 128 -> 0 < i < 2 ^ 63 -> Uint128_DivInt (mkUint128 x) i = Ret (mkUint128 (x / i)).
Proof.
  intros Hx Hi. assert (0 <= x / i <= x) by (split; [apply Z.div_pos|apply Z.div_le_upper_bound]; nia).
  unfold Uint128_DivInt, NewUint128FromInt. rewrite validated_Ret by lia.
  cbn [mbind outcome_bind]. unfold Uint128_Div, Uint128_IsZero, ZEuclid.div. cbn [u_value].
  rewrite Z.sgn_pos, Z.abs_eq, Z.mul_1_l by lia. apply validated_Ret. lia.
Qed.

(** * Which values there are *)

(** The values a client of safetype can hold: every exported way to make one. *)
Inductive u128_made : Uint128 -> Prop :=
| made_zero : u128_made NewUint128
| made_uint i : 0 <= i < 2 ^ 64 -> u128_made (NewUint128FromUint i)
| made_int i u : NewUint128FromInt i = Ret u -> u128_made u
| made_string s u : NewUint128FromString s = Ret u -> u128_made u
| made_bytes b u : bytes_ok b -> NewUint128FromBytes b = Ret u -> u128_made u
| made_add u x r : u128_made u -> u128_made x -> Uint128_Add u x = Ret r -> u128_made r
| made_addint u i r : u128_made u -> Uint128_AddInt u i = Ret r -> u128_made r
| made_adduint u i r : u128_made u -> Uint128_AddUint u i = Ret r -> u128_made r
| made_sub u x r : u128_made u -> u128_made x -> Uint128_Sub u x = Ret r -> u128_made r
| made_subuint u i r : u128_made u -> Uint128_SubUint u i = Ret r -> u128_made r
| made_mul u x r : u128_made u -> u128_made x -> Uint128_Mul u x = Ret r -> u128_made r
| made_mulint u i r : u128_made u -> Uint128_MulInt u i = Ret r -> u128_made r
| made_div u x r : u128_made u -> u128_made x -> Uint128_Div u x = Ret r -> u128_made r
| made_divint u i r : u128_made u -> Uint128_DivInt u i = Ret r -> u128_made r
| made_mod u x r : u128_made u -> u128_made x -> Uint128_Mod u x = Ret r -> u128_made r
| made_exp u x r : u128_made u -> u128_made x -> Uint128_Exp u x = Ret r -> u128_made r
| made_rsh u n : u128_made u -> 0 <= n -> u128_made (Uint128_Rsh u n)
| made_copy u : u128_made u -> u128_made (DeepCopy u)
| made_value a : amount_made a -> u128_made (Amount_Value a)
(** The same for amounts. *)
with amount_made : Amount -> Prop :=
| amade_zero : amount_made ZeroAmount
| amade_max : amount_made MaxAmount
| amade_fee : amount_made MinRelayTxFee
| amade_new u a : u128_made u -> NewAmount u = Ret a -> amount_made a
| amade_int i a : NewAmountFromInt i = Ret a -> amount_made a
| amade_uint i a : 0 <= i < 2 ^ 64 -> NewAmountFromUint i = Ret a -> amount_made a
| amade_add a b r : amount_made a -> amount_made b -> Amount_Add a b = Ret r -> amount_made r
| amade_addint a i r : amount_made a -> Amount_AddInt a i = Ret r -> amount_made r
| amade_sub a b r : amount_made a -> amount_made b -> Amount_Sub a b = Ret r -> amount_made r.

Scheme u128_made_mut := Minimality for u128_made Sort Prop
with amount_made_mut := Minimality for amount_made Sort Prop.
Combined Scheme made_mutind from u128_made_mut, amount_made_mut.

Lemma checkedAmount_ok u a : checkedAmount u = Ret a -> 0 <= u_value u -> amount_ok a.
Proof. rewrite checkedAmount_spec. case_decide; intros [=<-]; unfold amount_ok; cbn [a_value]; lia. Qed.

Lemma drop_zeros_decode b : be_decode (drop_zeros b) = be_decode b.
Proof.
  induction b as [|x b IH]; [done|]. cbn [drop_zeros]. case_if; [|done]. bool_to_prop. subst x.
  rewrite IH. done.
Qed.

Lemma FromBytes_ok b u : bytes_ok b -> NewUint128FromBytes b = Ret u -> u_value u = be_decode b /\ u128_ok u.
Proof.
  intros Hb. unfold NewUint128FromBytes, Uint128Bytes. case_if; [done|]. bool_to_prop. intros [=<-].
  unfold u128_ok. cbn [u_value]. rewrite drop_zeros_decode. split; [done|].
  pose proof (be_decode_range b Hb) as [H0 H1]. split; [done|]. eapply Z.lt_le_trans; [exact H1|].
  change (2 ^ 128) with (256 ^ 16). apply Z.pow_le_mono_r; lia.
Qed.

(** Inversion of the operations that return a value. *)
Ltac inv_checked :=
  repeat match goal with
  | H : mbind _ _ = Ret _ |- _ => apply bind_Ret in H; destruct H as (? & ? & H)
  | H : (if _ then Err _ else _) = Ret _ |- _ => case_if; [discriminate|]
  | H : validated _ = Ret _ |- _ => apply validated_ok in H; destruct H
  end.

Lemma made_ok : (forall u, u128_made u -> u128_ok u) /\ (forall a, amount_made a -> amount_ok a).
Proof.
  apply made_mutind; unfold Uint128_AddInt, Uint128_MulInt, Uint128_DivInt, Uint128_Add, Uint128_AddUint,
    Uint128_Sub, Uint128_SubUint, Uint128_Mul, Uint128_Div, Uint128_Mod, Uint128_Exp, NewUint128FromInt,
    NewUint128FromString, NewAmount, NewAmountFromInt, NewAmountFromUint, Amount_Add,
    Amount_AddInt, Amount_Sub, Uint128_AddInt, Uint128_Add, Uint128_Sub, NewUint128FromInt, NewAmount;
    intros; try (inv_checked; assumption);
    try (inv_checked; eapply checkedAmount_ok; [eassumption|]; unfold u128_ok, NewUint128FromUint in *; cbn [u_value]; lia).
  - done.
  - unfold u128_ok, NewUint128FromUint. cbn [u_value]. lia.
  - case_match; [|done]. by inv_checked.
  - by apply (FromBytes_ok b).
  - unfold u128_ok, Uint128_Rsh in *. cbn [u_value]. rewrite Z.shiftr_div_pow2 by done.
    pose proof (Z.div_le_upper_bound (u_value u) (2 ^ n) (u_value u)).
    pose proof (Z.pow_pos_nonneg 2 n ltac:(lia)). split; [apply Z.div_pos; lia|]. nia.
  - by apply amount_ok_u128.
  - done.
  - done.
  - done.
Qed.

(** * Bytes and strings *)

Lemma big_Bytes_bound n z : 0 <= n -> 0 <= z < 2 ^ (8 * n) -> len (big_Bytes z) <= n.
Proof.
  intros Hn Hz. unfold big_Bytes, len. rewrite length_be_encode.
  assert (BitLen z <= 8 * n) by (apply BitLen_le; lia).
  assert ((BitLen z + 7) / 8 < n + 1) by (apply Z.div_lt_upper_bound; lia). lia.
Qed.

Lemma big_Bytes_length z : 0 <= z < 2 ^ 128 -> len (big_Bytes z) <= 16.
Proof. intros Hz. apply big_Bytes_bound; [lia | exact Hz]. Qed.

Lemma be_decode_big_Bytes z : 0 <= z -> be_decode (big_Bytes z) = z.
Proof.
  intros Hz. unfold big_Bytes. rewrite be_decode_encode, Z.abs_eq by lia. apply Z.mod_small.
  split; [done|]. set (n := BitLen z). assert (0 <= n) as Hn.
  { unfold n, BitLen. case_if; pose proof (Z.log2_nonneg (Z.abs z)); lia. }
  apply (Z.lt_le_trans _ (2 ^ n)); [by apply BitLen_le|].
  change 256 with (2 ^ 8). rewrite <- Z.pow_mul_r by lia. apply Z.pow_le_mono_r; [lia|].
  pose proof (Z.div_pos (n + 7) 8 ltac:(lia) ltac:(lia)).
  pose proof (Z.mod_pos_bound (n + 7) 8 ltac:(lia)). pose proof (Z.div_mod (n + 7) 8 ltac:(lia)). lia.
Qed.

Lemma Uint128_Bytes_Ret u :
  u128_ok u -> exists b, Uint128_Bytes u = Ret b /\ length b = 16%nat /\ be_decode b = u_value u /\ bytes_ok b.
Proof.
  intros Hu. unfold Uint128_Bytes, Uint128Bytes. pose proof (big_Bytes_length _ Hu) as Hl.
  destruct (Z.gtb_spec (len (big_Bytes (u_value u))) 16); [lia|]. eexists. split; [done|].
  rewrite length_app, length_replicate, be_decode_zeros, be_decode_big_Bytes by apply Hu.
  split; [unfold len in *; lia|]. split; [done|].
  apply Forall_app. split; [|apply be_encode_ok]. apply Forall_replicate. unfold is_byte. lia.
Qed.

Lemma FromBytes_decode b : len b <= 16 -> NewUint128FromBytes b = Ret (mkUint128 (be_decode b)).
Proof.
  intros. unfold NewUint128FromBytes, Uint128Bytes. rewrite drop_zeros_decode.
  destruct (Z.gtb_spec (len b) 16); [lia|done].
Qed.

Lemma digit_of_digit d : 0 <= d < 10 -> digit_of (ascii_of_nat (Z.to_nat (48 + d))) = Some d.
Proof.
  intros. unfold digit_of. rewrite nat_ascii_embedding by lia. rewrite Z2Nat.id by lia.
  replace ((48 <=? 48 + d) && (48 + d <=? 57)) with true by (symmetry; rewrite andb_true_iff, !Z.leb_le; lia).
  f_equal. lia.
Qed.

Lemma decimal_value f z acc :
  0 <= z < 10 ^ Z.of_nat f -> digits_value (decimal f z acc) 0 = digits_value acc z.
Proof.
  revert z acc. induction f as [|f IH]; intros z acc Hz.
  - change (10 ^ Z.of_nat 0) with 1 in Hz. cbn. by replace z with 0 by lia.
  - rewrite Nat2Z.inj_succ, Z.pow_succ_r in Hz by lia. cbn [decimal].
    pose proof (Z.mod_pos_bound z 10 ltac:(lia)). pose proof (Z.div_mod z 10 ltac:(lia)).
    destruct (Z.ltb_spec z 10).
    + cbn [digits_value]. rewrite digit_of_digit by lia. f_equal. rewrite Z.mod_small by lia. lia.
    + rewrite IH by (split; [apply Z.div_pos|apply Z.div_lt_upper_bound]; lia).
      cbn [digits_value]. rewrite digit_of_digit by lia. f_equal. lia.
Qed.

(** The first character is a digit, not a sign. *)
Lemma decimal_head f z acc :
  exists a s, decimal (S f) z acc = String a s /\ a <> "-"%char /\ a <> "+"%char.
Proof.
  revert z acc. induction f as [|f IH]; intros z acc.
  all: pose proof (Z.mod_pos_bound z 10 ltac:(lia)) as Hd; pose proof (digit_of_digit _ Hd) as Hdig.
  - assert (decimal 1 z acc = String (ascii_of_nat (Z.to_nat (48 + z mod 10))) acc) as ->.
    { cbn [decimal]. by case_if. }
    eexists _, _. split; [done|]. split; intros E; rewrite E in Hdig; discriminate.
  - cbn [decimal]. case_if.
    + eexists _, _. split; [done|]. split; intros E; rewrite E in Hdig; discriminate.
    + apply IH.
Qed.

Lemma FromString_String u : u128_ok u -> NewUint128FromString (Uint128_String u) = Ret u.
Proof.
  intros Hu. unfold u128_ok in Hu. unfold Uint128_String. destruct (Z.ltb_spec (u_value u) 0); [lia|].
  rewrite Z.abs_eq by lia. set (z := u_value u) in *. set (f := Z.to_nat (Z.log2 z)).
  assert (digits_value (decimal (S f) z EmptyString) 0 = Some z) as Hv.
  { rewrite decimal_value; [done|]. split; [lia|]. pose proof (Z.log2_nonneg z).
    replace (Z.of_nat (S f)) with (Z.log2 z + 1) by (unfold f; lia).
    destruct (decide (z = 0)) as [->|]; [done|]. pose proof (Z.log2_spec z ltac:(lia)) as [_ Hs].
    eapply Z.lt_le_trans; [exact Hs|]. rewrite Z.add_1_r. apply Z.pow_le_mono_l. lia. }
  destruct (decimal_head f z EmptyString) as (a & s & E & Ha & Hb). rewrite E in *.
  unfold NewUint128FromString, big_SetString. apply Ascii.eqb_neq in Ha, Hb. rewrite Ha, Hb. cbn [orb].
  rewrite Hv, validated_Ret by done. unfold z. by destruct u.
Qed.

(** C39: Amounts keep their range.  Every amount that can be made from integers, from 128-bit
    values however they were computed, and by adding and subtracting amounts, lies between 0 and
    MaxMass * MaxwellPerMass, so its conversion to int64 or uint64 does not panic and returns
    exactly its value; and every 128-bit value that can be made from integers, strings, bytes
    and by arithmetic lies in [0, 2^128), so that Bytes does not panic.  The functions meant are
    those of [u128_made] and [amount_made]: not the float64 conversions, not
    [NewUint128FromBigInt], whose caller can change the number afterwards, and with the maximum
    the program starts with, which [TstSetMaxAmount] (for tests) can raise. *)
Theorem made_in_range :
  (forall a, amount_made a ->
    0 <= u_value (a_value a) <= MaxMass * MaxwellPerMass /\
    Amount_IntValue a = Ret (u_value (a_value a)) /\ Amount_UintValue a = Ret (u_value (a_value a))) /\
  (forall u, u128_made u -> 0 <= u_value u < 2 ^ 128 /\ is_Ret (Uint128_Bytes u)).
Proof.
  destruct made_ok as [Hu Ha]. split.
  - intros a Hm. apply Ha in Hm. unfold amount_ok in Hm. rewrite max_value in Hm.
    change (MaxMass * MaxwellPerMass) with 20643840000000000.
    unfold Amount_IntValue, Amount_UintValue. rewrite IntValue_exact, UintValue_exact by lia. done.
  - intros u Hm. apply Hu in Hm. split; [done|].
    destruct (Uint128_Bytes_Ret u Hm) as (b & -> & _). by exists b.
Qed.

(** Arithmetic on amounts is exact or fails.  The sum of two amounts is their integer sum, or the
    error that it exceeds the maximum; adding an int64 fails when it is negative, even if the result
    would be an amount; the difference is exact, or an underflow. *)
Theorem Amount_arith_exact (a b : Amount) (i : Z) :
  amount_ok a -> amount_ok b -> - 2 ^ 63 <= i < 2 ^ 63 ->
  let va := u_value (a_value a) in let vb := u_value (a_value b) in
  let top := MaxMass * MaxwellPerMass in
  let amount z : checked Amount := Ret (mkAmount (mkUint128 z)) in
  Amount_Add a b = (if decide (va + vb <= top) then amount (va + vb) else Err ErrMaxAmount) /\
  Amount_AddInt a i = (if decide (i < 0) then Err ErrUint128Underflow
                       else if decide (va + i <= top) then amount (va + i) else Err ErrMaxAmount) /\
  Amount_Sub a b = (if decide (vb <= va) then amount (va - vb) else Err ErrUint128Underflow).
Proof.
  intros Ha Hb Hi va vb top amount. unfold amount_ok in *. fold va in Ha. fold vb in Hb.
  change (u_value (a_value MaxAmount)) with top in *. assert (0 <= top < 2 ^ 63) as Htop by done.
  unfold Amount_Add, Amount_AddInt, Amount_Sub, Uint128_AddInt, Uint128_Add, Uint128_Sub, NewUint128FromInt.
  fold va vb. clearbody va vb. split; [|split].
  - rewrite checked_validated. change (u_value (a_value MaxAmount)) with top. clearbody top. repeat case_decide; (done || lia).
  - rewrite validated_spec. repeat case_decide; try (done || lia); cbn [mbind outcome_bind];
      rewrite checked_validated; cbn [u_value]; change (u_value (a_value MaxAmount)) with top; clearbody top;
      repeat case_decide; (done || lia).
  - rewrite checked_validated. change (u_value (a_value MaxAmount)) with top. clearbody top. repeat case_decide; (done || lia).
Qed.

(** The encodings of 128-bit values round-trip: the 16 big-endian bytes, the bytes without leading
    zeros and the decimal string of a value all read back as the value; and every 16 bytes are
    the bytes of the value they read as. *)
Theorem Uint128_roundtrip (u : Uint128) :
  u128_ok u ->
  (exists b, Uint128_Bytes u = Ret b /\ length b = 16%nat /\ NewUint128FromBytes b = Ret u) /\
  NewUint128FromBytes (AbsBytes u) = Ret u /\
  NewUint128FromString (Uint128_String u) = Ret u /\
  (forall b, bytes_ok b -> length b = 16%nat -> NewUint128FromBytes b = Ret u -> Uint128_Bytes u = Ret b).
Proof.
  intros Hu. destruct (Uint128_Bytes_Ret u Hu) as (b & HB & Hlb & Hdec & Hok).
  split; [|split; [|split]].
  - exists b. split; [done|]. split; [done|]. rewrite FromBytes_decode by (unfold len; rewrite Hlb; done). rewrite Hdec. by destruct u.
  - unfold AbsBytes. pose proof (big_Bytes_length _ Hu).
    rewrite FromBytes_decode by assumption. rewrite be_decode_big_Bytes by exact (proj1 Hu). by destruct u.
  - by apply FromString_String.
  - intros c Hc Hlc Hfrom. apply FromBytes_ok in Hfrom as [Hval _]; [|done]. rewrite HB. f_equal.
    rewrite <- (be_encode_decode 16 b), <- (be_encode_decode 16 c) by done. congruence.
Qed.

Lemma made_in_range_witness :
  exists a, amount_made a /\ a_value a = mkUint128 20643839999990000 /\ Amount_IntValue a = Ret 20643839999990000.
Proof.
  assert (amount_made (mkAmount (mkUint128 20643839999990000))) as H.
  { apply (amade_sub MaxAmount MinRelayTxFee); [constructor|constructor|reflexivity]. }
  exists (mkAmount (mkUint128 20643839999990000)). split; [exact H|]. split; [reflexivity|].
  apply (proj1 made_in_range _ H).
Defined.

Lemma Amount_arith_exact_witness :
  Amount_Add MaxAmount (mkAmount (mkUint128 1)) = Err ErrMaxAmount /\
  Amount_AddInt MaxAmount (-1) = Err ErrUint128Underflow /\
  Amount_Sub MaxAmount (mkAmount (mkUint128 1)) = Ret (mkAmount (mkUint128 20643839999999999)).
Proof.
  assert (amount_ok MaxAmount) as Ha by (vm_compute; split; discriminate).
  assert (amount_ok (mkAmount (mkUint128 1))) as Hb by (vm_compute; split; discriminate).
  destruct (Amount_arith_exact MaxAmount (mkAmount (mkUint128 1)) (-1) Ha Hb ltac:(lia)) as (-> & -> & ->).
  vm_compute. auto.
Defined.

Lemma Uint128_roundtrip_witness :
  u128_ok (mkUint128 (2 ^ 128 - 1)) /\
  NewUint128FromString "340282366920938463463374607431768211455" = Ret (mkUint128 (2 ^ 128 - 1)).
Proof.
  assert (u128_ok (mkUint128 (2 ^ 128 - 1))) as Hu by (vm_compute; split; [discriminate|reflexivity]).
  split; [exact Hu|]. destruct (Uint128_roundtrip _ Hu) as (_ & _ & H & _). exact H.
Defined.
