(* ===== verification/Forks.v ===== *)
(** Forks: the rules that depend on the height of a block (consensus/massips.go,
    consensus/forks/forks.go and params.go): staking weights and periods, and the binding that a
    plot requires. *)

From S2P Require Import Prelude Wire Amount.

(** * Heights and errors *)

Definition MASSIP0001Height : Z := 694000.
Definition defaultMinFrozenPeriod : Z := 61440.
Definition MASSIP0001MaxValidPeriod : Z := defaultMinFrozenPeriod * 24.
Definition MASSIP0002WarmUpHeight : Z := 1398801.
Definition MASSIP0002Height : Z := 1404801.

(** The errors of this package and of the reward rules; those of amounts are passed on. *)
Inductive fork_error : Set :=
| ErrAmount (e : amount_error)
| ErrInvalidBitLength (bl : Z)
| ErrZeroPlotSize
| ErrCalculatingPrice (e : amount_error)
| ErrNoValidBinding
| ErrUnexpectedHeight.

#[global] Instance fork_error_eq_dec : EqDecision fork_error.
Proof. solve_decision. Defined.

(** [if err != nil { return ..., err }] around an operation on amounts. *)
Definition with_err {A} (w : amount_error -> fork_error) (o : checked A) : outcome fork_error A :=
  match o with Ret a => Ret a | Err e => Err (w e) | Panic => Panic end.
Abbreviation amt := (with_err ErrAmount).

(** [if err != nil { panic(err) }] *)
Definition must {E A} (o : checked A) : outcome E A :=
  match o with Ret a => Ret a | _ => Panic end.

(** * Staking *)

Record StakingNode := mkStakingNode { GetValue : Z; GetWeight : Uint128 }.
Record StakingTx := mkStakingTx { GetBlockHeight : Z; GetFrozenPeriod : Z }.

Fixpoint total_weight (blockHeight : Z) (stakingNodes : list StakingNode) (totalWeight : Uint128) : checked Uint128 :=
  match stakingNodes with
  | [] => Ret totalWeight
  | node :: rest =>
      t ← (if blockHeight <? MASSIP0001Height then Uint128_AddInt totalWeight (GetValue node)
           else Uint128_Add totalWeight (GetWeight node));
      total_weight blockHeight rest t
  end.

Definition CalcTotalStakingWeight (blockHeight : Z) (stakingNodes : list StakingNode) : checked Uint128 :=
  total_weight blockHeight stakingNodes NewUint128.

Definition CalcStakingNodeWeight (blockHeight : Z) (stakingNode : StakingNode) : checked Uint128 :=
  if blockHeight <? MASSIP0001Height then NewUint128FromInt (GetValue stakingNode)
  else Ret (GetWeight stakingNode).

Definition CalcEffectiveStakingPeriod (blockHeight : Z) (stakingTx : StakingTx) : Z :=
  if blockHeight <? MASSIP0001Height then
    let tmp := uint64 (uint64 (GetBlockHeight stakingTx + GetFrozenPeriod stakingTx) + 1) in
    if tmp >=? blockHeight then uint64 (tmp - blockHeight) else 0
  else
    let period := GetFrozenPeriod stakingTx in
    if period >? MASSIP0001MaxValidPeriod then MASSIP0001MaxValidPeriod else period.

Definition SortStakingNodesByWeight (blockHeight : Z) : bool := blockHeight >=? MASSIP0001Height.
Definition EnforceMASSIP0002 (blockHeight : Z) : bool := blockHeight >=? MASSIP0002Height.
Definition EnforceMASSIP0002WarmUp (blockHeight : Z) : bool := blockHeight >=? MASSIP0002WarmUpHeight.

Definition BlockVersionV1 : Z := 1.
Definition BlockVersionV2 : Z := 2.
Definition GetBlockVersion (height : Z) : Z :=
  if EnforceMASSIP0002WarmUp height then BlockVersionV2 else BlockVersionV1.

(** * Required binding *)

Definition NumberOf32GOnePB : Z := Z.shiftr (Z.shiftl 1 50) 35.

Definition newAmountFromMASS {E} (i : Z) : outcome E Amount :=
  u ← must (Uint128_MulInt (NewUint128FromUint i) MaxwellPerMass); must (NewAmount u).

Definition newAmountFromMaxwell {E} (i : Z) : outcome E Amount := must (NewAmountFromUint i).

(** Division of Go ints truncates; it panics on a zero divisor, but [i] is at least 3. *)
Definition calcIntervalRequired (i : Z) : Z * Z :=
  (uint64 (Z.quot 5000000 (i * 100)), uint64 (Z.quot 5000000 i)).

Definition calcPricePer32G {E} (massPerPB : Z) : outcome E Amount :=
  m ← newAmountFromMASS massPerPB;
  u ← must (Uint128_DivInt (Amount_Value m) NumberOf32GOnePB);
  must (NewAmount u).

Record NetworkBindingPrice := mkNetworkBindingPrice {
  AccumulativeUpperBound : Amount;
  PricePer32G : Amount
}.

(** The loop of init over [i] in 3..30. *)
Fixpoint init_prices {E} (n : nat) (i : Z) (acc : Amount) (prices : list NetworkBindingPrice) : outcome E (list NetworkBindingPrice) :=
  match n with
  | O => Ret prices
  | S n' =>
      let '(massPerPB, intervalTotal) := calcIntervalRequired i in
      a ← newAmountFromMASS intervalTotal;
      acc' ← must (Amount_Add acc a);
      p ← calcPricePer32G massPerPB;
      init_prices n' (i + 1) acc' (prices ++ [mkNetworkBindingPrice acc' p])
  end.

Definition forks_init {E} : outcome E (list NetworkBindingPrice) :=
  let '(massPerPB, intervalTotal) := calcIntervalRequired 3 in
  a1 ← newAmountFromMASS intervalTotal;
  p1 ← calcPricePer32G massPerPB;
  a2 ← newAmountFromMASS (uint64 (intervalTotal * 2));
  p2 ← calcPricePer32G massPerPB;
  init_prices 28 3 a2 [mkNetworkBindingPrice a1 p1; mkNetworkBindingPrice a2 p2].

(** Init does not panic. *)
Definition bindingPriceSinceMASSIP0002 : list NetworkBindingPrice :=
  match @forks_init Empty_set with Ret l => l | _ => [] end.

Definition bindingPriceSinceGenesis (massBitlength : Z) : option Amount :=
  let price r := Some (mkAmount (NewUint128FromUint r)) in
  if massBitlength =? 24 then price 614400
  else if massBitlength =? 26 then price 2662400
  else if massBitlength =? 28 then price 11200000
  else if massBitlength =? 30 then price 48000000
  else if massBitlength =? 32 then price 204800000
  else if massBitlength =? 34 then price 870400000
  else if massBitlength =? 36 then price 3686400000
  else if massBitlength =? 38 then price 15200000000
  else if massBitlength =? 40 then price 64000000000
  else None.

(** The first loop of GetRequiredBinding: the price of the first bound that is not exceeded. *)
Fixpoint find_price (networkBinding : Amount) (prices : list NetworkBindingPrice) : option Amount :=
  match prices with
  | [] => None
  | p :: rest =>
      if Amount_Cmp networkBinding (AccumulativeUpperBound p) <=? 0 then Some (PricePer32G p)
      else find_price networkBinding rest
  end.

(** The second loop has no exit condition: [None] when it is still running after [fuel]
    iterations. *)
Fixpoint price_loop (fuel : nat) (i : Z) (acc networkBinding : Amount) (n : Z) : option (outcome fork_error Amount) :=
  match fuel with
  | O => None
  | S fuel' =>
      let '(massPerPB, intervalTotal) := calcIntervalRequired i in
      match (a ← newAmountFromMASS intervalTotal; with_err ErrCalculatingPrice (Amount_Add acc a)) with
      | Ret acc' =>
          if Amount_Cmp networkBinding acc' <=? 0 then
            Some (pricePerPB ← newAmountFromMASS massPerPB;
                  u ← amt (Uint128_DivInt (Amount_Value pricePerPB) NumberOf32GOnePB);
                  pricePer32G ← amt (NewAmount u);
                  price ← amt (Uint128_MulInt (Amount_Value pricePer32G) n);
                  amt (NewAmount price))
          else price_loop fuel' (i + 1) acc' networkBinding n
      | Err e => Some (Err e)
      | Panic => Some Panic
      end
  end.

Definition GetRequiredBinding (fuel : nat) (nextHeight plotSize massBitlength : Z) (networkBinding : Amount) :
    option (outcome fork_error Amount) :=
  if negb (EnforceMASSIP0002WarmUp nextHeight) then
    match bindingPriceSinceGenesis massBitlength with
    | Some price => Some (Ret price)
    | None => Some (Err (ErrInvalidBitLength massBitlength))
    end
  else if plotSize =? 0 then Some (Err ErrZeroPlotSize)
  else
    let n := Z.shiftr plotSize 35 in
    let n := if n =? 0 then 1 else n in
    match find_price networkBinding bindingPriceSinceMASSIP0002 with
    | Some pricePer32G => Some (u ← amt (Uint128_MulInt (Amount_Value pricePer32G) (int64 n)); amt (NewAmount u))
    | None =>
        match last bindingPriceSinceMASSIP0002 with
        | None => Some Panic
        | Some p => price_loop fuel (len bindingPriceSinceMASSIP0002 + 1) (AccumulativeUpperBound p) networkBinding (int64 n)
        end
    end.

Example init_ok : exists l, @forks_init Empty_set = Ret l /\ length l = 30%nat.
Proof. eexists. split; vm_compute; reflexivity. Qed.
Example genesis_prices :
  Forall (fun bl => is_Some (bindingPriceSinceGenesis bl)) [24; 26; 28; 30; 32; 34; 36; 38; 40].
Proof. repeat constructor; eexists; vm_compute; reflexivity. Qed.

(** * When the price is found *)

(** The MASS of the intervals [i], [i + 1], ..., [i + n - 1]. *)
Fixpoint intervals (n : nat) (i : Z) : Z :=
  match n with O => 0 | S n' => 5000000 / i + intervals n' (i + 1) end.

(** The same over all intervals from [i] on, by runs of equal terms. *)
Fixpoint all_intervals (fuel : nat) (i : Z) : option Z :=
  match fuel with
  | O => None
  | S fuel' =>
      if i >? 5000000 then Some 0
      else let q := 5000000 / i in let j := 5000000 / q in
           s ← all_intervals fuel' (j + 1); Some (q * (j - i + 1) + s)
  end.

Lemma intervals_app n m i : intervals (n + m) i = intervals n i + intervals m (i + Z.of_nat n).
Proof.
  revert i. induction n as [|n IH]; intros i; cbn [Nat.add intervals].
  - by rewrite Z.add_0_r.
  - rewrite IH. replace (i + 1 + Z.of_nat n) with (i + Z.of_nat (S n)) by lia. lia.
Qed.

Lemma intervals_nonneg n i : 1 <= i -> 0 <= intervals n i.
Proof.
  revert i. induction n as [|n IH]; intros i Hi; cbn [intervals]; [lia|].
  pose proof (Z.div_pos 5000000 i). specialize (IH (i + 1)). lia.
Qed.

Lemma intervals_const n i q :
  (forall k, i <= k < i + Z.of_nat n -> 5000000 / k = q) -> intervals n i = q * Z.of_nat n.
Proof.
  revert i. induction n as [|n IH]; intros i H; cbn [intervals]; [lia|].
  rewrite (H i), IH by (lia || (intros; apply H; lia)). lia.
Qed.

Lemma intervals_beyond n i : 5000000 < i -> intervals n i = 0.
Proof. intros. rewrite (intervals_const n i 0); [lia|]. intros k ?. apply Z.div_small. lia. Qed.

(** The runs of the fast sum. *)
Lemma run_const i k :
  1 <= i <= 5000000 -> i <= k <= 5000000 / (5000000 / i) -> 5000000 / k = 5000000 / i.
Proof.
  intros Hi Hk. set (q := 5000000 / i) in *.
  assert (1 <= q) by (apply Z.div_le_lower_bound; lia).
  assert (k * q <= 5000000) by (pose proof (Z.mul_div_le 5000000 q ltac:(lia)); nia).
  pose proof (Z.mul_succ_div_gt 5000000 i ltac:(lia)) as Hgt. fold q in Hgt. clearbody q.
  symmetry. apply (Z.div_unique_pos 5000000 k q (5000000 - k * q)); nia.
Qed.

Lemma run_end i : 1 <= i <= 5000000 -> i <= 5000000 / (5000000 / i).
Proof.
  intros. assert (1 <= 5000000 / i) by (apply Z.div_le_lower_bound; lia).
  apply Z.div_le_lower_bound; [lia|]. pose proof (Z.mul_div_le 5000000 i ltac:(lia)). lia.
Qed.

Lemma all_intervals_max f i s n : all_intervals f i = Some s -> 1 <= i -> intervals n i <= s.
Proof.
  revert i s. induction f as [|f IH]; intros i s H Hi; cbn [all_intervals] in H; [done|].
  case_if; bool_to_prop; [simplify_eq; by rewrite intervals_beyond|].
  apply bind_Some in H as (s' & Hs' & [= <-]). pose proof (run_end i ltac:(lia)).
  set (j := 5000000 / (5000000 / i)) in *. set (m := Z.to_nat (j - i + 1)).
  pose proof (intervals_app n m i). pose proof (intervals_nonneg m (i + Z.of_nat n) ltac:(lia)).
  pose proof (intervals_app m n i) as Happ. rewrite Nat.add_comm in Happ.
  rewrite (intervals_const m i (5000000 / i)) in Happ by (intros k ?; apply run_const; lia).
  replace (i + Z.of_nat m) with (j + 1) in Happ by lia.
  specialize (IH _ _ Hs' ltac:(lia)). replace (Z.of_nat m) with (j - i + 1) in Happ by lia. lia.
Qed.

Lemma all_intervals_reached f i s :
  all_intervals f i = Some s -> 1 <= i <= 5000001 -> intervals (Z.to_nat (5000001 - i)) i = s.
Proof.
  revert i s. induction f as [|f IH]; intros i s H Hi; cbn [all_intervals] in H; [done|].
  case_if; bool_to_prop; [simplify_eq; by rewrite intervals_beyond|].
  apply bind_Some in H as (s' & Hs' & [= <-]). pose proof (run_end i ltac:(lia)).
  assert (5000000 / (5000000 / i) <= 5000000).
  { apply Z.div_le_upper_bound; [|]; pose proof (Z.div_le_lower_bound 5000000 i 1); lia. }
  set (j := 5000000 / (5000000 / i)) in *.
  replace (Z.to_nat (5000001 - i)) with (Z.to_nat (j - i + 1) + Z.to_nat (5000001 - (j + 1)))%nat by lia.
  rewrite intervals_app, (intervals_const _ i (5000000 / i)) by (intros k ?; apply run_const; lia).
  replace (i + Z.of_nat (Z.to_nat (j - i + 1))) with (j + 1) by lia. rewrite (IH _ _ Hs') by lia. lia.
Qed.

(** The intervals after the table, and the bound of the last entry of the table. *)
Lemma all_intervals_value : all_intervals 5000 31 = Some 57922014.
Proof. vm_compute. reflexivity. Qed.

Abbreviation value a := (u_value (a_value a)).
Definition of_maxwell (z : Z) : Amount := mkAmount (mkUint128 z).

Lemma NewAmount_Ret z : z <= MaxMass * MaxwellPerMass -> NewAmount (mkUint128 z) = Ret (of_maxwell z).
Proof. intros. unfold NewAmount. rewrite checkedAmount_spec. by rewrite decide_True. Qed.

Lemma newAmountFromMASS_Ret {E} i :
  0 <= i <= MaxMass -> newAmountFromMASS (E := E) i = Ret (of_maxwell (i * MaxwellPerMass)).
Proof.
  unfold MaxMass. intros. unfold newAmountFromMASS, NewUint128FromUint.
  rewrite MulInt_Ret by (unfold MaxwellPerMass; lia). cbn [must mbind outcome_bind].
  by rewrite NewAmount_Ret by (unfold MaxMass, MaxwellPerMass; lia).
Qed.

Lemma Amount_Add_Ret x y :
  0 <= x -> 0 <= y -> x + y <= MaxMass * MaxwellPerMass ->
  Amount_Add (of_maxwell x) (of_maxwell y) = Ret (of_maxwell (x + y)).
Proof.
  unfold MaxMass, MaxwellPerMass. intros. unfold Amount_Add, Uint128_Add. cbn [of_maxwell a_value u_value].
  rewrite validated_Ret by lia. cbn [mbind outcome_bind]. apply NewAmount_Ret. unfold MaxMass, MaxwellPerMass. lia.
Qed.

Lemma Amount_Cmp_le a b : (Amount_Cmp a b <=? 0) = bool_decide (value a <= value b).
Proof.
  unfold Amount_Cmp, Uint128_Cmp. destruct (Z.compare_spec (value a) (value b)); case_bool_decide; (done || lia).
Qed.

Lemma calcIntervalRequired_spec i :
  1 <= i -> calcIntervalRequired i = (5000000 / (i * 100), 5000000 / i) /\
            0 <= 5000000 / i <= 5000000 /\ 0 <= 5000000 / (i * 100) <= 50000.
Proof.
  intros. unfold calcIntervalRequired. rewrite !Z.quot_div_nonneg by lia.
  pose proof (Z.div_pos 5000000 i). pose proof (Z.div_pos 5000000 (i * 100)).
  assert (5000000 / i <= 5000000) by (apply Z.div_le_upper_bound; nia).
  assert (5000000 / (i * 100) <= 50000) by (apply Z.div_le_upper_bound; nia).
  rewrite !wrapU_small by lia. split; [done|lia].
Qed.

(** What GetRequiredBinding charges for [n] units at a price: their product, if it is an amount. *)
Definition charge (price n : Z) : outcome fork_error Amount :=
  if decide (price * n <= MaxMass * MaxwellPerMass) then Ret (of_maxwell (price * n))
  else Err (ErrAmount ErrMaxAmount).

Lemma charge_spec p n :
  0 <= p < 2 ^ 64 -> 0 <= n < 2 ^ 63 ->
  (u ← amt (Uint128_MulInt (mkUint128 p) n); amt (NewAmount u)) = charge p n.
Proof.
  intros. rewrite MulInt_Ret by nia. cbn [with_err mbind outcome_bind]. unfold charge, NewAmount.
  rewrite checkedAmount_spec. cbn [u_value]. change (value MaxAmount) with (MaxMass * MaxwellPerMass).
  by case_decide.
Qed.

(** The price for 32 GiB when a PB costs [m] MASS. *)
Definition price_per_32G (m : Z) : Z := m * MaxwellPerMass / NumberOf32GOnePB.

Lemma DivInt_price m :
  0 <= m <= 50000 ->
  Uint128_DivInt (mkUint128 (m * MaxwellPerMass)) NumberOf32GOnePB = Ret (mkUint128 (price_per_32G m)) /\
  0 <= price_per_32G m <= m * MaxwellPerMass.
Proof.
  intros Hm. unfold price_per_32G. change NumberOf32GOnePB with 32768. change MaxwellPerMass with 100000000.
  assert (0 <= m * 100000000 / 32768 <= m * 100000000).
  { split; [apply Z.div_pos|apply Z.div_le_upper_bound]; lia. }
  split; [|done]. apply DivInt_Ret; lia.
Qed.

(** One iteration of the second loop. *)
Lemma price_loop_step f i A nb n :
  1 <= i -> 0 <= A -> A + 5000000 / i * MaxwellPerMass <= MaxMass * MaxwellPerMass -> 0 <= n < 2 ^ 63 ->
  price_loop (S f) i (of_maxwell A) nb n =
  let A' := A + 5000000 / i * MaxwellPerMass in
  if decide (value nb <= A') then Some (charge (price_per_32G (5000000 / (i * 100))) n)
  else price_loop f (i + 1) (of_maxwell A') nb n.
Proof.
  intros Hi HA Hmax Hn. cbn zeta. cbn [price_loop].
  destruct (calcIntervalRequired_spec i Hi) as (-> & Htot & Hper).
  unfold MaxMass, MaxwellPerMass in Hmax.
  rewrite newAmountFromMASS_Ret by (unfold MaxMass; lia). cbn [mbind outcome_bind].
  rewrite Amount_Add_Ret by (unfold MaxMass, MaxwellPerMass; lia). cbn [with_err].
  rewrite Amount_Cmp_le. cbn [of_maxwell a_value u_value].
  destruct (DivInt_price _ Hper) as [HD HP].
  case_bool_decide; case_decide; try done; try lia.
  rewrite newAmountFromMASS_Ret by (unfold MaxMass; lia). cbn [mbind outcome_bind Amount_Value of_maxwell a_value].
  rewrite HD. cbn [with_err mbind outcome_bind]. unfold MaxwellPerMass in HP.
  rewrite NewAmount_Ret by (unfold MaxMass, MaxwellPerMass; lia). cbn [with_err mbind outcome_bind Amount_Value of_maxwell a_value].
  f_equal. apply charge_spec; lia.
Qed.

(** The loop goes on while the bounds are below the network's binding, ... *)
Lemma price_loop_running f i A nb n :
  1 <= i -> 0 <= A -> A + intervals f i * MaxwellPerMass < value nb -> value nb <= MaxMass * MaxwellPerMass ->
  0 <= n < 2 ^ 63 -> price_loop f i (of_maxwell A) nb n = None.
Proof.
  revert i A. induction f as [|f IH]; intros i A Hi HA Hlt Hmax Hn; [done|].
  cbn [intervals] in Hlt. pose proof (intervals_nonneg f (i + 1) ltac:(lia)). pose proof (Z.div_pos 5000000 i ltac:(lia) ltac:(lia)).
  unfold MaxwellPerMass, MaxMass in *.
  rewrite price_loop_step by (unfold MaxMass, MaxwellPerMass; lia). cbn zeta. unfold MaxwellPerMass.
  rewrite decide_False by lia. apply IH; lia.
Qed.

(** ... and ends when one is not. *)
Lemma price_loop_found f i A nb n :
  1 <= i -> 0 <= A < value nb -> value nb <= A + intervals f i * MaxwellPerMass ->
  A + intervals f i * MaxwellPerMass <= MaxMass * MaxwellPerMass -> 0 <= n < 2 ^ 63 ->
  exists k, i <= k < i + Z.of_nat f /\
    price_loop f i (of_maxwell A) nb n = Some (charge (price_per_32G (5000000 / (k * 100))) n).
Proof.
  revert i A. induction f as [|f IH]; intros i A Hi HA Hle Hmax Hn; cbn [intervals] in *; [lia|].
  pose proof (intervals_nonneg f (i + 1) ltac:(lia)). pose proof (Z.div_pos 5000000 i ltac:(lia) ltac:(lia)).
  unfold MaxwellPerMass, MaxMass in *.
  rewrite price_loop_step by (unfold MaxMass, MaxwellPerMass; lia). cbn zeta. unfold MaxwellPerMass. case_decide.
  - exists i. split; [lia|done].
  - destruct (IH (i + 1) (A + 5000000 / i * 100000000)) as (k & Hk & ->); [lia..|]. exists k. split; [lia|done].
Qed.

(** The entries of the table have the prices of the intervals 3 to 30. *)
Definition priced (k : Z) (p : NetworkBindingPrice) : bool :=
  value (PricePer32G p) =? price_per_32G (5000000 / (k * 100)).

Lemma table_priced :
  Forall (fun p => exists k, 3 <= k <= 30 /\ priced k p = true) bindingPriceSinceMASSIP0002.
Proof.
  assert (forallb (fun p => existsb (fun k => priced k p) (seqZ 3 28)) bindingPriceSinceMASSIP0002 = true) as H
    by (vm_compute; reflexivity).
  rewrite forallb_forall in H. apply Forall_forall. intros p Hp%list_elem_of_In%H.
  apply existsb_exists in Hp as (k & Hk & Hp). exists k. split; [|exact Hp].
  apply list_elem_of_In, elem_of_seqZ in Hk. lia.
Qed.

Lemma find_price_In nb ps a : find_price nb ps = Some a -> exists p, p ∈ ps /\ PricePer32G p = a.
Proof.
  induction ps as [|p ps IH]; cbn [find_price]; [done|]. case_if.
  - intros [= <-]. exists p. split; [left|done].
  - intros H. destruct (IH H) as (q & ? & ?). exists q. split; [by right|done].
Qed.

Lemma find_price_None nb ps p : find_price nb ps = None -> p ∈ ps -> value (AccumulativeUpperBound p) < value nb.
Proof.
  induction ps as [|q ps IH]; cbn [find_price]; [by intros _ ?%elem_of_nil|].
  rewrite Amount_Cmp_le. case_if; [done|]. bool_to_prop. intros H [-> | Hin]%elem_of_cons; [lia|auto].
Qed.

Lemma table_last :
  last bindingPriceSinceMASSIP0002 =
  Some (mkNetworkBindingPrice (of_maxwell (15808256 * MaxwellPerMass)) (of_maxwell (price_per_32G 1666))).
Proof. vm_compute. reflexivity. Qed.

Lemma table_len : len bindingPriceSinceMASSIP0002 + 1 = 31.
Proof. vm_compute. reflexivity. Qed.

(** No bound of the table is above that of its last entry. *)
Lemma find_price_beyond nb :
  15808256 * MaxwellPerMass < value nb -> find_price nb bindingPriceSinceMASSIP0002 = None.
Proof.
  intros Hlt. assert (Forall (fun p => value (AccumulativeUpperBound p) <= 15808256 * MaxwellPerMass)
    bindingPriceSinceMASSIP0002) as H.
  { apply Forall_forall. intros p Hp. apply Z.leb_le.
    assert (forallb (fun p => value (AccumulativeUpperBound p) <=? 15808256 * MaxwellPerMass)
      bindingPriceSinceMASSIP0002 = true) as Hb by (vm_compute; reflexivity).
    rewrite forallb_forall in Hb. exact (Hb p (proj1 (list_elem_of_In _ _) Hp)). }
  induction H as [|p ps Hp Hps IH]; [done|]. cbn [find_price]. rewrite Amount_Cmp_le, bool_decide_eq_false_2 by lia.
  done.
Qed.

Lemma GetRequiredBinding_unfold fuel nextHeight plotSize bl nb :
  EnforceMASSIP0002WarmUp nextHeight = true -> 0 < plotSize < 2 ^ 64 ->
  let n := Z.max 1 (plotSize / 2 ^ 35) in
  0 <= n < 2 ^ 29 /\
  GetRequiredBinding fuel nextHeight plotSize bl nb =
    match find_price nb bindingPriceSinceMASSIP0002 with
    | Some p => Some (u ← amt (Uint128_MulInt (Amount_Value p) n); amt (NewAmount u))
    | None => price_loop fuel 31 (of_maxwell (15808256 * MaxwellPerMass)) nb n
    end.
Proof.
  intros Hw Hp n.
  assert (0 <= n < 2 ^ 29 /\ int64 (if Z.shiftr plotSize 35 =? 0 then 1 else Z.shiftr plotSize 35) = n) as [Hn En].
  { rewrite Z.shiftr_div_pow2 by lia. pose proof (Z.div_pos plotSize (2 ^ 35) ltac:(lia) ltac:(lia)).
    assert (plotSize / 2 ^ 35 < 2 ^ 29) by (apply Z.div_lt_upper_bound; lia).
    unfold n. split; [lia|]. case_if; bool_to_prop; rewrite int64_small by lia; lia. }
  split; [exact Hn|]. unfold GetRequiredBinding. rewrite Hw, En, table_last, table_len. cbn [negb].
  destruct (Z.eqb_spec plotSize 0); [lia|]. reflexivity.
Qed.

(** The required binding after the MASSip2 warm-up is computed for every network binding up to
    73,730,270 MASS, and for no larger one.  Up to that bound GetRequiredBinding returns the
    price of an interval k >= 3 times the number of 32-GiB units (the error that this exceeds the maximum
    amount, for enormous plots); above it the unbounded loop runs forever, since the intervals
    5,000,000 / k it adds are 0 from k = 5,000,001 on.  The maximum amount is 206,438,400 MASS. *)
Theorem GetRequiredBinding_returns (nextHeight plotSize bl : Z) (nb : Amount) :
  EnforceMASSIP0002WarmUp nextHeight = true -> 0 < plotSize < 2 ^ 64 -> amount_ok nb ->
  let n := Z.max 1 (plotSize / 2 ^ 35) in
  (value nb <= 73730270 * MaxwellPerMass ->
    exists k, 3 <= k <= 5000000 /\
      GetRequiredBinding (Z.to_nat 4999970) nextHeight plotSize bl nb =
      Some (charge (price_per_32G (5000000 / (k * 100))) n)) /\
  (73730270 * MaxwellPerMass < value nb ->
    forall fuel, GetRequiredBinding fuel nextHeight plotSize bl nb = None).
Proof.
  intros Hw Hp Hnb n. unfold amount_ok in Hnb. change (value MaxAmount) with (MaxMass * MaxwellPerMass) in Hnb.
  pose proof (fun f => GetRequiredBinding_unfold f nextHeight plotSize bl nb Hw Hp) as E. cbn zeta in E. fold n in E.
  assert (0 <= n < 2 ^ 29) as Hn by apply (E 0%nat). clearbody n.
  unfold MaxMass, MaxwellPerMass in *. split; intros Hv; [|intros fuel].
  - rewrite (proj2 (E _)). destruct (find_price nb bindingPriceSinceMASSIP0002) as [a|] eqn:Hf.
    + destruct (find_price_In _ _ _ Hf) as (p & Hin & Ha).
      pose proof table_priced as Ht. rewrite Forall_forall in Ht. destruct (Ht p Hin) as (k & Hk & Hpr).
      unfold priced in Hpr. apply Z.eqb_eq in Hpr. rewrite Ha in Hpr. exists k. split; [lia|]. f_equal.
      destruct a as [[z]]. cbn [Amount_Value a_value u_value] in *. subst z.
      destruct (calcIntervalRequired_spec k ltac:(lia)) as (_ & _ & Hper).
      destruct (DivInt_price _ Hper) as [_ HP]. unfold MaxwellPerMass in HP. apply charge_spec; lia.
    + pose proof (all_intervals_reached 5000 31 _ all_intervals_value ltac:(lia)) as Hr.
      assert (15808256 * 100000000 < value nb).
      { pose proof (last_Some_elem_of _ _ table_last) as Hl. by apply (find_price_None _ _ _ Hf) in Hl. }
      change (5000001 - 31) with 4999970 in Hr.
      destruct (price_loop_found (Z.to_nat 4999970) 31 (15808256 * 100000000) nb n)
        as (k & Hk & HL); [unfold MaxMass, MaxwellPerMass; lia..|].
      exists k. split; [lia|exact HL].
  - rewrite (proj2 (E _)), find_price_beyond by (unfold MaxwellPerMass; lia).
    pose proof (all_intervals_max 5000 31 _ fuel all_intervals_value ltac:(lia)).
    unfold MaxwellPerMass. apply price_loop_running; unfold MaxMass, MaxwellPerMass; lia.
Qed.

Lemma GetRequiredBinding_returns_witness :
  (exists k, 3 <= k <= 5000000 /\
    GetRequiredBinding (Z.to_nat 4999970) MASSIP0002Height (2 ^ 40) 32 (of_maxwell 100000000) =
    Some (charge (price_per_32G (5000000 / (k * 100))) 32)) /\
  (forall fuel, GetRequiredBinding fuel MASSIP0002Height (2 ^ 40) 32 (of_maxwell (73730271 * 100000000)) = None).
Proof.
  assert (amount_ok (of_maxwell 100000000)) as H1 by (vm_compute; split; discriminate).
  assert (amount_ok (of_maxwell (73730271 * 100000000))) as H2 by (vm_compute; split; discriminate).
  assert (0 < 2 ^ 40 < 2 ^ 64) as Hp by lia.
  split.
  - exact (proj1 (GetRequiredBinding_returns MASSIP0002Height (2 ^ 40) 32 _ eq_refl Hp H1) ltac:(discriminate)).
  - exact (proj2 (GetRequiredBinding_returns MASSIP0002Height (2 ^ 40) 32 _ eq_refl Hp H2) eq_refl).
Defined.
