(* ===== verification/Rewards.v ===== *)
(** Rewards: the block subsidy and its division between the miner and the staking nodes
    (blockchain/reward_logic.go). *)

From S2P Require Import Prelude Wire Amount Forks.

(** consensus/params.go *)
Definition SubsidyHalvingInterval : Z := 13440.
Definition consensus_BaseSubsidy : Z := 1024 * MaxwellPerMass.
Definition consensus_MinHalvedSubsidy : Z := 6250000.

Definition baseSubsidy : Uint128 := NewUint128FromUint consensus_BaseSubsidy.
Definition minHalvedSubsidy : Uint128 := NewUint128FromUint consensus_MinHalvedSubsidy.
Definition minHalvedSubsidyForMASSIP2 : Uint128 := NewUint128FromUint (consensus_MinHalvedSubsidy * 4).

(** Set by init. *)
Definition fakeMASSIP2SubsidyStartHeight : Z :=
  if (MASSIP0002Height >? 846720) && (MASSIP0002Height <=? 1706880) then
    let height := uint64 (MASSIP0002Height - 846720) in
    let height := uint64 (height * 215040) in
    let height := height / 860160 in
    uint64 (201601 + height)
  else 0.

(** The loop halves a uint64 until it is zero. *)
Fixpoint rsh_loop (fuel : nat) (t i : Z) : Z :=
  match fuel with
  | O => i
  | S fuel' => let t := Z.shiftr t 1 in if negb (t =? 0) then rsh_loop fuel' t (i + 1) else i
  end.

Definition calcRshNumBeforeIp2 (height : Z) : Z :=
  rsh_loop 64 (uint64 (uint64 (height - 1) / SubsidyHalvingInterval + 1)) 0.

(** [part] of [whole] per ten thousand. *)
Definition share (subsidy : Uint128) (num den : Z) : outcome fork_error Uint128 :=
  temp ← amt (Uint128_MulInt subsidy num); amt (Uint128_DivInt temp den).

Definition allocSubsidyBeforeIp2 (subsidy : Uint128) (hasValidBinding hasStaking hasGameReward : bool) :
    outcome fork_error (Amount * Amount) :=
  '(miner, superNode) ←
    (if hasGameReward then
       match hasStaking, hasValidBinding with
       | false, false => miner ← share subsidy 1875 10000; Ret (miner, NewUint128)
       | false, true => miner ← share subsidy 8125 10000; Ret (miner, NewUint128)
       | true, false =>
           miner ← share subsidy 1875 10000; superNode ← amt (Uint128_Sub subsidy miner); Ret (miner, superNode)
       | true, true =>
           miner ← share subsidy 8125 10000; superNode ← amt (Uint128_Sub subsidy miner); Ret (miner, superNode)
       end
     else
       miner ← share subsidy 1875 10000;
       Ret (miner, if hasStaking then DeepCopy miner else NewUint128));
  m ← amt (NewAmount miner);
  sn ← amt (NewAmount superNode);
  Ret (m, sn).

(** [chain_halving] is chainParams.SubsidyHalvingInterval, of which only whether it is zero
    matters. *)
Definition calcBlockSubsidyBeforeIp2 (height chain_halving : Z) (hasValidBinding hasStaking hasGameReward : bool) :
    outcome fork_error (Amount * Amount) :=
  let subsidy :=
    if negb (chain_halving =? 0) then
      let subsidy := Uint128_Rsh baseSubsidy (calcRshNumBeforeIp2 height) in
      if Uint128_Lt subsidy minHalvedSubsidy then NewUint128 else subsidy
    else baseSubsidy in
  if Uint128_IsZero subsidy then Ret (ZeroAmount, ZeroAmount)
  else allocSubsidyBeforeIp2 subsidy hasValidBinding hasStaking hasGameReward.

Definition allocSubsidy (subsidy : Uint128) (hasStaking : bool) : outcome fork_error (Amount * Amount) :=
  stakingNodes ← (if hasStaking then amt (Uint128_DivInt subsidy 10) else Ret NewUint128);
  miner ← amt (Uint128_Sub subsidy stakingNodes);
  miner ← (if Uint128_IsZero stakingNodes then share subsidy 9 10 else Ret miner);
  binding ← amt (NewAmount miner);
  staking ← amt (NewAmount stakingNodes);
  Ret (binding, staking).

Definition calcBlockSubsidy (height chain_halving : Z) (hasStaking : bool) : outcome fork_error (Amount * Amount) :=
  subsidy ←
    (if negb (chain_halving =? 0) then
       height ← (if negb (fakeMASSIP2SubsidyStartHeight =? 0) then
                   if height <? MASSIP0002Height then Err ErrUnexpectedHeight
                   else Ret (uint64 (uint64 (fakeMASSIP2SubsidyStartHeight + height) - MASSIP0002Height))
                 else Ret height);
       let subsidy := Uint128_Rsh baseSubsidy (calcRshNumBeforeIp2 height) in
       Ret (if Uint128_Lt subsidy minHalvedSubsidyForMASSIP2 then NewUint128 else subsidy)
     else Ret baseSubsidy);
  if Uint128_IsZero subsidy then Ret (ZeroAmount, ZeroAmount) else allocSubsidy subsidy hasStaking.

Definition CalcBlockSubsidy (height chain_halving : Z) (hasValidBinding hasStaking : bool) :
    outcome fork_error (Amount * Amount) :=
  if negb (EnforceMASSIP0002 height) then
    let warm := EnforceMASSIP0002WarmUp height in
    calcBlockSubsidyBeforeIp2 height chain_halving (if warm then false else hasValidBinding) hasStaking (negb warm)
  else if negb hasValidBinding then Err ErrNoValidBinding
  else calcBlockSubsidy height chain_halving hasStaking.

Example fake_start : fakeMASSIP2SubsidyStartHeight = 341121.
Proof. reflexivity. Qed.
Example first_block :
  CalcBlockSubsidy 1 13440 true true = Ret (of_maxwell 83200000000, of_maxwell 19200000000).
Proof. vm_compute. reflexivity. Qed.
Example first_massip2_block :
  CalcBlockSubsidy 1404801 13440 true true = Ret (of_maxwell 5760000000, of_maxwell 640000000).
Proof. vm_compute. reflexivity. Qed.

(** * The subsidy of a height *)

Lemma rsh_loop_log2 f t i : 1 <= t < 2 ^ Z.of_nat f -> rsh_loop f t i = i + Z.log2 t.
Proof.
  revert t i. induction f as [|f IH]; intros t i Ht.
  - change (2 ^ Z.of_nat 0) with 1 in Ht. lia.
  - rewrite Nat2Z.inj_succ, Z.pow_succ_r in Ht by lia. cbn [rsh_loop].
    rewrite Z.shiftr_div_pow2 by lia. change (2 ^ 1) with 2.
    destruct (Z.eqb_spec (t / 2) 0) as [E|E]; cbn [negb].
    + assert (t = 1) as -> by (pose proof (Z.div_mod t 2); pose proof (Z.mod_pos_bound t 2); lia).
      change (Z.log2 1) with 0. lia.
    + assert (0 <= t / 2) by (apply Z.div_pos; lia).
      rewrite IH by (split; [lia|apply Z.div_lt_upper_bound; lia]).
      rewrite <- Z.shiftr_div_pow2 with (n := 1), Z.log2_shiftr by lia.
      assert (1 <= Z.log2 t); [|lia]. apply Z.log2_le_pow2; [lia|]. change (2 ^ 1) with 2.
      destruct (decide (t < 2)); [|lia]. rewrite Z.div_small in E; lia.
Qed.

(** The halvings at a height: the blocks are grouped by [SubsidyHalvingInterval], and the
    number of groups since the last halving doubles with each one. *)
Definition period (h : Z) : Z := Z.log2 ((h - 1) / SubsidyHalvingInterval + 1).

Lemma calcRshNum_period h : 1 <= h < 2 ^ 64 -> calcRshNumBeforeIp2 h = period h.
Proof.
  intros Hh. unfold calcRshNumBeforeIp2, period, SubsidyHalvingInterval.
  rewrite (wrapU_small 64 (h - 1)) by lia.
  pose proof (Z.div_pos (h - 1) 13440 ltac:(lia) ltac:(lia)).
  assert ((h - 1) / 13440 < 2 ^ 63) by (apply Z.div_lt_upper_bound; lia).
  rewrite wrapU_small by lia. rewrite rsh_loop_log2; [lia|]. change (Z.of_nat 64) with 64. lia.
Qed.

Lemma period_spec h n : 1 <= h -> 0 <= n ->
  period h = n <-> SubsidyHalvingInterval * (2 ^ n - 1) < h <= SubsidyHalvingInterval * (2 ^ (n + 1) - 1).
Proof.
  intros Hh Hn. unfold period, SubsidyHalvingInterval. rewrite Z.pow_add_r by lia. change (2 ^ 1) with 2.
  pose proof (Z.div_pos (h - 1) 13440 ltac:(lia) ltac:(lia)).
  pose proof (Z.div_mod (h - 1) 13440 ltac:(lia)). pose proof (Z.mod_pos_bound (h - 1) 13440 ltac:(lia)).
  set (q := (h - 1) / 13440) in *. assert (0 < 2 ^ n) by lia. split.
  - intros <-. pose proof (Z.log2_spec (q + 1) ltac:(lia)) as [H3 H4]. rewrite Z.pow_succ_r in H4 by lia. nia.
  - intros H3. apply Z.log2_unique; [lia|]. rewrite Z.pow_succ_r by lia. nia.
Qed.

(** * The division of a subsidy *)

Definition subsidy_at (floor h : Z) : Z :=
  let s := consensus_BaseSubsidy / 2 ^ period h in if s <? floor then 0 else s.

Lemma subsidy_at_range floor h : 1 <= h -> 0 <= subsidy_at floor h <= consensus_BaseSubsidy.
Proof.
  intros. unfold subsidy_at. assert (0 <= period h) by apply Z.log2_nonneg.
  assert (0 <= consensus_BaseSubsidy / 2 ^ period h <= consensus_BaseSubsidy).
  { assert (0 < 2 ^ period h) by lia. unfold consensus_BaseSubsidy, MaxwellPerMass.
    split; [apply Z.div_pos|apply Z.div_le_upper_bound]; nia. }
  case_if; [unfold consensus_BaseSubsidy, MaxwellPerMass|]; lia.
Qed.

Lemma subsidy_code floor h :
  1 <= h < 2 ^ 64 ->
  (if Uint128_Lt (Uint128_Rsh baseSubsidy (calcRshNumBeforeIp2 h)) (NewUint128FromUint floor) then NewUint128
   else Uint128_Rsh baseSubsidy (calcRshNumBeforeIp2 h)) = mkUint128 (subsidy_at floor h).
Proof.
  intros Hh. rewrite calcRshNum_period by done. unfold Uint128_Rsh, subsidy_at.
  rewrite Z.shiftr_div_pow2 by apply Z.log2_nonneg. change (u_value baseSubsidy) with consensus_BaseSubsidy.
  set (s := consensus_BaseSubsidy / 2 ^ period h). unfold Uint128_Lt, Uint128_Cmp, NewUint128FromUint. cbn [u_value].
  destruct (Z.compare_spec s floor), (Z.ltb_spec s floor); (done || lia).
Qed.

Lemma share_Ret s num den :
  0 <= s < 2 ^ 64 -> 0 <= num < 2 ^ 63 -> 0 < den < 2 ^ 63 ->
  share (mkUint128 s) num den = Ret (mkUint128 (s * num / den)).
Proof.
  intros. unfold share. rewrite MulInt_Ret by nia. cbn [with_err mbind outcome_bind].
  by rewrite DivInt_Ret by nia.
Qed.

Lemma Sub_Ret s x : 0 <= x <= s -> s < 2 ^ 128 -> Uint128_Sub (mkUint128 s) (mkUint128 x) = Ret (mkUint128 (s - x)).
Proof. intros. apply validated_Ret. cbn [u_value]. lia. Qed.

Lemma share_bound s num den : 0 <= s -> 0 <= num <= den -> 0 < den -> 0 <= s * num / den <= s.
Proof. intros. split; [apply Z.div_pos|apply Z.div_le_upper_bound]; nia. Qed.

(** The shares of miner and staking nodes before MASSip2, of a subsidy [s]. *)
Definition shares_before (s : Z) (hasValidBinding hasStaking hasGameReward : bool) : Z * Z :=
  let m := s * (if hasGameReward && hasValidBinding then 8125 else 1875) / 10000 in
  (m, if hasStaking then if hasGameReward then s - m else m else 0).

Lemma alloc_before s b st g :
  0 <= s <= consensus_BaseSubsidy ->
  let '(m, sn) := shares_before s b st g in
  allocSubsidyBeforeIp2 (mkUint128 s) b st g = Ret (of_maxwell m, of_maxwell sn) /\ 0 <= m /\ 0 <= sn /\ m + sn <= s.
Proof.
  unfold consensus_BaseSubsidy, MaxwellPerMass. intros Hs. unfold shares_before. set (k := if g && b then 8125 else 1875).
  assert (k = 8125 \/ k = 1875) as Hk by (unfold k; destruct g, b; auto).
  pose proof (share_bound s k 10000 ltac:(lia) ltac:(lia) ltac:(lia)) as Hb.
  assert (k = 1875 -> 2 * (s * k / 10000) <= s) as Hhalf.
  { intros ->. pose proof (Z.mul_div_le (s * 1875) 10000 ltac:(lia)). lia. }
  split.
  - unfold allocSubsidyBeforeIp2, k in *. destruct g, st, b; cbn [andb] in *; rewrite share_Ret by lia;
      cbn [mbind outcome_bind]; rewrite ?Sub_Ret by lia; cbn [with_err mbind outcome_bind];
      unfold NewUint128, DeepCopy; cbn [u_value]; rewrite !NewAmount_Ret by (unfold MaxMass, MaxwellPerMass; lia); done.
  - unfold k in *. destruct g, st, b; cbn [andb] in *; lia.
Qed.

(** The shares after MASSip2. *)
Definition shares_after (s : Z) (hasStaking : bool) : Z * Z :=
  let sn := if hasStaking then s / 10 else 0 in
  (if sn =? 0 then s * 9 / 10 else s - sn, sn).

Lemma alloc_after s st :
  0 <= s <= consensus_BaseSubsidy ->
  let '(m, sn) := shares_after s st in
  allocSubsidy (mkUint128 s) st = Ret (of_maxwell m, of_maxwell sn) /\ 0 <= m /\ 0 <= sn /\ m + sn <= s.
Proof.
  unfold consensus_BaseSubsidy, MaxwellPerMass. intros Hs. unfold shares_after.
  pose proof (share_bound s 9 10 ltac:(lia) ltac:(lia) ltac:(lia)).
  pose proof (share_bound s 1 10 ltac:(lia) ltac:(lia) ltac:(lia)) as Htenth. rewrite Z.mul_1_r in Htenth.
  set (sn := if st then s / 10 else 0). assert (0 <= sn <= s) by (unfold sn; destruct st; lia).
  split; [|destruct (Z.eqb_spec sn 0); lia].
  unfold allocSubsidy.
  assert ((if st then amt (Uint128_DivInt (mkUint128 s) 10) else Ret NewUint128) = Ret (mkUint128 sn)) as ->.
  { unfold sn. destruct st; [by rewrite DivInt_Ret by lia|done]. }
  cbn [mbind outcome_bind]. rewrite Sub_Ret by lia. cbn [with_err mbind outcome_bind].
  unfold Uint128_IsZero. cbn [u_value].
  destruct (Z.eqb_spec sn 0), (Z.eqb_spec (Z.sgn sn) 0); try lia;
    rewrite ?share_Ret by lia; cbn [with_err mbind outcome_bind];
    rewrite !NewAmount_Ret by (unfold MaxMass, MaxwellPerMass; lia); done.
Qed.

(** * The supply *)

(** The reward of a block, both shares; nothing is minted when CalcBlockSubsidy fails. *)
Definition minted_by (h : Z) (hasValidBinding hasStaking : bool) : Z :=
  match CalcBlockSubsidy h SubsidyHalvingInterval hasValidBinding hasStaking with
  | Ret (m, sn) => value m + value sn
  | _ => 0
  end.

(** The coins minted by the blocks 1 to [H] of a chain whose blocks have the given bindings and
    stakings. *)
Fixpoint minted (binding staking : Z -> bool) (H : nat) : Z :=
  match H with
  | O => 0
  | S H' => minted binding staking H' + minted_by (Z.of_nat H) (binding (Z.of_nat H)) (staking (Z.of_nat H))
  end.

(** The blocks of period [n] up to height [h], and the subsidies of the first [N] periods up to
    [h]. *)
Definition in_period (n h : Z) : Z :=
  Z.max 0 (Z.min (h - SubsidyHalvingInterval * (2 ^ n - 1)) (SubsidyHalvingInterval * 2 ^ n)).
Fixpoint paid (N : nat) (h : Z) : Z :=
  match N with
  | O => 0
  | S N' => paid N' h + consensus_BaseSubsidy / 2 ^ Z.of_nat N' * in_period (Z.of_nat N') h
  end.

Lemma in_period_step n h : 0 <= n -> 1 <= h ->
  in_period n h = in_period n (h - 1) + (if decide (period h = n) then 1 else 0).
Proof.
  intros Hn Hh. pose proof (period_spec h n Hh Hn) as Hp. rewrite Z.pow_add_r in Hp by lia.
  change (2 ^ 1) with 2 in Hp. unfold in_period, SubsidyHalvingInterval in *.
  assert (0 < 2 ^ n) by lia. case_decide; lia.
Qed.

Lemma paid_step N h : 1 <= h ->
  paid N h = paid N (h - 1) + (if decide (period h < Z.of_nat N) then consensus_BaseSubsidy / 2 ^ period h else 0).
Proof.
  intros Hh. assert (0 <= period h) by apply Z.log2_nonneg. induction N as [|N IH]; cbn [paid].
  - rewrite decide_False by lia. lia.
  - rewrite IH, in_period_step by lia.
    destruct (decide (period h = Z.of_nat N)) as [E|]; repeat case_decide; try lia.
    rewrite E. lia.
Qed.

(** Every period pays the same. *)
Lemma paid_max N h : paid N h <= Z.of_nat N * (SubsidyHalvingInterval * consensus_BaseSubsidy).
Proof.
  induction N as [|N IH]; cbn [paid]; [lia|].
  set (n := Z.of_nat N) in *. assert (0 < 2 ^ n) by lia.
  pose proof (Z.mul_div_le consensus_BaseSubsidy (2 ^ n) ltac:(lia)) as Hd.
  assert (0 <= consensus_BaseSubsidy / 2 ^ n) by (apply Z.div_pos; unfold consensus_BaseSubsidy, MaxwellPerMass; lia).
  assert (in_period n h <= SubsidyHalvingInterval * 2 ^ n).
  { unfold in_period, SubsidyHalvingInterval. lia. }
  replace (Z.of_nat (S N)) with (n + 1) by lia. unfold SubsidyHalvingInterval in *. nia.
Qed.

(** Subsidies below the floor are the ones of the periods after [N]. *)
Lemma subsidy_at_paid N floor h :
  1 <= h -> consensus_BaseSubsidy < floor * 2 ^ Z.of_nat N ->
  subsidy_at floor h <= paid N h - paid N (h - 1).
Proof.
  intros Hh Hfl. rewrite (paid_step N h) by done. unfold subsidy_at.
  assert (0 <= period h) by apply Z.log2_nonneg.
  assert (0 <= consensus_BaseSubsidy / 2 ^ period h) by (apply Z.div_pos; unfold consensus_BaseSubsidy, MaxwellPerMass; lia).
  destruct (Z.ltb_spec (consensus_BaseSubsidy / 2 ^ period h) floor); case_decide; try lia.
  assert (2 ^ Z.of_nat N <= 2 ^ period h) by (apply Z.pow_le_mono_r; lia).
  pose proof (Z.mul_div_le consensus_BaseSubsidy (2 ^ period h) ltac:(lia)).
  assert (0 < 2 ^ Z.of_nat N) by lia. unfold consensus_BaseSubsidy, MaxwellPerMass in *. nia.
Qed.

(** The height from which the MASSip2 subsidy of height [h] is computed. *)
Definition fake_height (h : Z) : Z := h - MASSIP0002Height + fakeMASSIP2SubsidyStartHeight.

Lemma subsidy_nonzero (z : Z) : Uint128_IsZero (mkUint128 z) = (z =? 0).
Proof. unfold Uint128_IsZero. cbn [u_value]. destruct (Z.eqb_spec z 0), (Z.eqb_spec (Z.sgn z) 0); (done || lia). Qed.

Lemma CalcBlockSubsidy_before h b st :
  1 <= h < MASSIP0002Height ->
  let warm := EnforceMASSIP0002WarmUp h in let s := subsidy_at consensus_MinHalvedSubsidy h in
  let '(m, sn) := shares_before s (negb warm && b) st (negb warm) in
  CalcBlockSubsidy h SubsidyHalvingInterval b st = Ret (of_maxwell m, of_maxwell sn) /\ 0 <= m /\ 0 <= sn /\ m + sn <= s.
Proof.
  intros Hh warm s. unfold CalcBlockSubsidy. fold warm.
  unfold EnforceMASSIP0002. destruct (Z.geb_spec h MASSIP0002Height); [lia|]. cbn [negb].
  unfold calcBlockSubsidyBeforeIp2. change (SubsidyHalvingInterval =? 0) with false. cbn [negb]. cbn zeta.
  unfold minHalvedSubsidy. unfold MASSIP0002Height in *. rewrite subsidy_code by lia. fold s.
  pose proof (subsidy_at_range consensus_MinHalvedSubsidy h ltac:(lia)) as Hs. fold s in Hs.
  replace (negb warm && b) with (if warm then false else b) by by destruct warm.
  pose proof (alloc_before s (if warm then false else b) st (negb warm) Hs) as Halloc.
  destruct (shares_before s _ st (negb warm)) as [m sn] eqn:E. rewrite subsidy_nonzero.
  destruct (Z.eqb_spec s 0) as [E0|]; [|exact Halloc].
  unfold shares_before in E. rewrite E0 in *. destruct warm, b, st; cbn in E; injection E as <- <-; done.
Qed.

Lemma CalcBlockSubsidy_after h st :
  MASSIP0002Height <= h < 2 ^ 64 ->
  let s := subsidy_at (consensus_MinHalvedSubsidy * 4) (fake_height h) in
  let '(m, sn) := shares_after s st in
  CalcBlockSubsidy h SubsidyHalvingInterval true st = Ret (of_maxwell m, of_maxwell sn) /\ 0 <= m /\ 0 <= sn /\ m + sn <= s.
Proof.
  intros Hh s. unfold CalcBlockSubsidy, EnforceMASSIP0002. rewrite Z.geb_leb.
  destruct (Z.leb_spec MASSIP0002Height h); [|lia]. cbn [negb].
  unfold calcBlockSubsidy. change (SubsidyHalvingInterval =? 0) with false.
  change (fakeMASSIP2SubsidyStartHeight =? 0) with false. cbn [negb].
  destruct (Z.ltb_spec h MASSIP0002Height); [lia|]. cbn [mbind outcome_bind]. unfold MASSIP0002Height in *.
  assert (uint64 (uint64 (fakeMASSIP2SubsidyStartHeight + h) - 1404801) = fake_height h) as ->.
  { unfold wrapU, fake_height, MASSIP0002Height. rewrite Zminus_mod_idemp_l. change fakeMASSIP2SubsidyStartHeight with 341121.
    rewrite Z.mod_small by lia. lia. }
  assert (1 <= fake_height h < 2 ^ 64) as Hf.
  { unfold fake_height, MASSIP0002Height. change fakeMASSIP2SubsidyStartHeight with 341121. lia. }
  unfold minHalvedSubsidyForMASSIP2. rewrite subsidy_code by done. fold s.
  pose proof (subsidy_at_range (consensus_MinHalvedSubsidy * 4) (fake_height h) ltac:(lia)) as Hs. fold s in Hs.
  pose proof (alloc_after s st Hs) as Halloc. rewrite subsidy_nonzero.
  destruct (shares_after s st) as [m sn] eqn:E. destruct (Z.eqb_spec s 0) as [E0|]; [|exact Halloc].
  unfold shares_after in E. rewrite E0 in *. destruct st; cbn in E; injection E as <- <-; done.
Qed.

(** What is left to mint at a height: the unpaid part of the 15 periods before MASSip2, and of the 13
    periods after it.  The two agree at the change of the rules. *)
Definition supply_paid (h : Z) : Z :=
  if decide (h < MASSIP0002Height) then paid 15 h
  else paid 15 (MASSIP0002Height - 1) + paid 13 (fake_height h) - paid 13 (fakeMASSIP2SubsidyStartHeight - 1).

Lemma supply_at_fork :
  15 * (SubsidyHalvingInterval * consensus_BaseSubsidy) - paid 15 (MASSIP0002Height - 1) =
  13 * (SubsidyHalvingInterval * consensus_BaseSubsidy) - paid 13 (fakeMASSIP2SubsidyStartHeight - 1).
Proof. vm_compute. reflexivity. Qed.

Lemma supply_paid_max h : supply_paid h <= MaxMass * MaxwellPerMass.
Proof.
  unfold supply_paid.
  assert (15 * (SubsidyHalvingInterval * consensus_BaseSubsidy) = MaxMass * MaxwellPerMass) as <- by reflexivity.
  case_decide; [apply (paid_max 15)|]. pose proof supply_at_fork. pose proof (paid_max 13 (fake_height h)). lia.
Qed.

Lemma minted_by_paid h b st : 1 <= h < 2 ^ 64 -> minted_by h b st <= supply_paid h - supply_paid (h - 1).
Proof.
  intros Hh. unfold minted_by, supply_paid. destruct (decide (h < MASSIP0002Height)) as [Hlt|Hge].
  - rewrite (decide_True (P := h - 1 < MASSIP0002Height)) by lia.
    pose proof (CalcBlockSubsidy_before h b st ltac:(lia)) as H. cbn zeta in H.
    destruct (shares_before _ _ _ _) as [m sn]. destruct H as (-> & Hm & Hsn & Hle). cbn [of_maxwell a_value u_value].
    etrans; [exact Hle|]. apply subsidy_at_paid; [lia|reflexivity].
  - assert (subsidy_at (consensus_MinHalvedSubsidy * 4) (fake_height h) <= paid 13 (fake_height h) - paid 13 (fake_height h - 1)) as Hs.
    { apply subsidy_at_paid; [|reflexivity]. unfold fake_height, MASSIP0002Height in *. change fakeMASSIP2SubsidyStartHeight with 341121. lia. }
    assert (paid 15 (MASSIP0002Height - 1) + paid 13 (fake_height h) - paid 13 (fakeMASSIP2SubsidyStartHeight - 1) -
      (if decide (h - 1 < MASSIP0002Height) then paid 15 (h - 1)
       else paid 15 (MASSIP0002Height - 1) + paid 13 (fake_height (h - 1)) - paid 13 (fakeMASSIP2SubsidyStartHeight - 1)) =
      paid 13 (fake_height h) - paid 13 (fake_height h - 1)) as ->.
    { unfold fake_height. case_decide.
      - replace (h - 1) with (MASSIP0002Height - 1) by lia.
        replace (h - MASSIP0002Height + fakeMASSIP2SubsidyStartHeight - 1) with (fakeMASSIP2SubsidyStartHeight - 1) by lia. lia.
      - replace (h - 1 - MASSIP0002Height + fakeMASSIP2SubsidyStartHeight) with (h - MASSIP0002Height + fakeMASSIP2SubsidyStartHeight - 1) by lia. lia. }
    destruct b.
    + pose proof (CalcBlockSubsidy_after h st ltac:(lia)) as H. cbn zeta in H.
      destruct (shares_after _ _) as [m sn]. destruct H as (-> & Hm & Hsn & Hle). cbn [of_maxwell a_value u_value]. lia.
    + unfold CalcBlockSubsidy, EnforceMASSIP0002. rewrite Z.geb_leb.
      destruct (Z.leb_spec MASSIP0002Height h); [|lia]. cbn [negb].
      pose proof (subsidy_at_range (consensus_MinHalvedSubsidy * 4) (fake_height h)) as Hr.
      unfold fake_height, MASSIP0002Height in *. change fakeMASSIP2SubsidyStartHeight with 341121 in *. lia.
Qed.

Lemma minted_paid b st H : Z.of_nat H < 2 ^ 64 -> minted b st H <= supply_paid (Z.of_nat H).
Proof.
  induction H as [|H IH]; intros HH; [done|]. cbn [minted].
  pose proof (minted_by_paid (Z.of_nat (S H)) (b (Z.of_nat (S H))) (st (Z.of_nat (S H))) ltac:(lia)) as Hs.
  replace (Z.of_nat (S H) - 1) with (Z.of_nat H) in Hs by lia. specialize (IH ltac:(lia)). lia.
Qed.

(** C14: The supply is bounded.  Whatever bindings and stakings the blocks have, the subsidies of the
    blocks 1 to H of the main network sum to at most MaxMass * MaxwellPerMass, the limit of an amount, for
    every height H: the 15 halving periods pay the same total each, and the change of
    the rules at MASSip2 (a later start in a shorter period with a higher floor) leaves exactly
    as much to mint as the old rules did. *)
Theorem supply_bounded (binding staking : Z -> bool) (H : nat) :
  Z.of_nat H < 2 ^ 64 -> minted binding staking H <= MaxMass * MaxwellPerMass.
Proof. intros HH. etrans; [by apply minted_paid|apply supply_paid_max]. Qed.

(** The reward of a block is exactly determined on every branch.  Before MASSip2 the subsidy
    (the base, halved once per period, nothing below the floor) goes to the miner by 81.25% with a
    binding and 18.75% without or during the warm-up, and with staking nodes they get the rest
    (as much as the miner during the warm-up); afterwards the staking nodes get a tenth, and a
    block without a binding is an error.  No height makes the computation fail or panic, and the
    shares never exceed the subsidy. *)
Theorem CalcBlockSubsidy_exact (h : Z) (b st : bool) :
  1 <= h < 2 ^ 64 ->
  let warm := EnforceMASSIP0002WarmUp h in
  let reward s := fun '(m, sn) =>
    CalcBlockSubsidy h SubsidyHalvingInterval b st = Ret (of_maxwell m, of_maxwell sn) /\ 0 <= m /\ 0 <= sn /\ m + sn <= s in
  if decide (h < MASSIP0002Height) then
    let s := subsidy_at consensus_MinHalvedSubsidy h in reward s (shares_before s (negb warm && b) st (negb warm))
  else if b then
    let s := subsidy_at (consensus_MinHalvedSubsidy * 4) (fake_height h) in reward s (shares_after s st)
  else CalcBlockSubsidy h SubsidyHalvingInterval b st = Err ErrNoValidBinding.
Proof.
  intros Hh warm reward. case_decide.
  - pose proof (CalcBlockSubsidy_before h b st ltac:(lia)) as H1. exact H1.
  - destruct b.
    + pose proof (CalcBlockSubsidy_after h st ltac:(lia)) as H1. exact H1.
    + unfold CalcBlockSubsidy, EnforceMASSIP0002. rewrite Z.geb_leb.
      by destruct (Z.leb_spec MASSIP0002Height h); [|lia].
Qed.

Lemma supply_bounded_witness :
  minted (fun _ => true) (fun _ => true) 3 = 3 * consensus_BaseSubsidy /\
  minted (fun _ => true) (fun _ => true) 3 <= MaxMass * MaxwellPerMass.
Proof.
  split; [vm_compute; reflexivity|]. apply (supply_bounded (fun _ => true) (fun _ => true) 3). lia.
Defined.

Lemma CalcBlockSubsidy_exact_witness :
  CalcBlockSubsidy 1404801 SubsidyHalvingInterval true true = Ret (of_maxwell 5760000000, of_maxwell 640000000).
Proof. exact (proj1 (CalcBlockSubsidy_exact 1404801 true true ltac:(lia))). Defined.
