(* ===== verification/Base58.v ===== *)
(** Base58: the text encoding of massutil/base58, with and without checksum.  Go strings are
    byte slices. *)

From S2P Require Import Prelude Wire Hashes Amount.

(** The bytes of a string literal. *)
Fixpoint string_bytes (s : string) : bytes :=
  match s with
  | EmptyString => []
  | String a s' => Z.of_nat (Ascii.nat_of_ascii a) :: string_bytes s'
  end.

(** The number of leading occurrences of [x]. *)
Fixpoint count_while (x : Z) (b : bytes) : nat :=
  match b with
  | [] => O
  | c :: b' => if c =? x then S (count_while x b') else O
  end.

(** * Positional notation *)

(** The value of digits in base [B], most significant first; [be_decode] is base 256. *)
Definition of_digits (B : Z) (l : list Z) : Z := fold_left (fun acc d => acc * B + d) l 0.

Abbreviation digits B := (Forall (fun d => 0 <= d < B)).

(** There is no leading zero. *)
Definition no_lead (l : list Z) : Prop := match l with d :: _ => d <> 0 | [] => True end.

Section positional.
Context (B : Z) (HB : 2 <= B).

Lemma of_digits_snoc l d : of_digits B (l ++ [d]) = of_digits B l * B + d.
Proof. unfold of_digits. by rewrite fold_left_app. Qed.

Lemma of_digits_zeros n l : of_digits B (replicate n 0 ++ l) = of_digits B l.
Proof using HB. induction n as [|n IH]; [done|]. rewrite <- IH. done. Qed.

Lemma of_digits_nonneg l : digits B l -> 0 <= of_digits B l.
Proof using HB.
  induction l as [|d l IH] using rev_ind; [done|]. rewrite of_digits_snoc, Forall_app, Forall_singleton.
  intros [Hl Hd]. specialize (IH Hl). nia.
Qed.

Lemma of_digits_pos l : digits B l -> no_lead l -> l <> [] -> 0 < of_digits B l.
Proof using HB.
  induction l as [|d l IH] using rev_ind; [done|].
  rewrite of_digits_snoc, Forall_app, Forall_singleton. intros [Hl Hd] Hn _. destruct l as [|e l].
  - cbn in Hn. change (of_digits B []) with 0. lia.
  - assert (0 < of_digits B (e :: l)) by (apply IH; done). nia.
Qed.

(** Without leading zeros, the digits are determined by the value. *)
Lemma digits_unique l k :
  digits B l -> digits B k -> no_lead l -> no_lead k -> of_digits B l = of_digits B k -> l = k.
Proof using HB.
  revert k. induction l as [|d l IH] using rev_ind; intros k Hl Hk Nl Nk E.
  - destruct k as [|e k]; [done|]. pose proof (of_digits_pos (e :: k) Hk Nk ltac:(done)) as Hp.
    rewrite <- E in Hp. change (of_digits B []) with 0 in Hp. lia.
  - assert (l ++ [d] <> []) as Hne by by destruct l.
    pose proof (of_digits_pos _ Hl Nl Hne) as Hp.
    destruct k as [|e k _] using rev_ind; [change (of_digits B []) with 0 in E; lia|].
    rewrite !of_digits_snoc in E. rewrite Forall_app, Forall_singleton in Hl, Hk. destruct Hl as [Hl Hd], Hk as [Hk He].
    assert (d = e /\ of_digits B l = of_digits B k) as [<- E'].
    { destruct (Z.div_mod_unique B (of_digits B l) (of_digits B k) d e); [lia|lia|lia|done]. }
    f_equal. apply IH; [done|done| | |done].
    + by destruct l.
    + by destruct k.
Qed.

Lemma of_digits_head d l : of_digits B (d :: l) = d * B ^ len l + of_digits B l.
Proof using HB.
  induction l as [|e l IH] using rev_ind.
  - unfold of_digits. cbn [fold_left]. change (len (@nil Z)) with 0. rewrite Z.pow_0_r. lia.
  - rewrite app_comm_cons, !of_digits_snoc, IH, len_app, len_one, Z.pow_add_r, Z.pow_1_r by (pose proof (len_nonneg l); lia). ring.
Qed.

Lemma of_digits_lt l : digits B l -> of_digits B l < B ^ len l.
Proof using HB.
  induction 1 as [|d l Hd Hl IH]; [done|]. rewrite of_digits_head, len_cons, Z.pow_add_r, Z.pow_1_r by (pose proof (len_nonneg l); lia).
  assert (0 < B ^ len l) by (pose proof (len_nonneg l); lia). nia.
Qed.

(** With a known number of digits, leading zeros do not matter. *)
Lemma digits_same_length l k :
  digits B l -> digits B k -> length l = length k -> of_digits B l = of_digits B k -> l = k.
Proof using HB.
  revert k. induction l as [|d l IH] using rev_ind; intros k Hl Hk Hlen E; [by destruct k|].
  destruct k as [|e k _] using rev_ind; rewrite !length_app in Hlen; cbn [length] in Hlen; [lia|].
  rewrite !of_digits_snoc in E. rewrite Forall_app, Forall_singleton in Hl, Hk.
  destruct Hl as [Hl Hd], Hk as [Hk He].
  destruct (Z.div_mod_unique B (of_digits B l) (of_digits B k) d e) as [E' <-]; [lia|lia|lia|].
  f_equal. apply IH; (done || lia).
Qed.

(** Digits by repeated division, least significant first. *)
Fixpoint digits_le (fuel : nat) (x : Z) : list Z :=
  match fuel with
  | O => []
  | S fuel' => if x >? 0 then x mod B :: digits_le fuel' (x / B) else []
  end.

Lemma digits_le_spec f x :
  0 <= x < 2 ^ Z.of_nat f ->
  digits B (rev (digits_le f x)) /\ no_lead (rev (digits_le f x)) /\ of_digits B (rev (digits_le f x)) = x.
Proof using HB.
  revert x. induction f as [|f IH]; intros x Hx; [change (2 ^ Z.of_nat 0) with 1 in Hx|].
  - assert (x = 0) as -> by lia. done.
  - rewrite Nat2Z.inj_succ, Z.pow_succ_r in Hx by lia. cbn [digits_le].
    destruct (Z.gtb_spec x 0); [|by assert (x = 0) as -> by lia].
    pose proof (Z.div_mod x B ltac:(lia)). pose proof (Z.mod_pos_bound x B ltac:(lia)).
    pose proof (Z.div_pos x B ltac:(lia) ltac:(lia)).
    destruct (IH (x / B)) as (I1 & I2 & I3); [split; [lia|apply Z.div_lt_upper_bound; nia]|].
    cbn [rev]. rewrite of_digits_snoc, I3. split; [|split; [|lia]].
    + apply Forall_app. split; [done|]. by apply Forall_singleton.
    + destruct (rev (digits_le f (x / B))) as [|e l] eqn:E; [|done]. cbn.
      change (of_digits B []) with 0 in I3. lia.
Qed.
End positional.

Lemma count_zeros_split l : exists k, l = replicate (count_while 0 l) 0 ++ k /\ no_lead k.
Proof.
  induction l as [|d l (k & E & Hk)]; [by exists []|]. cbn [count_while].
  destruct (Z.eqb_spec d 0) as [->|]; [|by exists (d :: l)]. exists k. split; [|done]. cbn. by rewrite <- E.
Qed.

Lemma count_zeros_app n k : no_lead k -> count_while 0 (replicate n 0 ++ k) = n.
Proof.
  intros Hk. induction n as [|n IH]; cbn; [|by rewrite IH].
  destruct k as [|d k]; [done|]. cbn. by destruct (Z.eqb_spec d 0).
Qed.

(** [big.Int.Bytes] has no leading zero. *)
Lemma big_Bytes_digits z :
  0 <= z -> digits 256 (big_Bytes z) /\ no_lead (big_Bytes z) /\ of_digits 256 (big_Bytes z) = z.
Proof.
  intros Hz. pose proof (be_decode_big_Bytes z Hz) as Hv.
  assert (bytes_ok (big_Bytes z)) as Hok by apply be_encode_ok. split; [exact Hok|]. split; [|exact Hv].
  destruct (big_Bytes z) as [|d l] eqn:E; [done|]. intros ->.
  assert (be_decode l = z) as Hl by exact Hv.
  pose proof (be_decode_range l ltac:(by inversion Hok)) as [_ Hlt]. rewrite Hl in Hlt.
  assert (len (big_Bytes z) = 1 + len l) as Hlen by by rewrite E, len_cons.
  unfold len in Hlen at 1. unfold big_Bytes in Hlen. rewrite length_be_encode in Hlen.
  assert (BitLen z <= 8 * len l).
  { apply BitLen_le; [pose proof (len_nonneg l); lia|done|]. rewrite Z.pow_mul_r by (pose proof (len_nonneg l); lia). done. }
  pose proof (len_nonneg l). assert (0 <= BitLen z) by (unfold BitLen; case_if; pose proof (Z.log2_nonneg (Z.abs z)); lia).
  pose proof (Z.div_pos (BitLen z + 7) 8 ltac:(lia) ltac:(lia)).
  assert ((BitLen z + 7) / 8 < len l + 1) by (apply Z.div_lt_upper_bound; lia). lia.
Qed.

Module Base58.

Definition alphabet : bytes :=
  string_bytes "123456789ABCDEFGHJKLMNPQRSTUVWXYZabcdefghijkmnopqrstuvwxyz".
Definition alphabetIdx0 : Z := 49.

Definition b58 : list Z :=
  [255; 255; 255; 255; 255; 255; 255; 255;
   255; 255; 255; 255; 255; 255; 255; 255;
   255; 255; 255; 255; 255; 255; 255; 255;
   255; 255; 255; 255; 255; 255; 255; 255;
   255; 255; 255; 255; 255; 255; 255; 255;
   255; 255; 255; 255; 255; 255; 255; 255;
   255; 0; 1; 2; 3; 4; 5; 6;
   7; 8; 255; 255; 255; 255; 255; 255;
   255; 9; 10; 11; 12; 13; 14; 15;
   16; 255; 17; 18; 19; 20; 21; 255;
   22; 23; 24; 25; 26; 27; 28; 29;
   30; 31; 32; 255; 255; 255; 255; 255;
   255; 33; 34; 35; 36; 37; 38; 39;
   40; 41; 42; 43; 255; 44; 45; 46;
   47; 48; 49; 50; 51; 52; 53; 54;
   55; 56; 57; 255; 255; 255; 255; 255;
   255; 255; 255; 255; 255; 255; 255; 255;
   255; 255; 255; 255; 255; 255; 255; 255;
   255; 255; 255; 255; 255; 255; 255; 255;
   255; 255; 255; 255; 255; 255; 255; 255;
   255; 255; 255; 255; 255; 255; 255; 255;
   255; 255; 255; 255; 255; 255; 255; 255;
   255; 255; 255; 255; 255; 255; 255; 255;
   255; 255; 255; 255; 255; 255; 255; 255;
   255; 255; 255; 255; 255; 255; 255; 255;
   255; 255; 255; 255; 255; 255; 255; 255;
   255; 255; 255; 255; 255; 255; 255; 255;
   255; 255; 255; 255; 255; 255; 255; 255;
   255; 255; 255; 255; 255; 255; 255; 255;
   255; 255; 255; 255; 255; 255; 255; 255;
   255; 255; 255; 255; 255; 255; 255; 255;
   255; 255; 255; 255; 255; 255; 255; 255].

(** The loop of Decode runs from the last character to the first; [None] is its early return. *)
Fixpoint decode_loop {E} (rev_b : bytes) (answer j : Z) : outcome E (option Z) :=
  match rev_b with
  | [] => Ret (Some answer)
  | c :: rest =>
      tmp ← index b58 c;
      if tmp =? 255 then Ret None else decode_loop rest (answer + j * tmp) (j * 58)
  end.

Definition Decode {E} (b : bytes) : outcome E bytes :=
  r ← decode_loop (rev b) 0 1;
  match r with
  | None => Ret []
  | Some answer =>
      let tmpval := big_Bytes answer in
      let numZeros := count_while alphabetIdx0 b in
      Ret (replicate numZeros 0 ++ tmpval)
  end.

(** The digits, least significant first. *)
Fixpoint encode_loop {E} (fuel : nat) (x : Z) : outcome E bytes :=
  match fuel with
  | O => Ret []
  | S fuel' =>
      if x >? 0 then
        c ← index alphabet (x mod 58);
        rest ← encode_loop fuel' (x / 58);
        Ret (c :: rest)
      else Ret []
  end.

(** The value of [b] is divided at most [BitLen x] times. *)
Definition Encode {E} (b : bytes) : outcome E bytes :=
  let x := be_decode b in
  answer ← encode_loop (Z.to_nat (BitLen x)) x;
  Ret (rev (answer ++ replicate (count_while 0 b) alphabetIdx0)).

Inductive error : Set := ErrChecksum | ErrInvalidFormat.

Section check.
Context {HF : HashFunctions}.

Definition checksum (input : bytes) : bytes := take 4 (sha256_Sum256 (sha256_Sum256 input)).

Definition CheckEncode {E} (input : bytes) (version : Z) : outcome E bytes :=
  let b := [version] ++ input in
  let b := b ++ checksum b in
  Encode b.

Definition CheckDecode (input : bytes) : outcome error (bytes * Z) :=
  decoded ← Decode input;
  if len decoded <? 5 then Err ErrInvalidFormat
  else
    version ← index decoded 0;
    cksum ← slice decoded (len decoded - 4) (len decoded);
    body ← slice decoded 0 (len decoded - 4);
    if negb (bytes_Equal (checksum body) cksum) then Err ErrChecksum
    else
      payload ← slice decoded 1 (len decoded - 4);
      Ret (payload, version).
End check.

Example encode_sample : Encode (E := error) [0; 0; 98; 99] = Ret (string_bytes "118VG").
Proof. vm_compute. reflexivity. Qed.
Example decode_sample : Decode (E := error) (string_bytes "118VG") = Ret [0; 0; 98; 99].
Proof. vm_compute. reflexivity. Qed.
Example decode_bad : Decode (E := error) (string_bytes "0OIl") = Ret [].
Proof. vm_compute. reflexivity. Qed.

(** ** The alphabet and its inverse table *)

Definition chr (i : Z) : Z := nth (Z.to_nat i) alphabet 0.

(** Facts about the 58 digits and the 256 bytes are checked one by one. *)
Lemma forall_below (n : Z) (P : Z -> bool) :
  forallb P (seqZ 0 n) = true -> forall i, 0 <= i < n -> P i = true.
Proof. rewrite forallb_forall. intros H i Hi. apply H, list_elem_of_In, elem_of_seqZ. lia. Qed.

Definition chr_check (i : Z) : bool :=
  bool_decide (alphabet !! Z.to_nat i = Some (chr i)) && bool_decide (b58 !! Z.to_nat (chr i) = Some i) &&
  (0 <=? chr i) && Bool.eqb (chr i =? alphabetIdx0) (i =? 0).

Lemma chr_spec {E} i : 0 <= i < 58 ->
  index (E := E) alphabet i = Ret (chr i) /\ index (E := E) b58 (chr i) = Ret i /\ (chr i = alphabetIdx0 <-> i = 0).
Proof.
  intros Hi. pose proof (forall_below 58 chr_check ltac:(vm_compute; reflexivity) i Hi) as H.
  unfold chr_check in H. bool_to_prop. rewrite !index_Ret. split; [split; [lia|done]|]. split; [done|].
  rewrite <- !Z.eqb_eq. apply eq_iff_eq_true, Bool.eqb_prop. done.
Qed.

Definition b58_check (c : Z) : bool :=
  match b58 !! Z.to_nat c with
  | Some t => (t =? 255) || ((0 <=? t) && (t <? 58) && (chr t =? c))
  | None => false
  end.

Lemma b58_spec {E} c : is_byte c ->
  exists t, index (E := E) b58 c = Ret t /\ (t = 255 \/ (0 <= t < 58 /\ chr t = c)).
Proof.
  intros Hc. pose proof (forall_below 256 b58_check ltac:(vm_compute; reflexivity) c Hc) as H.
  unfold b58_check in H.
  destruct (b58 !! Z.to_nat c) as [t|] eqn:E1; [|done]. exists t. split; [apply index_Ret; split; [apply Hc|done]|].
  destruct (Z.eqb_spec t 255); [by left|right]. cbn [orb] in H. bool_to_prop. lia.
Qed.

(** The strings over the alphabet are the images of digit lists. *)
Lemma count_ones ds : digits 58 ds -> count_while alphabetIdx0 (map chr ds) = count_while 0 ds.
Proof.
  induction 1 as [|d ds Hd Hds IH]; [done|]. cbn [map count_while]. rewrite IH.
  destruct (chr_spec (E := unit) d Hd) as (_ & _ & Hz).
  destruct (Z.eqb_spec (chr d) alphabetIdx0), (Z.eqb_spec d 0); (done || tauto).
Qed.

Lemma encode_loop_spec {E} f x : 0 <= x -> encode_loop (E := E) f x = Ret (map chr (digits_le 58 f x)).
Proof.
  revert x. induction f as [|f IH]; intros x Hx; [done|]. cbn [encode_loop digits_le].
  destruct (Z.gtb_spec x 0); [|done].
  destruct (chr_spec (E := E) (x mod 58) (Z.mod_pos_bound x 58 ltac:(lia))) as (-> & _).
  cbn [mbind outcome_bind]. rewrite IH by (apply Z.div_pos; lia). done.
Qed.

Lemma decode_loop_spec {E} ds a j : digits 58 ds ->
  decode_loop (E := E) (rev (map chr ds)) a j = Ret (Some (a + j * of_digits 58 ds)).
Proof.
  revert a j. induction ds as [|d ds IH] using rev_ind; intros a j Hd.
  - cbn. f_equal. f_equal. change (of_digits 58 []) with 0. lia.
  - rewrite Forall_app, Forall_singleton in Hd. destruct Hd as [Hds Hd].
    rewrite map_app, rev_app_distr. cbn [map rev app decode_loop].
    destruct (chr_spec (E := E) d Hd) as (_ & -> & _). cbn [mbind outcome_bind].
    destruct (Z.eqb_spec d 255); [lia|]. rewrite IH by done. rewrite of_digits_snoc. f_equal. f_equal. lia.
Qed.

Lemma map_replicate (f : Z -> Z) n x : map f (replicate n x) = replicate n (f x).
Proof. induction n as [|n IH]; [done|]. cbn. by rewrite IH. Qed.

Lemma rev_replicate n (x : Z) : rev (replicate n x) = replicate n x.
Proof.
  induction n as [|n IH]; [done|]. cbn [replicate rev]. rewrite IH.
  change [x] with (replicate 1 x). rewrite <- replicate_add. by rewrite Nat.add_comm.
Qed.

(** Both directions change the base of the part without leading zeros and keep their number. *)
Lemma Encode_digits {E} b : bytes_ok b ->
  exists ds, digits 58 ds /\ no_lead ds /\ of_digits 58 ds = be_decode b /\
    Encode (E := E) b = Ret (map chr (replicate (count_while 0 b) 0 ++ ds)).
Proof.
  intros Hb. pose proof (be_decode_range b Hb) as [Hx _]. set (f := Z.to_nat (BitLen (be_decode b))).
  assert (0 <= BitLen (be_decode b)) by (unfold BitLen; case_if; pose proof (Z.log2_nonneg (Z.abs (be_decode b))); lia).
  assert (be_decode b < 2 ^ Z.of_nat f) as Hlt by (unfold f; rewrite Z2Nat.id by done; by apply BitLen_le).
  destruct (digits_le_spec 58 ltac:(lia) f (be_decode b) ltac:(lia)) as (H1 & H2 & H3).
  exists (rev (digits_le 58 f (be_decode b))). split; [done|]. split; [done|]. split; [done|].
  unfold Encode. fold f. rewrite encode_loop_spec by done. cbn [mbind outcome_bind].
  rewrite rev_app_distr, map_app, map_rev.
  by rewrite map_replicate, rev_replicate.
Qed.

Lemma Decode_digits {E} ds : digits 58 ds ->
  Decode (E := E) (map chr ds) = Ret (replicate (count_while 0 ds) 0 ++ big_Bytes (of_digits 58 ds)).
Proof.
  intros Hd. unfold Decode. rewrite decode_loop_spec by done. cbn [mbind outcome_bind].
  rewrite count_ones by done. by rewrite Z.add_0_l, Z.mul_1_l.
Qed.

(** A change of base of a list of digits, keeping its leading zeros, is undone by the change
    back. *)
Lemma rebase B C l m :
  2 <= B -> 2 <= C -> digits B l -> digits C m -> no_lead m -> of_digits C m = of_digits B l ->
  forall k, digits B k -> no_lead k -> of_digits B k = of_digits C (replicate (count_while 0 l) 0 ++ m) ->
  replicate (count_while 0 (replicate (count_while 0 l) 0 ++ m)) 0 ++ k = l.
Proof.
  intros HB HC Hl Hm Nm E k Hk Nk Ek. rewrite count_zeros_app by done. rewrite of_digits_zeros in Ek by done.
  destruct (count_zeros_split l) as (t & Et & Nt). rewrite Et at 2. f_equal.
  rewrite Et, Forall_app in Hl. apply (digits_unique B HB); [done|apply Hl|done|done|].
  rewrite Ek, E. transitivity (of_digits B (replicate (count_while 0 l) 0 ++ t)); [by rewrite <- Et|by apply of_digits_zeros].
Qed.

Definition in_alphabet (c : Z) : Prop := c ∈ alphabet.
#[global] Instance in_alphabet_dec c : Decision (in_alphabet c).
Proof. unfold in_alphabet. apply _. Defined.

Lemma in_alphabet_chr c : in_alphabet c <-> exists i, 0 <= i < 58 /\ c = chr i.
Proof.
  unfold in_alphabet. rewrite list_elem_of_lookup. split.
  - intros (n & Hn). exists (Z.of_nat n). pose proof (lookup_lt_Some _ _ _ Hn) as Hlt.
    change (length alphabet) with 58%nat in Hlt. split; [lia|]. unfold chr. rewrite Nat2Z.id.
    symmetry. by apply nth_lookup_Some.
  - intros (i & Hi & ->). exists (Z.to_nat i).
    destruct (chr_spec (E := unit) i Hi) as (H & _). by apply index_Ret in H as [_ H].
Qed.

Lemma in_alphabet_digits s : Forall in_alphabet s -> exists ds, digits 58 ds /\ s = map chr ds.
Proof.
  induction 1 as [|c s (i & Hi & ->)%in_alphabet_chr Hs (ds & Hds & ->)]; [by exists []|].
  exists (i :: ds). split; [by constructor|done].
Qed.

(** The length of an encoding. *)
Lemma Encode_length {E} b s : bytes_ok b -> Encode (E := E) b = Ret s -> len s <= 2 * len b.
Proof.
  intros Hb He. destruct (Encode_digits (E := E) b Hb) as (ds & Hds & Nds & Hv & E1). rewrite E1 in He. injection He as <-.
  destruct (count_zeros_split b) as (t & Et & Nt).
  assert (len b = Z.of_nat (count_while 0 b) + len t) as Hlb.
  { rewrite Et at 1. rewrite len_app. unfold len at 1. by rewrite length_replicate. }
  assert (of_digits 58 ds < 256 ^ len t) as Hlt.
  { rewrite Hv, Et. change (be_decode (replicate (count_while 0 b) 0 ++ t)) with (of_digits 256 (replicate (count_while 0 b) 0 ++ t)).
    rewrite of_digits_zeros by lia. rewrite Et, Forall_app in Hb. apply of_digits_lt; [lia|apply Hb]. }
  assert (len ds <= 2 * len t) as Hld.
  { destruct ds as [|d l]; [pose proof (len_nonneg t); change (len (@nil Z)) with 0; lia|]. rewrite len_cons.
    rewrite of_digits_head in Hlt by lia. inversion Hds as [|? ? Hd Hl]; subst. cbn in Nds.
    pose proof (of_digits_nonneg 58 ltac:(lia) l Hl). pose proof (len_nonneg l). pose proof (len_nonneg t).
    assert (58 ^ len l < 58 ^ (2 * len t)) as Hp.
    { eapply Z.le_lt_trans with (of_digits 58 l + d * 58 ^ len l); [assert (0 < 58 ^ len l) by lia; nia|].
      eapply Z.lt_le_trans with (256 ^ len t); [lia|]. rewrite Z.pow_mul_r by lia. apply Z.pow_le_mono_l. lia. }
    apply Z.pow_lt_mono_r_iff in Hp; lia. }
  unfold len at 1. rewrite length_map, length_app, length_replicate. unfold len in *. lia.
Qed.

Lemma Decode_Encode {E} b : bytes_ok b -> exists s, Encode (E := E) b = Ret s /\ Decode (E := E) s = Ret b.
Proof.
  intros Hb. destruct (Encode_digits (E := E) b Hb) as (ds & Hds & Nds & Hv & ->).
  eexists. split; [done|].
  assert (digits 58 (replicate (count_while 0 b) 0 ++ ds)) as Hd.
  { apply Forall_app. split; [apply Forall_replicate; lia|done]. }
  rewrite Decode_digits by done. f_equal.
  pose proof (of_digits_nonneg 58 ltac:(lia) _ Hd) as H0.
  destruct (big_Bytes_digits _ H0) as (H1 & H2 & H3).
  apply (rebase 256 58); [lia|lia|exact Hb|done|done|done|exact H1|exact H2|exact H3].
Qed.

Lemma Encode_Decode {E} s : Forall in_alphabet s ->
  exists b, bytes_ok b /\ Decode (E := E) s = Ret b /\ Encode (E := E) b = Ret s.
Proof.
  intros Hs. destruct (in_alphabet_digits s Hs) as (ds & Hds & ->).
  pose proof (of_digits_nonneg 58 ltac:(lia) _ Hds) as H0. destruct (big_Bytes_digits _ H0) as (H1 & H2 & H3).
  rewrite Decode_digits by done. eexists. split; [|split; [done|]].
  { apply Forall_app. split; [apply Forall_replicate; unfold is_byte; lia|exact H1]. }
  set (b := replicate (count_while 0 ds) 0 ++ big_Bytes (of_digits 58 ds)).
  assert (bytes_ok b) as Hb.
  { apply Forall_app. split; [apply Forall_replicate; unfold is_byte; lia|exact H1]. }
  destruct (Encode_digits (E := E) b Hb) as (es & Hes & Nes & Hv & ->). f_equal. f_equal.
  apply (rebase 58 256 ds); [lia|lia|done|exact H1|exact H2|exact H3|exact Hes|exact Nes|].
  rewrite Hv. done.
Qed.

(** A character outside the alphabet empties the result. *)
Lemma Decode_invalid {E} s : bytes_ok s -> ~ Forall in_alphabet s -> Decode (E := E) s = Ret [].
Proof.
  intros Hs Hbad. unfold Decode. enough (forall a j, decode_loop (E := E) (rev s) a j = Ret None) as ->; [done|].
  assert (~ Forall in_alphabet (rev s)) as Hbad' by (intros H; apply Hbad; rewrite <- (rev_involutive s); by apply Forall_rev).
  apply Forall_rev in Hs. clear Hbad. revert Hs Hbad'. generalize (rev s). clear s.
  induction l as [|c l IH]; intros Hl Hbad a j; [by destruct Hbad|]. cbn [decode_loop].
  inversion Hl as [|? ? Hc Hl']; subst. destruct (b58_spec (E := E) c Hc) as (t & -> & Ht). cbn [mbind outcome_bind].
  destruct (Z.eqb_spec t 255) as [|Hne]; [done|]. apply IH; [done|]. intros HF. apply Hbad. constructor; [|done].
  destruct Ht as [|[Ht <-]]; [done|]. apply in_alphabet_chr. by exists t.
Qed.

Lemma Encode_inj {E} b c s : bytes_ok b -> bytes_ok c -> Encode (E := E) b = Ret s -> Encode (E := E) c = Ret s -> b = c.
Proof.
  intros Hb Hc E1 E2. destruct (Decode_Encode (E := E) b Hb) as (s1 & H1 & D1), (Decode_Encode (E := E) c Hc) as (s2 & H2 & D2).
  congruence.
Qed.

Section check_props.
Context {HF : HashFunctions}.

Lemma checksum_length b : length (checksum b) = 4%nat.
Proof. unfold checksum. rewrite length_take, sha256_length. done. Qed.

Lemma checksum_ok b : bytes_ok (checksum b).
Proof. apply Forall_take, sha256_bytes_ok. Qed.

(** CheckDecode on the decoded bytes: a body of at least one byte and its checksum. *)
Lemma CheckDecode_app s v p c :
  Decode (E := error) s = Ret ((v :: p) ++ c) -> length c = 4%nat ->
  CheckDecode s = if bool_decide (checksum (v :: p) = c) then Ret (p, v) else Err ErrChecksum.
Proof.
  intros Hd Hc. unfold CheckDecode. rewrite Hd. cbn [mbind outcome_bind].
  assert (len c = 4) as Lc by (unfold len; lia). rewrite len_app, len_cons, Lc. pose proof (len_nonneg p).
  destruct (Z.ltb_spec (1 + len p + 4) 5); [lia|].
  assert (len ((v :: p) ++ c) = 1 + len p + 4) as L by (rewrite len_app, len_cons; lia).
  rewrite !slice_Ret by lia. cbn [index mbind outcome_bind].
  replace (Z.to_nat (1 + len p + 4 - 4)) with (length (v :: p)) by (cbn [length]; unfold len; lia).
  replace (Z.to_nat (1 + len p + 4 - 4 - 0)) with (length (v :: p)) by (cbn [length]; unfold len; lia).
  replace (Z.to_nat (1 + len p + 4 - (1 + len p + 4 - 4))) with (length c) by lia.
  rewrite drop_app_length. change (Z.to_nat 0) with 0%nat. rewrite drop_0, take_app_length, take_ge by lia.
  change (index (E := error) ((v :: p) ++ c) 0) with (@Ret error Z v). cbn [mbind outcome_bind].
  unfold bytes_Equal. case_bool_decide; [|done]. cbn [negb].
  change (Z.to_nat 1) with 1%nat. cbn [drop app]. do 2 f_equal.
  replace (Z.to_nat (1 + len p + 4 - 4 - 1)) with (length p) by (unfold len; lia). apply take_app_length.
Qed.

Lemma long_split (b : bytes) : len b < 5 \/ exists v p c, b = (v :: p) ++ c /\ length c = 4%nat.
Proof.
  destruct (decide (len b < 5)) as [|Hl]; [by left|right]. unfold len in Hl.
  destruct b as [|v b]; [cbn in Hl; lia|]. exists v, (take (length b - 4) b), (drop (length b - 4) b).
  cbn [app]. rewrite take_drop, length_drop. cbn [length] in Hl. split; [done|lia].
Qed.

(** Base58 strings with a checksum round-trip, and are canonical.  Encoding always succeeds, and what it
    returns decodes to the same payload and version; conversely a string that decodes is the
    encoding of what it decodes to, so a payload has exactly one string; and no string makes the
    decoder panic. *)
Theorem CheckEncode_roundtrip (p : bytes) (v : Z) (s : bytes) :
  bytes_ok (v :: p) -> bytes_ok s ->
  (exists t, CheckEncode (E := error) p v = Ret t /\ CheckDecode t = Ret (p, v)) /\
  (CheckDecode s = Ret (p, v) -> CheckEncode (E := error) p v = Ret s) /\
  CheckDecode s <> Panic.
Proof.
  intros Hp Hs.
  assert (bytes_ok ((v :: p) ++ checksum (v :: p))) as Hb by (apply Forall_app; split; [done|apply checksum_ok]).
  destruct (Decode_Encode (E := error) _ Hb) as (t & He & Hd). split; [|].
  { exists t. split; [exact He|]. rewrite (CheckDecode_app t v p _ Hd (checksum_length _)).
    by rewrite bool_decide_eq_true_2. }
  destruct (decide (Forall in_alphabet s)) as [Ha|Ha].
  - destruct (Encode_Decode (E := error) s Ha) as (b & Hbok & Hdec & Henc).
    destruct (long_split b) as [Hsh|(v' & p' & c & -> & Hc)].
    + unfold CheckDecode. rewrite Hdec. cbn [mbind outcome_bind]. by destruct (Z.ltb_spec (len b) 5); [|lia].
    + rewrite (CheckDecode_app s v' p' c Hdec Hc). case_bool_decide as Heq; [|done].
      split; [|done]. intros [= -> ->]. unfold CheckEncode. cbn [app]. rewrite Heq. exact Henc.
  - unfold CheckDecode. rewrite Decode_invalid by done. done.
Qed.
End check_props.

Lemma CheckEncode_roundtrip_witness :
  exists t, CheckEncode (HF := Sha.concrete) (E := error) [1; 2; 3] 0 = Ret t /\ t = string_bytes "13DV5niCGP" /\
    CheckDecode (HF := Sha.concrete) t = Ret ([1; 2; 3], 0).
Proof.
  destruct (CheckEncode_roundtrip (HF := Sha.concrete) [1; 2; 3] 0 []) as ((t & He & Hd) & _); [solve_bytes|solve_bytes|].
  exists t. split; [exact He|]. split; [|exact Hd].
  assert (Ret (E := error) t = Ret (string_bytes "13DV5niCGP")) as [=] by (rewrite <- He; vm_compute; reflexivity).
  assumption.
Defined.

End Base58.
