(* ===== verification/Bech32.v ===== *)
(** Bech32: the text encoding of massutil/bech32.  Go strings are byte slices. *)

From S2P Require Import Prelude Base58.

Module Bech32.

Inductive error : Set :=
| ErrLength (n : Z) | ErrCharacter (c : Z) | ErrMixedCase | ErrSeparator | ErrNotInCharset (c : Z) | ErrChecksum
| ErrDataByte (b : Z) | ErrBitGroups | ErrIncompleteGroup.

Definition charset : bytes := string_bytes "qpzry9x8gf2tvdw0s3jn54khce6mua7l".
Definition gen : list Z := [0x3b6a57b2; 0x26508e6d; 0x1ea119fa; 0x3d4233dd; 0x2a1462b3].

(** strings.ToLower and ToUpper on ASCII, strings.IndexByte and LastIndexByte. *)
Definition lower (c : Z) : Z := if (65 <=? c) && (c <=? 90) then c + 32 else c.
Definition upper (c : Z) : Z := if (97 <=? c) && (c <=? 122) then c - 32 else c.
Definition ToLower (s : bytes) : bytes := map lower s.
Definition ToUpper (s : bytes) : bytes := map upper s.

Fixpoint IndexByte (s : bytes) (c : Z) : Z :=
  match s with
  | [] => -1
  | x :: s' => if x =? c then 0 else let i := IndexByte s' c in if i <? 0 then -1 else i + 1
  end.

Fixpoint LastIndexByte (s : bytes) (c : Z) : Z :=
  match s with
  | [] => -1
  | x :: s' =>
      let i := LastIndexByte s' c in
      if i <? 0 then if x =? c then 0 else -1 else i + 1
  end.

Fixpoint toBytes (chars : bytes) : outcome error bytes :=
  match chars with
  | [] => Ret []
  | c :: rest =>
      let i := IndexByte charset c in
      if i <? 0 then Err (ErrNotInCharset c) else decoded ← toBytes rest; Ret (uint8 i :: decoded)
  end.

Fixpoint toChars (data : bytes) : outcome error bytes :=
  match data with
  | [] => Ret []
  | b :: rest =>
      if b >=? len charset then Err (ErrDataByte b)
      else c ← index charset b; result ← toChars rest; Ret (c :: result)
  end.

(** ** Checksum *)

(** One round of the inner loop over the generator, from bit [i] on. *)
Fixpoint apply_gen (b : Z) (i : Z) (gen : list Z) (chk : Z) : Z :=
  match gen with
  | [] => chk
  | g :: rest => apply_gen b (i + 1) rest (if Z.land (Z.shiftr b i) 1 =? 1 then Z.lxor chk g else chk)
  end.

Definition polymod_step (chk v : Z) : Z :=
  let b := Z.shiftr chk 25 in
  apply_gen b 0 gen (Z.lxor (Z.shiftl (Z.land chk 0x1ffffff) 5) v).

Definition bech32Polymod (values : list Z) : Z := fold_left polymod_step values 1.

Definition bech32HrpExpand (hrp : bytes) : list Z :=
  map (fun c => Z.shiftr c 5) hrp ++ [0] ++ map (fun c => Z.land c 31) hrp.

Definition bech32Checksum (hrp : bytes) (data : bytes) : bytes :=
  let values := bech32HrpExpand hrp ++ data ++ [0; 0; 0; 0; 0; 0] in
  let polymod := Z.lxor (bech32Polymod values) 1 in
  map (fun i => uint8 (Z.land (Z.shiftr polymod (5 * (5 - i))) 31)) [0; 1; 2; 3; 4; 5].

Definition bech32VerifyChecksum (hrp : bytes) (data : bytes) : bool :=
  bech32Polymod (bech32HrpExpand hrp ++ data) =? 1.

(** ** Strings *)

Fixpoint check_chars (s : bytes) : outcome error unit :=
  match s with
  | [] => Ret tt
  | c :: s' => if (c <? 33) || (c >? 126) then Err (ErrCharacter c) else check_chars s'
  end.

Definition Decode (bech : bytes) : outcome error (bytes * bytes) :=
  if (len bech <? 8) || (len bech >? 90) then Err (ErrLength (len bech))
  else
    check_chars bech;;
    let lower := ToLower bech in
    let upper := ToUpper bech in
    if negb (bytes_Equal bech lower) && negb (bytes_Equal bech upper) then Err ErrMixedCase
    else
      let bech := lower in
      let one := LastIndexByte bech 49 in
      if (one <? 1) || (one + 7 >? len bech) then Err ErrSeparator
      else
        hrp ← slice bech 0 one;
        data ← slice bech (one + 1) (len bech);
        decoded ← toBytes data;
        body ← slice decoded 0 (len decoded - 6);
        if negb (bech32VerifyChecksum hrp decoded) then Err ErrChecksum
        else Ret (hrp, body).

Definition Encode (hrp : bytes) (data : bytes) : outcome error bytes :=
  let combined := data ++ bech32Checksum hrp data in
  dataChars ← toChars combined;
  Ret (hrp ++ [49] ++ dataChars).

(** ** Bit groups *)

(** The state of the loops of ConvertBits. *)
Record groups := mkGroups { regrouped : bytes; nextByte : Z; filledBits : Z }.

(** The inner loop extracts at least one bit per iteration, so at most [fromBits] of them. *)
Fixpoint extract_loop (fuel : nat) (toBits : Z) (b remFromBits : Z) (g : groups) : groups :=
  match fuel with
  | O => g
  | S fuel' =>
      if remFromBits >? 0 then
        let remToBits := uint8 (toBits - filledBits g) in
        let toExtract := if remToBits <? remFromBits then remToBits else remFromBits in
        let next := Z.lor (uint8 (Z.shiftl (nextByte g) toExtract)) (Z.shiftr b (8 - toExtract)) in
        let b := uint8 (Z.shiftl b toExtract) in
        let filled := uint8 (filledBits g + toExtract) in
        let g := if filled =? toBits then mkGroups (regrouped g ++ [next]) 0 0
                 else mkGroups (regrouped g) next filled in
        extract_loop fuel' toBits b (uint8 (remFromBits - toExtract)) g
      else g
  end.

Fixpoint convert_loop (data : bytes) (fromBits toBits : Z) (g : groups) : groups :=
  match data with
  | [] => g
  | b :: rest =>
      let b := uint8 (Z.shiftl b (8 - fromBits)) in
      convert_loop rest fromBits toBits (extract_loop (Z.to_nat fromBits) toBits b fromBits g)
  end.

Definition ConvertBits (data : bytes) (fromBits toBits : Z) (pad : bool) : outcome error bytes :=
  if (fromBits <? 1) || (fromBits >? 8) || (toBits <? 1) || (toBits >? 8) then Err ErrBitGroups
  else
    let g := convert_loop data fromBits toBits (mkGroups [] 0 0) in
    let g := if pad && (filledBits g >? 0)
             then mkGroups (regrouped g ++ [uint8 (Z.shiftl (nextByte g) (toBits - filledBits g))]) 0 0
             else g in
    if (filledBits g >? 0) && ((filledBits g >? 4) || negb (nextByte g =? 0)) then Err ErrIncompleteGroup
    else Ret (regrouped g).

(** The example strings of BIP 173. *)
Example decode_bip173 : Decode (string_bytes "A12UEL5L") = Ret (string_bytes "a", []).
Proof. vm_compute. reflexivity. Qed.
Example decode_bip173_long :
  Decode (string_bytes "abcdef1qpzry9x8gf2tvdw0s3jn54khce6mua7lmqqqxw") = Ret (string_bytes "abcdef", seqZ 0 32).
Proof. vm_compute. reflexivity. Qed.
Example encode_bip173 : Encode (string_bytes "a") [] = Ret (string_bytes "a12uel5l").
Proof. vm_compute. reflexivity. Qed.
Example convert_sample : ConvertBits [255; 1] 8 5 true = Ret [31; 28; 0; 16].
Proof. vm_compute. reflexivity. Qed.

(** ** The checksum as a linear code *)

(** Five-bit groups. *)
Abbreviation quintets := (digits 32).

Lemma apply_gen_xor b i g x y : apply_gen b i g (Z.lxor x y) = Z.lxor (apply_gen b i g x) y.
Proof.
  revert i x. induction g as [|a g IH]; intros i x; cbn [apply_gen]; [done|]. rewrite <- IH.
  case_if; [|done]. f_equal. rewrite !Z.lxor_assoc. f_equal. apply Z.lxor_comm.
Qed.

Definition shift (c : Z) : Z := polymod_step c 0.

Lemma polymod_step_shift c v : polymod_step c v = Z.lxor (shift c) v.
Proof. unfold shift, polymod_step. cbn zeta. rewrite apply_gen_xor, (apply_gen_xor _ _ _ _ 0), Z.lxor_0_r. done. Qed.

Lemma land_1_testbit b i : 0 <= i -> (Z.land (Z.shiftr b i) 1 =? 1) = Z.testbit b i.
Proof.
  intros Hi. change 1 with (Z.ones 1) at 1. rewrite Z.land_ones, <- Z.bit0_mod by lia.
  rewrite Z.shiftr_spec, Z.add_0_l by lia. by destruct (Z.testbit b i).
Qed.

Lemma apply_gen_linear b c i g x y :
  0 <= i -> apply_gen (Z.lxor b c) i g (Z.lxor x y) = Z.lxor (apply_gen b i g x) (apply_gen c i g y).
Proof.
  revert i x y. induction g as [|a g IH]; intros i x y Hi; cbn [apply_gen]; [done|].
  rewrite <- IH by lia. f_equal. rewrite !land_1_testbit, Z.lxor_spec by done.
  destruct (Z.testbit b i), (Z.testbit c i); cbn [xorb]; rewrite ?Z.lxor_assoc; f_equal.
  - rewrite (Z.lxor_comm a), Z.lxor_assoc, Z.lxor_nilpotent, Z.lxor_0_r. done.
  - apply Z.lxor_comm.
Qed.

Lemma land_lxor_distr_l a b c : Z.land (Z.lxor a b) c = Z.lxor (Z.land a c) (Z.land b c).
Proof.
  apply Z.bits_inj'. intros i Hi. rewrite !Z.land_spec, !Z.lxor_spec, !Z.land_spec.
  by destruct (Z.testbit a i), (Z.testbit b i), (Z.testbit c i).
Qed.

Lemma shift_linear x y : shift (Z.lxor x y) = Z.lxor (shift x) (shift y).
Proof.
  unfold shift, polymod_step. cbn zeta. rewrite !Z.lxor_0_r, Z.shiftr_lxor, land_lxor_distr_l, Z.shiftl_lxor.
  by apply apply_gen_linear.
Qed.

(** Words of 30 bits. *)
Abbreviation word30 c := (0 <= c < 2 ^ 30).

Lemma lxor_range n a b : 0 <= n -> 0 <= a < 2 ^ n -> 0 <= b < 2 ^ n -> 0 <= Z.lxor a b < 2 ^ n.
Proof.
  intros Hn Ha Hb. assert (Z.lxor a b = Z.lxor a b mod 2 ^ n) as ->; [|apply Z.mod_pos_bound; lia].
  apply Z.bits_inj'. intros i Hi. destruct (decide (i < n)).
  - by rewrite Z.mod_pow2_bits_low by lia.
  - rewrite Z.mod_pow2_bits_high, Z.lxor_spec by lia.
    rewrite <- (Z.mod_small a (2 ^ n)), <- (Z.mod_small b (2 ^ n)) by lia.
    by rewrite !Z.mod_pow2_bits_high by lia.
Qed.

Lemma apply_gen_range b i g x : word30 x -> Forall (fun a => word30 a) g -> word30 (apply_gen b i g x).
Proof.
  intros Hx Hg. revert i x Hx. induction Hg as [|a g Ha Hg IH]; intros i x Hx; cbn [apply_gen]; [done|].
  apply IH. case_if; [apply lxor_range; lia|done].
Qed.

Lemma gen_range : Forall (fun a => word30 a) gen.
Proof. repeat constructor; vm_compute; (done || discriminate). Qed.

Lemma low25_spec c : 0 <= c -> Z.land c 0x1ffffff = c mod 2 ^ 25.
Proof. intros. change 0x1ffffff with (Z.ones 25). by rewrite Z.land_ones by lia. Qed.

Lemma shift_range c : word30 c -> word30 (shift c).
Proof.
  intros Hc. apply apply_gen_range; [|apply gen_range]. rewrite Z.lxor_0_r, low25_spec, Z.shiftl_mul_pow2 by lia.
  pose proof (Z.mod_pos_bound c (2 ^ 25) ltac:(lia)). lia.
Qed.

(** The generator part is injective already in its low five bits. *)
Definition gen_low_check (b : Z) : bool :=
  implb (Z.land (apply_gen b 0 gen 0) 31 =? 0) (b =? 0).

Lemma shift_zero c : word30 c -> shift c = 0 -> c = 0.
Proof.
  intros Hc. unfold shift, polymod_step. cbn zeta. rewrite Z.lxor_0_r, low25_spec, Z.shiftr_div_pow2 by lia.
  set (b := c / 2 ^ 25). set (l := c mod 2 ^ 25). intros H0.
  pose proof (Z.div_mod c (2 ^ 25) ltac:(lia)) as Hdm. fold b l in Hdm.
  assert (0 <= b < 32) as Hb by (split; [apply Z.div_pos|apply Z.div_lt_upper_bound]; lia).
  rewrite <- (Z.lxor_0_l (Z.shiftl l 5)), apply_gen_xor in H0. apply Z.lxor_eq in H0.
  pose proof (Base58.forall_below 32 gen_low_check ltac:(vm_compute; reflexivity) b Hb) as Hg.
  unfold gen_low_check in Hg. rewrite H0 in Hg.
  assert (Z.land (Z.shiftl l 5) 31 = 0) as Hz.
  { change 31 with (Z.ones 5). rewrite Z.land_ones, Z.shiftl_mul_pow2 by lia. apply Z.mod_mul. lia. }
  rewrite Hz in Hg. cbn in Hg. apply Z.eqb_eq in Hg. rewrite Hg in H0.
  change (apply_gen 0 0 gen 0) with 0 in H0.  rewrite Z.shiftl_mul_pow2 in H0 by lia. lia.
Qed.

(** The state after [n] zero groups. *)
Fixpoint shift_n (n : nat) (c : Z) : Z := match n with O => c | S n' => shift_n n' (shift c) end.

Lemma shift_n_linear n x y : shift_n n (Z.lxor x y) = Z.lxor (shift_n n x) (shift_n n y).
Proof. revert x y. induction n as [|n IH]; intros x y; cbn [shift_n]; [done|]. by rewrite shift_linear, IH. Qed.

Lemma shift_n_inj n x y : word30 x -> word30 y -> shift_n n x = shift_n n y -> x = y.
Proof.
  revert x y. induction n as [|n IH]; intros x y Hx Hy E; [done|]. cbn [shift_n] in E.
  apply IH in E; [|by apply shift_range..]. apply Z.lxor_eq. apply shift_zero; [by apply lxor_range|].
  by rewrite shift_linear, E, Z.lxor_nilpotent.
Qed.

Abbreviation poly := (fold_left polymod_step).

(** The code is affine in its state. *)
Lemma poly_affine vs c : poly vs c = Z.lxor (shift_n (length vs) c) (poly vs 0).
Proof.
  revert c. induction vs as [|v vs IH]; intros c; cbn [fold_left length shift_n]; [by rewrite Z.lxor_0_r|].
  rewrite IH, (IH (polymod_step 0 v)), !(polymod_step_shift _ v). change (shift 0) with 0.
  by rewrite Z.lxor_0_l, shift_n_linear, Z.lxor_assoc.
Qed.

Lemma poly_range vs c : word30 c -> quintets vs -> word30 (poly vs c).
Proof.
  intros Hc Hv. revert c Hc. induction Hv as [|v vs Hv Hvs IH]; intros c Hc; cbn [fold_left]; [done|].
  apply IH. rewrite polymod_step_shift. apply lxor_range; [lia|by apply shift_range|lia].
Qed.

(** Up to six groups fit in the state without reduction. *)
Lemma poly_small vs : quintets vs -> (length vs <= 6)%nat -> poly vs 0 = of_digits 32 vs /\ of_digits 32 vs < 32 ^ len vs.
Proof.
  induction vs as [|v vs IH] using rev_ind; intros Hv Hl; [done|].
  rewrite Forall_app, Forall_singleton in Hv. destruct Hv as [Hvs Hv]. rewrite length_app in Hl. cbn [length] in Hl.
  destruct (IH Hvs ltac:(lia)) as [E Hlt]. rewrite fold_left_app. cbn [fold_left]. rewrite E, of_digits_snoc.
  pose proof (of_digits_nonneg 32 ltac:(lia) vs Hvs). set (x := of_digits 32 vs) in *.
  rewrite len_app, len_one, Z.pow_add_r by (pose proof (len_nonneg vs); lia).
  split; [|lia]. assert (x < 2 ^ 25).
  { eapply Z.lt_le_trans; [exact Hlt|]. change (2 ^ 25) with (32 ^ 5). apply Z.pow_le_mono_r; [lia|unfold len; lia]. }
  rewrite polymod_step_shift. unfold shift, polymod_step. cbn zeta.
  rewrite low25_spec, Z.shiftr_div_pow2, Z.div_small, Z.mod_small by lia.
  change (apply_gen 0 0 gen (Z.lxor (Z.shiftl x 5) 0)) with (Z.lxor (Z.shiftl x 5) 0).
  rewrite Z.lxor_0_r, <- Z.add_nocarry_lxor; [by rewrite Z.shiftl_mul_pow2 by lia|].
  pose proof (lor_shiftl_add v x 5 ltac:(lia) ltac:(lia)) as Hor.
  pose proof (Z.add_lor_land v (Z.shiftl x 5)) as Hal. rewrite Hor, Z.land_comm in Hal.
  rewrite (Z.shiftl_mul_pow2 x 5) in Hal at 2 by lia. lia.
Qed.

(** Two words that differ in one window of at most six groups have different checksums. *)
Lemma poly_burst a w w' b c :
  word30 c -> quintets (a ++ w) -> quintets w' -> length w = length w' -> (length w <= 6)%nat ->
  poly (a ++ w ++ b) c = poly (a ++ w' ++ b) c -> w = w'.
Proof.
  intros Hc Haw Hw' Hlen H6 E. apply Forall_app in Haw as [Ha Hw]. rewrite !fold_left_app in E.
  pose proof (poly_range a c Hc Ha) as Hca. set (d := poly a c) in *.
  rewrite (poly_affine b (poly w d)), (poly_affine b (poly w' d)) in E.
  apply (f_equal (fun z => Z.lxor z (poly b 0))) in E. rewrite !Z.lxor_assoc, Z.lxor_nilpotent, !Z.lxor_0_r in E.
  apply shift_n_inj in E; [|by apply poly_range..].
  rewrite (poly_affine w), (poly_affine w'), Hlen in E.
  apply (f_equal (Z.lxor (shift_n (length w') d))) in E. rewrite <- !Z.lxor_assoc, Z.lxor_nilpotent, !Z.lxor_0_l in E.
  rewrite (proj1 (poly_small w Hw H6)), (proj1 (poly_small w' Hw' ltac:(lia))) in E.
  by apply (digits_same_length 32).
Qed.

(** ** What the checksum of a string is *)

Lemma quintet_spec x k : 0 <= x -> 0 <= k -> uint8 (Z.land (Z.shiftr x k) 31) = (x / 2 ^ k) mod 32.
Proof.
  intros. change 31 with (Z.ones 5). rewrite Z.land_ones, Z.shiftr_div_pow2 by lia. change (2 ^ 5) with 32.
  pose proof (Z.mod_pos_bound (x / 2 ^ k) 32 ltac:(lia)). apply wrapU_small. lia.
Qed.

(** A word is the number of its six groups. *)
Lemma six_quintets x : word30 x ->
  let ds := map (fun i => uint8 (Z.land (Z.shiftr x (5 * (5 - i))) 31)) [0; 1; 2; 3; 4; 5] in
  quintets ds /\ of_digits 32 ds = x.
Proof.
  intros Hx ds. unfold ds. cbn [map]. rewrite !quintet_spec by lia.
  repeat match goal with |- context [2 ^ (5 * (5 - ?i))] =>
    let r := eval vm_compute in (2 ^ (5 * (5 - i))) in change (2 ^ (5 * (5 - i))) with r end.
  split; [repeat constructor; apply Z.mod_pos_bound; lia|].
  unfold of_digits. cbn [fold_left]. rewrite Z.div_1_r.
  change 33554432 with (1048576 * 32). change 1048576 with (32768 * 32). change 32768 with (1024 * 32).
  change 1024 with (32 * 32) at 1 2 3 4. rewrite <- !Z.div_div by lia.
  set (q1 := x / 32). set (q2 := q1 / 32). set (q3 := q2 / 32). set (q4 := q3 / 32). set (q5 := q4 / 32).
  pose proof (Z.div_mod x 32 ltac:(lia)). pose proof (Z.div_mod q1 32 ltac:(lia)). pose proof (Z.div_mod q2 32 ltac:(lia)).
  pose proof (Z.div_mod q3 32 ltac:(lia)). pose proof (Z.div_mod q4 32 ltac:(lia)).
  assert (0 <= q5 < 32) as H5.
  { unfold q5, q4, q3, q2, q1. rewrite !Z.div_div by lia. split; [apply Z.div_pos|apply Z.div_lt_upper_bound]; lia. }
  rewrite (Z.mod_small q5 32) by lia. fold q1 in H. fold q2 in H0. fold q3 in H1. fold q4 in H2. fold q5 in H3. lia.
Qed.

Lemma hrp_quintets hrp : bytes_ok hrp -> quintets (bech32HrpExpand hrp).
Proof.
  intros Hh. unfold bech32HrpExpand. rewrite !Forall_app, !Forall_map, Forall_singleton. split; [|split; [lia|]].
  - eapply Forall_impl; [exact Hh|]. intros c Hc. unfold is_byte in Hc. rewrite Z.shiftr_div_pow2 by lia.
    split; [apply Z.div_pos; lia|]. apply Z.div_lt_upper_bound; lia.
  - eapply Forall_impl; [exact Hh|]. intros c _. change 31 with (Z.ones 5). rewrite Z.land_ones by lia.
    apply Z.mod_pos_bound. lia.
Qed.

Lemma checksum_spec hrp data : bytes_ok hrp -> quintets data ->
  quintets (bech32Checksum hrp data) /\ length (bech32Checksum hrp data) = 6%nat /\
  of_digits 32 (bech32Checksum hrp data) = Z.lxor (shift_n 6 (poly (bech32HrpExpand hrp ++ data) 1)) 1.
Proof.
  intros Hh Hd. unfold bech32Checksum, bech32Polymod. cbn zeta.
  assert (quintets (bech32HrpExpand hrp ++ data)) as Hq by (apply Forall_app; split; [by apply hrp_quintets|done]).
  assert (word30 (poly (bech32HrpExpand hrp ++ data) 1)) as Hw by (apply poly_range; [lia|done]).
  rewrite app_assoc, fold_left_app, (poly_affine [0; 0; 0; 0; 0; 0]).
  change (poly [0; 0; 0; 0; 0; 0] 0) with 0. rewrite Z.lxor_0_r.
  change (length [0; 0; 0; 0; 0; 0]) with 6%nat.
  set (c := poly (bech32HrpExpand hrp ++ data) 1) in *.
  assert (word30 (Z.lxor (shift_n 6 c) 1)) as H30.
  { apply lxor_range; [lia| |lia]. do 6 (cbn [shift_n]; apply shift_range in Hw). exact Hw. }
  destruct (six_quintets _ H30) as [H1 H2]. split; [exact H1|]. split; [done|exact H2].
Qed.

Lemma verify_checksum hrp data tail :
  bytes_ok hrp -> quintets data -> quintets tail -> length tail = 6%nat ->
  bech32VerifyChecksum hrp (data ++ tail) = true <-> tail = bech32Checksum hrp data.
Proof.
  intros Hh Hd Ht Hl. destruct (checksum_spec hrp data Hh Hd) as (Hq & Hlen & Hv).
  unfold bech32VerifyChecksum, bech32Polymod. rewrite Z.eqb_eq, app_assoc, fold_left_app, (poly_affine tail), Hl.
  rewrite (proj1 (poly_small tail Ht ltac:(lia))).
  set (c := shift_n 6 (poly (bech32HrpExpand hrp ++ data) 1)) in *. split; intros E.
  - apply (digits_same_length 32); [lia|done|done|lia|]. rewrite Hv, <- E, <- Z.lxor_assoc, Z.lxor_nilpotent.
    by rewrite Z.lxor_0_l.
  - rewrite E, Hv, <- Z.lxor_assoc, Z.lxor_nilpotent. done.
Qed.

(** ** The character set *)

Definition ch (i : Z) : Z := nth (Z.to_nat i) charset 0.

Definition ch_check (i : Z) : bool :=
  bool_decide (charset !! Z.to_nat i = Some (ch i)) && (IndexByte charset (ch i) =? i) &&
  (33 <=? ch i) && (ch i <=? 126) && negb (ch i =? 49) && (lower (ch i) =? ch i).

Lemma ch_spec i : 0 <= i < 32 ->
  charset !! Z.to_nat i = Some (ch i) /\ IndexByte charset (ch i) = i /\ 33 <= ch i <= 126 /\ ch i <> 49 /\
  lower (ch i) = ch i.
Proof.
  intros Hi. pose proof (Base58.forall_below 32 ch_check ltac:(vm_compute; reflexivity) i Hi) as H.
  unfold ch_check in H. bool_to_prop. tauto.
Qed.

Lemma IndexByte_lookup s c : 0 <= IndexByte s c -> s !! Z.to_nat (IndexByte s c) = Some c.
Proof.
  induction s as [|x s IH]; cbn [IndexByte]; [lia|].
  destruct (Z.eqb_spec x c) as [->|]; [done|]. destruct (Z.ltb_spec (IndexByte s c) 0); [lia|]. intros _.
  replace (Z.to_nat (IndexByte s c + 1)) with (S (Z.to_nat (IndexByte s c))) by lia. by apply IH.
Qed.

Lemma toBytes_map l : quintets l -> toBytes (map ch l) = Ret l.
Proof.
  induction 1 as [|d l Hd Hl IH]; [done|]. cbn [map toBytes]. destruct (ch_spec d Hd) as (_ & -> & _).
  destruct (Z.ltb_spec d 0); [lia|]. rewrite IH. cbn [mbind outcome_bind]. by rewrite wrapU_small by lia.
Qed.

Lemma toBytes_Ret s l : toBytes s = Ret l -> quintets l /\ s = map ch l.
Proof.
  revert l. induction s as [|c s IH]; intros l; cbn [toBytes]; [by intros [= <-]|].
  pose proof (IndexByte_lookup charset c) as Hc. revert Hc. generalize (IndexByte charset c). intros i Hc.
  destruct (Z.ltb_spec i 0) as [|H0]; [done|]. specialize (Hc H0).
  intros H. apply bind_Ret in H as (k & Hk & [= <-]). destruct (IH k Hk) as (Hq & ->).
  pose proof (lookup_lt_Some _ _ _ Hc) as Hlt. change (length charset) with 32%nat in Hlt.
  rewrite wrapU_small by lia. split; [constructor; [lia|done]|].
  cbn [map]. f_equal. symmetry. exact (nth_lookup_Some _ _ 0 _ Hc).
Qed.

Lemma toChars_map l : quintets l -> toChars l = Ret (map ch l).
Proof.
  induction 1 as [|d l Hd Hl IH]; [done|]. cbn [toChars]. change (len charset) with 32.
  rewrite Z.geb_leb. destruct (Z.leb_spec 32 d); [lia|].
  rewrite (proj2 (index_Ret (E := error) charset d (ch d))) by (split; [lia|apply ch_spec; lia]).
  cbn [mbind outcome_bind]. by rewrite IH.
Qed.

Lemma toChars_quintets l s : toChars l = Ret s -> quintets l.
Proof.
  revert s. induction l as [|d l IH]; intros s; cbn [toChars]; [constructor|]. change (len charset) with 32.
  rewrite Z.geb_leb. destruct (Z.leb_spec 32 d); [done|]. intros H1.
  apply bind_Ret in H1 as (c & Hc & H1). apply bind_Ret in H1 as (r & Hr & _).
  apply index_Ret in Hc as [H0 _]. constructor; [lia|by apply (IH r)].
Qed.

Lemma LastIndexByte_ge t c : -1 <= LastIndexByte t c.
Proof. induction t as [|x t IH]; cbn [LastIndexByte]; [lia|]. repeat case_if; bool_to_prop; lia. Qed.

Lemma LastIndexByte_none t c : c ∉ t <-> LastIndexByte t c = -1.
Proof.
  induction t as [|x t IH]; [split; [done|intros _; apply not_elem_of_nil]|]. cbn [LastIndexByte].
  rewrite not_elem_of_cons, IH. pose proof (LastIndexByte_ge t c). destruct (Z.eqb_spec x c); case_if; bool_to_prop; lia.
Qed.

Lemma LastIndexByte_split h c t : c ∉ t -> LastIndexByte (h ++ c :: t) c = len h.
Proof.
  intros Ht. apply LastIndexByte_none in Ht. induction h as [|x h IH]; cbn [app LastIndexByte].
  - rewrite Ht. cbn. by rewrite Z.eqb_refl.
  - rewrite IH, len_cons. pose proof (len_nonneg h). destruct (Z.ltb_spec (len h) 0); lia.
Qed.

Lemma LastIndexByte_inv s c : 0 <= LastIndexByte s c -> exists h t, s = h ++ c :: t /\ c ∉ t.
Proof.
  induction s as [|x s IH]; cbn [LastIndexByte]; [lia|].
  destruct (Z.ltb_spec (LastIndexByte s c) 0) as [Hlt|Hge].
  - destruct (Z.eqb_spec x c) as [->|]; [|lia]. intros _. exists [], s. split; [done|].
    apply LastIndexByte_none. pose proof (LastIndexByte_ge s c). lia.
  - intros _. destruct (IH Hge) as (h & t & -> & Ht). exists (x :: h), t. done.
Qed.

Lemma check_chars_Ret s : check_chars s = Ret tt <-> Forall (fun c => 33 <= c <= 126) s.
Proof.
  induction s as [|c s IH]; cbn [check_chars]; [split; [constructor|done]|]. rewrite Forall_cons, <- IH.
  case_if; bool_to_prop; [|split; [intros; split; [lia|done]|tauto]].
  split; [done|]. apply orb_true_iff in Heqb as [?|?]; bool_to_prop; lia.
Qed.

Lemma ones_not_in ds : quintets ds -> 49 ∉ map ch ds.
Proof.
  intros Hd Hin. apply list_elem_of_In, in_map_iff in Hin as (d & E & Hin%list_elem_of_In).
  rewrite Forall_forall in Hd. destruct (ch_spec d (Hd d Hin)) as (_ & _ & _ & Hne & _). done.
Qed.

(** ** Decoding inverts encoding *)

Definition bech_shaped (s : bytes) : Prop :=
  8 <= len s <= 90 /\ Forall (fun c => 33 <= c <= 126) s /\ (s = ToLower s \/ s = ToUpper s).

Lemma lower_visible s : Forall (fun c => 33 <= c <= 126) s -> bytes_ok (ToLower s).
Proof.
  intros H. unfold ToLower. rewrite Forall_map. eapply Forall_impl; [exact H|]. intros c Hc. cbv beta in Hc.
  unfold is_byte, lower. destruct ((65 <=? c) && (c <=? 90)) eqn:E; bool_to_prop; lia.
Qed.

(** The checks on the whole string. *)
Lemma Decode_shaped s r :
  Decode s = Ret r <-> bech_shaped s /\
    (let bech := ToLower s in let one := LastIndexByte bech 49 in
     if (one <? 1) || (one + 7 >? len bech) then Err ErrSeparator
     else
       hrp ← slice bech 0 one; data ← slice bech (one + 1) (len bech); decoded ← toBytes data;
       body ← slice decoded 0 (len decoded - 6);
       if negb (bech32VerifyChecksum hrp decoded) then Err ErrChecksum else Ret (hrp, body)) = Ret r.
Proof.
  unfold Decode, bech_shaped. cbn zeta.
  destruct ((len s <? 8) || (len s >? 90)) eqn:Hl.
  { apply orb_true_iff in Hl as [?|?]; bool_to_prop; split; [done|lia|done|lia]. }
  bool_to_prop. rewrite <- check_chars_Ret. destruct (check_chars s) as [[]|e|]; cbn [mbind outcome_bind];
    [|split; [done|by intros ((_ & ? & _) & _)]..].
  unfold bytes_Equal. do 2 case_bool_decide; cbn [negb andb].
  1-3: split; [intros; split; [split; [lia|split; [done|tauto]]|done]|tauto].
  split; [done|intros ((_ & _ & [?|?]) & _); done].
Qed.

(** Reading a string of the form [h 1 t]. *)
Lemma read_parts h t :
  49 ∉ t -> h <> [] -> 6 <= len t -> let bech := h ++ 49 :: t in let one := LastIndexByte bech 49 in
  (one <? 1) || (one + 7 >? len bech) = false /\
  slice (E := error) bech 0 one = Ret h /\ slice (E := error) bech (one + 1) (len bech) = Ret t.
Proof.
  intros Ht Hh Hlt bech one. unfold one, bech. rewrite LastIndexByte_split by done.
  assert (1 <= len h) by (destruct h; [done|rewrite len_cons; pose proof (len_nonneg h); lia]).
  assert (len (h ++ 49 :: t) = len h + 1 + len t) as L by (rewrite len_app, len_cons; lia). rewrite L.
  split; [rewrite Z.gtb_ltb; apply orb_false_iff; split; apply Z.ltb_ge; lia|].
  rewrite !slice_Ret by lia. split; f_equal.
  - replace (Z.to_nat (len h - 0)) with (length h) by (unfold len; lia). apply take_app_length.
  - replace (Z.to_nat (len h + 1)) with (S (length h)) by (unfold len; lia).
    replace (h ++ 49 :: t) with ((h ++ [49]) ++ t) by by rewrite <- app_assoc.
    rewrite drop_app_length' by (rewrite length_app; cbn; lia). apply take_ge. unfold len. lia.
Qed.

Lemma decode_body h dec :
  bytes_ok h -> quintets dec -> 6 <= len dec ->
  exists body tail, dec = body ++ tail /\ length tail = 6%nat /\
    slice (E := error) dec 0 (len dec - 6) = Ret body /\
    (bech32VerifyChecksum h dec = true <-> tail = bech32Checksum h body).
Proof.
  intros Hh Hq Hl. unfold len in Hl. exists (take (length dec - 6) dec), (drop (length dec - 6) dec).
  pose proof (take_drop (length dec - 6) dec) as Hsplit. split; [done|]. rewrite length_drop. split; [lia|]. split.
  - rewrite slice_Ret by (unfold len; lia). f_equal. rewrite drop_0. f_equal. unfold len. lia.
  - rewrite <- Hsplit at 1. apply verify_checksum; [done|by apply Forall_take|by apply Forall_drop|rewrite length_drop; lia].
Qed.

Lemma Encode_Ret hrp data : bytes_ok hrp -> quintets data ->
  Encode hrp data = Ret (hrp ++ 49 :: map ch (data ++ bech32Checksum hrp data)).
Proof.
  intros Hh Hd. unfold Encode. rewrite toChars_map; [done|]. apply Forall_app. split; [done|].
  by apply checksum_spec.
Qed.

Lemma Encode_quintets hrp data s : Encode hrp data = Ret s -> quintets data.
Proof.
  unfold Encode. intros (r & Hr & _)%bind_Ret. apply toChars_quintets in Hr. by apply Forall_app in Hr as [? _].
Qed.

Lemma Decode_inverts (s hrp data : bytes) :
  Decode s = Ret (hrp, data) <->
  bech_shaped s /\ hrp <> [] /\ Encode hrp data = Ret (ToLower s).
Proof.
  rewrite Decode_shaped. cbn zeta. split.
  - intros (Hs & Hdec). split; [done|]. pose proof (lower_visible s (proj1 (proj2 Hs))) as Hok.
    destruct ((LastIndexByte (ToLower s) 49 <? 1) || _) eqn:Hsep in Hdec; [done|]. bool_to_prop.
    destruct (LastIndexByte_inv (ToLower s) 49 ltac:(lia)) as (h & t & E & Ht). rewrite E in *.
    pose proof (LastIndexByte_split h 49 t Ht) as HL.
    assert (len (h ++ 49 :: t) = len h + 1 + len t) as Hlen by (rewrite len_app, len_cons; lia).
    assert (h <> []) as Hne by (intros ->; change (len (@nil Z)) with 0 in HL; lia). apply Forall_app in Hok as [Hh _].
    destruct (read_parts h t Ht Hne ltac:(lia)) as (_ & H1 & H2). rewrite H1, H2 in Hdec. cbn [mbind outcome_bind] in Hdec.
    apply bind_Ret in Hdec as (dec & Hd & Hdec). apply toBytes_Ret in Hd as (Hq & ->).
    assert (len (map ch dec) = len dec) as Hlm by (unfold len; by rewrite length_map).
    destruct (decode_body h dec Hh Hq ltac:(lia)) as (body & tail & -> & Htl & Hsl & Hver). rewrite Hsl in Hdec.
    cbn [mbind outcome_bind] in Hdec. destruct (bech32VerifyChecksum h (body ++ tail)); [|done]. cbn in Hdec.
    injection Hdec as -> ->. rewrite (proj1 Hver) by done. apply Forall_app in Hq as [Hb _].
    split; [done|]. by apply Encode_Ret.
  - intros (Hs & Hne & Henc). split; [done|]. pose proof (Encode_quintets _ _ _ Henc) as Hd.
    pose proof (lower_visible s (proj1 (proj2 Hs))) as Hok.
    assert (bytes_ok hrp) as Hh.
    { unfold Encode in Henc. apply bind_Ret in Henc as (r & _ & [= Heq]). rewrite <- Heq in Hok. by apply Forall_app in Hok as [? _]. }
    rewrite Encode_Ret in Henc by done. injection Henc as <-.
    destruct (checksum_spec hrp data Hh Hd) as (Hcq & Hcl & _). set (dec := data ++ bech32Checksum hrp data) in *.
    assert (quintets dec) as Hq by (by apply Forall_app).
    assert (len (map ch dec) = len dec) as Hlm by (unfold len; by rewrite length_map).
    assert (6 <= len dec) as H6 by (unfold dec; rewrite len_app; unfold len at 2; rewrite Hcl; pose proof (len_nonneg data); lia).
    destruct (read_parts hrp (map ch dec)) as (-> & -> & ->); [by apply ones_not_in|done|lia|].
    cbn [mbind outcome_bind]. rewrite toBytes_map by done. cbn [mbind outcome_bind].
    destruct (decode_body hrp dec Hh Hq H6) as (body & tail & E & Htl & -> & Hver). cbn [mbind outcome_bind].
    unfold dec in E. apply app_inj_2 in E as [<- <-]; [|lia]. by rewrite (proj2 Hver).
Qed.

(** The bech32 decoder inverts the encoder exactly.  A string decodes to a human-readable part and
    data if and only if it has between 8 and 90 visible ASCII characters, is in one case, the
    human-readable part is not empty, and encoding them gives the string in lower case: every
    well-formed encoding is accepted, the result is what was encoded, and apart from the case there
    is one string for each pair. *)
Theorem Decode_iff_Encode (s hrp data : bytes) :
  Decode s = Ret (hrp, data) <->
  bech_shaped s /\ hrp <> [] /\ Encode hrp data = Ret (ToLower s).
Proof. apply Decode_inverts. Qed.

(** ** Error detection *)

Lemma split_last_inj (h h' t t' : bytes) c : c ∉ t -> c ∉ t' -> h ++ c :: t = h' ++ c :: t' -> h = h' /\ t = t'.
Proof.
  intros Ht Ht' E. assert (len h = len h') as Hl.
  { rewrite <- (LastIndexByte_split h c t Ht), <- (LastIndexByte_split h' c t' Ht'). by rewrite E. }
  apply app_inj_1 in E as [-> [= ->]]; [done|unfold len in Hl; lia].
Qed.

Lemma lower_49 t : 49 ∉ t -> 49 ∉ ToLower t.
Proof.
  intros Ht Hin. apply Ht. unfold ToLower in Hin. apply list_elem_of_In, in_map_iff in Hin as (c & E & Hin%list_elem_of_In).
  unfold lower in E. destruct ((65 <=? c) && (c <=? 90)) eqn:Hc; bool_to_prop; [lia|]. by subst c.
Qed.

(** What an accepted string contains after its last separator. *)
Lemma Decode_groups h t r :
  49 ∉ t -> Decode (h ++ 49 :: t) = Ret r ->
  exists dec, quintets dec /\ ToLower t = map ch dec /\ bytes_ok (ToLower h) /\ bech32VerifyChecksum (ToLower h) dec = true.
Proof.
  intros Ht Hd. destruct r as [hrp data]. apply Decode_inverts in Hd as (Hs & _ & He).
  pose proof (Encode_quintets _ _ _ He) as Hq. pose proof (lower_visible _ (proj1 (proj2 Hs))) as Hok.
  unfold ToLower in *. rewrite map_app in *. cbn [map] in *. change (lower 49) with 49 in *.
  assert (bytes_ok hrp) as Hh.
  { unfold Encode in He. apply bind_Ret in He as (x & _ & [= Heq]). rewrite <- Heq in Hok. by apply Forall_app in Hok as [? _]. }
  rewrite Encode_Ret in He by done. injection He as He.
  destruct (checksum_spec hrp data Hh Hq) as (Hcq & Hcl & _).
  assert (quintets (data ++ bech32Checksum hrp data)) as Hqs by (by apply Forall_app).
  apply split_last_inj in He as [E1 E2]; [|by apply ones_not_in|by apply lower_49].
  exists (data ++ bech32Checksum hrp data). split; [done|]. split; [done|]. rewrite <- E1. split; [done|].
  by apply verify_checksum.
Qed.

Lemma map_ch_inj l k : quintets l -> quintets k -> map ch l = map ch k -> l = k.
Proof. intros Hl Hk E. apply (f_equal toBytes) in E. rewrite !toBytes_map in E by done. by injection E. Qed.

(** Groups of a string that is cut in three. *)
Lemma groups_split dec (a w b : bytes) :
  quintets dec -> ToLower (a ++ w ++ b) = map ch dec ->
  exists da dw db, dec = da ++ dw ++ db /\ map ch da = ToLower a /\ map ch dw = ToLower w /\ map ch db = ToLower b.
Proof.
  unfold ToLower. rewrite !map_app. intros Hq E. symmetry in E.
  apply map_eq_app in E as (da & dr & -> & Ea & E). apply map_eq_app in E as (dw & db & -> & Ew & Eb).
  by exists da, dw, db.
Qed.

(** The checksum detects every error confined to six consecutive characters.  If two strings of the same
    length, with the same human-readable part, differ only in a window of at most six characters
    after the separator, and both decode, then they are equal up to case. *)
Theorem Decode_detects_burst (h a w w' b : bytes) (r r' : bytes * bytes) :
  49 ∉ a ++ w ++ b -> 49 ∉ w' -> length w = length w' -> (length w <= 6)%nat ->
  Decode (h ++ 49 :: a ++ w ++ b) = Ret r -> Decode (h ++ 49 :: a ++ w' ++ b) = Ret r' ->
  ToLower w = ToLower w'.
Proof.
  intros H1 H1' Hlen H6 Hd Hd'.
  assert (49 ∉ a ++ w' ++ b) as H2 by (rewrite !not_elem_of_app in *; tauto).
  destruct (Decode_groups _ _ _ H1 Hd) as (dec & Hq & E & Hh & Hv), (Decode_groups _ _ _ H2 Hd') as (dec' & Hq' & E' & _ & Hv').
  destruct (groups_split _ _ _ _ Hq E) as (da & dw & db & -> & Ea & Ew & Eb).
  destruct (groups_split _ _ _ _ Hq' E') as (da' & dw' & db' & -> & Ea' & Ew' & Eb').
  rewrite !Forall_app in Hq, Hq'.
  assert (da' = da) as -> by (apply map_ch_inj; [tauto|tauto|congruence]).
  assert (db' = db) as -> by (apply map_ch_inj; [tauto|tauto|congruence]).
  apply (f_equal length) in Ew as Lw. apply (f_equal length) in Ew' as Lw'. unfold ToLower in Lw, Lw'. rewrite !length_map in Lw, Lw'.
  assert (dw = dw') as ->; [|congruence].
  apply (poly_burst (bech32HrpExpand (ToLower h) ++ da) _ _ db 1); [lia| |tauto|lia|lia|].
  - rewrite !Forall_app. split; [split; [by apply hrp_quintets|tauto]|tauto].
  - unfold bech32VerifyChecksum, bech32Polymod in *. apply Z.eqb_eq in Hv, Hv'. rewrite <- !app_assoc. congruence.
Qed.

(** ** Regrouping bits *)

(** The bits seen so far, as a number and its length. *)
Definition gval (toBits : Z) (g : groups) : Z := of_digits (2 ^ toBits) (regrouped g) * 2 ^ filledBits g + nextByte g.
Definition gbits (toBits : Z) (g : groups) : Z := toBits * len (regrouped g) + filledBits g.
Definition gok (toBits : Z) (g : groups) : Prop :=
  digits (2 ^ toBits) (regrouped g) /\ 0 <= filledBits g < toBits /\ 0 <= nextByte g < 2 ^ filledBits g.

(** [v] has [r] bits, which are the top bits of the byte [v * 2 ^ (8 - r)]. *)
Lemma extract_hi v r e : 0 <= v < 2 ^ r -> 0 <= e <= r -> r <= 8 ->
  Z.shiftr (v * 2 ^ (8 - r)) (8 - e) = v / 2 ^ (r - e) /\ 0 <= v / 2 ^ (r - e) < 2 ^ e /\
  uint8 (Z.shiftl (v * 2 ^ (8 - r)) e) = v mod 2 ^ (r - e) * 2 ^ (8 - (r - e)).
Proof.
  intros Hv He Hr. rewrite Z.shiftr_div_pow2, Z.shiftl_mul_pow2 by lia.
  assert (2 ^ (8 - e) = 2 ^ (8 - r) * 2 ^ (r - e)) as -> by (rewrite <- Z.pow_add_r by lia; f_equal; lia).
  assert (2 ^ r = 2 ^ (r - e) * 2 ^ e) as Hre by (rewrite <- Z.pow_add_r by lia; f_equal; lia).
  assert (0 < 2 ^ (8 - r)) by lia. assert (0 < 2 ^ (r - e)) by lia. assert (0 < 2 ^ e) by lia.
  split; [|split].
  - rewrite <- Z.div_div, Z.div_mul by lia. done.
  - split; [apply Z.div_pos; lia|]. apply Z.div_lt_upper_bound; lia.
  - rewrite <- Z.mul_assoc, <- Z.pow_add_r by lia. replace (8 - r + e) with (8 - (r - e)) by lia. unfold wrapU.
    assert (2 ^ 8 = 2 ^ (r - e) * 2 ^ (8 - (r - e))) as -> by (rewrite <- Z.pow_add_r by lia; f_equal; lia).
    rewrite Z.mul_mod_distr_r by lia. done.
Qed.

(** Appending [e] bits to the group under construction. *)
Definition push (toBits : Z) (g : groups) (e hi : Z) : groups :=
  let next := nextByte g * 2 ^ e + hi in
  if filledBits g + e =? toBits then mkGroups (regrouped g ++ [next]) 0 0 else mkGroups (regrouped g) next (filledBits g + e).

Lemma push_spec toBits g e hi :
  gok toBits g -> 0 <= e -> filledBits g + e <= toBits -> 0 < toBits -> 0 <= hi < 2 ^ e ->
  gok toBits (push toBits g e hi) /\ gval toBits (push toBits g e hi) = gval toBits g * 2 ^ e + hi /\
  gbits toBits (push toBits g e hi) = gbits toBits g + e.
Proof.
  intros (Hd & Hf & Hn) He Hle Hto Hhi. unfold push, gok, gval, gbits.
  assert (0 <= nextByte g * 2 ^ e + hi < 2 ^ (filledBits g + e)) as Hnext by (rewrite Z.pow_add_r by lia; nia).
  destruct (Z.eqb_spec (filledBits g + e) toBits) as [E|E]; cbn [regrouped nextByte filledBits].
  - rewrite of_digits_snoc, len_app, len_one, Z.pow_0_r.
    assert (2 ^ toBits = 2 ^ filledBits g * 2 ^ e) as Hp by (rewrite <- Z.pow_add_r by lia; f_equal; lia).
    rewrite E in Hnext. split; [|split; [rewrite Hp; lia|lia]].
    split; [|lia]. apply Forall_app. split; [done|]. by apply Forall_singleton.
  - rewrite Z.pow_add_r by lia. rewrite Z.pow_add_r in Hnext by lia. split; [|split; lia]. split; [done|lia].
Qed.

Lemma extract_loop_spec f toBits v r g :
  1 <= toBits <= 8 -> gok toBits g -> 0 <= r <= 8 -> (Z.to_nat r <= f)%nat -> 0 <= v < 2 ^ r ->
  forall g', g' = extract_loop f toBits (v * 2 ^ (8 - r)) r g ->
  gok toBits g' /\ gval toBits g' = gval toBits g * 2 ^ r + v /\ gbits toBits g' = gbits toBits g + r.
Proof.
  intros Hto. revert v r g. induction f as [|f IH]; intros v r g Hg Hr Hf Hv g' ->.
  { assert (r = 0) as -> by lia. rewrite Z.pow_0_r in *. cbn [extract_loop]. split; [done|lia]. }
  cbn [extract_loop]. destruct (Z.gtb_spec r 0) as [Hpos|Hz].
  2:{ assert (r = 0) as -> by lia. rewrite Z.pow_0_r in *. split; [done|lia]. }
  pose proof Hg as (Hd & Hfl & Hn). rewrite (wrapU_small 8 (toBits - filledBits g)) by lia.
  set (e := if toBits - filledBits g <? r then toBits - filledBits g else r).
  assert (1 <= e <= r /\ filledBits g + e <= toBits) as [He Hle]
    by (unfold e; destruct (Z.ltb_spec (toBits - filledBits g) r); lia).
  destruct (extract_hi v r e Hv ltac:(lia) ltac:(lia)) as (-> & Hhi & ->).
  assert (nextByte g * 2 ^ e < 2 ^ 8) as Hsmall.
  { assert (2 ^ filledBits g * 2 ^ e <= 2 ^ 8) by (rewrite <- Z.pow_add_r by lia; apply Z.pow_le_mono_r; lia). nia. }
  rewrite Z.shiftl_mul_pow2, (wrapU_small 8 (nextByte g * 2 ^ e)) by nia.
  rewrite Z.lor_comm, <- (Z.shiftl_mul_pow2 (nextByte g)), lor_shiftl_add, (Z.add_comm (v / _)) by lia.
  rewrite (wrapU_small 8 (filledBits g + e)), (wrapU_small 8 (r - e)) by lia.
  fold (push toBits g e (v / 2 ^ (r - e))).
  destruct (push_spec toBits g e (v / 2 ^ (r - e)) Hg ltac:(lia) Hle ltac:(lia) Hhi) as (P1 & P2 & P3).
  assert (0 < 2 ^ (r - e)) by lia. pose proof (Z.mod_pos_bound v (2 ^ (r - e)) ltac:(lia)).
  destruct (IH (v mod 2 ^ (r - e)) (r - e) _ P1 ltac:(lia) ltac:(lia) ltac:(lia) _ eq_refl) as (I1 & I2 & I3).
  split; [done|]. rewrite I2, I3, P2, P3. split; [|lia].
  assert (2 ^ r = 2 ^ (r - e) * 2 ^ e) as -> by (rewrite <- Z.pow_add_r by lia; f_equal; lia).
  pose proof (Z.div_mod v (2 ^ (r - e)) ltac:(lia)). nia.
Qed.

Lemma convert_loop_app l k fromBits toBits g :
  convert_loop (l ++ k) fromBits toBits g = convert_loop k fromBits toBits (convert_loop l fromBits toBits g).
Proof. revert g. induction l as [|x l IH]; intros g; cbn [app convert_loop]; [reflexivity|]. rewrite IH. reflexivity. Qed.

Lemma convert_loop_spec data fromBits toBits g :
  1 <= fromBits <= 8 -> 1 <= toBits <= 8 -> gok toBits g -> digits (2 ^ fromBits) data ->
  forall g', g' = convert_loop data fromBits toBits g ->
  gok toBits g' /\
  gval toBits g' = gval toBits g * 2 ^ (fromBits * len data) + of_digits (2 ^ fromBits) data /\
  gbits toBits g' = gbits toBits g + fromBits * len data.
Proof.
  intros Hfr Hto Hg Hd. induction data as [|b data IH] using rev_ind in g, Hg, Hd |- *; intros g' ->.
  - cbn [convert_loop]. change (len (@nil Z)) with 0. change (of_digits (2 ^ fromBits) []) with 0.
    rewrite Z.mul_0_r, Z.pow_0_r. split; [done|lia].
  - rewrite Forall_app, Forall_singleton in Hd. destruct Hd as [Hds Hb].
    rewrite convert_loop_app.
    destruct (IH g Hg Hds _ eq_refl) as (I1 & I2 & I3).
    generalize dependent (convert_loop data fromBits toBits g). intros h I1 I2 I3. cbn [convert_loop].
    assert (uint8 (Z.shiftl b (8 - fromBits)) = b * 2 ^ (8 - fromBits)) as ->.
    { rewrite Z.shiftl_mul_pow2 by lia. apply wrapU_small.
      assert (2 ^ 8 = 2 ^ fromBits * 2 ^ (8 - fromBits)) as -> by (rewrite <- Z.pow_add_r by lia; f_equal; lia).
      assert (0 < 2 ^ (8 - fromBits)) by lia. nia. }
    destruct (extract_loop_spec (Z.to_nat fromBits) toBits b fromBits _ Hto I1 ltac:(lia) ltac:(lia) Hb _ eq_refl) as (E1 & E2 & E3).
    generalize dependent (extract_loop (Z.to_nat fromBits) toBits (b * 2 ^ (8 - fromBits)) fromBits h). intros k E1 E2 E3.
    split; [done|]. rewrite E2, E3, I2, I3, of_digits_snoc, len_app, len_one. pose proof (len_nonneg data).
    rewrite Z.mul_add_distr_l, Z.mul_1_r, Z.pow_add_r by lia. lia.
Qed.

Lemma gok_empty toBits : 1 <= toBits -> gok toBits (mkGroups [] 0 0).
Proof. intros. split; [constructor|]. cbn [filledBits nextByte]. rewrite Z.pow_0_r. lia. Qed.

(** From bytes to groups of five bits: [p] zero bits complete the last group. *)
Lemma ConvertBits_pad data : bytes_ok data ->
  exists p q, 0 <= p < 5 /\ 5 * len q = 8 * len data + p /\ quintets q /\
    of_digits 32 q = of_digits 256 data * 2 ^ p /\ ConvertBits data 8 5 true = Ret q.
Proof.
  intros Hd. destruct (convert_loop_spec data 8 5 (mkGroups [] 0 0) ltac:(lia) ltac:(lia) (gok_empty 5 ltac:(lia)) Hd _ eq_refl)
    as ((G1 & G2 & G3) & Gv & Gb).
  unfold ConvertBits. change ((8 <? 1) || (8 >? 8) || (5 <? 1) || (5 >? 8)) with false. cbn iota. cbn zeta.
  generalize dependent (convert_loop data 8 5 (mkGroups [] 0 0)). intros g G1 G2 G3 Gv Gb.
  unfold gval, gbits in Gv, Gb. cbn [regrouped nextByte filledBits] in Gv, Gb. change (len (@nil Z)) with 0 in Gb.
  change (of_digits (2 ^ 5) []) with 0 in Gv. change (2 ^ 5) with 32 in *. change (2 ^ 8) with 256 in *.
  cbn [andb]. destruct (Z.gtb_spec (filledBits g) 0) as [Hf|Hf].
  - exists (5 - filledBits g), (regrouped g ++ [nextByte g * 2 ^ (5 - filledBits g)]).
    assert (32 = 2 ^ filledBits g * 2 ^ (5 - filledBits g)) as H32 by (rewrite <- Z.pow_add_r by lia; change 32 with (2 ^ 5); f_equal; lia).
    assert (0 < 2 ^ (5 - filledBits g)) by lia.
    rewrite Z.shiftl_mul_pow2, wrapU_small by nia. cbn [filledBits regrouped]. rewrite of_digits_snoc, len_app, len_one.
    split; [lia|]. split; [lia|]. split; [|split; [|done]].
    + apply Forall_app. split; [done|]. apply Forall_singleton. nia.
    + rewrite H32 at 2. assert (of_digits 256 data = of_digits 32 (regrouped g) * 2 ^ filledBits g + nextByte g) as -> by lia. ring.
  - assert (filledBits g = 0) as E by lia. rewrite E, Z.pow_0_r in *. exists 0, (regrouped g).
    split; [lia|]. split; [lia|]. split; [done|]. rewrite Z.pow_0_r. split; [lia|done].
Qed.

(** From groups of five bits to bytes: what is left over must be at most four zero bits. *)
Lemma ConvertBits_unpad q : quintets q ->
  exists f next bs, 0 <= f < 8 /\ 0 <= next < 2 ^ f /\ 8 * len bs + f = 5 * len q /\ bytes_ok bs /\
    of_digits 256 bs * 2 ^ f + next = of_digits 32 q /\
    ConvertBits q 5 8 false = if (f >? 0) && ((f >? 4) || negb (next =? 0)) then Err ErrIncompleteGroup else Ret bs.
Proof.
  intros Hq. destruct (convert_loop_spec q 5 8 (mkGroups [] 0 0) ltac:(lia) ltac:(lia) (gok_empty 8 ltac:(lia)) Hq _ eq_refl)
    as ((G1 & G2 & G3) & Gv & Gb).
  unfold ConvertBits. change ((5 <? 1) || (5 >? 8) || (8 <? 1) || (8 >? 8)) with false. cbn iota. cbn zeta.
  generalize dependent (convert_loop q 5 8 (mkGroups [] 0 0)). intros g G1 G2 G3 Gv Gb.
  unfold gval, gbits in Gv, Gb. cbn [regrouped nextByte filledBits] in Gv, Gb. change (len (@nil Z)) with 0 in Gb.
  change (of_digits (2 ^ 8) []) with 0 in Gv. change (2 ^ 5) with 32 in *. change (2 ^ 8) with 256 in *.
  exists (filledBits g), (nextByte g), (regrouped g). cbn [andb]. split; [done|]. split; [done|]. split; [lia|].
  split; [exact G1|]. split; [lia|done].
Qed.

Lemma ConvertBits_back data : bytes_ok data ->
  exists q, ConvertBits data 8 5 true = Ret q /\ quintets q /\ 5 * len q < 8 * len data + 5 /\ ConvertBits q 5 8 false = Ret data.
Proof.
  intros Hd. destruct (ConvertBits_pad data Hd) as (p & q & Hp & Hl & Hq & Hv & Hc). exists q.
  split; [done|]. split; [done|]. split; [lia|].
  destruct (ConvertBits_unpad q Hq) as (f & next & bs & Hf & Hn & Hl' & Hbs & Hv' & ->).
  assert (f = p /\ len bs = len data) as [-> Hlen] by lia. rewrite Hv in Hv'. assert (0 < 2 ^ p) by lia.
  assert (of_digits 256 bs = of_digits 256 data /\ next = 0) as [Heq ->].
  { destruct (Z.div_mod_unique (2 ^ p) (of_digits 256 bs) (of_digits 256 data) next 0); [lia|lia|lia|done]. }
  apply digits_same_length in Heq; [|lia|exact Hbs|exact Hd|by apply length_eq_Z]. subst bs. cbn [Z.eqb negb]. rewrite orb_false_r.
  destruct (Z.gtb_spec p 4); [lia|]. by rewrite andb_false_r.
Qed.

Lemma ConvertBits_canonical q data : quintets q -> ConvertBits q 5 8 false = Ret data -> bytes_ok data /\ ConvertBits data 8 5 true = Ret q.
Proof.
  intros Hq Hc. destruct (ConvertBits_unpad q Hq) as (f & next & bs & Hf & Hn & Hl & Hbs & Hv & E). rewrite E in Hc.
  destruct ((f >? 0) && ((f >? 4) || negb (next =? 0))) eqn:Hcond; [done|]. injection Hc as ->. split; [done|].
  assert (f <= 4 /\ next = 0) as [Hf4 ->].
  { destruct (Z.gtb_spec f 0); cbn [andb] in Hcond.
    - bool_to_prop. lia.
    - assert (f = 0) as -> by lia. rewrite Z.pow_0_r in Hn. lia. }
  destruct (ConvertBits_pad data Hbs) as (p & q' & Hp & Hl' & Hq' & Hv' & ->). f_equal.
  assert (p = f /\ len q' = len q) as [-> Hlen] by lia.
  apply (digits_same_length 32); [lia|done|done|by apply length_eq_Z|]. lia.
Qed.

(** The checksum of a real string, and one with a changed character. *)
Lemma Decode_detects_burst_witness :
  Decode (string_bytes "a12uel5l") = Ret (string_bytes "a", []) /\ ~ is_Ret (Decode (string_bytes "a12uek5l")).
Proof.
  assert (Decode (string_bytes "a12uel5l") = Ret (string_bytes "a", [])) as Hd by (vm_compute; reflexivity).
  split; [exact Hd|]. intros [r Hr].
  assert (ToLower [108] = ToLower [107]) as E.
  { apply (Decode_detects_burst (string_bytes "a") (string_bytes "2ue") [108] [107] (string_bytes "5l") (string_bytes "a", []) r).
    - apply LastIndexByte_none. vm_compute. reflexivity.
    - apply LastIndexByte_none. vm_compute. reflexivity.
    - reflexivity.
    - cbn. lia.
    - exact Hd.
    - exact Hr. }
  vm_compute in E. discriminate.
Defined.

(** Regrouping bits loses nothing.  The bytes of a program, cut into groups of five bits, are the bytes that
    joining the groups gives back; and groups that join to bytes are the groups of those bytes, so
    non-zero or excessive padding is rejected. *)
Theorem ConvertBits_roundtrip (data q : bytes) :
  bytes_ok data -> quintets q ->
  ((exists g, ConvertBits data 8 5 true = Ret g /\ quintets g /\ ConvertBits g 5 8 false = Ret data) /\
   (ConvertBits q 5 8 false = Ret data -> ConvertBits data 8 5 true = Ret q)).
Proof.
  intros Hd Hq. split.
  - destruct (ConvertBits_back data Hd) as (g & H1 & H2 & _ & H3). by exists g.
  - intros H. by apply (ConvertBits_canonical q data Hq H).
Qed.

Lemma ConvertBits_roundtrip_witness :
  ConvertBits [31; 28; 0; 16] 5 8 false = Ret [255; 1] /\ ConvertBits [255; 1] 8 5 true = Ret [31; 28; 0; 16].
Proof.
  split; [vm_compute; reflexivity|]. apply (ConvertBits_roundtrip [255; 1] [31; 28; 0; 16]).
  - solve_bytes.
  - repeat constructor; discriminate.
  - vm_compute. reflexivity.
Defined.

End Bech32.
