(* ===== verification/AddressText.v ===== *)
(** The text form of addresses: the encoders and decoders of massutil/address.go over the bech32
    and base58 packages, and the registry of networks of config/params.go that the decoder
    consults. *)

From S2P Require Import Prelude Wire Hashes Amount Base58 Bech32 SigCache Address.

(** * The registry (config/params.go) *)

Record Registry := mkRegistry {
  pubKeyHashAddrIDs : gset Z;
  scriptHashAddrIDs : gset Z;
  bech32SegwitPrefixes : gset bytes
}.

Definition Register (r : Registry) (params : Params) : Registry :=
  mkRegistry ({[PubKeyHashAddrID params]} ∪ pubKeyHashAddrIDs r)
             ({[ScriptHashAddrID params]} ∪ scriptHashAddrIDs r)
             ({[string_bytes (Bech32HRPSegwit params) ++ [49]]} ∪ bech32SegwitPrefixes r).

Definition ChainParams : Params := mkParams "ms" 0x00 0x05.

(** What init of the package leaves. *)
Definition mainRegistry : Registry := Register (mkRegistry ∅ ∅ ∅) ChainParams.

Definition IsPubKeyHashAddrID (r : Registry) (id : Z) : bool := bool_decide (id ∈ pubKeyHashAddrIDs r).
Definition IsScriptHashAddrID (r : Registry) (id : Z) : bool := bool_decide (id ∈ scriptHashAddrIDs r).
Definition IsBech32SegwitPrefix (r : Registry) (prefix : bytes) : bool :=
  bool_decide (Bech32.ToLower prefix ∈ bech32SegwitPrefixes r).

(** * Hexadecimal (encoding/hex) *)

Definition hextable : bytes := string_bytes "0123456789abcdef".
Definition hex_digit (n : Z) : Z := nth (Z.to_nat n) hextable 0.
Definition EncodeToString (b : bytes) : bytes := b ≫= fun x => [hex_digit (Z.shiftr x 4); hex_digit (Z.land x 15)].

Definition fromHexChar (c : Z) : option Z :=
  if (48 <=? c) && (c <=? 57) then Some (c - 48)
  else if (97 <=? c) && (c <=? 102) then Some (c - 97 + 10)
  else if (65 <=? c) && (c <=? 70) then Some (c - 65 + 10)
  else None.

Fixpoint DecodeString (s : bytes) : option bytes :=
  match s with
  | [] => Some []
  | a :: b :: rest =>
      x ← fromHexChar a; y ← fromHexChar b; r ← DecodeString rest; Some (Z.lor (uint8 (Z.shiftl x 4)) y :: r)
  | [_] => None
  end.

(** * Errors *)

Inductive text_error : Set :=
| EBech (e : Bech32.error) | ENoVersion | EVersion (v : Z) | EExtVersion (v : Z) | EDataLength | EProgramLength (n : Z)
| EInvalidSegwit | EUnsupportedVersion (v : Z) | EUnsupportedExtVersion (v : Z) | EUnsupportedProgLen (n : Z)
| EHex | EAddress (e : address_error) | EChecksumMismatch | EUnknownFormat | ECollision | EUnknownType | EUnknownSize
| EDecodeFailed | EWrongNetwork.

Definition wrap {E A} (w : E -> text_error) (o : outcome E A) : outcome text_error A :=
  match o with Ret a => Ret a | Err e => Err (w e) | Panic => Panic end.

(** A string with the given bytes. *)
Fixpoint bytes_string (b : bytes) : string :=
  match b with
  | [] => EmptyString
  | c :: b' => String (Ascii.ascii_of_nat (Z.to_nat c)) (bytes_string b')
  end.

(** * Segwit addresses *)

Definition decodeSegWitAddress (address : bytes) : outcome text_error (Z * Z * bytes) :=
  '(_, data) ← wrap EBech (Bech32.Decode address);
  if len data <? 1 then Err ENoVersion
  else
    version ← index data 0;
    if version >? 16 then Err (EVersion version)
    else
      extVersion ← index data 1;
      if extVersion >? 16 then Err (EExtVersion extVersion)
      else
        rest ← slice data 2 (len data);
        regrouped ← wrap EBech (Bech32.ConvertBits rest 5 8 false);
        if (len regrouped <? 2) || (len regrouped >? 40) then Err EDataLength
        else if (version =? 0) && negb (len regrouped =? 32) then Err (EProgramLength (len regrouped))
        else Ret (version, extVersion, regrouped).

Definition encodeSegWitAddress (hrp : bytes) (witnessVersion extendVersion : Z) (witnessProgram : bytes) :
    outcome text_error bytes :=
  converted ← wrap EBech (Bech32.ConvertBits witnessProgram 8 5 true);
  let combined := [witnessVersion; extendVersion] ++ converted in
  bech ← wrap EBech (Bech32.Encode hrp combined);
  match decodeSegWitAddress bech with
  | Ret (version, extVer, program) =>
      if negb (version =? witnessVersion) || negb (extVer =? extendVersion) || negb (bytes_Equal program witnessProgram)
      then Err EInvalidSegwit else Ret bech
  | Err _ => Err EInvalidSegwit
  | Panic => Panic
  end.

(** * Addresses *)

Section text.
Context {HF : HashFunctions} {BC : Btcec}.

Definition Hash160 (data : bytes) : bytes := ripemd160_Sum (sha256_Sum256 data).

Definition encodeAddress (hash160 : bytes) (netID : Z) : outcome text_error bytes :=
  h ← slice hash160 0 20; Base58.CheckEncode h netID.

(** The error of encodeSegWitAddress becomes the empty string. *)
Definition EncodeAddress (a : Address) : outcome text_error bytes :=
  match a with
  | AddressPubKeyHash hash netID => encodeAddress hash netID
  | AddressScriptHash hash netID => encodeAddress hash netID
  | AddressPubKey_ a => encodeAddress (Hash160 (serialize a)) (pubKeyHashID a)
  | AddressWitnessScriptHash hrp witnessVersion extendVersion program =>
      match encodeSegWitAddress (string_bytes hrp) witnessVersion extendVersion program with
      | Err _ => Ret [] | r => r
      end
  | AddressBindingTarget script netID => Base58.CheckEncode script netID
  end.

(** String differs from EncodeAddress only for public keys. *)
Definition Address_String (a : Address) : outcome text_error bytes :=
  match a with AddressPubKey_ a => Ret (EncodeToString (serialize a)) | _ => EncodeAddress a end.

(** The part of DecodeAddress for strings that start with a segwit prefix. *)
Definition decode_segwit (addr prefix : bytes) : outcome text_error Address :=
  '(witnessVer, witnessExtVer, witnessProg) ← decodeSegWitAddress addr;
  hrp ← slice prefix 0 (len prefix - 1);
  if negb (witnessVer =? 0) then Err (EUnsupportedVersion witnessVer)
  else if witnessExtVer >? 1 then Err (EUnsupportedExtVersion witnessExtVer)
  else if len witnessProg =? 32 then wrap EAddress (newAddressWitnessScriptHash (bytes_string hrp) witnessExtVer witnessProg)
  else Err (EUnsupportedProgLen (len witnessProg)).

(** The rest of DecodeAddress: public keys in hexadecimal, and base58 strings. *)
Definition decode_other (r : Registry) (addr : bytes) (defaultNet : Params) : outcome text_error Address :=
  if (len addr =? 130) || (len addr =? 66) then
    match DecodeString addr with
    | None => Err EHex
    | Some serializedPubKey => a ← wrap EAddress (NewAddressPubKey serializedPubKey defaultNet); Ret (AddressPubKey_ a)
    end
  else
    match Base58.CheckDecode addr with
    | Panic => Panic
    | Err Base58.ErrChecksum => Err EChecksumMismatch
    | Err Base58.ErrInvalidFormat => Err EUnknownFormat
    | Ret (decoded, netID) =>
        if len decoded =? 20 then
          let isP2PKH := IsPubKeyHashAddrID r netID in
          let isP2SH := IsScriptHashAddrID r netID in
          if isP2PKH && isP2SH then Err ECollision
          else if isP2PKH then wrap EAddress (newAddressPubKeyHash decoded netID)
          else if isP2SH then wrap EAddress (newAddressScriptHashFromHash decoded netID)
          else Err EUnknownType
        else if len decoded =? 20 + 2 then
          if IsPubKeyHashAddrID r netID then wrap EAddress (newAddressBindingTarget decoded netID)
          else Err EUnknownType
        else Err EUnknownSize
    end.

Definition DecodeAddress (r : Registry) (addr : bytes) (defaultNet : Params) : outcome text_error Address :=
  let oneIndex := Bech32.LastIndexByte addr 49 in
  if oneIndex >? 1 then
    prefix ← slice addr 0 (oneIndex + 1);
    if IsBech32SegwitPrefix r prefix then decode_segwit addr prefix else decode_other r addr defaultNet
  else decode_other r addr defaultNet.

Fixpoint NewAddressesFromStringList (r : Registry) (strList : list bytes) (net : Params) : outcome text_error (list Address) :=
  match strList with
  | [] => Ret []
  | strAddr :: rest =>
      match DecodeAddress r strAddr net with
      | Panic => Panic
      | Err _ => Err EDecodeFailed
      | Ret addr =>
          if negb (IsForNet addr net) then Err EWrongNetwork
          else l ← NewAddressesFromStringList r rest net; Ret (addr :: l)
      end
  end.

(** massutil/binding.go *)
Definition GetBindingTarget (pub : bytes) (proofType bitLength : Z) : outcome text_error bytes :=
  let hash := Hash160 pub ++ [uint8 proofType; uint8 bitLength] in
  target ← wrap EAddress (NewAddressBindingTarget hash ChainParams);
  EncodeAddress target.
End text.

Definition AddressClassWitnessV0 : Z := 0.
Definition AddressClassWitnessStaking : Z := 1.
Definition IsValidAddressClass (class : Z) : bool :=
  (class =? AddressClassWitnessV0) || (class =? AddressClassWitnessStaking).

(** * Segwit addresses round-trip *)

(** The human-readable parts networks use: visible lower-case characters, at most 29 of them. *)
Definition hrp_ok (hrp : bytes) : Prop :=
  2 <= len hrp <= 29 /\ Forall (fun c => 33 <= c <= 126) hrp /\ Bech32.ToLower hrp = hrp.

Lemma segwit_string hrp v e program :
  hrp_ok hrp -> 0 <= v <= 16 -> 0 <= e <= 16 -> bytes_ok program -> len program = 32 ->
  exists t, 49 ∉ t /\ encodeSegWitAddress hrp v e program = Ret (hrp ++ 49 :: t) /\
    decodeSegWitAddress (hrp ++ 49 :: t) = Ret (v, e, program).
Proof.
  intros (Hl & Hvis & Hlow) Hv He Hp Hlen.
  destruct (Bech32.ConvertBits_back program Hp) as (q & Hc & Hq & Hlq & Hback).
  set (data := [v; e] ++ q). assert (digits 32 data) as Hd by (apply Forall_app; split; [repeat constructor; lia|done]).
  assert (bytes_ok hrp) as Hh by (eapply Forall_impl; [exact Hvis|]; cbv beta; unfold is_byte; intros; lia).
  destruct (Bech32.checksum_spec hrp data Hh Hd) as (Hcq & Hcl & _).
  set (t := map Bech32.ch (data ++ Bech32.bech32Checksum hrp data)).
  assert (digits 32 (data ++ Bech32.bech32Checksum hrp data)) as Hqs by (by apply Forall_app).
  pose proof (Bech32.Encode_Ret hrp data Hh Hd) as Henc.
  assert (Forall (fun c => 33 <= c <= 126 /\ Bech32.lower c = c) t) as Ht.
  { unfold t. rewrite Forall_map. eapply Forall_impl; [exact Hqs|]. intros d Hdd.
    destruct (Bech32.ch_spec d Hdd) as (_ & _ & H1 & _ & H2). done. }
  assert (len t = len q + 8) as Hlt.
  { unfold t, len. rewrite length_map, length_app, Hcl. unfold data. rewrite length_app. cbn [length]. lia. }
  assert (Bech32.ToLower (hrp ++ 49 :: t) = hrp ++ 49 :: t) as Hlower.
  { unfold Bech32.ToLower in *. rewrite map_app, Hlow. cbn [map]. do 2 f_equal.
    clear -Ht. induction Ht as [|c t [_ Hc] Ht IH]; cbn [map]; congruence. }
  assert (Bech32.Decode (hrp ++ 49 :: t) = Ret (hrp, data)) as Hdec.
  { apply Bech32.Decode_inverts. rewrite Hlower. split; [|split; [|done]].
    - split; [|split; [|by left]].
      + rewrite len_app, len_cons, Hlt. pose proof (len_nonneg q). lia.
      + rewrite Forall_app, Forall_cons. split; [done|]. split; [lia|]. eapply Forall_impl; [exact Ht|]. by intros c [? _].
    - intros ->. change (len (@nil Z)) with 0 in Hl. lia. }
  assert (decodeSegWitAddress (hrp ++ 49 :: t) = Ret (v, e, program)) as Hds.
  { unfold decodeSegWitAddress. rewrite Hdec. cbn [wrap mbind outcome_bind]. unfold data.
    pose proof (len_nonneg q). rewrite len_app. change (len [v; e]) with 2. destruct (Z.ltb_spec (2 + len q) 1); [lia|].
    change (index (E := text_error) ([v; e] ++ q) 0) with (@Ret text_error Z v).
    change (index (E := text_error) ([v; e] ++ q) 1) with (@Ret text_error Z e). cbn [mbind outcome_bind].
    destruct (Z.gtb_spec v 16); [lia|]. destruct (Z.gtb_spec e 16); [lia|].
    rewrite slice_Ret by (rewrite ?len_app; change (len [v; e]) with 2; lia). cbn [mbind outcome_bind].
    change (drop (Z.to_nat 2) ([v; e] ++ q)) with q. rewrite take_ge by (unfold len; lia).
    rewrite Hback. cbn [wrap mbind outcome_bind]. rewrite Hlen. closed_tests. by rewrite andb_false_r. }
  exists t. split; [by apply Bech32.ones_not_in|]. split; [|done].
  unfold encodeSegWitAddress. rewrite Hc. cbn [wrap mbind outcome_bind]. fold data. rewrite Henc. cbn [wrap mbind outcome_bind].
  fold t. rewrite Hds, !Z.eqb_refl. unfold bytes_Equal. by rewrite bool_decide_eq_true_2.
Qed.

(** * Addresses round-trip *)

Section roundtrip.
Context {HF : HashFunctions} {BC : Btcec}.

(** The addresses of the main network that have a text form of their own; the text of a public key is that of its
    hash. *)
Definition address_ok (a : Address) : Prop :=
  match a with
  | AddressPubKeyHash hash netID => bytes_ok hash /\ len hash = 20 /\ netID = PubKeyHashAddrID ChainParams
  | AddressScriptHash hash netID => bytes_ok hash /\ len hash = 20 /\ netID = ScriptHashAddrID ChainParams
  | AddressPubKey_ _ => False
  | AddressWitnessScriptHash hrp v e program =>
      hrp = Bech32HRPSegwit ChainParams /\ v = 0 /\ (e = 0 \/ e = 1) /\ bytes_ok program /\ len program = 32
  | AddressBindingTarget script netID =>
      bytes_ok script /\ newAddressBindingTarget script netID = Ret a /\ netID = PubKeyHashAddrID ChainParams
  end.

(** Strings that do not start like the segwit prefix are not segwit addresses. *)
Lemma not_segwit c s net : c <> 109 -> c <> 77 ->
  DecodeAddress mainRegistry (c :: s) net = decode_other mainRegistry (c :: s) net.
Proof.
  intros H1 H2. unfold DecodeAddress. destruct (Z.gtb_spec (Bech32.LastIndexByte (c :: s) 49) 1) as [Hi|]; [|done].
  assert (Bech32.LastIndexByte (c :: s) 49 < len (c :: s)) as Hlt.
  { destruct (Bech32.LastIndexByte_inv (c :: s) 49 ltac:(lia)) as (h & t & E & Ht).
    rewrite E, Bech32.LastIndexByte_split, len_app, len_cons by done. pose proof (len_nonneg t). lia. }
  rewrite slice_Ret by lia. cbn [mbind outcome_bind].
  match goal with |- (if ?b then _ else _) = _ => assert (b = false) as ->; [|done] end. apply bool_decide_eq_false_2.
  replace (Z.to_nat (Bech32.LastIndexByte (c :: s) 49 + 1 - 0)) with (S (Z.to_nat (Bech32.LastIndexByte (c :: s) 49))) by lia.
  change (drop (Z.to_nat 0) (c :: s)) with (c :: s). cbn [take Bech32.ToLower map].
  cbn [mainRegistry Register bech32SegwitPrefixes]. rewrite elem_of_union, elem_of_singleton. intros [E|?%not_elem_of_empty]; [|done].
  change (string_bytes (Bech32HRPSegwit ChainParams) ++ [49]) with [109; 115; 49] in E. injection E as Hc _.
  unfold Bech32.lower in Hc. destruct ((65 <=? c) && (c <=? 90)); lia.
Qed.

(** The first character of an encoding that starts with version 0 or, for hashes, 5. *)
Lemma version0_head {E} b s : bytes_ok (0 :: b) -> Base58.Encode (E := E) (0 :: b) = Ret s -> exists s', s = 49 :: s'.
Proof.
  intros Hb He. destruct (Base58.Encode_digits (E := E) _ Hb) as (ds & _ & _ & _ & E1). rewrite E1 in He. injection He as <-.
  cbn [count_while]. cbn [Z.eqb]. cbn [replicate app map]. by eexists.
Qed.

Lemma version5_head {E} b s : bytes_ok (5 :: b) -> len b = 24 -> Base58.Encode (E := E) (5 :: b) = Ret s -> exists s', s = 51 :: s'.
Proof.
  intros Hb Hl He. destruct (Base58.Encode_digits (E := E) _ Hb) as (ds & Hds & Nds & Hv & E1). rewrite E1 in He. injection He as <-.
  cbn [count_while]. cbn [Z.eqb Pos.eqb]. cbn [replicate app].
  change (be_decode (5 :: b)) with (of_digits 256 (5 :: b)) in Hv.
  rewrite of_digits_head, Hl in Hv by lia. inversion Hb as [|? ? _ Hb']; subst.
  pose proof (of_digits_nonneg 256 ltac:(lia) b Hb') as H0. pose proof (of_digits_lt 256 ltac:(lia) b Hb') as H1. rewrite Hl in H1.
  destruct ds as [|d l]; [change (of_digits 58 []) with 0 in Hv; lia|].
  inversion Hds as [|? ? Hd Hl']; subst. rewrite of_digits_head in Hv by lia.
  pose proof (of_digits_nonneg 58 ltac:(lia) l Hl') as L0. pose proof (of_digits_lt 58 ltac:(lia) l Hl') as L1. pose proof (len_nonneg l).
  cbn in Nds. assert (0 < 58 ^ len l) by lia.
  assert (len l < 34). { apply (Z.pow_lt_mono_r_iff 58); [lia|lia|]. apply Z.le_lt_trans with (d * 58 ^ len l + of_digits 58 l); [nia|]. rewrite Hv. lia. }
  assert (33 < len l + 1).
  { apply (Z.pow_lt_mono_r_iff 58); [lia|lia|]. apply Z.lt_le_trans with (of_digits 58 l + d * 58 ^ len l); [lia|].
    rewrite Z.pow_add_r, Z.pow_1_r by lia. nia. }
  replace (len l) with 33 in * by lia. assert (d = 2) as -> by lia. cbn [map]. by eexists.
Qed.

(** Base58 strings reach the base58 decoder. *)
Lemma check_string payload v :
  bytes_ok (v :: payload) -> len payload <= 22 -> (v = 0 \/ (v = 5 /\ len payload = 20)) ->
  exists s, Base58.CheckEncode (E := text_error) payload v = Ret s /\
    forall net, DecodeAddress mainRegistry s net =
      if len payload =? 20 then
        let isP2PKH := IsPubKeyHashAddrID mainRegistry v in
        let isP2SH := IsScriptHashAddrID mainRegistry v in
        if isP2PKH && isP2SH then Err ECollision
        else if isP2PKH then wrap EAddress (newAddressPubKeyHash payload v)
        else if isP2SH then wrap EAddress (newAddressScriptHashFromHash payload v)
        else Err EUnknownType
      else if len payload =? 20 + 2 then
        if IsPubKeyHashAddrID mainRegistry v then wrap EAddress (newAddressBindingTarget payload v) else Err EUnknownType
      else Err EUnknownSize.
Proof.
  intros Hb Hl Hv.
  assert (bytes_ok ((v :: payload) ++ Base58.checksum (v :: payload))) as Hbc by (apply Forall_app; split; [done|apply Base58.checksum_ok]).
  destruct (Base58.Decode_Encode (E := Base58.error) _ Hbc) as (s & He & Hd).
  assert (Base58.Encode (E := text_error) ((v :: payload) ++ Base58.checksum (v :: payload)) = Ret s) as He'.
  { destruct (Base58.Encode_digits (E := Base58.error) _ Hbc) as (ds & D1 & D2 & D3 & D4).
    destruct (Base58.Encode_digits (E := text_error) _ Hbc) as (es & F1 & F2 & F3 & F4).
    assert (ds = es) as -> by (apply (digits_unique 58); [lia|done|done|done|done|congruence]). congruence. }
  exists s. split; [exact He'|]. intros net.
  pose proof (Base58.Encode_length _ _ Hbc He') as Hlen. rewrite len_app, len_cons in Hlen. unfold len at 3 in Hlen. rewrite Base58.checksum_length in Hlen.
  assert (exists c s', s = c :: s' /\ c <> 109 /\ c <> 77) as (c & s' & -> & H1 & H2).
  { destruct Hv as [->|[-> H20]].
    - destruct (version0_head (E := text_error) _ s Hbc He') as (s' & ->). by exists 49, s'.
    - destruct (version5_head (E := text_error) (payload ++ Base58.checksum (5 :: payload)) s Hbc) as (s' & ->); [|done|by exists 51, s'].
      rewrite len_app, H20. unfold len. by rewrite Base58.checksum_length. }
  rewrite not_segwit by done. unfold decode_other.
  destruct (Z.eqb_spec (len (c :: s')) 130); [lia|]. destruct (Z.eqb_spec (len (c :: s')) 66); [lia|]. cbn [orb].
  rewrite (Base58.CheckDecode_app _ _ _ _ Hd (Base58.checksum_length _)), bool_decide_eq_true_2 by done. done.
Qed.
(** Addresses of the main network have exactly the text they print: every well-formed pay-to-pubkey-hash,
    pay-to-script-hash, witness script hash (plain or staking) and binding target address is encoded to a
    string which decodes to the same address. *)
Theorem address_text_roundtrip (a : Address) :
  address_ok a ->
  exists s, EncodeAddress a = Ret s /\ DecodeAddress mainRegistry s ChainParams = Ret a.
Proof.
  destruct a as [hash netID|?|hrp v e program|script netID|hash netID]; cbn [address_ok].
  - intros (Hb & Hl & ->). destruct (check_string hash 0) as (s & He & Hd); [by constructor|lia|by left|].
    exists s. cbn [EncodeAddress]. unfold encodeAddress. rewrite slice_Ret by lia. cbn [mbind outcome_bind].
    change (drop (Z.to_nat 0) hash) with hash. rewrite take_ge by (unfold len in Hl; lia). split; [exact He|].
    rewrite Hd, Hl. unfold newAddressPubKeyHash. rewrite Hl. reflexivity.
  - done.
  - intros (-> & -> & Hext & Hb & Hl).
    destruct (segwit_string (string_bytes "ms") 0 e program) as (t & Ht & He & Hd); [|lia|lia|done|done|].
    { split; [vm_compute; split; discriminate|]. split; [|reflexivity]. repeat constructor; vm_compute; discriminate. }
    exists (string_bytes "ms" ++ 49 :: t). cbn [EncodeAddress Bech32HRPSegwit ChainParams]. rewrite He. split; [done|].
    unfold DecodeAddress. rewrite Bech32.LastIndexByte_split by done. change (len (string_bytes "ms") >? 1) with true.
    pose proof (len_nonneg t).
    rewrite slice_Ret by (rewrite ?len_app, ?len_cons; change (len (string_bytes "ms")) with 2; lia). cbn [mbind outcome_bind].
    change (take _ _) with [109; 115; 49]. change (IsBech32SegwitPrefix mainRegistry [109; 115; 49]) with true. cbn iota.
    unfold decode_segwit. rewrite Hd. cbn [mbind outcome_bind]. rewrite Hl.
    change (slice [109; 115; 49] 0 (len [109; 115; 49] - 1)) with (@Ret text_error bytes [109; 115]). cbn [mbind outcome_bind].
    unfold newAddressWitnessScriptHash. rewrite Hl. by destruct Hext as [-> | ->].
  - intros (Hb & Hnew & ->).
    assert (len script = 22) as Hl.
    { unfold newAddressBindingTarget in Hnew. by destruct (Z.eqb_spec (len script) (20 + 2)); [|done]. }
    destruct (check_string script 0) as (s & He & Hd); [by constructor|lia|by left|].
    exists s. split; [exact He|]. rewrite Hd, Hl. change (IsPubKeyHashAddrID mainRegistry 0) with true. cbn iota.
    change (22 =? 20) with false. change (22 =? 20 + 2) with true. cbn iota. cbn in Hnew. by rewrite Hnew.
  - intros (Hb & Hl & ->). destruct (check_string hash 5) as (s & He & Hd); [by constructor|lia|by right|].
    exists s. cbn [EncodeAddress]. unfold encodeAddress. rewrite slice_Ret by lia. cbn [mbind outcome_bind].
    change (drop (Z.to_nat 0) hash) with hash. rewrite take_ge by (unfold len in Hl; lia). split; [exact He|].
    rewrite Hd, Hl. unfold newAddressScriptHashFromHash. rewrite Hl. reflexivity.
Qed.

End roundtrip.

(** * Panics *)

Lemma check_chars_no_panic s : Bech32.check_chars s <> Panic.
Proof. induction s as [|c s IH]; cbn [Bech32.check_chars]; [done|]. by case_if. Qed.

Lemma toBytes_no_panic s : Bech32.toBytes s <> Panic.
Proof.
  induction s as [|c s IH]; [done|]. cbn [Bech32.toBytes]. generalize (Bech32.IndexByte Bech32.charset c). intros i.
  case_if; [done|]. by destruct (Bech32.toBytes s).
Qed.

Lemma Decode_no_panic s : Bech32.Decode s <> Panic.
Proof.
  unfold Bech32.Decode. case_if; [done|].
  pose proof (check_chars_no_panic s). destruct (Bech32.check_chars s) as [[]|e|]; cbn [mbind outcome_bind]; [|done|done].
  case_if; [done|]. case_if; [done|]. bool_to_prop.
  destruct (Bech32.LastIndexByte_inv (Bech32.ToLower s) 49 ltac:(lia)) as (h & t & E & Ht). rewrite E in *.
  pose proof (Bech32.LastIndexByte_split h 49 t Ht) as HL. pose proof (len_app h (49 :: t)) as Hlen. rewrite len_cons in Hlen.
  assert (h <> []) as Hne by (intros ->; change (len (@nil Z)) with 0 in HL; lia).
  destruct (Bech32.read_parts h t Ht Hne ltac:(lia)) as (_ & -> & ->). cbn [mbind outcome_bind].
  pose proof (toBytes_no_panic t). destruct (Bech32.toBytes t) as [dec|e|] eqn:Hdec; cbn [mbind outcome_bind]; [|done|done].
  apply Bech32.toBytes_Ret in Hdec as [_ ->]. unfold len in *. rewrite length_map in *.
  rewrite slice_Ret by (unfold len; lia). cbn [mbind outcome_bind]. by case_if.
Qed.

(** A short segwit address crashes the decoder.  The guard tests that there is one data group, but two are read:
    decodeSegWitAddress reads out of range and panics when a bech32 string carries exactly one
    group, of value at most 16, and on no other string; DecodeAddress panics on such a string, for
    example ms1qaft5az. *)
Theorem short_address_panics :
  (forall s : bytes,
    decodeSegWitAddress s = Panic <-> exists hrp v, Bech32.Decode s = Ret (hrp, [v]) /\ v <= 16) /\
  (forall (BC : Btcec) (HF : HashFunctions) net,
    DecodeAddress mainRegistry (string_bytes "ms1qaft5az") net = Panic).
Proof.
  split; [|intros; vm_compute; reflexivity]. intros s. unfold decodeSegWitAddress.
  pose proof (Decode_no_panic s) as Hnp. destruct (Bech32.Decode s) as [[hrp data]|e|] eqn:Hdec;
    cbn [wrap mbind outcome_bind]; [|split; [done|by intros (? & ? & ? & ?)]|done].
  destruct data as [|v [|w rest]].
  - split; [done|]. by intros (? & ? & ? & ?).
  - change (len [v] <? 1) with false. cbn iota. change (index (E := text_error) [v] 0) with (@Ret text_error Z v).
    change (index (E := text_error) [v] 1) with (@Panic text_error Z). cbn [mbind outcome_bind].
    destruct (Z.gtb_spec v 16); split; [done|intros (? & ? & [= <- <-] & ?); lia|intros _; by exists hrp, v|done].
  - split; [|by intros (? & ? & ? & ?)]. pose proof (len_nonneg rest). rewrite !len_cons.
    destruct (Z.ltb_spec (1 + (1 + len rest)) 1); [lia|].
    change (index (E := text_error) (v :: w :: rest) 0) with (@Ret text_error Z v).
    change (index (E := text_error) (v :: w :: rest) 1) with (@Ret text_error Z w). cbn [mbind outcome_bind].
    case_if; [done|]. case_if; [done|]. rewrite slice_Ret by (rewrite ?len_cons; lia). cbn [mbind outcome_bind].
    unfold Bech32.ConvertBits. cbn zeta. repeat case_if; cbn [wrap mbind outcome_bind]; by repeat case_if.
Qed.

Lemma short_address_panics_witness :
  Bech32.Decode (string_bytes "ms1qaft5az") = Ret (string_bytes "ms", [0]) /\
  decodeSegWitAddress (string_bytes "ms1qaft5az") = Panic.
Proof.
  split; [vm_compute; reflexivity|]. apply (proj1 short_address_panics).
  exists (string_bytes "ms"), 0. split; [vm_compute; reflexivity|discriminate].
Defined.

Lemma address_text_roundtrip_witness :
  address_ok (BC := Toy.btcec) (AddressWitnessScriptHash "ms" 0 1 (replicate 32 7)) /\
  exists s, EncodeAddress (HF := Sha.concrete) (BC := Toy.btcec) (AddressWitnessScriptHash "ms" 0 1 (replicate 32 7)) = Ret s /\
    DecodeAddress (HF := Sha.concrete) (BC := Toy.btcec) mainRegistry s ChainParams =
    Ret (AddressWitnessScriptHash "ms" 0 1 (replicate 32 7)).
Proof.
  assert (address_ok (BC := Toy.btcec) (AddressWitnessScriptHash "ms" 0 1 (replicate 32 7))) as H.
  { split; [reflexivity|]. split; [reflexivity|]. split; [right; reflexivity|]. split; [solve_bytes|reflexivity]. }
  split; [exact H|]. apply (address_text_roundtrip (HF := Sha.concrete) (BC := Toy.btcec) _ H).
Defined.
