(* ===== verification/TrieEncoding.v ===== *)
(** The key encodings of the state trie (trie/encoding.go): key bytes, hex keys (a nibble per
    byte, with an optional terminator 16) and the compact form stored on disk. *)

From S2P Require Import Prelude.

Section encoding.
Context {E : Type}.

Definition hasTerm (s : bytes) : bool :=
  match last s with Some c => c =? 16 | None => false end.

(** [decodeNibbles] fills its buffer, which its callers make of the right size; an odd number of
    nibbles reads out of range. *)
Fixpoint decodeNibbles (nibbles : bytes) : outcome E bytes :=
  match nibbles with
  | [] => Ret []
  | a :: b :: rest => r ← decodeNibbles rest; Ret (Z.lor (uint8 (Z.shiftl a 4)) b :: r)
  | [_] => Panic
  end.

Definition hexToCompact (hex : bytes) : outcome E bytes :=
  let terminator := if hasTerm hex then 1 else 0 in
  hex ← (if hasTerm hex then slice hex 0 (len hex - 1) else Ret hex);
  let flag := uint8 (Z.shiftl terminator 5) in
  '(flag, hex) ← (if Z.land (len hex) 1 =? 1 then
                    first ← index hex 0; rest ← slice hex 1 (len hex);
                    Ret (Z.lor (Z.lor flag (Z.shiftl 1 4)) first, rest)
                  else Ret (flag, hex));
  r ← decodeNibbles hex;
  Ret (flag :: r).

Definition keybytesToHex (str : bytes) : bytes := (str ≫= fun b => [b / 16; b mod 16]) ++ [16].

Definition compactToHex (compact : bytes) : outcome E bytes :=
  if len compact =? 0 then Ret compact
  else
    let base := keybytesToHex compact in
    b0 ← index base 0;
    base ← (if b0 <? 2 then slice base 0 (len base - 1) else Ret base);
    let chop := 2 - Z.land b0 1 in
    slice base chop (len base).

Definition hexToKeybytes (hex : bytes) : outcome E bytes :=
  hex ← (if hasTerm hex then slice hex 0 (len hex - 1) else Ret hex);
  if negb (Z.land (len hex) 1 =? 0) then Panic else decodeNibbles hex.

Fixpoint prefixLen (a b : bytes) : Z :=
  match a, b with
  | x :: a', y :: b' => if x =? y then 1 + prefixLen a' b' else 0
  | _, _ => 0
  end.

(** The loop of hexToCompactInPlace overwrites the buffer it reads. *)
Definition set_index (l : bytes) (i x : Z) : outcome E bytes :=
  if (0 <=? i) && (i <? len l) then Ret (<[Z.to_nat i := x]> l) else Panic.

Fixpoint compact_loop (fuel : nat) (hexLen bi ni : Z) (hex : bytes) : outcome E bytes :=
  match fuel with
  | O => Ret hex
  | S fuel' =>
      if ni <? hexLen then
        a ← index hex ni; b ← index hex (ni + 1);
        hex ← set_index hex bi (Z.lor (uint8 (Z.shiftl a 4)) b);
        compact_loop fuel' hexLen (bi + 1) (ni + 2) hex
      else Ret hex
  end.

(** Returns the buffer and the length of the compact key in it. *)
Definition hexToCompactInPlace (hex : bytes) : outcome E (bytes * Z) :=
  let hexLen := len hex in
  let term := hasTerm hex in
  let firstByte := if term then 32 else 0 in
  let hexLen := if term then hexLen - 1 else hexLen in
  let binLen := hexLen / 2 + 1 in
  '(firstByte, ni) ← (if Z.land hexLen 1 =? 1 then
                        first ← index hex 0; Ret (Z.lor (Z.lor firstByte 16) first, 1)
                      else Ret (firstByte, 0));
  hex ← compact_loop (length hex) hexLen 1 ni hex;
  hex ← set_index hex 0 firstByte;
  Ret (hex, binLen).
End encoding.

Example compact_leaf : hexToCompact (E := unit) [15; 1; 12; 11; 8; 16] = Ret [63; 28; 184].
Proof. vm_compute. reflexivity. Qed.
Example compact_ext : hexToCompact (E := unit) [1; 2; 3; 4] = Ret [0; 18; 52].
Proof. vm_compute. reflexivity. Qed.
Example compact_in_place : hexToCompactInPlace (E := unit) [15; 1; 12; 11; 8; 16] = Ret ([63; 28; 184; 11; 8; 16], 3).
Proof. vm_compute. reflexivity. Qed.

(** * Round trips *)

Abbreviation nibbles := (Forall (fun c => 0 <= c < 16)).

(** A hex key: nibbles, then the terminator or not. *)
Definition term_bytes (t : bool) : bytes := if t then [16] else [].

Lemma Forall_pair_ind (P : bytes -> Prop) :
  P [] -> (forall a b l, P l -> P (a :: b :: l)) -> forall l, Nat.even (length l) = true -> P l.
Proof.
  intros H0 H2 l. remember (length l) as n eqn:Hn. revert l Hn.
  induction n as [n IH] using lt_wf_ind. intros [|a [|b l]] -> He; [done|done|].
  apply H2. apply (IH (length l)); [cbn; lia|done|done].
Qed.

Section roundtrip.
Context {E : Type}.

Lemma nibble_pair a b : 0 <= a < 16 -> 0 <= b < 16 -> Z.lor (uint8 (Z.shiftl a 4)) b = 16 * a + b.
Proof.
  intros Ha Hb. rewrite Z.lor_comm, wrapU_small by (rewrite Z.shiftl_mul_pow2 by lia; lia).
  rewrite lor_shiftl_add by lia. lia.
Qed.

(** Pairs of nibbles and bytes. *)
Lemma decodeNibbles_spec l :
  nibbles l -> Nat.even (length l) = true ->
  exists b, decodeNibbles (E := E) l = Ret b /\ bytes_ok b /\ (b ≫= fun x => [x / 16; x mod 16]) = l /\
    2 * len b = len l.
Proof.
  intros Hl He. revert Hl. pattern l. apply Forall_pair_ind; [|clear|done].
  - intros _. by exists [].
  - intros a b l IH Hl. inversion Hl as [|? ? Ha Hl']; subst. inversion Hl' as [|? ? Hb Hl'']; subst.
    destruct (IH Hl'') as (r & Hr & Hok & Hm & Hlen). cbn [decodeNibbles]. rewrite Hr. cbn [mbind outcome_bind].
    rewrite nibble_pair by done. eexists. split; [done|]. split; [constructor; [unfold is_byte; lia|done]|].
    rewrite !len_cons. split; [|lia]. rewrite bind_cons. rewrite Hm. cbn [app].
    f_equal; [|f_equal].
    + rewrite Z.mul_comm, Z.div_add_l by lia. rewrite Z.div_small by lia. lia.
    + rewrite Z.add_comm, Z.mul_comm, Z.mod_add by lia. by apply Z.mod_small.
Qed.

Lemma keybytes_nibbles b : bytes_ok b -> nibbles (b ≫= fun x => [x / 16; x mod 16]).
Proof.
  induction 1 as [|x b Hx Hb IH]; [done|]. rewrite bind_cons. unfold is_byte in Hx.
  apply Forall_app. split; [|done]. pose proof (Z.mod_pos_bound x 16 ltac:(lia)).
  repeat constructor; try lia; [apply Z.div_pos; lia|apply Z.div_lt_upper_bound; lia].
Qed.

Lemma decodeNibbles_keybytes b : bytes_ok b -> decodeNibbles (E := E) (b ≫= fun x => [x / 16; x mod 16]) = Ret b.
Proof.
  induction 1 as [|x b Hx Hb IH]; [done|]. rewrite bind_cons. cbn [app decodeNibbles].
  rewrite IH. cbn [mbind outcome_bind]. unfold is_byte in Hx. pose proof (Z.mod_pos_bound x 16 ltac:(lia)).
  pose proof (Z.div_mod x 16 ltac:(lia)).
  rewrite nibble_pair; [|split; [apply Z.div_pos; lia|apply Z.div_lt_upper_bound; lia]|done]. do 2 f_equal. lia.
Qed.

Lemma hasTerm_app ns t : nibbles ns -> hasTerm (ns ++ term_bytes t) = t.
Proof.
  intros Hn. unfold hasTerm, term_bytes. destruct t.
  - by rewrite last_snoc.
  - rewrite app_nil_r. destruct ns as [|x ns _] using rev_ind; [done|]. rewrite last_snoc.
    rewrite Forall_app, Forall_singleton in Hn. apply Z.eqb_neq. lia.
Qed.

Lemma strip_term (A : Type) ns t (k : bytes -> outcome E A) :
  nibbles ns ->
  (h ← (if hasTerm (ns ++ term_bytes t) then slice (ns ++ term_bytes t) 0 (len (ns ++ term_bytes t) - 1)
        else Ret (ns ++ term_bytes t)); k h) = k ns.
Proof.
  intros Hn. rewrite hasTerm_app by done. destruct t; cbn [term_bytes]; [|by rewrite app_nil_r].
  pose proof (len_nonneg ns). rewrite slice_Ret by (rewrite len_app, len_one; lia). cbn [mbind outcome_bind]. f_equal.
  rewrite len_app, len_one. replace (Z.to_nat (len ns + 1 - 1 - 0)) with (length ns) by (unfold len; lia).
  apply take_app_length.
Qed.

Lemma odd_of_nat n : Z.odd (Z.of_nat n) = Nat.odd n.
Proof. induction n as [|n IH]; [done|]. rewrite Nat2Z.inj_succ, Z.odd_succ, Nat.odd_succ, <- Z.negb_odd, <- Nat.negb_odd. by rewrite IH. Qed.

Lemma odd_len (l : bytes) : (Z.land (len l) 1 =? 1) = Nat.odd (length l).
Proof.
  unfold len. change (Z.land (Z.of_nat (length l)) 1) with (Z.land (Z.of_nat (length l)) (Z.ones 1)).
  rewrite Z.land_ones by lia. change (2 ^ 1) with 2. rewrite Zmod_odd, odd_of_nat. by destruct (Nat.odd (length l)).
Qed.

Lemma even_len (l : bytes) : (Z.land (len l) 1 =? 0) = Nat.even (length l).
Proof.
  unfold len. change (Z.land (Z.of_nat (length l)) 1) with (Z.land (Z.of_nat (length l)) (Z.ones 1)).
  rewrite Z.land_ones by lia. change (2 ^ 1) with 2. rewrite Zmod_odd, odd_of_nat, <- Nat.negb_odd. by destruct (Nat.odd (length l)).
Qed.

(** The compact form: a flag byte with the first nibble when their number is odd, then pairs. *)
Definition flag (t : bool) : Z := if t then 32 else 0.

Lemma hexToCompact_even ns t : nibbles ns -> Nat.even (length ns) = true ->
  exists b, decodeNibbles (E := E) ns = Ret b /\ hexToCompact (E := E) (ns ++ term_bytes t) = Ret (flag t :: b).
Proof.
  intros Hn He. destruct (decodeNibbles_spec ns Hn He) as (b & Hb & _). exists b. split; [done|].
  unfold hexToCompact. cbn zeta. rewrite strip_term by done. rewrite hasTerm_app by done.
  rewrite odd_len, <- Nat.negb_even, He. cbn [negb mbind outcome_bind]. rewrite Hb. by destruct t.
Qed.

Lemma hexToCompact_odd x ns t : nibbles (x :: ns) -> Nat.even (length ns) = true ->
  exists b, decodeNibbles (E := E) ns = Ret b /\ hexToCompact (E := E) ((x :: ns) ++ term_bytes t) = Ret (flag t + 16 + x :: b).
Proof.
  intros Hn He. inversion Hn as [|? ? Hx Hns]; subst. destruct (decodeNibbles_spec ns Hns He) as (b & Hb & _). exists b. split; [done|].
  unfold hexToCompact. cbn zeta. rewrite strip_term by done. rewrite hasTerm_app by done.
  rewrite odd_len. cbn [length]. rewrite Nat.odd_succ, He. cbn iota.
  change (index (E := E) (x :: ns) 0) with (@Ret E Z x). cbn [mbind outcome_bind].
  pose proof (len_nonneg ns). rewrite slice_Ret by (rewrite len_cons; lia). cbn [mbind outcome_bind].
  change (drop (Z.to_nat 1) (x :: ns)) with ns. rewrite take_ge by (rewrite len_cons; unfold len; lia). rewrite Hb. cbn [mbind outcome_bind].
  do 2 f_equal. assert (Z.lor (uint8 (Z.shiftl (if t then 1 else 0) 5)) (Z.shiftl 1 4) = Z.shiftl (if t then 3 else 1) 4) as -> by by destruct t.
  rewrite Z.lor_comm, lor_shiftl_add by lia. destruct t; cbn [flag]; lia.
Qed.

(** What the decoder makes of a flag byte. *)
Lemma compactToHex_cons (f : Z) (b : bytes) (t odd : bool) (x : Z) :
  0 <= x < 16 -> bytes_ok b -> f = flag t + (if odd then 16 + x else 0) ->
  compactToHex (E := E) (f :: b) =
  Ret ((if odd then [x] else []) ++ (b ≫= fun y => [y / 16; y mod 16]) ++ term_bytes t).
Proof.
  intros Hx Hb Hf. unfold compactToHex. rewrite len_cons. pose proof (len_nonneg b). destruct (Z.eqb_spec (1 + len b) 0); [lia|].
  unfold keybytesToHex. rewrite bind_cons. set (ns := b ≫= _). cbn [app].
  assert (f / 16 = (if t then 2 else 0) + (if odd then 1 else 0) /\ f mod 16 = if odd then x else 0) as [Hq Hr].
  { subst f. destruct t, odd; cbn [flag].
    - rewrite <- (Z.div_unique_pos (32 + (16 + x)) 16 3 x), <- (Z.mod_unique_pos (32 + (16 + x)) 16 3 x) by lia. done.
    - done.
    - rewrite <- (Z.div_unique_pos (0 + (16 + x)) 16 1 x), <- (Z.mod_unique_pos (0 + (16 + x)) 16 1 x) by lia. done.
    - done. }
  rewrite Hq, Hr. set (q := (if t then 2 else 0) + (if odd then 1 else 0)). set (r := if odd then x else 0).
  change (index (E := E) (q :: r :: ns ++ [16]) 0) with (@Ret E Z q). cbn [mbind outcome_bind].
  assert (forall base, len base = len ns + 2 \/ len base = len ns + 3 -> base = q :: r :: ns ++ term_bytes t ->
    slice (E := E) base (2 - Z.land q 1) (len base) = Ret ((if odd then [x] else []) ++ ns ++ term_bytes t)) as Hslice.
  { intros base Hl ->. pose proof (len_nonneg ns).
    assert (2 - Z.land q 1 = if odd then 1 else 2) as -> by (unfold q; by destruct t, odd).
    rewrite slice_Ret by (destruct odd; lia).
    f_equal. rewrite take_ge by (rewrite length_drop; unfold len in *; destruct odd; lia).
    unfold r. by destruct odd. }
  destruct t.
  - assert ((q <? 2) = false) as -> by (unfold q; by destruct odd). cbn [mbind outcome_bind]. apply Hslice; [|done].
    right. rewrite !len_cons, len_app, len_one. lia.
  - assert ((q <? 2) = true) as -> by (unfold q; by destruct odd).
    rewrite slice_Ret by (rewrite ?len_cons, ?len_app, ?len_one; pose proof (len_nonneg ns); lia). cbn [mbind outcome_bind].
    apply Hslice; cbn [term_bytes]; rewrite ?app_nil_r.
    + left. rewrite len_take, len_drop, !len_cons, len_app, len_one. pose proof (len_nonneg ns). lia.
    + change (drop (Z.to_nat 0) (q :: r :: ns ++ [16])) with (q :: r :: ns ++ [16]). rewrite !len_cons, len_app, len_one.
      replace (Z.to_nat (1 + (1 + (len ns + 1)) - 1 - 0)) with (S (S (length ns))) by (unfold len; lia). cbn [take].
      by rewrite take_app_length.
Qed.
Lemma compact_roundtrip ns t : nibbles ns ->
  exists c, hexToCompact (E := E) (ns ++ term_bytes t) = Ret c /\ bytes_ok c /\ compactToHex (E := E) c = Ret (ns ++ term_bytes t).
Proof.
  intros Hn. destruct (Nat.even (length ns)) eqn:He.
  - destruct (hexToCompact_even ns t Hn He) as (b & Hb & ->). destruct (decodeNibbles_spec ns Hn He) as (b' & Hb' & Hok & Hm & _).
    rewrite Hb in Hb'. injection Hb' as <-. eexists. split; [done|]. split; [constructor; [unfold is_byte; destruct t; cbn; lia|done]|].
    rewrite (compactToHex_cons (flag t) b t false 0) by (done || lia). by rewrite Hm.
  - destruct ns as [|x ns]; [done|]. cbn [length] in He. rewrite Nat.even_succ, <- Nat.negb_even in He. apply negb_false_iff in He.
    destruct (hexToCompact_odd x ns t Hn He) as (b & Hb & ->). inversion Hn as [|? ? Hx Hns]; subst.
    destruct (decodeNibbles_spec ns Hns He) as (b' & Hb' & Hok & Hm & _).
    rewrite Hb in Hb'. injection Hb' as <-. eexists. split; [done|]. split; [constructor; [unfold is_byte; destruct t; cbn; lia|done]|].
    rewrite (compactToHex_cons (flag t + 16 + x) b t true x) by (done || lia). by rewrite Hm.
Qed.

Lemma keybytes_roundtrip k : bytes_ok k -> hexToKeybytes (E := E) (keybytesToHex k) = Ret k.
Proof.
  intros Hk. unfold hexToKeybytes, keybytesToHex. change [16] with (term_bytes true). rewrite strip_term by by apply keybytes_nibbles.
  rewrite even_len. assert (Nat.even (length (k ≫= fun b => [b / 16; b mod 16])) = true) as ->; [|by apply decodeNibbles_keybytes].
  clear. induction k as [|x k IH]; [done|]. by rewrite bind_cons.
Qed.

(** ** The encoder that works in place *)

(** The loop replaces a segment of the buffer by the pairs of the nibbles it reads, never
    overwriting a nibble before it is read. *)
Lemma compact_loop_spec (rest : bytes) : Nat.even (length rest) = true ->
  forall f (bi ni : nat) h tl,
  nibbles rest -> (length rest <= f)%nat -> (1 <= bi <= S ni)%nat -> drop ni h = rest ++ tl ->
  exists b, decodeNibbles (E := E) rest = Ret b /\
    compact_loop (E := E) f (Z.of_nat ni + len rest) (Z.of_nat bi) (Z.of_nat ni) h = Ret (take bi h ++ b ++ drop (bi + length b) h).
Proof.
  intros He. pattern rest. apply Forall_pair_ind; [| |done]; clear rest He.
  - intros f bi ni h tl _ _ _ _. exists []. split; [done|]. cbn [app length]. rewrite Nat.add_0_r, take_drop.
    destruct f; cbn [compact_loop]; [done|]. change (len (@nil Z)) with 0. by rewrite Z.add_0_r, Z.ltb_irrefl.
  - intros a c rest IH f bi ni h tl Hn Hf Hbi Hd. destruct f as [|f]; [cbn in Hf; lia|]. cbn [length] in Hf.
    inversion Hn as [|? ? Ha Hn']; subst. inversion Hn' as [|? ? Hc Hr]; subst.
    assert (forall i, h !! (ni + i)%nat = (a :: c :: rest ++ tl) !! i) as Hlook by (intros i; by rewrite <- lookup_drop, Hd).
    assert (S ni < length h)%nat as Hlen.
    { apply lookup_lt_is_Some_1. exists c. rewrite <- Nat.add_1_r. apply (Hlook 1%nat). }
    cbn [compact_loop]. rewrite !len_cons. pose proof (len_nonneg rest).
    destruct (Z.ltb_spec (Z.of_nat ni) (Z.of_nat ni + (1 + (1 + len rest)))); [|lia].
    rewrite (proj2 (index_Ret (E := E) h (Z.of_nat ni) a)).
    2:{ split; [lia|]. rewrite Nat2Z.id, <- (Nat.add_0_r ni). apply (Hlook 0%nat). }
    rewrite (proj2 (index_Ret (E := E) h (Z.of_nat ni + 1) c)).
    2:{ split; [lia|]. replace (Z.to_nat (Z.of_nat ni + 1)) with (ni + 1)%nat by lia. apply (Hlook 1%nat). }
    cbn [mbind outcome_bind]. unfold set_index.
    replace ((0 <=? Z.of_nat bi) && (Z.of_nat bi <? len h)) with true
      by (symmetry; unfold len; rewrite andb_true_iff, Z.leb_le, Z.ltb_lt; lia).
    cbn [mbind outcome_bind]. rewrite Nat2Z.id, nibble_pair by done. set (h1 := <[bi:=16 * a + c]> h).
    destruct (IH f (S bi) (S (S ni)) h1 tl Hr ltac:(lia) ltac:(lia)) as (b & Hb & HL).
    { unfold h1. rewrite drop_insert_lt by lia. replace (S (S ni)) with (ni + 2)%nat by lia.
      rewrite <- drop_drop, Hd. done. }
    exists (16 * a + c :: b). split; [cbn [decodeNibbles]; rewrite Hb; cbn [mbind outcome_bind]; by rewrite nibble_pair|].
    replace (Z.of_nat bi + 1) with (Z.of_nat (S bi)) by lia. replace (Z.of_nat ni + 2) with (Z.of_nat (S (S ni))) by lia.
    replace (Z.of_nat ni + (1 + (1 + len rest))) with (Z.of_nat (S (S ni)) + len rest) by lia. rewrite HL. f_equal. cbn [length].
    unfold h1. rewrite (take_S_r _ bi (16 * a + c)) by (apply list_lookup_insert_eq; lia).
    rewrite take_insert_ge, drop_insert_lt by lia. rewrite <- app_assoc. cbn [app].
    by replace (S bi + length b)%nat with (bi + S (length b))%nat by lia.
Qed.
Lemma in_place_equiv ns t : nibbles ns -> ns ++ term_bytes t <> [] ->
  exists c buf, hexToCompact (E := E) (ns ++ term_bytes t) = Ret c /\
    hexToCompactInPlace (E := E) (ns ++ term_bytes t) = Ret (buf, len c) /\ take (length c) buf = c.
Proof.
  intros Hn Hne. set (h := ns ++ term_bytes t) in *.
  assert (0 < length h)%nat as Hpos by (destruct h; [done|cbn; lia]).
  unfold hexToCompactInPlace. cbn zeta. assert (hasTerm h = t) as -> by by apply hasTerm_app.
  assert ((if t then len h - 1 else len h) = len ns) as -> by (unfold h; rewrite len_app; destruct t; cbn [term_bytes]; rewrite ?len_one; change (len (@nil Z)) with 0; lia).
  assert (set_head : forall buf x, (0 < length buf)%nat -> set_index (E := E) buf 0 x = Ret (<[0%nat:=x]> buf)).
  { intros buf x Hb. unfold set_index. replace ((0 <=? 0) && (0 <? len buf)) with true; [done|].
    symmetry. unfold len. rewrite andb_true_iff, Z.leb_le, Z.ltb_lt. lia. }
  assert (finish : forall b x, (length b < length h)%nat ->
    exists buf, <[0%nat:=x]> (take 1 h ++ b ++ drop (1 + length b) h) = buf /\ take (S (length b)) buf = x :: b).
  { intros b x Hb. eexists. split; [done|]. destruct h as [|y h']; [done|].
    change (take 1 (y :: h')) with [y]. cbn [app]. change (<[0%nat:=x]> (y :: ?l)) with (x :: l). cbn [take]. f_equal.
    apply take_app_length. }
  destruct (Nat.even (length ns)) eqn:He.
  - destruct (hexToCompact_even ns t Hn He) as (b & Hb & Hc). fold h in Hc.
    destruct (decodeNibbles_spec ns Hn He) as (b' & Hb' & _ & _ & Hlb). rewrite Hb in Hb'. injection Hb' as <-.
    rewrite odd_len, <- Nat.negb_even, He. cbn [negb mbind outcome_bind].
    destruct (compact_loop_spec ns He (length h) 1 0 h (term_bytes t) Hn) as (b' & Hb' & HL); [unfold h; rewrite length_app; lia|lia|done|].
    rewrite Hb in Hb'. injection Hb' as <-. change (Z.of_nat 0) with 0 in HL. rewrite Z.add_0_l in HL. change (Z.of_nat 1) with 1 in HL. rewrite HL. cbn [mbind outcome_bind].
    assert (length b < length h)%nat by (unfold h, len in *; rewrite length_app in *; lia).
    rewrite set_head by (rewrite !length_app, length_take; lia). cbn [mbind outcome_bind].
    destruct (finish b (if t then 32 else 0)) as (buf & -> & Htk); [done|].
    exists (flag t :: b), buf. split; [done|]. split; [|by destruct t].
    do 2 f_equal. rewrite len_cons. symmetry. rewrite <- Hlb, Z.mul_comm, Z.div_mul by lia. lia.
  - destruct ns as [|x ns]; [done|]. cbn [length] in He. rewrite Nat.even_succ, <- Nat.negb_even in He. apply negb_false_iff in He.
    destruct (hexToCompact_odd x ns t Hn He) as (b & Hb & Hc). fold h in Hc. inversion Hn as [|? ? Hx Hns]; subst.
    destruct (decodeNibbles_spec ns Hns He) as (b' & Hb' & _ & _ & Hlb). rewrite Hb in Hb'. injection Hb' as <-.
    rewrite odd_len. cbn [length]. rewrite Nat.odd_succ, He. cbn iota.
    change (index (E := E) h 0) with (@Ret E Z x). cbn [mbind outcome_bind].
    destruct (compact_loop_spec ns He (length h) 1 1 h (term_bytes t) Hns) as (b' & Hb' & HL); [unfold h; rewrite length_app; cbn [length]; lia|lia|done|].
    rewrite Hb in Hb'. injection Hb' as <-. change (Z.of_nat 1) with 1 in HL. rewrite <- len_cons with (x := x) in HL. rewrite HL. cbn [mbind outcome_bind].
    assert (length b < length h)%nat by (unfold h, len in *; rewrite length_app in *; cbn [length] in *; lia).
    rewrite set_head by (rewrite !length_app, length_take; lia). cbn [mbind outcome_bind].
    assert (Z.lor (Z.lor (if t then 32 else 0) 16) x = flag t + 16 + x) as ->.
    { assert (Z.lor (if t then 32 else 0) 16 = Z.shiftl (if t then 3 else 1) 4) as -> by by destruct t.
      rewrite Z.lor_comm, lor_shiftl_add by lia. destruct t; cbn [flag]; lia. }
    destruct (finish b (flag t + 16 + x)) as (buf & -> & Htk); [done|].
    exists (flag t + 16 + x :: b), buf. split; [done|]. split; [|done].
    do 2 f_equal. rewrite !len_cons. assert (len ns = 2 * len b) as -> by lia.
    rewrite Z.mul_comm, Z.div_add by lia. change (1 / 2) with 0. lia.
Qed.
End roundtrip.

(** The key encodings of the trie round-trip.  The hex form of a key converts back to the key; every
    hex key - nibbles, with or without the terminator, of either parity, the empty one included -
    has a compact form, from which it is recovered; and the encoder that works in place computes the same compact form
    in the front of its buffer. *)
Theorem key_encodings_roundtrip (k ns : bytes) (t : bool) :
  bytes_ok k -> nibbles ns ->
  hexToKeybytes (E := unit) (keybytesToHex k) = Ret k /\
  exists c, hexToCompact (E := unit) (ns ++ term_bytes t) = Ret c /\ bytes_ok c /\
    compactToHex (E := unit) c = Ret (ns ++ term_bytes t) /\
    (ns ++ term_bytes t <> [] ->
     exists buf, hexToCompactInPlace (E := unit) (ns ++ term_bytes t) = Ret (buf, len c) /\ take (length c) buf = c).
Proof.
  intros Hk Hn. split; [by apply keybytes_roundtrip|].
  destruct (compact_roundtrip (E := unit) ns t Hn) as (c & Hc & Hok & Hback). exists c. split; [done|]. split; [done|].
  split; [done|]. intros Hne. destruct (in_place_equiv (E := unit) ns t Hn Hne) as (c' & buf & Hc' & Hb & Htk).
  rewrite Hc in Hc'. injection Hc' as <-. by exists buf.
Qed.

Lemma key_encodings_roundtrip_witness :
  hexToKeybytes (E := unit) (keybytesToHex [0x12; 0x3f]) = Ret [0x12; 0x3f] /\
  exists c, hexToCompact (E := unit) [1; 2; 3; 16] = Ret c /\ compactToHex (E := unit) c = Ret [1; 2; 3; 16].
Proof.
  destruct (key_encodings_roundtrip [0x12; 0x3f] [1; 2; 3] true) as [H1 (c & H2 & _ & H3 & _)].
  - solve_bytes.
  - repeat constructor; discriminate.
  - split; [exact H1|]. exists c. split; [exact H2|exact H3].
Defined.
