(* ===== verification/Trie.v ===== *)
(** The state trie (trie/trie.go): a Merkle Patricia trie over nodes that are in memory or, as
    hash nodes, in a database.  The database is the argument [db] of the operations: what
    Database.node returns for a hash.  Go's nil node is [NilNode]. *)

From S2P Require Import Prelude TrieEncoding.

(** * Nodes *)

Record nodeFlag := mkFlag { hash : option bytes; dirty : bool }.

Inductive node : Type :=
| NilNode
| ValueNode (v : bytes)
| ShortNode (Key : bytes) (Val : node) (flags : nodeFlag)
| FullNode (Children : list node) (flags : nodeFlag)
| HashNode (h : bytes).

Inductive trie_error : Type :=
| MissingNodeError (NodeHash Path : bytes)
| OutOfFuel.

Abbreviation result := (outcome trie_error).

Definition newFlag : nodeFlag := mkFlag None true.

(** common.BytesToHash: the last 32 bytes, padded on the left. *)
Definition BytesToHash (b : bytes) : bytes :=
  let b := if len b >? 32 then drop (length b - 32) b else b in
  replicate (32 - length b) 0 ++ b.

Section trie.
Context (db : bytes -> option node).

Definition resolveHash (n prefix : bytes) : result node :=
  let h := BytesToHash n in
  match db h with
  | Some nd => Ret nd
  | None => Err (MissingNodeError h prefix)
  end.

Definition resolve (n : node) (prefix : bytes) : result node :=
  match n with
  | HashNode h => resolveHash h prefix
  | _ => Ret n
  end.

(** [key[i:]] and [key[:i]] *)
Definition from {A} (l : list A) (i : Z) : result (list A) := slice l i (len l).
Definition upto {A} (l : list A) (i : Z) : result (list A) := slice l 0 i.

(** A child is read and written at a nibble; the array has 17 places. *)
Definition child_at (cs : list node) (i : Z) : result node := index cs i.
Definition set_child (cs : list node) (i : Z) (c : node) : list node := <[Z.to_nat i := c]> cs.

(** Returns the value, the node to put in place of the old one and whether part of it was
    loaded. *)
Fixpoint tryGet (fuel : nat) (origNode : node) (key : bytes) (pos : Z) : result (option bytes * node * bool) :=
  match fuel with
  | O => Err OutOfFuel
  | S fuel' =>
      match origNode with
      | NilNode => Ret (None, NilNode, false)
      | ValueNode v => Ret (Some v, origNode, false)
      | ShortNode nKey nVal flags =>
          if len key - pos <? len nKey then Ret (None, origNode, false)
          else
            part ← slice key pos (pos + len nKey);
            if negb (bytes_Equal nKey part) then Ret (None, origNode, false)
            else
              '(value, newnode, didResolve) ← tryGet fuel' nVal key (pos + len nKey);
              Ret (value, if (didResolve : bool) then ShortNode nKey newnode flags else origNode, didResolve)
      | FullNode cs flags =>
          i ← index key pos;
          c ← child_at cs i;
          '(value, newnode, didResolve) ← tryGet fuel' c key (pos + 1);
          Ret (value, if (didResolve : bool) then FullNode (set_child cs i newnode) flags else origNode, didResolve)
      | HashNode n =>
          prefix ← upto key pos;
          child ← resolveHash n prefix;
          '(value, newnode, _) ← tryGet fuel' child key pos;
          Ret (value, newnode, true)
      end
  end.

(** Returns whether the trie has changed and the new node. *)
Fixpoint insert (fuel : nat) (n : node) (prefix key : bytes) (value : node) : result (bool * node) :=
  match fuel with
  | O => Err OutOfFuel
  | S fuel' =>
      if len key =? 0 then
        match n with
        | ValueNode v => match value with ValueNode w => Ret (negb (bytes_Equal v w), value) | _ => Panic end
        | _ => Ret (true, value)
        end
      else
        match n with
        | ShortNode nKey nVal flags =>
            let matchlen := prefixLen key nKey in
            if matchlen =? len nKey then
              matched ← upto key matchlen;
              rest ← from key matchlen;
              '(dirty, nn) ← insert fuel' nVal (prefix ++ matched) rest value;
              if (dirty : bool) then Ret (true, ShortNode nKey nn newFlag) else Ret (false, n)
            else
              i ← index nKey matchlen;
              oldPrefix ← upto nKey (matchlen + 1);
              oldRest ← from nKey (matchlen + 1);
              '(_, c1) ← insert fuel' NilNode (prefix ++ oldPrefix) oldRest nVal;
              j ← index key matchlen;
              newPrefix ← upto key (matchlen + 1);
              newRest ← from key (matchlen + 1);
              '(_, c2) ← insert fuel' NilNode (prefix ++ newPrefix) newRest value;
              let branch := FullNode (set_child (set_child (replicate 17 NilNode) i c1) j c2) newFlag in
              if matchlen =? 0 then Ret (true, branch)
              else k ← upto key matchlen; Ret (true, ShortNode k branch newFlag)
        | FullNode cs flags =>
            i ← index key 0;
            c ← child_at cs i;
            rest ← from key 1;
            '(dirty, nn) ← insert fuel' c (prefix ++ [i]) rest value;
            if (dirty : bool) then Ret (true, FullNode (set_child cs i nn) newFlag) else Ret (false, n)
        | NilNode => Ret (true, ShortNode key value newFlag)
        | HashNode h =>
            rn ← resolveHash h prefix;
            '(dirty, nn) ← insert fuel' rn prefix key value;
            if (dirty : bool) then Ret (true, nn) else Ret (false, rn)
        | ValueNode _ => Panic
        end
  end.

(** The loop of delete over the children: -1 when none is left, -2 when there are two, otherwise
    the position of the only one. *)
Fixpoint only_child (cs : list node) (i pos : Z) : Z :=
  match cs with
  | [] => pos
  | NilNode :: rest => only_child rest (i + 1) pos
  | _ :: rest => if pos =? -1 then only_child rest (i + 1) i else -2
  end.

Fixpoint delete (fuel : nat) (n : node) (prefix key : bytes) : result (bool * node) :=
  match fuel with
  | O => Err OutOfFuel
  | S fuel' =>
      match n with
      | ShortNode nKey nVal flags =>
          let matchlen := prefixLen key nKey in
          if matchlen <? len nKey then Ret (false, n)
          else if matchlen =? len key then Ret (true, NilNode)
          else
            matched ← upto key (len nKey);
            rest ← from key (len nKey);
            '(dirty, child) ← delete fuel' nVal (prefix ++ matched) rest;
            if negb (dirty : bool) then Ret (false, n)
            else
              match child with
              | ShortNode cKey cVal _ => Ret (true, ShortNode (nKey ++ cKey) cVal newFlag)
              | _ => Ret (true, ShortNode nKey child newFlag)
              end
      | FullNode cs flags =>
          i ← index key 0;
          c ← child_at cs i;
          rest ← from key 1;
          '(dirty, nn) ← delete fuel' c (prefix ++ [i]) rest;
          if negb (dirty : bool) then Ret (false, n)
          else
            let cs' := set_child cs i nn in
            let pos := only_child cs' 0 (-1) in
            if pos >=? 0 then
              c ← child_at cs' pos;
              let single := Ret (true, ShortNode [uint8 pos] c newFlag) in
              if negb (pos =? 16) then
                cnode ← resolve c prefix;
                match cnode with
                | ShortNode cKey cVal _ => Ret (true, ShortNode ([uint8 pos] ++ cKey) cVal newFlag)
                | _ => single
                end
              else single
            else Ret (true, FullNode cs' newFlag)
      | ValueNode _ => Ret (true, NilNode)
      | NilNode => Ret (false, NilNode)
      | HashNode h =>
          rn ← resolveHash h prefix;
          '(dirty, nn) ← delete fuel' rn prefix key;
          if (dirty : bool) then Ret (true, nn) else Ret (false, rn)
      end
  end.

(** ** The trie object *)

Record Trie := mkTrie { root : node; unhashed : Z }.

Abbreviation method A := (prog Trie trie_error A).

Definition set_root (n : node) : method unit := modify (fun t => mkTrie n (unhashed t)).

Definition TryGet (fuel : nat) (key : bytes) : method (option bytes) :=
  r ← gets root;
  '(value, newroot, didResolve) ← lift (tryGet fuel r (keybytesToHex key) 0);
  (if (didResolve : bool) then set_root newroot else mret tt);;
  mret value.

Definition TryDelete (fuel : nat) (key : bytes) : method unit :=
  modify (fun t => mkTrie (root t) (unhashed t + 1));;
  r ← gets root;
  '(_, n) ← lift (delete fuel r [] (keybytesToHex key));
  set_root n.

Definition TryUpdate (fuel : nat) (key value : bytes) : method unit :=
  modify (fun t => mkTrie (root t) (unhashed t + 1));;
  r ← gets root;
  let k := keybytesToHex key in
  if negb (len value =? 0) then
    '(_, n) ← lift (insert fuel r [] k (ValueNode value));
    set_root n
  else
    '(_, n) ← lift (delete fuel r [] k);
    set_root n.

Definition emptyRoot : bytes :=
  [0x56; 0xe8; 0x1f; 0x17; 0x1b; 0xcc; 0x55; 0xa6; 0xff; 0x83; 0x45; 0xe6; 0x92; 0xc0; 0xf8; 0x6e;
   0x5b; 0x48; 0xe0; 0x1b; 0x99; 0x6c; 0xad; 0xc0; 0x01; 0x62; 0x2f; 0xb5; 0xe3; 0x63; 0xb4; 0x21].

Definition New (root : bytes) : result Trie :=
  if bool_decide (root = replicate 32 0) || bool_decide (root = emptyRoot) then Ret (mkTrie NilNode 0)
  else rootnode ← resolveHash root []; Ret (mkTrie rootnode 0).

Definition Trie_Reset : method unit := modify (fun _ => mkTrie NilNode 0).
Definition Trie_Clone (t : Trie) : Trie := mkTrie (root t) (unhashed t).
End trie.

(** Two keys with a common prefix, one deleted again. *)
Example trie_sample :
  let t := (TryUpdate (fun _ => None) 20 [0x12; 0x34] [1];; TryUpdate (fun _ => None) 20 [0x12; 0x56] [2];;
            TryDelete (fun _ => None) 20 [0x12; 0x34];; TryGet (fun _ => None) 20 [0x12; 0x56]) (mkTrie NilNode 0) in
  t = (Ret (Some [2]), mkTrie (ShortNode [1; 2; 5; 6; 16] (ValueNode [2]) newFlag) 3).
Proof. vm_compute. reflexivity. Qed.
