(* ===== verification/TrieSpec.v ===== *)
(** What the state trie means: the trees that nodes stand for, their canonical form, and the
    refinement of a finite map by the operations. *)

From S2P Require Import Prelude TrieEncoding Trie.

(** * Hex keys *)

(** A whole key: nibbles and the terminator.  No key is a proper prefix of another. *)
Definition hexkey (k : bytes) : Prop := exists ns, nibbles ns /\ k = ns ++ [16].

Lemma hexkey_cons i k : hexkey (i :: k) <-> (0 <= i < 16 /\ hexkey k) \/ (i = 16 /\ k = []).
Proof.
  split.
  - intros (ns & Hn & E). destruct ns as [|x ns]; cbn in E; [right; by simplify_eq|].
    left. simplify_eq. inversion Hn; subst. split; [done|]. by exists ns.
  - intros [[Hi (ns & Hn & ->)]|[-> ->]]; [exists (i :: ns); split; [by constructor|done]|by exists []].
Qed.

Lemma hexkey_nil : ~ hexkey [].
Proof. intros (ns & _ & E). by destruct ns. Qed.

Lemma hexkey_app ns k : nibbles ns -> hexkey (ns ++ k) <-> hexkey k.
Proof.
  intros Hn. induction Hn as [|x ns Hx Hn IH]; [done|]. cbn [app]. rewrite hexkey_cons, IH.
  split; [intros [[? ?]|[? ?]]; [done|lia]|auto].
Qed.

Lemma hexkey_prefix k r : hexkey k -> hexkey (k ++ r) -> r = [].
Proof.
  induction k as [|i k IH]; [by intros ?%hexkey_nil|]. cbn [app]. rewrite !hexkey_cons.
  intros [[Hi Hk]|[-> ->]]; [intros [[_ H]|[? _]]; [by apply IH|lia]|intros [[? _]|[_ ?]]; [lia|done]].
Qed.

Lemma hexkey_not_nibbles k r : hexkey k -> nibbles (k ++ r) -> False.
Proof.
  intros (ns & _ & ->) H. rewrite !Forall_app, Forall_singleton in H. lia.
Qed.

Lemma hexkey_keybytes k : bytes_ok k -> hexkey (keybytesToHex k).
Proof. intros Hk. exists (k ≫= fun b => [b / 16; b mod 16]). split; [by apply keybytes_nibbles|done]. Qed.

Lemma keybytesToHex_inj k l : bytes_ok k -> bytes_ok l -> keybytesToHex k = keybytesToHex l -> k = l.
Proof.
  intros Hk Hl E. apply (f_equal (hexToKeybytes (E := unit))) in E.
  rewrite !keybytes_roundtrip in E by done. by injection E.
Qed.

(** The common prefix that prefixLen measures. *)
Lemma prefixLen_split a b :
  exists c r s, a = c ++ r /\ b = c ++ s /\ prefixLen a b = len c /\
    match r, s with x :: _, y :: _ => x <> y | _, _ => True end.
Proof.
  revert b. induction a as [|x a IH]; intros b; [by exists [], [], b|]. destruct b as [|y b]; [by exists [], (x :: a), []|].
  cbn [prefixLen]. destruct (Z.eqb_spec x y) as [->|Hne]; [|by exists [], (x :: a), (y :: b)].
  destruct (IH b) as (c & r & s & -> & -> & -> & Hrs). exists (y :: c), r, s. by rewrite len_cons.
Qed.

(** * Trees *)

Inductive tree : Type :=
| TNil
| TVal (v : bytes)
| TShort (k : bytes) (t : tree)
| TFull (cs : list tree).

#[global] Instance tree_nil_dec t : Decision (t = TNil).
Proof. destruct t; (by left) || (by right). Defined.

(** The value at a hex key. *)
Fixpoint tget (t : tree) (k : bytes) : option bytes :=
  match t with
  | TNil => None
  | TVal v => match k with [] => Some v | _ => None end
  | TShort s t' => if decide (take (length s) k = s) then tget t' (drop (length s) k) else None
  | TFull cs =>
      match k with
      | [] => None
      | i :: k' =>
          (fix go (cs : list tree) (n : nat) : option bytes :=
             match cs, n with
             | [], _ => None
             | c :: _, O => tget c k'
             | _ :: cs', S n' => go cs' n'
             end) cs (Z.to_nat i)
      end
  end.

Lemma tget_full cs i k : tget (TFull cs) (i :: k) = match cs !! Z.to_nat i with Some c => tget c k | None => None end.
Proof.
  cbn [tget]. generalize (Z.to_nat i). induction cs as [|c cs IH]; intros [|n]; [done|done|done|]. apply IH.
Qed.

Lemma tget_short s t k : tget (TShort s t) (s ++ k) = tget t k.
Proof. cbn [tget]. by rewrite decide_True, drop_app_length by apply take_app_length. Qed.

Lemma tget_short_miss s t k : (forall r, k <> s ++ r) -> tget (TShort s t) k = None.
Proof.
  intros H. cbn [tget]. apply decide_False. intros E. apply (H (drop (length s) k)).
  rewrite <- E at 1. by rewrite take_drop.
Qed.

Lemma tget_short_app a b t x : tget (TShort (a ++ b) t) (a ++ x) = tget (TShort b t) x.
Proof.
  destruct (decide (b `prefix_of` x)) as [[r ->]|Hm]; [by rewrite app_assoc, !tget_short|].
  rewrite !tget_short_miss; [done|intros r ->; apply Hm; by exists r|].
  intros r E. rewrite <- app_assoc in E. apply app_inv_head in E as ->. apply Hm. by exists r.
Qed.

(** A tree under a key that may be empty. *)
Definition graft (k : bytes) (t : tree) : tree := match k with [] => t | _ => TShort k t end.

Lemma tget_graft k t x : tget (graft k t) x = tget (TShort k t) x.
Proof. destruct k; [|done]. symmetry. exact (tget_short [] t x). Qed.

Lemma tget_graft_val k v x : tget (graft k (TVal v)) x = if decide (x = k) then Some v else None.
Proof.
  rewrite tget_graft. destruct (decide (k `prefix_of` x)) as [[r ->]|Hm].
  - rewrite tget_short. destruct r as [|y r]; [by rewrite app_nil_r, decide_True|]. rewrite decide_False; [done|].
    intros E. apply (f_equal length) in E. rewrite length_app in E. cbn in E. lia.
  - rewrite tget_short_miss by (intros r ->; apply Hm; by exists r). rewrite decide_False; [done|].
    intros ->. apply Hm. exists []. by rewrite app_nil_r.
Qed.

(** Canonical trees: a short node leads to a value exactly when its key ends the key, otherwise to
    a full node; a full node has at least two children, and its last place holds a value. *)
Inductive wf : tree -> Prop :=
| wf_leaf k v : hexkey k -> v <> [] -> wf (TShort k (TVal v))
| wf_ext k cs : k <> [] -> nibbles k -> wf (TFull cs) -> wf (TShort k (TFull cs))
| wf_full cs :
    length cs = 17%nat ->
    (forall i c, (i < 16)%nat -> cs !! i = Some c -> c <> TNil -> wf c) ->
    (cs !! 16%nat = Some TNil \/ exists v, v <> [] /\ cs !! 16%nat = Some (TVal v)) ->
    (exists i j c c', i <> j /\ cs !! i = Some c /\ cs !! j = Some c' /\ c <> TNil /\ c' <> TNil) ->
    wf (TFull cs).

(** A tree at a place of the trie, where the rest of a key is [k]. *)
Definition place (ended : bool) (t : tree) : Prop :=
  t = TNil \/ if ended then exists v, v <> [] /\ t = TVal v else wf t.
Definition rest_key (ended : bool) (k : bytes) : Prop := if ended then k = [] else hexkey k.

Lemma wf_not_nil t : wf t -> t <> TNil.
Proof. by destruct 1. Qed.

Lemma rest_key_cons i k ended : hexkey (i :: k) -> (ended = true <-> i = 16) -> rest_key ended k.
Proof.
  intros [[Hi Hk]|[-> ->]]%hexkey_cons Hen; destruct ended; cbn; try done.
  - destruct Hen as [Hen _]. specialize (Hen eq_refl). lia.
  - destruct Hen as [_ Hen]. by specialize (Hen eq_refl).
Qed.

(** The children of a canonical full node. *)
Lemma full_child cs i k :
  wf (TFull cs) -> hexkey (i :: k) ->
  exists c ended, cs !! Z.to_nat i = Some c /\ place ended c /\ rest_key ended k /\ (ended = true <-> i = 16).
Proof.
  intros Hw Hk. inversion Hw as [| |? Hlen Hc H16 _]; subst. apply hexkey_cons in Hk as [[Hi Hk]|[-> ->]].
  - destruct (lookup_lt_is_Some_2 cs (Z.to_nat i)) as [c Hc']; [lia|]. exists c, false. split; [done|].
    split; [|split; [done|lia]]. destruct (decide (c = TNil)); [by left|right]. apply (Hc (Z.to_nat i)); [lia|done|done].
  - change (Z.to_nat 16) with 16%nat. destruct H16 as [H16|(v & Hv & H16)]; rewrite H16; eexists _, true; (split; [done|]);
      (split; [|split; [done|lia]]); [by left|right; by exists v].
Qed.

(** The child of a canonical short node whose key matches. *)
Lemma short_child s t :
  wf (TShort s t) ->
  exists ended, place ended t /\ (forall r, hexkey (s ++ r) -> rest_key ended r) /\ t <> TNil /\
    (ended = true -> hexkey s) /\ (ended = false -> nibbles s /\ s <> [] /\ exists cs, t = TFull cs).
Proof.
  inversion 1 as [? v Hs Hv|? cs Hs Hn Hc|]; subst.
  - exists true. split; [right; by exists v|]. split; [intros r; by apply (hexkey_prefix s)|]. done.
  - exists false. split; [by right|]. split; [intros r; by apply (hexkey_app s)|]. split; [done|]. split; [done|]. intros _.
    split; [done|]. split; [done|]. by exists cs.
Qed.

(** A key and the key of a canonical short node diverge, or the latter is a prefix. *)
Lemma short_diverge s t k c r q :
  wf (TShort s t) -> hexkey k -> k = c ++ r -> s = c ++ q ->
  match r, q with x :: _, y :: _ => x <> y | _, _ => True end ->
  q <> [] -> exists i q' j r', q = i :: q' /\ r = j :: r' /\ i <> j /\ nibbles c.
Proof.
  intros Hw Hk -> -> Hd Hq. destruct q as [|i q]; [done|]. destruct r as [|j r].
  - exfalso. rewrite app_nil_r in Hk. inversion Hw as [? v Hs Hv|? cs Hs Hn Hc|]; subst.
    + by pose proof (hexkey_prefix _ _ Hk Hs).
    + by apply (hexkey_not_nibbles c (i :: q)).
  - exists i, q, j, r. split; [done|]. split; [done|]. split; [done|].
    destruct Hk as (ns & Hn & E). destruct r as [|x r _] using rev_ind.
    + apply app_inj_tail in E as [-> _]. done.
    + rewrite app_comm_cons, app_assoc in E. apply app_inj_tail in E as [<- _]. by apply Forall_app in Hn as [? _].
Qed.

(** * Nodes and the trees they stand for *)

#[global] Instance node_nil_dec n : Decision (n = NilNode).
Proof. destruct n; (by left) || (by right). Defined.

Section expand.
Context (db : bytes -> option node).

Definition is_inner (n : node) : Prop :=
  match n with ShortNode _ _ _ | FullNode _ _ => True | _ => False end.

(** [n] stands for [t], which is found by reading at most [d] nodes deep; the database holds short
    and full nodes. *)
Fixpoint expand (d : nat) (n : node) (t : tree) : Prop :=
  match d with
  | O => False
  | S d' =>
      match n with
      | NilNode => t = TNil
      | ValueNode v => t = TVal v
      | ShortNode k c _ => exists t', t = TShort k t' /\ expand d' c t'
      | FullNode cs _ => exists ts, t = TFull ts /\ Forall2 (expand d') cs ts
      | HashNode h => exists n', db (BytesToHash h) = Some n' /\ is_inner n' /\ expand d' n' t
      end
  end.

Lemma expand_mono d d' n t : (d <= d')%nat -> expand d n t -> expand d' n t.
Proof.
  revert d' n t. induction d as [|d IH]; [done|]. intros [|d'] n t Hd; [lia|]. destruct n as [|v|k c fl|cs fl|h]; cbn [expand].
  - done.
  - done.
  - intros (t' & -> & H). exists t'. split; [done|]. apply IH; [lia|done].
  - intros (ts & -> & H). exists ts. split; [done|]. eapply Forall2_impl; [exact H|]. intros. apply IH; [lia|done].
  - intros (n' & H1 & H2 & H3). exists n'. split; [done|]. split; [done|]. apply IH; [lia|done].
Qed.

Lemma expand_nil d n t : expand d n t -> t = TNil <-> n = NilNode.
Proof.
  revert n t. induction d as [|d IH]; [done|]. intros n t. destruct n as [|v|k c fl|cs fl|h]; cbn [expand].
  - by intros ->.
  - by intros ->.
  - by intros (t' & -> & _).
  - by intros (ts & -> & _).
  - intros (n' & _ & Hin & H). rewrite (IH _ _ H). by destruct n'.
Qed.

(** Children, read and replaced. *)
Lemma expand_child d cs ts i c :
  Forall2 (expand d) cs ts -> 0 <= i -> ts !! Z.to_nat i = Some c ->
  exists n, child_at cs i = Ret n /\ expand d n c.
Proof.
  intros HF Hi Hc. apply (Forall2_lookup_r _ _ _ _ _ HF) in Hc as (n & Hn & He).
  exists n. split; [|done]. unfold child_at. apply index_Ret. done.
Qed.

Lemma expand_set_child d d' cs ts i n t :
  Forall2 (expand d) cs ts -> expand d' n t ->
  Forall2 (expand (Nat.max d d')) (set_child cs i n) (<[Z.to_nat i := t]> ts).
Proof.
  intros HF He. apply Forall2_insert; [|by apply (expand_mono d'); [lia|]].
  eapply Forall2_impl; [exact HF|]. intros. apply (expand_mono d); [lia|done].
Qed.

(** * Lookup *)

Lemma slice_pre1 {E} (a : bytes) x b : slice (E := E) (a ++ x :: b) 0 (len a + 1) = Ret (a ++ [x]).
Proof. pose proof (slice_pre (E := E) (a ++ [x]) b) as H. rewrite <- app_assoc, len_app in H. exact H. Qed.

Lemma slice_post1 {E} (a : bytes) x b : slice (E := E) (a ++ x :: b) (len a + 1) (len (a ++ x :: b)) = Ret b.
Proof. pose proof (slice_post (E := E) (a ++ [x]) b) as H. rewrite <- app_assoc, (len_app a [x]) in H. exact H. Qed.

Lemma index_mid {E} (a : bytes) x b : index (E := E) (a ++ x :: b) (len a) = Ret x.
Proof. apply index_Ret. split; [apply len_nonneg|]. rewrite to_nat_len. apply lookup_app_mid. Qed.

(** tryGet finds the value of the tree, and the node it returns stands for the same tree. *)
Lemma tryGet_spec f d n t ended pre k :
  expand d n t -> place ended t -> rest_key ended k -> (d <= f)%nat ->
  exists n' res, tryGet db f n (pre ++ k) (len pre) = Ret (tget t k, n', res) /\
    if res then expand d n' t else n' = n.
Proof.
  revert f n t ended pre k. induction d as [|d IH]; [done|]. intros [|f] n t ended pre k He Hp Hk Hf; [lia|].
  destruct n as [|v|s c fl|cs fl|h]; cbn [expand] in He; cbn [tryGet].
  - subst t. by exists NilNode, false.
  - subst t. exists (ValueNode v), false. split; [|done]. destruct ended; [by rewrite Hk|].
    destruct Hp as [|Hp]; [done|]. inversion Hp.
  - destruct He as (t' & -> & He). destruct ended; [by destruct Hp as [|(v & _ & ?)]|]. destruct Hp as [|Hw]; [done|]. cbn in Hk.
    destruct (decide (s `prefix_of` k)) as [[r ->]|Hmiss].
    + destruct (short_child _ _ Hw) as (en & Hp' & Hr & _). specialize (Hr r Hk).
      destruct (Z.ltb_spec (len (pre ++ s ++ r) - len pre) (len s)); [rewrite !len_app in *; pose proof (len_nonneg r); lia|].
      rewrite slice_mid. cbn [mbind outcome_bind]. unfold bytes_Equal. rewrite bool_decide_eq_true_2 by done. cbn [negb].
      destruct (IH f c t' en (pre ++ s) r He Hp' Hr ltac:(lia)) as (n' & res & Hget & Hres).
      rewrite <- app_assoc, len_app in Hget. rewrite Hget. cbn [mbind outcome_bind]. rewrite tget_short.
      eexists _, res. split; [done|]. destruct res; [|done]. cbn [expand]. by exists t'.
    + rewrite tget_short_miss by (intros r ->; apply Hmiss; by exists r).
      exists (ShortNode s c fl), false. split; [|done].
      destruct (Z.ltb_spec (len (pre ++ k) - len pre) (len s)) as [|Hge]; [done|]. rewrite len_app in Hge.
      rewrite <- (take_drop (length s) k) in Hmiss |- *.
      assert (len (take (length s) k) = len s) as Hl by (rewrite len_take; unfold len in *; lia).
      rewrite <- Hl at 1. rewrite slice_mid. cbn [mbind outcome_bind]. unfold bytes_Equal.
      rewrite bool_decide_eq_false_2; [done|]. intros E. apply Hmiss. exists (drop (length s) k). by rewrite <- E.
  - destruct He as (ts & -> & He). destruct ended; [by destruct Hp as [|(v & _ & ?)]|]. destruct Hp as [|Hw]; [done|]. cbn in Hk.
    destruct k as [|i k]; [by apply hexkey_nil in Hk|]. destruct (full_child _ _ _ Hw Hk) as (c & en & Hc & Hp' & Hr & _).
    assert (0 <= i) as Hi by (apply hexkey_cons in Hk; lia).
    rewrite index_mid. cbn [mbind outcome_bind]. destruct (expand_child _ _ _ _ _ He Hi Hc) as (n & -> & Hn). cbn [mbind outcome_bind].
    destruct (IH f n c en (pre ++ [i]) k Hn Hp' Hr ltac:(lia)) as (n' & res & Hget & Hres).
    rewrite <- app_assoc, len_app, len_one in Hget. cbn [app] in Hget. rewrite Hget. cbn [mbind outcome_bind]. rewrite tget_full, Hc.
    eexists _, res. split; [done|]. destruct res; [|done]. cbn [expand]. exists ts. split; [done|].
    pose proof (expand_set_child _ _ _ _ i _ _ He Hres) as HF. rewrite Nat.max_id in HF.
    by rewrite (list_insert_id ts (Z.to_nat i) c Hc) in HF.
  - destruct He as (m & Hdb & Hin & He). unfold upto. rewrite slice_pre. cbn [mbind outcome_bind]. unfold resolveHash.
    rewrite Hdb. cbn [mbind outcome_bind]. destruct (IH f m t ended pre k He Hp Hk ltac:(lia)) as (n' & res & -> & Hres).
    cbn [mbind outcome_bind]. exists n', true. split; [done|]. apply (expand_mono d); [lia|].
    destruct res; [done|by subst n'].
Qed.
(** * Insertion *)

Lemma expand_ended d n t : expand d n t -> place true t -> (n = NilNode /\ t = TNil) \/ exists w, n = ValueNode w /\ t = TVal w.
Proof.
  destruct d as [|d]; [done|]. intros He Hp. destruct n as [|v|k c fl|cs fl|h]; cbn [expand] in He.
  - by left.
  - right. by exists v.
  - destruct He as (t' & -> & _). by destruct Hp as [|(v & _ & ?)].
  - destruct He as (ts & -> & _). by destruct Hp as [|(v & _ & ?)].
  - destruct He as (m & _ & Hin & He). exfalso. destruct d as [|d]; [done|]. destruct m; try done; cbn [expand] in He;
      destruct He as (x & -> & _); by destruct Hp as [|(v & _ & ?)].
Qed.

Lemma insert_nil f prefix k value :
  insert db (S f) NilNode prefix k value = Ret (true, match k with [] => value | _ => ShortNode k value newFlag end).
Proof.
  cbn [insert]. destruct k as [|x k]; [done|]. rewrite len_cons. pose proof (len_nonneg k). by destruct (Z.eqb_spec (1 + len k) 0); [lia|].
Qed.

(** Replacing a child by any tree that may be there keeps the node canonical if two are left. *)
Lemma wf_full_replace cs i k ended c :
  wf (TFull cs) -> hexkey (i :: k) -> (ended = true <-> i = 16) -> place ended c ->
  (exists a b x y, a <> b /\ <[Z.to_nat i := c]> cs !! a = Some x /\ <[Z.to_nat i := c]> cs !! b = Some y /\ x <> TNil /\ y <> TNil) ->
  wf (TFull (<[Z.to_nat i := c]> cs)).
Proof.
  intros Hw Hk Hen Hp H2. inversion Hw as [| |? Hlen Hc H16 _]; subst. apply hexkey_cons in Hk. constructor; [|..|done].
  - by rewrite length_insert.
  - intros n x Hn Hx Nx. apply list_lookup_insert_Some in Hx as [(<- & <- & _)|(_ & Hx)]; [|by apply (Hc n)].
    destruct Hp as [|Hp]; [done|]. destruct ended; [|done]. destruct Hen as [Hen _]. specialize (Hen eq_refl). lia.
  - destruct (decide (i = 16)) as [->|Hi].
    + change (Z.to_nat 16) with 16%nat. rewrite list_lookup_insert_eq by lia. rewrite (proj2 Hen) in Hp by done.
      destruct Hp as [->|(v & Hv & ->)]; [by left|]. right. by exists v.
    + rewrite list_lookup_insert_ne by lia. done.
Qed.

(** Replacing a child of a canonical full node by one that is there. *)
Lemma wf_full_set cs i k ended c :
  wf (TFull cs) -> hexkey (i :: k) -> (ended = true <-> i = 16) -> place ended c -> c <> TNil -> wf (TFull (<[Z.to_nat i := c]> cs)).
Proof.
  intros Hw Hk Hen Hp Hne. apply (wf_full_replace cs i k ended); [done..|].
  inversion Hw as [| |? Hlen Hc H16 (a & b & ca & cb & Hab & Ha & Hb & Na & Nb)]; subst.
  assert (forall p cp, cs !! p = Some cp -> cp <> TNil -> exists cp', <[Z.to_nat i := c]> cs !! p = Some cp' /\ cp' <> TNil) as Hkeep.
  { intros p cp Hcp Ncp. destruct (decide (p = Z.to_nat i)) as [->|].
    - exists c. split; [|done]. apply list_lookup_insert_eq. by apply lookup_lt_Some in Hcp.
    - exists cp. by rewrite list_lookup_insert_ne. }
  destruct (Hkeep _ _ Ha Na) as (ca' & ? & ?), (Hkeep _ _ Hb Nb) as (cb' & ? & ?). by exists a, b, ca', cb'.
Qed.

(** A new full node with two children. *)
Lemma lookup_two (i j p : nat) (a b : tree) : (i < 17)%nat -> (j < 17)%nat -> (p < 17)%nat -> i <> j ->
  <[j := b]> (<[i := a]> (replicate 17 TNil)) !! p = Some (if decide (p = j) then b else if decide (p = i) then a else TNil).
Proof.
  intros Hi Hj Hp Hne. destruct (decide (p = j)) as [->|]; [apply list_lookup_insert_eq; rewrite length_insert, length_replicate; lia|].
  rewrite list_lookup_insert_ne by done. destruct (decide (p = i)) as [->|]; [apply list_lookup_insert_eq; rewrite length_replicate; lia|].
  rewrite list_lookup_insert_ne by done. by apply lookup_replicate_2.
Qed.

Lemma wf_branch i j q r a b ea eb :
  hexkey (i :: q) -> hexkey (j :: r) -> i <> j -> (ea = true <-> i = 16) -> (eb = true <-> j = 16) ->
  place ea a -> place eb b -> a <> TNil -> b <> TNil ->
  wf (TFull (<[Z.to_nat j := b]> (<[Z.to_nat i := a]> (replicate 17 TNil)))).
Proof.
  intros Hi%hexkey_cons Hj%hexkey_cons Hne Hea Heb Hpa Hpb Na Nb.
  assert (Z.to_nat i < 17)%nat as Li by lia. assert (Z.to_nat j < 17)%nat as Lj by lia. assert (Z.to_nat i <> Z.to_nat j) as Lne by lia.
  constructor.
  - by rewrite !length_insert.
  - intros p x Hp Hx Nx. rewrite lookup_two in Hx by lia. injection Hx as <-.
    destruct (decide (p = Z.to_nat j)) as [->|]; [|destruct (decide (p = Z.to_nat i)) as [->|]; [|done]].
    + destruct Hpb as [|Hpb]; [done|]. destruct eb; [|done]. destruct Heb as [Heb _]. specialize (Heb eq_refl). lia.
    + destruct Hpa as [|Hpa]; [done|]. destruct ea; [|done]. destruct Hea as [Hea _]. specialize (Hea eq_refl). lia.
  - rewrite lookup_two by lia. destruct (decide (16%nat = Z.to_nat j)); [|destruct (decide (16%nat = Z.to_nat i)); [|by left]].
    + rewrite (proj2 Heb) in Hpb by lia. destruct Hpb as [|(v & Hv & ->)]; [done|]. right. by exists v.
    + rewrite (proj2 Hea) in Hpa by lia. destruct Hpa as [|(v & Hv & ->)]; [done|]. right. by exists v.
  - exists (Z.to_nat i), (Z.to_nat j), a, b. rewrite !lookup_two by lia. rewrite !(decide_True (P := Z.to_nat i = Z.to_nat i)), (decide_True (P := Z.to_nat j = Z.to_nat j)) by done.
    by rewrite decide_False.
Qed.
(** The parts of a canonical short node that is split. *)
Lemma graft_place c i q t :
  wf (TShort (c ++ i :: q) t) ->
  exists ea q', hexkey (i :: q') /\ (ea = true <-> i = 16) /\ place ea (graft q t) /\ graft q t <> TNil.
Proof.
  inversion 1 as [? v (ns & Hn & E) Hv|? cs Hs Hn Hc|]; subst.
  - assert (hexkey (i :: q)) as Hk.
    { destruct q as [|x q _] using rev_ind.
      - apply app_inj_tail in E as [_ ->]. by exists [].
      - rewrite app_comm_cons, app_assoc in E. apply app_inj_tail in E as [<- ->]. apply Forall_app in Hn as [_ Hn].
        exists (i :: q). done. }
    exists (bool_decide (i = 16)), q. split; [done|]. split; [by rewrite bool_decide_eq_true|].
    apply hexkey_cons in Hk as [[Hi Hk]|[-> ->]].
    + rewrite bool_decide_eq_false_2 by lia. destruct q as [|x q]; [by apply hexkey_nil in Hk|]. split; [|done]. right. by constructor.
    + rewrite bool_decide_eq_true_2 by done. split; [|done]. right. by exists v.
  - rewrite Forall_app, Forall_cons in Hn. destruct Hn as (_ & Hi & Hq). exists false, [16]. split; [by exists [i]; repeat constructor; lia|].
    split; [lia|]. split; [|by destruct q]. right. destruct q as [|x q]; [done|]. by constructor.
Qed.

Lemma place_nonnil_wf t : place false t -> t <> TNil -> wf t.
Proof. by intros [|]. Qed.

(** The result of an insertion at a place of the trie. *)
Definition inserted (ended : bool) (t t' : tree) (k v : bytes) : Prop :=
  place ended t' /\ t' <> TNil /\
  (forall k', rest_key ended k' -> tget t' k' = if decide (k' = k) then Some v else tget t k') /\
  (forall cs, t = TFull cs -> exists cs', t' = TFull cs').

(** Splitting a short node where the keys diverge. *)
Lemma inserted_split c i q j r t v :
  wf (TShort (c ++ i :: q) t) -> hexkey (c ++ j :: r) -> nibbles c -> i <> j -> v <> [] ->
  inserted false (TShort (c ++ i :: q) t)
    (graft c (TFull (<[Z.to_nat j := graft r (TVal v)]> (<[Z.to_nat i := graft q t]> (replicate 17 TNil))))) (c ++ j :: r) v.
Proof.
  intros Hw Hk Hc Hne Hv. assert (wf (TShort (c ++ j :: r) (TVal v))) as Hw' by by constructor.
  destruct (graft_place _ _ _ _ Hw) as (ea & q' & Ka & Ea & Pa & Na), (graft_place _ _ _ _ Hw') as (eb & r' & Kb & Eb & Pb & Nb).
  pose proof (wf_branch _ _ _ _ _ _ _ _ Ka Kb Hne Ea Eb Pa Pb Na Nb) as Hbr.
  set (br := <[Z.to_nat j := _]> _) in *. split; [|split; [|split; [|done]]].
  - right. destruct c as [|x c]; [done|]. by constructor.
  - by destruct c.
  - intros k' Hk'. rewrite tget_graft. destruct (decide (c `prefix_of` k')) as [[x ->]|Hm].
    + rewrite tget_short, tget_short_app. cbn in Hk'. rewrite hexkey_app in Hk' by done. destruct x as [|p x]; [by apply hexkey_nil in Hk'|].
      apply hexkey_cons in Hk', Ka, Kb. rewrite tget_full. unfold br. rewrite lookup_two by lia.
      destruct (decide (Z.to_nat p = Z.to_nat j)) as [Ep|].
      * assert (p = j) as -> by lia. rewrite tget_graft_val, (tget_short_miss (i :: q)) by (intros z [=]; lia).
        destruct (decide (x = r)) as [->|]; [by rewrite decide_True|]. rewrite decide_False; [done|]. intros E%app_inv_head. congruence.
      * rewrite (decide_False (P := c ++ p :: x = c ++ j :: r)) by (intros E%app_inv_head; congruence).
        destruct (decide (Z.to_nat p = Z.to_nat i)) as [Ep|].
        -- assert (p = i) as -> by lia. rewrite tget_graft. symmetry. apply (tget_short_app [i] q t x).
        -- rewrite tget_short_miss; [done|]. intros z [=]. lia.
    + rewrite !tget_short_miss.
      * rewrite decide_False; [done|]. intros ->. apply Hm. by eexists.
      * intros z ->. apply Hm. rewrite <- app_assoc. by eexists.
      * intros z ->. apply Hm. by eexists.
Qed.
Lemma inserted_value t k v w : place true t -> rest_key true k -> v <> [] -> (t = TNil \/ t = TVal w) -> inserted true t (TVal v) k v.
Proof.
  intros Hp -> Hv Ht. split; [right; by exists v|]. split; [done|]. split; [|by intros cs ->; destruct Ht].
  intros k' ->. by rewrite decide_True.
Qed.

Lemma inserted_short s t t' r v ended :
  wf (TShort s t) -> hexkey (s ++ r) -> place ended t -> (forall r, hexkey (s ++ r) -> rest_key ended r) ->
  (ended = true -> hexkey s) -> (ended = false -> nibbles s /\ s <> [] /\ exists cs, t = TFull cs) ->
  inserted ended t t' r v -> inserted false (TShort s t) (TShort s t') (s ++ r) v.
Proof.
  intros Hw Hk Hp Hr Het Hef (Hp' & Hne & Hget & Hfull). split; [|split; [done|split; [|done]]].
  - right. destruct ended.
    + destruct Hp' as [|(w & Hw' & ->)]; [done|]. constructor; [by apply Het|done].
    + destruct (Hef eq_refl) as (Hn & Hs & cs & Hcs). destruct (Hfull cs Hcs) as (cs' & ->). constructor; [done|done|].
      by apply place_nonnil_wf.
  - intros k' Hk'. destruct (decide (s `prefix_of` k')) as [[x ->]|Hm].
    + rewrite !tget_short, Hget by by apply Hr. destruct (decide (x = r)) as [->|]; [by rewrite decide_True|].
      rewrite decide_False; [done|]. by intros E%app_inv_head.
    + rewrite !tget_short_miss by (intros z ->; apply Hm; by exists z). rewrite decide_False; [done|].
      intros ->. apply Hm. by exists r.
Qed.

Lemma inserted_full cs i k c c' v ended :
  wf (TFull cs) -> hexkey (i :: k) -> cs !! Z.to_nat i = Some c -> (ended = true <-> i = 16) ->
  inserted ended c c' k v -> inserted false (TFull cs) (TFull (<[Z.to_nat i := c']> cs)) (i :: k) v.
Proof.
  intros Hw Hk Hc Hen (Hp' & Hne & Hget & _). split; [|split; [done|split; [|by eauto]]].
  - right. by apply (wf_full_set cs i k ended).
  - intros k' Hk'. destruct k' as [|i' k']; [by apply hexkey_nil in Hk'|]. rewrite !tget_full.
    apply hexkey_cons in Hk as Hi. apply hexkey_cons in Hk' as Hi'. destruct (decide (i' = i)) as [->|Hii].
    + rewrite list_lookup_insert_eq by by apply lookup_lt_Some in Hc. rewrite Hc.
      rewrite Hget by by apply (rest_key_cons i).
      destruct (decide (k' = k)) as [->|]; [by rewrite decide_True|]. rewrite decide_False; [done|congruence].
    + rewrite list_lookup_insert_ne by lia. rewrite decide_False; [done|congruence].
Qed.

Lemma insert_spec f d n t ended prefix k v :
  expand d n t -> place ended t -> rest_key ended k -> v <> [] -> (S d <= f)%nat ->
  exists dirty n' t' d', insert db f n prefix k (ValueNode v) = Ret (dirty, n') /\ expand d' n' t' /\
    inserted ended t t' k v /\ (dirty = false -> t' = t).
Proof.
  revert f n t ended prefix k. induction d as [|d IH]; [done|]. intros [|f] n t ended prefix k He Hp Hk Hv Hf; [lia|].
  destruct ended.
  { cbn in Hk. subst k. cbn [insert]. change (len (@nil Z) =? 0) with true. cbn iota.
    destruct (expand_ended _ _ _ He Hp) as [[-> ->]|(w & -> & ->)].
    - exists true, (ValueNode v), (TVal v), 1%nat. split; [done|]. split; [done|]. split; [by apply (inserted_value TNil [] v []); auto|done].
    - exists (negb (bytes_Equal w v)), (ValueNode v), (TVal v), 1%nat. split; [done|]. split; [done|].
      split; [by apply (inserted_value _ [] v w); auto|]. intros H%negb_false_iff%bytes_Equal_true. by subst. }
  cbn in Hk. cbn [insert]. destruct (Z.eqb_spec (len k) 0) as [E|_]; [apply len_zero_iff in E as ->; by apply hexkey_nil in Hk|].
  destruct n as [|w|s c fl|cs fl|h]; cbn [expand] in He.
  - subst t. exists true, (ShortNode k (ValueNode v) newFlag), (TShort k (TVal v)), 2%nat. split; [done|]. split; [by exists (TVal v)|].
    split; [|done]. split; [right; by constructor|]. split; [done|]. split; [|done]. intros k' _.
    rewrite <- tget_graft. by rewrite tget_graft_val.
  - subst t. destruct Hp as [|Hp]; [done|]. inversion Hp.
  - destruct He as (t' & -> & He). destruct Hp as [|Hw]; [done|].
    destruct (prefixLen_split k s) as (p & r & q & -> & -> & -> & Hd). destruct q as [|i q].
    + rewrite app_nil_r in *. rewrite Z.eqb_refl. destruct (short_child _ _ Hw) as (en & Hp' & Hr & _ & Het & Hef).
      unfold upto, from. rewrite slice_pre. cbn [mbind outcome_bind]. rewrite slice_post. cbn [mbind outcome_bind].
      destruct (IH f c t' en (prefix ++ p) r He Hp' (Hr r Hk) Hv ltac:(lia)) as (dirty & n' & t'' & d' & -> & He' & Hins & Hcl).
      cbn [mbind outcome_bind]. pose proof (inserted_short _ _ _ _ _ _ Hw Hk Hp' Hr Het Hef Hins) as Hins'. destruct dirty.
      * exists true, (ShortNode p n' newFlag), (TShort p t''), (S d'). split; [done|]. split; [by exists t''|]. done.
      * exists false, (ShortNode p c fl), (TShort p t'), (S d). rewrite (Hcl eq_refl) in Hins'. split; [done|]. split; [by exists t'|]. done.
    + destruct (short_diverge _ _ _ _ _ _ Hw Hk eq_refl eq_refl Hd ltac:(done)) as (i' & q' & j & r' & [= <- <-] & -> & Hij & Hnp).
      destruct (Z.eqb_spec (len p) (len (p ++ i :: q))) as [E|_]; [rewrite len_app, len_cons in E; pose proof (len_nonneg q); lia|].
      destruct f as [|f]; [lia|]. unfold upto, from.
      rewrite index_mid. cbn [mbind outcome_bind]. rewrite slice_pre1. cbn [mbind outcome_bind]. rewrite slice_post1. cbn [mbind outcome_bind].
      rewrite insert_nil. cbn [mbind outcome_bind].
      rewrite index_mid. cbn [mbind outcome_bind]. rewrite slice_pre1. cbn [mbind outcome_bind]. rewrite slice_post1. cbn [mbind outcome_bind].
      rewrite insert_nil. cbn [mbind outcome_bind].
      pose proof (inserted_split _ _ _ _ _ _ _ Hw Hk Hnp Hij Hv) as Hins.
      set (br := FullNode _ newFlag). set (tbr := TFull _) in Hins.
      assert (expand (S (S (S (S d)))) br tbr) as Hbr.
      { unfold br, tbr. change (expand (S (S (S (S d)))) (FullNode ?l ?fl') (TFull ?ts)) with (exists ts', TFull ts = TFull ts' /\ Forall2 (expand (S (S (S d)))) l ts').
        eexists. split; [done|]. unfold set_child. apply Forall2_insert; [apply Forall2_insert|].
        - apply Forall2_replicate. done.
        - destruct q as [|x q]; [by apply (expand_mono d); [lia|]|]. exists t'. split; [done|]. apply (expand_mono d); [lia|done].
        - destruct r' as [|x r']; [done|]. by exists (TVal v). }
      destruct p as [|x p].
      * change (len (@nil Z) =? 0) with true. cbn iota. by exists true, br, tbr, (S (S (S (S d)))).
      * rewrite len_cons. destruct (Z.eqb_spec (1 + len p) 0) as [E|_]; [pose proof (len_nonneg p); lia|].
        rewrite <- (len_cons x p), slice_pre. cbn [mbind outcome_bind].
        exists true, (ShortNode (x :: p) br newFlag), (TShort (x :: p) tbr), (S (S (S (S (S d))))).
        split; [done|]. split; [exists tbr; done|]. done.
  - destruct He as (ts & -> & He). destruct Hp as [|Hw]; [done|]. destruct k as [|i k]; [by apply hexkey_nil in Hk|].
    destruct (full_child _ _ _ Hw Hk) as (c & en & Hc & Hp' & Hr & Hen). assert (0 <= i) as Hi by (apply hexkey_cons in Hk; lia).
    change (index (E := trie_error) (i :: k) 0) with (@Ret trie_error Z i). cbn [mbind outcome_bind].
    destruct (expand_child _ _ _ _ _ He Hi Hc) as (n & -> & Hn). cbn [mbind outcome_bind]. unfold from.
    rewrite <- (len_one i), (slice_post [i] k : slice (i :: k) (len [i]) (len (i :: k)) = Ret k). cbn [mbind outcome_bind].
    destruct (IH f n c en (prefix ++ [i]) k Hn Hp' Hr Hv ltac:(lia)) as (dirty & n' & c' & d' & -> & He' & Hins & Hcl).
    cbn [mbind outcome_bind]. pose proof (inserted_full _ _ _ _ _ _ _ Hw Hk Hc Hen Hins) as Hins'. destruct dirty.
    + exists true, (FullNode (set_child cs i n') newFlag), (TFull (<[Z.to_nat i := c']> ts)), (S (Nat.max d d')). split; [done|]. split; [|done].
      eexists. split; [done|]. by apply expand_set_child.
    + exists false, (FullNode cs fl), (TFull ts), (S d). rewrite (Hcl eq_refl), (list_insert_id _ _ _ Hc) in Hins'. split; [done|]. split; [by exists ts|]. done.
  - destruct He as (m & Hdb & Hin & He). unfold resolveHash. rewrite Hdb. cbn [mbind outcome_bind].
    destruct (IH f m t false prefix k He Hp Hk Hv ltac:(lia)) as (dirty & n' & t' & d' & -> & He' & Hins & Hcl). cbn [mbind outcome_bind].
    destruct dirty; [by exists true, n', t', d'|]. exists false, m, t, d. rewrite (Hcl eq_refl) in Hins. done.
Qed.
(** * Deletion *)

Definition deleted (ended : bool) (t t' : tree) (k : bytes) : Prop :=
  place ended t' /\
  (forall k', rest_key ended k' -> tget t' k' = if decide (k' = k) then None else tget t k') /\
  (forall cs, t = TFull cs -> t' <> TNil).

(** What the loop over the children finds. *)
Lemma only_child_spec cs i pos :
  0 <= i -> -1 <= pos < i ->
  let r := only_child cs i pos in
  (r = pos /\ forall m x, cs !! m = Some x -> x = NilNode) \/
  (pos = -1 /\ exists (n : nat) c, r = i + Z.of_nat n /\ cs !! n = Some c /\ c <> NilNode /\
     forall m x, cs !! m = Some x -> m <> n -> x = NilNode) \/
  (r = -2 /\ exists n c, cs !! n = Some c /\ c <> NilNode /\ (pos = -1 -> exists m x, m <> n /\ cs !! m = Some x /\ x <> NilNode)).
Proof.
  revert i pos. induction cs as [|c cs IH]; intros i pos Hi Hpos r; unfold r; cbn [only_child]; [by left|].
  destruct (decide (c = NilNode)) as [->|Hc].
  - destruct (IH (i + 1) pos ltac:(lia) ltac:(lia)) as [[-> H]|[(-> & n & x & -> & Hn & Nx & H)|(-> & n & x & Hn & Nx & H)]].
    + left. split; [done|]. intros [|m] x Hx; [by injection Hx|by apply (H m)].
    + right. left. split; [done|]. exists (S n), x. split; [lia|]. split; [done|]. split; [done|].
      intros [|m] y Hy Hm; [by injection Hy|]. apply (H m); [done|lia].
    + right. right. split; [done|]. exists (S n), x. split; [done|]. split; [done|]. intros E. destruct (H E) as (m & y & Hm & Hy & Ny).
      exists (S m), y. split; [lia|done].
  - assert (match c with NilNode => only_child cs (i + 1) pos | _ => if pos =? -1 then only_child cs (i + 1) i else -2 end =
      (if pos =? -1 then only_child cs (i + 1) i else -2)) as -> by by destruct c.
    destruct (Z.eqb_spec pos (-1)) as [->|Hne].
    + destruct (IH (i + 1) i ltac:(lia) ltac:(lia)) as [[-> H]|[(E & _)|(-> & n & x & Hn & Nx & _)]]; [|lia|].
      * right. left. split; [done|]. exists 0%nat, c. split; [lia|]. split; [done|]. split; [done|].
        intros [|m] y Hy Hm; [done|by apply (H m)].
      * right. right. split; [done|]. exists 0%nat, c. split; [done|]. split; [done|]. intros _. exists (S n), x. done.
    + right. right. split; [done|]. exists 0%nat, c. done.
Qed.

Lemma tget_full_replace cs i k c c' ended k' :
  cs !! Z.to_nat i = Some c -> hexkey (i :: k) -> (ended = true <-> i = 16) ->
  (forall k', rest_key ended k' -> tget c' k' = if decide (k' = k) then None else tget c k') -> hexkey k' ->
  tget (TFull (<[Z.to_nat i := c']> cs)) k' = if decide (k' = i :: k) then None else tget (TFull cs) k'.
Proof.
  intros Hc Hk Hen Hget Hk'. destruct k' as [|i' k']; [by apply hexkey_nil in Hk'|]. rewrite !tget_full.
  apply hexkey_cons in Hk as Hi. apply hexkey_cons in Hk' as Hi'. destruct (decide (i' = i)) as [->|Hii].
  - rewrite list_lookup_insert_eq by by apply lookup_lt_Some in Hc. rewrite Hc, Hget by by apply (rest_key_cons i).
    destruct (decide (k' = k)) as [->|]; [by rewrite decide_True|]. rewrite decide_False; [done|congruence].
  - rewrite list_lookup_insert_ne by lia. rewrite decide_False; [done|congruence].
Qed.

(** A full node whose only child is at [p] has the values of a short node. *)
Lemma tget_single cs (p : nat) x k :
  cs !! p = Some x -> (forall m y, cs !! m = Some y -> m <> p -> y = TNil) -> hexkey k ->
  tget (TFull cs) k = tget (TShort [Z.of_nat p] x) k.
Proof.
  intros Hp Ho Hk. destruct k as [|i k]; [by apply hexkey_nil in Hk|]. apply hexkey_cons in Hk. rewrite tget_full.
  destruct (decide (i = Z.of_nat p)) as [->|Hi].
  - rewrite Nat2Z.id, Hp. symmetry. exact (tget_short [Z.of_nat p] x k).
  - rewrite tget_short_miss by (intros r [=]; lia). destruct (cs !! Z.to_nat i) as [y|] eqn:Hy; [|done].
    by rewrite (Ho _ _ Hy) by lia.
Qed.

Lemma tget_merge p s t k : tget (TShort [p] (TShort s t)) k = tget (TShort (p :: s) t) k.
Proof.
  destruct (decide ([p] `prefix_of` k)) as [[r ->]|Hm].
  - rewrite tget_short. symmetry. exact (tget_short_app [p] s t r).
  - rewrite !tget_short_miss; [done|intros r ->; apply Hm; by exists (s ++ r)|intros r ->; apply Hm; by exists r].
Qed.

Lemma deleted_short p t t' r ended s' :
  wf (TShort p t) -> hexkey (p ++ r) -> place false t -> (forall r, hexkey (p ++ r) -> rest_key false r) ->
  deleted false t t' r -> wf s' -> (forall x, hexkey x -> tget s' (p ++ x) = tget t' x) ->
  (forall k, (forall x, k <> p ++ x) -> tget s' k = None) -> ended = false -> deleted ended (TShort p t) s' (p ++ r).
Proof.
  intros Hw Hk Hp Hr (Hp' & Hget & _) Hs Hpre Hmiss ->. split; [by right|]. split; [|done]. intros k' Hk'.
  destruct (decide (p `prefix_of` k')) as [[x ->]|Hm].
  - rewrite Hpre, Hget, tget_short by by apply Hr. destruct (decide (x = r)) as [->|]; [by rewrite decide_True|].
    rewrite decide_False; [done|]. by intros E%app_inv_head.
  - rewrite Hmiss, tget_short_miss by (intros z ->; apply Hm; by exists z). by case_decide.
Qed.
Lemma expand_Forall2_nil d cs ts n c : Forall2 (expand d) cs ts -> cs !! n = Some c -> exists t, ts !! n = Some t /\ (t = TNil <-> c = NilNode) /\ expand d c t.
Proof.
  intros HF Hc. apply (Forall2_lookup_l _ _ _ _ _ HF) in Hc as (t & Ht & He). exists t. split; [done|]. split; [|done].
  by apply (expand_nil d).
Qed.

(** A full node that is left with one child becomes a short node. *)
Lemma reduce_single d cs ts (p : nat) c fuelpath :
  Forall2 (expand d) cs ts -> length ts = 17%nat -> cs !! p = Some c -> c <> NilNode ->
  (forall m x, cs !! m = Some x -> m <> p -> x = NilNode) ->
  (forall x, ts !! p = Some x -> place (bool_decide (Z.of_nat p = 16)) x) ->
  exists n' t',
    (if negb (Z.of_nat p =? 16) then
       cnode ← resolve db c fuelpath;
       match cnode with
       | ShortNode cKey cVal _ => Ret (true, ShortNode ([uint8 (Z.of_nat p)] ++ cKey) cVal newFlag)
       | _ => Ret (true, ShortNode [uint8 (Z.of_nat p)] c newFlag)
       end
     else Ret (true, ShortNode [uint8 (Z.of_nat p)] c newFlag)) = Ret (E := trie_error) (true, n') /\
    expand (S d) n' t' /\ (forall h, n' <> HashNode h) /\ wf t' /\ (forall k, hexkey k -> tget t' k = tget (TFull ts) k).
Proof.
  intros HF Hlen Hc Nc Ho Hp. destruct (expand_Forall2_nil _ _ _ _ _ HF Hc) as (x & Hx & Hnil & He).
  assert (p < 17)%nat as Lp by (rewrite <- Hlen; by apply lookup_lt_Some in Hx).
  assert (uint8 (Z.of_nat p) = Z.of_nat p) as Eu by (apply wrapU_small; lia). rewrite Eu.
  specialize (Hp x Hx). assert (x <> TNil) as Nx by tauto.
  assert (forall m y, ts !! m = Some y -> m <> p -> y = TNil) as Ho'.
  { intros m y Hy Hm. apply (Forall2_lookup_r _ _ _ _ _ HF) in Hy as (z & Hz & Hez). apply (expand_nil d _ _ Hez). by apply (Ho m). }
  assert (forall k, hexkey k -> tget (TFull ts) k = tget (TShort [Z.of_nat p] x) k) as Hsingle by (intros k Hk; by apply tget_single).
  destruct (decide (p = 16%nat)) as [->|Hp16].
  - change (Z.of_nat 16 =? 16) with true. cbn [negb]. eexists _, (TShort [16] x). split; [done|].
    split; [by exists x|]. split; [done|]. rewrite bool_decide_eq_true_2 in Hp by done. destruct Hp as [|(v & Hv & ->)]; [done|].
    split; [constructor; [by exists []|done]|]. intros k Hk. by rewrite Hsingle.
  - destruct (Z.eqb_spec (Z.of_nat p) 16); [lia|]. cbn [negb]. rewrite bool_decide_eq_false_2 in Hp by lia.
    apply place_nonnil_wf in Hp; [|done].
    assert (exists m, resolve db c fuelpath = Ret m /\ is_inner m /\ expand d m x) as (m & -> & Hin & Hm).
    { destruct d as [|d]; [done|]. destruct c as [|v|k c fl|cs' fl|h]; cbn [expand] in He.
      - done.
      - subst x. inversion Hp.
      - by eexists.
      - by eexists.
      - destruct He as (m & Hdb & Hin & He). exists m. cbn [resolve]. unfold resolveHash. rewrite Hdb. split; [done|]. split; [done|].
        by apply (expand_mono d); [lia|]. }
    cbn [mbind outcome_bind]. destruct d as [|d]; [done|]. destruct m as [|v|k cv fl|cs' fl|h]; try done; cbn [expand] in Hm.
    + destruct Hm as (tv & -> & Hv). eexists _, (TShort (Z.of_nat p :: k) tv). split; [done|].
      split; [exists tv; split; [done|]; by apply (expand_mono d); [lia|]|]. split; [done|]. split.
      * inversion Hp as [? v Hk Hvv|? cs'' Hk Hn Hcs|]; subst.
        -- constructor; [apply hexkey_cons; left; split; [lia|done]|done].
        -- constructor; [done|constructor; [lia|done]|done].
      * intros k' Hk'. by rewrite Hsingle, tget_merge.
    + destruct Hm as (ts' & -> & _). eexists _, (TShort [Z.of_nat p] (TFull ts')). split; [done|].
      split; [by exists (TFull ts')|]. split; [done|]. split; [constructor; [done|repeat constructor; lia|done]|].
      intros k' Hk'. by rewrite Hsingle.
Qed.

Lemma delete_full d d' cs ts i k c c' nn ended prefix :
  Forall2 (expand d) cs ts -> wf (TFull ts) -> hexkey (i :: k) -> ts !! Z.to_nat i = Some c -> (ended = true <-> i = 16) ->
  expand d' nn c' -> deleted ended c c' k ->
  exists n' t' d'',
    (let cs' := set_child cs i nn in
     let pos := only_child cs' 0 (-1) in
     if pos >=? 0 then
       c ← child_at cs' pos;
       let single := Ret (true, ShortNode [uint8 pos] c newFlag) in
       if negb (pos =? 16) then
         cnode ← resolve db c prefix;
         match cnode with
         | ShortNode cKey cVal _ => Ret (true, ShortNode ([uint8 pos] ++ cKey) cVal newFlag)
         | _ => single
         end
       else single
     else Ret (true, FullNode cs' newFlag)) = Ret (true, n') /\
    expand d'' n' t' /\ (forall h, n' <> HashNode h) /\ deleted false (TFull ts) t' (i :: k).
Proof.
  intros HF Hw Hk Hc Hen He (Hp' & Hget & _). cbn zeta.
  pose proof (expand_set_child _ _ _ _ i _ _ HF He) as HF'. set (D := Nat.max d d') in *. set (cs' := set_child cs i nn) in *.
  set (ts' := <[Z.to_nat i := c']> ts) in *.
  pose proof (fun k' => tget_full_replace ts i k c c' ended k' Hc Hk Hen Hget) as Htget. fold ts' in Htget.
  inversion Hw as [| |? Hlen Hcw H16 (a & b & ca & cb & Hab & Ha & Hb & Na & Nb)]; subst.
  assert (length ts' = 17%nat) as Hlen' by (unfold ts'; by rewrite length_insert).
  destruct (only_child_spec cs' 0 (-1) ltac:(lia) ltac:(lia)) as [[-> Hall]|[(_ & p & x & -> & Hx & Nx & Ho)|(-> & p & x & Hx & Nx & H2)]].
  - exfalso. assert (exists e xe, ts' !! e = Some xe /\ xe <> TNil) as (e & xe & Hxe & Nxe).
    { destruct (decide (a = Z.to_nat i)) as [->|]; [exists b, cb|exists a, ca]; split; try done; unfold ts'; by rewrite list_lookup_insert_ne by congruence. }
    apply (Forall2_lookup_r _ _ _ _ _ HF') in Hxe as (ne & Hne & Hee). apply Nxe, (expand_nil D _ _ Hee). by apply (Hall e).
  - rewrite Z.add_0_l. rewrite Z.geb_leb. destruct (Z.leb_spec 0 (Z.of_nat p)); [|lia].
    assert (child_at cs' (Z.of_nat p) = Ret x) as -> by (apply index_Ret; rewrite Nat2Z.id; split; [lia|done]).
    cbn [mbind outcome_bind].
    destruct (reduce_single D cs' ts' p x prefix HF' Hlen' Hx Nx Ho) as (n' & t' & -> & Hexp & Hnh & Hwf & Hsame).
    { intros y Hy. unfold ts' in Hy. apply list_lookup_insert_Some in Hy as [(<- & <- & _)|(Hne & Hy)].
      - replace (bool_decide (Z.of_nat (Z.to_nat i) = 16)) with ended; [done|]. apply hexkey_cons in Hk.
        destruct ended; symmetry; [apply bool_decide_eq_true_2|apply bool_decide_eq_false_2]; [assert (i = 16) by tauto; lia|].
        intros E. assert (i = 16) as E16 by lia. by apply Hen in E16.
      - destruct (decide (p = 16%nat)) as [->|].
        + rewrite bool_decide_eq_true_2 by done. destruct H16 as [H16|(v & Hv & H16)]; rewrite H16 in Hy; injection Hy as <-; [by left|right; by exists v].
        + assert (p < 17)%nat by (rewrite <- Hlen; by apply lookup_lt_Some in Hy). rewrite bool_decide_eq_false_2 by lia.
          destruct (decide (y = TNil)); [by left|right]. apply (Hcw p); [lia|done|done]. }
    exists n', t', (S D). split; [done|]. split; [done|]. split; [done|]. split; [by right|]. split; [|intros; by apply wf_not_nil].
    intros k' Hk'. by rewrite Hsame, Htget.
  - change (-2 >=? 0) with false. cbn iota. exists (FullNode cs' newFlag), (TFull ts'), (S D). split; [done|]. split; [by exists ts'|]. split; [done|].
    destruct (H2 eq_refl) as (q & y & Hq & Hy & Ny).
    destruct (expand_Forall2_nil _ _ _ _ _ HF' Hx) as (tx & Htx & Nix & _), (expand_Forall2_nil _ _ _ _ _ HF' Hy) as (ty & Hty & Niy & _).
    split; [|split; [exact Htget|done]]. right. apply (wf_full_replace ts i k ended); [done..|].
    exists p, q, tx, ty. split; [done|]. split; [done|]. split; [done|]. tauto.
Qed.
Lemma deleted_absent t k : place false t -> (forall cs, t = TFull cs -> t <> TNil) -> tget t k = None -> deleted false t t k.
Proof. intros Hp Hn Hg. split; [done|]. split; [|done]. intros k' _. by destruct (decide (k' = k)) as [->|]. Qed.

Lemma delete_spec f d n t ended prefix k :
  expand d n t -> place ended t -> rest_key ended k -> (d <= f)%nat ->
  exists dirty n' t' d', delete db f n prefix k = Ret (dirty, n') /\ expand d' n' t' /\
    deleted ended t t' k /\ (dirty = false -> t' = t) /\ (dirty = true -> forall h, n' <> HashNode h).
Proof.
  revert f n t ended prefix k. induction d as [|d IH]; [done|]. intros [|f] n t ended prefix k He Hp Hk Hf; [lia|].
  destruct ended.
  { cbn in Hk. subst k. destruct (expand_ended _ _ _ He Hp) as [[-> ->]|(w & -> & ->)]; cbn [delete].
    - exists false, NilNode, TNil, 1%nat. split; [done|]. split; [done|]. split; [|done]. split; [by left|]. split; [|done].
      intros k' _. by case_decide.
    - exists true, NilNode, TNil, 1%nat. split; [done|]. split; [done|]. split; [|done]. split; [by left|]. split; [|done].
      intros k' ->. done. }
  cbn in Hk. destruct n as [|w|s c fl|cs fl|h]; cbn [expand] in He; cbn [delete].
  - subst t. exists false, NilNode, TNil, 1%nat. split; [done|]. split; [done|]. split; [by apply deleted_absent|done].
  - subst t. destruct Hp as [|Hp]; [done|]. inversion Hp.
  - destruct He as (t' & -> & He). destruct Hp as [|Hw]; [done|].
    destruct (prefixLen_split k s) as (p & r & q & -> & -> & -> & Hd). destruct q as [|i q].
    + rewrite app_nil_r in *. rewrite Z.ltb_irrefl. destruct (short_child _ _ Hw) as (en & Hp' & Hr & Hnn & Het & Hef).
      destruct r as [|x r].
      { rewrite app_nil_r in *. rewrite Z.eqb_refl. exists true, NilNode, TNil, 1%nat. split; [done|]. split; [done|]. split; [|done].
        split; [by left|]. split; [|done]. intros k' Hk'. cbn [tget]. case_decide; [done|].
        destruct en; [|by pose proof (Hr [] ltac:(by rewrite app_nil_r)) as ?%hexkey_nil].
        destruct (decide (p `prefix_of` k')) as [[y ->]|Hm]; [|symmetry; apply tget_short_miss; intros z ->; apply Hm; by exists z].
        specialize (Hr y Hk'). cbn in Hr. subst y. by rewrite app_nil_r in *. }
      destruct (Z.eqb_spec (len p) (len (p ++ x :: r))) as [E|_]; [rewrite len_app, len_cons in E; pose proof (len_nonneg r); lia|].
      destruct en; [by specialize (Hr _ Hk)|]. destruct (Hef eq_refl) as (Hnp & Hpne & cs & ->).
      unfold upto, from. rewrite slice_pre. cbn [mbind outcome_bind]. rewrite slice_post. cbn [mbind outcome_bind].
      destruct (IH f c (TFull cs) false (prefix ++ p) (x :: r) He Hp' (Hr _ Hk) ltac:(lia)) as (dirty & n' & t'' & d' & -> & He' & Hdel & Hcl & Hnh).
      cbn [mbind outcome_bind]. destruct dirty; cbn [negb].
      2:{ exists false, (ShortNode p c fl), (TShort p (TFull cs)), (S d). specialize (Hcl eq_refl). subst t''. split; [done|]. split; [by exists (TFull cs)|].
          split; [|done]. apply (deleted_short p (TFull cs) (TFull cs)); try done; [by intros y _; rewrite tget_short|].
          intros k' Hk'. by apply tget_short_miss. }
      pose proof Hdel as (Hpl & _ & Hnz). specialize (Hnz cs eq_refl). apply place_nonnil_wf in Hpl; [|done].
      destruct d' as [|d']; [done|]. destruct n' as [|w|s c' fl'|cs' fl'|h']; cbn [expand] in He'.
      * done.
      * subst t''. inversion Hpl.
      * destruct He' as (tv & -> & Hv). exists true, (ShortNode (p ++ s) c' newFlag), (TShort (p ++ s) tv), (S d'). split; [done|]. split; [by exists tv|].
        split; [|done]. apply (deleted_short p (TFull cs) (TShort s tv)); try done.
        -- inversion Hpl as [? v Hs Hvv|? cs'' Hs Hn Hcs|]; subst; constructor; try done; [by apply hexkey_app|by intros [? ?]%app_nil|by apply Forall_app].
        -- intros y _. apply tget_short_app.
        -- intros k' Hk'. apply tget_short_miss. intros z ->. apply (Hk' (s ++ z)). by rewrite app_assoc.
      * destruct He' as (ts & -> & Hts). exists true, (ShortNode p (FullNode cs' fl') newFlag), (TShort p (TFull ts)), (S (S d')). split; [done|].
        split; [exists (TFull ts); split; [done|]; by exists ts|]. split; [|done]. apply (deleted_short p (TFull cs) (TFull ts)); try done.
        -- by constructor.
        -- intros y _. apply tget_short.
        -- intros k' Hk'. by apply tget_short_miss.
      * by destruct (Hnh eq_refl h').
    + destruct (short_diverge _ _ _ _ _ _ Hw Hk eq_refl eq_refl Hd ltac:(done)) as (i' & q' & j & r' & [= <- <-] & -> & Hij & Hnp).
      destruct (Z.ltb_spec (len p) (len (p ++ i :: q))) as [_|E]; [|rewrite len_app, len_cons in E; pose proof (len_nonneg q); lia].
      eexists false, _, (TShort (p ++ i :: q) t'), (S d). split; [done|]. split; [by exists t'|]. split; [|done].
      apply deleted_absent; [by right|done|]. apply tget_short_miss. intros z E. rewrite <- app_assoc in E. apply app_inv_head in E. cbn in E. congruence.
  - destruct He as (ts & -> & He). destruct Hp as [|Hw]; [done|]. destruct k as [|i k]; [by apply hexkey_nil in Hk|].
    destruct (full_child _ _ _ Hw Hk) as (c & en & Hc & Hp' & Hr & Hen). assert (0 <= i) as Hi by (apply hexkey_cons in Hk; lia).
    change (index (E := trie_error) (i :: k) 0) with (@Ret trie_error Z i). cbn [mbind outcome_bind].
    destruct (expand_child _ _ _ _ _ He Hi Hc) as (n & -> & Hn). cbn [mbind outcome_bind]. unfold from.
    rewrite <- (len_one i), (slice_post [i] k : slice (i :: k) (len [i]) (len (i :: k)) = Ret k). cbn [mbind outcome_bind].
    destruct (IH f n c en (prefix ++ [i]) k Hn Hp' Hr ltac:(lia)) as (dirty & nn & c' & d' & -> & He' & Hdel & Hcl & _).
    cbn [mbind outcome_bind]. destruct dirty; cbn [negb].
    + destruct (delete_full d d' cs ts i k c c' nn en prefix He Hw Hk Hc Hen He' Hdel) as (n' & t' & d'' & Heq & Hexp & Hnh & Hd').
      cbn zeta in Heq |- *. rewrite Heq. by exists true, n', t', d''.
    + exists false, (FullNode cs fl), (TFull ts), (S d). split; [done|]. split; [by exists ts|]. split; [|done].
      destruct Hdel as (_ & Hget & _). rewrite (Hcl eq_refl) in Hget.
      pose proof (fun k' => tget_full_replace ts i k c c en k' Hc Hk Hen Hget) as Htg. rewrite (list_insert_id _ _ _ Hc) in Htg.
      split; [by right|]. done.
  - destruct He as (m & Hdb & Hin & He). unfold resolveHash. rewrite Hdb. cbn [mbind outcome_bind].
    destruct (IH f m t false prefix k He Hp Hk ltac:(lia)) as (dirty & n' & t' & d' & -> & He' & Hdel & Hcl & Hnh). cbn [mbind outcome_bind].
    destruct dirty; [by exists true, n', t', d'|]. exists false, m, t, d. rewrite (Hcl eq_refl) in Hdel. split; [done|]. split; [done|]. done.
Qed.
End expand.

(** * Canonical form *)

Lemma wf_inhabited t : wf t -> exists k v, hexkey k /\ tget t k = Some v.
Proof.
  induction 1 as [k v Hk Hv|k cs Hk Hn Hc IH|cs Hlen Hc IH H16 (a & _ & ca & _ & _ & Ha & _ & Na & _)].
  - exists k, v. split; [done|]. rewrite <- tget_graft, tget_graft_val. by rewrite decide_True.
  - destruct IH as (x & v & Hx & Hv). exists (k ++ x), v. split; [by apply hexkey_app|]. by rewrite tget_short.
  - assert (a < 17)%nat as La by (rewrite <- Hlen; by apply lookup_lt_Some in Ha). destruct (decide (a = 16%nat)) as [->|].
    + destruct H16 as [H16|(v & Hv & H16)]; [congruence|]. exists [16], v. split; [by exists []|]. rewrite tget_full. change (Z.to_nat 16) with 16%nat. by rewrite H16.
    + destruct (IH a ca ltac:(lia) Ha Na) as (x & v & Hx & Hv). exists (Z.of_nat a :: x), v.
      split; [apply hexkey_cons; left; split; [lia|done]|]. by rewrite tget_full, Nat2Z.id, Ha.
Qed.

(** The keys of a child. *)
Lemma full_child_key cs a c : wf (TFull cs) -> cs !! a = Some c -> c <> TNil ->
  exists k v, hexkey (Z.of_nat a :: k) /\ tget (TFull cs) (Z.of_nat a :: k) = Some v.
Proof.
  inversion 1 as [| |? Hlen Hc H16 _]; subst. intros Ha Na.
  assert (a < 17)%nat as La by (rewrite <- Hlen; by apply lookup_lt_Some in Ha). setoid_rewrite tget_full. rewrite Nat2Z.id, Ha.
  destruct (decide (a = 16%nat)) as [->|].
  - destruct H16 as [H16|(v & Hv & H16)]; [congruence|]. rewrite H16 in Ha. injection Ha as <-. exists [], v. split; [by exists []|done].
  - destruct (wf_inhabited c) as (k & v & Hk & Hv); [apply (Hc a); [lia|done|done]|]. exists k, v. split; [|done].
    apply hexkey_cons. left. split; [lia|done].
Qed.

(** A canonical full node has keys with different first nibbles. *)
Lemma full_two_keys cs : wf (TFull cs) ->
  exists i k v j k' v', i <> j /\ hexkey (i :: k) /\ tget (TFull cs) (i :: k) = Some v /\
    hexkey (j :: k') /\ tget (TFull cs) (j :: k') = Some v'.
Proof.
  intros Hw. inversion Hw as [| |? _ _ _ (a & b & ca & cb & Hab & Ha & Hb & Na & Nb)]; subst.
  destruct (full_child_key _ _ _ Hw Ha Na) as (k & v & Hk & Hv), (full_child_key _ _ _ Hw Hb Nb) as (k' & v' & Hk' & Hv').
  exists (Z.of_nat a), k, v, (Z.of_nat b), k', v'. split; [lia|done].
Qed.

(** The two shapes of a canonical tree. *)
Lemma wf_shape t : wf t -> (exists k v, t = TShort k (TVal v) /\ hexkey k) \/
  (exists k cs, t = graft k (TFull cs) /\ nibbles k /\ wf (TFull cs)).
Proof.
  inversion 1 as [k v Hk Hv|k cs Hk Hn Hc|cs]; subst; [left; by exists k, v|right; exists k, cs; by destruct k|right; by exists [], cs].
Qed.

Definition same_values (t t' : tree) : Prop := forall k, hexkey k -> tget t k = tget t' k.

Lemma tget_graft_prefix p t k v : tget (graft p t) k = Some v -> exists r, k = p ++ r /\ tget t r = Some v.
Proof.
  rewrite tget_graft. destruct (decide (p `prefix_of` k)) as [[r ->]|Hm]; [rewrite tget_short; by eauto|].
  rewrite tget_short_miss; [done|]. intros r ->. apply Hm. by exists r.
Qed.

Lemma graft_two_keys p cs : nibbles p -> wf (TFull cs) ->
  exists i k j k', i <> j /\ hexkey (p ++ i :: k) /\ is_Some (tget (graft p (TFull cs)) (p ++ i :: k)) /\
    hexkey (p ++ j :: k') /\ is_Some (tget (graft p (TFull cs)) (p ++ j :: k')).
Proof.
  intros Hp Hw. destruct (full_two_keys cs Hw) as (i & k & v & j & k' & v' & Hij & Hk & Hv & Hk' & Hv').
  exists i, k, j, k'. rewrite !tget_graft, !tget_short, Hv, Hv'. rewrite !hexkey_app by done. by eauto 10.
Qed.

(** A leaf has one key, a branching tree several. *)
Lemma leaf_not_branch k v p cs : nibbles p -> wf (TFull cs) -> same_values (TShort k (TVal v)) (graft p (TFull cs)) -> False.
Proof.
  intros Hp Hw Hs. destruct (graft_two_keys p cs Hp Hw) as (i & x & j & y & Hij & Hx & [vx Vx] & Hy & [vy Vy]).
  rewrite <- Hs in Vx, Vy by done. change (TShort k (TVal v)) with (TShort k (TVal v)) in Vx.
  rewrite <- (tget_graft k (TVal v)), tget_graft_val in Vx, Vy. do 2 case_decide; try done. subst k.
  match goal with H : _ ++ _ = _ ++ _ |- _ => apply app_inv_head in H; congruence end.
Qed.

(** The keys of a branching tree have exactly its prefix in common. *)
Lemma branch_prefix p cs q cs' : nibbles p -> nibbles q -> wf (TFull cs) -> wf (TFull cs') ->
  same_values (graft p (TFull cs)) (graft q (TFull cs')) -> p `prefix_of` q.
Proof.
  intros Hp Hq Hw Hw' Hs. destruct (graft_two_keys q cs' Hq Hw') as (i & x & j & y & Hij & Hx & [vx Vx] & Hy & [vy Vy]).
  rewrite <- Hs in Vx, Vy by done.
  destruct (tget_graft_prefix _ _ _ _ Vx) as (r & Er & _), (tget_graft_prefix _ _ _ _ Vy) as (s & Es & _).
  destruct (prefixLen_split p q) as (c & a & b & -> & -> & _ & Hab). destruct a as [|u a]; [rewrite app_nil_r; by exists b|].
  exfalso. rewrite <- !app_assoc in Er, Es. apply app_inv_head in Er, Es. destruct b as [|w b]; cbn in Er, Es; congruence.
Qed.

Lemma full_ext cs cs' :
  wf (TFull cs) -> wf (TFull cs') -> same_values (TFull cs) (TFull cs') ->
  (forall i c c', (i < 16)%nat -> cs !! i = Some c -> cs' !! i = Some c' -> c <> TNil -> wf c' -> same_values c c' -> c = c') -> cs = cs'.
Proof.
  intros Hw Hw' Hs IH. apply list_eq. intros n.
  assert (forall a c, wf (TFull a) -> a !! n = Some c -> c <> TNil -> exists k, hexkey (Z.of_nat n :: k) /\ tget (TFull a) (Z.of_nat n :: k) <> None) as Hkey.
  { intros a c Ha Hc Nc. destruct (full_child_key a n c Ha Hc Nc) as (k & v & Hk & Hv). exists k. by rewrite Hv. }
  inversion Hw as [| |? Hl Hc H16 _]; subst. inversion Hw' as [| |? Hl' Hc' H16' _]; subst.
  destruct (decide (n < 17)%nat) as [Hn|Hn]; [|rewrite !lookup_ge_None_2 by lia; done].
  destruct (lookup_lt_is_Some_2 cs n ltac:(lia)) as [c Ec], (lookup_lt_is_Some_2 cs' n ltac:(lia)) as [c' Ec']. rewrite Ec, Ec'. f_equal.
  assert (c = TNil <-> c' = TNil) as Hnil.
  { split; intros ->.
    - destruct (decide (c' = TNil)) as [|Nc]; [done|]. destruct (Hkey _ _ Hw' Ec' Nc) as (k & Hk & Hv). destruct Hv.
      rewrite <- Hs by done. by rewrite tget_full, Nat2Z.id, Ec.
    - destruct (decide (c = TNil)) as [|Nc]; [done|]. destruct (Hkey _ _ Hw Ec Nc) as (k & Hk & Hv). destruct Hv.
      rewrite Hs by done. by rewrite tget_full, Nat2Z.id, Ec'. }
  destruct (decide (n = 16%nat)) as [->|Hn16].
  - destruct H16 as [H16|(v & _ & H16)], H16' as [H16'|(v' & _ & H16')]; rewrite Ec in H16; rewrite Ec' in H16'; simplify_eq.
    + done.
    + destruct Hnil as [Hnil _]. by specialize (Hnil eq_refl).
    + destruct Hnil as [_ Hnil]. by specialize (Hnil eq_refl).
    + assert (hexkey [16]) as Hk by by exists []. specialize (Hs _ Hk). rewrite !tget_full in Hs. change (Z.to_nat 16) with 16%nat in Hs.
      rewrite Ec, Ec' in Hs. cbn in Hs. congruence.
  - destruct (decide (c = TNil)) as [->|Nc]; [symmetry; by apply Hnil|].
    apply (IH n); [lia|done|done|done|apply (Hc' n); [lia|done|tauto]|].
    intros k Hk. assert (hexkey (Z.of_nat n :: k)) as Hk' by (apply hexkey_cons; left; split; [lia|done]). specialize (Hs _ Hk').
    by rewrite !tget_full, Nat2Z.id, Ec, Ec' in Hs.
Qed.

Lemma wf_canonical t : wf t -> forall t', wf t' -> same_values t t' -> t = t'.
Proof.
  induction 1 as [k v Hk Hv|k cs Hk Hn Hc IH|cs Hlen Hc IH H16 H2]; intros t' Hw' Hs.
  - destruct (wf_shape t' Hw') as [(k' & v' & -> & Hk')|(p & cs' & -> & Hp & Hcs')]; [|by destruct (leaf_not_branch k v p cs')].
    specialize (Hs k Hk). rewrite <- !tget_graft, !tget_graft_val, (decide_True (P := k = k)) in Hs by done. case_decide; [|done]. congruence.
  - destruct (wf_shape t' Hw') as [(k' & v' & -> & Hk')|(p & cs' & -> & Hp & Hcs')].
    { exfalso. apply (leaf_not_branch k' v' k cs); [done|done|]. intros x Hx. symmetry. rewrite tget_graft. by apply Hs. }
    assert (same_values (graft k (TFull cs)) (graft p (TFull cs'))) as Hs'.
    { intros x Hx. rewrite tget_graft. by apply Hs. }
    assert (k = p) as <-.
    { apply (anti_symm prefix); [by apply (branch_prefix k cs p cs')|apply (branch_prefix p cs' k cs); [done..|]]. intros x Hx. by rewrite Hs'. }
    destruct k as [|y k]; [done|]. cbn [graft]. f_equal. apply IH; [done|]. intros x Hx.
    assert (hexkey ((y :: k) ++ x)) as Hyx by by apply hexkey_app. specialize (Hs' _ Hyx). by rewrite !tget_graft, !tget_short in Hs'.
  - assert (wf (TFull cs)) as Hw by by constructor.
    destruct (wf_shape t' Hw') as [(k' & v' & -> & Hk')|(p & cs' & -> & Hp & Hcs')].
    { exfalso. apply (leaf_not_branch k' v' [] cs); [done|done|]. intros x Hx. symmetry. by apply Hs. }
    assert (p = []) as ->.
    { assert (p `prefix_of` []) as [z Ez]; [|by destruct p]. apply (branch_prefix p cs' [] cs); [done|done|done|done|]. intros x Hx. symmetry. by apply Hs. }
    cbn [graft] in *. f_equal. apply (full_ext cs cs'); [done|done|done|]. intros i c c' Hi Hci Hci' Nc Hwc' Hsc. by apply (IH i c).
Qed.

Lemma place_canonical t t' : place false t -> place false t' -> same_values t t' -> t = t'.
Proof.
  intros [->|Hw] [->|Hw'] Hs; [done| | |by apply wf_canonical].
  - destruct (wf_inhabited t' Hw') as (k & v & Hk & Hv). by rewrite <- Hs in Hv.
  - destruct (wf_inhabited t Hw) as (k & v & Hk & Hv). by rewrite Hs in Hv.
Qed.

(** * The trie as a finite map *)

Definition represents (db : bytes -> option node) (t : Trie) (m : gmap bytes bytes) : Prop :=
  exists d tr, expand db d (root t) tr /\ place false tr /\
    (forall key, bytes_ok key -> tget tr (keybytesToHex key) = m !! key) /\
    (forall k v, hexkey k -> tget tr k = Some v -> exists key, bytes_ok key /\ k = keybytesToHex key).

Lemma represents_empty db u : represents db (mkTrie NilNode u) ∅.
Proof. exists 1%nat, TNil. split; [done|]. split; [by left|]. split; [intros; by rewrite lookup_empty|done]. Qed.

(** A change of one key of the tree is the change of the map. *)
Lemma represents_change (db : bytes -> option node) (n : node) (tr tr' : tree) (d' : nat) (m m' : gmap bytes bytes) (key : bytes) (u : Z) (w : option bytes) :
  bytes_ok key -> expand db d' n tr' -> place false tr' ->
  (forall key, bytes_ok key -> tget tr (keybytesToHex key) = m !! key) ->
  (forall k v, hexkey k -> tget tr k = Some v -> exists key, bytes_ok key /\ k = keybytesToHex key) ->
  (forall k', rest_key false k' -> tget tr' k' = if decide (k' = keybytesToHex key) then w else tget tr k') ->
  (forall x, m' !! x = if decide (x = key) then w else m !! x) ->
  represents db (mkTrie n u) m'.
Proof.
  intros Hk He Hp Hm Ho Hget Hm'. exists d', tr'. split; [done|]. split; [done|]. split.
  - intros x Hx. rewrite Hget by by apply hexkey_keybytes. rewrite Hm'. destruct (decide (x = key)) as [->|Hne]; [by rewrite decide_True|].
    rewrite decide_False by (intros E%keybytesToHex_inj; done). by apply Hm.
  - intros k v Hhk Hv. rewrite Hget in Hv by done. destruct (decide (k = keybytesToHex key)) as [->|]; [by exists key|]. by apply (Ho k v).
Qed.

Lemma trie_methods (db : bytes -> option node) (t : Trie) (m : gmap bytes bytes) (key value : bytes) :
  represents db t m -> bytes_ok key ->
  exists F, forall fuel, (F <= fuel)%nat ->
    (exists t', TryGet db fuel key t = (Ret (m !! key), t') /\ represents db t' m) /\
    (exists t', TryUpdate db fuel key value t = (Ret tt, t') /\
       represents db t' (if decide (value = []) then base.delete key m else <[key := value]> m)) /\
    (exists t', TryDelete db fuel key t = (Ret tt, t') /\ represents db t' (base.delete key m)).
Proof.
  intros (d & tr & He & Hp & Hm & Ho) Hk. exists (S d). intros fuel Hf. pose proof (hexkey_keybytes key Hk) as Hhk.
  assert (forall u, exists n dt, delete db fuel (root t) [] (keybytesToHex key) = Ret (dt, n) /\ represents db (mkTrie n u) (base.delete key m)) as Hdel.
  { intros u. destruct (delete_spec db fuel d (root t) tr false [] _ He Hp Hhk ltac:(lia)) as (dt & n & tr' & d' & Heq & He' & (Hp' & Hget & _) & _).
    exists n, dt. split; [done|]. apply (represents_change db n tr tr' d' m _ key u None); try done.
    intros x. destruct (decide (x = key)) as [->|]; [by rewrite lookup_delete_eq|by rewrite lookup_delete_ne]. }
  split; [|split].
  - destruct (tryGet_spec db fuel d (root t) tr false [] _ He Hp Hhk ltac:(lia)) as (n & res & Heq & Hres).
    unfold TryGet. steps. change ([] ++ keybytesToHex key) with (keybytesToHex key) in Heq. change (len (@nil Z)) with 0 in Heq. rewrite Heq, Hm by done. steps.
    destruct res; unfold set_root; steps; eexists; (split; [done|]); [|by exists d, tr].
    exists d, tr. done.
  - unfold TryUpdate. steps. cbn [root unhashed]. destruct (Z.eqb_spec (len value) 0) as [E|E]; cbn [negb].
    + apply len_zero_iff in E. destruct (Hdel (unhashed t + 1)) as (n & dt & -> & Hrep). unfold set_root. steps. eexists. split; [done|]. by rewrite decide_True.
    + assert (value <> []) as Hv by (intros ->; done). rewrite decide_False by done.
      destruct (insert_spec db fuel d (root t) tr false [] _ value He Hp Hhk Hv ltac:(lia)) as (dt & n & tr' & d' & -> & He' & (Hp' & _ & Hget & _) & _).
      unfold set_root. steps. eexists. split; [done|]. apply (represents_change db n tr tr' d' m _ key _ (Some value)); try done.
      intros x. destruct (decide (x = key)) as [->|]; [by rewrite lookup_insert_eq|by rewrite lookup_insert_ne].
  - unfold TryDelete. steps. cbn [root unhashed]. destruct (Hdel (unhashed t + 1)) as (n & dt & -> & Hrep). unfold set_root. steps. by eexists.
Qed.

(** C18: The trie refines a finite map.  On a trie that stands for a map - its nodes in memory or in the
    database - TryGet returns the value of the key, TryUpdate sets it (an empty value deletes it)
    and TryDelete removes it; all of them succeed, given enough steps for the depth of the trie,
    and leave a trie that stands for the resulting map. *)
Theorem trie_refines_map (db : bytes -> option node) (t : Trie) (m : gmap bytes bytes) (key value : bytes) :
  represents db t m -> bytes_ok key ->
  exists F, forall fuel, (F <= fuel)%nat ->
    (exists t', TryGet db fuel key t = (Ret (m !! key), t') /\ represents db t' m) /\
    (exists t', TryUpdate db fuel key value t = (Ret tt, t') /\
       represents db t' (if decide (value = []) then base.delete key m else <[key := value]> m)) /\
    (exists t', TryDelete db fuel key t = (Ret tt, t') /\ represents db t' (base.delete key m)).
Proof. apply trie_methods. Qed.

(** Two tries that stand for one map expand to one tree, whatever databases their nodes are in. *)
Lemma represents_canonical (db db' : bytes -> option node) (t t' : Trie) (m : gmap bytes bytes) :
  represents db t m -> represents db' t' m ->
  exists d tr, expand db d (root t) tr /\ expand db' d (root t') tr.
Proof.
  intros (d & tr & He & Hp & Hm & Ho) (d' & tr' & He' & Hp' & Hm' & Ho').
  assert (tr = tr') as <-.
  { apply place_canonical; [done|done|]. intros k Hk. destruct (tget tr k) as [v|] eqn:E.
    - destruct (Ho k v Hk E) as (key & Hkey & ->). by rewrite Hm', <- Hm, E.
    - destruct (tget tr' k) as [v|] eqn:E'; [|done]. destruct (Ho' k v Hk E') as (key & Hkey & ->). rewrite Hm' in E' by done. by rewrite Hm, E' in E. }
  exists (Nat.max d d'), tr. split; [apply (expand_mono _ d); [lia|done]|apply (expand_mono _ d'); [lia|done]].
Qed.

(** A trie with one key. *)
Lemma represents_one (db : bytes -> option node) (d : nat) (n : node) (key v : bytes) (u : Z) :
  bytes_ok key -> v <> [] -> expand db d n (TShort (keybytesToHex key) (TVal v)) -> represents db (mkTrie n u) {[key := v]}.
Proof.
  intros Hk Hv He. apply (represents_change db n TNil (TShort (keybytesToHex key) (TVal v)) d ∅ _ key u (Some v)); try done.
  - right. constructor; [by apply hexkey_keybytes|done].
  - intros k' _. by rewrite <- tget_graft, tget_graft_val.
  - intros x. rewrite lookup_empty. destruct (decide (x = key)) as [->|]; [by rewrite lookup_singleton_eq|by rewrite lookup_singleton_ne].
Qed.

Lemma trie_refines_map_witness :
  represents (fun _ => None) (mkTrie NilNode 0) ∅ /\
  exists fuel t', TryUpdate (fun _ => None) fuel [0x12] [7] (mkTrie NilNode 0) = (Ret tt, t') /\
    represents (fun _ => None) t' (<[[0x12] := [7]]> ∅).
Proof.
  pose proof (represents_empty (fun _ => None) 0) as H. split; [exact H|].
  destruct (trie_refines_map (fun _ => None) (mkTrie NilNode 0) ∅ [0x12] [7] H ltac:(solve_bytes)) as (F & HF).
  exists F. destruct (HF F (le_n F)) as (_ & (t' & Hu & Hr) & _). exists t'. split; [exact Hu|exact Hr].
Defined.
