(* ===== verification/Primality.v ===== *)
(** Primality of the modulus of secp256k1, by the criterion of Pocklington: the inverses and the
    square roots of the field arithmetic are correct because the modulus is prime. *)

From Stdlib Require Import ZArith Lia Zdiv Znumtheory Zdivisibility Zpow_facts Setoid Bool List ZmodInv.
Import ListNotations.
#[local] Open Scope bool_scope.
#[local] Open Scope Z_scope.

#[local] Existing Instances eqm_setoid Zplus_eqm Zminus_eqm Zmult_eqm.

(** * Divisors *)

(** Every number above one has a prime divisor, of at most its square root unless it is prime. *)
Lemma least_divisor n : 1 < n -> exists r, Z.prime r /\ (r | n) /\ (Z.prime n \/ r * r <= n).
Proof.
  pattern n. apply (well_founded_induction (Z.lt_wf 0)). clear n. intros n IH Hn.
  destruct (prime_dec n) as [Hp%prime_alt | Hp].
  { exists n. split; [exact Hp | split; [apply Z.divide_refl | left; exact Hp]]. }
  destruct (not_prime_divide n Hn Hp) as (k & Hk & m & Em).
  assert (exists d, 1 < d < n /\ (d | n) /\ d * d <= n) as (d & Hd & Hdn & Hdd).
  { destruct (Z.le_ge_cases k m).
    - exists k. repeat split; [lia | lia | exists m; exact Em | nia].
    - exists m. repeat split; [nia | nia | exists k; lia | nia]. }
  destruct (IH d ltac:(lia) ltac:(lia)) as (r & Hr & Hrd & _).
  pose proof (Z.prime_ge_2 r Hr). pose proof (Z.divide_pos_le r d ltac:(lia) Hrd).
  exists r. split; [exact Hr | split; [eapply Z.divide_trans; eassumption | right; nia]].
Qed.

Lemma prime_neq_coprime p q : Z.prime p -> Z.prime q -> p <> q -> Z.coprime p q.
Proof.
  intros Hp Hq Hne. apply Z.coprime_prime_l; [exact Hp |]. intros Hd.
  destruct (Z.divide_prime_r p q Hq Hd) as [| [| [|]]]; pose proof (Z.prime_ge_2 p Hp); pose proof (Z.prime_ge_2 q Hq); lia.
Qed.

Definition product (l : list Z) : Z := fold_right Z.mul 1 l.

Lemma coprime_product q l : Z.prime q -> Forall Z.prime l -> ~ In q l -> Z.coprime q (product l).
Proof.
  intros Hq Hl. induction Hl as [| p l Hp Hl IH]; intros Hin; cbn [product fold_right]; [apply Z.coprime_1_r |].
  apply Z.coprime_mul_r; [apply prime_neq_coprime; [exact Hq | exact Hp |] | apply IH]; intros E; apply Hin; cbn [In]; auto.
Qed.

Lemma product_divides l m :
  Forall Z.prime l -> NoDup l -> Forall (fun q => (q | m)) l -> (product l | m).
Proof.
  intros Hp Hn Hd. induction Hn as [| q l Hin Hn IH]; cbn [product fold_right]; [apply Z.divide_1_l |].
  inversion_clear Hp as [| ? ? Hq Hl]. inversion_clear Hd as [| ? ? Hqm Hlm]. specialize (IH Hl Hlm).
  destruct IH as [k Ek]. assert (q | k * product l) as Hdiv by (fold (product l) in Ek; rewrite <- Ek; exact Hqm).
  rewrite Z.mul_comm in Hdiv. apply Z.gauss in Hdiv; [| apply coprime_product; assumption].
  destruct Hdiv as [j Ej]. exists j. fold (product l) in *. rewrite Ek, Ej. ring.
Qed.

(** * The criterion *)

Lemma eqm_pow r a b e : 0 <= e -> eqm r a b -> eqm r (a ^ e) (b ^ e).
Proof.
  intros He E. pattern e. apply natlike_ind; [reflexivity | | exact He].
  intros x Hx IH. rewrite !Z.pow_succ_r by exact Hx. apply Zmult_eqm; assumption.
Qed.

Lemma eqm_divide r a b : eqm r a b <-> (r | a - b).
Proof. exact (Z.cong_iff_ex a b r). Qed.

Lemma eqm_weaken r n a b : (r | n) -> eqm n a b -> eqm r a b.
Proof. rewrite !eqm_divide. apply Z.divide_trans. Qed.

(** A witness for the factor [q] of [n - 1] bounds the prime divisors of [n]. *)
Lemma factor_divides n a q r :
  1 < n -> Z.prime r -> (r | n) -> Z.prime q -> (q | n - 1) ->
  eqm n (a ^ (n - 1)) 1 -> Z.gcd (a ^ ((n - 1) / q) - 1) n = 1 -> (q | r - 1).
Proof.
  intros Hn Hr Hrn Hq [k Ek] Ha Hg. pose proof (Z.prime_ge_2 r Hr). pose proof (Z.prime_ge_2 q Hq).
  assert (0 <= k) by nia. replace ((n - 1) / q) with k in Hg by (rewrite Ek, Z.div_mul; lia).
  set (b := a ^ k) in *. assert (eqm r (b ^ q) 1) as Hbq.
  { apply (eqm_weaken r n); [exact Hrn |]. unfold b. rewrite <- Z.pow_mul_r, <- Ek by lia. exact Ha. }
  assert (~ eqm r b 1) as Hb1.
  { rewrite eqm_divide. intros Hd. pose proof (Z.gcd_greatest _ _ _ Hd Hrn) as G. rewrite Hg in G.
    apply Z.divide_1_r_nonneg in G; lia. }
  assert (eqm r (b ^ (r - 1)) 1) as Hfermat.
  { unfold eqm. rewrite (Z.mod_small 1) by lia. apply Z.fermat_nz; [exact Hr |]. intros E.
    assert (eqm r (b ^ q) (0 ^ q)) as E0 by (apply eqm_pow; [lia | unfold eqm; rewrite E, Z.mod_0_l; lia]).
    rewrite Hbq, Z.pow_0_l in E0 by lia. unfold eqm in E0.
    rewrite (Z.mod_small 1) in E0 by lia. rewrite Z.mod_0_l in E0 by lia. lia. }
  destruct (Zdivide_dec q (r - 1)) as [Hd | Hd]; [exact Hd | exfalso; apply Hb1].
  destruct (Z.Bezout_coprime q (r - 1) (Z.coprime_prime_l q (r - 1) Hq Hd)) as (u & v & Huv).
  pose (s := u mod (r - 1) + (r - 1)). pose (t := q * (1 - u / (r - 1)) - v).
  assert (s * q = 1 + (r - 1) * t) as Est.
  { unfold s, t. rewrite (Z.mod_eq u (r - 1)) by lia. generalize (u / (r - 1)). intros k'.
    transitivity ((u * q + v * (r - 1)) + (r - 1) * (q * (1 - k') - v)); [ring | rewrite Huv; reflexivity]. }
  pose proof (Z.mod_pos_bound u (r - 1) ltac:(lia)).
  assert (0 <= s) by lia. assert (2 <= s * q) as Hsq by (apply (Z.le_trans _ (1 * q)); [lia | apply Z.mul_le_mono_nonneg_r; lia]).
  clearbody s t.
  assert (0 <= (r - 1) * t) as Hrt by lia. assert (0 <= t) by (apply Z.mul_nonneg_cancel_l in Hrt; lia).
  assert (eqm r (b ^ (q * s)) 1) as E1.
  { rewrite Z.pow_mul_r by lia. rewrite (eqm_pow r _ 1 s ltac:(lia) Hbq), Z.pow_1_l by lia. reflexivity. }
  rewrite (Z.mul_comm q s), Est, Z.pow_add_r, Z.pow_1_r, Z.pow_mul_r in E1 by lia.
  rewrite (eqm_pow r _ 1 t ltac:(lia) Hfermat), Z.pow_1_l, Z.mul_1_r in E1 by lia. exact E1.
Qed.

Theorem pocklington n a l :
  1 < n -> Forall Z.prime l -> NoDup l -> Forall (fun q => (q | n - 1)) l ->
  eqm n (a ^ (n - 1)) 1 -> Forall (fun q => Z.gcd (a ^ ((n - 1) / q) - 1) n = 1) l ->
  n < product l * product l -> 0 <= product l -> Z.prime n.
Proof.
  intros Hn Hp Hnd Hd Ha Hg Hlt Hpos. destruct (least_divisor n Hn) as (r & Hr & Hrn & [Hprime | Hle]); [exact Hprime |].
  exfalso. assert (product l | r - 1) as Hdiv.
  { apply product_divides; [exact Hp | exact Hnd |]. rewrite Forall_forall in *. intros q Hq.
    apply (factor_divides n a q r); auto. }
  pose proof (Z.prime_ge_2 r Hr). apply Z.divide_pos_le in Hdiv; [| lia].
  assert (product l * product l <= r * r) by (apply Z.mul_le_mono_nonneg; lia). lia.
Qed.

(** * Certificates *)

Definition power_mod (a e n : Z) : Z := Zpow_mod a e n.

Definition certificate (n a : Z) (l : list Z) : bool :=
  (1 <? n) && (power_mod a (n - 1) n =? 1) &&
  forallb (fun q => ((n - 1) mod q =? 0) && (Z.gcd (power_mod a ((n - 1) / q) n - 1) n =? 1)) l &&
  (n <? product l * product l) && (0 <=? product l).

Lemma certificate_prime n a l : Forall Z.prime l -> NoDup l -> certificate n a l = true -> Z.prime n.
Proof.
  unfold certificate, power_mod. rewrite !andb_true_iff, !Z.eqb_eq, !Z.ltb_lt, Z.leb_le, forallb_forall.
  intros Hp Hnd ((((Hn & Ha) & Hl) & Hlt) & Hpos). rewrite Forall_forall in Hp.
  rewrite Zpow_mod_correct in Ha by lia.
  apply (pocklington n a l); try assumption; [apply Forall_forall; exact Hp | | | ].
  - apply Forall_forall. intros q Hq. specialize (Hl q Hq). rewrite andb_true_iff, !Z.eqb_eq in Hl.
    pose proof (Z.prime_ge_2 q (Hp q Hq)). apply Z.mod_divide; [lia | tauto].
  - unfold eqm. rewrite Ha, Z.mod_small; lia.
  - apply Forall_forall. intros q Hq. specialize (Hl q Hq). rewrite andb_true_iff, !Z.eqb_eq in Hl.
    destruct Hl as [_ Hg]. rewrite Zpow_mod_correct in Hg by lia.
    rewrite <- Z.gcd_mod_l, Zminus_mod_idemp_l, Z.gcd_mod_l in Hg. exact Hg.
Qed.

(** Small primes by trial division. *)
Fixpoint no_divisor (fuel : nat) (d n : Z) : bool :=
  match fuel with
  | O => false
  | S fuel' => if n <? d * d then true else negb (n mod d =? 0) && no_divisor fuel' (d + 1) n
  end.

Lemma no_divisor_spec fuel d n r : no_divisor fuel d n = true -> 0 < d <= r -> r * r <= n -> ~ (r | n).
Proof.
  revert d. induction fuel as [| fuel IH]; intros d H Hd Hr; cbn [no_divisor] in H; [discriminate |].
  destruct (Z.ltb_spec n (d * d)); [nia |]. apply andb_true_iff in H as [Hmod H]. apply negb_true_iff, Z.eqb_neq in Hmod.
  destruct (Z.eq_dec d r) as [<- | Hne]; [rewrite <- Z.mod_divide; lia |]. apply (IH (d + 1)); [exact H | lia | exact Hr].
Qed.

Lemma trial_prime fuel n : 1 < n -> no_divisor fuel 2 n = true -> Z.prime n.
Proof.
  intros Hn H. destruct (least_divisor n Hn) as (r & Hr & Hrn & [Hp | Hle]); [exact Hp |].
  pose proof (Z.prime_ge_2 r Hr). exfalso. exact (no_divisor_spec fuel 2 n r H ltac:(lia) Hle Hrn).
Qed.

Ltac by_trial := apply (trial_prime 1000); [reflexivity | vm_compute; reflexivity].
Ltac distinct := repeat constructor; cbn [In]; lia.
Ltac by_certificate a l :=
  apply (certificate_prime _ a l); [repeat (apply Forall_cons || apply Forall_nil); assumption | distinct | vm_compute; reflexivity].

(** The modulus of the field: [2^256 - 2^32 - 977]. *)
Lemma prime_secp256k1 : Z.prime (2 ^ 256 - 4294968273).
Proof.
  assert (Z.prime 7) by by_trial. assert (Z.prime 29) by by_trial. assert (Z.prime 53) by by_trial.
  assert (Z.prime 20113) by by_trial. assert (Z.prime 96557) by by_trial.
  assert (Z.prime 1206781) by by_certificate 2 [20113].
  assert (Z.prime 7240687) by by_certificate 2 [1206781].
  assert (Z.prime 107590001) by by_certificate 2 [53; 29; 7].
  assert (Z.prime 255515944373312847190720520512484175977) by by_certificate 2 [107590001; 7240687; 96557].
  assert (Z.prime 205115282021455665897114700593932402728804164701536103180137503955397371)
    by by_certificate 2 [255515944373312847190720520512484175977].
  by_certificate 2 [205115282021455665897114700593932402728804164701536103180137503955397371].
Qed.
