(* ===== verification/Field.v ===== *)
(** The field of secp256k1 (pocec/field.go): 256-bit values in ten words of base [2^26], with the
    carries left in the upper bits of the words until a value is normalised. *)

From Stdlib Require Import ZArith Lia Zdiv Setoid.
From S2P Require Import Prelude.

(** Bit operations on words, with the precedences of Go. *)
Declare Scope word_scope.
Delimit Scope word_scope with word.
Infix ".&" := Z.land (at level 40, left associativity) : word_scope.
Infix ".<<" := Z.shiftl (at level 40, left associativity) : word_scope.
Infix ".>>" := Z.shiftr (at level 40, left associativity) : word_scope.
Infix ".|" := Z.lor (at level 50, left associativity) : word_scope.
Infix ".^" := Z.lxor (at level 50, left associativity) : word_scope.
#[local] Open Scope word_scope.

(** * Definitions *)

Module Field.

Definition twoBitsMask : Z := 0x3.
Definition fourBitsMask : Z := 0xf.
Definition sixBitsMask : Z := 0x3f.
Definition eightBitsMask : Z := 0xff.

Definition fieldWords : Z := 10.
Definition fieldBase : Z := 26.
Definition fieldOverflowBits : Z := 32 - fieldBase.
Definition fieldBaseMask : Z := (1 .<< fieldBase) - 1.
Definition fieldMSBBits : Z := 256 - fieldBase * (fieldWords - 1).
Definition fieldMSBMask : Z := (1 .<< fieldMSBBits) - 1.
Definition fieldPrimeWordZero : Z := 0x3fffc2f.
Definition fieldPrimeWordOne : Z := 0x3ffffbf.

Definition fieldQBytes : bytes :=
  [0x3f; 0xff; 0xff; 0xff; 0xff; 0xff; 0xff; 0xff;
   0xff; 0xff; 0xff; 0xff; 0xff; 0xff; 0xff; 0xff;
   0xff; 0xff; 0xff; 0xff; 0xff; 0xff; 0xff; 0xff;
   0xff; 0xff; 0xff; 0xff; 0xbf; 0xff; 0xff; 0x0c].

(** The ten words, least significant first.  Every method that stores into its receiver returns
    the new value of the receiver; all of them read a word of an argument before they write the
    same word, so a receiver that is also an argument makes no difference (SqrtVal apart, see
    below).  A statement of the code is wrapped once, around its sum of products. *)
Record fieldVal := mkFieldVal {
  n0 : Z; n1 : Z; n2 : Z; n3 : Z; n4 : Z; n5 : Z; n6 : Z; n7 : Z; n8 : Z; n9 : Z
}.

#[global] Instance fieldVal_eq_dec : EqDecision fieldVal.
Proof. solve_decision. Defined.

Definition Zero : fieldVal := mkFieldVal 0 0 0 0 0 0 0 0 0 0.
Definition Set_ (val : fieldVal) : fieldVal := val.
Definition SetInt (ui : Z) : fieldVal := mkFieldVal (uint32 ui) 0 0 0 0 0 0 0 0 0.

(** The argument is a 32-byte array. *)
Definition SetBytes (arr : bytes) : fieldVal :=
  let b i := nth (Z.to_nat i) arr 0 in
  mkFieldVal
    (b 31 .| uint32 (b 30 .<< 8) .| uint32 (b 29 .<< 16) .| uint32 (b 28 .& twoBitsMask .<< 24))
    (b 28 .>> 2 .| uint32 (b 27 .<< 6) .| uint32 (b 26 .<< 14) .| uint32 (b 25 .& fourBitsMask .<< 22))
    (b 25 .>> 4 .| uint32 (b 24 .<< 4) .| uint32 (b 23 .<< 12) .| uint32 (b 22 .& sixBitsMask .<< 20))
    (b 22 .>> 6 .| uint32 (b 21 .<< 2) .| uint32 (b 20 .<< 10) .| uint32 (b 19 .<< 18))
    (b 18 .| uint32 (b 17 .<< 8) .| uint32 (b 16 .<< 16) .| uint32 (b 15 .& twoBitsMask .<< 24))
    (b 15 .>> 2 .| uint32 (b 14 .<< 6) .| uint32 (b 13 .<< 14) .| uint32 (b 12 .& fourBitsMask .<< 22))
    (b 12 .>> 4 .| uint32 (b 11 .<< 4) .| uint32 (b 10 .<< 12) .| uint32 (b 9 .& sixBitsMask .<< 20))
    (b 9 .>> 6 .| uint32 (b 8 .<< 2) .| uint32 (b 7 .<< 10) .| uint32 (b 6 .<< 18))
    (b 5 .| uint32 (b 4 .<< 8) .| uint32 (b 3 .<< 16) .| uint32 (b 2 .& twoBitsMask .<< 24))
    (b 2 .>> 2 .| uint32 (b 1 .<< 6) .| uint32 (b 0 .<< 14)).

(** SetByteSlice copies the slice to the end of a 32-byte array; a slice of more than 32 bytes
    makes the first index negative. *)
Definition put32 {E} (b32 : bytes) (i x : Z) : outcome E bytes :=
  if (0 <=? i) && (i <? 32) then Ret (<[Z.to_nat i := x]> b32) else Panic.

Fixpoint byteslice_loop {E} (l i : Z) (b b32 : bytes) : outcome E bytes :=
  match b with
  | [] => Ret b32
  | x :: rest =>
      b32 ← (if i <? 32 then put32 b32 (i + (32 - l)) x else Ret b32);
      byteslice_loop l (i + 1) rest b32
  end.

Definition SetByteSlice {E} (b : bytes) : outcome E fieldVal :=
  b32 ← byteslice_loop (len b) 0 b (replicate 32 0);
  Ret (SetBytes b32).

Definition Normalize (f : fieldVal) : fieldVal :=
  let 'mkFieldVal f0 f1 f2 f3 f4 f5 f6 f7 f8 f9 := f in
  let t9 := f9 in
  let m := t9 .>> fieldMSBBits in
  let t9 := t9 .& fieldMSBMask in
  let t0 := uint32 (f0 + m * 977) in
  let t1 := uint32 ((t0 .>> fieldBase) + f1 + (m .<< 6)) in
  let t0 := t0 .& fieldBaseMask in
  let t2 := uint32 ((t1 .>> fieldBase) + f2) in
  let t1 := t1 .& fieldBaseMask in
  let t3 := uint32 ((t2 .>> fieldBase) + f3) in
  let t2 := t2 .& fieldBaseMask in
  let t4 := uint32 ((t3 .>> fieldBase) + f4) in
  let t3 := t3 .& fieldBaseMask in
  let t5 := uint32 ((t4 .>> fieldBase) + f5) in
  let t4 := t4 .& fieldBaseMask in
  let t6 := uint32 ((t5 .>> fieldBase) + f6) in
  let t5 := t5 .& fieldBaseMask in
  let t7 := uint32 ((t6 .>> fieldBase) + f7) in
  let t6 := t6 .& fieldBaseMask in
  let t8 := uint32 ((t7 .>> fieldBase) + f8) in
  let t7 := t7 .& fieldBaseMask in
  let t9 := uint32 ((t8 .>> fieldBase) + t9) in
  let t8 := t8 .& fieldBaseMask in
  let m := 1 in
  let m := if t9 =? fieldMSBMask then m .& 1 else m .& 0 in
  let m := if t2 .& t3 .& t4 .& t5 .& t6 .& t7 .& t8 =? fieldBaseMask then m .& 1 else m .& 0 in
  let m := if uint32 ((uint32 (t0 + 977) .>> fieldBase) + t1 + 64) >? fieldBaseMask then m .& 1 else m .& 0 in
  let m := if negb (t9 .>> fieldMSBBits =? 0) then m .| 1 else m .| 0 in
  let t0 := uint32 (t0 + m * 977) in
  let t1 := uint32 ((t0 .>> fieldBase) + t1 + (m .<< 6)) in
  let t0 := t0 .& fieldBaseMask in
  let t2 := uint32 ((t1 .>> fieldBase) + t2) in
  let t1 := t1 .& fieldBaseMask in
  let t3 := uint32 ((t2 .>> fieldBase) + t3) in
  let t2 := t2 .& fieldBaseMask in
  let t4 := uint32 ((t3 .>> fieldBase) + t4) in
  let t3 := t3 .& fieldBaseMask in
  let t5 := uint32 ((t4 .>> fieldBase) + t5) in
  let t4 := t4 .& fieldBaseMask in
  let t6 := uint32 ((t5 .>> fieldBase) + t6) in
  let t5 := t5 .& fieldBaseMask in
  let t7 := uint32 ((t6 .>> fieldBase) + t7) in
  let t6 := t6 .& fieldBaseMask in
  let t8 := uint32 ((t7 .>> fieldBase) + t8) in
  let t7 := t7 .& fieldBaseMask in
  let t9 := uint32 ((t8 .>> fieldBase) + t9) in
  let t8 := t8 .& fieldBaseMask in
  let t9 := t9 .& fieldMSBMask in
  mkFieldVal t0 t1 t2 t3 t4 t5 t6 t7 t8 t9.

(** The 32 bytes the array is left with. *)
Definition PutBytes (f : fieldVal) : bytes :=
  let 'mkFieldVal f0 f1 f2 f3 f4 f5 f6 f7 f8 f9 := f in
  [uint8 (f9 .>> 14 .& eightBitsMask);
   uint8 (f9 .>> 6 .& eightBitsMask);
   uint8 (f8 .>> 24 .& twoBitsMask .| uint32 (f9 .& sixBitsMask .<< 2));
   uint8 (f8 .>> 16 .& eightBitsMask);
   uint8 (f8 .>> 8 .& eightBitsMask);
   uint8 (f8 .& eightBitsMask);
   uint8 (f7 .>> 18 .& eightBitsMask);
   uint8 (f7 .>> 10 .& eightBitsMask);
   uint8 (f7 .>> 2 .& eightBitsMask);
   uint8 (f6 .>> 20 .& sixBitsMask .| uint32 (f7 .& twoBitsMask .<< 6));
   uint8 (f6 .>> 12 .& eightBitsMask);
   uint8 (f6 .>> 4 .& eightBitsMask);
   uint8 (f5 .>> 22 .& fourBitsMask .| uint32 (f6 .& fourBitsMask .<< 4));
   uint8 (f5 .>> 14 .& eightBitsMask);
   uint8 (f5 .>> 6 .& eightBitsMask);
   uint8 (f4 .>> 24 .& twoBitsMask .| uint32 (f5 .& sixBitsMask .<< 2));
   uint8 (f4 .>> 16 .& eightBitsMask);
   uint8 (f4 .>> 8 .& eightBitsMask);
   uint8 (f4 .& eightBitsMask);
   uint8 (f3 .>> 18 .& eightBitsMask);
   uint8 (f3 .>> 10 .& eightBitsMask);
   uint8 (f3 .>> 2 .& eightBitsMask);
   uint8 (f2 .>> 20 .& sixBitsMask .| uint32 (f3 .& twoBitsMask .<< 6));
   uint8 (f2 .>> 12 .& eightBitsMask);
   uint8 (f2 .>> 4 .& eightBitsMask);
   uint8 (f1 .>> 22 .& fourBitsMask .| uint32 (f2 .& fourBitsMask .<< 4));
   uint8 (f1 .>> 14 .& eightBitsMask);
   uint8 (f1 .>> 6 .& eightBitsMask);
   uint8 (f0 .>> 24 .& twoBitsMask .| uint32 (f1 .& sixBitsMask .<< 2));
   uint8 (f0 .>> 16 .& eightBitsMask);
   uint8 (f0 .>> 8 .& eightBitsMask);
   uint8 (f0 .& eightBitsMask)].

Definition Bytes (f : fieldVal) : bytes := PutBytes f.

Definition IsZero (f : fieldVal) : bool :=
  let bits := n0 f .| n1 f .| n2 f .| n3 f .| n4 f .| n5 f .| n6 f .| n7 f .| n8 f .| n9 f in
  bits =? 0.

Definition IsOdd (f : fieldVal) : bool := n0 f .& 1 =? 1.

Definition Equals (f val : fieldVal) : bool :=
  let bits :=
    (n0 f .^ n0 val) .| (n1 f .^ n1 val) .| (n2 f .^ n2 val) .| (n3 f .^ n3 val) .| (n4 f .^ n4 val) .|
    (n5 f .^ n5 val) .| (n6 f .^ n6 val) .| (n7 f .^ n7 val) .| (n8 f .^ n8 val) .| (n9 f .^ n9 val) in
  bits =? 0.

Definition NegateVal (val : fieldVal) (magnitude : Z) : fieldVal :=
  let k := uint32 (magnitude + 1) in
  mkFieldVal
    (uint32 (k * fieldPrimeWordZero - n0 val)) (uint32 (k * fieldPrimeWordOne - n1 val))
    (uint32 (k * fieldBaseMask - n2 val)) (uint32 (k * fieldBaseMask - n3 val))
    (uint32 (k * fieldBaseMask - n4 val)) (uint32 (k * fieldBaseMask - n5 val))
    (uint32 (k * fieldBaseMask - n6 val)) (uint32 (k * fieldBaseMask - n7 val))
    (uint32 (k * fieldBaseMask - n8 val)) (uint32 (k * fieldMSBMask - n9 val)).

Definition Negate (f : fieldVal) (magnitude : Z) : fieldVal := NegateVal f magnitude.

Definition AddInt (f : fieldVal) (ui : Z) : fieldVal :=
  mkFieldVal (uint32 (n0 f + uint32 ui)) (n1 f) (n2 f) (n3 f) (n4 f) (n5 f) (n6 f) (n7 f) (n8 f) (n9 f).

Definition Add2 (val val2 : fieldVal) : fieldVal :=
  mkFieldVal
    (uint32 (n0 val + n0 val2)) (uint32 (n1 val + n1 val2)) (uint32 (n2 val + n2 val2)) (uint32 (n3 val + n3 val2))
    (uint32 (n4 val + n4 val2)) (uint32 (n5 val + n5 val2)) (uint32 (n6 val + n6 val2)) (uint32 (n7 val + n7 val2))
    (uint32 (n8 val + n8 val2)) (uint32 (n9 val + n9 val2)).

Definition Add (f val : fieldVal) : fieldVal :=
  mkFieldVal
    (uint32 (n0 f + n0 val)) (uint32 (n1 f + n1 val)) (uint32 (n2 f + n2 val)) (uint32 (n3 f + n3 val))
    (uint32 (n4 f + n4 val)) (uint32 (n5 f + n5 val)) (uint32 (n6 f + n6 val)) (uint32 (n7 f + n7 val))
    (uint32 (n8 f + n8 val)) (uint32 (n9 f + n9 val)).

Definition MulInt (f : fieldVal) (val : Z) : fieldVal :=
  let ui := uint32 val in
  mkFieldVal
    (uint32 (n0 f * ui)) (uint32 (n1 f * ui)) (uint32 (n2 f * ui)) (uint32 (n3 f * ui)) (uint32 (n4 f * ui))
    (uint32 (n5 f * ui)) (uint32 (n6 f * ui)) (uint32 (n7 f * ui)) (uint32 (n8 f * ui)) (uint32 (n9 f * ui)).

(** The reduction that ends Mul2, and in the same words SquareVal, from the twenty terms of the
    product. *)
Definition reduce (t0 t1 t2 t3 t4 t5 t6 t7 t8 t9 t10 t11 t12 t13 t14 t15 t16 t17 t18 t19 : Z) : fieldVal :=
  let m := uint64 (t0 + t10 * 15632) in
  let t0 := m .& fieldBaseMask in
  let m := uint64 ((m .>> fieldBase) + t1 + t10 * 1024 + t11 * 15632) in
  let t1 := m .& fieldBaseMask in
  let m := uint64 ((m .>> fieldBase) + t2 + t11 * 1024 + t12 * 15632) in
  let t2 := m .& fieldBaseMask in
  let m := uint64 ((m .>> fieldBase) + t3 + t12 * 1024 + t13 * 15632) in
  let t3 := m .& fieldBaseMask in
  let m := uint64 ((m .>> fieldBase) + t4 + t13 * 1024 + t14 * 15632) in
  let t4 := m .& fieldBaseMask in
  let m := uint64 ((m .>> fieldBase) + t5 + t14 * 1024 + t15 * 15632) in
  let t5 := m .& fieldBaseMask in
  let m := uint64 ((m .>> fieldBase) + t6 + t15 * 1024 + t16 * 15632) in
  let t6 := m .& fieldBaseMask in
  let m := uint64 ((m .>> fieldBase) + t7 + t16 * 1024 + t17 * 15632) in
  let t7 := m .& fieldBaseMask in
  let m := uint64 ((m .>> fieldBase) + t8 + t17 * 1024 + t18 * 15632) in
  let t8 := m .& fieldBaseMask in
  let m := uint64 ((m .>> fieldBase) + t9 + t18 * 1024 + t19 * 68719492368) in
  let t9 := m .& fieldMSBMask in
  let m := m .>> fieldMSBBits in
  let d := uint64 (t0 + m * 977) in
  let r0 := uint32 (d .& fieldBaseMask) in
  let d := uint64 ((d .>> fieldBase) + t1 + m * 64) in
  let r1 := uint32 (d .& fieldBaseMask) in
  let r2 := uint32 (uint64 ((d .>> fieldBase) + t2)) in
  let r3 := uint32 (t3) in
  let r4 := uint32 (t4) in
  let r5 := uint32 (t5) in
  let r6 := uint32 (t6) in
  let r7 := uint32 (t7) in
  let r8 := uint32 (t8) in
  let r9 := uint32 (t9) in
  mkFieldVal r0 r1 r2 r3 r4 r5 r6 r7 r8 r9.

Definition Mul2 (val val2 : fieldVal) : fieldVal :=
  let 'mkFieldVal a0 a1 a2 a3 a4 a5 a6 a7 a8 a9 := val in
  let 'mkFieldVal b0 b1 b2 b3 b4 b5 b6 b7 b8 b9 := val2 in
  let m := uint64 (a0 * b0) in
  let t0 := m .& fieldBaseMask in
  let m := uint64 ((m .>> fieldBase) + a0 * b1 + a1 * b0) in
  let t1 := m .& fieldBaseMask in
  let m := uint64 ((m .>> fieldBase) + a0 * b2 + a1 * b1 + a2 * b0) in
  let t2 := m .& fieldBaseMask in
  let m := uint64 ((m .>> fieldBase) + a0 * b3 + a1 * b2 + a2 * b1 + a3 * b0) in
  let t3 := m .& fieldBaseMask in
  let m := uint64 ((m .>> fieldBase) + a0 * b4 + a1 * b3 + a2 * b2 + a3 * b1 + a4 * b0) in
  let t4 := m .& fieldBaseMask in
  let m := uint64 ((m .>> fieldBase) + a0 * b5 + a1 * b4 + a2 * b3 + a3 * b2 + a4 * b1 + a5 * b0) in
  let t5 := m .& fieldBaseMask in
  let m := uint64 ((m .>> fieldBase) + a0 * b6 + a1 * b5 + a2 * b4 + a3 * b3 + a4 * b2 + a5 * b1 + a6 * b0) in
  let t6 := m .& fieldBaseMask in
  let m := uint64 ((m .>> fieldBase) + a0 * b7 + a1 * b6 + a2 * b5 + a3 * b4 + a4 * b3 + a5 * b2 + a6 * b1 +
      a7 * b0) in
  let t7 := m .& fieldBaseMask in
  let m := uint64 ((m .>> fieldBase) + a0 * b8 + a1 * b7 + a2 * b6 + a3 * b5 + a4 * b4 + a5 * b3 + a6 * b2 + a7 * b1 +
      a8 * b0) in
  let t8 := m .& fieldBaseMask in
  let m := uint64 ((m .>> fieldBase) + a0 * b9 + a1 * b8 + a2 * b7 + a3 * b6 + a4 * b5 + a5 * b4 + a6 * b3 + a7 * b2 +
      a8 * b1 + a9 * b0) in
  let t9 := m .& fieldBaseMask in
  let m := uint64 ((m .>> fieldBase) + a1 * b9 + a2 * b8 + a3 * b7 + a4 * b6 + a5 * b5 + a6 * b4 + a7 * b3 + a8 * b2 +
      a9 * b1) in
  let t10 := m .& fieldBaseMask in
  let m := uint64 ((m .>> fieldBase) + a2 * b9 + a3 * b8 + a4 * b7 + a5 * b6 + a6 * b5 + a7 * b4 + a8 * b3 +
      a9 * b2) in
  let t11 := m .& fieldBaseMask in
  let m := uint64 ((m .>> fieldBase) + a3 * b9 + a4 * b8 + a5 * b7 + a6 * b6 + a7 * b5 + a8 * b4 + a9 * b3) in
  let t12 := m .& fieldBaseMask in
  let m := uint64 ((m .>> fieldBase) + a4 * b9 + a5 * b8 + a6 * b7 + a7 * b6 + a8 * b5 + a9 * b4) in
  let t13 := m .& fieldBaseMask in
  let m := uint64 ((m .>> fieldBase) + a5 * b9 + a6 * b8 + a7 * b7 + a8 * b6 + a9 * b5) in
  let t14 := m .& fieldBaseMask in
  let m := uint64 ((m .>> fieldBase) + a6 * b9 + a7 * b8 + a8 * b7 + a9 * b6) in
  let t15 := m .& fieldBaseMask in
  let m := uint64 ((m .>> fieldBase) + a7 * b9 + a8 * b8 + a9 * b7) in
  let t16 := m .& fieldBaseMask in
  let m := uint64 ((m .>> fieldBase) + a8 * b9 + a9 * b8) in
  let t17 := m .& fieldBaseMask in
  let m := uint64 ((m .>> fieldBase) + a9 * b9) in
  let t18 := m .& fieldBaseMask in
  let t19 := m .>> fieldBase in
  reduce t0 t1 t2 t3 t4 t5 t6 t7 t8 t9 t10 t11 t12 t13 t14 t15 t16 t17 t18 t19.

Definition Mul (f val : fieldVal) : fieldVal := Mul2 f val.

Definition SquareVal (val : fieldVal) : fieldVal :=
  let 'mkFieldVal a0 a1 a2 a3 a4 a5 a6 a7 a8 a9 := val in
  let m := uint64 (a0 * a0) in
  let t0 := m .& fieldBaseMask in
  let m := uint64 ((m .>> fieldBase) + 2 * a0 * a1) in
  let t1 := m .& fieldBaseMask in
  let m := uint64 ((m .>> fieldBase) + 2 * a0 * a2 + a1 * a1) in
  let t2 := m .& fieldBaseMask in
  let m := uint64 ((m .>> fieldBase) + 2 * a0 * a3 + 2 * a1 * a2) in
  let t3 := m .& fieldBaseMask in
  let m := uint64 ((m .>> fieldBase) + 2 * a0 * a4 + 2 * a1 * a3 + a2 * a2) in
  let t4 := m .& fieldBaseMask in
  let m := uint64 ((m .>> fieldBase) + 2 * a0 * a5 + 2 * a1 * a4 + 2 * a2 * a3) in
  let t5 := m .& fieldBaseMask in
  let m := uint64 ((m .>> fieldBase) + 2 * a0 * a6 + 2 * a1 * a5 + 2 * a2 * a4 + a3 * a3) in
  let t6 := m .& fieldBaseMask in
  let m := uint64 ((m .>> fieldBase) + 2 * a0 * a7 + 2 * a1 * a6 + 2 * a2 * a5 + 2 * a3 * a4) in
  let t7 := m .& fieldBaseMask in
  let m := uint64 ((m .>> fieldBase) + 2 * a0 * a8 + 2 * a1 * a7 + 2 * a2 * a6 + 2 * a3 * a5 + a4 * a4) in
  let t8 := m .& fieldBaseMask in
  let m := uint64 ((m .>> fieldBase) + 2 * a0 * a9 + 2 * a1 * a8 + 2 * a2 * a7 + 2 * a3 * a6 + 2 * a4 * a5) in
  let t9 := m .& fieldBaseMask in
  let m := uint64 ((m .>> fieldBase) + 2 * a1 * a9 + 2 * a2 * a8 + 2 * a3 * a7 + 2 * a4 * a6 + a5 * a5) in
  let t10 := m .& fieldBaseMask in
  let m := uint64 ((m .>> fieldBase) + 2 * a2 * a9 + 2 * a3 * a8 + 2 * a4 * a7 + 2 * a5 * a6) in
  let t11 := m .& fieldBaseMask in
  let m := uint64 ((m .>> fieldBase) + 2 * a3 * a9 + 2 * a4 * a8 + 2 * a5 * a7 + a6 * a6) in
  let t12 := m .& fieldBaseMask in
  let m := uint64 ((m .>> fieldBase) + 2 * a4 * a9 + 2 * a5 * a8 + 2 * a6 * a7) in
  let t13 := m .& fieldBaseMask in
  let m := uint64 ((m .>> fieldBase) + 2 * a5 * a9 + 2 * a6 * a8 + a7 * a7) in
  let t14 := m .& fieldBaseMask in
  let m := uint64 ((m .>> fieldBase) + 2 * a6 * a9 + 2 * a7 * a8) in
  let t15 := m .& fieldBaseMask in
  let m := uint64 ((m .>> fieldBase) + 2 * a7 * a9 + a8 * a8) in
  let t16 := m .& fieldBaseMask in
  let m := uint64 ((m .>> fieldBase) + 2 * a8 * a9) in
  let t17 := m .& fieldBaseMask in
  let m := uint64 ((m .>> fieldBase) + a9 * a9) in
  let t18 := m .& fieldBaseMask in
  let t19 := m .>> fieldBase in
  reduce t0 t1 t2 t3 t4 t5 t6 t7 t8 t9 t10 t11 t12 t13 t14 t15 t16 t17 t18 t19.

Definition Square (f : fieldVal) : fieldVal := SquareVal f.

(** [f.Square().Square().Square().Square().Square()] *)
Definition Square5 (f : fieldVal) : fieldVal := Square (Square (Square (Square (Square f)))).

Definition Inverse (f : fieldVal) : fieldVal :=
  let a2 := SquareVal f in
  let a3 := Mul2 a2 f in
  let a4 := SquareVal a2 in
  let a10 := Mul (SquareVal a4) a2 in
  let a11 := Mul2 a10 f in
  let a21 := Mul2 a10 a11 in
  let a42 := SquareVal a21 in
  let a45 := Mul2 a42 a3 in
  let a63 := Mul2 a42 a21 in
  let a1019 := Mul (Square (Square (Square (SquareVal a63)))) a11 in
  let a1023 := Mul2 a1019 a4 in
  let f := Set_ a63 in
  let f := Square5 f in
  let f := Square5 f in
  let f := Mul f a1023 in
  let f := Square5 f in
  let f := Square5 f in
  let f := Mul f a1023 in
  let f := Square5 f in
  let f := Square5 f in
  let f := Mul f a1023 in
  let f := Square5 f in
  let f := Square5 f in
  let f := Mul f a1023 in
  let f := Square5 f in
  let f := Square5 f in
  let f := Mul f a1023 in
  let f := Square5 f in
  let f := Square5 f in
  let f := Mul f a1023 in
  let f := Square5 f in
  let f := Square5 f in
  let f := Mul f a1023 in
  let f := Square5 f in
  let f := Square5 f in
  let f := Mul f a1023 in
  let f := Square5 f in
  let f := Square5 f in
  let f := Mul f a1023 in
  let f := Square5 f in
  let f := Square5 f in
  let f := Mul f a1023 in
  let f := Square5 f in
  let f := Square5 f in
  let f := Mul f a1023 in
  let f := Square5 f in
  let f := Square5 f in
  let f := Mul f a1023 in
  let f := Square5 f in
  let f := Square5 f in
  let f := Mul f a1023 in
  let f := Square5 f in
  let f := Square5 f in
  let f := Mul f a1023 in
  let f := Square5 f in
  let f := Square5 f in
  let f := Mul f a1023 in
  let f := Square5 f in
  let f := Square5 f in
  let f := Mul f a1023 in
  let f := Square5 f in
  let f := Square5 f in
  let f := Mul f a1023 in
  let f := Square5 f in
  let f := Square5 f in
  let f := Mul f a1023 in
  let f := Square5 f in
  let f := Square5 f in
  let f := Mul f a1023 in
  let f := Square5 f in
  let f := Square5 f in
  let f := Mul f a1023 in
  let f := Square5 f in
  let f := Square5 f in
  let f := Mul f a1023 in
  let f := Square5 f in
  let f := Square5 f in
  let f := Mul f a1019 in
  let f := Square5 f in
  let f := Square5 f in
  let f := Mul f a1023 in
  let f := Square5 f in
  let f := Square5 f in
  let f := Mul f a1023 in
  let f := Square5 f in
  let f := Square5 f in
  Mul f a45.

(** One byte of the exponent.  [x] gives the value behind the pointer argument when the receiver
    holds [f]: a constant function for an argument of its own, the identity when the argument is
    the receiver. *)
Definition sqrt_byte (x : fieldVal -> fieldVal) (f : fieldVal) (b : Z) : fieldVal :=
  let mulx f := Mul f (x f) in
  let step f := mulx (Square f) in
  if b =? 0xff then step (step (step (step (step (step (step (step f)))))))
  else if b =? 0x3f then step (step (step (step (step (mulx f)))))
  else if b =? 0xbf then step (step (step (step (step (step (Square (step f)))))))
  else Square (Square (step (step (Square (Square (Square (Square f))))))).

Definition sqrt_run (x : fieldVal -> fieldVal) : fieldVal := fold_left (sqrt_byte x) fieldQBytes (SetInt 1).

Definition SqrtVal (x : fieldVal) : fieldVal := sqrt_run (fun _ => x).
Definition Sqrt (f : fieldVal) : fieldVal := sqrt_run (fun f => f).

End Field.
