(* ===== verification/FieldSpec.v ===== *)
(** Correctness of the field arithmetic: each operation computes in the integers modulo the prime,
    as long as the magnitudes of its arguments are within the documented bounds. *)

From Stdlib Require Import ZArith Lia Zdiv Setoid ZmodInv.
From S2P Require Import Prelude Primality Field.

Import Field.

(** * Values and magnitudes *)

Definition P : Z := 2 ^ 256 - 4294968273.

Abbreviation W := 67108864.

Definition value (f : fieldVal) : Z :=
  n0 f + W * (n1 f + W * (n2 f + W * (n3 f + W * (n4 f + W * (n5 f + W * (n6 f + W * (n7 f + W * (n8 f + W * n9 f)))))))).

(** A value of magnitude [k]: the words are at most [k] times the largest words that a
    multiplication leaves. *)
Definition mag (k : Z) (f : fieldVal) : Prop :=
  let w x := 0 <= x <= k * 68157440 in
  w (n0 f) /\ w (n1 f) /\ w (n2 f) /\ w (n3 f) /\ w (n4 f) /\ w (n5 f) /\ w (n6 f) /\ w (n7 f) /\ w (n8 f) /\
  0 <= n9 f <= k * 4194304.

(** Normalised words: the unique representation of a value below the prime. *)
Definition normal (f : fieldVal) : Prop :=
  let w x := 0 <= x < W in
  w (n0 f) /\ w (n1 f) /\ w (n2 f) /\ w (n3 f) /\ w (n4 f) /\ w (n5 f) /\ w (n6 f) /\ w (n7 f) /\ w (n8 f) /\
  0 <= n9 f < 4194304 /\ value f < P.

(** Equality modulo the prime. *)
Abbreviation eqp := (eqm P).
#[local] Existing Instances eqm_setoid Zplus_eqm Zminus_eqm Zmult_eqm Zopp_eqm.

Lemma eqp_multiple a b k : a = b + k * P -> eqp a b.
Proof. intros ->. unfold eqm. apply Z_mod_plus_full. Qed.

(** [f] stands for the integer [v], with magnitude [k]. *)
Definition rep (k v : Z) (f : fieldVal) : Prop := mag k f /\ eqp (value f) v.

(** * Stepping through straight-line code *)

Lemma let_elim {A B} (Q : B -> Prop) (e : A) (f : A -> B) :
  (forall x, x = e -> Q (f x)) -> Q (let x := e in f x).
Proof. intros H. exact (H e eq_refl). Qed.

Ltac elim_let x H :=
  lazymatch goal with
  | |- ?Q (let y := ?e in @?f y) => refine (let_elim Q e f _); intros x H; cbv beta
  end.

Lemma shiftr_div a k : 0 <= k -> Z.shiftr a k = a / 2 ^ k.
Proof. intros. apply Z.shiftr_div_pow2. assumption. Qed.

Lemma land_base a : Z.land a fieldBaseMask = a mod W.
Proof. exact (Z.land_ones a 26 ltac:(lia)). Qed.

Lemma land_msb a : Z.land a fieldMSBMask = a mod 4194304.
Proof. exact (Z.land_ones a 22 ltac:(lia)). Qed.

Lemma shiftr_base a : Z.shiftr a fieldBase = a / W.
Proof. exact (Z.shiftr_div_pow2 a 26 ltac:(lia)). Qed.

Lemma shiftr_msb a : Z.shiftr a fieldMSBBits = a / 4194304.
Proof. exact (Z.shiftr_div_pow2 a 22 ltac:(lia)). Qed.

(** One column of a sum: what is wrapped splits into the word that stays and the carry. *)
Lemma column w K s m t :
  0 <= s <= K -> K < 2 ^ w -> 0 <= w ->
  m = wrapU w s -> t = Z.land m fieldBaseMask ->
  exists q, Z.shiftr m fieldBase = q /\ m = s /\ s = t + W * q /\ 0 <= t < W /\ 0 <= q <= K / W.
Proof.
  intros Hs HK Hw -> ->. exists (s / W). rewrite shiftr_base, land_base, (wrapU_small w s) by lia.
  pose proof (Z.div_mod s W ltac:(lia)). pose proof (Z.mod_pos_bound s W ltac:(lia)).
  repeat split; try lia. apply Z.div_le_mono; lia.
Qed.

Lemma split_at d a : 0 < d -> exists q r, a / d = q /\ a mod d = r /\ a = r + d * q /\ 0 <= r < d.
Proof.
  intros Hd. exists (a / d), (a mod d). pose proof (Z.div_mod a d ltac:(lia)). pose proof (Z.mod_pos_bound a d Hd).
  repeat split; lia.
Qed.

Lemma mul_bound a b X Y : 0 <= a <= X -> 0 <= b <= Y -> 0 <= a * b <= X * Y.
Proof. nia. Qed.

(** Bounds every product of two words in the goal, and closes the goal by linear arithmetic. *)
Ltac word_bound a := lazymatch goal with H : 0 <= a <= _ |- _ => H end.
Ltac bound_products :=
  repeat match goal with
  | |- context [2 * ?a * ?b] => replace (2 * a * b) with (2 * (a * b)) by ring
  | |- context [?a * ?b] =>
      is_var a; is_var b;
      let Ha := word_bound a in let Hb := word_bound b in
      let H := fresh in pose proof (mul_bound a b _ _ Ha Hb) as H;
      let p := fresh "p" in set (p := a * b) in *; clearbody p
  end; lia.

(** Runs one column of a multiplication; its sum is at most [K]. *)
Ltac step_column K :=
  let m := fresh "m" in let Hm := fresh "Hm" in let t := fresh "t" in let Ht := fresh "Ht" in
  let Hs := fresh "Hs" in let Hq := fresh "Hq" in let Hq' := fresh "Hq'" in let Ht' := fresh "Ht'" in
  let q := fresh "q" in let E := fresh "E" in
  elim_let m Hm; elim_let t Ht;
  lazymatch type of Hm with _ = wrapU ?w ?s =>
    assert (0 <= s <= K) as Hs by bound_products;
    destruct (column w K s m t Hs ltac:(lia) ltac:(lia) Hm Ht) as (q & Hq & _ & E & Ht' & Hq');
    rewrite Hq; clear Hq Hm Ht Hs m;
    let K' := eval vm_compute in (K / W) in change (K / W) with K' in Hq'
  end.

Ltac words := cbn [n0 n1 n2 n3 n4 n5 n6 n7 n8 n9] in *.

Lemma reduce_spec t0 t1 t2 t3 t4 t5 t6 t7 t8 t9 t10 t11 t12 t13 t14 t15 t16 t17 t18 t19 :
  Forall (fun t => 0 <= t < W) [t0; t1; t2; t3; t4; t5; t6; t7; t8; t9; t10; t11; t12; t13; t14; t15; t16; t17; t18] ->
  0 <= t19 <= 2 ^ 26 ->
  rep 1 (value (mkFieldVal t0 t1 t2 t3 t4 t5 t6 t7 t8 t9) +
          2 ^ 260 * value (mkFieldVal t10 t11 t12 t13 t14 t15 t16 t17 t18 t19))
    (reduce t0 t1 t2 t3 t4 t5 t6 t7 t8 t9 t10 t11 t12 t13 t14 t15 t16 t17 t18 t19).
Proof.
  rewrite !Forall_cons. intros (? & ? & ? & ? & ? & ? & ? & ? & ? & ? & ? & ? & ? & ? & ? & ? & ? & ? & ? & _) ?.
  cbv beta iota delta [reduce].
  do 9 step_column (2 ^ 41).
  elim_let m Hm. rewrite wrapU_small in Hm by lia. destruct (split_at 4194304 m) as (c & r9 & Hc & Hr & E9 & ?); [lia |].
  rewrite land_msb, shiftr_msb, Hc, Hr. clear Hc Hr. elim_let x Hx; subst x. elim_let x Hx; subst x.
  elim_let d Hd. rewrite wrapU_small in Hd by lia. destruct (split_at W d) as (k0 & f0 & Hc & Hr & Ed & ?); [lia |].
  rewrite land_base, shiftr_base, Hc, Hr. clear Hc Hr. elim_let x Hx; subst x.
  elim_let d1 Hd1. rewrite wrapU_small in Hd1 by lia. destruct (split_at W d1) as (k1 & f1 & Hc & Hr & Ed1 & ?); [lia |].
  rewrite land_base, shiftr_base, Hc, Hr. clear Hc Hr.
  cbv zeta. rewrite !wrapU_small by (try rewrite wrapU_small by lia; lia).
  split; [repeat split; words; lia |].
  apply (eqp_multiple _ _ (- (16 * value (mkFieldVal t10 t11 t12 t13 t14 t15 t16 t17 t18 t19)) - c)).
  unfold value, P. words. lia.
Qed.

(** * Multiplication *)

Ltac open_mag H := destruct H as (? & ? & ? & ? & ? & ? & ? & ? & ? & ?); words.

(** The columns are done: what is left is the reduction of the terms they produced. *)
Ltac finish_columns :=
  cbv zeta;
  lazymatch goal with
  | |- rep 1 ?v (reduce ?t0 ?t1 ?t2 ?t3 ?t4 ?t5 ?t6 ?t7 ?t8 ?t9 ?t10 ?t11 ?t12 ?t13 ?t14 ?t15 ?t16 ?t17 ?t18 ?t19) =>
      replace v with (value (mkFieldVal t0 t1 t2 t3 t4 t5 t6 t7 t8 t9) +
                      2 ^ 260 * value (mkFieldVal t10 t11 t12 t13 t14 t15 t16 t17 t18 t19));
      [apply reduce_spec; [repeat first [apply Forall_nil_2 | apply Forall_cons_2; [assumption |]] | lia]
      |unfold value; words; lia]
  end.

Lemma Mul2_spec a b : mag 8 a -> mag 8 b -> rep 1 (value a * value b) (Mul2 a b).
Proof.
  destruct a as [a0 a1 a2 a3 a4 a5 a6 a7 a8 a9], b as [b0 b1 b2 b3 b4 b5 b6 b7 b8 b9]. intros Ha Hb.
  open_mag Ha. open_mag Hb. cbv beta iota delta [Mul2].
  do 18 step_column (2 ^ 62). step_column (2 ^ 51). finish_columns.
Qed.

Lemma SquareVal_spec a : mag 8 a -> rep 1 (value a * value a) (SquareVal a).
Proof.
  destruct a as [a0 a1 a2 a3 a4 a5 a6 a7 a8 a9]. intros Ha. open_mag Ha. cbv beta iota delta [SquareVal].
  do 18 step_column (2 ^ 62). step_column (2 ^ 51). finish_columns.
Qed.

(** * Normalisation *)

Lemma land_mask a b :
  0 <= a < W -> 0 <= b < W -> Z.land a b = fieldBaseMask <-> a = fieldBaseMask /\ b = fieldBaseMask.
Proof.
  intros Ha Hb. split; [| intros [-> ->]; reflexivity]. intros H.
  split; [rewrite <- (Z.mod_small a W Ha), <- land_base, <- H, Z.land_assoc, Z.land_diag; reflexivity |].
  rewrite <- (Z.mod_small b W Hb), <- land_base, <- H, (Z.land_comm a), Z.land_assoc, Z.land_diag; reflexivity.
Qed.

Lemma land_word a b : 0 <= a < W -> 0 <= Z.land a b < W.
Proof.
  intros Ha. rewrite <- (Z.mod_small a W Ha), <- land_base, <- Z.land_assoc, (Z.land_comm _ b), Z.land_assoc, land_base.
  apply Z.mod_pos_bound. reflexivity.
Qed.

(** The integer [m] is the truth value of [p]. *)
Definition flags (m : Z) (p : Prop) : Prop := (m = 1 /\ p) \/ (m = 0 /\ ~ p).

Lemma flags_and m (p q : Prop) (b : bool) : flags m p -> (b = true <-> q) -> flags (if b then Z.land m 1 else Z.land m 0) (p /\ q).
Proof. unfold flags. intros [[-> ?] | [-> ?]] Hb; destruct b; naive_solver. Qed.

Lemma flags_or m (p q : Prop) (b : bool) : flags m p -> (b = true <-> q) -> flags (if b then Z.lor m 1 else Z.lor m 0) (p \/ q).
Proof. unfold flags. intros [[-> ?] | [-> ?]] Hb; destruct b; naive_solver. Qed.

Lemma flags_iff m (p q : Prop) : (p <-> q) -> flags m p -> flags m q.
Proof. unfold flags. naive_solver. Qed.

Lemma all_ones t2 t3 t4 t5 t6 t7 t8 :
  Forall (fun t => 0 <= t < W) [t2; t3; t4; t5; t6; t7; t8] ->
  (Z.land (Z.land (Z.land (Z.land (Z.land (Z.land t2 t3) t4) t5) t6) t7) t8 =? fieldBaseMask) = true <->
  (t2 = W - 1 /\ t3 = W - 1 /\ t4 = W - 1 /\ t5 = W - 1 /\ t6 = W - 1 /\ t7 = W - 1 /\ t8 = W - 1).
Proof.
  rewrite !Forall_cons. intros (? & ? & ? & ? & ? & ? & ? & _). rewrite Z.eqb_eq.
  rewrite !land_mask by (repeat apply land_word; assumption). change fieldBaseMask with (W - 1). tauto.
Qed.

(** What the four tests on the words decide: whether the value has reached the prime. *)
Lemma flag_spec t0 t1 t2 t3 t4 t5 t6 t7 t8 t9 m1 m2 m3 m4 :
  Forall (fun t => 0 <= t < W) [t0; t1; t2; t3; t4; t5; t6; t7; t8] -> 0 <= t9 < 8388608 ->
  m1 = (if t9 =? fieldMSBMask then Z.land 1 1 else Z.land 1 0) ->
  m2 = (if Z.land (Z.land (Z.land (Z.land (Z.land (Z.land t2 t3) t4) t5) t6) t7) t8 =? fieldBaseMask
        then Z.land m1 1 else Z.land m1 0) ->
  m3 = (if uint32 (Z.shiftr (uint32 (t0 + 977)) fieldBase + t1 + 64) >? fieldBaseMask then Z.land m2 1 else Z.land m2 0) ->
  m4 = (if negb (Z.shiftr t9 fieldMSBBits =? 0) then Z.lor m3 1 else Z.lor m3 0) ->
  flags m4 (P <= value (mkFieldVal t0 t1 t2 t3 t4 t5 t6 t7 t8 t9)).
Proof.
  intros Hall H9 E1 E2 E3 E4.
  assert (flags m1 (True /\ t9 = 4194303)) as F1 by (subst m1; apply flags_and; [left; split; [reflexivity | exact I] | apply Z.eqb_eq]).
  assert (flags m2 _) as F2 by (subst m2; apply flags_and; [exact F1 | apply all_ones; rewrite !Forall_cons in *; tauto]).
  rewrite !Forall_cons in Hall. destruct Hall as (? & ? & ? & ? & ? & ? & ? & ? & ? & _). clear E1 E2 F1.
  assert ((uint32 (Z.shiftr (uint32 (t0 + 977)) fieldBase + t1 + 64) >? fieldBaseMask) = true <->
          W * W <= t0 + 977 + W * (t1 + 64)) as B3.
  { rewrite (wrapU_small 32 (t0 + 977)), shiftr_base by lia.
    destruct (split_at W (t0 + 977)) as (q & r & -> & _ & ? & ?); [lia |]. rewrite wrapU_small by lia.
    rewrite Z.gtb_lt. change fieldBaseMask with (W - 1). lia. }
  assert (negb (Z.shiftr t9 fieldMSBBits =? 0) = true <-> 4194304 <= t9) as B4.
  { rewrite shiftr_msb, negb_true_iff, Z.eqb_neq. destruct (split_at 4194304 t9) as (q & r & -> & _ & ? & ?); lia. }
  pose proof (flags_and _ _ _ _ F2 B3) as F3. rewrite <- E3 in F3.
  pose proof (flags_or _ _ _ _ F3 B4) as F4. rewrite <- E4 in F4.
  revert F4. apply flags_iff. clear F2 F3 B3 B4 E3 E4. unfold value, P. words. split.
  - lia.
  - intros G. destruct (Z.le_gt_cases 4194304 t9); [right; assumption | left].
    assert (t9 = 4194303) by lia. assert (t8 = W - 1) by lia. assert (t7 = W - 1) by lia. assert (t6 = W - 1) by lia.
    assert (t5 = W - 1) by lia. assert (t4 = W - 1) by lia. assert (t3 = W - 1) by lia. assert (t2 = W - 1) by lia.
    repeat split; lia.
Qed.

(** One column of a carry pass: the sum is wrapped, its low part stays and the rest is carried. *)
Ltac carry_column :=
  let x := fresh "x" in let H := fresh "H" in let q := fresh "q" in let r := fresh "r" in
  let Hq := fresh "Hq" in let Hr := fresh "Hr" in
  elim_let x H; rewrite wrapU_small in H by lia;
  destruct (split_at W x) as (q & r & Hq & Hr & ? & ?); [lia |];
  rewrite (shiftr_base x), Hq, (land_base x), Hr; clear Hq Hr.
Ltac skip_let := let x := fresh in let H := fresh in elim_let x H; subst x.

(** [f] is the normalised form of [v]. *)
Definition reduced (v : Z) (f : fieldVal) : Prop := normal f /\ value f = v mod P.

Lemma reduced_plus v f k v' : v = v' + k * P -> reduced v' f -> reduced v f.
Proof. intros -> [Hn Hv]. split; [exact Hn |]. rewrite Hv, Z_mod_plus_full. reflexivity. Qed.

Lemma Normalize_spec f : mag 63 f -> reduced (value f) (Normalize f).
Proof.
  destruct f as [f0 f1 f2 f3 f4 f5 f6 f7 f8 f9]. intros H. open_mag H. cbv beta iota delta [Normalize].
  skip_let. rewrite shiftr_msb, land_msb. destruct (split_at 4194304 f9) as (m & r9 & -> & -> & E9 & ?); [lia |].
  skip_let. skip_let. rewrite (Z.shiftl_mul_pow2 m 6) by lia.
  do 2 carry_column. skip_let. do 7 (carry_column; skip_let).
  elim_let t9 Ht9. rewrite wrapU_small in Ht9 by lia. skip_let. skip_let.
  elim_let m1 E1. elim_let m2 E2. elim_let m3 E3. elim_let m4 E4.
  assert (Forall (fun t => 0 <= t < W) [r; r0; r1; r2; r3; r4; r5; r6; r7]) as Hall
    by (repeat first [apply Forall_nil_2 | apply Forall_cons_2; [assumption |]]).
  pose proof (flag_spec r r0 r1 r2 r3 r4 r5 r6 r7 t9 m1 m2 m3 m4 Hall ltac:(lia) E1 E2 E3 E4) as F.
  apply (reduced_plus _ _ m (value (mkFieldVal r r0 r1 r2 r3 r4 r5 r6 r7 t9))); [unfold value, P; words; lia |].
  assert (0 <= t9 < 4194304 + 64) as H9' by lia. clear - Hall F H9'.
  rewrite !Forall_cons in Hall. destruct Hall as (? & ? & ? & ? & ? & ? & ? & ? & ? & _).
  assert (0 <= m4 <= 1) by (unfold flags in F; lia). rewrite (Z.shiftl_mul_pow2 m4 6) by lia.
  do 2 carry_column. skip_let. do 7 (carry_column; skip_let).
  elim_let s9 Hs9. rewrite wrapU_small in Hs9 by lia. skip_let.
  rewrite land_msb. destruct (split_at 4194304 s9) as (top & low & _ & -> & ? & ?); [lia |]. skip_let.
  match goal with |- reduced ?v ?f => assert (v = value f + m4 * P /\ value f < P) as [Ev Hlt] end.
  { unfold value, P, flags in *. words. lia. }
  split; [repeat (split; [words; assumption |]); exact Hlt |].
  rewrite Ev, Z_mod_plus_full, Z.mod_small; [reflexivity |]. split; [unfold value; words; lia | exact Hlt].
Qed.

(** * Addition, negation and small multiples *)

Lemma mag_weaken i j f : i <= j -> mag i f -> mag j f.
Proof. intros ? H. destruct f. open_mag H. repeat split; words; lia. Qed.

Lemma normal_mag f : normal f -> mag 1 f.
Proof. destruct f. intros (? & ? & ? & ? & ? & ? & ? & ? & ? & ? & _). repeat split; words; lia. Qed.

Lemma SetInt_spec u : 0 <= u < W -> normal (SetInt u) /\ value (SetInt u) = u.
Proof.
  intros Hu. unfold SetInt. rewrite wrapU_small by lia. unfold normal, value, P. words. repeat split; lia.
Qed.

Lemma Add2_spec i j f g :
  mag i f -> mag j g -> i + j <= 63 -> mag (i + j) (Add2 f g) /\ value (Add2 f g) = value f + value g.
Proof.
  destruct f, g. intros H1 H2 ?. open_mag H1. open_mag H2. unfold Add2, mag, value. words.
  rewrite !wrapU_small by lia. repeat split; lia.
Qed.

Lemma AddInt_spec i f u :
  mag i f -> 0 <= u < W -> i <= 62 -> mag (i + 1) (AddInt f u) /\ value (AddInt f u) = value f + u.
Proof.
  destruct f. intros H ? ?. open_mag H. unfold AddInt, mag, value. words.
  rewrite (wrapU_small 32 u), !wrapU_small by (rewrite ?wrapU_small; lia). repeat split; lia.
Qed.

Lemma MulInt_spec i f u :
  mag i f -> 0 <= i -> 0 <= u <= 63 -> i * u <= 63 -> mag (i * u) (MulInt f u) /\ value (MulInt f u) = u * value f.
Proof.
  destruct f. intros H ? ? ?. open_mag H. unfold MulInt, mag, value. words. rewrite (wrapU_small 32 u) by lia.
  assert (forall x, 0 <= x <= i * 68157440 -> wrapU 32 (x * u) = x * u /\ 0 <= x * u <= i * u * 68157440) as small.
  { intros x Hx. split; [apply wrapU_small |]; nia. }
  assert (forall x, 0 <= x <= i * 4194304 -> wrapU 32 (x * u) = x * u /\ 0 <= x * u <= i * u * 4194304) as small9.
  { intros x Hx. split; [apply wrapU_small |]; nia. }
  repeat match goal with
  | K : 0 <= ?x <= i * 68157440 |- _ => destruct (small x K) as [-> ?]; clear K
  | K : 0 <= ?x <= i * 4194304 |- _ => destruct (small9 x K) as [-> ?]; clear K
  end. split; [tauto | ring].
Qed.

Lemma NegateVal_spec k f :
  mag k f -> 0 <= k <= 62 -> mag (k + 1) (NegateVal f k) /\ value (NegateVal f k) = (k + 1) * P - value f.
Proof.
  destruct f. intros H ?. open_mag H. unfold NegateVal, mag, value, P. words.
  change fieldPrimeWordZero with 67107887. change fieldPrimeWordOne with 67108799.
  change fieldBaseMask with 67108863. change fieldMSBMask with 4194303.
  rewrite (wrapU_small 32 (k + 1)), !wrapU_small by (rewrite ?wrapU_small; lia). repeat split; lia.
Qed.

(** The operations on represented integers.  The tactic [field_rep] builds the derivation along
    the term, and with it the magnitude of the result. *)

Lemma rep_normal f : normal f -> rep 1 (value f) f.
Proof. intros H. split; [exact (normal_mag f H) | reflexivity]. Qed.

Lemma rep_weaken i j u f : rep i u f -> i <= j -> rep j u f.
Proof. intros [? ?] ?. split; [eapply mag_weaken; eassumption | assumption]. Qed.

Lemma rep_eq k u v f : rep k u f -> eqp u v -> rep k v f.
Proof. intros [? E] E'. split; [assumption | rewrite E; exact E']. Qed.

Lemma rep_Add i j u v f g : rep i u f -> rep j v g -> i + j <= 63 -> rep (i + j) (u + v) (Add f g).
Proof.
  intros [Hf Ef] [Hg Eg] ?. destruct (Add2_spec i j f g Hf Hg ltac:(assumption)) as [Hm Hv].
  split; [exact Hm |]. change (Add f g) with (Add2 f g). rewrite Hv, Ef, Eg. reflexivity.
Qed.

Lemma rep_Add2 i j u v f g : rep i u f -> rep j v g -> i + j <= 63 -> rep (i + j) (u + v) (Add2 f g).
Proof. exact (rep_Add i j u v f g). Qed.

Lemma rep_AddInt i u f n : rep i u f -> 0 <= n < W -> i <= 62 -> rep (i + 1) (u + n) (AddInt f n).
Proof.
  intros [Hf Ef] ? ?. destruct (AddInt_spec i f n Hf ltac:(assumption) ltac:(assumption)) as [Hm Hv].
  split; [exact Hm |]. rewrite Hv, Ef. reflexivity.
Qed.

Lemma rep_MulInt i u f n : rep i u f -> 0 <= i -> 0 <= n <= 63 -> i * n <= 63 -> rep (i * n) (n * u) (MulInt f n).
Proof.
  intros [Hf Ef] ? ? ?. destruct (MulInt_spec i f n Hf ltac:(assumption) ltac:(assumption) ltac:(assumption)) as [Hm Hv].
  split; [exact Hm |]. rewrite Hv, Ef. reflexivity.
Qed.

Lemma rep_NegateVal i u f k : rep i u f -> i <= k -> 0 <= k <= 62 -> rep (k + 1) (- u) (NegateVal f k).
Proof.
  intros [Hf Ef] ? ?. destruct (NegateVal_spec k f (mag_weaken i k f ltac:(assumption) Hf) ltac:(lia)) as [Hm Hv].
  split; [exact Hm |]. rewrite Hv, <- Ef. apply (eqp_multiple _ _ (k + 1)). ring.
Qed.

Lemma rep_Mul2 i j u v f g : rep i u f -> rep j v g -> i <= 8 -> j <= 8 -> rep 1 (u * v) (Mul2 f g).
Proof.
  intros [Hf Ef] [Hg Eg] ? ?. eapply rep_eq; [apply Mul2_spec; [apply (mag_weaken i) | apply (mag_weaken j)]; assumption |].
  rewrite Ef, Eg. reflexivity.
Qed.

Lemma rep_SquareVal i u f : rep i u f -> i <= 8 -> rep 1 (u * u) (SquareVal f).
Proof.
  intros [Hf Ef] ?. eapply rep_eq; [apply SquareVal_spec, (mag_weaken i); assumption |].
  rewrite Ef. reflexivity.
Qed.

Lemma rep_Normalize i u f : rep i u f -> i <= 63 -> reduced u (Normalize f) /\ rep 1 u (Normalize f).
Proof.
  intros [Hf Ef] ?. destruct (Normalize_spec f (mag_weaken i 63 f ltac:(assumption) Hf)) as [Hn Hv].
  rewrite Ef in Hv. split; [split; assumption |]. eapply rep_eq; [apply rep_normal; exact Hn |].
  rewrite Hv. apply Zmod_eqm.
Qed.

(** * Comparisons *)

Lemma lxor_zero a b : Z.lxor a b = 0 <-> a = b.
Proof. split; [apply Z.lxor_eq | intros ->; apply Z.lxor_nilpotent]. Qed.

Lemma Equals_spec f g : Equals f g = true <-> f = g.
Proof.
  unfold Equals. rewrite Z.eqb_eq, !Z.lor_eq_0_iff, !lxor_zero. destruct f, g. words.
  split; [intros (((((((((-> & ->) & ->) & ->) & ->) & ->) & ->) & ->) & ->) & ->); reflexivity | intros [= -> -> -> -> -> -> -> -> -> ->]; tauto].
Qed.

Lemma IsZero_spec f : IsZero f = true <-> f = Zero.
Proof.
  unfold IsZero. rewrite Z.eqb_eq, !Z.lor_eq_0_iff. destruct f. words. unfold Zero.
  split; [intros (((((((((-> & ->) & ->) & ->) & ->) & ->) & ->) & ->) & ->) & ->); reflexivity | intros [= -> -> -> -> -> -> -> -> -> ->]; tauto].
Qed.

(** Normalised values are canonical. *)
Lemma normal_inj f g : normal f -> normal g -> value f = value g -> f = g.
Proof.
  destruct f as [a0 a1 a2 a3 a4 a5 a6 a7 a8 a9], g as [b0 b1 b2 b3 b4 b5 b6 b7 b8 b9].
  intros (? & ? & ? & ? & ? & ? & ? & ? & ? & ? & _) (? & ? & ? & ? & ? & ? & ? & ? & ? & ? & _) E.
  unfold value in E. words.
  assert (a0 = b0) as -> by lia. assert (a1 = b1) as -> by lia. assert (a2 = b2) as -> by lia.
  assert (a3 = b3) as -> by lia. assert (a4 = b4) as -> by lia. assert (a5 = b5) as -> by lia.
  assert (a6 = b6) as -> by lia. assert (a7 = b7) as -> by lia. assert (a8 = b8) as -> by lia.
  assert (a9 = b9) as -> by lia. reflexivity.
Qed.

Lemma reduced_inj u v f g : reduced u f -> reduced v g -> f = g <-> eqp u v.
Proof.
  intros [Hf Ef] [Hg Eg]. unfold eqm. rewrite <- Ef, <- Eg. split; [intros ->; reflexivity | apply normal_inj; assumption].
Qed.

Lemma Equals_reduced u v f g : reduced u f -> reduced v g -> Equals f g = true <-> eqp u v.
Proof. intros. rewrite Equals_spec. apply reduced_inj; assumption. Qed.

Lemma reduced_SetInt u : 0 <= u < W -> reduced u (SetInt u).
Proof.
  intros Hu. destruct (SetInt_spec u Hu) as [Hn Hv]. split; [exact Hn |]. rewrite Hv. symmetry. apply Z.mod_small.
  unfold P. lia.
Qed.

Lemma IsZero_reduced u f : reduced u f -> IsZero f = true <-> eqp u 0.
Proof.
  intros H. rewrite IsZero_spec. apply (reduced_inj u 0 f (SetInt 0)); [exact H | apply reduced_SetInt; lia].
Qed.

Lemma IsOdd_reduced u f : reduced u f -> IsOdd f = Z.odd (u mod P).
Proof.
  intros [_ <-]. unfold IsOdd, value. change 1 with (Z.ones 1) at 1. rewrite Z.land_ones, <- Z.bit0_mod by lia.
  rewrite Z.bit0_odd, Z.odd_add, Z.odd_mul. cbn [Z.odd andb]. rewrite xorb_false_r. destruct (Z.odd (n0 f)); reflexivity.
Qed.

(** * Bytes *)

Lemma land_low k a : 0 <= k -> Z.land a (Z.ones k) = a mod 2 ^ k.
Proof. intros. apply Z.land_ones. assumption. Qed.

(** A field of bits placed above others. *)
Lemma pack a b n : 0 <= n -> 0 <= a < 2 ^ n -> 0 <= b -> b * 2 ^ n < 2 ^ 32 -> Z.lor a (uint32 (Z.shiftl b n)) = a + b * 2 ^ n.
Proof.
  intros Hn Ha Hb Hlt. rewrite wrapU_small by (rewrite Z.shiftl_mul_pow2; nia). apply lor_shiftl_add; assumption.
Qed.

Lemma pack3 a b c n m :
  0 <= n -> 0 <= m -> 0 <= a < 2 ^ n -> 0 <= b -> a + b * 2 ^ n < 2 ^ m -> m <= 32 -> 0 <= c -> c * 2 ^ m < 2 ^ 32 ->
  Z.lor (Z.lor a (uint32 (Z.shiftl b n))) (uint32 (Z.shiftl c m)) = a + b * 2 ^ n + c * 2 ^ m.
Proof.
  intros. pose proof (Z.pow_le_mono_r 2 m 32 ltac:(lia) ltac:(lia)). rewrite (pack a b n) by lia. apply pack; nia.
Qed.

Lemma pack4 a b c d n m k :
  0 <= n -> 0 <= m -> 0 <= k -> 0 <= a < 2 ^ n -> 0 <= b -> a + b * 2 ^ n < 2 ^ m -> m <= 32 -> 0 <= c ->
  a + b * 2 ^ n + c * 2 ^ m < 2 ^ k -> k <= 32 -> 0 <= d -> d * 2 ^ k < 2 ^ 32 ->
  Z.lor (Z.lor (Z.lor a (uint32 (Z.shiftl b n))) (uint32 (Z.shiftl c m))) (uint32 (Z.shiftl d k)) =
  a + b * 2 ^ n + c * 2 ^ m + d * 2 ^ k.
Proof.
  intros. pose proof (Z.pow_le_mono_r 2 k 32 ltac:(lia) ltac:(lia)). rewrite (pack3 a b c n m) by nia. apply pack; nia.
Qed.

(** Splits every byte that is shared between two words. *)
Ltac simplify_bits :=
  repeat match goal with
  | |- context [?x mod 2 ^ ?k] =>
      let q := fresh "q" in let r := fresh "r" in let Hq := fresh in let Hr := fresh in
      destruct (split_at (2 ^ k) x) as (q & r & Hq & Hr & ? & ?); [lia |]; rewrite Hr; try rewrite Hq; clear Hq Hr
  end.

Lemma SetBytes_words b :
  length b = 32%nat -> bytes_ok b -> value (SetBytes b) = be_decode b /\ (value (SetBytes b) < P -> normal (SetBytes b)) /\ mag 1 (SetBytes b).
Proof.
  intros Hl Hok. do 32 (destruct b as [| ? b]; [discriminate Hl |]). destruct b; [| discriminate Hl]. clear Hl.
  rewrite !Forall_cons in Hok. unfold is_byte in Hok. destruct_and!.
  cbv beta iota zeta delta [SetBytes nth Z.to_nat Pos.to_nat Pos.iter_op Nat.add].
  change twoBitsMask with (Z.ones 2). change fourBitsMask with (Z.ones 4). change sixBitsMask with (Z.ones 6).
  rewrite !land_low, !shiftr_div by lia. simplify_bits.
  rewrite !pack4, pack3 by lia. split; [unfold value, be_decode; cbn [fold_left]; words; lia |].
  split; [| unfold mag; words; repeat split; lia].
  intros Hlt. repeat (split; [words; lia |]). exact Hlt.
Qed.

Lemma SetBytes_spec b : length b = 32%nat -> bytes_ok b -> mag 1 (SetBytes b) /\ value (SetBytes b) = be_decode b.
Proof. intros Hl Hok. destruct (SetBytes_words b Hl Hok) as (? & _ & ?). split; assumption. Qed.

Lemma unpack_byte a : Z.land a eightBitsMask = a mod 2 ^ 8.
Proof. exact (land_low 8 a ltac:(lia)). Qed.

(** A word cut into four digits of [a], [b], [c] and [d] bits. *)
Lemma digits4 x a b c d :
  0 <= a -> 0 <= b -> 0 <= c -> 0 <= d -> 0 <= x < 2 ^ (a + b + c + d) ->
  exists d0 d1 d2 d3,
    x mod 2 ^ a = d0 /\ (x / 2 ^ a) mod 2 ^ b = d1 /\ (x / 2 ^ (a + b)) mod 2 ^ c = d2 /\
    (x / 2 ^ (a + b + c)) mod 2 ^ d = d3 /\
    x = d0 + 2 ^ a * (d1 + 2 ^ b * (d2 + 2 ^ c * d3)) /\
    0 <= d0 < 2 ^ a /\ 0 <= d1 < 2 ^ b /\ 0 <= d2 < 2 ^ c /\ 0 <= d3 < 2 ^ d.
Proof.
  intros Ha Hb Hc Hd Hx. rewrite !Z.pow_add_r in Hx by lia. rewrite !Z.pow_add_r, <- !Z.div_div by lia.
  assert (forall n, 0 <= n -> 0 < 2 ^ n) as pos by (intros; apply Z.pow_pos_nonneg; lia).
  destruct (split_at (2 ^ a) x (pos a Ha)) as (q0 & d0 & -> & -> & E0 & R0).
  destruct (split_at (2 ^ b) q0 (pos b Hb)) as (q1 & d1 & -> & -> & E1 & R1).
  destruct (split_at (2 ^ c) q1 (pos c Hc)) as (q2 & d2 & -> & -> & E2 & R2).
  pose proof (pos a Ha). pose proof (pos b Hb). pose proof (pos c Hc). pose proof (pos d Hd).
  assert (0 <= q0 < 2 ^ b * 2 ^ c * 2 ^ d) by nia. assert (0 <= q1 < 2 ^ c * 2 ^ d) by nia.
  assert (0 <= q2 < 2 ^ d) by nia. exists d0, d1, d2, q2.
  rewrite (Z.mod_small q2) by assumption. subst q1 q0. repeat split; lia.
Qed.

Lemma byte_of z : 0 <= z < 256 -> uint8 z = z.
Proof. intros. apply wrapU_small. lia. Qed.

Ltac cut_word x a b c d :=
  let d0 := fresh "d" in let d1 := fresh "d" in let d2 := fresh "d" in let d3 := fresh "d" in
  let E0 := fresh in let E1 := fresh in let E2 := fresh in let E3 := fresh in
  destruct (digits4 x a b c d) as (d0 & d1 & d2 & d3 & E0 & E1 & E2 & E3 & ? & ? & ? & ? & ?);
  [lia | lia | lia | lia | lia |];
  let ab := eval vm_compute in (a + b) in let abc := eval vm_compute in (a + b + c) in
  change (a + b + c) with abc in E3; change (a + b) with ab in E2;
  rewrite E0, E1, E2; try rewrite E3; clear E0 E1 E2 E3.

Lemma PutBytes_spec f : normal f -> bytes_ok (PutBytes f) /\ length (PutBytes f) = 32%nat /\ be_decode (PutBytes f) = value f.
Proof.
  destruct f as [f0 f1 f2 f3 f4 f5 f6 f7 f8 f9]. intros (? & ? & ? & ? & ? & ? & ? & ? & ? & ? & _). words.
  unfold PutBytes. rewrite !unpack_byte.
  change twoBitsMask with (Z.ones 2). change fourBitsMask with (Z.ones 4). change sixBitsMask with (Z.ones 6).
  rewrite !land_low, !shiftr_div by lia.
  cut_word f0 8 8 8 2. cut_word f1 6 8 8 4. cut_word f2 4 8 8 6. cut_word f3 2 8 8 8. cut_word f4 8 8 8 2.
  cut_word f5 6 8 8 4. cut_word f6 4 8 8 6. cut_word f7 2 8 8 8. cut_word f8 8 8 8 2. cut_word f9 6 8 8 0.
  rewrite !pack, !byte_of by lia. split; [repeat (apply Forall_cons_2; [unfold is_byte; lia |]); apply Forall_nil_2 |].
  split; [reflexivity |]. unfold be_decode, value. cbn [fold_left]. words. lia.
Qed.

(** * Powers *)

(** [f] stands for a power of [a], with a magnitude that may be multiplied. *)
Definition power (a e : Z) (f : fieldVal) : Prop := 0 <= e /\ rep 8 (a ^ e) f.

Lemma power_rep a e f : power a e f -> rep 8 (a ^ e) f.
Proof. intros [_ H]. exact H. Qed.

Lemma power_weaken a e f : 0 <= e -> rep 1 (a ^ e) f -> power a e f.
Proof. intros. split; [assumption | apply (rep_weaken 1); [assumption | lia]]. Qed.

Lemma rep_power_Mul a e1 e2 f g : power a e1 f -> power a e2 g -> rep 1 (a ^ (e1 + e2)) (Mul2 f g).
Proof.
  intros [? Hf] [? Hg]. rewrite Z.pow_add_r by assumption. apply (rep_Mul2 8 8); first [assumption | lia].
Qed.

Lemma power_Mul a e1 e2 f g : power a e1 f -> power a e2 g -> power a (e1 + e2) (Mul2 f g).
Proof. intros Hf Hg. apply power_weaken; [destruct Hf, Hg; lia | apply rep_power_Mul; assumption]. Qed.

Lemma rep_power_Square a e f : power a e f -> rep 1 (a ^ (2 * e)) (SquareVal f).
Proof.
  intros [? Hf]. replace (2 * e) with (e + e) by lia. rewrite Z.pow_add_r by assumption.
  apply (rep_SquareVal 8); [assumption | lia].
Qed.

Lemma power_Square a e f : power a e f -> power a (2 * e) (SquareVal f).
Proof. intros Hf. apply power_weaken; [destruct Hf; lia | apply rep_power_Square; assumption]. Qed.

Lemma power_Square5 a e f : power a e f -> power a (2 * (2 * (2 * (2 * (2 * e))))) (Square5 f).
Proof. intros Hf. do 5 apply power_Square. exact Hf. Qed.

Lemma power_self a f : rep 8 a f -> power a 1 f.
Proof. intros H. split; [lia |]. rewrite Z.pow_1_r. exact H. Qed.

(** The power a term stands for, from the powers its variables stand for. *)
Ltac power_of t :=
  lazymatch t with
  | Mul2 ?f ?g => let p := power_of f in let q := power_of g in constr:(power_Mul _ _ _ _ _ p q)
  | Mul ?f ?g => let p := power_of f in let q := power_of g in constr:(power_Mul _ _ _ _ _ p q)
  | SquareVal ?f => let p := power_of f in constr:(power_Square _ _ _ p)
  | Square ?f => let p := power_of f in constr:(power_Square _ _ _ p)
  | Square5 ?f => let p := power_of f in constr:(power_Square5 _ _ _ p)
  | Set_ ?f => power_of f
  | _ => lazymatch goal with H : power _ _ t |- _ => constr:(H) end
  end.

Ltac power_let :=
  let x := fresh "x" in let H := fresh in let Hx := fresh "P" in
  elim_let x H;
  lazymatch type of H with x = ?t =>
    let p := power_of t in
    lazymatch type of p with power ?a ?e _ =>
      let e' := eval vm_compute in e in assert (power a e' x) as Hx by (rewrite H; exact p); clear H
    end
  end.

Lemma Inverse_spec a f : rep 8 a f -> rep 1 (a ^ (P - 2)) (Inverse f).
Proof.
  intros Hf. apply power_self in Hf. cbv beta iota delta [Inverse]. repeat power_let.
  match goal with |- rep 1 (a ^ _) (Mul ?f ?g) => let p := power_of f in let q := power_of g in exact (rep_power_Mul _ _ _ _ _ p q) end.
Qed.

(** ** Square roots *)

(** The powers the bytes of the exponent build, after the first one. *)
Lemma sqrt_byte_power a x f e b :
  power a 1 x -> power a e f -> b = 255 \/ b = 191 -> power a (256 * e + b) (sqrt_byte (fun _ => x) f b).
Proof.
  intros Hx Hf Hb. destruct Hb as [-> | ->]; unfold sqrt_byte; cbn [Z.eqb Pos.eqb];
    match goal with |- power _ ?e ?t => let p := power_of t in replace e with ltac:(lazymatch type of p with power _ ?e' _ => exact e' end) by lia; exact p end.
Qed.

Lemma sqrt_bytes_power a x l e f :
  power a 1 x -> power a e f -> Forall (fun b => b = 255 \/ b = 191) l ->
  power a (fold_left (fun e b => 256 * e + b) l e) (fold_left (sqrt_byte (fun _ => x)) l f).
Proof.
  intros Hx Hf Hl. revert e f Hf. induction Hl as [| b l Hb Hl IH]; intros e f Hf; cbn [fold_left]; [exact Hf |].
  apply IH, sqrt_byte_power; assumption.
Qed.

Lemma SqrtVal_spec a x : rep 8 a x -> rep 1 (a ^ ((P + 1) / 4)) (SqrtVal x).
Proof.
  intros Hx. apply power_self in Hx. unfold SqrtVal, sqrt_run.
  set (mid := [255; 255; 255; 255; 255; 255; 255; 255; 255; 255; 255; 255; 255; 255; 255; 255; 255; 255; 255; 255; 255; 255; 255;
               255; 255; 255; 255; 191; 255; 255]).
  change fieldQBytes with (63 :: mid ++ [12]). cbn [fold_left]. rewrite fold_left_app. cbn [fold_left].
  assert (power a 0 (SetInt 1)) as H1.
  { split; [lia |]. apply (rep_weaken 1); [| lia]. destruct (SetInt_spec 1) as [Hn Hv]; [lia |].
    rewrite Z.pow_0_r, <- Hv at 1. apply rep_normal. exact Hn. }
  assert (power a 63 (sqrt_byte (fun _ => x) (SetInt 1) 63)) as H63.
  { unfold sqrt_byte. cbn [Z.eqb Pos.eqb]. match goal with |- power _ _ ?t => let p := power_of t in exact p end. }
  assert (Forall (fun b => b = 255 \/ b = 191) mid) as Hmid by (repeat constructor).
  pose proof (sqrt_bytes_power a x mid 63 _ Hx H63 Hmid) as Hq.
  generalize dependent (fold_left (sqrt_byte (fun _ => x)) mid (sqrt_byte (fun _ => x) (SetInt 1) 63)).
  intros f Hq. unfold sqrt_byte. cbn [Z.eqb Pos.eqb].
  match goal with |- rep 1 _ (Square ?t) => let p := power_of t in exact (rep_power_Square _ _ _ p) end.
Qed.

(** The receiver of Sqrt is also the argument of SqrtVal, which overwrites it with one before it
    reads it: the result does not depend on the argument. *)
Lemma Sqrt_constant f : Sqrt f = SetInt 1.
Proof. unfold Sqrt. vm_compute. reflexivity. Qed.

(** ** Inverses and roots modulo the prime *)

#[local] Instance prime_P : Z.prime P.
Proof. exact prime_secp256k1. Qed.

Lemma fermat a : ~ eqp a 0 -> eqp (a ^ (P - 1)) 1.
Proof. intros Ha. unfold eqm. rewrite (Z.fermat_nz P a); [reflexivity | exact prime_P | exact Ha]. Qed.

Lemma inverse_correct a : ~ eqp a 0 -> eqp (a ^ (P - 2) * a) 1.
Proof.
  intros Ha. rewrite <- (fermat a Ha). replace (a ^ (P - 1)) with (a ^ (P - 2) * a); [reflexivity |].
  replace (P - 1) with (Z.succ (P - 2)) by lia. rewrite Z.pow_succ_r by (unfold P; lia). ring.
Qed.

Lemma eqp_pow a b e : 0 <= e -> eqp a b -> eqp (a ^ e) (b ^ e).
Proof. apply eqm_pow. Qed.

Lemma sqrt_correct a y : eqp (y * y) a -> eqp (a ^ ((P + 1) / 4) * a ^ ((P + 1) / 4)) a.
Proof.
  intros Hy. rewrite <- Z.pow_add_r by (vm_compute; discriminate).
  rewrite <- (eqp_pow _ _ ((P + 1) / 4 + (P + 1) / 4) ltac:(vm_compute; discriminate) Hy).
  rewrite <- Hy. rewrite <- Z.pow_2_r, <- Z.pow_mul_r by (vm_compute; discriminate).
  replace (2 * ((P + 1) / 4 + (P + 1) / 4)) with ((P - 1) + 2) by reflexivity.
  rewrite Z.pow_add_r by (vm_compute; discriminate).
  destruct (Z.eq_dec (y mod P) 0) as [E | E].
  - assert (eqp y 0) as Ey by exact E. rewrite (eqp_pow y 0 2 ltac:(lia) Ey), Z.pow_0_l, Z.mul_0_r by lia. reflexivity.
  - rewrite fermat by exact E. rewrite Z.mul_1_l. reflexivity.
Qed.

(** * Byte slices *)

Lemma byteslice_loop_spec {E} l b1 b2 :
  l <= 32 -> l = len (b1 ++ b2) ->
  byteslice_loop (E := E) l (len b1) b2 (replicate (32 - Z.to_nat l) 0 ++ b1 ++ replicate (length b2) 0) =
  Ret (replicate (32 - Z.to_nat l) 0 ++ b1 ++ b2).
Proof.
  intros Hl El. revert b1 El. induction b2 as [| x b2 IH]; intros b1 El; cbn [byteslice_loop length replicate]; [reflexivity |].
  assert (0 <= len b1 < l) as Hb by (rewrite El, len_app, len_cons; pose proof (len_nonneg b1); pose proof (len_nonneg b2); lia).
  destruct (Z.ltb_spec (len b1) 32); [| lia].
  unfold put32. replace ((0 <=? len b1 + (32 - l)) && (len b1 + (32 - l) <? 32)) with true by lia.
  rewrite insert_app_r_alt by (rewrite length_replicate; unfold len in *; lia).
  rewrite length_replicate. replace (Z.to_nat (len b1 + (32 - l)) - (32 - Z.to_nat l))%nat with (length b1 + 0)%nat by (unfold len in *; lia).
  rewrite insert_app_r. cbn [list_insert insert].
  specialize (IH (b1 ++ [x])). rewrite <- !app_assoc in IH. cbn [app] in IH.
  replace (len (b1 ++ [x])) with (len b1 + 1) in IH by (rewrite len_app; reflexivity).
  exact (IH El).
Qed.

Lemma SetByteSlice_spec {E} b :
  SetByteSlice (E := E) b = if len b <=? 32 then Ret (SetBytes (replicate (32 - length b) 0 ++ b)) else Panic.
Proof.
  unfold SetByteSlice. destruct (Z.leb_spec (len b) 32) as [Hl | Hl].
  - pose proof (byteslice_loop_spec (E := E) (len b) [] b Hl eq_refl) as H. cbn [app] in H.
    replace (replicate (32 - Z.to_nat (len b)) 0 ++ replicate (length b) 0) with (replicate 32 0) in H
      by (rewrite <- replicate_add; f_equal; unfold len in *; lia).
    change (len []) with 0 in H. rewrite H. unfold len. rewrite Nat2Z.id. reflexivity.
  - destruct b as [| x b]; [change (len []) with 0 in Hl; lia |]. cbn [byteslice_loop]. unfold put32.
    destruct (Z.ltb_spec 0 32); [| lia]. replace (0 <=? 0 + (32 - len (x :: b))) with false by lia. reflexivity.
Qed.

Lemma SetByteSlice_rep {E} b :
  len b <= 32 -> bytes_ok b ->
  exists f, SetByteSlice (E := E) b = Ret f /\ mag 1 f /\ value f = be_decode b.
Proof.
  intros Hl Hok. rewrite SetByteSlice_spec. destruct (Z.leb_spec (len b) 32); [| lia]. eexists. split; [reflexivity |].
  rewrite <- (be_decode_zeros (32 - length b) b). apply SetBytes_spec.
  - rewrite length_app, length_replicate. unfold len in *. lia.
  - apply Forall_app. split; [apply Forall_replicate; unfold is_byte; lia | exact Hok].
Qed.

(** * Summary *)

(** Words of magnitude at most 8 can be multiplied and squared, sums and multiples of
    magnitude at most 63 do not overflow, a value is negated when its magnitude is given, and
    every result is the sum, product or negation of the arguments modulo the prime; Normalize
    leaves the unique normalised words of the value modulo the prime. *)
Theorem field_operations i j n f g :
  mag i f -> mag j g -> 0 <= i -> 0 <= j -> 0 <= n <= 63 ->
  (i <= 8 -> j <= 8 -> mag 1 (Mul2 f g) /\ value (Mul2 f g) mod P = (value f * value g) mod P) /\
  (i <= 8 -> mag 1 (SquareVal f) /\ value (SquareVal f) mod P = (value f * value f) mod P) /\
  (i + j <= 63 -> mag (i + j) (Add f g) /\ value (Add f g) = value f + value g) /\
  (i * n <= 63 -> mag (i * n) (MulInt f n) /\ value (MulInt f n) = n * value f) /\
  (i <= 62 -> mag (i + 1) (AddInt f n) /\ value (AddInt f n) = value f + n) /\
  (i <= 62 -> mag (i + 1) (Negate f i) /\ value (Negate f i) mod P = (- value f) mod P) /\
  (i <= 63 -> normal (Normalize f) /\ value (Normalize f) = value f mod P).
Proof.
  intros Hf Hg Hi Hj Hn. repeat split_and; intros.
  - exact (rep_Mul2 i j _ _ f g (conj Hf eq_refl) (conj Hg eq_refl) ltac:(assumption) ltac:(assumption)).
  - exact (rep_SquareVal i _ f (conj Hf eq_refl) ltac:(assumption)).
  - exact (Add2_spec i j f g Hf Hg ltac:(assumption)).
  - exact (MulInt_spec i f n Hf Hi Hn ltac:(assumption)).
  - exact (AddInt_spec i f n Hf ltac:(lia) ltac:(assumption)).
  - exact (rep_NegateVal i _ f i (conj Hf eq_refl) ltac:(lia) ltac:(lia)).
  - exact (Normalize_spec f (mag_weaken i 63 f ltac:(assumption) Hf)).
Qed.

(** Unpacking a normalised value to 32 bytes and packing them again is the identity, packing a
    32-byte number gives its value, and normalising it leaves the bytes of the number modulo the
    prime (the number itself when it is smaller). *)
Theorem field_bytes_roundtrip f b :
  normal f -> length b = 32%nat -> bytes_ok b ->
  length (Bytes f) = 32%nat /\ SetBytes (Bytes f) = f /\
  value (SetBytes b) = be_decode b /\
  Bytes (Normalize (SetBytes b)) = be_encode 32 (be_decode b mod P) /\
  (be_decode b < P -> Bytes (Normalize (SetBytes b)) = b).
Proof.
  intros Hf Hl Hok. destruct (PutBytes_spec f Hf) as (Hb & Hlen & Hv). destruct (SetBytes_spec b Hl Hok) as [Hm Hval].
  assert (Bytes (Normalize (SetBytes b)) = be_encode 32 (be_decode b mod P)) as Hn.
  { destruct (Normalize_spec _ (mag_weaken 1 63 _ ltac:(lia) Hm)) as [Hnorm Hmod].
    destruct (PutBytes_spec _ Hnorm) as (Hb' & Hlen' & Hv'). rewrite Hval in Hmod. rewrite <- Hmod, <- Hv'.
    symmetry. apply be_encode_decode; assumption. }
  split; [exact Hlen |]. split; [| split; [exact Hval | split; [exact Hn |]]].
  - destruct (SetBytes_words (PutBytes f) Hlen Hb) as (Hv2 & Hn2 & _). rewrite Hv in Hv2.
    apply normal_inj; [apply Hn2; rewrite Hv2; apply Hf | exact Hf | exact Hv2].
  - intros Hlt. rewrite Hn, Z.mod_small by (pose proof (be_decode_range b Hok); lia). apply be_encode_decode; assumption.
Qed.

(** Inverse computes the multiplicative inverse (and leaves zero at zero), and SqrtVal a square
    root exactly when the argument has one: the test by squaring tells whether it has. *)
Theorem field_inverse_sqrt f :
  mag 8 f ->
  (value f mod P <> 0 -> value (Normalize (Mul (Inverse f) f)) = 1) /\
  (value f mod P = 0 -> value (Normalize (Inverse f)) = 0) /\
  (Equals (Normalize (Square (SqrtVal f))) (Normalize f) = true <-> exists y, (y * y) mod P = value f mod P).
Proof.
  intros Hf. assert (rep 8 (value f) f) as Hrep by (split; [exact Hf | reflexivity]).
  pose proof (Inverse_spec _ _ Hrep) as Hinv. pose proof (SqrtVal_spec _ _ Hrep) as Hsq.
  split; [| split].
  - intros Hne. destruct (rep_Normalize 1 _ _ (rep_Mul2 1 8 _ _ _ _ Hinv Hrep ltac:(lia) ltac:(lia)) ltac:(lia)) as [[_ Hv] _].
    etransitivity; [exact Hv |]. etransitivity; [exact (inverse_correct _ Hne) | reflexivity].
  - intros H0. destruct (rep_Normalize 1 _ _ Hinv ltac:(lia)) as [[_ ->] _].
    assert (eqp (value f) 0) as E by exact H0. etransitivity; [exact (eqp_pow _ _ (P - 2) ltac:(vm_compute; discriminate) E) | reflexivity].
  - destruct (rep_Normalize 1 _ _ (rep_SquareVal 1 _ _ Hsq ltac:(lia)) ltac:(lia)) as [Hs _].
    destruct (rep_Normalize 8 _ _ Hrep ltac:(lia)) as [Hx _].
    etransitivity; [exact (Equals_reduced _ _ _ _ Hs Hx) |]. split; [intros E; eexists; exact E |].
    intros [y Hy]. exact (sqrt_correct _ y Hy).
Qed.

(** ** Instances *)

Definition sample : fieldVal := mkFieldVal 20147233 5 60397977 4194304 1 0 2 51200000 7 4000000.

Lemma sample_normal : normal sample.
Proof. unfold normal, value, P, sample. words. repeat split; lia. Qed.

Lemma sample_mag k : 1 <= k -> mag k sample.
Proof. intros. apply (mag_weaken 1); [assumption |]. apply normal_mag, sample_normal. Qed.

Lemma field_operations_witness :
  value (Mul2 sample sample) mod P = (value sample * value sample) mod P /\
  value (MulInt sample 3) = 3 * value sample.
Proof.
  destruct (field_operations 1 1 3 sample sample) as (H1 & _ & _ & H2 & _);
    [apply sample_mag; lia | apply sample_mag; lia | lia | lia | lia |].
  split; [apply H1; lia | apply H2; lia].
Defined.

Lemma field_bytes_roundtrip_witness : SetBytes (Bytes sample) = sample.
Proof.
  apply (field_bytes_roundtrip sample (replicate 32 7)); [exact sample_normal | reflexivity |].
  apply Forall_replicate. unfold is_byte. lia.
Defined.

Lemma field_inverse_sqrt_witness :
  value (Normalize (Mul (Inverse sample) sample)) = 1 /\
  Equals (Normalize (Square (SqrtVal (SetInt 9)))) (Normalize (SetInt 9)) = true.
Proof.
  split.
  - apply (field_inverse_sqrt sample); [apply sample_mag; lia |]. vm_compute. discriminate.
  - apply (field_inverse_sqrt (SetInt 9)).
    + apply (mag_weaken 1); [lia |]. apply normal_mag, SetInt_spec. lia.
    + exists 3. vm_compute. reflexivity.
Defined.
