(* ===== verification/Curve.v ===== *)
(** The curve secp256k1 (pocec/pocec.go): Jacobian point arithmetic over the field, and scalar
    multiplication with the endomorphism and non-adjacent forms. *)

From Stdlib Require Import ZArith Lia.
From S2P Require Import Prelude Amount Field.

Import Field.

Module Curve.

(** A Jacobian point; a point with [z = 0], or with [x = y = 0], is the point at infinity. *)
Abbreviation point := (fieldVal * fieldVal * fieldVal)%type.

Definition infinity : point := (SetInt 0, SetInt 0, SetInt 0).

Definition fieldOne : fieldVal := SetInt 1.

(** * Parameters (initS256) *)

Record KoblitzCurve := mkKoblitzCurve {
  curve_P : Z;
  curve_N : Z;
  curve_B : Z;
  Gx : Z;
  Gy : Z;
  BitSize : Z;
  curve_q : Z;
  curve_H : Z;
  halfOrder : Z;
  fieldB : fieldVal;
  byteSize : Z;
  lambda : Z;
  beta : fieldVal;
  a1 : Z;
  b1 : Z;
  a2 : Z;
  b2 : Z
}.

Definition secp256k1 : KoblitzCurve :=
  let P := 0xFFFFFFFFFFFFFFFFFFFFFFFFFFFFFFFFFFFFFFFFFFFFFFFFFFFFFFFEFFFFFC2F in
  let N := 0xFFFFFFFFFFFFFFFFFFFFFFFFFFFFFFFEBAAEDCE6AF48A03BBFD25E8CD0364141 in
  {| curve_P := P;
     curve_N := N;
     curve_B := 0x0000000000000000000000000000000000000000000000000000000000000007;
     Gx := 0x79BE667EF9DCBBAC55A06295CE870B07029BFCDB2DCE28D959F2815B16F81798;
     Gy := 0x483ADA7726A3C4655DA4FBFC0E1108A8FD17B448A68554199C47D08FFB10D4B8;
     BitSize := 256;
     curve_q := (P + 1) / 4;
     curve_H := 1;
     halfOrder := Z.shiftr N 1;
     fieldB := SetBytes (replicate 31 0 ++ [7]);
     byteSize := 256 / 8;
     lambda := 0x5363AD4CC05C30E0A5261C028812645A122E22EA20816678DF02967C1B23BD72;
     beta := SetBytes (be_encode 32 0x7AE96A2B657C07106E64479EAC3434E99CF0497512F58995C1396C28719501EE);
     a1 := 0x3086D221A7D46BCDE86C90E49284EB15;
     b1 := - 0xE4437ED6010E88286F547FA90ABFE4C3;
     a2 := 0x114CA50F7A8E2F3F657C1108D9D44CFD8;
     b2 := 0x3086D221A7D46BCDE86C90E49284EB15 |}.

(** * Conversions *)

Section conversions.
Context {E : Type}.

Definition bigAffineToField (x y : Z) : outcome E (fieldVal * fieldVal) :=
  x3 ← SetByteSlice (big_Bytes x);
  y3 ← SetByteSlice (big_Bytes y);
  Ret (x3, y3).

(** The coordinates, which the code also leaves in its arguments. *)
Definition fieldJacobianToBigAffine (p : point) : Z * Z :=
  let '(x, y, z) := p in
  let zInv := Inverse z in
  let tempZ := SquareVal zInv in
  let x := Mul x tempZ in
  let y := Mul y (Mul tempZ zInv) in
  let x := Normalize x in
  let y := Normalize y in
  (be_decode (Bytes x), be_decode (Bytes y)).

Definition IsOnCurve (x y : Z) : outcome E bool :=
  '(fx, fy) ← bigAffineToField x y;
  let y2 := Normalize (SquareVal fy) in
  let result := Normalize (AddInt (Mul (SquareVal fx) fx) 7) in
  Ret (Equals y2 result).
End conversions.

(** * Doubling

    The methods store into the last three arguments; they have read the words of the point they
    double before they store over them, so the results may replace the point, as ScalarMult
    does. *)

Definition doubleZ1EqualsOne (x1 y1 : fieldVal) : point :=
  let z3 := MulInt y1 2 in
  let a := SquareVal x1 in
  let b := SquareVal y1 in
  let c := SquareVal b in
  let b := Square (Add b x1) in
  let d := Negate (Add a c) 2 in
  let d := MulInt (Add d b) 2 in
  let e := MulInt a 3 in
  let f := SquareVal e in
  let x3 := Negate (MulInt d 2) 16 in
  let x3 := Add x3 f in
  let f := Normalize (Add (Negate x3 18) d) in
  let y3 := Negate (MulInt c 8) 8 in
  let y3 := Add y3 (Mul f e) in
  let x3 := Normalize x3 in
  let y3 := Normalize y3 in
  let z3 := Normalize z3 in
  (x3, y3, z3).

Definition doubleGeneric (x1 y1 z1 : fieldVal) : point :=
  let z3 := MulInt (Mul2 y1 z1) 2 in
  let a := SquareVal x1 in
  let b := SquareVal y1 in
  let c := SquareVal b in
  let b := Square (Add b x1) in
  let d := Negate (Add a c) 2 in
  let d := MulInt (Add d b) 2 in
  let e := MulInt a 3 in
  let f := SquareVal e in
  let x3 := Negate (MulInt d 2) 16 in
  let x3 := Add x3 f in
  let f := Normalize (Add (Negate x3 18) d) in
  let y3 := Negate (MulInt c 8) 8 in
  let y3 := Add y3 (Mul f e) in
  let x3 := Normalize x3 in
  let y3 := Normalize y3 in
  let z3 := Normalize z3 in
  (x3, y3, z3).

Definition doubleJacobian (p : point) : point :=
  let '(x1, y1, z1) := p in
  if IsZero y1 || IsZero z1 then infinity
  else
    let z1 := Normalize z1 in
    if Equals z1 fieldOne then doubleZ1EqualsOne x1 y1 else doubleGeneric x1 y1 z1.

(** * Addition

    The methods normalise some of their arguments in place.  The first point is replaced by the
    result where the code adds repeatedly; what is left of the second point is returned with the
    result. *)

Definition addZ1AndZ2EqualsOne (x1 y1 z1 x2 y2 : fieldVal) : point * (fieldVal * fieldVal) :=
  let x1 := Normalize x1 in
  let y1 := Normalize y1 in
  let x2 := Normalize x2 in
  let y2 := Normalize y2 in
  if Equals x1 x2 then
    if Equals y1 y2 then (doubleJacobian (x1, y1, z1), (x2, y2)) else (infinity, (x2, y2))
  else
    let h := Add (Negate x1 1) x2 in
    let i := MulInt (SquareVal h) 4 in
    let j := Mul2 h i in
    let r := MulInt (Add (Negate y1 1) y2) 2 in
    let v := Mul2 x1 i in
    let negJ := Negate j 1 in
    let neg2V := Negate (MulInt v 2) 2 in
    let x3 := Add (Add (Square r) negJ) neg2V in
    let negX3 := Negate x3 6 in
    let j := Negate (MulInt (Mul j y1) 2) 2 in
    let y3 := Add (Mul (Add v negX3) r) j in
    let z3 := MulInt h 2 in
    let x3 := Normalize x3 in
    let y3 := Normalize y3 in
    let z3 := Normalize z3 in
    ((x3, y3, z3), (x2, y2)).

Definition addZ1EqualsZ2 (x1 y1 z1 x2 y2 : fieldVal) : point * (fieldVal * fieldVal) :=
  let x1 := Normalize x1 in
  let y1 := Normalize y1 in
  let x2 := Normalize x2 in
  let y2 := Normalize y2 in
  if Equals x1 x2 then
    if Equals y1 y2 then (doubleJacobian (x1, y1, z1), (x2, y2)) else (infinity, (x2, y2))
  else
    let negX1 := Negate x1 1 in
    let negY1 := Negate y1 1 in
    let a := Add negX1 x2 in
    let b := SquareVal a in
    let c := Add negY1 y2 in
    let d := SquareVal c in
    let e := Mul2 x1 b in
    let negE := Negate e 1 in
    let f := Mul2 x2 b in
    let x3 := Add (Negate (Add2 e f) 3) d in
    let negX3 := Normalize (Negate x3 5) in
    let y3 := Negate (Mul y1 (Add f negE)) 3 in
    let y3 := Add y3 (Mul (Add e negX3) c) in
    let z3 := Mul2 z1 a in
    let x3 := Normalize x3 in
    let y3 := Normalize y3 in
    ((x3, y3, z3), (x2, y2)).

Definition addZ2EqualsOne (x1 y1 z1 x2 y2 : fieldVal) : point :=
  let x1 := Normalize x1 in
  let y1 := Normalize y1 in
  let z1z1 := SquareVal z1 in
  let u2 := Normalize (Mul x2 z1z1) in
  let s2 := Normalize (Mul (Mul y2 z1z1) z1) in
  if Equals x1 u2 then
    if Equals y1 s2 then doubleJacobian (x1, y1, z1) else infinity
  else
    let negX1 := Negate x1 1 in
    let h := Add2 u2 negX1 in
    let hh := SquareVal h in
    let i := MulInt hh 4 in
    let j := Mul2 h i in
    let negY1 := Negate y1 1 in
    let r := MulInt (Add s2 negY1) 2 in
    let rr := SquareVal r in
    let v := Mul2 x1 i in
    let x3 := Negate (Add (MulInt v 2) j) 3 in
    let x3 := Add x3 rr in
    let negX3 := Negate x3 5 in
    let y3 := Negate (MulInt (Mul y1 j) 2) 2 in
    let y3 := Add y3 (Mul (Add v negX3) r) in
    let z3 := Square (Add2 z1 h) in
    let z3 := Add z3 (Negate (Add z1z1 hh) 2) in
    let x3 := Normalize x3 in
    let y3 := Normalize y3 in
    let z3 := Normalize z3 in
    (x3, y3, z3).

Definition addGeneric (x1 y1 z1 x2 y2 z2 : fieldVal) : point :=
  let z1z1 := SquareVal z1 in
  let z2z2 := SquareVal z2 in
  let u1 := Normalize (Mul x1 z2z2) in
  let u2 := Normalize (Mul x2 z1z1) in
  let s1 := Normalize (Mul (Mul y1 z2z2) z2) in
  let s2 := Normalize (Mul (Mul y2 z1z1) z1) in
  if Equals u1 u2 then
    if Equals s1 s2 then doubleJacobian (x1, y1, z1) else infinity
  else
    let negU1 := Negate u1 1 in
    let h := Add2 u2 negU1 in
    let i := Square (MulInt h 2) in
    let j := Mul2 h i in
    let negS1 := Negate s1 1 in
    let r := MulInt (Add s2 negS1) 2 in
    let rr := SquareVal r in
    let v := Mul2 u1 i in
    let x3 := Negate (Add (MulInt v 2) j) 3 in
    let x3 := Add x3 rr in
    let negX3 := Negate x3 5 in
    let y3 := Negate (MulInt (Mul2 s1 j) 2) 2 in
    let y3 := Add y3 (Mul (Add v negX3) r) in
    let z3 := Square (Add2 z1 z2) in
    let z3 := Add z3 (Negate (Add z1z1 z2z2) 2) in
    let z3 := Mul z3 h in
    let x3 := Normalize x3 in
    let y3 := Normalize y3 in
    (x3, y3, z3).

Definition addJacobian (p1 p2 : point) : point * point :=
  let '(x1, y1, z1) := p1 in
  let '(x2, y2, z2) := p2 in
  if (IsZero x1 && IsZero y1) || IsZero z1 then (p2, p2)
  else if (IsZero x2 && IsZero y2) || IsZero z2 then (p1, p2)
  else
    let z1 := Normalize z1 in
    let z2 := Normalize z2 in
    let isZ1One := Equals z1 fieldOne in
    let isZ2One := Equals z2 fieldOne in
    if isZ1One && isZ2One then
      let '(p3, (x2, y2)) := addZ1AndZ2EqualsOne x1 y1 z1 x2 y2 in (p3, (x2, y2, z2))
    else if Equals z1 z2 then
      let '(p3, (x2, y2)) := addZ1EqualsZ2 x1 y1 z1 x2 y2 in (p3, (x2, y2, z2))
    else if isZ2One then (addZ2EqualsOne x1 y1 z1 x2 y2, (x2, y2, z2))
    else (addGeneric x1 y1 z1 x2 y2 z2, (x2, y2, z2)).

(** * The methods of elliptic.Curve *)

Section curve.
Context {E : Type}.

Definition Add (x1 y1 x2 y2 : Z) : outcome E (Z * Z) :=
  if (x1 =? 0) && (y1 =? 0) then Ret (x2, y2)
  else if (x2 =? 0) && (y2 =? 0) then Ret (x1, y1)
  else
    '(fx1, fy1) ← bigAffineToField x1 y1;
    '(fx2, fy2) ← bigAffineToField x2 y2;
    let fOne := SetInt 1 in
    let '(p3, _) := addJacobian (fx1, fy1, fOne) (fx2, fy2, fOne) in
    Ret (fieldJacobianToBigAffine p3).

Definition Double (x1 y1 : Z) : outcome E (Z * Z) :=
  if y1 =? 0 then Ret (0, 0)
  else
    '(fx1, fy1) ← bigAffineToField x1 y1;
    let fOne := SetInt 1 in
    Ret (fieldJacobianToBigAffine (doubleJacobian (fx1, fy1, fOne))).

(** ** Scalars *)

Definition splitK (curve : KoblitzCurve) (k : bytes) : bytes * bytes * Z * Z :=
  let bigIntK := be_decode k in
  let c1 := b2 curve * bigIntK in
  let c1 := c1 / curve_N curve in
  let c2 := b1 curve * bigIntK in
  let c2 := c2 / curve_N curve in
  let tmp1 := c1 * a1 curve in
  let tmp2 := c2 * a2 curve in
  let k1 := bigIntK - tmp1 in
  let k1 := k1 + tmp2 in
  let tmp1 := c1 * b1 curve in
  let tmp2 := c2 * b2 curve in
  let k2 := tmp2 - tmp1 in
  (big_Bytes k1, big_Bytes k2, Z.sgn k1, Z.sgn k2).

Definition moduloReduce (curve : KoblitzCurve) (k : bytes) : bytes :=
  if len k >? byteSize curve then
    let tmpK := be_decode k in
    let tmpK := tmpK mod curve_N curve in
    big_Bytes tmpK
  else k.

(** One bit of NAF at position [j] of a byte; [pos] and [neg] are the bytes of the two results
    under construction. *)
Definition naf_bit (curIsOne nextIsOne : bool) (j : Z) (st : bool * Z * Z) : bool * Z * Z :=
  let '(carry, pos, neg) := st in
  if carry then
    if curIsOne then (carry, pos, neg)
    else if nextIsOne then (carry, pos, uint8 (neg + Z.shiftl 1 j))
    else (false, uint8 (pos + Z.shiftl 1 j), neg)
  else if curIsOne then
    if nextIsOne then (true, pos, uint8 (neg + Z.shiftl 1 j))
    else (carry, uint8 (pos + Z.shiftl 1 j), neg)
  else (carry, pos, neg).

(** The inner loop; [above] is the least bit of the next byte, [false] at the first one. *)
Fixpoint naf_byte (n : nat) (j curByte : Z) (above : bool) (st : bool * Z * Z) : bool * Z * Z :=
  match n with
  | O => st
  | S n' =>
      let curIsOne := Z.land curByte 1 =? 1 in
      let nextIsOne := if j =? 7 then above else Z.land curByte 2 =? 2 in
      naf_byte n' (j + 1) (Z.shiftr curByte 1) above (naf_bit curIsOne nextIsOne j st)
  end.

(** The outer loop, from the last byte to the first: [rk] is [k] reversed.  An iteration writes
    one byte of each result. *)
Fixpoint naf_loop (rk : bytes) (carry : bool) (retPos retNeg : bytes) : bool * bytes * bytes :=
  match rk with
  | [] => (carry, retPos, retNeg)
  | curByte :: rk' =>
      let above := match rk' with [] => false | next :: _ => Z.land next 1 =? 1 end in
      let '(carry, pos, neg) := naf_byte 8 0 curByte above (carry, 0, 0) in
      naf_loop rk' carry (pos :: retPos) (neg :: retNeg)
  end.

Definition NAF (k : bytes) : bytes * bytes :=
  let '(carry, retPos, retNeg) := naf_loop (rev k) false [] [] in
  if carry then (1 :: retPos, 0 :: retNeg) else (retPos, retNeg).

(** A point that is added or subtracted: its coordinates and the negated [y]. *)
Record base := mkBase { bx : fieldVal; by_ : fieldVal; byNeg : fieldVal; bz : fieldVal }.

Definition add_digit (pos neg : Z) (q : point) (b : base) : point * base :=
  if Z.land pos 0x80 =? 0x80 then
    let '(q, (x, y, z)) := addJacobian q (bx b, by_ b, bz b) in (q, mkBase x y (byNeg b) z)
  else if Z.land neg 0x80 =? 0x80 then
    let '(q, (x, y, z)) := addJacobian q (bx b, byNeg b, bz b) in (q, mkBase x (by_ b) y z)
  else (q, b).

Fixpoint mult_bits (n : nat) (k1Pos k1Neg k2Pos k2Neg : Z) (st : point * base * base) : point * base * base :=
  match n with
  | O => st
  | S n' =>
      let '(q, p1, p2) := st in
      let q := doubleJacobian q in
      let '(q, p1) := add_digit k1Pos k1Neg q p1 in
      let '(q, p2) := add_digit k2Pos k2Neg q p2 in
      mult_bits n' (uint8 (Z.shiftl k1Pos 1)) (uint8 (Z.shiftl k1Neg 1))
        (uint8 (Z.shiftl k2Pos 1)) (uint8 (Z.shiftl k2Neg 1)) (q, p1, p2)
  end.

(** The byte of a form at position [i] of [m], with zeros before its start. *)
Definition padded (naf : bytes) (l m i : Z) : outcome E Z :=
  if i <? m - l then Ret 0 else index naf (i - (m - l)).

Fixpoint mult_loop (n : nat) (i m k1Len k2Len : Z) (k1PosNAF k1NegNAF k2PosNAF k2NegNAF : bytes)
    (st : point * base * base) : outcome E (point * base * base) :=
  match n with
  | O => Ret st
  | S n' =>
      k1BytePos ← padded k1PosNAF k1Len m i;
      k1ByteNeg ← padded k1NegNAF k1Len m i;
      k2BytePos ← padded k2PosNAF k2Len m i;
      k2ByteNeg ← padded k2NegNAF k2Len m i;
      mult_loop n' (i + 1) m k1Len k2Len k1PosNAF k1NegNAF k2PosNAF k2NegNAF
        (mult_bits 8 k1BytePos k1ByteNeg k2BytePos k2ByteNeg st)
  end.

Definition ScalarMult (curve : KoblitzCurve) (Bx By : Z) (k : bytes) : outcome E (Z * Z) :=
  let '(k1, k2, signK1, signK2) := splitK curve (moduloReduce curve k) in
  '(p1x, p1y) ← bigAffineToField Bx By;
  let p1yNeg := NegateVal p1y 1 in
  let p1z := SetInt 1 in
  let p2x := Mul2 p1x (beta curve) in
  let p2y := Set_ p1y in
  let p2yNeg := NegateVal p2y 1 in
  let p2z := SetInt 1 in
  let '(p1y, p1yNeg) := if signK1 =? -1 then (p1yNeg, p1y) else (p1y, p1yNeg) in
  let '(p2y, p2yNeg) := if signK2 =? -1 then (p2yNeg, p2y) else (p2y, p2yNeg) in
  let '(k1PosNAF, k1NegNAF) := NAF k1 in
  let '(k2PosNAF, k2NegNAF) := NAF k2 in
  let k1Len := len k1PosNAF in
  let k2Len := len k2PosNAF in
  let m := if k1Len <? k2Len then k2Len else k1Len in
  '(q, _, _) ← mult_loop (Z.to_nat m) 0 m k1Len k2Len k1PosNAF k1NegNAF k2PosNAF k2NegNAF
                 (infinity, mkBase p1x p1y p1yNeg p1z, mkBase p2x p2y p2yNeg p2z);
  Ret (fieldJacobianToBigAffine q).

(** [bytePoints] is the table of the precomputed points, generated data of the package. *)
Context (bytePoints : list (list point)).

Fixpoint base_loop (newK : bytes) (i : Z) (q : point) : outcome E point :=
  match newK with
  | [] => Ret q
  | byteVal :: rest =>
      window ← index bytePoints i;
      p ← index window byteVal;
      let '(q, _) := addJacobian q p in
      base_loop rest (i + 1) q
  end.

Definition ScalarBaseMult (curve : KoblitzCurve) (k : bytes) : outcome E (Z * Z) :=
  let newK := moduloReduce curve k in
  let diff := len bytePoints - len newK in
  q ← base_loop newK diff infinity;
  Ret (fieldJacobianToBigAffine q).
End curve.

Definition QPlus1Div4 (curve : KoblitzCurve) : Z := curve_q curve.
Definition Q (curve : KoblitzCurve) : Z := curve_q curve.

End Curve.
