(* ===== verification/CurveSpec.v ===== *)
(** Correctness of the point arithmetic: the Jacobian formulas compute the chord-and-tangent law of
    the curve, without overflow of the field words. *)

From Stdlib Require Import ZArith Lia Zdiv Setoid Zpow_facts.
From S2P Require Import Prelude Amount Primality Field FieldSpec Curve.

Import Field Curve.

#[local] Existing Instances eqm_setoid Zplus_eqm Zminus_eqm Zmult_eqm Zopp_eqm.

(** * The group law in affine coordinates *)

(** A point is [None], the point at infinity, or a pair of coordinates below the prime. *)
Abbreviation affine := (option (Z * Z)).

Definition inv (a : Z) : Z := Zpow_mod a (P - 2) P.

(** The third point of the line with slope [l] through [(x1, y1)], reflected. *)
Definition third (l x1 y1 x2 : Z) : affine :=
  let x3 := (l * l - x1 - x2) mod P in
  let y3 := (l * (x1 - x3) - y1) mod P in
  Some (x3, y3).

Definition double_affine (p : affine) : affine :=
  match p with
  | None => None
  | Some (x, y) => if y =? 0 then None else third (3 * x * x * inv (2 * y)) x y x
  end.

Definition add_affine (p q : affine) : affine :=
  match p, q with
  | None, _ => q
  | _, None => p
  | Some (x1, y1), Some (x2, y2) =>
      if x1 =? x2 then if y1 =? y2 then double_affine p else None
      else third ((y2 - y1) * inv (x2 - x1)) x1 y1 x2
  end.

Definition neg_affine (p : affine) : affine :=
  match p with None => None | Some (x, y) => Some (x, - y mod P) end.

Definition on_curve (p : affine) : Prop :=
  match p with
  | None => True
  | Some (x, y) => 0 <= x < P /\ 0 <= y < P /\ eqp (y * y) (x * x * x + 7)
  end.

Lemma inv_correct a : ~ eqp a 0 -> eqp (inv a * a) 1.
Proof.
  intros Ha. unfold inv. rewrite Zpow_mod_correct by (vm_compute; discriminate). rewrite Zmod_eqm.
  apply inverse_correct. exact Ha.
Qed.

#[local] Opaque inv.

Lemma eqp_mul_zero a b : eqp (a * b) 0 -> eqp a 0 \/ eqp b 0.
Proof.
  intros H. destruct (Z.eq_dec (a mod P) 0) as [E | E]; [left; exact E | right].
  assert (~ eqp a 0) as Ha by exact E. rewrite <- (Z.mul_1_l b), <- (inv_correct a Ha).
  replace (inv a * a * b) with (inv a * (a * b)) by ring. rewrite H, Z.mul_0_r. reflexivity.
Qed.

Lemma eqp_cancel a b c : ~ eqp c 0 -> eqp (a * c) (b * c) -> eqp a b.
Proof.
  intros Hc H. rewrite <- (Z.mul_1_r a), <- (Z.mul_1_r b), <- (inv_correct c Hc).
  replace (a * (inv c * c)) with (inv c * (a * c)) by ring. rewrite H.
  replace (inv c * (b * c)) with (b * (inv c * c)) by ring. reflexivity.
Qed.

Lemma eqp_small a b : 0 <= a < P -> 0 <= b < P -> eqp a b -> a = b.
Proof. intros Ha Hb E. unfold eqm in E. rewrite !Z.mod_small in E by assumption. exact E. Qed.

Lemma eqp_sub_zero a b : eqp (a - b) 0 <-> eqp a b.
Proof.
  split; intros E; [| rewrite E, Z.sub_diag; reflexivity].
  replace a with (a - b + b) by ring. rewrite E. reflexivity.
Qed.

Lemma two_nonzero : ~ eqp 2 0.
Proof. vm_compute. discriminate. Qed.

(** ** The law stays on the curve *)

(** A line of slope [l] through a point of the curve meets it again at [third]. *)
Lemma third_on_curve l x1 y1 x2 :
  eqp (y1 * y1) (x1 * x1 * x1 + 7) ->
  eqp (l * (2 * y1 + l * (x2 - x1))) (x1 * x1 + x1 * x2 + x2 * x2) ->
  on_curve (third l x1 y1 x2).
Proof.
  intros H1 H2. unfold third, on_curve. set (x3 := (l * l - x1 - x2) mod P). assert (0 < P) by reflexivity.
  split; [apply Z.mod_pos_bound; assumption |]. split; [apply Z.mod_pos_bound; assumption |].
  rewrite !Zmod_eqm. assert (eqp (l * l) (x1 + x2 + x3)) as Hl.
  { unfold x3. rewrite Zmod_eqm. replace (x1 + x2 + (l * l - x1 - x2)) with (l * l) by ring. reflexivity. }
  generalize dependent x3. intros x3 Hl. apply eqp_sub_zero.
  replace ((l * (x1 - x3) - y1) * (l * (x1 - x3) - y1) - (x3 * x3 * x3 + 7))
    with (l * l * (x1 - x3) * (x1 - x3) - (l * (2 * y1 + l * (x2 - x1)) - l * l * (x2 - x1)) * (x1 - x3) +
          (y1 * y1 - 7) - x3 * x3 * x3) by ring.
  rewrite H1, H2, Hl. match goal with |- eqp ?a 0 => replace a with 0 by ring end. reflexivity.
Qed.

Lemma double_on_curve p : on_curve p -> on_curve (double_affine p).
Proof.
  destruct p as [[x y] |]; [| trivial]. intros (Hx & Hy & Hc). cbn [double_affine].
  destruct (Z.eqb_spec y 0) as [| Hy0]; [exact I |]. apply third_on_curve; [exact Hc |].
  assert (~ eqp (2 * y) 0) as H2y.
  { intros E. apply eqp_mul_zero in E as [E | E]; [exact (two_nonzero E) |].
    apply Hy0. apply eqp_small; [exact Hy | unfold P; lia | exact E]. }
  replace (3 * x * x * inv (2 * y) * (2 * y + 3 * x * x * inv (2 * y) * (x - x)))
    with (3 * x * x * (inv (2 * y) * (2 * y))) by ring.
  rewrite inv_correct by exact H2y. match goal with |- eqp ?a ?b => replace a with b by ring end. reflexivity.
Qed.

Lemma eqp_neq a b : 0 <= a < P -> 0 <= b < P -> a <> b -> ~ eqp (a - b) 0.
Proof. intros Ha Hb Hne. rewrite eqp_sub_zero. intros E. exact (Hne (eqp_small a b Ha Hb E)). Qed.

Lemma add_on_curve p q : on_curve p -> on_curve q -> on_curve (add_affine p q).
Proof.
  destruct p as [[x1 y1] |], q as [[x2 y2] |]; [| cbn; tauto ..]. intros Hp Hq. cbn [add_affine].
  destruct (Z.eqb_spec x1 x2) as [| Hne].
  { destruct (Z.eqb_spec y1 y2); [apply double_on_curve; exact Hp | exact I]. }
  destruct Hp as (Hx1 & Hy1 & Hc1), Hq as (Hx2 & Hy2 & Hc2).
  pose proof (eqp_neq x2 x1 Hx2 Hx1 ltac:(congruence)) as Hd.
  apply third_on_curve; [exact Hc1 |]. apply (eqp_cancel _ _ (x2 - x1) Hd).
  set (i := inv (x2 - x1)) in *. assert (eqp (i * (x2 - x1)) 1) as Hi by (apply inv_correct; exact Hd). clearbody i.
  replace ((y2 - y1) * i * (2 * y1 + (y2 - y1) * i * (x2 - x1)) * (x2 - x1))
    with ((y2 - y1) * (2 * y1 + (y2 - y1) * (i * (x2 - x1))) * (i * (x2 - x1))) by ring.
  rewrite Hi. replace ((y2 - y1) * (2 * y1 + (y2 - y1) * 1) * 1) with (y2 * y2 - y1 * y1) by ring.
  rewrite Hc1, Hc2. match goal with |- eqp ?a ?b => replace a with b by ring end. reflexivity.
Qed.

Lemma neg_on_curve p : on_curve p -> on_curve (neg_affine p).
Proof.
  destruct p as [[x y] |]; [| trivial]. intros (Hx & Hy & Hc). cbn [neg_affine on_curve].
  split; [exact Hx |]. split; [apply Z.mod_pos_bound; reflexivity |]. rewrite Zmod_eqm.
  replace (- y * - y) with (y * y) by ring. exact Hc.
Qed.

(** * Running the formulas *)

Lemma rep_reduced i u f : rep i u f -> i <= 63 -> reduced u (Normalize f).
Proof. intros H ?. apply (rep_Normalize i u f H). assumption. Qed.

Lemma reduced_rep u f : reduced u f -> rep 1 u f.
Proof. intros [Hn Hv]. eapply rep_eq; [apply rep_normal; exact Hn |]. rewrite Hv. apply Zmod_eqm. Qed.

Lemma reduced_eq u v f : reduced u f -> eqp u v -> reduced v f.
Proof. intros [Hn Hv] E. split; [exact Hn |]. rewrite Hv. exact E. Qed.

(** The integer and the magnitude of a term, from those of its variables. *)
Ltac rep_of t :=
  lazymatch t with
  | Field.Add ?f ?g => let p := rep_of f in let q := rep_of g in constr:(rep_Add _ _ _ _ _ _ p q ltac:(lia))
  | Add2 ?f ?g => let p := rep_of f in let q := rep_of g in constr:(rep_Add2 _ _ _ _ _ _ p q ltac:(lia))
  | Mul2 ?f ?g => let p := rep_of f in let q := rep_of g in constr:(rep_Mul2 _ _ _ _ _ _ p q ltac:(lia) ltac:(lia))
  | Mul ?f ?g => let p := rep_of f in let q := rep_of g in constr:(rep_Mul2 _ _ _ _ _ _ p q ltac:(lia) ltac:(lia))
  | SquareVal ?f => let p := rep_of f in constr:(rep_SquareVal _ _ _ p ltac:(lia))
  | Square ?f => let p := rep_of f in constr:(rep_SquareVal _ _ _ p ltac:(lia))
  | MulInt ?f ?n => let p := rep_of f in constr:(rep_MulInt _ _ _ n p ltac:(lia) ltac:(lia) ltac:(lia))
  | AddInt ?f ?n => let p := rep_of f in constr:(rep_AddInt _ _ _ n p ltac:(lia) ltac:(lia))
  | Negate ?f ?k => let p := rep_of f in constr:(rep_NegateVal _ _ _ k p ltac:(lia) ltac:(lia))
  | NegateVal ?f ?k => let p := rep_of f in constr:(rep_NegateVal _ _ _ k p ltac:(lia) ltac:(lia))
  | Normalize ?f => let p := rep_of f in constr:(reduced_rep _ _ (rep_reduced _ _ _ p ltac:(lia)))
  | _ => lazymatch goal with H : rep _ _ t |- _ => constr:(H) end
  end.

(** Runs one assignment; a normalised result keeps its being normalised. *)
Ltac rep_let :=
  let x := fresh "x" in let H := fresh in let Hx := fresh "R" in let Hn := fresh "N" in
  elim_let x H;
  lazymatch type of H with x = ?t =>
    let p := rep_of t in
    lazymatch type of p with rep ?k ?v _ =>
      let k' := eval vm_compute in k in assert (rep k' v x) as Hx by (rewrite H; exact p)
    end;
    lazymatch t with
    | Normalize ?f =>
        let p := rep_of f in
        lazymatch type of p with rep _ ?v _ =>
          assert (reduced v x) as Hn by (rewrite H; exact (rep_reduced _ _ _ p ltac:(lia)))
        end
    | _ => idtac
    end; clear H
  end.

(** The coordinates of a result, the last one not necessarily normalised. *)
Definition coords (X Y Z : Z) (p : point) : Prop :=
  let '(x, y, z) := p in reduced X x /\ reduced Y y /\ rep 1 Z z.

Lemma eqp_refl a b : a = b -> eqp a b.
Proof. intros ->. reflexivity. Qed.

Ltac by_ring := apply eqp_refl; ring.

Ltac coords_done :=
  split; [eapply reduced_eq; [eassumption | by_ring] |
  split; [eapply reduced_eq; [eassumption | by_ring] | eapply rep_eq; [eassumption | by_ring]]].

Definition double_x (u v : Z) : Z := 9 * u * u * u * u - 8 * u * v * v.
Definition double_y (u v : Z) : Z := 3 * u * u * (4 * u * v * v - double_x u v) - 8 * v * v * v * v.

Lemma doubleGeneric_rep u v w x1 y1 z1 :
  rep 1 u x1 -> rep 2 v y1 -> rep 1 w z1 -> coords (double_x u v) (double_y u v) (2 * v * w) (doubleGeneric x1 y1 z1).
Proof.
  intros Hx Hy Hz. cbv beta iota delta [doubleGeneric double_y double_x]. repeat rep_let. coords_done.
Qed.

Lemma doubleZ1EqualsOne_rep u v x1 y1 :
  rep 1 u x1 -> rep 2 v y1 -> coords (double_x u v) (double_y u v) (2 * v) (doubleZ1EqualsOne x1 y1).
Proof.
  intros Hx Hy. cbv beta iota delta [doubleZ1EqualsOne double_y double_x]. repeat rep_let. coords_done.
Qed.

(** The sum of two points with like terms [u1, s1] and [u2, s2], and the factor [k] of their
    common denominator. *)
Definition sum_x (u1 s1 u2 s2 k : Z) : Z :=
  k * k * ((s2 - s1) * (s2 - s1) - (u2 - u1) * (u2 - u1) * (u1 + u2)).
Definition sum_y (u1 s1 u2 s2 k : Z) : Z :=
  k * (s2 - s1) * (k * k * u1 * (u2 - u1) * (u2 - u1) - sum_x u1 s1 u2 s2 k) -
  k * k * k * s1 * (u2 - u1) * (u2 - u1) * (u2 - u1).

(** The addition methods on points whose like terms [u1] and [u2] differ. *)
Ltac not_equal H :=
  let E := fresh "E" in
  match goal with |- _ (if ?b then _ else _) => destruct b eqn:E end;
  [exfalso; apply H; revert E; apply Equals_reduced; assumption |]; clear E.

Ltac run_add H := not_equal H; repeat rep_let; unfold sum_y, sum_x; coords_done.

Lemma addGeneric_rep u1 v1 w1 u2 v2 w2 x1 y1 z1 x2 y2 z2 :
  rep 1 u1 x1 -> rep 2 v1 y1 -> rep 1 w1 z1 -> rep 1 u2 x2 -> rep 2 v2 y2 -> rep 1 w2 z2 ->
  ~ eqp (u1 * (w2 * w2)) (u2 * (w1 * w1)) ->
  let U1 := u1 * (w2 * w2) in let U2 := u2 * (w1 * w1) in
  let S1 := v1 * (w2 * w2) * w2 in let S2 := v2 * (w1 * w1) * w1 in
  coords (sum_x U1 S1 U2 S2 2) (sum_y U1 S1 U2 S2 2) (2 * (w1 * w2) * (U2 - U1)) (addGeneric x1 y1 z1 x2 y2 z2).
Proof.
  intros Hx1 Hy1 Hz1 Hx2 Hy2 Hz2 Hne U1 U2 S1 S2. subst U1 U2 S1 S2.
  cbv beta iota delta [addGeneric]. do 6 rep_let. run_add Hne.
Qed.

Lemma addZ2EqualsOne_rep u1 v1 w1 u2 v2 x1 y1 z1 x2 y2 :
  rep 1 u1 x1 -> rep 2 v1 y1 -> rep 1 w1 z1 -> rep 1 u2 x2 -> rep 2 v2 y2 ->
  ~ eqp u1 (u2 * (w1 * w1)) ->
  let U2 := u2 * (w1 * w1) in let S2 := v2 * (w1 * w1) * w1 in
  coords (sum_x u1 v1 U2 S2 2) (sum_y u1 v1 U2 S2 2) (2 * w1 * (U2 - u1)) (addZ2EqualsOne x1 y1 z1 x2 y2).
Proof.
  intros Hx1 Hy1 Hz1 Hx2 Hy2 Hne U2 S2. subst U2 S2.
  cbv beta iota delta [addZ2EqualsOne]. rep_let. clear Hx1. rep_let. clear Hy1. do 3 rep_let. run_add Hne.
Qed.

(** Two of the methods also leave the second point normalised. *)
Definition coords2 (X Y Z u2 v2 : Z) (r : point * (fieldVal * fieldVal)) : Prop :=
  let '(p, (x2, y2)) := r in coords X Y Z p /\ reduced u2 x2 /\ reduced v2 y2.

Lemma addZ1EqualsZ2_rep u1 v1 w u2 v2 x1 y1 z1 x2 y2 :
  rep 1 u1 x1 -> rep 2 v1 y1 -> rep 1 w z1 -> rep 1 u2 x2 -> rep 2 v2 y2 ->
  ~ eqp u1 u2 ->
  coords2 (sum_x u1 v1 u2 v2 1) (sum_y u1 v1 u2 v2 1) (1 * w * (u2 - u1)) u2 v2 (addZ1EqualsZ2 x1 y1 z1 x2 y2).
Proof.
  intros Hx1 Hy1 Hz1 Hx2 Hy2 Hne. cbv beta iota delta [addZ1EqualsZ2].
  rep_let. clear Hx1. rep_let. clear Hy1. rep_let. clear Hx2. rep_let. clear Hy2. not_equal Hne.
  repeat rep_let. unfold sum_y, sum_x. split; [coords_done | split; assumption].
Qed.

Lemma addZ1AndZ2EqualsOne_rep u1 v1 u2 v2 x1 y1 z1 x2 y2 :
  rep 1 u1 x1 -> rep 2 v1 y1 -> rep 1 u2 x2 -> rep 2 v2 y2 ->
  ~ eqp u1 u2 ->
  coords2 (sum_x u1 v1 u2 v2 2) (sum_y u1 v1 u2 v2 2) (2 * 1 * (u2 - u1)) u2 v2 (addZ1AndZ2EqualsOne x1 y1 z1 x2 y2).
Proof.
  intros Hx1 Hy1 Hx2 Hy2 Hne. cbv beta iota delta [addZ1AndZ2EqualsOne].
  rep_let. clear Hx1. rep_let. clear Hy1. rep_let. clear Hx2. rep_let. clear Hy2. not_equal Hne.
  repeat rep_let. unfold sum_y, sum_x. split; [coords_done | split; assumption].
Qed.

(** * Jacobian points that stand for affine points *)

(** [p] stands for [a]: its words are small enough for the formulas, and its coordinates are those
    of [a] scaled by powers of [z]. *)
Definition jac (p : point) (a : affine) : Prop :=
  let '(x, y, z) := p in
  (mag 1 x /\ mag 2 y /\ mag 1 z) /\
  match a with
  | None => z = Zero \/ (x = Zero /\ y = Zero)
  | Some (X, Y) =>
      let w := value z in
      ~ eqp w 0 /\ eqp (value x) (X * (w * w)) /\ eqp (value y) (Y * (w * w * w))
  end.

Lemma coords_eq X Y Z X' Y' Z' p : eqp X X' -> eqp Y Y' -> eqp Z Z' -> coords X Y Z p -> coords X' Y' Z' p.
Proof.
  intros HX HY HZ. destruct p as [[x y] z]. intros (Hx & Hy & Hz).
  split; [exact (reduced_eq _ _ _ Hx HX) | split; [exact (reduced_eq _ _ _ Hy HY) | exact (rep_eq _ _ _ _ Hz HZ)]].
Qed.

Lemma eqp_mul a b a' b' : eqp a a' -> eqp b b' -> eqp (a * b) (a' * b').
Proof. intros -> ->. reflexivity. Qed.

Lemma eqp_sub a b a' b' : eqp a a' -> eqp b b' -> eqp (a - b) (a' - b').
Proof. intros -> ->. reflexivity. Qed.

Lemma eqp_mod a : eqp (a mod P) a.
Proof. apply Zmod_eqm. Qed.

(** The third point of a line, with the slope [m / d] and the denominator [d]. *)
Lemma third_jac l x1 y1 x2 d m p :
  eqp (l * d) m -> ~ eqp d 0 ->
  (let X := m * m - (x1 + x2) * (d * d) in coords X (m * (x1 * (d * d) - X) - y1 * (d * d * d)) d p) ->
  jac p (third l x1 y1 x2).
Proof.
  destruct p as [[x y] z]. intros Hl Hd (Hx & Hy & Hz). unfold third, jac.
  apply reduced_rep in Hx as [Mx Ex], Hy as [My Ey]. destruct Hz as [Mz Ez].
  split; [split; [exact Mx | split; [apply (mag_weaken 1); [lia | exact My] | exact Mz]] |].
  set (x3 := (l * l - x1 - x2) mod P). set (X := m * m - (x1 + x2) * (d * d)) in *.
  assert (eqp X (x3 * (d * d))) as HX.
  { unfold X, x3. rewrite eqp_mod, <- Hl. by_ring. }
  split; [rewrite Ez; exact Hd |]. rewrite Ex, Ey, eqp_mod, Ez. split; [exact HX |].
  rewrite HX, <- Hl. by_ring.
Qed.

Lemma minus_seven_power : Zpow_mod (-7) ((P - 1) / 3) P <> 1 mod P.
Proof. vm_compute. discriminate. Qed.

(** No point of the curve has [y = 0]: minus seven is not a cube. *)
Lemma on_curve_nonzero x y : on_curve (Some (x, y)) -> ~ eqp y 0.
Proof.
  intros (Hx & Hy & Hc) E. rewrite E in Hc.
  assert (eqp (x ^ 3) (-7)) as H3.
  { replace (x ^ 3) with (x * x * x + 7 - 7) by ring. rewrite <- Hc. reflexivity. }
  assert (~ eqp x 0) as Hx0.
  { intros Ex. rewrite Ex in Hc. revert Hc. vm_compute. discriminate. }
  assert (eqp (x ^ (P - 1)) 1) as H1.
  { pose proof (inverse_correct x Hx0) as Hi. replace (P - 1) with (P - 2 + 1) by ring. rewrite Z.pow_add_r, Z.pow_1_r by (vm_compute; discriminate). exact Hi. }
  replace (P - 1) with (3 * ((P - 1) / 3)) in H1 by (vm_compute; reflexivity).
  rewrite Z.pow_mul_r in H1 by (vm_compute; discriminate).
  rewrite (eqm_pow P (x ^ 3) (-7) ((P - 1) / 3) ltac:(vm_compute; discriminate) H3) in H1. unfold eqm in H1.
  rewrite <- Zpow_mod_correct in H1 by (vm_compute; discriminate). exact (minus_seven_power H1).
Qed.

Lemma jac_rep X Y x y z :
  jac (x, y, z) (Some (X, Y)) ->
  let w := value z in ~ eqp w 0 /\ rep 1 (X * (w * w)) x /\ rep 2 (Y * (w * w * w)) y /\ rep 1 w z.
Proof. intros ((Mx & My & Mz) & Hw & Ex & Ey). split; [exact Hw |]. repeat (split; [split; assumption |]). split; [assumption | reflexivity]. Qed.

(** A product that vanishes has a factor that does. *)
Ltac no_zero E := first [contradiction | apply eqp_mul_zero in E as [E | E]; no_zero E].

Lemma double_jac_some X Y w p :
  on_curve (Some (X, Y)) -> ~ eqp w 0 ->
  coords (double_x (X * (w * w)) (Y * (w * w * w))) (double_y (X * (w * w)) (Y * (w * w * w))) (2 * (Y * (w * w * w)) * w) p ->
  jac p (double_affine (Some (X, Y))).
Proof.
  intros Hc Hw Hp. pose proof (on_curve_nonzero X Y Hc) as HY. cbn [double_affine].
  destruct (Z.eqb_spec Y 0) as [-> |]; [destruct HY; reflexivity |].
  assert (~ eqp (2 * Y) 0) as H2.
  { intros E. apply eqp_mul_zero in E as [E | E]; [exact (two_nonzero E) | exact (HY E)]. }
  pose proof (inv_correct _ H2) as Hi. set (i := inv (2 * Y)) in *. clearbody i.
  apply (third_jac _ _ _ _ (2 * Y * (w * w * w * w)) (3 * X * X * (w * w * w * w))).
  - replace (3 * X * X * i * (2 * Y * (w * w * w * w))) with (3 * X * X * (w * w * w * w) * (i * (2 * Y))) by ring.
    rewrite Hi. by_ring.
  - intros E. no_zero E.
  - revert Hp. unfold double_y, double_x. apply coords_eq; by_ring.
Qed.

Lemma SetInt_normal u : 0 <= u < W -> normal (SetInt u).
Proof. apply SetInt_spec. Qed.

Lemma Zero_value : value Zero = 0.
Proof. reflexivity. Qed.

Lemma jac_infinity : jac infinity None.
Proof.
  split; [| left; reflexivity]. change (SetInt 0) with Zero.
  repeat split; vm_compute; discriminate.
Qed.

(** [Normalize] keeps what a point stands for. *)
Lemma jac_normalize_z x y z a : jac (x, y, z) a -> jac (x, y, Normalize z) a /\ reduced (value z) (Normalize z).
Proof.
  intros ((Mx & My & Mz) & H). pose proof (rep_reduced 1 (value z) z ltac:(split; [exact Mz | reflexivity]) ltac:(lia)) as Hr.
  split; [| exact Hr]. pose proof (reduced_rep _ _ Hr) as [Mn En].
  split; [split; [exact Mx | split; [exact My | exact Mn]] |]. destruct a as [[X Y] |].
  - cbv zeta in *. destruct H as (Hw & Ex & Ey). rewrite En. split; [exact Hw | split; assumption].
  - destruct H as [-> | H]; [left; reflexivity | right; exact H].
Qed.

Lemma one_reduced u f : reduced u f -> Equals f fieldOne = true <-> eqp u 1.
Proof. intros H. apply Equals_reduced; [exact H | apply reduced_SetInt; lia]. Qed.

Lemma double_jac p a : jac p a -> on_curve a -> jac (doubleJacobian p) (double_affine a).
Proof.
  destruct p as [[x y] z]. intros Hj Hc. cbv beta iota delta [doubleJacobian].
  destruct a as [[X Y] |].
  2:{ replace (IsZero y || IsZero z) with true; [exact jac_infinity |]. symmetry. apply orb_true_iff.
      rewrite !IsZero_spec. destruct Hj as [_ [? | [_ ?]]]; tauto. }
  assert (IsZero y || IsZero z = false) as ->.
  { apply not_true_is_false. rewrite orb_true_iff, !IsZero_spec. destruct Hj as (_ & Hw & _ & Ey). intros [-> | ->].
    - rewrite Zero_value in Ey. symmetry in Ey. pose proof (on_curve_nonzero _ _ Hc). no_zero Ey.
    - apply Hw. reflexivity. }
  cbv zeta. apply jac_normalize_z in Hj as [Hj Hr]. apply jac_rep in Hj as (Hw & Hx & Hy & Hz).
  set (w := value (Normalize z)) in *. destruct (Equals (Normalize z) fieldOne) eqn:E1.
  - apply Equals_spec in E1. apply (double_jac_some X Y w); [exact Hc | exact Hw |].
    assert (w = 1) as Hw1 by (unfold w; rewrite E1; reflexivity).
    eapply coords_eq; [| | | exact (doubleZ1EqualsOne_rep _ _ x y Hx Hy)]; rewrite Hw1; by_ring.
  - apply (double_jac_some X Y w); [exact Hc | exact Hw |]. apply doubleGeneric_rep; assumption.
Qed.

(** The chord through two points with different abscissas, from their like terms. *)
Lemma sum_jac X1 Y1 X2 Y2 d k U1 S1 U2 S2 p :
  ~ eqp (X2 - X1) 0 -> ~ eqp d 0 -> ~ eqp k 0 ->
  eqp U1 (X1 * (d * d)) -> eqp S1 (Y1 * (d * d * d)) -> eqp U2 (X2 * (d * d)) -> eqp S2 (Y2 * (d * d * d)) ->
  coords (sum_x U1 S1 U2 S2 k) (sum_y U1 S1 U2 S2 k) (k * d * (U2 - U1)) p ->
  jac p (third ((Y2 - Y1) * inv (X2 - X1)) X1 Y1 X2).
Proof.
  intros Hne Hd Hk HU1 HS1 HU2 HS2 Hp. pose proof (inv_correct _ Hne) as Hi. set (i := inv (X2 - X1)) in *. clearbody i.
  apply (third_jac _ _ _ _ (k * (d * d * d) * (X2 - X1)) (k * (d * d * d) * (Y2 - Y1))).
  - replace ((Y2 - Y1) * i * (k * (d * d * d) * (X2 - X1))) with ((Y2 - Y1) * (k * (d * d * d)) * (i * (X2 - X1))) by ring.
    rewrite Hi. by_ring.
  - intros E. no_zero E.
  - revert Hp. unfold sum_y, sum_x. apply coords_eq; rewrite ?HU1, ?HS1, ?HU2, ?HS2; by_ring.
Qed.

(** ** Addition *)

(** Where the like terms agree the points have the same abscissa, and are equal or opposite. *)
Lemma same_x X1 Y1 X2 Y2 :
  on_curve (Some (X1, Y1)) -> on_curve (Some (X2, Y2)) -> eqp X1 X2 ->
  (eqp Y1 Y2 /\ add_affine (Some (X1, Y1)) (Some (X2, Y2)) = double_affine (Some (X1, Y1))) \/
  (~ eqp Y1 Y2 /\ add_affine (Some (X1, Y1)) (Some (X2, Y2)) = None).
Proof.
  intros (Hx1 & Hy1 & _) (Hx2 & Hy2 & _) E. apply eqp_small in E as ->; [| assumption ..].
  cbn [add_affine]. rewrite Z.eqb_refl. destruct (Z.eqb_spec Y1 Y2) as [-> | Hne]; [left | right]; (split; [| reflexivity]).
  - reflexivity.
  - intros E. exact (Hne (eqp_small _ _ Hy1 Hy2 E)).
Qed.

Lemma different_x X1 Y1 X2 Y2 :
  on_curve (Some (X1, Y1)) -> on_curve (Some (X2, Y2)) -> ~ eqp X1 X2 ->
  ~ eqp (X2 - X1) 0 /\
  add_affine (Some (X1, Y1)) (Some (X2, Y2)) = third ((Y2 - Y1) * inv (X2 - X1)) X1 Y1 X2.
Proof.
  intros _ _ Hne. split; [intros E; apply Hne; symmetry; apply eqp_sub_zero; exact E |].
  cbn [add_affine]. destruct (Z.eqb_spec X1 X2) as [-> |]; [destruct Hne; reflexivity | reflexivity].
Qed.

(** Like terms over a common denominator [d] compare as the coordinates do. *)
Lemma like_terms a b d u v : ~ eqp d 0 -> eqp u (a * d) -> eqp v (b * d) -> eqp u v <-> eqp a b.
Proof. intros Hd -> ->. split; [apply eqp_cancel; exact Hd | intros ->; reflexivity]. Qed.

(** Normalising the coordinates keeps what a point stands for. *)
Lemma jac_reduced x y z x' y' X Y :
  jac (x, y, z) (Some (X, Y)) ->
  (let w := value z in reduced (X * (w * w)) x' /\ reduced (Y * (w * w * w)) y') -> jac (x', y', z) (Some (X, Y)).
Proof.
  intros ((_ & _ & Mz) & Hw & _ & _) [HX HY]. pose proof (reduced_rep _ _ HX) as [MX EX].
  pose proof (reduced_rep _ _ HY) as [MY EY].
  split; [split; [exact MX | split; [apply (mag_weaken 1); [lia | exact MY] | exact Mz]] |].
  split; [exact Hw | split; assumption].
Qed.

#[global] Instance eqp_dec a b : Decision (eqp a b) := decide (a mod P = b mod P).

(** The three cases of an addition, told by the like terms over the common denominator [d]. *)
Lemma add_cases X1 Y1 X2 Y2 d k U1 S1 U2 S2 p :
  on_curve (Some (X1, Y1)) -> on_curve (Some (X2, Y2)) -> ~ eqp d 0 -> ~ eqp k 0 ->
  eqp U1 (X1 * (d * d)) -> eqp S1 (Y1 * (d * d * d)) -> eqp U2 (X2 * (d * d)) -> eqp S2 (Y2 * (d * d * d)) ->
  (~ eqp U1 U2 -> coords (sum_x U1 S1 U2 S2 k) (sum_y U1 S1 U2 S2 k) (k * d * (U2 - U1)) p) ->
  (eqp U1 U2 -> eqp S1 S2 -> jac p (double_affine (Some (X1, Y1)))) ->
  (eqp U1 U2 -> ~ eqp S1 S2 -> jac p None) ->
  jac p (add_affine (Some (X1, Y1)) (Some (X2, Y2))).
Proof.
  intros C1 C2 Hd Hk HU1 HS1 HU2 HS2 Hsum Hdouble Hinf.
  assert (eqp U1 U2 <-> eqp X1 X2) as Hu by (apply (like_terms _ _ (d * d)); [intros E; no_zero E | assumption ..]).
  assert (eqp S1 S2 <-> eqp Y1 Y2) as Hs by (apply (like_terms _ _ (d * d * d)); [intros E; no_zero E | assumption ..]).
  destruct (decide (eqp X1 X2)) as [E | E].
  - destruct (same_x X1 Y1 X2 Y2 C1 C2 E) as [[Ey ->] | [Ey ->]]; [apply Hdouble | apply Hinf]; tauto.
  - destruct (different_x X1 Y1 X2 Y2 C1 C2 E) as [Hne ->]. apply (sum_jac X1 Y1 X2 Y2 d k U1 S1 U2 S2); try assumption. apply Hsum. tauto.
Qed.

Definition stands_for (a : affine) (p : point) : Prop := jac p a.

(** Takes the branch of a comparison of normalised terms. *)
Ltac take_equal E :=
  match goal with |- context [if Equals ?f ?g then _ else _] =>
    replace (Equals f g) with true by (symmetry; eapply Equals_reduced; [eassumption | eassumption | exact E])
  end.
Ltac take_unequal E :=
  match goal with |- context [if Equals ?f ?g then _ else _] =>
    replace (Equals f g) with false by
      (symmetry; apply not_true_is_false; intros Eq; apply E; revert Eq; apply Equals_reduced; assumption)
  end.

Lemma run_method a p : stands_for a p -> jac p a.
Proof. exact id. Qed.

Lemma addGeneric_jac x1 y1 z1 x2 y2 z2 X1 Y1 X2 Y2 :
  jac (x1, y1, z1) (Some (X1, Y1)) -> jac (x2, y2, z2) (Some (X2, Y2)) ->
  on_curve (Some (X1, Y1)) -> on_curve (Some (X2, Y2)) ->
  jac (addGeneric x1 y1 z1 x2 y2 z2) (add_affine (Some (X1, Y1)) (Some (X2, Y2))).
Proof.
  intros J1 J2 C1 C2.
  pose proof (jac_rep _ _ _ _ _ J1) as (Hw1 & Hx1 & Hy1 & Hz1). pose proof (jac_rep _ _ _ _ _ J2) as (Hw2 & Hx2 & Hy2 & Hz2).
  set (w1 := value z1) in *. set (w2 := value z2) in *.
  eapply (add_cases _ _ _ _ (w1 * w2) 2); [exact C1 | exact C2 | intros E; no_zero E | exact two_nonzero | | | | | intros E | intros E Es | intros E Es].
  5:{ eapply addGeneric_rep; eassumption. }
  5,6: apply run_method; cbv beta iota delta [addGeneric]; do 6 rep_let; take_equal E.
  5: take_equal Es; apply double_jac; assumption.
  5: take_unequal Es; exact jac_infinity.
  all: by_ring.
Qed.

Lemma addZ2EqualsOne_jac x1 y1 z1 x2 y2 z2 X1 Y1 X2 Y2 :
  jac (x1, y1, z1) (Some (X1, Y1)) -> jac (x2, y2, z2) (Some (X2, Y2)) -> value z2 = 1 ->
  on_curve (Some (X1, Y1)) -> on_curve (Some (X2, Y2)) ->
  jac (addZ2EqualsOne x1 y1 z1 x2 y2) (add_affine (Some (X1, Y1)) (Some (X2, Y2))).
Proof.
  intros J1 J2 Hw2 C1 C2.
  pose proof (jac_rep _ _ _ _ _ J1) as (Hw1 & Hx1 & Hy1 & Hz1). pose proof (jac_rep _ _ _ _ _ J2) as (_ & Hx2 & Hy2 & _).
  cbv zeta in *. rewrite Hw2 in *. set (w1 := value z1) in *.
  eapply (add_cases _ _ _ _ w1 2); [exact C1 | exact C2 | exact Hw1 | exact two_nonzero | | | | | intros E | intros E Es | intros E Es].
  5:{ eapply addZ2EqualsOne_rep; eassumption. }
  5,6: apply run_method; cbv beta iota delta [addZ2EqualsOne]; rep_let; clear Hx1; rep_let; clear Hy1; do 3 rep_let; take_equal E.
  5: take_equal Es; apply double_jac; [eapply jac_reduced; [eassumption | split; assumption] | assumption].
  5: take_unequal Es; exact jac_infinity.
  all: by_ring.
Qed.

(** The two methods that also normalise the second point, apart: their results, and what they
    leave of the second point. *)
Definition first_stands_for (a : affine) (r : point * (fieldVal * fieldVal)) : Prop := jac (fst r) a.
Lemma run_first a r : first_stands_for a r -> jac (fst r) a.
Proof. exact id. Qed.

Definition second_reduced (u2 v2 : Z) (r : point * (fieldVal * fieldVal)) : Prop :=
  reduced u2 (fst (snd r)) /\ reduced v2 (snd (snd r)).

Lemma coords2_coords X Y Z u2 v2 r : coords2 X Y Z u2 v2 r -> coords X Y Z (fst r).
Proof. destruct r as [p [x2 y2]]. intros [H _]. exact H. Qed.

Ltac normalize_points H1 H2 H3 H4 :=
  rep_let; clear H1; rep_let; clear H2; rep_let; clear H3; rep_let; clear H4.
Ltac second_point H1 H2 H3 H4 :=
  normalize_points H1 H2 H3 H4;
  repeat match goal with |- context [if ?b then _ else _] => destruct b end; split; assumption.

Lemma addZ1EqualsZ2_second u1 v1 u2 v2 x1 y1 z1 x2 y2 :
  rep 1 u1 x1 -> rep 2 v1 y1 -> rep 1 u2 x2 -> rep 2 v2 y2 -> second_reduced u2 v2 (addZ1EqualsZ2 x1 y1 z1 x2 y2).
Proof. intros H1 H2 H3 H4. cbv beta iota delta [addZ1EqualsZ2]. second_point H1 H2 H3 H4. Qed.

Lemma addZ1AndZ2EqualsOne_second u1 v1 u2 v2 x1 y1 z1 x2 y2 :
  rep 1 u1 x1 -> rep 2 v1 y1 -> rep 1 u2 x2 -> rep 2 v2 y2 -> second_reduced u2 v2 (addZ1AndZ2EqualsOne x1 y1 z1 x2 y2).
Proof. intros H1 H2 H3 H4. cbv beta iota delta [addZ1AndZ2EqualsOne]. second_point H1 H2 H3 H4. Qed.

Lemma addZ1EqualsZ2_jac x1 y1 z1 x2 y2 X1 Y1 X2 Y2 :
  jac (x1, y1, z1) (Some (X1, Y1)) -> jac (x2, y2, z1) (Some (X2, Y2)) ->
  on_curve (Some (X1, Y1)) -> on_curve (Some (X2, Y2)) ->
  first_stands_for (add_affine (Some (X1, Y1)) (Some (X2, Y2))) (addZ1EqualsZ2 x1 y1 z1 x2 y2).
Proof.
  intros J1 J2 C1 C2.
  pose proof (jac_rep _ _ _ _ _ J1) as (Hw1 & Hx1 & Hy1 & Hz1). pose proof (jac_rep _ _ _ _ _ J2) as (_ & Hx2 & Hy2 & _).
  set (w1 := value z1) in *.
  eapply (add_cases _ _ _ _ w1 1); [exact C1 | exact C2 | exact Hw1 | vm_compute; discriminate | | | | | intros E | intros E Es | intros E Es].
  5:{ eapply coords2_coords, addZ1EqualsZ2_rep; eassumption. }
  5,6: apply run_first;
       cbv beta iota delta [addZ1EqualsZ2]; normalize_points Hx1 Hy1 Hx2 Hy2; take_equal E.
  5: take_equal Es; apply double_jac; [eapply jac_reduced; [eassumption | split; assumption] | assumption].
  5: take_unequal Es; exact jac_infinity.
  all: reflexivity.
Qed.

Lemma addZ1AndZ2EqualsOne_jac x1 y1 z1 x2 y2 z2 X1 Y1 X2 Y2 :
  jac (x1, y1, z1) (Some (X1, Y1)) -> jac (x2, y2, z2) (Some (X2, Y2)) -> value z1 = 1 -> value z2 = 1 ->
  on_curve (Some (X1, Y1)) -> on_curve (Some (X2, Y2)) ->
  first_stands_for (add_affine (Some (X1, Y1)) (Some (X2, Y2))) (addZ1AndZ2EqualsOne x1 y1 z1 x2 y2).
Proof.
  intros J1 J2 Hw1 Hw2 C1 C2.
  pose proof (jac_rep _ _ _ _ _ J1) as (_ & Hx1 & Hy1 & _). pose proof (jac_rep _ _ _ _ _ J2) as (_ & Hx2 & Hy2 & _).
  cbv zeta in *. rewrite Hw1 in Hx1, Hy1. rewrite Hw2 in Hx2, Hy2.
  eapply (add_cases _ _ _ _ 1 2); [exact C1 | exact C2 | vm_compute; discriminate | exact two_nonzero | | | | | intros E | intros E Es | intros E Es].
  5:{ eapply coords2_coords, addZ1AndZ2EqualsOne_rep; eassumption. }
  5,6: apply run_first;
       cbv beta iota delta [addZ1AndZ2EqualsOne]; normalize_points Hx1 Hy1 Hx2 Hy2; take_equal E.
  5: take_equal Es; apply double_jac; [eapply jac_reduced; [eassumption | rewrite Hw1; split; assumption] | assumption].
  5: take_unequal Es; exact jac_infinity.
  all: reflexivity.
Qed.

(** The test for the point at infinity. *)
Lemma jac_zero x y z a :
  jac (x, y, z) a -> on_curve a -> (IsZero x && IsZero y) || IsZero z = bool_decide (a = None).
Proof.
  intros (_ & H) Hc. apply eq_true_iff_eq. rewrite orb_true_iff, andb_true_iff, !IsZero_spec, bool_decide_eq_true.
  destruct a as [[X Y] |]; [| split; [reflexivity | tauto]]. split; [| discriminate]. destruct H as (Hw & _ & Ey).
  intros [[_ ->] | ->]; exfalso; [| apply Hw; reflexivity].
  rewrite Zero_value in Ey. symmetry in Ey. pose proof (on_curve_nonzero _ _ Hc). no_zero Ey.
Qed.

(** Both results of an addition. *)
Definition sum_stands_for (a b : affine) (r : point * point) : Prop := jac (fst r) (add_affine a b) /\ jac (snd r) b.

Lemma sum_first a b z2 (r : point * (fieldVal * fieldVal)) x2 y2 X2 Y2 :
  first_stands_for (add_affine a b) r -> b = Some (X2, Y2) -> jac (x2, y2, z2) b ->
  (let w := value z2 in second_reduced (X2 * (w * w)) (Y2 * (w * w * w)) r) ->
  sum_stands_for a b (let '(p3, (x2, y2)) := r in (p3, (x2, y2, z2))).
Proof.
  intros Hf -> Hj Hr. destruct r as [p3 [x2' y2']]. split; [exact Hf |]. eapply jac_reduced; [exact Hj | exact Hr].
Qed.

Lemma one_value f : Equals f fieldOne = true -> value f = 1.
Proof. rewrite Equals_spec. intros ->. reflexivity. Qed.

Lemma add_jac p1 p2 a b :
  jac p1 a -> jac p2 b -> on_curve a -> on_curve b -> sum_stands_for a b (addJacobian p1 p2).
Proof.
  destruct p1 as [[x1 y1] z1], p2 as [[x2 y2] z2]. intros J1 J2 C1 C2. cbv beta iota delta [addJacobian].
  rewrite (jac_zero _ _ _ _ J1 C1), (jac_zero _ _ _ _ J2 C2).
  destruct a as [[X1 Y1] |]; [| split; exact J2]. destruct b as [[X2 Y2] |]; [| split; [exact J1 | exact J2]].
  cbn [bool_decide]. rewrite !bool_decide_false by discriminate. cbv zeta.
  apply jac_normalize_z in J1 as [J1 _], J2 as [J2 _].
  set (w1 := Normalize z1) in *. set (w2 := Normalize z2) in *. clearbody w1 w2.
  pose proof (jac_rep _ _ _ _ _ J1) as (_ & Hx1 & Hy1 & _). pose proof (jac_rep _ _ _ _ _ J2) as (_ & Hx2 & Hy2 & _).
  destruct (Equals w1 fieldOne && Equals w2 fieldOne) eqn:E.
  { apply andb_true_iff in E as [E1 E2]. eapply sum_first; [| reflexivity | exact J2 | exact (addZ1AndZ2EqualsOne_second _ _ _ _ _ _ _ _ _ Hx1 Hy1 Hx2 Hy2)].
    eapply addZ1AndZ2EqualsOne_jac; eauto using one_value. }
  destruct (Equals w1 w2) eqn:E'.
  { apply Equals_spec in E' as ->. eapply sum_first; [| reflexivity | exact J2 | exact (addZ1EqualsZ2_second _ _ _ _ _ _ _ _ _ Hx1 Hy1 Hx2 Hy2)].
    apply addZ1EqualsZ2_jac; assumption. }
  destruct (Equals w2 fieldOne) eqn:E2; (split; [| exact J2]).
  - eapply addZ2EqualsOne_jac; eauto using one_value.
  - apply addGeneric_jac; assumption.
Qed.

(** ** Back to affine coordinates *)

Definition of_affine (a : affine) : Z * Z := match a with None => (0, 0) | Some q => q end.

Lemma value_Bytes v f : reduced v f -> be_decode (Bytes f) = v mod P.
Proof. intros [Hn <-]. apply PutBytes_spec. exact Hn. Qed.

(** Dividing the coordinates by the powers of [z]; the inverse of zero is zero. *)
Lemma scale_back X Y x y w :
  on_curve (Some (X, Y)) -> ~ eqp w 0 -> eqp x (X * (w * w)) -> eqp y (Y * (w * w * w)) ->
  let i := w ^ (P - 2) in (x * (i * i)) mod P = X /\ (y * (i * i * i)) mod P = Y.
Proof.
  intros (HX & HY & _) Hw Ex Ey i. pose proof (inverse_correct w Hw) as Hi. fold i in Hi. clearbody i.
  split; (apply eqp_small; [apply Z.mod_pos_bound; reflexivity | assumption | rewrite eqp_mod]).
  - rewrite Ex. replace (X * (w * w) * (i * i)) with (X * (i * w) * (i * w)) by ring. rewrite Hi. by_ring.
  - rewrite Ey. replace (Y * (w * w * w) * (i * i * i)) with (Y * (i * w) * (i * w) * (i * w)) by ring. rewrite Hi. by_ring.
Qed.

Definition affine_is (a : affine) (q : Z * Z) : Prop := q = of_affine a.

Lemma toBigAffine_spec p a : jac p a -> on_curve a -> affine_is a (fieldJacobianToBigAffine p).
Proof.
  destruct p as [[x y] z]. intros Hj Hc. pose proof Hj as ((Mx & My & Mz) & H).
  assert (rep 1 (value z) z) as Rz by (split; [exact Mz | reflexivity]).
  pose proof (Inverse_spec _ _ (rep_weaken 1 8 _ _ Rz ltac:(lia))) as Ri.
  assert (rep 1 (value x) x) as Rx by (split; [exact Mx | reflexivity]).
  assert (rep 2 (value y) y) as Ry by (split; [exact My | reflexivity]).
  cbv beta iota delta [fieldJacobianToBigAffine]. elim_let i Hi. rewrite <- Hi in Ri. clear Hi.
  rep_let. rep_let. rep_let. clear Rx Ry. rep_let. rep_let. unfold affine_is.
  rewrite (value_Bytes _ _ N), (value_Bytes _ _ N0). clear - H Hc. destruct a as [[X Y] |]; cbn [of_affine].
  - destruct H as (Hw & Ex & Ey). destruct (scale_back X Y _ _ _ Hc Hw Ex Ey) as [-> ->]. reflexivity.
  - destruct H as [-> | [-> ->]]; rewrite Zero_value; [| reflexivity].
    rewrite Z.pow_0_l by reflexivity. rewrite !Z.mul_0_r. reflexivity.
Qed.

(** ** The methods on big integers *)

Lemma bigAffineToField_spec {E} x y :
  0 <= x < 2 ^ 256 -> 0 <= y < 2 ^ 256 ->
  exists fx fy, bigAffineToField (E := E) x y = Ret (fx, fy) /\ (mag 1 fx /\ value fx = x) /\ (mag 1 fy /\ value fy = y).
Proof.
  intros Hx Hy.
  destruct (SetByteSlice_rep (E := E) (big_Bytes x)) as (fx & Hfx & Mx & Vx); [apply big_Bytes_bound; lia | apply be_encode_ok |].
  destruct (SetByteSlice_rep (E := E) (big_Bytes y)) as (fy & Hfy & My & Vy); [apply big_Bytes_bound; lia | apply be_encode_ok |].
  exists fx, fy. unfold bigAffineToField. rewrite Hfx. cbn. rewrite Hfy. cbn. rewrite be_decode_big_Bytes in Vx, Vy by lia.
  split; [reflexivity |]. split; split; assumption.
Qed.

(** A point below the prime with [z = 1]. *)
Lemma jac_one X Y fx fy :
  on_curve (Some (X, Y)) -> mag 1 fx /\ value fx = X -> mag 1 fy /\ value fy = Y -> jac (fx, fy, SetInt 1) (Some (X, Y)).
Proof.
  intros _ [Mx <-] [My <-]. destruct (SetInt_spec 1 ltac:(lia)) as [Hn Hv].
  split; [split; [exact Mx | split; [apply (mag_weaken 1); [lia | exact My] | exact (normal_mag _ Hn)]] |].
  rewrite Hv. split; [vm_compute; discriminate | split; by_ring].
Qed.

Lemma on_curve_bound X Y : on_curve (Some (X, Y)) -> 0 <= X < 2 ^ 256 /\ 0 <= Y < 2 ^ 256.
Proof. intros (HX & HY & _). unfold P in *. lia. Qed.

Lemma on_curve_not_origin X Y : on_curve (Some (X, Y)) -> (X =? 0) && (Y =? 0) = false.
Proof.
  intros Hc. apply not_true_is_false. rewrite andb_true_iff, !Z.eqb_eq. intros [-> ->].
  exact (on_curve_nonzero _ _ Hc eq_refl).
Qed.

Lemma Add_spec {E} a b :
  on_curve a -> on_curve b ->
  Curve.Add (E := E) (fst (of_affine a)) (snd (of_affine a)) (fst (of_affine b)) (snd (of_affine b)) =
  Ret (of_affine (add_affine a b)).
Proof.
  intros Ha Hb. unfold Curve.Add. destruct a as [[X1 Y1] |]; [| destruct b as [[]|]; reflexivity].
  cbn [of_affine fst snd]. rewrite (on_curve_not_origin _ _ Ha).
  destruct b as [[X2 Y2] |]; [| reflexivity]. cbn [of_affine fst snd]. rewrite (on_curve_not_origin _ _ Hb).
  destruct (bigAffineToField_spec (E := E) X1 Y1) as (fx1 & fy1 & -> & Vx1 & Vy1); [apply (on_curve_bound _ _ Ha) .. |].
  destruct (bigAffineToField_spec (E := E) X2 Y2) as (fx2 & fy2 & -> & Vx2 & Vy2); [apply (on_curve_bound _ _ Hb) .. |].
  cbn [mbind outcome_bind]. pose proof (add_jac _ _ _ _ (jac_one _ _ _ _ Ha Vx1 Vy1) (jac_one _ _ _ _ Hb Vx2 Vy2) Ha Hb) as [H _].
  destruct (addJacobian _ _) as [p3 p2]. f_equal. exact (toBigAffine_spec _ _ H (add_on_curve _ _ Ha Hb)).
Qed.

Lemma Double_spec {E} a :
  on_curve a -> Double (E := E) (fst (of_affine a)) (snd (of_affine a)) = Ret (of_affine (double_affine a)).
Proof.
  intros Ha. unfold Double. destruct a as [[X Y] |]; [| reflexivity]. cbn [of_affine fst snd].
  destruct (Z.eqb_spec Y 0) as [-> |]; [reflexivity |].
  destruct (bigAffineToField_spec (E := E) X Y) as (fx & fy & -> & Vx & Vy); [apply (on_curve_bound _ _ Ha) .. |].
  cbn [mbind outcome_bind]. f_equal. apply (toBigAffine_spec _ _ (double_jac _ _ (jac_one _ _ _ _ Ha Vx Vy) Ha) (double_on_curve _ Ha)).
Qed.

(** [IsOnCurve] decides the equation of the curve for coordinates of 256 bits. *)
Lemma IsOnCurve_spec {E} x y :
  0 <= x < 2 ^ 256 -> 0 <= y < 2 ^ 256 ->
  exists b, IsOnCurve (E := E) x y = Ret b /\ (b = true <-> eqp (y * y) (x * x * x + 7)).
Proof.
  intros Hx Hy. unfold IsOnCurve. destruct (bigAffineToField_spec (E := E) x y Hx Hy) as (fx & fy & -> & [Mx Vx] & [My Vy]).
  assert (rep 1 x fx) as Rx by (split; [exact Mx | rewrite Vx; reflexivity]).
  assert (rep 1 y fy) as Ry by (split; [exact My | rewrite Vy; reflexivity]).
  cbn [mbind outcome_bind]. eexists. split; [reflexivity |]. apply Equals_reduced.
  - let p := rep_of (SquareVal fy) in exact (rep_reduced _ _ _ p ltac:(lia)).
  - let p := rep_of (AddInt (Mul (SquareVal fx) fx) 7) in exact (rep_reduced _ _ _ p ltac:(lia)).
Qed.

(** * Summary *)

(** C35: for points of the curve, the point at infinity being [(0, 0)], [Add] and [Double] return
    the chord-and-tangent sum, by whichever of the formulas for general, equal or unit denominators
    the code selects; they do not panic, the results are on the curve again, and [IsOnCurve] decides
    the equation of the curve for coordinates of 256 bits. *)
Theorem curve_group_law {E} (a b : affine) (x y : Z) :
  on_curve a -> on_curve b -> 0 <= x < 2 ^ 256 -> 0 <= y < 2 ^ 256 ->
  let '(x1, y1) := of_affine a in
  let '(x2, y2) := of_affine b in
  Curve.Add (E := E) x1 y1 x2 y2 = Ret (of_affine (add_affine a b)) /\
  Double (E := E) x1 y1 = Ret (of_affine (double_affine a)) /\
  on_curve (add_affine a b) /\ on_curve (double_affine a) /\
  exists r, IsOnCurve (E := E) x y = Ret r /\ (r = true <-> (y * y) mod P = (x * x * x + 7) mod P).
Proof.
  intros Ha Hb Hx Hy. pose proof (Add_spec (E := E) a b Ha Hb) as H1. pose proof (Double_spec (E := E) a Ha) as H2.
  pose proof (IsOnCurve_spec (E := E) x y Hx Hy) as H3. destruct (of_affine a) as [x1 y1], (of_affine b) as [x2 y2].
  cbn [fst snd] in *. split; [exact H1 |]. split; [exact H2 |].
  split; [exact (add_on_curve _ _ Ha Hb) |]. split; [exact (double_on_curve _ Ha) | exact H3].
Qed.

(** The generator and the infinite point. *)
Lemma generator_on_curve : on_curve (Some (Gx secp256k1, Gy secp256k1)).
Proof. repeat split; vm_compute; (reflexivity || discriminate). Qed.

Lemma curve_group_law_witness :
  Curve.Add (E := unit) (Gx secp256k1) (Gy secp256k1) 0 0 = Ret (Gx secp256k1, Gy secp256k1) /\
  exists r, IsOnCurve (E := unit) 1 2 = Ret r /\ (r = true <-> 4 mod P = 8 mod P).
Proof.
  pose proof (curve_group_law (E := unit) (Some (Gx secp256k1, Gy secp256k1)) None 1 2 generator_on_curve I
                ltac:(lia) ltac:(lia)) as (H1 & _ & _ & _ & H2).
  split; [exact H1 | exact H2].
Defined.
