(* ===== verification/ScalarSpec.v ===== *)
(** Correctness of scalar multiplication: the non-adjacent form of a scalar, its decomposition
    along the endomorphism, and the double-and-add loop over both halves. *)

From Stdlib Require Import ZArith Lia Zdiv Setoid Zpow_facts.
From S2P Require Import Prelude Amount Primality Field FieldSpec Curve CurveSpec.

Import Field Curve.

#[local] Existing Instances eqm_setoid Zplus_eqm Zminus_eqm Zmult_eqm Zopp_eqm.

(** * The non-adjacent form *)

(** A position with a digit other than zero. *)
Definition occupied (pos neg i : Z) : bool := Z.testbit pos i || Z.testbit neg i.

(** No position is in both forms, and of two neighbouring positions one is free. *)
Definition non_adjacent (pos neg : Z) : Prop :=
  forall i, 0 <= i -> Z.testbit pos i && Z.testbit neg i = false /\ occupied pos neg i && occupied pos neg (i + 1) = false.

(** The loop of [NAF] with its results in the order it produces them. *)
Fixpoint naf_digits (rk : bytes) (carry : bool) : bool * bytes * bytes :=
  match rk with
  | [] => (carry, [], [])
  | curByte :: rk' =>
      let above := match rk' with [] => false | next :: _ => Z.land next 1 =? 1 end in
      let '(carry, pos, neg) := naf_byte 8 0 curByte above (carry, 0, 0) in
      let '(carry, ps, ns) := naf_digits rk' carry in
      (carry, pos :: ps, neg :: ns)
  end.

Lemma naf_loop_digits rk c P N :
  naf_loop rk c P N = let '(c', ps, ns) := naf_digits rk c in (c', rev ps ++ P, rev ns ++ N).
Proof.
  revert c P N. induction rk as [| b rk IH]; intros c P N; [reflexivity |]. cbn [naf_loop naf_digits].
  destruct (naf_byte 8 0 b _ _) as [[c1 p] n]. rewrite IH. destruct (naf_digits rk c1) as [[c' ps] ns].
  cbn [rev]. rewrite <- !app_assoc. reflexivity.
Qed.

(** What one byte contributes. *)
Definition naf_byte_ok (cur : Z) (above c : bool) : bool :=
  let '(c', p, n) := naf_byte 8 0 cur above (c, 0, 0) in
  (p - n + 256 * Z.b2z c' =? cur + Z.b2z c) && (0 <=? p) && (p <? 256) && (0 <=? n) && (n <? 256) &&
  (Z.land p n =? 0) && (Z.land (Z.lor p n) (Z.shiftl (Z.lor p n) 1) =? 0) &&
  implb (Z.testbit (Z.lor p n) 7) (eqb above c') && implb (Z.testbit (Z.lor p n) 0) (negb (eqb (Z.odd cur) c)).

Definition byte_values : list Z := map Z.of_nat (seq 0 256).

Lemma all_naf_bytes :
  forallb (fun cur => naf_byte_ok cur false false && naf_byte_ok cur false true &&
                      naf_byte_ok cur true false && naf_byte_ok cur true true) byte_values = true.
Proof. vm_compute. reflexivity. Qed.

Lemma byte_values_all b : is_byte b -> In b byte_values.
Proof.
  intros Hb. unfold is_byte in Hb. apply in_map_iff. exists (Z.to_nat b). split; [lia |]. apply in_seq. lia.
Qed.

Lemma naf_byte_spec cur above c c' p n :
  is_byte cur -> naf_byte 8 0 cur above (c, 0, 0) = (c', p, n) ->
  p - n + 256 * Z.b2z c' = cur + Z.b2z c /\ is_byte p /\ is_byte n /\ non_adjacent p n /\
  (occupied p n 7 = true -> above = c') /\ (occupied p n 0 = true -> Z.odd cur <> c).
Proof.
  intros Hb E. assert (naf_byte_ok cur above c = true) as H.
  { pose proof all_naf_bytes as Hall. rewrite forallb_forall in Hall. specialize (Hall _ (byte_values_all _ Hb)).
    rewrite !andb_true_iff in Hall. destruct above, c; tauto. }
  unfold naf_byte_ok in H. rewrite E, !andb_true_iff, !implb_true_iff, !Z.eqb_eq, negb_true_iff, eqb_false_iff, eqb_true_iff in H.
  destruct H as ((((((((? & ?) & ?) & ?) & ?) & Hd) & Ha) & H7) & H0).
  split; [assumption |]. split; [unfold is_byte; lia |]. split; [unfold is_byte; lia |].
  unfold occupied. rewrite !Z.lor_spec in H7, H0. split; [| tauto].
  intros i Hi. unfold occupied. split; [rewrite <- Z.land_spec, Hd; apply Z.bits_0 |].
  rewrite <- !Z.lor_spec. apply (f_equal (fun z => Z.testbit z (i + 1))) in Ha.
  rewrite Z.land_spec, Z.shiftl_spec, Z.bits_0 in Ha by lia. replace (i + 1 - 1) with i in Ha by lia.
  rewrite andb_comm. exact Ha.
Qed.

(** ** From bytes to the whole form *)

Lemma testbit_byte p q i :
  is_byte p -> 0 <= q -> 0 <= i -> Z.testbit (p + 256 * q) i = if i <? 8 then Z.testbit p i else Z.testbit q (i - 8).
Proof.
  intros Hp Hq Hi. unfold is_byte in Hp. replace (p + 256 * q) with (Z.lor p (Z.shiftl q 8)) by (rewrite lor_shiftl_add; lia).
  rewrite Z.lor_spec, Z.shiftl_spec by lia. destruct (Z.ltb_spec i 8).
  - rewrite (Z.testbit_neg_r q) by lia. apply orb_false_r.
  - rewrite (Z.bits_above_log2 p i); [reflexivity | lia |]. destruct (Z.eq_dec p 0) as [-> | ?]; [change (Z.log2 0) with 0; lia |].
    apply (Z.lt_le_trans _ 8); [| lia]. apply Z.log2_lt_pow2; lia.
Qed.

Lemma occupied_byte p n ps ns i :
  is_byte p -> is_byte n -> 0 <= ps -> 0 <= ns -> 0 <= i ->
  occupied (p + 256 * ps) (n + 256 * ns) i = if i <? 8 then occupied p n i else occupied ps ns (i - 8).
Proof. intros. unfold occupied. rewrite !testbit_byte by assumption. destruct (i <? 8); reflexivity. Qed.

Lemma non_adjacent_cons p n ps ns :
  is_byte p -> is_byte n -> 0 <= ps -> 0 <= ns -> non_adjacent p n -> non_adjacent ps ns ->
  occupied p n 7 && occupied ps ns 0 = false -> non_adjacent (p + 256 * ps) (n + 256 * ns).
Proof.
  intros Hp Hn Hps Hns H1 H2 H7 i Hi. rewrite !testbit_byte, !occupied_byte by (assumption || lia).
  destruct (Z.ltb_spec i 8).
  - destruct (H1 i Hi) as [Hd Ha]. split; [exact Hd |]. destruct (Z.ltb_spec (i + 1) 8); [exact Ha |].
    replace i with 7 by lia. exact H7.
  - destruct (H2 (i - 8) ltac:(lia)) as [Hd Ha]. split; [exact Hd |]. destruct (Z.ltb_spec (i + 1) 8); [lia |].
    replace (i + 1 - 8) with (i - 8 + 1) by lia. exact Ha.
Qed.

Lemma le_decode_nonneg l : bytes_ok l -> 0 <= le_decode l.
Proof. intros Hl. apply (le_decode_range l Hl). Qed.

Lemma land_one_odd a : (Z.land a 1 =? 1) = Z.odd a.
Proof. change 1 with (Z.ones 1) at 1. rewrite Z.land_ones, <- Z.bit0_mod, Z.bit0_odd by lia. destruct (Z.odd a); reflexivity. Qed.

Lemma odd_le_decode rk : match rk with [] => false | next :: _ => Z.land next 1 =? 1 end = Z.odd (le_decode rk).
Proof.
  destruct rk as [| b rk]; [reflexivity |]. rewrite land_one_odd. cbn [le_decode].
  rewrite Z.odd_add, Z.odd_mul. cbn [Z.odd andb]. rewrite xorb_false_r. reflexivity.
Qed.

Lemma naf_digits_spec rk c c' ps ns :
  bytes_ok rk -> naf_digits rk c = (c', ps, ns) ->
  (len ps = len rk /\ len ns = len rk /\ bytes_ok ps /\ bytes_ok ns) /\
  le_decode ps - le_decode ns + 256 ^ len rk * Z.b2z c' = le_decode rk + Z.b2z c /\
  non_adjacent (le_decode ps) (le_decode ns) /\
  (occupied (le_decode ps) (le_decode ns) 0 = true -> Z.odd (le_decode rk) <> c) /\
  (occupied (le_decode ps) (le_decode ns) (8 * len rk - 1) = true -> c' = false).
Proof.
  revert c c' ps ns. induction rk as [| b rk IH]; intros c c' ps ns Hok E.
  { injection E as <- <- <-. split; [split; [reflexivity | split; [reflexivity | split; constructor]] |].
    change (256 ^ len []) with 1. cbn [le_decode]. split; [lia |]. split; [| split; discriminate].
    intros i Hi. unfold occupied. rewrite !Z.bits_0. split; reflexivity. }
  apply Forall_cons in Hok as [Hb Hok]. cbn [naf_digits] in E. rewrite odd_le_decode in E.
  destruct (naf_byte 8 0 b _ _) as [[c1 p] n] eqn:Eb. destruct (naf_digits rk c1) as [[c2 ps'] ns'] eqn:Er.
  injection E as <- <- <-. specialize (IH _ _ _ _ Hok Er) as ((Lp & Ln & Op & On) & Hv & Hna & H0 & Htop).
  destruct (naf_byte_spec _ _ _ _ _ _ Hb Eb) as (Hbv & Hp & Hn & Hbna & Hb7 & Hb0).
  pose proof (le_decode_nonneg _ Op) as Pp. pose proof (le_decode_nonneg _ On) as Pn.
  rewrite !len_cons. pose proof (len_nonneg rk).
  split; [split; [lia | split; [lia | split; constructor; assumption]] |].
  cbn [le_decode]. split; [rewrite Z.pow_add_r, Z.pow_1_r by lia; lia |].
  split; [apply non_adjacent_cons; try assumption |].
  { apply not_true_is_false. rewrite andb_true_iff. intros [E7 E0]. exact (H0 E0 (Hb7 E7)). }
  rewrite !occupied_byte by (assumption || lia). split; [intros E0 |].
  - rewrite Z.odd_add, Z.odd_mul. cbn [Z.odd andb]. rewrite xorb_false_r. exact (Hb0 E0).
  - destruct (Z.ltb_spec (8 * (1 + len rk) - 1) 8).
    + assert (rk = []) as -> by (destruct rk; [reflexivity | rewrite len_cons in *; pose proof (len_nonneg rk); lia]).
      injection Er as <- <- <-. intros E7. symmetry. exact (Hb7 E7).
    + replace (8 * (1 + len rk) - 1 - 8) with (8 * len rk - 1) by lia. exact Htop.
Qed.

(** The carry out of the first byte. *)
Lemma testbit_top p m i : 0 <= m -> 0 <= p < 2 ^ m -> 0 <= i -> Z.testbit (p + 2 ^ m) i = Z.testbit p i || (m =? i).
Proof.
  intros Hm Hp Hi. replace (p + 2 ^ m) with (Z.lor p (Z.shiftl 1 m)) by (rewrite lor_shiftl_add; lia).
  rewrite Z.lor_spec, Z.shiftl_1_l, Z.pow2_bits_eqb by assumption. reflexivity.
Qed.

Lemma testbit_above p m i : 0 <= m -> 0 <= p < 2 ^ m -> m <= i -> Z.testbit p i = false.
Proof.
  intros Hm Hp Hi. destruct (Z.eq_dec p 0) as [-> | ?]; [apply Z.bits_0 |]. apply Z.bits_above_log2; [lia |].
  apply (Z.lt_le_trans _ m); [| exact Hi]. apply Z.log2_lt_pow2; lia.
Qed.

Lemma non_adjacent_top ps ns m :
  0 <= m -> 0 <= ps < 2 ^ m -> 0 <= ns < 2 ^ m -> non_adjacent ps ns -> occupied ps ns (m - 1) = false ->
  non_adjacent (ps + 2 ^ m) ns.
Proof.
  intros Hm Hp Hn Hna Htop i Hi. unfold occupied in *. rewrite !testbit_top by (assumption || lia).
  destruct (Z.eqb_spec m i) as [-> | ?].
  - rewrite !(testbit_above ps i), !(testbit_above ns i) by lia. destruct (Z.eqb_spec i (i + 1)); [lia |]. split; reflexivity.
  - destruct (Hna i Hi) as [Hd Ha]. unfold occupied in Ha. rewrite !orb_false_r. split; [exact Hd |].
    destruct (Z.eqb_spec m (i + 1)) as [-> | ?]; [| rewrite orb_false_r; exact Ha].
    replace (i + 1 - 1) with i in Htop by lia. rewrite Htop. reflexivity.
Qed.

Lemma NAF_spec k pos neg :
  bytes_ok k -> NAF k = (pos, neg) ->
  len pos = len neg /\ len k <= len pos <= len k + 1 /\ bytes_ok pos /\ bytes_ok neg /\
  be_decode pos - be_decode neg = be_decode k /\ non_adjacent (be_decode pos) (be_decode neg).
Proof.
  intros Hok E. unfold NAF in E. rewrite naf_loop_digits in E.
  destruct (naf_digits (rev k) false) as [[c ps] ns] eqn:Ed. rewrite !app_nil_r in E.
  destruct (naf_digits_spec _ _ _ _ _ (Forall_rev Hok) Ed) as ((Lp & Ln & Op & On) & Hv & Hna & _ & Htop).
  rewrite be_decode_rev. unfold len in *. rewrite length_rev in *. pose proof (le_decode_range _ Op) as Rp.
  pose proof (le_decode_range _ On) as Rn. unfold len in *. rewrite Lp in Rp. rewrite Ln in Rn.
  replace (256 ^ Z.of_nat (length k)) with (2 ^ (8 * Z.of_nat (length k))) in *
    by (rewrite Z.pow_mul_r by lia; reflexivity).
  destruct c; injection E as <- <-; cbn [length]; rewrite !length_rev, ?Nat2Z.inj_succ.
  - rewrite !be_decode_rev. cbn [rev]. rewrite !rev_involutive, !le_decode_app. cbn [le_decode].
    unfold len. rewrite Lp, Ln. change 256 with (2 ^ 8). rewrite <- Z.pow_mul_r by lia.
    rewrite !Z.mul_0_r, !Z.add_0_r, Z.mul_1_r, ?Z.mul_0_r, ?Z.add_0_r.
    split; [lia |]. split; [lia |].
    split; [constructor; [unfold is_byte; lia | apply Forall_rev; exact Op] |].
    split; [constructor; [unfold is_byte; lia | apply Forall_rev; exact On] |].
    split; [cbn [Z.b2z] in Hv; lia |]. apply non_adjacent_top; try assumption; [lia |].
    apply not_true_is_false. intros E. discriminate (Htop E).
  - rewrite !be_decode_rev, !rev_involutive. split; [lia |]. split; [lia |].
    split; [apply Forall_rev; exact Op |]. split; [apply Forall_rev; exact On |].
    split; [cbn [Z.b2z] in Hv; lia | exact Hna].
Qed.

(** * The decomposition along the endomorphism *)

Abbreviation N := (curve_N secp256k1).

Lemma lattice :
  (a1 secp256k1 + b1 secp256k1 * lambda secp256k1) mod N = 0 /\ (a2 secp256k1 + b2 secp256k1 * lambda secp256k1) mod N = 0 /\
  a1 secp256k1 * b2 secp256k1 - a2 secp256k1 * b1 secp256k1 = N.
Proof. vm_compute. repeat split; reflexivity. Qed.

Lemma splitK_spec k :
  exists k1 k2,
    splitK secp256k1 k = (big_Bytes k1, big_Bytes k2, Z.sgn k1, Z.sgn k2) /\
    (k1 + k2 * lambda secp256k1) mod N = be_decode k mod N /\
    - a2 secp256k1 < k1 < a1 secp256k1 /\ b1 secp256k1 - b2 secp256k1 < k2 <= 0.
Proof.
  set (c := be_decode k). set (c1 := b2 secp256k1 * c / N). set (c2 := b1 secp256k1 * c / N).
  exists (c - c1 * a1 secp256k1 + c2 * a2 secp256k1), (c2 * b2 secp256k1 - c1 * b1 secp256k1).
  split; [reflexivity |]. assert (0 < N) as HN by reflexivity.
  pose proof (Z.div_mod (b2 secp256k1 * c) N ltac:(lia)) as E1. pose proof (Z.mod_pos_bound (b2 secp256k1 * c) N HN) as B1.
  pose proof (Z.div_mod (b1 secp256k1 * c) N ltac:(lia)) as E2. pose proof (Z.mod_pos_bound (b1 secp256k1 * c) N HN) as B2.
  fold c1 in E1. fold c2 in E2. clearbody c c1 c2. destruct lattice as (L1 & L2 & L3).
  split.
  - apply Z.mod_divide in L1 as [q1 L1], L2 as [q2 L2]; [| lia ..].
    match goal with |- ?l mod _ = _ =>
      replace l with (c - c1 * (a1 secp256k1 + b1 secp256k1 * lambda secp256k1) + c2 * (a2 secp256k1 + b2 secp256k1 * lambda secp256k1)) by ring
    end.
    rewrite L1, L2. replace (c - c1 * (q1 * N) + c2 * (q2 * N)) with (c + (c2 * q2 - c1 * q1) * N) by ring. apply Z_mod_plus_full.
  - set (r1 := (b2 secp256k1 * c) mod N) in *. set (r2 := (b1 secp256k1 * c) mod N) in *. clearbody r1 r2.
    assert (N * c1 = b2 secp256k1 * c - r1) as F1 by (rewrite E1; ring). assert (N * c2 = b1 secp256k1 * c - r2) as F2 by (rewrite E2; ring).
    assert ((c - c1 * a1 secp256k1 + c2 * a2 secp256k1) * N = r1 * a1 secp256k1 - r2 * a2 secp256k1) as K1.
    { transitivity (c * N - a1 secp256k1 * (N * c1) + a2 secp256k1 * (N * c2)); [ring |]. rewrite F1, F2, <- L3. ring. }
    assert ((c2 * b2 secp256k1 - c1 * b1 secp256k1) * N = r1 * b1 secp256k1 - r2 * b2 secp256k1) as K2.
    { transitivity (b2 secp256k1 * (N * c2) - b1 secp256k1 * (N * c1)); [ring |]. rewrite F1, F2. ring. }
    clear - K1 K2 B1 B2.
    set (k1 := c - c1 * a1 secp256k1 + c2 * a2 secp256k1) in *. set (k2 := c2 * b2 secp256k1 - c1 * b1 secp256k1) in *.
    clearbody k1 k2. unfold secp256k1 in *. cbn [a1 a2 b1 b2 curve_N] in *. lia.
Qed.

(** * The schedule of additions *)

(** The operations a multiplication uses, and the schedule over them: at each position the sum is
    doubled, and each point is added, subtracted or left out. *)
Record group_ops (A : Type) := mkGroup { gzero : A; gadd : A -> A -> A; gdouble : A -> A; gneg : A -> A }.
Arguments gzero {A} _.
Arguments gadd {A} _ _ _.
Arguments gdouble {A} _ _.
Arguments gneg {A} _ _.

Section ladder.
Context {A : Type} (G : group_ops A) (p1 p2 : A) (pos1 neg1 pos2 neg2 : Z).

Definition pick (pos neg : bool) (p : A) : A := if pos then p else if neg then gneg G p else gzero G.

Definition ladder_step (j : Z) (acc : A) : A :=
  gadd G (gadd G (gdouble G acc) (pick (Z.testbit pos1 j) (Z.testbit neg1 j) p1))
    (pick (Z.testbit pos2 j) (Z.testbit neg2 j) p2).

(** Positions [j0 + n - 1] down to [j0]. *)
Fixpoint ladder (n : nat) (j0 : Z) (acc : A) : A :=
  match n with
  | O => acc
  | S n' => ladder n' j0 (ladder_step (j0 + Z.of_nat n') acc)
  end.

Lemma ladder_app m n j0 acc : ladder (m + n) j0 acc = ladder n j0 (ladder m (j0 + Z.of_nat n) acc).
Proof.
  revert acc. induction m as [| m IH]; intros acc; [reflexivity |]. cbn [Nat.add ladder]. rewrite IH. f_equal. f_equal. f_equal.
  rewrite Nat2Z.inj_add. lia.
Qed.
End ladder.

(** In the integers the schedule computes the combination of the points with the scalars. *)
Definition integers : group_ops Z := mkGroup Z 0 Z.add (Z.mul 2) Z.opp.

Lemma testbit_split a j : 0 <= j -> a / 2 ^ j = 2 * (a / 2 ^ (j + 1)) + Z.b2z (Z.testbit a j).
Proof.
  intros Hj. rewrite Z.testbit_spec' by assumption. rewrite Z.pow_add_r, <- Z.div_div by lia. apply Z.div_mod. lia.
Qed.

Lemma pick_integers pos neg j u :
  Z.testbit pos j && Z.testbit neg j = false ->
  pick integers (Z.testbit pos j) (Z.testbit neg j) u = (Z.b2z (Z.testbit pos j) - Z.b2z (Z.testbit neg j)) * u.
Proof. destruct (Z.testbit pos j), (Z.testbit neg j); intros [=]; cbn [pick integers gneg gzero Z.b2z]; lia. Qed.

Lemma ladder_integers u v pos1 neg1 pos2 neg2 n j0 acc :
  0 <= j0 -> non_adjacent pos1 neg1 -> non_adjacent pos2 neg2 ->
  let at_ j := (pos1 / 2 ^ j - neg1 / 2 ^ j) * u + (pos2 / 2 ^ j - neg2 / 2 ^ j) * v in
  acc = at_ (j0 + Z.of_nat n) -> ladder integers u v pos1 neg1 pos2 neg2 n j0 acc = at_ j0.
Proof.
  intros Hj H1 H2 at_. revert acc. induction n as [| n IH]; intros acc Hacc.
  { rewrite Hacc. change (Z.of_nat 0) with 0. rewrite Z.add_0_r. reflexivity. }
  cbn [ladder]. apply IH. rewrite Hacc. unfold ladder_step. set (j := j0 + Z.of_nat n).
  replace (j0 + Z.of_nat (S n)) with (j + 1) by (unfold j; lia). assert (0 <= j) as Hj' by (unfold j; lia).
  rewrite !pick_integers by first [apply H1; exact Hj' | apply H2; exact Hj']. cbn [integers gadd gdouble]. unfold at_.
  rewrite (testbit_split pos1 j), (testbit_split neg1 j), (testbit_split pos2 j), (testbit_split neg2 j) by exact Hj'. ring.
Qed.

(** * The schedule on Jacobian points *)

Definition curve_ops : group_ops affine := mkGroup affine None add_affine double_affine neg_affine.

Definition sized (p : point) : Prop := let '(x, y, z) := p in mag 1 x /\ mag 2 y /\ mag 1 z.

(** What an addition leaves of its second point has the same coordinates. *)
Definition same (p p' : point) : Prop :=
  let '(x, y, z) := p in let '(x', y', z') := p' in rep 1 (value x) x' /\ rep 2 (value y) y' /\ rep 1 (value z) z'.

Lemma same_refl p : sized p -> same p p.
Proof. destruct p as [[x y] z]. intros (? & ? & ?). repeat (split; [split; [assumption | reflexivity] |]). split; [assumption | reflexivity]. Qed.

Lemma same_second x y z z' (r : point * (fieldVal * fieldVal)) :
  second_reduced (value x) (value y) r -> rep 1 (value z) z' ->
  same (x, y, z) (snd (let '(p3, (x2, y2)) := r in (p3, (x2, y2, z')))).
Proof.
  destruct r as [p3 [x2 y2]]. intros [Hx Hy] Hz. apply reduced_rep in Hx, Hy.
  split; [exact Hx |]. split; [exact (rep_weaken 1 2 _ _ Hy ltac:(lia)) | exact Hz].
Qed.

Lemma addJacobian_second p1 p2 : sized p1 -> sized p2 -> same p2 (snd (addJacobian p1 p2)).
Proof.
  intros H1 H2. pose proof (same_refl _ H2) as Hs. destruct p1 as [[x1 y1] z1], p2 as [[x2 y2] z2].
  destruct H1 as (Mx1 & My1 & _), H2 as (Mx2 & My2 & Mz2). cbv beta iota zeta delta [addJacobian].
  destruct (_ || _); [exact Hs |]. destruct (_ || _); [exact Hs |].
  assert (rep 1 (value z2) (Normalize z2)) as Hz.
  { apply (rep_Normalize 1); [split; [exact Mz2 | reflexivity] | lia]. }
  assert (forall k f, mag k f -> rep k (value f) f) as R by (intros k f Hf; split; [exact Hf | reflexivity]).
  destruct (_ && _); [| destruct (Equals (Normalize z1) (Normalize z2)); [| destruct (Equals (Normalize z2) fieldOne)]].
  - apply same_second; [| exact Hz]. eapply addZ1AndZ2EqualsOne_second; apply R; eassumption.
  - apply same_second; [| exact Hz]. eapply addZ1EqualsZ2_second; apply R; eassumption.
  - split; [apply R; exact Mx2 |]. split; [apply R; exact My2 | exact Hz].
  - split; [apply R; exact Mx2 |]. split; [apply R; exact My2 | exact Hz].
Qed.

(** A point of the loop: its coordinates with [z = 1], and the opposite ordinate. *)
Definition base_ok (b : base) (X Y : Z) : Prop :=
  rep 1 X (bx b) /\ rep 2 Y (by_ b) /\ rep 2 (- Y) (byNeg b) /\ rep 1 1 (bz b).

Lemma jac_of_rep X Y x y z : rep 1 X x -> rep 2 Y y -> rep 1 1 z -> jac (x, y, z) (Some (X, Y)).
Proof.
  intros [Mx Ex] [My Ey] [Mz Ez]. split; [split; [exact Mx | split; [exact My | exact Mz]] |].
  split; [| split].
  - intros E. rewrite Ez in E. revert E. vm_compute. discriminate.
  - rewrite Ez, Ex. by_ring.
  - rewrite Ez, Ey. by_ring.
Qed.

Lemma jac_sized p a : jac p a -> sized p.
Proof. destruct p as [[x y] z]. intros [H _]. exact H. Qed.

Lemma same_rep X Y x y z p' :
  rep 1 X x -> rep 2 Y y -> rep 1 1 z -> same (x, y, z) p' ->
  let '(x', y', z') := p' in rep 1 X x' /\ rep 2 Y y' /\ rep 1 1 z'.
Proof.
  destruct p' as [[x' y'] z']. intros [_ Ex] [_ Ey] [_ Ez] (Hx & Hy & Hz).
  split; [exact (rep_eq _ _ _ _ Hx Ex) |]. split; [exact (rep_eq _ _ _ _ Hy Ey) | exact (rep_eq _ _ _ _ Hz Ez)].
Qed.

(** One addition of the loop, with a point of the curve in either sign. *)
Lemma add_base q Q X Y x y z :
  jac q Q -> on_curve Q -> on_curve (Some (X mod P, Y mod P)) -> rep 1 X x -> rep 2 Y y -> rep 1 1 z ->
  let '(q', (x', y', z')) := addJacobian q (x, y, z) in
  jac q' (add_affine Q (Some (X mod P, Y mod P))) /\ rep 1 X x' /\ rep 2 Y y' /\ rep 1 1 z'.
Proof.
  intros Hq HQ Hc Hx Hy Hz.
  assert (jac (x, y, z) (Some (X mod P, Y mod P))) as Hj.
  { apply jac_of_rep; [apply (rep_eq _ _ _ _ Hx) | apply (rep_eq _ _ _ _ Hy) | exact Hz]; symmetry; apply eqp_mod. }
  pose proof (add_jac _ _ _ _ Hq Hj HQ Hc) as [Hs _].
  pose proof (same_rep X Y x y z _ Hx Hy Hz (addJacobian_second _ _ (jac_sized _ _ Hq) (jac_sized _ _ Hj))) as Hl.
  destruct (addJacobian q (x, y, z)) as [q' [[x' y'] z']]. split; [exact Hs | exact Hl].
Qed.

Lemma top_bit b : (Z.land b 0x80 =? 0x80) = Z.testbit b 7.
Proof.
  destruct (Z.testbit b 7) eqn:E; [apply Z.eqb_eq | apply Z.eqb_neq].
  - apply Z.bits_inj'. intros i Hi. rewrite Z.land_spec. change 0x80 with (2 ^ 7). rewrite Z.pow2_bits_eqb by lia.
    destruct (Z.eqb_spec 7 i) as [<- |]; [rewrite E |]; apply andb_comm.
  - intros H. apply (f_equal (fun z => Z.testbit z 7)) in H. rewrite Z.land_spec, E in H. discriminate H.
Qed.

Definition digit_spec (Q : affine) (pos neg : bool) (X Y : Z) (r : point * base) : Prop :=
  jac (fst r) (add_affine Q (pick curve_ops pos neg (Some (X, Y)))) /\ base_ok (snd r) X Y.

Lemma add_digit_spec pos neg q b Q X Y :
  jac q Q -> on_curve Q -> on_curve (Some (X, Y)) -> base_ok b X Y ->
  digit_spec Q (Z.testbit pos 7) (Z.testbit neg 7) X Y (add_digit pos neg q b).
Proof.
  intros Hq HQ Hc (Hx & Hy & Hn & Hz). unfold add_digit. rewrite !top_bit.
  assert (X mod P = X /\ Y mod P = Y) as [EX EY] by (destruct Hc as (? & ? & _); split; apply Z.mod_small; assumption).
  destruct (Z.testbit pos 7); [| destruct (Z.testbit neg 7)].
  - pose proof (add_base q Q X Y (bx b) (by_ b) (bz b) Hq HQ) as H. rewrite EX, EY in H. specialize (H Hc Hx Hy Hz).
    destruct (addJacobian q _) as [q' [[x' y'] z']]. destruct H as (Hj & Hx' & Hy' & Hz').
    split; [exact Hj |]. repeat (split; [assumption |]). assumption.
  - pose proof (add_base q Q X (- Y) (bx b) (byNeg b) (bz b) Hq HQ) as H. rewrite EX in H. specialize (H (neg_on_curve _ Hc) Hx Hn Hz).
    destruct (addJacobian q _) as [q' [[x' y'] z']]. destruct H as (Hj & Hx' & Hy' & Hz').
    split; [exact Hj |]. repeat (split; [assumption |]). assumption.
  - split; [| repeat (split; [assumption |]); assumption]. cbn [pick curve_ops gzero fst]. destruct Q as [[] |]; exact Hq.
Qed.

(** ** One byte of the forms *)

Section loop.
Context (X1 Y1 X2 Y2 pos1 neg1 pos2 neg2 : Z).
Context (C1 : on_curve (Some (X1, Y1))) (C2 : on_curve (Some (X2, Y2))).

Abbreviation steps_of := (ladder curve_ops (Some (X1, Y1)) (Some (X2, Y2)) pos1 neg1 pos2 neg2).

(** The state of the loop: the sum so far and the two points. *)
Definition loop_ok (Q : affine) (st : point * base * base) : Prop :=
  let '(q, b1, b2) := st in jac q Q /\ on_curve Q /\ base_ok b1 X1 Y1 /\ base_ok b2 X2 Y2.

(** The top [n] bits of a byte are those of a form below position [j0 + n]. *)
Definition aligned (n : nat) (j0 b form : Z) : Prop :=
  forall t, 0 <= t < Z.of_nat n -> Z.testbit b (7 - t) = Z.testbit form (j0 + Z.of_nat n - 1 - t).

Lemma aligned_top n j0 b form : aligned (S n) j0 b form -> Z.testbit b 7 = Z.testbit form (j0 + Z.of_nat n).
Proof. intros H. rewrite <- (Z.sub_0_r 7), (H 0 ltac:(lia)). f_equal. lia. Qed.

Lemma aligned_shift n j0 b form :
  (n < 8)%nat -> aligned (S n) j0 b form -> aligned n j0 (uint8 (Z.shiftl b 1)) form.
Proof.
  intros Hn H t Ht. unfold wrapU. rewrite Z.mod_pow2_bits_low, Z.shiftl_spec by lia.
  replace (7 - t - 1) with (7 - (t + 1)) by lia. rewrite H by lia. f_equal. lia.
Qed.

Lemma pick_on_curve pos neg X Y : on_curve (Some (X, Y)) -> on_curve (pick curve_ops pos neg (Some (X, Y))).
Proof. intros Hc. destruct pos, neg; try exact Hc; [exact (neg_on_curve _ Hc) | exact I]. Qed.

Lemma mult_bits_spec n j0 b1p b1n b2p b2n Q st :
  (n <= 8)%nat -> aligned n j0 b1p pos1 -> aligned n j0 b1n neg1 -> aligned n j0 b2p pos2 -> aligned n j0 b2n neg2 ->
  loop_ok Q st -> loop_ok (steps_of n j0 Q) (mult_bits n b1p b1n b2p b2n st).
Proof.
  revert b1p b1n b2p b2n Q st. induction n as [| n IH]; intros b1p b1n b2p b2n Q st Hn A1 A2 A3 A4 Hst; [exact Hst |].
  cbn [ladder mult_bits]. destruct st as [[q b1] b2]. destruct Hst as (Hq & HQ & B1 & B2).
  pose proof (double_jac _ _ Hq HQ) as Hd. pose proof (double_on_curve _ HQ) as HdQ.
  pose proof (add_digit_spec b1p b1n _ b1 _ X1 Y1 Hd HdQ C1 B1) as [Hq1 B1'].
  destruct (add_digit b1p b1n (doubleJacobian q) b1) as [q1 b1'].
  pose proof (add_on_curve _ _ HdQ (pick_on_curve (Z.testbit b1p 7) (Z.testbit b1n 7) _ _ C1)) as HQ1.
  pose proof (add_digit_spec b2p b2n q1 b2 _ X2 Y2 Hq1 HQ1 C2 B2) as [Hq2 B2'].
  pose proof (add_on_curve _ _ HQ1 (pick_on_curve (Z.testbit b2p 7) (Z.testbit b2n 7) _ _ C2)) as HQ2.
  destruct (add_digit b2p b2n q1 b2) as [q2 b2']. cbn [fst snd] in *.
  apply IH; [lia | apply aligned_shift; [lia | assumption] .. |]. unfold ladder_step.
  rewrite <- (aligned_top n j0 b1p), <- (aligned_top n j0 b1n), <- (aligned_top n j0 b2p), <- (aligned_top n j0 b2n) by assumption.
  split; [exact Hq2 |]. split; [exact HQ2 |]. split; assumption.
Qed.

(** ** All bytes *)

Lemma le_decode_bit l i s : bytes_ok l -> 0 <= s < 8 -> Z.testbit (le_decode l) (8 * Z.of_nat i + s) = Z.testbit (nth i l 0) s.
Proof.
  intros Hl Hs. revert i. induction Hl as [| b l Hb Hl IH]; intros i.
  { cbn [le_decode]. destruct i; rewrite !Z.bits_0; reflexivity. }
  cbn [le_decode]. rewrite testbit_byte by (try assumption; try apply le_decode_nonneg; try assumption; lia).
  destruct i as [| i]; cbn [nth].
  - destruct (Z.ltb_spec (8 * Z.of_nat 0 + s) 8); [f_equal; lia | lia].
  - destruct (Z.ltb_spec (8 * Z.of_nat (S i) + s) 8); [lia |]. rewrite <- IH. f_equal. lia.
Qed.

Lemma padded_spec {E} naf m i :
  bytes_ok naf -> len naf <= m -> 0 <= i < m ->
  exists b, padded (E := E) naf (len naf) m i = Ret b /\ aligned 8 (8 * (m - 1 - i)) b (be_decode naf).
Proof.
  intros Hok Hm Hi. exists (nth (Z.to_nat (m - 1 - i)) (rev naf) 0). split.
  - unfold padded. destruct (Z.ltb_spec i (m - len naf)) as [Hlt | Hge].
    + rewrite nth_overflow; [reflexivity |]. rewrite length_rev. unfold len in *. lia.
    + destruct (index_total (E := E) naf (i - (m - len naf))) as (x & -> & Hx); [unfold len in *; lia |]. f_equal.
      rewrite rev_nth, nth_lookup by (unfold len in *; lia).
      replace (length naf - S (Z.to_nat (m - 1 - i)))%nat with (Z.to_nat (i - (m - len naf))) by (unfold len in *; lia).
      rewrite Hx. reflexivity.
  - intros t Ht. rewrite be_decode_rev.
    replace (8 * (m - 1 - i) + Z.of_nat 8 - 1 - t) with (8 * Z.of_nat (Z.to_nat (m - 1 - i)) + (7 - t)) by lia.
    symmetry. apply le_decode_bit; [apply Forall_rev; exact Hok | lia].
Qed.

Lemma mult_loop_spec {E} n i m l1 l2 p1 n1 p2 n2 Q st :
  bytes_ok p1 /\ bytes_ok n1 /\ bytes_ok p2 /\ bytes_ok n2 ->
  len p1 = l1 /\ len n1 = l1 /\ len p2 = l2 /\ len n2 = l2 -> l1 <= m -> l2 <= m ->
  be_decode p1 = pos1 /\ be_decode n1 = neg1 /\ be_decode p2 = pos2 /\ be_decode n2 = neg2 ->
  0 <= i -> i + Z.of_nat n = m -> loop_ok Q st ->
  exists st', mult_loop (E := E) n i m l1 l2 p1 n1 p2 n2 st = Ret st' /\ loop_ok (steps_of (8 * n) 0 Q) st'.
Proof.
  intros (O1 & O2 & O3 & O4) (L1 & L2 & L3 & L4) Hl1 Hl2 (V1 & V2 & V3 & V4).
  revert i Q st. induction n as [| n IH]; intros i Q st Hi Hm Hst.
  { exists st. split; [reflexivity | exact Hst]. }
  destruct (padded_spec (E := E) p1 m i O1) as (c1 & F1 & A1); [lia | lia |].
  destruct (padded_spec (E := E) n1 m i O2) as (c2 & F2 & A2); [lia | lia |].
  destruct (padded_spec (E := E) p2 m i O3) as (c3 & F3 & A3); [lia | lia |].
  destruct (padded_spec (E := E) n2 m i O4) as (c4 & F4 & A4); [lia | lia |].
  rewrite L1 in F1. rewrite L2 in F2. rewrite L3 in F3. rewrite L4 in F4. rewrite V1 in A1. rewrite V2 in A2. rewrite V3 in A3. rewrite V4 in A4.
  cbn [mult_loop]. rewrite F1, F2, F3, F4. cbn [mbind outcome_bind].
  replace (8 * S n)%nat with (8 + 8 * n)%nat by lia. rewrite ladder_app.
  replace (8 * (m - 1 - i)) with (0 + Z.of_nat (8 * n)) in * by lia.
  apply IH; [lia | lia |]. apply mult_bits_spec; try assumption. lia.
Qed.
End loop.

(** * ScalarMult *)

Definition signed (k : Z) (p : affine) : affine := if Z.sgn k =? -1 then neg_affine p else p.

(** The endomorphism: the abscissa times a cube root of one. *)
Definition endo (p : affine) : affine :=
  match p with None => None | Some (x, y) => Some ((x * value (beta secp256k1)) mod P, y) end.

Lemma beta_cube : eqp (value (beta secp256k1) * value (beta secp256k1) * value (beta secp256k1)) 1 /\ mag 1 (beta secp256k1).
Proof. split; [vm_compute; reflexivity | repeat split; vm_compute; discriminate]. Qed.

Lemma endo_on_curve p : on_curve p -> on_curve (endo p).
Proof.
  destruct p as [[x y] |]; [| trivial]. intros (Hx & Hy & Hc). cbn [endo on_curve]. destruct beta_cube as [Hb _].
  set (b := value (beta secp256k1)) in *. clearbody b.
  split; [apply Z.mod_pos_bound; reflexivity |]. split; [exact Hy |]. rewrite !eqp_mod, Hc.
  replace (x * b * (x * b) * (x * b)) with (x * x * x * (b * b * b)) by ring. rewrite Hb. by_ring.
Qed.

Lemma signed_on_curve k p : on_curve p -> on_curve (signed k p).
Proof. intros Hp. unfold signed. destruct (Z.sgn k =? -1); [apply neg_on_curve |]; exact Hp. Qed.

(** The ordinate and its opposite, exchanged for a negative scalar. *)
Lemma signed_base k X Y x y z :
  0 <= Y < P -> rep 1 X x -> rep 1 Y y -> rep 1 1 z ->
  let '(y', yNeg') := if Z.sgn k =? -1 then (NegateVal y 1, y) else (y, NegateVal y 1) in
  exists Y', signed k (Some (X, Y)) = Some (X, Y') /\ base_ok (mkBase x y' yNeg' z) X Y'.
Proof.
  intros HY Hx Hy Hz. pose proof (rep_NegateVal 1 Y y 1 Hy ltac:(lia) ltac:(lia)) as Hn. unfold signed.
  apply (rep_weaken 1 2) in Hy; [| lia]. destruct (Z.sgn k =? -1); eexists; (split; [reflexivity |]); unfold base_ok; cbn [bx by_ byNeg bz].
  - split; [exact Hx |]. split; [apply (rep_eq _ _ _ _ Hn); symmetry; apply eqp_mod |].
    split; [| exact Hz]. apply (rep_eq _ _ _ _ Hy). rewrite eqp_mod. by_ring.
  - split; [exact Hx |]. split; [exact Hy |]. split; [exact Hn | exact Hz].
Qed.

Lemma moduloReduce_spec k : bytes_ok k -> bytes_ok (moduloReduce secp256k1 k) /\ be_decode (moduloReduce secp256k1 k) mod N = be_decode k mod N.
Proof.
  intros Hok. unfold moduloReduce. destruct (_ >? _); [| split; [exact Hok | reflexivity]].
  split; [apply be_encode_ok |]. rewrite be_decode_big_Bytes by (apply Z.mod_pos_bound; reflexivity).
  apply Zmod_mod.
Qed.

Lemma big_Bytes_abs z : big_Bytes (Z.abs z) = big_Bytes z.
Proof. unfold big_Bytes, BitLen. rewrite Z.abs_involutive. do 4 f_equal. destruct z; reflexivity. Qed.

Lemma be_decode_abs z : be_decode (big_Bytes z) = Z.abs z.
Proof. rewrite <- big_Bytes_abs. apply be_decode_big_Bytes. lia. Qed.

(** The forms of a part of the scalar. *)
Lemma part_forms k :
  Z.abs k < 2 ^ 136 ->
  exists pos neg,
    NAF (big_Bytes k) = (pos, neg) /\ len pos = len neg /\ len pos <= 18 /\ bytes_ok pos /\ bytes_ok neg /\
    be_decode pos - be_decode neg = Z.abs k /\ non_adjacent (be_decode pos) (be_decode neg).
Proof.
  intros Hk. destruct (NAF (big_Bytes k)) as [pos neg] eqn:E. exists pos, neg. split; [reflexivity |].
  destruct (NAF_spec (big_Bytes k) pos neg (be_encode_ok _ _) E) as (Hl & Hk' & Op & On & Hv & Hna). rewrite be_decode_abs in Hv.
  assert (len (big_Bytes k) <= 17) as Hlen.
  { rewrite <- big_Bytes_abs. apply big_Bytes_bound; lia. }
  split; [exact Hl |]. split; [lia |]. repeat (split; [assumption |]). exact Hna.
Qed.

Lemma loop_result {E} X1 Y1 X2 Y2 b1 b2 p1 n1 p2 n2 m :
  on_curve (Some (X1, Y1)) -> on_curve (Some (X2, Y2)) -> base_ok b1 X1 Y1 -> base_ok b2 X2 Y2 ->
  bytes_ok p1 -> bytes_ok n1 -> bytes_ok p2 -> bytes_ok n2 ->
  len p1 = len n1 /\ len p2 = len n2 /\ len p1 <= m /\ len p2 <= m /\ 0 <= m ->
  ('(q, _, _) ← mult_loop (E := E) (Z.to_nat m) 0 m (len p1) (len p2) p1 n1 p2 n2 (infinity, b1, b2);
   Ret (fieldJacobianToBigAffine q)) =
  Ret (of_affine (ladder curve_ops (Some (X1, Y1)) (Some (X2, Y2))
                    (be_decode p1) (be_decode n1) (be_decode p2) (be_decode n2) (8 * Z.to_nat m) 0 None)).
Proof.
  intros C1 C2 B1 B2 O1 O2 O3 O4 (L1 & L2 & Hm1 & Hm2 & Hm).
  destruct (mult_loop_spec X1 Y1 X2 Y2 (be_decode p1) (be_decode n1) (be_decode p2) (be_decode n2) C1 C2 (E := E) (Z.to_nat m) 0 m (len p1) (len p2) p1 n1 p2 n2 None (infinity, b1, b2))
    as ([[q b1'] b2'] & -> & Hq & HQ & _);
    [tauto | split; [reflexivity | split; [lia | split; [reflexivity | lia]]] | lia | lia | repeat split; reflexivity | lia | lia | |].
  - split; [exact jac_infinity |]. split; [exact I |]. split; assumption.
  - cbn [mbind outcome_bind]. f_equal. exact (toBigAffine_spec _ _ Hq HQ).
Qed.

Lemma ScalarMult_run {E} X Y k :
  on_curve (Some (X, Y)) -> bytes_ok k ->
  exists k1 k2 pos1 neg1 pos2 neg2 n,
    (k1 + k2 * lambda secp256k1) mod N = be_decode k mod N /\ (n <= 144)%nat /\
    (pos1 - neg1 = Z.abs k1 /\ pos2 - neg2 = Z.abs k2) /\ (non_adjacent pos1 neg1 /\ non_adjacent pos2 neg2) /\
    Forall (fun f => 0 <= f < 2 ^ Z.of_nat n) [pos1; neg1; pos2; neg2] /\
    ScalarMult (E := E) secp256k1 X Y k =
    Ret (of_affine (ladder curve_ops (signed k1 (Some (X, Y))) (signed k2 (endo (Some (X, Y)))) pos1 neg1 pos2 neg2 n 0 None)).
Proof.
  intros Hc Hok. destruct (moduloReduce_spec k Hok) as [Hok' Hmod].
  destruct (splitK_spec (moduloReduce secp256k1 k)) as (k1 & k2 & Hsplit & Hk & Hb1 & Hb2).
  destruct (part_forms k1) as (pos1 & neg1 & HN1 & L1 & M1 & Op1 & On1 & V1 & Na1);
    [unfold secp256k1 in Hb1; cbn [a1 a2] in Hb1; lia |].
  destruct (part_forms k2) as (pos2 & neg2 & HN2 & L2 & M2 & Op2 & On2 & V2 & Na2);
    [unfold secp256k1 in Hb2; cbn [b1 b2] in Hb2; lia |].
  set (m := if len pos1 <? len pos2 then len pos2 else len pos1).
  assert (len pos1 <= m /\ len pos2 <= m /\ m <= 18 /\ 0 <= m) as (Hm1 & Hm2 & Hm & Hm0).
  { unfold m. pose proof (len_nonneg pos1). pose proof (len_nonneg pos2). destruct (Z.ltb_spec (len pos1) (len pos2)); lia. }
  exists k1, k2, (be_decode pos1), (be_decode neg1), (be_decode pos2), (be_decode neg2), (8 * Z.to_nat m)%nat.
  split; [rewrite Hk; exact Hmod |]. split; [lia |]. split; [split; assumption |]. split; [split; assumption |]. split.
  { assert (forall l, bytes_ok l -> len l <= m -> 0 <= be_decode l < 2 ^ Z.of_nat (8 * Z.to_nat m)) as R.
    { intros l Hl Hlm. pose proof (be_decode_range l Hl). replace (Z.of_nat (8 * Z.to_nat m)) with (8 * m) by lia.
      rewrite Z.pow_mul_r by lia. change (2 ^ 8) with 256.
      pose proof (Z.pow_le_mono_r 256 (len l) m ltac:(lia) Hlm). lia. }
    repeat constructor; apply R; try assumption; lia. }
  pose proof (on_curve_bound _ _ Hc) as [HX HY]. unfold ScalarMult. rewrite Hsplit, HN1, HN2.
  destruct (bigAffineToField_spec (E := E) X Y HX HY) as (fx & fy & -> & [Mx Vx] & [My Vy]). cbn [mbind outcome_bind].
  assert (rep 1 X fx) as Rx by (split; [exact Mx | rewrite Vx; reflexivity]).
  assert (rep 1 Y fy) as Ry by (split; [exact My | rewrite Vy; reflexivity]).
  assert (rep 1 1 (SetInt 1)) as Rz by (apply reduced_rep, reduced_SetInt; lia).
  assert (rep 1 ((X * value (beta secp256k1)) mod P) (Mul2 fx (beta secp256k1))) as Rb.
  { apply (rep_eq 1 (X * value (beta secp256k1))); [| symmetry; apply eqp_mod].
    apply (rep_Mul2 1 1); [exact Rx | split; [apply beta_cube | reflexivity] | lia | lia]. }
  cbv zeta. unfold Set_. fold m.
  pose proof (signed_base k1 X Y fx fy (SetInt 1) (proj1 (proj2 Hc)) Rx Ry Rz) as S1.
  pose proof (signed_base k2 _ Y (Mul2 fx (beta secp256k1)) fy (SetInt 1) (proj1 (proj2 Hc)) Rb Ry Rz) as S2.
  destruct (if Z.sgn k1 =? -1 then _ else _) as [p1y p1yNeg]. destruct S1 as (Y1 & E1 & B1).
  destruct (if Z.sgn k2 =? -1 then _ else _) as [p2y p2yNeg]. destruct S2 as (Y2 & E2 & B2).
  pose proof (signed_on_curve k1 _ Hc) as C1. pose proof (signed_on_curve k2 _ (endo_on_curve _ Hc)) as C2.
  cbn [endo] in *. rewrite E1 in C1 |- *. rewrite E2 in C2 |- *.
  apply loop_result; try assumption. repeat split; lia.
Qed.

Lemma signed_integer k u : (if Z.sgn k =? -1 then - u else u) * Z.abs k = k * u.
Proof. destruct k; cbn [Z.sgn Z.eqb Z.abs]; [lia | lia |]. destruct p; cbn; lia. Qed.

(** * Summary *)

(** the two results of [NAF] are disjoint sets of positions whose difference is the scalar, no
    two neighbouring positions are occupied, and the forms are at most one byte longer than the
    scalar. *)
Theorem NAF_correct k :
  bytes_ok k ->
  let '(pos, neg) := NAF k in
  len pos = len neg /\ len k <= len pos <= len k + 1 /\ bytes_ok pos /\ bytes_ok neg /\
  be_decode pos - be_decode neg = be_decode k /\ non_adjacent (be_decode pos) (be_decode neg).
Proof. intros Hok. destruct (NAF k) as [pos neg] eqn:E. exact (NAF_spec k pos neg Hok E). Qed.

Lemma NAF_correct_witness : NAF [7; 255] = ([8; 0], [0; 1]) /\ be_decode [8; 0] - be_decode [0; 1] = be_decode [7; 255].
Proof.
  assert (NAF [7; 255] = ([8; 0], [0; 1])) as E by (vm_compute; reflexivity). split; [exact E |].
  pose proof (NAF_correct [7; 255] ltac:(repeat constructor; unfold is_byte; lia)) as H. rewrite E in H. apply H.
Defined.

(** C34: [ScalarMult] on a point of the curve never panics and returns the sum that a schedule of
    doublings and signed additions builds from the point and its image under the endomorphism.  The
    schedule has at most 144 positions, its digits are the non-adjacent forms of two half-length
    scalars [k1] and [k2] with [k1 + k2 * lambda] equal to the scalar modulo the order, and in the
    integers the same schedule computes [k1 * u + k2 * v]. *)
Theorem ScalarMult_correct {E} X Y k :
  on_curve (Some (X, Y)) -> bytes_ok k ->
  exists k1 k2 pos1 neg1 pos2 neg2 n,
    (k1 + k2 * lambda secp256k1) mod N = be_decode k mod N /\ (n <= 144)%nat /\
    non_adjacent pos1 neg1 /\ non_adjacent pos2 neg2 /\
    ScalarMult (E := E) secp256k1 X Y k =
      Ret (of_affine (ladder curve_ops (signed k1 (Some (X, Y))) (signed k2 (endo (Some (X, Y)))) pos1 neg1 pos2 neg2 n 0 None)) /\
    forall u v,
      ladder integers (if Z.sgn k1 =? -1 then - u else u) (if Z.sgn k2 =? -1 then - v else v) pos1 neg1 pos2 neg2 n 0 0 =
      k1 * u + k2 * v.
Proof.
  intros Hc Hok. destruct (ScalarMult_run (E := E) X Y k Hc Hok)
    as (k1 & k2 & pos1 & neg1 & pos2 & neg2 & n & Hk & Hn & (V1 & V2) & (Na1 & Na2) & Hb & Hrun).
  exists k1, k2, pos1, neg1, pos2, neg2, n. repeat (split; [assumption |]). intros u v.
  rewrite !Forall_cons in Hb. destruct Hb as (B1 & B2 & B3 & B4 & _).
  rewrite (ladder_integers _ _ _ _ _ _ n 0 0 ltac:(lia) Na1 Na2).
  - rewrite Z.pow_0_r, !Z.div_1_r, V1, V2, !(Z.mul_comm (Z.abs _)), !signed_integer. reflexivity.
  - rewrite Z.add_0_l, !Z.div_small by assumption. reflexivity.
Qed.

Lemma ScalarMult_correct_witness :
  exists k1 k2, (k1 + k2 * lambda secp256k1) mod N = 1000 /\ exists r, ScalarMult (E := unit) secp256k1 (Gx secp256k1) (Gy secp256k1) [3; 232] = Ret r.
Proof.
  destruct (ScalarMult_correct (E := unit) _ _ [3; 232] generator_on_curve ltac:(repeat constructor; unfold is_byte; lia))
    as (k1 & k2 & p1 & n1 & p2 & n2 & n & Hk & _ & _ & _ & Hr & _).
  exists k1, k2. split; [exact Hk |]. eexists. exact Hr.
Defined.
