(* ===== verification/Keys.v ===== *)
(** Keys and signatures of pocec (pocec/pubkey.go, pocec/signature.go, pocec/privkey.go): the
    encodings of public keys, DER signatures, deterministic signing and recovery of keys. *)

From Stdlib Require Import ZArith Lia ZmodInv.
From S2P Require Import Prelude Amount Hashes Field Curve.

Import Field Curve.

Module Keys.

(** The errors of the two files, by their messages. *)
Inductive key_error :=
| ErrInvalidSquareRoot
| ErrOddness
| ErrEmptyPubKey
| ErrMagic (format : Z)
| ErrCompressedMagic (format : Z)
| ErrXTooLarge
| ErrYTooLarge
| ErrNotOnCurve
| ErrPubKeyLength (n : Z)
| ErrTooShort
| ErrNoHeaderMagic
| ErrBadLength
| ErrNoFirstMarker
| ErrBogusRLength
| ErrRNegative
| ErrRPadded
| ErrNoSecondMarker
| ErrBogusSLength
| ErrSNegative
| ErrSPadded
| ErrFinalLength (index n : Z)
| ErrRNotPositive
| ErrSNotPositive
| ErrRTooLarge
| ErrSTooLarge
| ErrRxTooLarge
| ErrNotInfinity
| ErrNoSolution
| ErrCompactSize
| ErrRZero
| ErrSZero.

#[global] Instance key_error_eq_dec : EqDecision key_error.
Proof. solve_decision. Defined.

Abbreviation result := (outcome key_error).

(** * Public keys *)

Definition PubKeyBytesLenCompressed : Z := 33.
Definition PubKeyBytesLenUncompressed : Z := 65.
Definition PubKeyBytesLenHybrid : Z := 65.

Definition isOdd (a : Z) : bool := Z.b2z (Z.testbit a 0) =? 1.

Definition decompressPoint (curve : KoblitzCurve) (bigX : Z) (ybit : bool) : result Z :=
  x ← SetByteSlice (big_Bytes bigX);
  let x3 := Mul (SquareVal x) x in
  let x3 := Normalize (Field.Add x3 (fieldB curve)) in
  let y := Normalize (SqrtVal x3) in
  let y := if negb (eqb ybit (IsOdd y)) then Normalize (Negate y 1) else y in
  let y2 := Normalize (SquareVal y) in
  check (negb (Equals y2 x3)) ErrInvalidSquareRoot;;
  check (negb (eqb ybit (IsOdd y))) ErrOddness;;
  Ret (be_decode (Bytes y)).

Definition pubkeyCompressed : Z := 0x2.
Definition pubkeyUncompressed : Z := 0x4.
Definition pubkeyHybrid : Z := 0x6.

(** [b &^ 1] on a byte. *)
Definition clear_low (b : Z) : Z := Z.land b 0xfe.

Definition IsCompressedPubKey (pubKey : bytes) : result bool :=
  if len pubKey =? PubKeyBytesLenCompressed
  then b ← index pubKey 0; Ret (clear_low b =? pubkeyCompressed)
  else Ret false.

(** The curve of a key is a pointer, the same in every key of the program. *)
Record PublicKey := mkPublicKey { X : Z; Y : Z }.

#[global] Instance PublicKey_eq_dec : EqDecision PublicKey.
Proof. solve_decision. Defined.

Definition ParsePubKey (pubKeyStr : bytes) (curve : KoblitzCurve) : result PublicKey :=
  check (len pubKeyStr =? 0) ErrEmptyPubKey;;
  first ← index pubKeyStr 0;
  let ybit := Z.land first 0x1 =? 0x1 in
  let format := clear_low first in
  if len pubKeyStr =? PubKeyBytesLenUncompressed then
    check (negb (format =? pubkeyUncompressed) && negb (format =? pubkeyHybrid)) (ErrMagic first);;
    xs ← slice pubKeyStr 1 33;
    let x := be_decode xs in
    ys ← slice pubKeyStr 33 (len pubKeyStr);
    let y := be_decode ys in
    check ((format =? pubkeyHybrid) && negb (eqb ybit (isOdd y))) ErrOddness;;
    check (x >=? curve_P curve) ErrXTooLarge;;
    check (y >=? curve_P curve) ErrYTooLarge;;
    b ← IsOnCurve x y;
    check (negb b) ErrNotOnCurve;;
    Ret (mkPublicKey x y)
  else if len pubKeyStr =? PubKeyBytesLenCompressed then
    check (negb (format =? pubkeyCompressed)) (ErrCompressedMagic first);;
    xs ← slice pubKeyStr 1 33;
    let x := be_decode xs in
    y ← decompressPoint curve x ybit;
    Ret (mkPublicKey x y)
  else Err (ErrPubKeyLength (len pubKeyStr)).

Definition paddedAppend (size : Z) (dst src : bytes) : bytes := dst ++ replicate (Z.to_nat (size - len src)) 0 ++ src.

Definition SerializeUncompressed (p : PublicKey) : bytes :=
  let b := [] ++ [pubkeyUncompressed] in
  let b := paddedAppend 32 b (big_Bytes (X p)) in
  paddedAppend 32 b (big_Bytes (Y p)).

Definition SerializeCompressed (p : PublicKey) : bytes :=
  let format := pubkeyCompressed in
  let format := if isOdd (Y p) then Z.lor format 0x1 else format in
  let b := [] ++ [format] in
  paddedAppend 32 b (big_Bytes (X p)).

Definition SerializeHybrid (p : PublicKey) : bytes :=
  let format := pubkeyHybrid in
  let format := if isOdd (Y p) then Z.lor format 0x1 else format in
  let b := [] ++ [format] in
  let b := paddedAppend 32 b (big_Bytes (X p)) in
  paddedAppend 32 b (big_Bytes (Y p)).

Definition PublicKey_IsEqual (p otherPubKey : PublicKey) : bool := (X p =? X otherPubKey) && (Y p =? Y otherPubKey).


(** * Signatures *)

Record Signature := mkSignature { R : Z; S : Z }.

#[global] Instance Signature_eq_dec : EqDecision Signature.
Proof. solve_decision. Defined.

Definition canonicalizeInt (val : Z) : bytes :=
  let b := big_Bytes val in
  let b := match b with [] => [0x00] | _ => b end in
  match b with
  | b0 :: _ => if negb (Z.land b0 0x80 =? 0) then 0 :: b else b
  | [] => b
  end.

(** The two errors of canonicalPadding. *)
Inductive padding_error := errNegativeValue | errExcessivelyPaddedValue.

Definition canonicalPadding (b : bytes) : result (option padding_error) :=
  b0 ← index b 0;
  if Z.land b0 0x80 =? 0x80 then Ret (Some errNegativeValue)
  else if (len b >? 1) && (b0 =? 0x00) then
    b1 ← index b 1;
    if negb (Z.land b1 0x80 =? 0x80) then Ret (Some errExcessivelyPaddedValue) else Ret None
  else Ret None.

(** The array is allocated with the length of the contents. *)
Definition Serialize (sig : Signature) : bytes :=
  let sigS := S sig in
  let sigS := if sigS >? halfOrder secp256k1 then curve_N secp256k1 - sigS else sigS in
  let rb := canonicalizeInt (R sig) in
  let sb := canonicalizeInt sigS in
  let length := 6 + len rb + len sb in
  [0x30; uint8 (length - 2); 0x02; uint8 (len rb)] ++ rb ++ [0x02; uint8 (len sb)] ++ sb.

Definition Signature_IsEqual (sig otherSig : Signature) : bool := (R sig =? R otherSig) && (S sig =? S otherSig).

Definition MinSigLen : Z := 8.

Definition padding_check (der : bool) (b : bytes) (negative padded : key_error) : result unit :=
  if der then
    err ← canonicalPadding b;
    match err with
    | Some errNegativeValue => Err negative
    | Some errExcessivelyPaddedValue => Err padded
    | None => Ret tt
    end
  else Ret tt.

Definition parseSig (sigStr : bytes) (curve : KoblitzCurve) (der : bool) : result Signature :=
  check (len sigStr <? MinSigLen) ErrTooShort;;
  let idx := 0 in
  b ← index sigStr idx;
  check (negb (b =? 0x30)) ErrNoHeaderMagic;;
  let idx := idx + 1 in
  siglen ← index sigStr idx;
  let idx := idx + 1 in
  check ((uint8 (siglen + 2) >? len sigStr) || (uint8 (siglen + 2) <? MinSigLen)) ErrBadLength;;
  sigStr ← slice sigStr 0 (uint8 (siglen + 2));
  b ← index sigStr idx;
  check (negb (b =? 0x02)) ErrNoFirstMarker;;
  let idx := idx + 1 in
  rLen ← index sigStr idx;
  let idx := idx + 1 in
  check ((rLen <=? 0) || (rLen >? len sigStr - idx - 3)) ErrBogusRLength;;
  rBytes ← slice sigStr idx (idx + rLen);
  padding_check der rBytes ErrRNegative ErrRPadded;;
  let r := be_decode rBytes in
  let idx := idx + rLen in
  b ← index sigStr idx;
  check (negb (b =? 0x02)) ErrNoSecondMarker;;
  let idx := idx + 1 in
  sLen ← index sigStr idx;
  let idx := idx + 1 in
  check ((sLen <=? 0) || (sLen >? len sigStr - idx)) ErrBogusSLength;;
  sBytes ← slice sigStr idx (idx + sLen);
  padding_check der sBytes ErrSNegative ErrSPadded;;
  let s := be_decode sBytes in
  let idx := idx + sLen in
  check (negb (idx =? len sigStr)) (ErrFinalLength idx (len sigStr));;
  check (negb (Z.sgn r =? 1)) ErrRNotPositive;;
  check (negb (Z.sgn s =? 1)) ErrSNotPositive;;
  check (r >=? curve_N curve) ErrRTooLarge;;
  check (s >=? curve_N curve) ErrSTooLarge;;
  Ret (mkSignature r s).

Definition ParseSignature (sigStr : bytes) (curve : KoblitzCurve) : result Signature := parseSig sigStr curve false.
Definition ParseDERSignature (sigStr : bytes) (curve : KoblitzCurve) : result Signature := parseSig sigStr curve true.

Definition hashToInt (hash : bytes) (c : KoblitzCurve) : Z :=
  let orderBits := BitLen (curve_N c) in
  let orderBytes := (orderBits + 7) / 8 in
  let hash := if len hash >? orderBytes then take (Z.to_nat orderBytes) hash else hash in
  let ret := be_decode hash in
  let excess := len hash * 8 - orderBits in
  if excess >? 0 then Z.shiftr ret excess else ret.

(** * Recovery of keys *)

(** [ModInverse] returns nil for a number without an inverse, and the methods of big.Int panic on
    a nil argument. *)
Definition ModInverse (g n : Z) : result Z := if Z.gcd g n =? 1 then Ret (Z.invmod g n) else Panic.

Section recovery.
Context (bytePoints : list (list point)).

Definition recoverKeyFromSignature (curve : KoblitzCurve) (sig : Signature) (msg : bytes) (iter : Z) (doChecks : bool) :
    result PublicKey :=
  let Rx := curve_N curve * Z.quot iter 2 in
  let Rx := Rx + R sig in
  check (Rx >=? curve_P curve) ErrRxTooLarge;;
  Ry ← decompressPoint curve Rx (Z.rem iter 2 =? 1);
  (if doChecks : bool then
     '(nRx, nRy) ← ScalarMult curve Rx Ry (big_Bytes (curve_N curve));
     check (negb (Z.sgn nRx =? 0) || negb (Z.sgn nRy =? 0)) ErrNotInfinity
   else Ret tt);;
  let e := hashToInt msg curve in
  invr ← ModInverse (R sig) (curve_N curve);
  let invrS := invr * S sig in
  let invrS := invrS mod curve_N curve in
  '(sRx, sRy) ← ScalarMult curve Rx Ry (big_Bytes invrS);
  let e := - e in
  let e := e mod curve_N curve in
  let e := e * invr in
  let e := e mod curve_N curve in
  '(minuseGx, minuseGy) ← ScalarBaseMult bytePoints curve (big_Bytes e);
  '(Qx, Qy) ← Curve.Add sRx sRy minuseGx minuseGy;
  Ret (mkPublicKey Qx Qy).

(** The bytes of a number before which SignCompact writes zeros up to the length of the curve. *)
Definition compact_part (curvelen v : Z) : bytes :=
  let bytelen := (BitLen v + 7) / 8 in
  (if bytelen <? curvelen then replicate (Z.to_nat (curvelen - bytelen)) 0 else []) ++ big_Bytes v.

(** The loop of SignCompact from iteration [i]; an iteration that fails is skipped. *)
Fixpoint compact_loop (n : nat) (i : Z) (curve : KoblitzCurve) (key : PublicKey) (sig : Signature) (hash : bytes)
    (isCompressedKey : bool) : result bytes :=
  match n with
  | O => Err ErrNoSolution
  | Datatypes.S n' =>
      match recoverKeyFromSignature curve sig hash i true with
      | Ret pk =>
          if (X pk =? X key) && (Y pk =? Y key) then
            let header := uint8 (27 + uint8 i) in
            let header := if isCompressedKey then uint8 (header + 4) else header in
            let curvelen := (BitSize curve + 7) / 8 in
            Ret ([header] ++ compact_part curvelen (R sig) ++ compact_part curvelen (S sig))
          else compact_loop n' (i + 1) curve key sig hash isCompressedKey
      | Err _ => compact_loop n' (i + 1) curve key sig hash isCompressedKey
      | Panic => Panic
      end
  end.

Definition RecoverCompact (curve : KoblitzCurve) (signature hash : bytes) : result (PublicKey * bool) :=
  let bitlen := (BitSize curve + 7) / 8 in
  check (negb (len signature =? 1 + bitlen * 2)) ErrCompactSize;;
  header ← index signature 0;
  let iteration := Z.land (uint8 (header - 27)) 0xfb in
  r ← slice signature 1 (bitlen + 1);
  s ← slice signature (bitlen + 1) (len signature);
  let sig := mkSignature (be_decode r) (be_decode s) in
  key ← recoverKeyFromSignature curve sig hash iteration false;
  Ret (key, Z.land (uint8 (header - 27)) 4 =? 4).

(** * Signing *)

Context `{HF : HashFunctions}.

(** HMAC-SHA256 of crypto/hmac. *)
Definition hmac_block : Z := 64.
Definition mac (k m : bytes) : bytes :=
  let k := if len k >? hmac_block then sha256_Sum256 k else k in
  let k := k ++ replicate (Z.to_nat (hmac_block - len k)) 0 in
  sha256_Sum256 (map (Z.lxor 0x5c) k ++ sha256_Sum256 (map (Z.lxor 0x36) k ++ m)).

Definition int2octets (v rolen : Z) : bytes :=
  let out := big_Bytes v in
  if len out <? rolen then replicate (Z.to_nat (rolen - len out)) 0 ++ out
  else if len out >? rolen then drop (Z.to_nat (len out - rolen)) out
  else out.

Definition bits2octets (in_ : bytes) (curve : KoblitzCurve) (rolen : Z) : bytes :=
  let z1 := hashToInt in_ curve in
  let z2 := z1 - curve_N curve in
  if Z.sgn z2 <? 0 then int2octets z1 rolen else int2octets z2 rolen.

(** Step H2: blocks are appended until there are enough bits. *)
Fixpoint nonce_fill (fuel : nat) (qlen : Z) (k v t : bytes) : bytes * bytes :=
  match fuel with
  | O => (v, t)
  | Datatypes.S fuel' =>
      if len t * 8 <? qlen then let v := mac k v in nonce_fill fuel' qlen k v (t ++ v) else (v, t)
  end.

(** Step H; [None] when no candidate was accepted within the fuel. *)
Fixpoint nonce_loop (fuel : nat) (curve : KoblitzCurve) (qlen : Z) (k v : bytes) : option Z :=
  match fuel with
  | O => None
  | Datatypes.S fuel' =>
      let '(v, t) := nonce_fill (Z.to_nat qlen) qlen k v [] in
      let secret := hashToInt t curve in
      if (secret >=? 1) && (secret <? curve_N curve) then Some secret
      else
        let k := mac k (v ++ [0x00]) in
        let v := mac k v in
        nonce_loop fuel' curve qlen k v
  end.

Definition nonceRFC6979 (fuel : nat) (privkey : Z) (hash : bytes) : option Z :=
  let curve := secp256k1 in
  let q := curve_N curve in
  let x := privkey in
  let qlen := BitLen q in
  let holen := 32 in
  let rolen := Z.shiftr (qlen + 7) 3 in
  let bx := int2octets x rolen ++ bits2octets hash curve rolen in
  let v := replicate (Z.to_nat holen) 0x01 in
  let k := replicate (Z.to_nat holen) 0 in
  let k := mac k ((v ++ [0x00]) ++ bx) in
  let v := mac k v in
  let k := mac k ((v ++ [0x01]) ++ bx) in
  let v := mac k v in
  nonce_loop fuel curve qlen k v.

Record PrivateKey := mkPrivateKey { PublicKey_of : PublicKey; D : Z }.

Definition PrivKeyFromBytes (curve : KoblitzCurve) (pk : bytes) : result (PrivateKey * PublicKey) :=
  '(x, y) ← ScalarBaseMult bytePoints curve pk;
  let pub := mkPublicKey x y in
  Ret (mkPrivateKey pub (be_decode pk), pub).

(** After the nonce [k] of the deterministic generator. *)
Definition sign_with (privkey : PrivateKey) (hash : bytes) (k : Z) : result Signature :=
  let N := curve_N secp256k1 in
  inv ← ModInverse k N;
  '(r, _) ← ScalarBaseMult bytePoints secp256k1 (big_Bytes k);
  let r := r mod N in
  check (Z.sgn r =? 0) ErrRZero;;
  let e := hashToInt hash secp256k1 in
  let s := D privkey * r in
  let s := s + e in
  let s := s * inv in
  let s := s mod N in
  let s := if s >? halfOrder secp256k1 then N - s else s in
  check (Z.sgn s =? 0) ErrSZero;;
  Ret (mkSignature r s).

(** [None]: the generator of nonces is still running. *)
Definition signRFC6979 (fuel : nat) (privateKey : PrivateKey) (hash : bytes) : option (result Signature) :=
  k ← nonceRFC6979 fuel (D privateKey) hash; Some (sign_with privateKey hash k).

Definition Sign (fuel : nat) (p : PrivateKey) (hash : bytes) : option (result Signature) := signRFC6979 fuel p hash.

Definition SignCompact (fuel : nat) (curve : KoblitzCurve) (key : PrivateKey) (hash : bytes) (isCompressedKey : bool) :
    option (result bytes) :=
  r ← Sign fuel key hash;
  Some (sig ← r; compact_loop (Z.to_nat ((curve_H curve + 1) * 2)) 0 curve (PublicKey_of key) sig hash isCompressedKey).
End recovery.

Definition PrivKeyBytesLen : Z := 32.

Definition PrivateKey_Serialize (p : PrivateKey) : bytes := paddedAppend PrivKeyBytesLen [] (big_Bytes (D p)).

End Keys.
