(* ===== verification/KeysSpec.v ===== *)
(** Correctness of keys and signatures: the encodings of public keys and of DER signatures read back,
    and a compact signature recovers the key that made it. *)

From Stdlib Require Import ZArith Lia Zdiv Setoid.
From S2P Require Import Prelude SigEncoding Amount Hashes Base58 Primality Field FieldSpec Curve CurveSpec ScalarSpec Keys.

Import Field Curve Keys.

#[local] Existing Instances eqm_setoid Zplus_eqm Zminus_eqm Zmult_eqm Zopp_eqm.

(** * Decompression *)

Lemma fieldB_value : rep 1 7 (fieldB secp256k1).
Proof. split; [repeat split; vm_compute; discriminate | vm_compute; reflexivity]. Qed.

Lemma isOdd_odd a : isOdd a = Z.odd a.
Proof. unfold isOdd. rewrite Z.bit0_odd. destruct (Z.odd a); reflexivity. Qed.

(** The root the code ends up with: of the parity asked for, unless it is zero. *)
Lemma negate_parity y : 0 < y < P -> Z.odd ((- y) mod P) = negb (Z.odd y).
Proof.
  intros Hy. replace ((- y) mod P) with (P - y).
  - rewrite Z.odd_sub. reflexivity.
  - symmetry. rewrite Z.mod_opp_l_nz; rewrite ?Z.mod_small; lia.
Qed.

(** The equation has no solution with [y = 0]. *)
Lemma curve_nonzero x : ~ eqp (x * x * x + 7) 0.
Proof.
  intros E. apply (on_curve_nonzero (x mod P) 0); [| reflexivity].
  split; [apply Z.mod_pos_bound; reflexivity |]. split; [unfold P; lia |].
  rewrite !eqp_mod, E. reflexivity.
Qed.

Definition is_root (x y : Z) : Prop := 0 <= y < P /\ eqp (y * y) (x * x * x + 7).

Lemma root_pos x y : is_root x y -> 0 < y < P.
Proof.
  intros [Hy E]. destruct (Z.eq_dec y 0) as [-> |]; [| lia]. exfalso. apply (curve_nonzero x). rewrite <- E. reflexivity.
Qed.

Lemma root_neg x y : is_root x y -> is_root x ((- y) mod P).
Proof.
  intros [Hy E]. split; [apply Z.mod_pos_bound; reflexivity |]. rewrite eqp_mod, <- E. by_ring.
Qed.

(** The two roots have different parities. *)
Lemma root_unique x y y' : is_root x y -> is_root x y' -> Z.odd y = Z.odd y' -> y = y'.
Proof.
  intros Hr Hr' Ho. pose proof (root_pos _ _ Hr) as Hp. destruct Hr as [Hy E], Hr' as [Hy' E'].
  assert (eqp ((y - y') * (y + y')) 0) as H.
  { replace ((y - y') * (y + y')) with (y * y - y' * y') by ring. apply eqp_sub_zero. rewrite E, E'. reflexivity. }
  apply eqp_mul_zero in H as [H | H].
  - apply eqp_small; [assumption .. |]. apply eqp_sub_zero. exact H.
  - exfalso. assert (y' = (- y) mod P) as ->.
    { apply eqp_small; [assumption | apply Z.mod_pos_bound; reflexivity |]. rewrite eqp_mod. apply eqp_sub_zero.
      rewrite <- H. by_ring. }
    rewrite negate_parity in Ho by exact Hp. destruct (Z.odd y); discriminate.
Qed.

(** The candidate of the code, before and after the sign is chosen. *)
Definition root_of (x : Z) : Z := ((x * x * x + 7) ^ ((P + 1) / 4)) mod P.

Lemma root_of_correct x y : is_root x y -> is_root x (root_of x).
Proof.
  intros [Hy E]. split; [apply Z.mod_pos_bound; reflexivity |]. unfold root_of. rewrite eqp_mod.
  exact (sqrt_correct _ y E).
Qed.

Lemma root_of_eq x : eqp (root_of x) ((x * x * x + 7) ^ ((P + 1) / 4)).
Proof. apply eqp_mod. Qed.

Lemma root_of_range x : 0 <= root_of x < P.
Proof. apply Z.mod_pos_bound. reflexivity. Qed.

#[local] Opaque root_of.

Lemma sqrt_step a fx3 y0 :
  reduced a fx3 -> eqp y0 (a ^ ((P + 1) / 4)) -> reduced y0 (Normalize (SqrtVal fx3)).
Proof.
  intros N3 E0. pose proof (SqrtVal_spec _ _ (rep_weaken 1 8 _ _ (reduced_rep _ _ N3) ltac:(lia))) as Rs.
  apply (reduced_eq _ _ _ (rep_reduced 1 _ _ Rs ltac:(lia))). symmetry. exact E0.
Qed.

Lemma sign_step (b : bool) y0 fy0 :
  reduced y0 fy0 -> reduced (if b then y0 else (- y0) mod P) (if negb b then Normalize (Negate fy0 1) else fy0).
Proof.
  intros Ny0. destruct b; cbn [negb]; [exact Ny0 |].
  pose proof (rep_NegateVal 1 _ _ 1 (reduced_rep _ _ Ny0) ltac:(lia) ltac:(lia)) as Rn.
  apply (reduced_eq (- y0)); [exact (rep_reduced _ _ _ Rn ltac:(lia)) | symmetry; apply eqp_mod].
Qed.

Lemma cube_step x fx : rep 1 x fx -> reduced (x * x * x + 7) (Normalize (Field.Add (Mul (SquareVal fx) fx) (fieldB secp256k1))).
Proof.
  intros Rx. pose proof fieldB_value as RB. generalize dependent (fieldB secp256k1). intros fB RB.
  let p := rep_of (Field.Add (Mul (SquareVal fx) fx) fB) in exact (rep_reduced _ _ _ p ltac:(lia)).
Qed.

Lemma square_step y fy a fx3 :
  reduced y fy -> reduced a fx3 -> Equals (Normalize (SquareVal fy)) fx3 = bool_decide (eqp (y * y) a).
Proof.
  intros Ny N3. apply eq_true_iff_eq. rewrite bool_decide_eq_true. apply Equals_reduced; [| exact N3].
  exact (rep_reduced _ _ _ (rep_SquareVal _ _ _ (reduced_rep _ _ Ny) ltac:(lia)) ltac:(lia)).
Qed.

(** The rest of the method once [x^3 + B] is computed. *)
Definition decompress_tail (x3 : fieldVal) (ybit : bool) : result Z :=
  let y := Normalize (SqrtVal x3) in
  let y := if negb (eqb ybit (IsOdd y)) then Normalize (Negate y 1) else y in
  let y2 := Normalize (SquareVal y) in
  check (negb (Equals y2 x3)) ErrInvalidSquareRoot;;
  check (negb (eqb ybit (IsOdd y))) ErrOddness;;
  Ret (be_decode (Bytes y)).

#[local] Strategy expand [decompress_tail].

Lemma Ret_bind {E A B} (a : A) (f : A -> outcome E B) : (Ret a ≫= f) = f a.
Proof. reflexivity. Qed.

Lemma check_false {E A} (e : E) (f : unit -> outcome E A) : (check false e ≫= f) = f tt.
Proof. reflexivity. Qed.

Lemma decompress_tail_run a fx3 ybit y0 y :
  reduced a fx3 -> 0 <= y0 < P -> eqp y0 (a ^ ((P + 1) / 4)) ->
  y = (if eqb ybit (Z.odd y0) then y0 else (- y0) mod P) ->
  decompress_tail fx3 ybit =
  if bool_decide (eqp (y * y) a) then if eqb ybit (Z.odd y) then Ret y else Err ErrOddness else Err ErrInvalidSquareRoot.
Proof.
  intros N3 Hy0 E0 Ey. pose proof (sqrt_step _ _ _ N3 E0) as Ny0. clear E0. unfold decompress_tail. cbv zeta.
  generalize dependent (Normalize (SqrtVal fx3)). intros fy0 Ny0.
  rewrite (IsOdd_reduced _ _ Ny0), (Z.mod_small y0 P) by exact Hy0.
  pose proof (sign_step (eqb ybit (Z.odd y0)) _ _ Ny0) as Ny. rewrite <- Ey in Ny.
  assert (0 <= y < P) as Hy by (rewrite Ey; destruct (eqb ybit _); [exact Hy0 | apply Z.mod_pos_bound; reflexivity]).
  generalize dependent (if negb (eqb ybit (Z.odd y0)) then Normalize (Negate fy0 1) else fy0). intros fy Ny.
  rewrite (square_step _ _ _ _ Ny N3), (IsOdd_reduced _ _ Ny), (value_Bytes _ _ Ny), (Z.mod_small y P) by exact Hy.
  destruct (bool_decide _); [| reflexivity]. destruct (eqb ybit (Z.odd y)); reflexivity.
Qed.

Lemma decompressPoint_run x ybit y0 y :
  0 <= x < 2 ^ 256 -> 0 <= y0 < P -> eqp y0 ((x * x * x + 7) ^ ((P + 1) / 4)) ->
  y = (if eqb ybit (Z.odd y0) then y0 else (- y0) mod P) ->
  decompressPoint secp256k1 x ybit =
  if bool_decide (eqp (y * y) (x * x * x + 7))
  then if eqb ybit (Z.odd y) then Ret y else Err ErrOddness
  else Err ErrInvalidSquareRoot.
Proof.
  intros Hx Hy0 E0 Ey.
  destruct (SetByteSlice_rep (E := key_error) (big_Bytes x)) as (fx & Hfx & Mx & Vx); [apply big_Bytes_bound; lia | apply be_encode_ok |].
  rewrite be_decode_big_Bytes in Vx by lia.
  assert (rep 1 x fx) as Rx by (split; [exact Mx | rewrite Vx; reflexivity]).
  rewrite <- (decompress_tail_run _ _ ybit y0 y (cube_step x fx Rx) Hy0 E0 Ey).
  unfold decompressPoint. rewrite Hfx, Ret_bind. reflexivity.
Qed.

(** Decompression finds the root of the parity asked for, or fails because there is none. *)
Lemma decompressPoint_spec x ybit :
  0 <= x < 2 ^ 256 ->
  (exists y, is_root x y /\ Z.odd y = ybit /\ decompressPoint secp256k1 x ybit = Ret y) \/
  ((forall y, ~ is_root x y) /\ decompressPoint secp256k1 x ybit = Err ErrInvalidSquareRoot).
Proof.
  intros Hx. pose proof (root_of_range x) as Hy0. pose proof (root_of_eq x) as E0. pose proof (root_of_correct x) as Hcorrect.
  generalize dependent (root_of x). intros y0 Hy0 E0 Hcorrect.
  set (y := if eqb ybit (Z.odd y0) then y0 else (- y0) mod P). rewrite (decompressPoint_run x ybit y0 y Hx Hy0 E0 eq_refl).
  assert (is_root x y0 -> is_root x y /\ Z.odd y = ybit) as Hroot.
  { intros Hr. unfold y. destruct (eqb_spec ybit (Z.odd y0)) as [-> | Hne]; [split; [exact Hr | reflexivity] |].
    split; [exact (root_neg _ _ Hr) |]. rewrite negate_parity by exact (root_pos _ _ Hr). destruct ybit, (Z.odd y0); first [reflexivity | destruct Hne; reflexivity]. }
  assert (eqp (y * y) (y0 * y0)) as Hsq.
  { unfold y. destruct (eqb ybit (Z.odd y0)); [reflexivity |]. rewrite eqp_mod. by_ring. }
  case_bool_decide as E.
  - left. exists y. destruct Hroot as [Hr Ho]; [split; [exact Hy0 | rewrite <- Hsq; exact E] |].
    split; [exact Hr |]. split; [exact Ho |]. rewrite Ho, eqb_reflx. reflexivity.
  - right. split; [| reflexivity]. intros y' Hr. apply E. rewrite Hsq. exact (proj2 (Hcorrect _ Hr)).
Qed.

Lemma decompressPoint_root x y : is_root x y -> 0 <= x < 2 ^ 256 -> decompressPoint secp256k1 x (Z.odd y) = Ret y.
Proof.
  intros Hr Hx. destruct (decompressPoint_spec x (Z.odd y) Hx) as [(y' & Hr' & Ho & ->) | [Hno _]].
  - f_equal. exact (root_unique _ _ _ Hr' Hr Ho).
  - destruct (Hno y Hr).
Qed.

(** * Public keys *)

Lemma padded_big n x : 0 <= n -> 0 <= x < 2 ^ (8 * n) -> replicate (Z.to_nat (n - len (big_Bytes x))) 0 ++ big_Bytes x = be_encode (Z.to_nat n) x.
Proof.
  intros Hn Hx. pose proof (big_Bytes_bound n x Hn Hx) as Hl. set (l := replicate _ 0 ++ _).
  assert (length l = Z.to_nat n) as Hlen by (unfold l, len in *; rewrite length_app, length_replicate; lia).
  assert (bytes_ok l) as Hok by (apply Forall_app; split; [apply Forall_replicate; unfold is_byte; lia | apply be_encode_ok]).
  rewrite <- (be_encode_decode _ l Hok Hlen). f_equal. unfold l. rewrite be_decode_zeros.
  apply be_decode_big_Bytes. lia.
Qed.

Lemma paddedAppend_big dst x : 0 <= x < 2 ^ 256 -> paddedAppend 32 dst (big_Bytes x) = dst ++ be_encode 32 x.
Proof. intros Hx. unfold paddedAppend. rewrite (padded_big 32 x ltac:(lia) Hx). reflexivity. Qed.

Lemma be32_decode x : 0 <= x < 2 ^ 256 -> be_decode (be_encode 32 x) = x.
Proof. intros Hx. rewrite be_decode_encode. apply Z.mod_small. exact Hx. Qed.

(** A key of the curve, with coordinates below the prime. *)
Definition key_on_curve (k : PublicKey) : Prop := on_curve (Some (X k, Y k)).

Lemma key_range k : key_on_curve k -> 0 <= X k < 2 ^ 256 /\ 0 <= Y k < 2 ^ 256.
Proof. apply on_curve_bound. Qed.

Lemma key_root k : key_on_curve k -> is_root (X k) (Y k).
Proof. intros (_ & Hy & E). split; assumption. Qed.

Lemma format_bit c (b : bool) : 0 <= c < 128 -> let f := 2 * c + Z.b2z b in (Z.land f 1 =? 1) = b /\ clear_low f = 2 * c.
Proof.
  intros Hc f. split; [rewrite land_one_odd; unfold f; rewrite Z.odd_add, Z.odd_mul; destruct b; reflexivity |].
  unfold clear_low. apply Z.bits_inj'. intros i Hi. rewrite Z.land_spec. change 0xfe with (Z.lnot 1 mod 2 ^ 8).
  destruct (Z.lt_ge_cases i 8) as [Hi8 | Hi8].
  - rewrite Z.mod_pow2_bits_low, Z.lnot_spec by lia. destruct (Z.eq_dec i 0) as [-> | Hne].
    + rewrite !Z.bit0_odd, andb_false_r, Z.odd_mul. reflexivity.
    + rewrite (Z.bits_above_log2 1 i) by (cbn; lia). rewrite andb_true_r. replace i with (Z.succ (i - 1)) by lia.
      rewrite Z.double_bits_succ. unfold f. destruct b; cbn [Z.b2z]; [apply Z.testbit_odd_succ | rewrite Z.add_0_r; apply Z.testbit_even_succ]; lia.
  - rewrite Z.mod_pow2_bits_high, andb_false_r by lia. symmetry. apply (testbit_above (2 * c) 8); lia.
Qed.

(** The uncompressed and hybrid formats. *)
Lemma ParsePubKey_long k c (b : bool) :
  key_on_curve k -> c = 2 \/ (c = 3 /\ b = Z.odd (Y k)) ->
  ParsePubKey ((2 * c + Z.b2z b) :: be_encode 32 (X k) ++ be_encode 32 (Y k)) secp256k1 = Ret k.
Proof.
  intros Hk Hc. pose proof (key_range k Hk) as [HX HY]. pose proof Hk as (HX' & HY' & E).
  destruct (format_bit c b ltac:(lia)) as [Hb Hf]. cbv zeta in *. unfold ParsePubKey.
  set (f := 2 * c + Z.b2z b) in *. set (s := f :: _).
  assert (len s = 65) as Hlen by (unfold s, len; cbn [length]; rewrite length_app, !length_be_encode; reflexivity).
  rewrite Hlen. change (65 =? 0) with false. rewrite check_false. change (index s 0) with (Ret (E := key_error) f).
  rewrite Ret_bind. cbv beta zeta. rewrite Hb, Hf. change (65 =? PubKeyBytesLenUncompressed) with true. cbv iota.
  assert (negb (2 * c =? pubkeyUncompressed) && negb (2 * c =? pubkeyHybrid) = false) as ->
    by (destruct Hc as [-> | [-> _]]; reflexivity). rewrite check_false.
  assert (slice (E := key_error) s 1 33 = Ret (be_encode 32 (X k))) as ->
    by exact (slice_mid [f] (be_encode 32 (X k)) (be_encode 32 (Y k))).
  assert (slice (E := key_error) s 33 65 = Ret (be_encode 32 (Y k))) as ->.
  { pose proof (slice_post (E := key_error) (f :: be_encode 32 (X k)) (be_encode 32 (Y k))) as H.
    change ((f :: be_encode 32 (X k)) ++ be_encode 32 (Y k)) with s in H. rewrite Hlen in H.
    unfold len in H. cbn [length] in H. rewrite length_be_encode in H. exact H. }
  rewrite !Ret_bind. rewrite !be32_decode by assumption.
  assert ((2 * c =? pubkeyHybrid) && negb (eqb b (isOdd (Y k))) = false) as ->.
  { destruct Hc as [-> | [-> ->]]; [reflexivity |]. rewrite isOdd_odd, eqb_reflx. reflexivity. }
  assert (forall v, 0 <= v < P -> (v >=? curve_P secp256k1) = false) as Hlt.
  { intros v Hv. change (curve_P secp256k1) with P. destruct (Z.geb_spec v P); [lia | reflexivity]. }
  rewrite !Hlt by assumption. destruct (IsOnCurve_spec (E := key_error) (X k) (Y k) HX HY) as (r & -> & Hr).
  rewrite !check_false, Ret_bind, (proj2 Hr E). destruct k; reflexivity.
Qed.

(** The compressed format: what is read depends on the root alone. *)
Lemma ParsePubKey_short x (b : bool) :
  0 <= x < 2 ^ 256 ->
  ParsePubKey ((2 + Z.b2z b) :: be_encode 32 x) secp256k1 = (y ← decompressPoint secp256k1 x b; Ret (mkPublicKey x y)).
Proof.
  intros Hx. destruct (format_bit 1 b ltac:(lia)) as [Hb Hf]. cbv zeta in *. change (2 * 1) with 2 in *. unfold ParsePubKey.
  set (f := 2 + Z.b2z b) in *. set (s := f :: _).
  assert (len s = 33) as Hlen by (unfold s, len; cbn [length]; rewrite length_be_encode; reflexivity).
  rewrite Hlen. change (33 =? 0) with false. rewrite check_false. change (index s 0) with (Ret (E := key_error) f).
  rewrite Ret_bind. cbv beta zeta. rewrite Hb, Hf. change (33 =? PubKeyBytesLenUncompressed) with false.
  change (33 =? PubKeyBytesLenCompressed) with true. cbv iota. change (negb (2 =? pubkeyCompressed)) with false. rewrite check_false.
  assert (slice (E := key_error) s 1 33 = Ret (be_encode 32 x)) as ->.
  { pose proof (slice_mid (E := key_error) [f] (be_encode 32 x) []) as H. rewrite app_nil_r in H. exact H. }
  rewrite Ret_bind, be32_decode by exact Hx. reflexivity.
Qed.

Lemma Serialize_formats k :
  key_on_curve k ->
  SerializeUncompressed k = (2 * 2 + Z.b2z false) :: be_encode 32 (X k) ++ be_encode 32 (Y k) /\
  SerializeHybrid k = (2 * 3 + Z.b2z (Z.odd (Y k))) :: be_encode 32 (X k) ++ be_encode 32 (Y k) /\
  SerializeCompressed k = (2 + Z.b2z (Z.odd (Y k))) :: be_encode 32 (X k).
Proof.
  intros Hk. pose proof (key_range k Hk) as [HX HY]. unfold SerializeUncompressed, SerializeHybrid, SerializeCompressed.
  rewrite isOdd_odd, !paddedAppend_big by assumption.
  split; [reflexivity |]. split; destruct (Z.odd (Y k)); reflexivity.
Qed.

Lemma ParsePubKey_Serialize k :
  key_on_curve k ->
  ParsePubKey (SerializeUncompressed k) secp256k1 = Ret k /\ ParsePubKey (SerializeHybrid k) secp256k1 = Ret k /\
  ParsePubKey (SerializeCompressed k) secp256k1 = Ret k.
Proof.
  intros Hk. destruct (Serialize_formats k Hk) as (-> & -> & ->). split; [apply ParsePubKey_long; [exact Hk | left; reflexivity] |].
  split; [apply ParsePubKey_long; [exact Hk | right; split; reflexivity] |].
  rewrite ParsePubKey_short by exact (proj1 (key_range k Hk)).
  rewrite (decompressPoint_root _ _ (key_root k Hk) (proj1 (key_range k Hk))), Ret_bind. destruct k; reflexivity.
Qed.

(** * DER signatures *)

Lemma high_bit b : is_byte b -> Z.land b 0x80 = if b <? 128 then 0 else 0x80.
Proof.
  intros Hb. assert (forallb (fun b => Z.land b 0x80 =? (if b <? 128 then 0 else 0x80)) byte_values = true) as H
    by (vm_compute; reflexivity).
  rewrite forallb_forall in H. apply Z.eqb_eq. exact (H b (byte_values_all b Hb)).
Qed.

Lemma big_Bytes_no_lead v : 0 <= v -> Base58.no_lead (big_Bytes v).
Proof. intros Hv. apply (Base58.big_Bytes_digits v Hv). Qed.

Lemma big_Bytes_unique l : bytes_ok l -> Base58.no_lead l -> big_Bytes (be_decode l) = l.
Proof.
  intros Hok Hn. pose proof (be_decode_range l Hok) as Hr. destruct (Base58.big_Bytes_digits (be_decode l) ltac:(lia)) as (Hd & Hn' & Hv).
  apply (Base58.digits_unique 256 ltac:(lia)); [exact Hd | exact Hok | exact Hn' | exact Hn | exact Hv].
Qed.

(** The canonical integers are those the code writes. *)
Lemma canonicalizeInt_unique b : bytes_ok b -> der_int b = true -> canonicalizeInt (be_decode b) = b.
Proof.
  intros Hok Hd. unfold canonicalizeInt. destruct b as [| x [| c l]]; [discriminate | |]; cbn [der_int] in Hd;
    pose proof Hok as Hok'; apply Forall_cons in Hok' as [Hx Hl].
  - destruct (Z.eq_dec x 0) as [-> | Hne]; [reflexivity |]. rewrite big_Bytes_unique by assumption.
    rewrite high_bit by exact Hx. rewrite Hd. reflexivity.
  - apply andb_true_iff in Hd as [Hx128 Hz]. destruct (Z.eqb_spec x 0) as [-> | Hne].
    + cbn [andb] in Hz. apply negb_true_iff in Hz. apply Forall_cons in Hl as [Hc Hl].
      change (be_decode (0 :: c :: l)) with (be_decode (c :: l)).
      rewrite big_Bytes_unique; [| constructor; assumption | intros ->; discriminate Hz].
      rewrite high_bit by exact Hc. rewrite Hz. reflexivity.
    + rewrite big_Bytes_unique by assumption. rewrite high_bit by exact Hx. rewrite Hx128. reflexivity.
Qed.

Lemma canonicalizeInt_spec v :
  0 <= v < 2 ^ 256 ->
  let b := canonicalizeInt v in der_int b = true /\ bytes_ok b /\ be_decode b = v /\ 1 <= len b <= 33.
Proof.
  intros Hv b. pose proof (big_Bytes_bound 32 v ltac:(lia) Hv) as Hl. pose proof (be_decode_big_Bytes v ltac:(lia)) as Hd.
  pose proof (big_Bytes_no_lead v ltac:(lia)) as Hn. assert (bytes_ok (big_Bytes v)) as Hok by apply be_encode_ok.
  unfold b, canonicalizeInt. destruct (big_Bytes v) as [| b0 l].
  { rewrite <- Hd. split; [reflexivity |]. split; [repeat constructor; unfold is_byte; lia |]. split; [reflexivity |].
    change (len (if negb (Z.land 0 0x80 =? 0) then [0; 0] else [0])) with 1. lia. }
  pose proof Hok as Hok'. apply Forall_cons in Hok' as [Hb Hl']. rewrite len_cons in Hl. pose proof (len_nonneg l).
  rewrite high_bit by exact Hb. cbn [Base58.no_lead] in Hn. destruct (b0 <? 128) eqn:E; cbn [negb Z.eqb].
  - split; [| rewrite len_cons; split; [exact Hok | split; [exact Hd | lia]]].
    destruct l as [| c l]; cbn [der_int]; [exact E |]. rewrite E. destruct (Z.eqb_spec b0 0); [contradiction | reflexivity].
  - split; [cbn [der_int]; rewrite E; reflexivity |].
    split; [constructor; [unfold is_byte; lia | exact Hok] |]. split; [exact Hd | rewrite !len_cons; lia].
Qed.

Lemma padding_check_spec b e1 e2 :
  bytes_ok b -> padding_check true b e1 e2 = Ret tt <-> der_int b = true.
Proof.
  intros Hok. unfold padding_check, canonicalPadding. destruct b as [| x l]; [split; discriminate |].
  apply Forall_cons in Hok as [Hx Hl]. change (index (x :: l) 0) with (Ret (E := key_error) x). rewrite Ret_bind, high_bit by exact Hx.
  rewrite len_cons. destruct l as [| c l]; cbn [der_int].
  { destruct (x <? 128); split; (reflexivity || discriminate). }
  apply Forall_cons in Hl as [Hc Hl]. rewrite len_cons. pose proof (len_nonneg l).
  destruct (Z.gtb_spec (1 + (1 + len l)) 1); [| lia]. change (index (x :: c :: l) 1) with (Ret (E := key_error) c).
  destruct (x <? 128); [| split; discriminate]. cbn [Z.eqb andb Pos.eqb]. destruct (x =? 0); cbn [andb]; [| split; reflexivity].
  rewrite Ret_bind, high_bit by exact Hc. destruct (c <? 128); split; (reflexivity || discriminate).
Qed.

Lemma check_Ret {E A} (b : bool) (e : E) (f : unit -> outcome E A) x : (check b e ≫= f) = Ret x <-> b = false /\ f tt = Ret x.
Proof. destruct b; split; [discriminate | intros [? _]; discriminate | intros H; split; [reflexivity | exact H] | intros [_ H]; exact H]. Qed.

Lemma sgn_positive z : negb (Z.sgn z =? 1) = false <-> 0 < z.
Proof. destruct z; split; intros H; (reflexivity || discriminate || lia). Qed.

Lemma geb_false a b : (a >=? b) = false <-> a < b.
Proof. destruct (Z.geb_spec a b); split; intros; (discriminate || reflexivity || lia). Qed.

Definition valid_scalars (r s : Z) : Prop := 0 < r < curve_N secp256k1 /\ 0 < s < curve_N secp256k1.

Lemma range_checks r s x :
  (check (negb (Z.sgn r =? 1)) ErrRNotPositive;; check (negb (Z.sgn s =? 1)) ErrSNotPositive;;
   check (r >=? curve_N secp256k1) ErrRTooLarge;; check (s >=? curve_N secp256k1) ErrSTooLarge;;
   Ret (mkSignature r s)) = Ret x <-> valid_scalars r s /\ x = mkSignature r s.
Proof.
  rewrite !check_Ret, !sgn_positive, !geb_false. unfold valid_scalars.
  split; [intros (? & ? & ? & ? & [= <-]); repeat split; assumption | intros [[[? ?] [? ?]] ->]; repeat split; assumption].
Qed.

Lemma der_length r s : len (der r s) = len r + len s + 6.
Proof. apply layout_len. Qed.

Lemma der_reads {E} r s :
  slice (E := E) (der r s) 4 (4 + len r) = Ret r /\ index (E := E) (der r s) (4 + len r) = Ret 0x02 /\
  index (E := E) (der r s) (4 + len r + 1) = Ret (len s) /\
  slice (E := E) (der r s) (4 + len r + 1 + 1) (4 + len r + 1 + 1 + len s) = Ret s.
Proof.
  split; [exact (slice_mid [0x30; len r + len s + 4; 0x02; len r] r ([0x02; len s] ++ s)) |].
  replace (4 + len r) with (len r + 4) by lia. split; [apply layout_m2 |].
  replace (len r + 4 + 1) with (len r + 5) by lia. split; [apply layout_sl |].
  replace (len r + 5 + 1) with (len r + 6) by lia. apply layout_slice.
Qed.

Lemma parse_der r s tr :
  bytes_ok (der r s ++ tr) -> der_int r = true -> der_int s = true -> len r + len s <= 249 ->
  valid_scalars (be_decode r) (be_decode s) ->
  ParseDERSignature (der r s ++ tr) secp256k1 = Ret (mkSignature (be_decode r) (be_decode s)).
Proof.
  intros Hok Hr Hs Hlen Hv.
  assert (1 <= len r /\ 1 <= len s) as [Lr Ls].
  { destruct r, s; try discriminate. rewrite !len_cons. pose proof (len_nonneg r). pose proof (len_nonneg s). lia. }
  unfold ParseDERSignature, parseSig. cbv zeta. pose proof (len_nonneg tr).
  rewrite len_app, der_length. unfold MinSigLen. destruct (Z.ltb_spec (len r + len s + 6 + len tr) 8); [lia |]. rewrite check_false.
  change (index (der r s ++ tr) 0) with (Ret (E := key_error) 0x30). rewrite Ret_bind, check_false.
  change (index (der r s ++ tr) (0 + 1)) with (Ret (E := key_error) (len r + len s + 4)). rewrite Ret_bind.
  replace (uint8 (len r + len s + 4 + 2)) with (len (der r s)) by (rewrite der_length, wrapU_small; lia).
  rewrite der_length at 1 2. replace (len r + len s + 6 >? len r + len s + 6 + len tr) with false by lia.
  replace (len r + len s + 6 <? 8) with false by lia. cbn [orb]. rewrite check_false, slice_pre, Ret_bind.
  change (index (der r s) (0 + 1 + 1)) with (Ret (E := key_error) 0x02). rewrite Ret_bind, check_false.
  change (index (der r s) (0 + 1 + 1 + 1)) with (Ret (E := key_error) (len r)). rewrite Ret_bind.
  rewrite !der_length. change (0 + 1 + 1 + 1 + 1) with 4. replace (len r <=? 0) with false by lia.
  replace (len r >? len r + len s + 6 - 4 - 3) with false by lia. cbn [orb]. rewrite check_false.
  destruct (der_reads (E := key_error) r s) as (Er & Em & El & Es).
  apply Forall_app in Hok as [Hok _]. apply Forall_app in Hok as [_ Hok]. apply Forall_app in Hok as [Okr Hok].
  apply Forall_app in Hok as [_ Oks].
  rewrite Er, Ret_bind, (proj2 (padding_check_spec r _ _ Okr) Hr), Ret_bind, Em, Ret_bind, check_false, El, Ret_bind.
  replace (len s <=? 0) with false by lia. replace (len s >? len r + len s + 6 - (4 + len r + 1 + 1)) with false by lia.
  cbn [orb]. rewrite check_false, Es, Ret_bind, (proj2 (padding_check_spec s _ _ Oks) Hs), Ret_bind.
  replace (4 + len r + 1 + 1 + len s =? len r + len s + 6) with true by lia. rewrite check_false.
  apply range_checks. split; [exact Hv | reflexivity].
Qed.

Ltac inv_parse H :=
  lazymatch type of H with
  | (check _ _ ≫= _) = Ret _ => apply check_Ret in H; let C := fresh "C" in destruct H as [C H]
  | (_ ≫= _) = Ret _ => apply bind_Ret in H; let v := fresh "v" in let B := fresh "B" in destruct H as (v & B & H)
  end.

Lemma slice_prefix {E A} (l v : list A) n : slice (E := E) l 0 n = Ret v -> exists tr, l = v ++ tr /\ len v = n.
Proof.
  intros H. unfold slice in H. destruct ((0 <=? 0) && (0 <=? n) && (n <=? len l)) eqn:E'; [| discriminate].
  rewrite !andb_true_iff, !Z.leb_le in E'. injection H as <-. exists (drop (Z.to_nat (n - 0)) l).
  change (drop (Z.to_nat 0) l) with l. split; [symmetry; apply take_drop |].
  unfold len in *. rewrite length_take. lia.
Qed.

Lemma orb_false (a b : bool) : a || b = false <-> a = false /\ b = false.
Proof. apply orb_false_iff. Qed.

(** The bytes of a signature whose reads gave the marks and lengths of the format. *)
Lemma der_layout body x1 rLen sLen r s e1 e2 e3 e4 :
  bytes_ok body -> len body = uint8 (x1 + 2) -> is_byte x1 -> 8 <= uint8 (x1 + 2) ->
  index (E := key_error) body 0 = Ret 0x30 -> index (E := key_error) body 1 = Ret x1 ->
  index (E := key_error) body 2 = Ret 0x02 -> index (E := key_error) body 3 = Ret rLen ->
  0 < rLen <= len body - 7 -> slice (E := key_error) body 4 (4 + rLen) = Ret r ->
  index (E := key_error) body (4 + rLen) = Ret 0x02 -> index (E := key_error) body (4 + rLen + 1) = Ret sLen ->
  slice (E := key_error) body (4 + rLen + 1 + 1) (4 + rLen + 1 + 1 + sLen) = Ret s -> 4 + rLen + 1 + 1 + sLen = len body ->
  padding_check true r e1 e2 = Ret tt -> padding_check true s e3 e4 = Ret tt ->
  body = der r s /\ der_int r = true /\ der_int s = true.
Proof.
  intros Hok Hlen Hx1 Hmin I0 I1 I2 I3 Hr Sr Im Il Ss Hend Pr Ps.
  apply index_Ret in I3 as [_ I3]. destruct (layout_exists body rLen Hok I3 ltac:(lia)) as (y0 & y1 & y2 & m2 & sl & r' & s' & -> & Lr).
  rewrite layout_len in Hlen, Hend. injection I0 as ->. injection I1 as ->. injection I2 as ->.
  rewrite <- Lr in Sr, Im, Il, Ss, Hend |- *.
  pose proof (slice_mid (E := key_error) [0x30; x1; 0x02; len r'] r' ([m2; sl] ++ s')) as Sr'.
  change (len [0x30; x1; 0x02; len r']) with 4 in Sr'. rewrite Sr in Sr'. injection Sr' as ->.
  replace (4 + len r' + 1 + 1) with (len r' + 6) in * by lia. replace (4 + len r' + 1) with (len r' + 5) in Il by lia.
  rewrite (Z.add_comm 4) in Im. rewrite layout_m2 in Im. injection Im as ->. rewrite layout_sl in Il. injection Il as ->.
  replace (len r' + 6 + sLen) with (len r' + 6 + len s') in Ss by lia. rewrite layout_slice in Ss. injection Ss as <-.
  apply Forall_app in Hok as [_ Hok]. apply Forall_app in Hok as [Okr Hok]. apply Forall_app in Hok as [_ Oks].
  split; [| split; [exact (proj1 (padding_check_spec _ _ _ Okr) Pr) | exact (proj1 (padding_check_spec _ _ _ Oks) Ps)]].
  assert (sLen = len s') as -> by lia. assert (x1 = len r' + len s' + 4) as ->; [| reflexivity].
  unfold is_byte in Hx1. destruct (Z.lt_ge_cases x1 254); [rewrite wrapU_small in Hlen by lia; lia |].
  exfalso. assert (x1 = 254 \/ x1 = 255) as [-> | ->] by lia; revert Hmin; vm_compute; intros Hm; exact (Hm eq_refl).
Qed.

Lemma negb_eqb_false a b : negb (a =? b) = false <-> a = b.
Proof. rewrite negb_false_iff. apply Z.eqb_eq. Qed.

Lemma index_byte (l : bytes) i b : bytes_ok l -> index (E := key_error) l i = Ret b -> is_byte b.
Proof. intros Hok H. apply index_Ret in H as [_ H]. exact (Forall_lookup_1 _ _ _ _ Hok H). Qed.

Lemma index_app_l {E A} (l k : list A) i x : i < len l -> index (E := E) (l ++ k) i = Ret x -> index (E := E) l i = Ret x.
Proof.
  intros Hi H. apply index_Ret in H as [H0 H]. apply index_Ret. split; [exact H0 |].
  rewrite lookup_app_l in H by (unfold len in *; lia). exact H.
Qed.

Lemma der_parse str sig :
  bytes_ok str -> ParseDERSignature str secp256k1 = Ret sig ->
  exists r s tr,
    str = der r s ++ tr /\ der_int r = true /\ der_int s = true /\
    valid_scalars (be_decode r) (be_decode s) /\ sig = mkSignature (be_decode r) (be_decode s).
Proof.
  intros Hok H. unfold ParseDERSignature, parseSig in H. cbv zeta in H. do 19 inv_parse H.
  apply range_checks in H as [Hv ->]. apply slice_prefix in B1 as (tr & -> & Lv).
  rewrite !orb_false in *. rewrite !negb_eqb_false in *.
  destruct C1 as [C1 C1'], C3 as [C3 C3'], C5 as [C5 C5']. apply Z.ltb_ge in C1'. unfold MinSigLen in C1'.
  apply Z.leb_gt in C3, C5. subst v v2 v6. pose proof (index_byte _ _ _ Hok B0) as Hx1. apply Forall_app in Hok as [Hok _].
  destruct v5, v9. exists v4, v8, tr.
  edestruct (der_layout v1 v0 v3 v7 v4 v8) as (-> & Hr & Hs); try eassumption.
  - apply (index_app_l _ tr); [lia | exact B].
  - apply (index_app_l _ tr); [lia | exact B0].
  - revert C3'. destruct (Z.gtb_spec v3 (len v1 - (0 + 1 + 1 + 1 + 1) - 3)); [discriminate | lia].
  - split; [reflexivity |]. repeat (split; [assumption |]). reflexivity.
Qed.

Definition low_s (s : Z) : Z := if s >? halfOrder secp256k1 then curve_N secp256k1 - s else s.

Lemma low_s_range s : 0 < s < curve_N secp256k1 -> 0 < low_s s <= halfOrder secp256k1.
Proof.
  intros Hs. unfold low_s. assert (curve_N secp256k1 = 2 * halfOrder secp256k1 + 1) as E by reflexivity.
  destruct (Z.gtb_spec s (halfOrder secp256k1)); lia.
Qed.

Lemma Serialize_der sig :
  valid_scalars (R sig) (S sig) ->
  Serialize sig = der (canonicalizeInt (R sig)) (canonicalizeInt (low_s (S sig))).
Proof.
  intros [HR HS]. apply low_s_range in HS. assert (halfOrder secp256k1 < 2 ^ 256 /\ curve_N secp256k1 < 2 ^ 256) as [? ?] by (split; reflexivity).
  destruct (canonicalizeInt_spec (R sig) ltac:(lia)) as (_ & _ & _ & Lr).
  destruct (canonicalizeInt_spec (low_s (S sig)) ltac:(lia)) as (_ & _ & _ & Ls).
  unfold Serialize, der. fold (low_s (S sig)).
  set (r := canonicalizeInt (R sig)) in *. set (s := canonicalizeInt (low_s (S sig))) in *. clearbody r s.
  rewrite !wrapU_small by lia. replace (6 + len r + len s - 2) with (len r + len s + 4) by lia. reflexivity.
Qed.

Lemma ParseDER_Serialize sig :
  valid_scalars (R sig) (S sig) -> ParseDERSignature (Serialize sig) secp256k1 = Ret (mkSignature (R sig) (low_s (S sig))).
Proof.
  intros Hv. rewrite (Serialize_der sig Hv). destruct Hv as [HR HS]. apply low_s_range in HS.
  assert (halfOrder secp256k1 < curve_N secp256k1 < 2 ^ 256) as [? ?] by (split; reflexivity).
  destruct (canonicalizeInt_spec (R sig) ltac:(lia)) as (Dr & Or & Vr & Lr).
  destruct (canonicalizeInt_spec (low_s (S sig)) ltac:(lia)) as (Ds & Os & Vs & Ls). cbv zeta in *.
  pose proof (parse_der (canonicalizeInt (R sig)) (canonicalizeInt (low_s (S sig))) []) as Hp. rewrite app_nil_r, Vr, Vs in Hp.
  apply Hp; [| exact Dr | exact Ds | lia | split; lia].
  unfold der. repeat (apply Forall_app; split); try assumption; repeat constructor; unfold is_byte; lia.
Qed.

(** What the strict parser accepts is what [Serialize] writes, up to the choice of S and bytes after
    the end. *)
Lemma ParseDER_canonical str sig :
  bytes_ok str -> ParseDERSignature str secp256k1 = Ret sig -> S sig <= halfOrder secp256k1 ->
  exists tr, str = Serialize sig ++ tr.
Proof.
  intros Hok H Hlow. destruct (der_parse str sig Hok H) as (r & s & tr & -> & Hr & Hs & Hv & ->). exists tr.
  rewrite Serialize_der by exact Hv. cbn [R S] in *. unfold low_s. destruct (Z.gtb_spec (be_decode s) (halfOrder secp256k1)); [lia |].
  apply Forall_app in Hok as [Hok _]. apply Forall_app in Hok as [_ Hok]. apply Forall_app in Hok as [Okr Hok]. apply Forall_app in Hok as [_ Oks].
  rewrite !canonicalizeInt_unique by assumption. reflexivity.
Qed.

(** * Compact signatures *)

Section compact.
Context (bytePoints : list (list point)).

Abbreviation recover := (recoverKeyFromSignature bytePoints secp256k1).

(** The check that the order times the point is infinity does not change what is recovered. *)
Lemma recover_unchecked sig msg i pk : recover sig msg i true = Ret pk -> recover sig msg i false = Ret pk.
Proof.
  unfold recoverKeyFromSignature. cbv zeta. intros H. apply check_Ret in H as [C H]. rewrite C, check_false.
  apply bind_Ret in H as (Ry & -> & H). rewrite Ret_bind. apply bind_Ret in H as ([] & _ & H). rewrite Ret_bind. exact H.
Qed.

Definition compact_bytes (c : bool) (i : Z) (sig : Signature) : bytes :=
  let header := uint8 (27 + uint8 i) in
  (if c then uint8 (header + 4) else header) :: be_encode 32 (R sig) ++ be_encode 32 (S sig).

Lemma compact_part_be v : 0 <= v < 2 ^ 256 -> compact_part 32 v = be_encode 32 v.
Proof.
  intros Hv. transitivity (replicate (Z.to_nat (32 - len (big_Bytes v))) 0 ++ big_Bytes v); [| exact (padded_big 32 v ltac:(lia) Hv)]. unfold compact_part.
  replace ((BitLen v + 7) / 8) with (len (big_Bytes v)).
  - destruct (Z.ltb_spec (len (big_Bytes v)) 32); [reflexivity |].
    replace (Z.to_nat (32 - len (big_Bytes v))) with O by lia. reflexivity.
  - unfold len, big_Bytes. rewrite length_be_encode. apply Z2Nat.id. apply Z.div_pos; [| lia].
    unfold BitLen. destruct (v =? 0); pose proof (Z.log2_nonneg (Z.abs v)); lia.
Qed.

Lemma compact_search_spec n i key sig hash c b :
  0 <= R sig < 2 ^ 256 -> 0 <= S sig < 2 ^ 256 -> 0 <= i ->
  compact_loop bytePoints n i secp256k1 key sig hash c = Ret b ->
  exists j, i <= j < i + Z.of_nat n /\ recover sig hash j true = Ret key /\ b = compact_bytes c j sig.
Proof.
  intros HR HS. revert i. induction n as [| n IH]; intros i Hi H; [discriminate |]. cbn [compact_loop] in H.
  assert (compact_loop bytePoints n (i + 1) secp256k1 key sig hash c = Ret b ->
          exists j, i <= j < i + Z.of_nat (Datatypes.S n) /\ recover sig hash j true = Ret key /\ b = compact_bytes c j sig) as Hnext.
  { intros Hn. destruct (IH (i + 1) ltac:(lia) Hn) as (j & Hj & H1 & H2). exists j. split; [lia | split; assumption]. }
  destruct (recover sig hash i true) as [pk | e |] eqn:E; [| exact (Hnext H) | discriminate].
  destruct ((X pk =? X key) && (Y pk =? Y key)) eqn:Ek; [| exact (Hnext H)].
  apply andb_true_iff in Ek as [EX EY]. apply Z.eqb_eq in EX, EY. exists i. split; [lia |].
  split; [rewrite E; destruct pk, key; cbn in EX, EY; subst; reflexivity |]. apply Ret_inj in H. rewrite <- H.
  change ((BitSize secp256k1 + 7) / 8) with 32. rewrite !compact_part_be by assumption. unfold compact_bytes.
  destruct c; reflexivity.
Qed.

Lemma compact_header (c : bool) i :
  0 <= i < 4 ->
  let h := uint8 (27 + uint8 i) in let header := if c then uint8 (h + 4) else h in
  Z.land (uint8 (header - 27)) 0xfb = i /\ (Z.land (uint8 (header - 27)) 4 =? 4) = c.
Proof.
  intros Hi. assert (i = 0 \/ i = 1 \/ i = 2 \/ i = 3) as [-> | [-> | [-> | ->]]] by lia; destruct c; split; vm_compute; reflexivity.
Qed.

Lemma RecoverCompact_bytes c i sig hash key :
  0 <= R sig < 2 ^ 256 -> 0 <= S sig < 2 ^ 256 -> 0 <= i < 4 -> recover sig hash i true = Ret key ->
  RecoverCompact bytePoints secp256k1 (compact_bytes c i sig) hash = Ret (key, c).
Proof.
  intros HR HS Hi Hrec. apply recover_unchecked in Hrec. destruct (compact_header c i Hi) as [Hit Hc]. cbv zeta in Hit, Hc.
  unfold RecoverCompact, compact_bytes. cbv zeta. set (h := if c then _ else _) in *. set (sg := h :: _).
  assert (len sg = 65) as Hlen by (unfold sg, len; cbn [length]; rewrite length_app, !length_be_encode; reflexivity).
  change ((BitSize secp256k1 + 7) / 8) with 32. rewrite Hlen. change (negb (65 =? 1 + 32 * 2)) with false. rewrite check_false.
  change (index sg 0) with (Ret (E := key_error) h). rewrite Ret_bind.
  assert (slice (E := key_error) sg 1 (32 + 1) = Ret (be_encode 32 (R sig))) as ->
    by exact (slice_mid [h] (be_encode 32 (R sig)) (be_encode 32 (S sig))).
  assert (slice (E := key_error) sg (32 + 1) 65 = Ret (be_encode 32 (S sig))) as ->.
  { pose proof (slice_post (E := key_error) (h :: be_encode 32 (R sig)) (be_encode 32 (S sig))) as H.
    change ((h :: be_encode 32 (R sig)) ++ be_encode 32 (S sig)) with sg in H. rewrite Hlen in H.
    unfold len in H. cbn [length] in H. rewrite length_be_encode in H. exact H. }
  rewrite !Ret_bind, !be32_decode, Hit, Hc by assumption. destruct sig as [r s]. cbn [R S] in *. rewrite Hrec. reflexivity.
Qed.

Context `{HF : HashFunctions}.

Lemma sign_with_range key hash k sig :
  sign_with bytePoints key hash k = Ret sig -> 0 < R sig < curve_N secp256k1 /\ 0 < S sig <= halfOrder secp256k1.
Proof.
  unfold sign_with. cbv zeta. intros H. apply bind_Ret in H as (inv & _ & H). apply bind_Ret in H as ([r y] & _ & H).
  rewrite !check_Ret in H. destruct H as (Cr & Cs & H). apply Ret_inj in H as <-. cbn [R S]. apply Z.eqb_neq in Cr, Cs.
  assert (0 < curve_N secp256k1) as HN by reflexivity. pose proof (Z.mod_pos_bound r _ HN) as Br.
  assert (r mod curve_N secp256k1 <> 0) as Hr by (intros E; apply Cr; rewrite E; reflexivity).
  split; [lia |].
  set (s := ((D key * (r mod curve_N secp256k1) + hashToInt hash secp256k1) * inv) mod curve_N secp256k1) in *.
  assert (0 <= s < curve_N secp256k1) as Bs by (apply Z.mod_pos_bound; exact HN). clearbody s.
  fold (low_s s) in Cs |- *. destruct (Z.eq_dec s 0) as [-> |]; [destruct Cs; reflexivity |].
  apply low_s_range. lia.
Qed.

Lemma SignCompact_recover fuel key hash c b :
  SignCompact bytePoints fuel secp256k1 key hash c = Some (Ret b) ->
  RecoverCompact bytePoints secp256k1 b hash = Ret (PublicKey_of key, c).
Proof.
  unfold SignCompact, Sign, signRFC6979. intros H. destruct (nonceRFC6979 fuel (D key) hash) as [k |]; [| discriminate H].
  apply (inj Some) in H. apply bind_Ret in H as (sig & Hs & H). apply sign_with_range in Hs as [HR HS].
  assert (halfOrder secp256k1 < curve_N secp256k1 < 2 ^ 256) as [? ?] by (split; reflexivity).
  change (Z.to_nat ((curve_H secp256k1 + 1) * 2)) with 4%nat in H.
  apply compact_search_spec in H as (j & Hj & Hrec & ->); [| lia ..].
  apply RecoverCompact_bytes; [lia | lia | lia | exact Hrec].
Qed.
End compact.

(** * Summary *)

(** The generator as a key. *)
Definition generator : PublicKey := mkPublicKey (Gx secp256k1) (Gy secp256k1).

Lemma key_unreduced k :
  key_on_curve k -> X k + P < 2 ^ 256 ->
  ParsePubKey ((2 + Z.b2z (Z.odd (Y k))) :: be_encode 32 (X k + P)) secp256k1 = Ret (mkPublicKey (X k + P) (Y k)).
Proof.
  intros Hk Hx. pose proof Hk as (HX & HY & E). assert (0 < P) as HP by reflexivity. rewrite ParsePubKey_short by lia.
  rewrite (decompressPoint_root (X k + P) (Y k)), Ret_bind; [reflexivity | | lia]. split; [exact HY |]. rewrite E.
  assert (eqp (X k) (X k + P)) as EX by (symmetry; apply (eqp_multiple _ _ 1); ring). rewrite <- EX. reflexivity.
Qed.

(** a public key on the curve is read back from each of its three encodings.  A compressed
    encoding is also accepted, and kept as it is, when its abscissa is not below the prime, so such a
    key has two compressed encodings. *)
Theorem pubkey_roundtrip k :
  key_on_curve k ->
  ParsePubKey (SerializeUncompressed k) secp256k1 = Ret k /\ ParsePubKey (SerializeHybrid k) secp256k1 = Ret k /\
  ParsePubKey (SerializeCompressed k) secp256k1 = Ret k /\
  (X k + P < 2 ^ 256 ->
   ParsePubKey ((2 + Z.b2z (Z.odd (Y k))) :: be_encode 32 (X k + P)) secp256k1 = Ret (mkPublicKey (X k + P) (Y k))).
Proof.
  intros Hk. destruct (ParsePubKey_Serialize k Hk) as (H1 & H2 & H3). repeat (split; [assumption |]). exact (key_unreduced k Hk).
Qed.

Lemma pubkey_roundtrip_witness : key_on_curve generator /\ ParsePubKey (SerializeCompressed generator) secp256k1 = Ret generator.
Proof. split; [exact generator_on_curve |]. apply (pubkey_roundtrip generator). exact generator_on_curve. Defined.

(** the strict parser reads back what [Serialize] writes, with the smaller of the two values of
    S; and a string of bytes it accepts with such an S is, up to bytes after the end, what
    [Serialize] writes. *)
Theorem der_roundtrip sig :
  (valid_scalars (R sig) (S sig) -> ParseDERSignature (Serialize sig) secp256k1 = Ret (mkSignature (R sig) (low_s (S sig)))) /\
  (forall str, bytes_ok str -> ParseDERSignature str secp256k1 = Ret sig -> S sig <= halfOrder secp256k1 ->
               valid_scalars (R sig) (S sig) /\ exists tr, str = Serialize sig ++ tr).
Proof.
  split; [exact (ParseDER_Serialize sig) |]. intros str Hok H Hlow. split; [| exact (ParseDER_canonical str sig Hok H Hlow)].
  destruct (der_parse str sig Hok H) as (r & s & tr & _ & _ & _ & Hv & ->). exact Hv.
Qed.

Lemma der_roundtrip_witness :
  ParseDERSignature (Serialize (mkSignature 200 (curve_N secp256k1 - 5))) secp256k1 = Ret (mkSignature 200 5) /\
  Serialize (mkSignature 200 (curve_N secp256k1 - 5)) = [0x30; 7; 0x02; 2; 0; 200; 0x02; 1; 5].
Proof.
  split; [| vm_compute; reflexivity].
  assert (low_s (curve_N secp256k1 - 5) = 5) as E by (vm_compute; reflexivity).
  pose proof (proj1 (der_roundtrip (mkSignature 200 (curve_N secp256k1 - 5)))) as H. cbn [R S] in H. rewrite E in H.
  apply H. split; split; vm_compute; reflexivity.
Defined.

(** A compact signature that [SignCompact] returns recovers, for the same hash, the public key of the
    signer and the flag for its compressed form. *)
Lemma compact_signature_roundtrip {HF : HashFunctions} bytePoints fuel key hash c :
  match SignCompact bytePoints fuel secp256k1 key hash c with
  | Some (Ret b) => RecoverCompact bytePoints secp256k1 b hash = Ret (PublicKey_of key, c)
  | _ => True
  end.
Proof.
  destruct (SignCompact bytePoints fuel secp256k1 key hash c) as [[b | |] |] eqn:E; try exact I.
  exact (SignCompact_recover bytePoints fuel key hash c b E).
Qed.

(** A signature with R equal to zero and header 29 is taken to the inversion of R, which panics. *)
Lemma RecoverCompact_panics bytePoints s hash :
  length s = 32%nat -> RecoverCompact bytePoints secp256k1 (29 :: replicate 32 0 ++ s) hash = Panic.
Proof.
  intros Hs. assert (exists y, decompressPoint secp256k1 (curve_N secp256k1 * 1 + 0) false = Ret y) as [y Hy]
    by (eexists; vm_compute; reflexivity).
  unfold RecoverCompact. cbv zeta. set (sg := 29 :: _). assert (len sg = 65) as Hlen.
  { unfold sg, len. cbn [length]. rewrite length_app, length_replicate, Hs. reflexivity. }
  change ((BitSize secp256k1 + 7) / 8) with 32. rewrite Hlen. change (negb (65 =? 1 + 32 * 2)) with false. rewrite check_false.
  change (index sg 0) with (Ret (E := key_error) 29). rewrite Ret_bind.
  assert (slice (E := key_error) sg 1 (32 + 1) = Ret (replicate 32 0)) as -> by exact (slice_mid [29] (replicate 32 0) s).
  assert (slice (E := key_error) sg (32 + 1) 65 = Ret s) as ->.
  { pose proof (slice_post (E := key_error) (29 :: replicate 32 0) s) as H. change ((29 :: replicate 32 0) ++ s) with sg in H.
    rewrite Hlen in H. exact H. }
  rewrite !Ret_bind. unfold recoverKeyFromSignature. cbv zeta. cbn [R S].
  change (curve_N secp256k1 * Z.quot (Z.land (uint8 (29 - 27)) 0xfb) 2 + be_decode (replicate 32 0)) with (curve_N secp256k1 * 1 + 0).
  change (curve_N secp256k1 * 1 + 0 >=? curve_P secp256k1) with false. rewrite check_false.
  change (Z.rem (Z.land (uint8 (29 - 27)) 0xfb) 2 =? 1) with false. rewrite Hy, !Ret_bind. reflexivity.
Qed.
