(* ===== verification/PocHash.v ===== *)
(** The hash function of the proofs of capacity (src/poc/pocutil/crypto/sha256, called as
    MASSSHA256): the streaming implementation of SHA-256, with constants of its own.  The
    theorems show that it computes, however the message is cut into writes, the FIPS 180-4
    construction with those constants, and that its marshalled states can be resumed. *)

From S2P Require Import Prelude Hashes.

(** * Definitions *)

Definition Size : Z := 32.
Definition Size224 : Z := 28.
Definition BlockSize : Z := 64.
Definition chunk : Z := 64.

(** [init0] to [init7], and [init0_224] to [init7_224]. *)
Definition init256 : list Z :=
  [0x05DCA181; 0x23305590; 0x1B63F0AC; 0x100D00D1; 0x05DCA181; 0x1F3976D0; 0x0E1895AD; 0x16C86B6D].
Definition init224 : list Z :=
  [0xC1059ED8; 0x367CD507; 0x3070DD17; 0xF70E5939; 0xFFC00B31; 0x68581511; 0x64F98FA7; 0xBEFA4FA4].

Definition _K : list Z :=
  [0x107A9B40; 0x15D343C8; 0x1F832C97; 0x09196EB6; 0x1A3521F0; 0x1B4E2BAA; 0x1ECAB17A; 0x22B15A5F;
   0x071E14A6; 0x0B049EE4; 0x206FA884; 0x243A913A; 0x129D81EB; 0x020441A2; 0x1AF95535; 0x1186C607;
   0x008720FA; 0x0CDE6553; 0x211994AF; 0x22A925A4; 0x067CB0A2; 0x19672126; 0x1500D69D; 0x021BD321;
   0x14D28390; 0x1B9377DC; 0x17EEC3B1; 0x0F318F19; 0x1209AD1B; 0x02BFF016; 0x20264CAD; 0x0DCA2418;
   0x1148B5C7; 0x24949014; 0x0BDECD79; 0x1EE14E8F; 0x1DDCC5E3; 0x03735183; 0x03F12FE7; 0x071515C0;
   0x0EFAF299; 0x00736663; 0x2109EAF8; 0x0BF12D08; 0x0BD2C905; 0x0C3E0A50; 0x2113FDAC; 0x24143795;
   0x21E7D3E6; 0x10FAFE53; 0x09593102; 0x216A2E84; 0x21728290; 0x22B4C81F; 0x1140DB2B; 0x1B83BCD5;
   0x19E78FE0; 0x17BCF2AA; 0x07D9379F; 0x1C9FFFD5; 0x0510ACF3; 0x07E32C1D; 0x11079C1A; 0x0ED85BC2].

Record digest := mkDigest {
  dg_h : list Z;
  dg_x : bytes;
  dg_nx : Z;
  dg_len : Z;
  is224 : bool;
}.

Inductive hash_error := ErrStateIdentifier | ErrStateSize.

Definition putUint32 (s : Z) : bytes :=
  [uint8 (Z.shiftr s 24); uint8 (Z.shiftr s 16); uint8 (Z.shiftr s 8); uint8 s].

Definition putUint64 (s : Z) : bytes :=
  [uint8 (Z.shiftr s 56); uint8 (Z.shiftr s 48); uint8 (Z.shiftr s 40); uint8 (Z.shiftr s 32);
   uint8 (Z.shiftr s 24); uint8 (Z.shiftr s 16); uint8 (Z.shiftr s 8); uint8 s].

Definition appendUint64 (b : bytes) (x : Z) : bytes := b ++ putUint64 x.
Definition appendUint32 (b : bytes) (x : Z) : bytes := b ++ putUint32 x.

(** The shifts and disjunctions of bytes of [consumeUint32] and [consumeUint64]. *)
Definition be_word (l : bytes) : Z := fold_left (fun acc b => Z.lor (Z.shiftl acc 8) b) l 0.

Definition consumeUint64 (b : bytes) : outcome hash_error (bytes * Z) :=
  index b 7;; Ret (drop 8 b, be_word (take 8 b)).

Definition consumeUint32 (b : bytes) : outcome hash_error (bytes * Z) :=
  index b 3;; Ret (drop 4 b, be_word (take 4 b)).

Definition magic224 : bytes := [0x73; 0x68; 0x61; 0x02].
Definition magic256 : bytes := [0x73; 0x68; 0x61; 0x03].
Definition marshaledSize : Z := 4 + 8 * 4 + chunk + 8.

Definition MarshalBinary (d : digest) : outcome hash_error bytes :=
  let b := if is224 d then magic224 else magic256 in
  let b := fold_left appendUint32 (dg_h d) b in
  x ← slice (dg_x d) 0 (dg_nx d);
  let b := b ++ x in
  let b := b ++ replicate (Z.to_nat (len (dg_x d) - dg_nx d)) 0 in
  Ret (appendUint64 b (dg_len d)).

(** The eight calls of [consumeUint32]. *)
Fixpoint consume_words (n : nat) (b : bytes) : outcome hash_error (bytes * list Z) :=
  match n with
  | O => Ret (b, [])
  | S n' =>
      '(b, w) ← consumeUint32 b;
      '(b, ws) ← consume_words n' b;
      Ret (b, w :: ws)
  end.

Definition UnmarshalBinary (d : digest) (b : bytes) : outcome hash_error digest :=
  check ((len b <? len magic224) ||
         (is224 d && negb (bytes_Equal (take 4 b) magic224)) ||
         (negb (is224 d) && negb (bytes_Equal (take 4 b) magic256))) ErrStateIdentifier;;
  check (negb (len b =? marshaledSize)) ErrStateSize;;
  let b := drop 4 b in
  '(b, h) ← consume_words 8 b;
  let x := copy_at (dg_x d) 0 b in
  let b := drop (Nat.min (length (dg_x d)) (length b)) b in
  '(_, l) ← consumeUint64 b;
  Ret (mkDigest h x (Z.rem (int64 l) chunk) l (is224 d)).

Definition digest_Reset (d : digest) : digest :=
  mkDigest (if negb (is224 d) then init256 else init224) (dg_x d) 0 0 (is224 d).

(** [var d digest]: the zero value, with [is224] set as given. *)
Definition zero_digest (is224 : bool) : digest := mkDigest (replicate 8 0) (replicate 64 0) 0 0 is224.

Definition sha256_New : digest := digest_Reset (zero_digest false).
Definition New224 : digest := digest_Reset (zero_digest true).

Definition digest_Size (d : digest) : Z := if negb (is224 d) then Size else Size224.
Definition digest_BlockSize (d : digest) : Z := BlockSize.

(** [v>>n | v<<(32-n)] *)
Definition rot (v n : Z) : Z := Z.lor (Z.shiftr v n) (uint32 (Z.shiftl v (32 - n))).

(** The loop that fills [w[16]] to [w[63]]; [n] iterations are left. *)
Fixpoint extend (n : nat) (w : list Z) : list Z :=
  match n with
  | O => w
  | S n' =>
      let i := length w in
      let v1 := nth (i - 2) w 0 in
      let t1 := Z.lxor (Z.lxor (rot v1 17) (rot v1 19)) (Z.shiftr v1 10) in
      let v2 := nth (i - 15) w 0 in
      let t2 := Z.lxor (Z.lxor (rot v2 7) (rot v2 18)) (Z.shiftr v2 3) in
      extend n' (w ++ [uint32 (t1 + nth (i - 7) w 0 + t2 + nth (i - 16) w 0)])
  end.

Definition round (st : Z * Z * Z * Z * Z * Z * Z * Z) (kw : Z * Z) : Z * Z * Z * Z * Z * Z * Z * Z :=
  let '(a, b, c, d, e, f, g, h) := st in
  let t1 := uint32 (h + Z.lxor (Z.lxor (rot e 6) (rot e 11)) (rot e 25)
                    + Z.lxor (Z.land e f) (Z.land (0xffffffff - e) g) + kw.1 + kw.2) in
  let t2 := uint32 (Z.lxor (Z.lxor (rot a 2) (rot a 13)) (rot a 22)
                    + Z.lxor (Z.lxor (Z.land a b) (Z.land a c)) (Z.land b c)) in
  (uint32 (t1 + t2), a, b, c, uint32 (d + t1), e, f, g).

(** One iteration of the loop of [blockGeneric]: the block [p] is hashed into [hs]. *)
Definition block_step (hs : list Z) (p : bytes) : list Z :=
  match hs with
  | [h0; h1; h2; h3; h4; h5; h6; h7] =>
      let w := extend 48 (map be_word (Sha.chunks 16 4 p)) in
      let '(a, b, c, d, e, f, g, h) := fold_left round (zip _K w) (h0, h1, h2, h3, h4, h5, h6, h7) in
      [uint32 (h0 + a); uint32 (h1 + b); uint32 (h2 + c); uint32 (h3 + d);
       uint32 (h4 + e); uint32 (h5 + f); uint32 (h6 + g); uint32 (h7 + h)]
  | _ => hs
  end.

Fixpoint block_loop (fuel : nat) (hs : list Z) (p : bytes) : list Z :=
  match fuel with
  | O => hs
  | S fuel' =>
      if len p >=? chunk then block_loop fuel' (block_step hs (take 64 p)) (drop 64 p) else hs
  end.

Definition blockGeneric (hs : list Z) (p : bytes) : list Z := block_loop (length p) hs p.

Definition digest_Write (d : digest) (p : bytes) : digest :=
  let l := uint64 (dg_len d + uint64 (len p)) in
  let '(hs, x, nx, p) :=
    if dg_nx d >? 0 then
      let n := Nat.min (length (dg_x d) - Z.to_nat (dg_nx d)) (length p) in
      let x := copy_at (dg_x d) (Z.to_nat (dg_nx d)) p in
      let nx := dg_nx d + Z.of_nat n in
      if nx =? chunk then (blockGeneric (dg_h d) x, x, 0, drop n p)
      else (dg_h d, x, nx, drop n p)
    else (dg_h d, dg_x d, dg_nx d, p) in
  let '(hs, p) :=
    if len p >=? chunk then
      let n := Z.to_nat (Z.ldiff (len p) (chunk - 1)) in
      (blockGeneric hs (take n p), drop n p)
    else (hs, p) in
  let '(x, nx) :=
    if len p >? 0 then (copy_at x 0 p, Z.min (len x) (len p)) else (x, nx) in
  mkDigest hs x nx l (is224 d).

Definition checkSum (d : digest) : outcome hash_error bytes :=
  let l := dg_len d in
  let tmp := 0x80 :: replicate 63 0 in
  d ← (if l mod 64 <? 56
       then p ← slice tmp 0 (56 - l mod 64); Ret (digest_Write d p)
       else p ← slice tmp 0 (64 + 56 - l mod 64); Ret (digest_Write d p));
  let l := uint64 (Z.shiftl l 3) in
  let d := digest_Write d (putUint64 l) in
  if negb (dg_nx d =? 0) then Panic
  else
    let out := concat (map putUint32 (dg_h d)) in
    Ret (if negb (is224 d) then out else take 28 out ++ replicate 4 0).

Definition digest_Sum (d : digest) (in_ : bytes) : outcome hash_error bytes :=
  hash ← checkSum d;
  Ret (if is224 d then in_ ++ take 28 hash else in_ ++ hash).

Definition Sum256 (data : bytes) : outcome hash_error bytes :=
  checkSum (digest_Write (digest_Reset (zero_digest false)) data).

Definition Sum224 (data : bytes) : outcome hash_error bytes :=
  sum ← checkSum (digest_Write (digest_Reset (zero_digest true)) data);
  Ret (take 28 sum).

(** Vectors of sha256_test.go: the empty string and "abc". *)
Example massha_empty : Sum256 [] = Ret (be_encode 32 0x367a1c790a63a255a2ddf9be118501fb11c5ea2421b7752c864dfea32493d1d0).
Proof. vm_compute. reflexivity. Qed.
Example massha_abc : Sum256 [0x61; 0x62; 0x63] = Ret (be_encode 32 0xd7bade9ee24908a48bac56ffcd25fe4e5f8b02afca2e997e34f87fd8d1b2a19b).
Proof. vm_compute. reflexivity. Qed.

(** * Words *)

Abbreviation word_ok := (fun z => 0 <= z < 2 ^ 32).

Lemma w32_uint32 z : Sha.w32 z = uint32 z.
Proof. unfold Sha.w32, wrapU. change 0xffffffff with (Z.ones 32). apply Z.land_ones. lia. Qed.

Lemma uint32_ok z : 0 <= uint32 z < 2 ^ 32.
Proof. apply wrapU_range. lia. Qed.

Lemma uint32_lor a b : uint32 (Z.lor a b) = Z.lor (uint32 a) (uint32 b).
Proof. unfold wrapU. rewrite <- !Z.land_ones by lia. apply Z.land_lor_distr_l. Qed.

Lemma shiftr_ok n v : 0 <= n -> 0 <= v < 2 ^ 32 -> 0 <= Z.shiftr v n < 2 ^ 32.
Proof.
  intros Hn Hv. rewrite Z.shiftr_div_pow2 by lia. split; [apply Z.div_pos; lia|].
  apply Z.div_lt_upper_bound; [lia|]. nia.
Qed.

Lemma rot_rotr v n : 0 <= n -> 0 <= v < 2 ^ 32 -> rot v n = Sha.rotr n v.
Proof.
  intros Hn Hv. unfold rot, Sha.rotr. rewrite w32_uint32, uint32_lor.
  by rewrite (wrapU_small 32 (Z.shiftr v n)) by (apply shiftr_ok; lia).
Qed.

(** [^e] on a 32-bit word. *)
Lemma lxor_not e : 0 <= e < 2 ^ 32 -> Z.lxor e 0xffffffff = 0xffffffff - e.
Proof.
  intros He. change 0xffffffff with (Z.ones 32).
  assert (forall i, Z.testbit e i = true -> Z.testbit (Z.ones 32) i = true) as Hb.
  { intros i Hi. assert (0 <= i) by (destruct (decide (0 <= i)); [done|by rewrite Z.testbit_neg_r in Hi by lia]).
    apply Z.ones_spec_low. split; [done|]. destruct (decide (i < 32)); [done|].
    rewrite <- (Z.mod_small e (2 ^ 32)), Z.mod_pow2_bits_high in Hi by lia. done. }
  rewrite Z.sub_nocarry_ldiff.
  - apply Z.bits_inj'. intros i Hi. rewrite Z.lxor_spec, Z.ldiff_spec. specialize (Hb i).
    destruct (Z.testbit e i); [rewrite Hb by done|]; by destruct (Z.testbit (Z.ones 32) i).
  - apply Z.bits_inj'. intros i Hi. rewrite Z.ldiff_spec, Z.bits_0. specialize (Hb i).
    destruct (Z.testbit e i); [by rewrite Hb|done].
Qed.

Lemma be_word_decode l : bytes_ok l -> be_word l = be_decode l.
Proof.
  intros Hl. unfold be_word, be_decode.
  assert (forall acc, 0 <= acc ->
    fold_left (fun acc b => Z.lor (Z.shiftl acc 8) b) l acc = fold_left (fun acc b => acc * 256 + b) l acc) as H; [|by apply H].
  induction Hl as [|b l Hb Hl IH]; intros acc Hacc; cbn [fold_left]; [done|]. unfold is_byte in Hb.
  rewrite Z.lor_comm, lor_shiftl_add by (lia || (change (2 ^ 8) with 256; lia)).
  change (2 ^ 8) with 256. rewrite (Z.add_comm b). apply IH. nia.
Qed.

Lemma putUint32_be s : putUint32 s = be_encode 4 s.
Proof.
  unfold putUint32, be_encode, wrapU. cbn [le_encode rev app].
  rewrite !Z.shiftr_div_pow2 by lia. change (2 ^ 8) with 256.
  rewrite !Z.div_div by lia. done.
Qed.

Lemma putUint64_be s : putUint64 s = be_encode 8 s.
Proof.
  unfold putUint64, be_encode, wrapU. cbn [le_encode rev app].
  rewrite !Z.shiftr_div_pow2 by lia. change (2 ^ 8) with 256.
  rewrite !Z.div_div by lia. done.
Qed.

(** * The compression of a block *)

Lemma extend_schedule n w : forall b,
  (16 <= length b)%nat -> Forall word_ok b -> w = rev b ->
  extend n w = rev (Sha.schedule Sha.schedule256 n b).
Proof.
  revert w. induction n as [|n IH]; intros w b Hlen Hb ->; cbn [extend Sha.schedule]; [done|].
  apply IH; [cbn; lia| |].
  - constructor; [|done]. unfold Sha.schedule256. rewrite w32_uint32. apply uint32_ok.
  - cbn [rev]. rewrite !length_rev. f_equal. f_equal. unfold Sha.schedule256. rewrite w32_uint32.
    assert (forall k, (k < 16)%nat -> nth (length b - S k) (rev b) 0 = nth k b 0) as Hn.
    { intros k Hk. rewrite rev_nth by lia. f_equal. lia. }
    rewrite !Hn by lia.
    assert (forall k, 0 <= nth k b 0 < 2 ^ 32) as Hr.
    { intros k. rewrite nth_lookup. destruct (b !! k) as [z|] eqn:Hk; cbn; [|lia].
      by apply (Forall_lookup_1 _ _ _ _ Hb Hk). }
    by rewrite !rot_rotr by (lia || apply Hr).
Qed.

Definition state_list (st : Z * Z * Z * Z * Z * Z * Z * Z) : list Z :=
  let '(a, b, c, d, e, f, g, h) := st in [a; b; c; d; e; f; g; h].

Lemma round_round256 st kw :
  Forall word_ok (state_list st) ->
  Forall word_ok (state_list (round st kw)) /\ state_list (round st kw) = Sha.round256 (state_list st) kw.
Proof.
  destruct st as [[[[[[[a b] c] d] e] f] g] h]. cbn [state_list]. intros H.
  decompose_Forall_hyps. cbn [round state_list Sha.round256].
  assert (forall x y, uint32 (uint32 x + y) = uint32 (x + y)) as Hl by (intros; apply Zplus_mod_idemp_l).
  assert (forall x y, uint32 (x + uint32 y) = uint32 (x + y)) as Hr by (intros; apply Zplus_mod_idemp_r).
  split; [repeat constructor; try apply uint32_ok; lia|].
  rewrite !w32_uint32, !Hl, !Hr. unfold Sha.ch, Sha.maj. rewrite lxor_not by lia.
  by rewrite !rot_rotr by lia.
Qed.

Lemma rounds kws : forall st, Forall word_ok (state_list st) ->
  state_list (fold_left round kws st) = fold_left Sha.round256 kws (state_list st).
Proof.
  induction kws as [|kw kws IH]; intros st Hst; cbn [fold_left]; [done|].
  destruct (round_round256 st kw Hst) as [Hok He]. rewrite IH by done. by rewrite He.
Qed.

Lemma words_ok (l : list bytes) : Forall (fun c => bytes_ok c /\ (length c <= 4)%nat) l ->
  map be_word l = map be_decode l /\ Forall word_ok (map be_decode l).
Proof.
  induction 1 as [|c l [Hc Hl] _ [IH1 IH2]]; cbn; [done|]. rewrite IH1, be_word_decode by done.
  split; [done|]. constructor; [|done]. pose proof (be_decode_range c Hc).
  assert (256 ^ len c <= 256 ^ 4) by (apply Z.pow_le_mono_r; unfold len; lia).
  change (256 ^ 4) with (2 ^ 32) in *. lia.
Qed.

Lemma chunks_ok (P : Z -> Prop) fuel n (l : list Z) : Forall P l ->
  Forall (fun c => Forall P c /\ (length c <= n)%nat) (Sha.chunks fuel n l).
Proof.
  revert l. induction fuel as [|fuel IH]; intros l Hl; cbn; [constructor|].
  destruct l as [|x l]; constructor.
  - split; [by apply Forall_take|]. rewrite length_take. lia.
  - apply IH. by apply Forall_drop.
Qed.

Lemma chunks_take (k n : nat) (l : list Z) : (0 < n)%nat -> length l = (k * n)%nat -> length (Sha.chunks k n l) = k.
Proof.
  intros Hn. revert l. induction k as [|k IH]; intros l Hl; cbn; [done|].
  destruct l as [|x l]; [cbn in Hl; lia|]. cbn [length]. f_equal. apply IH. rewrite length_drop. lia.
Qed.

Definition hash_state (hs : list Z) : Prop := length hs = 8%nat /\ Forall word_ok hs.

Lemma add_state st h0 h1 h2 h3 h4 h5 h6 h7 :
  (let '(a, b, c, d, e, f, g, h) := st in
   [uint32 (h0 + a); uint32 (h1 + b); uint32 (h2 + c); uint32 (h3 + d);
    uint32 (h4 + e); uint32 (h5 + f); uint32 (h6 + g); uint32 (h7 + h)]) =
  zip_with (fun x y => Sha.w32 (x + y)) [h0; h1; h2; h3; h4; h5; h6; h7] (state_list st).
Proof. destruct st as [[[[[[[a b] c] d] e] f] g] h]. cbn [state_list zip_with]. by rewrite !w32_uint32. Qed.

Lemma add_state_ok st h0 h1 h2 h3 h4 h5 h6 h7 :
  hash_state (zip_with (fun x y => Sha.w32 (x + y)) [h0; h1; h2; h3; h4; h5; h6; h7] (state_list st)).
Proof.
  destruct st as [[[[[[[a b] c] d] e] f] g] h]. cbn [state_list zip_with]. rewrite !w32_uint32.
  split; [done|]. repeat constructor; apply uint32_ok.
Qed.

Lemma block_step_spec hs p : hash_state hs -> bytes_ok p -> length p = 64%nat ->
  block_step hs p = Sha.block256 _K hs (map be_decode (Sha.chunks 16 4 p)) /\ hash_state (block_step hs p).
Proof.
  intros [Hl Hok] Hp Hlen. do 9 (destruct hs as [|? hs]; try done). unfold block_step, Sha.block256.
  destruct (words_ok (Sha.chunks 16 4 p)) as [-> Hw]; [by apply chunks_ok|].
  assert (length (map be_decode (Sha.chunks 16 4 p)) = 16%nat) as H16.
  { rewrite length_map. apply chunks_take; lia. }
  revert Hw H16. generalize (map be_decode (Sha.chunks 16 4 p)). intros ws Hw H16.
  rewrite (extend_schedule 48 ws (rev ws)); [|rewrite length_rev; lia|by apply Forall_rev|by rewrite rev_involutive].
  rewrite <- (rounds _ (z, z0, z1, z2, z3, z4, z5, z6)) by exact Hok.
  rewrite add_state by done. split; [done|]. apply add_state_ok.
Qed.

(** * Blocks and streams *)

Lemma block_loop_fuel fuel : forall fuel' hs p,
  (length p <= fuel)%nat -> (length p <= fuel')%nat -> block_loop fuel hs p = block_loop fuel' hs p.
Proof.
  induction fuel as [|fuel IH]; intros [|fuel'] hs p H H'; cbn [block_loop].
  - done.
  - destruct p; [done|cbn in H; lia].
  - destruct p; [done|cbn in H'; lia].
  - case_if; [|done]. bool_to_prop. unfold chunk in *. apply IH; rewrite length_drop; len_lia || (unfold len in *; lia).
Qed.

Lemma blockGeneric_short hs p : len p < 64 -> blockGeneric hs p = hs.
Proof.
  intros H. unfold blockGeneric. destruct (length p); cbn [block_loop]; [done|].
  case_if; [|done]. bool_to_prop. unfold chunk in *. lia.
Qed.

Lemma block_loop_S fuel hs p :
  block_loop (S fuel) hs p = if len p >=? chunk then block_loop fuel (block_step hs (take 64 p)) (drop 64 p) else hs.
Proof. done. Qed.

Lemma blockGeneric_cons hs c p : length c = 64%nat ->
  blockGeneric hs (c ++ p) = blockGeneric (block_step hs c) p.
Proof.
  intros Hc. unfold blockGeneric. rewrite (block_loop_fuel _ (S (64 + length p))) by (rewrite length_app; lia).
  rewrite block_loop_S. replace (len (c ++ p) >=? chunk) with true.
  2:{ symmetry. rewrite Z.geb_leb. apply Z.leb_le. unfold chunk, len. rewrite length_app. lia. }
  replace (take 64 (c ++ p)) with c by (rewrite <- Hc; by rewrite take_app_length).
  replace (drop 64 (c ++ p)) with p by (rewrite <- Hc; by rewrite drop_app_length).
  apply block_loop_fuel; lia.
Qed.

(** A string whose length is a multiple of 64. *)
Definition aligned64 (l : bytes) : Prop := exists k, length l = (64 * k)%nat.

Lemma aligned64_ind (P : bytes -> Prop) : P [] ->
  (forall c l, length c = 64%nat -> aligned64 l -> P l -> P (c ++ l)) -> forall l, aligned64 l -> P l.
Proof.
  intros H0 Hs l [k Hk]. revert l Hk. induction k as [|k IH]; intros l Hk.
  - rewrite Nat.mul_0_r in Hk. apply nil_length_inv in Hk. by subst.
  - rewrite <- (take_drop 64 l). apply Hs; [rewrite length_take; lia| |].
    + exists k. rewrite length_drop. lia.
    + apply IH. rewrite length_drop. lia.
Qed.

Lemma blockGeneric_app hs a b : aligned64 a -> blockGeneric hs (a ++ b) = blockGeneric (blockGeneric hs a) b.
Proof.
  intros Ha. revert hs. induction Ha as [|c l Hc Hl IH] using aligned64_ind; intros hs; [done|].
  rewrite <- app_assoc, (blockGeneric_cons _ c (l ++ b)), (blockGeneric_cons _ c l) by done. apply IH.
Qed.

Lemma aligned64_app a b : aligned64 a -> aligned64 b -> aligned64 (a ++ b).
Proof. intros [k Hk] [j Hj]. exists (k + j)%nat. rewrite length_app. lia. Qed.

Lemma chunks_fuel m : forall f g (l : bytes), (length l <= m)%nat -> (length l <= f * 64)%nat -> (length l <= g * 64)%nat ->
  Sha.chunks f 64 l = Sha.chunks g 64 l.
Proof.
  induction m as [|m IH]; intros [|f] [|g] [|x l] Hm Hf Hg; cbn [length] in *; try done; try lia.
  cbn [Sha.chunks]. f_equal. apply IH; rewrite length_drop; cbn [length]; lia.
Qed.

Lemma chunks_cons f (c l : bytes) : length c = 64%nat -> Sha.chunks (S f) 64 (c ++ l) = c :: Sha.chunks f 64 l.
Proof.
  intros Hc. cbn [Sha.chunks]. destruct (c ++ l) as [|y t] eqn:Hcl; [by destruct c|]. rewrite <- Hcl.
  by rewrite <- Hc, take_app_length, drop_app_length.
Qed.

(** The construction of the standard on an aligned string. *)
Lemma blockGeneric_spec hs p : hash_state hs -> bytes_ok p -> aligned64 p ->
  blockGeneric hs p =
    fold_left (Sha.block256 _K) (map (fun b => map be_decode (Sha.chunks 16 4 b)) (Sha.chunks (length p) 64 p)) hs
  /\ hash_state (blockGeneric hs p).
Proof.
  intros Hhs Hp Ha. revert hs Hhs Hp. induction Ha as [|c l Hc Hl IH] using aligned64_ind; intros hs Hhs Hp; [done|].
  apply Forall_app in Hp as [Hpc Hpl]. rewrite blockGeneric_cons by done.
  destruct (block_step_spec hs c Hhs Hpc Hc) as [He Hok].
  destruct (IH _ Hok Hpl) as [-> Hok']. split; [|done]. rewrite He.
  rewrite (chunks_fuel (length (c ++ l)) (length (c ++ l)) (S (length l))) by (rewrite ?length_app; lia).
  by rewrite chunks_cons by done.
Qed.

(** [d] is the state after the message [m] was written. *)
Definition absorbed (d : digest) (m : bytes) : Prop :=
  exists full rest, m = full ++ rest /\ aligned64 full /\ (length rest < 64)%nat /\ bytes_ok m /\
    dg_h d = blockGeneric (if is224 d then init224 else init256) full /\
    dg_nx d = len rest /\ length (dg_x d) = 64%nat /\ take (length rest) (dg_x d) = rest /\
    dg_len d = uint64 (len m).

Lemma absorbed_Reset d : length (dg_x d) = 64%nat -> absorbed (digest_Reset d) [].
Proof.
  intros Hx. exists [], []. repeat split; try done; [by exists O|cbn; lia|].
  cbn. by destruct (is224 d).
Qed.

Lemma length_copy_at {A} (dst : list A) i src : (i <= length dst)%nat -> length (copy_at dst i src) = length dst.
Proof. intros. unfold copy_at. rewrite !length_app, !length_take, length_drop. lia. Qed.

Lemma copy_at_start {A} (dst src : list A) : (length dst <= length src)%nat -> copy_at dst 0 src = take (length dst) src.
Proof. intros. unfold copy_at. rewrite take_0, Nat.sub_0_r, drop_ge by lia. apply app_nil_r. Qed.

Lemma ldiff_63 n : 0 <= n -> Z.ldiff n 63 = 64 * (n / 64).
Proof.
  intros Hn. change 63 with (Z.ones 6). rewrite Z.ldiff_ones_r by lia.
  rewrite Z.shiftl_mul_pow2, Z.shiftr_div_pow2 by lia. change (2 ^ 6) with 64. lia.
Qed.

(** The part of [Write] after the buffer was emptied: whole blocks are hashed, the rest is
    buffered. *)
Lemma write_tail hs x p : length x = 64%nat ->
  exists full rest, p = full ++ rest /\ aligned64 full /\ (length rest < 64)%nat /\
    (let '(hs, p) :=
       if len p >=? chunk
       then let n := Z.to_nat (Z.ldiff (len p) (chunk - 1)) in (blockGeneric hs (take n p), drop n p)
       else (hs, p) in
     let '(x, nx) := if len p >? 0 then (copy_at x 0 p, Z.min (len x) (len p)) else (x, 0) in (hs, x, nx))
    = (blockGeneric hs full, copy_at x 0 rest, len rest).
Proof.
  intros Hx. exists (take (64 * (length p / 64)) p), (drop (64 * (length p / 64)) p).
  pose proof (Nat.div_mod_eq (length p) 64). pose proof (Nat.mod_upper_bound (length p) 64 ltac:(lia)).
  rewrite take_drop. split; [done|]. split; [|split].
  { exists (length p / 64)%nat. rewrite length_take. lia. }
  { rewrite length_drop. lia. }
  unfold chunk. change (64 - 1) with 63. rewrite ldiff_63 by apply len_nonneg.
  replace (Z.to_nat (64 * (len p / 64))) with (64 * (length p / 64))%nat.
  2:{ unfold len. rewrite <- (Nat2Z.inj_div _ 64). lia. }
  set (n := (64 * (length p / 64))%nat) in *.
  assert ((if len p >=? 64 then (blockGeneric hs (take n p), drop n p) else (hs, p))
          = (blockGeneric hs (take n p), drop n p)) as ->.
  { case_if; [done|]. bool_to_prop. unfold len in *. replace n with O by (subst n; rewrite Nat.div_small; lia).
    done. }
  assert (len (drop n p) < 64) by (unfold len; rewrite length_drop; lia).
  case_if; bool_to_prop.
  - do 2 f_equal. unfold len in *. lia.
  - pose proof (len_nonneg (drop n p)). replace (drop n p) with (@nil Z) by (symmetry; apply len_zero_iff; lia).
    unfold copy_at. rewrite take_nil. done.
Qed.

Lemma absorbed_Write d m p : absorbed d m -> bytes_ok p -> absorbed (digest_Write d p) (m ++ p).
Proof.
  intros (full & rest & -> & Hfull & Hrest & Hm & Hh & Hnx & Hx & Htake & Hlen) Hp.
  assert (uint64 (dg_len d + uint64 (len p)) = uint64 (len ((full ++ rest) ++ p))) as Hl.
  { rewrite Hlen, (len_app (full ++ rest) p). symmetry. apply Zplus_mod. }
  assert (bytes_ok ((full ++ rest) ++ p)) as Hok by (by apply Forall_app).
  unfold digest_Write. rewrite Hl, Hnx.
  destruct (decide (rest <> [] /\ length rest + length p < 64)%nat) as [[Hne Hsmall]|Hbig].
  - (* the bytes only join the buffer *)
    assert (0 < length rest)%nat by (destruct rest; [done|cbn; lia]).
    replace (len rest >? 0) with true by (symmetry; rewrite Z.gtb_ltb; apply Z.ltb_lt; unfold len; lia).
    cbv zeta. rewrite to_nat_len, Hx, Nat.min_r by lia.
    replace (len rest + Z.of_nat (length p) =? chunk) with false
      by (symmetry; apply Z.eqb_neq; unfold chunk, len; lia).
    rewrite drop_all. change (len (@nil Z) >=? chunk) with false. cbv iota beta.
    change (len (@nil Z) >? 0) with false. cbv iota beta.
    exists full, (rest ++ p). rewrite app_assoc, length_app, len_app. cbn.
    repeat split; try done; [by rewrite len_app|by rewrite length_copy_at by lia|].
    unfold copy_at. rewrite Htake, Hx, (take_ge p), app_assoc, <- length_app, take_app_length by lia. done.
  - (* the buffer is completed or empty *)
    assert (exists c p' x, rest ++ p = c ++ p' /\ aligned64 c /\ length x = 64%nat /\
      (if len rest >? 0
       then let n := Nat.min (length (dg_x d) - Z.to_nat (len rest)) (length p) in
            let x := copy_at (dg_x d) (Z.to_nat (len rest)) p in
            let nx := len rest + Z.of_nat n in
            if nx =? chunk then (blockGeneric (dg_h d) x, x, 0, drop n p) else (dg_h d, x, nx, drop n p)
       else (dg_h d, dg_x d, len rest, p))
      = (blockGeneric (dg_h d) c, x, 0, p')) as (c & p' & x & Hcut & Hc & Hlx & Hcomplete).
    { case_if; bool_to_prop.
      - assert (64 <= length rest + length p)%nat
          by (apply Nat.nlt_ge; intros ?; apply Hbig; split; [by intros ->|done]).
        exists (rest ++ take (64 - length rest) p), (drop (64 - length rest) p), (rest ++ take (64 - length rest) p).
        rewrite <- app_assoc, take_drop. split; [done|].
        assert (length (rest ++ take (64 - length rest) p) = 64%nat) as H64 by (rewrite length_app, length_take; lia).
        split; [by exists 1%nat|]. split; [done|].
        cbv zeta. rewrite to_nat_len, Hx, Nat.min_l by lia.
        replace (len rest + Z.of_nat (64 - length rest) =? chunk) with true
          by (symmetry; apply Z.eqb_eq; unfold chunk, len; lia).
        unfold copy_at. rewrite Htake, Hx, drop_ge, app_nil_r by lia. done.
      - pose proof (len_nonneg rest). assert (rest = []) as -> by (apply len_zero_iff; lia).
        exists [], p, (dg_x d). split; [done|]. split; [by exists O|done]. }
    cbv zeta in Hcomplete. rewrite Hcomplete. clear Hcomplete.
    destruct (write_tail (blockGeneric (dg_h d) c) x p' Hlx) as (f & r & -> & Hf & Hr & Htail).
    cbv zeta in Htail. revert Htail.
    destruct (if len (f ++ r) >=? chunk then _ else _) as [hs2 p2].
    destruct (if len p2 >? 0 then _ else _) as [x2 nx2]. intros [= -> -> ->].
    exists (full ++ c ++ f), r. cbn.
    rewrite <- !app_assoc, Hcut. repeat split; try done.
    + by apply aligned64_app, aligned64_app.
    + by rewrite <- !app_assoc, Hcut in Hok.
    + rewrite !blockGeneric_app, Hh by (done || by apply aligned64_app). done.
    + by rewrite length_copy_at by lia.
    + unfold copy_at. rewrite take_0. cbn [app Nat.add]. rewrite Nat.sub_0_r, (take_ge r) by lia. apply take_app_length.
Qed.

(** * Padding *)

Lemma be_encode_mod n z : be_encode n (z mod 256 ^ Z.of_nat n) = be_encode n z.
Proof.
  unfold be_encode. f_equal. apply le_decode_inj; [apply le_encode_ok|apply le_encode_ok|by rewrite !length_le_encode|].
  rewrite !le_decode_encode. apply Z.mod_mod. lia.
Qed.

Lemma uint64_mod64 z : uint64 z mod 64 = z mod 64.
Proof.
  unfold wrapU. symmetry. apply Znumtheory.Zmod_div_mod; [lia|lia|]. exists (2 ^ 58). done.
Qed.

(** What [checkSum] writes: [0x80], zeros, and the length in bits. *)
Definition padding (m : bytes) : bytes :=
  (0x80 :: replicate (Z.to_nat ((55 - len m) mod 64)) 0) ++ be_encode 8 (8 * len m).

Lemma pad_padding m : Sha.pad m = m ++ padding m.
Proof. done. Qed.

Lemma padding_ok m : bytes_ok (padding m).
Proof.
  unfold padding. apply Forall_app. split; [|apply be_encode_ok].
  constructor; [unfold is_byte; lia|]. apply Forall_replicate. unfold is_byte. lia.
Qed.

Lemma pad_aligned m : aligned64 (m ++ padding m).
Proof.
  unfold padding. set (k := (55 - len m) mod 64).
  pose proof (Z.mod_pos_bound (55 - len m) 64 ltac:(lia)) as Hk. fold k in Hk.
  pose proof (Z.div_mod (55 - len m) 64 ltac:(lia)) as Hd. fold k in Hd.
  exists (Z.to_nat (1 - (55 - len m) / 64)).
  rewrite !length_app. cbn [length]. rewrite length_replicate, length_be_encode. unfold len in *. lia.
Qed.

Lemma padding_writes (m : bytes) : let r := uint64 (len m) mod 64 in
  (if r <? 56 then slice (E := hash_error) (0x80 :: replicate 63 0) 0 (56 - r)
   else slice (0x80 :: replicate 63 0) 0 (64 + 56 - r))
  = Ret (0x80 :: replicate (Z.to_nat ((55 - len m) mod 64)) 0).
Proof.
  cbv zeta. rewrite uint64_mod64. set (r := len m mod 64).
  pose proof (Z.mod_pos_bound (len m) 64 ltac:(lia)) as Hr. fold r in Hr.
  assert (forall k, 0 <= k <= 63 -> slice (E := hash_error) (0x80 :: replicate 63 0) 0 (k + 1) = Ret (0x80 :: replicate (Z.to_nat k) 0)) as Hs.
  { intros k Hk. rewrite slice_Ret by (rewrite ?len_cons; unfold len; rewrite ?length_replicate; lia).
    rewrite Z.sub_0_r, drop_0. replace (Z.to_nat (k + 1)) with (S (Z.to_nat k)) by lia.
    cbn [take]. by rewrite take_replicate, Nat.min_l by lia. }
  assert ((55 - len m) mod 64 = if r <? 56 then 55 - r else 119 - r) as ->.
  { pose proof (Z.div_mod (len m) 64 ltac:(lia)) as Hd. fold r in Hd.
    case_if; bool_to_prop; symmetry.
    - apply (Z.mod_unique _ _ (- (len m / 64))); lia.
    - apply (Z.mod_unique _ _ (- (len m / 64) - 1)); lia. }
  case_if; bool_to_prop.
  - rewrite <- Hs by lia. f_equal. lia.
  - rewrite <- Hs by lia. f_equal. lia.
Qed.

Definition init_of (b : bool) : list Z := if b then init224 else init256.

Lemma init_state b : hash_state (init_of b).
Proof. destruct b; split; try done; repeat constructor; lia. Qed.

(** The value [checkSum] computes for the message [m]: the standard construction; the last
    word is left zero for SHA-224. *)
Definition sum_of (b : bool) (m : bytes) : bytes :=
  if b then take 28 (Sha.sha256_with _K init224 m) ++ replicate 4 0 else Sha.sha256_with _K init256 m.

Lemma aligned_rest (full rest : bytes) : aligned64 full -> (length rest < 64)%nat -> aligned64 (full ++ rest) -> rest = [].
Proof.
  intros [k Hk] Hr [j Hj]. rewrite length_app in Hj. apply nil_length_inv. lia.
Qed.

Lemma is224_Write d p : is224 (digest_Write d p) = is224 d.
Proof. unfold digest_Write. by repeat case_match. Qed.

Lemma checkSum_spec d m : absorbed d m -> checkSum d = Ret (sum_of (is224 d) m).
Proof.
  intros Hd. pose proof Hd as (_ & _ & _ & _ & _ & Hok & _ & _ & _ & _ & Hlen).
  unfold checkSum. pose proof (padding_writes m) as Hw. cbv zeta in Hw. rewrite <- Hlen in Hw.
  set (q := 0x80 :: replicate (Z.to_nat ((55 - len m) mod 64)) 0) in *.
  assert ((if dg_len d mod 64 <? 56
           then p ← slice (E := hash_error) (0x80 :: replicate 63 0) 0 (56 - dg_len d mod 64); Ret (digest_Write d p)
           else p ← slice (0x80 :: replicate 63 0) 0 (64 + 56 - dg_len d mod 64); Ret (digest_Write d p))
          = Ret (digest_Write d q)) as ->.
  { revert Hw. case_if; intros ->; done. }
  cbn [mbind outcome_bind]. rewrite putUint64_be.
  assert (be_encode 8 (uint64 (Z.shiftl (dg_len d) 3)) = be_encode 8 (8 * len m)) as ->.
  { rewrite <- (be_encode_mod 8 (8 * len m)). f_equal. change (256 ^ Z.of_nat 8) with (2 ^ 64).
    rewrite Hlen, Z.shiftl_mul_pow2 by lia. change (2 ^ 3) with 8. rewrite Z.mul_comm. unfold wrapU.
    apply Zmult_mod_idemp_r. }
  assert (bytes_ok q) by (pose proof (padding_ok m) as Hp; apply Forall_app in Hp as [? _]; done).
  pose proof (absorbed_Write _ _ (be_encode 8 (8 * len m)) (absorbed_Write d m q Hd ltac:(done)) ltac:(apply be_encode_ok)) as Hf.
  rewrite <- app_assoc in Hf. change (q ++ be_encode 8 (8 * len m)) with (padding m) in Hf.
  destruct Hf as (full & rest & Hm & Hfull & Hrest & Hok' & Hh & Hnx & _).
  pose proof (pad_aligned m) as Ha. rewrite Hm in Ha. apply aligned_rest in Ha as ->; [|done|done].
  rewrite Hnx. change (len (@nil Z) =? 0) with true. cbn [negb].
  rewrite Hh, !is224_Write. rewrite app_nil_r in Hm. subst full.
  pose proof (blockGeneric_spec (init_of (is224 d)) (m ++ padding m) (init_state _) Hok' ltac:(done)) as [Hb _].
  assert (concat (map putUint32 (blockGeneric (init_of (is224 d)) (m ++ padding m)))
          = Sha.sha256_with _K (init_of (is224 d)) m) as Hout.
  { rewrite Hb. unfold Sha.sha256_with, Sha.digest, Sha.blocks. rewrite pad_padding. cbv zeta.
    f_equal. apply map_ext, putUint32_be. }
  unfold init_of in Hout. rewrite Hout. unfold sum_of. by destruct (is224 d).
Qed.

(** * Marshalled states *)

Lemma consumeUint32_app w b : 0 <= w < 2 ^ 32 -> consumeUint32 (be_encode 4 w ++ b) = Ret (b, w).
Proof.
  intros Hw. unfold consumeUint32. pose proof (length_be_encode 4 w) as Hl.
  replace (index (be_encode 4 w ++ b) 3) with (Ret (E := hash_error) (nth 3 (be_encode 4 w) 0)).
  2:{ symmetry. apply index_Ret. split; [lia|]. change (Z.to_nat 3) with 3%nat. rewrite lookup_app_l by lia.
      destruct (lookup_lt_is_Some_2 (be_encode 4 w) 3) as [x Hx]; [lia|]. by rewrite nth_lookup, Hx. }
  cbn [mbind outcome_bind]. replace (take 4 (be_encode 4 w ++ b)) with (be_encode 4 w) by (by rewrite take_app_le, take_ge by lia).
  replace (drop 4 (be_encode 4 w ++ b)) with b by (rewrite <- Hl; by rewrite drop_app_length).
  rewrite be_word_decode by apply be_encode_ok. rewrite be_decode_encode. change (256 ^ Z.of_nat 4) with (2 ^ 32).
  by rewrite Z.mod_small by lia.
Qed.

Lemma consume_words_app h b : Forall word_ok h ->
  consume_words (length h) (concat (map (be_encode 4) h) ++ b) = Ret (b, h).
Proof.
  induction 1 as [|w h Hw _ IH]; cbn [length consume_words map concat]; [done|].
  rewrite <- app_assoc, consumeUint32_app by lia. cbn [mbind outcome_bind]. by rewrite IH.
Qed.

Lemma consumeUint64_be l : 0 <= l < 2 ^ 64 -> consumeUint64 (be_encode 8 l) = Ret ([], l).
Proof.
  intros Hw. unfold consumeUint64. pose proof (length_be_encode 8 l) as Hl.
  destruct (index_total (E := hash_error) (be_encode 8 l) 7) as (x & -> & _); [unfold len; lia|].
  cbn [mbind outcome_bind]. rewrite take_ge, drop_ge, be_word_decode, be_decode_encode by (lia || apply be_encode_ok).
  change (256 ^ Z.of_nat 8) with (2 ^ 64). by rewrite Z.mod_small by lia.
Qed.

Definition magic (b : bool) : bytes := if b then magic224 else magic256.

Lemma MarshalBinary_spec d m : absorbed d m -> exists rest,
  MarshalBinary d = Ret (magic (is224 d) ++ concat (map (be_encode 4) (dg_h d)) ++
                         (rest ++ replicate (64 - length rest) 0) ++ be_encode 8 (dg_len d))
  /\ take (length rest) (dg_x d) = rest /\ dg_nx d = len rest /\ (length rest < 64)%nat.
Proof.
  intros (full & rest & -> & _ & Hrest & _ & _ & Hnx & Hx & Htake & _). exists rest.
  split; [|done]. unfold MarshalBinary.
  rewrite Hnx, slice_Ret by (unfold len; lia). rewrite Z.sub_0_r, to_nat_len, drop_0, Htake.
  cbn [mbind outcome_bind].
  assert (forall h b, fold_left appendUint32 h b = b ++ concat (map (be_encode 4) h)) as ->.
  { intros h. induction h as [|w h IH]; intros b; cbn [fold_left map concat]; [by rewrite app_nil_r|].
    rewrite IH. unfold appendUint32. by rewrite putUint32_be, app_assoc. }
  unfold appendUint64. rewrite putUint64_be, <- !app_assoc. unfold magic.
  replace (Z.to_nat (len (dg_x d) - len rest)) with (64 - length rest)%nat by (unfold len; lia).
  by destruct (is224 d).
Qed.

Lemma absorbed_words d m : absorbed d m -> hash_state (dg_h d).
Proof.
  intros (full & rest & -> & Hfull & _ & Hok & -> & _). apply Forall_app in Hok as [Hok _].
  apply (blockGeneric_spec (init_of (is224 d))); [apply init_state|done|done].
Qed.

(** The state is restored up to the unused part of the buffer. *)
Lemma unmarshal_marshal d d0 m : absorbed d m -> length (dg_x d0) = 64%nat -> is224 d0 = is224 d -> len m < 2 ^ 63 ->
  exists s d', MarshalBinary d = Ret s /\ UnmarshalBinary d0 s = Ret d' /\ absorbed d' m /\ is224 d' = is224 d.
Proof.
  intros Hd Hx0 H224 Hm. pose proof (absorbed_words d m Hd) as [Hh8 Hhok].
  destruct (MarshalBinary_spec d m Hd) as (rest & Hs & Htake & Hnx & Hrest).
  pose proof Hd as (full & rest' & Hcut & Hfull & Hrest' & Hok & Hh & Hnx' & Hx & Htake' & Hlen).
  assert (length rest' = length rest) as Hlr by (unfold len in *; lia).
  assert (rest' = rest) as -> by (by rewrite <- Htake', Hlr, Htake).
  assert (0 <= dg_len d < 2 ^ 64) as Hl64 by (rewrite Hlen; apply wrapU_range; lia).
  eexists _, (mkDigest (dg_h d) (rest ++ replicate (64 - length rest) 0) (len rest) (dg_len d) (is224 d)).
  split; [exact Hs|]. split; [|split].
  - unfold UnmarshalBinary. set (tl := concat _ ++ _).
    assert (length tl = 104%nat) as Htl.
    { subst tl. rewrite !length_app, length_replicate, length_be_encode.
      change (concat (map (be_encode 4) (dg_h d))) with (Sha.digest (dg_h d)). rewrite Sha.length_digest. lia. }
    assert (length (magic (is224 d)) = 4%nat) as Hmg by (by destruct (is224 d)).
    replace (take 4 (magic (is224 d) ++ tl)) with (magic (is224 d)) by (rewrite <- Hmg; by rewrite take_app_length).
    replace (drop 4 (magic (is224 d) ++ tl)) with tl by (rewrite <- Hmg; by rewrite drop_app_length).
    rewrite H224. replace (len (magic (is224 d) ++ tl)) with 108 by (unfold len; rewrite length_app; lia).
    replace (_ || _ || _) with false by (by destruct (is224 d)). change (108 =? marshaledSize) with true. cbn [negb check mbind outcome_bind].
    pose proof (consume_words_app (dg_h d) ((rest ++ replicate (64 - length rest) 0) ++ be_encode 8 (dg_len d)) Hhok) as Hcw.
    rewrite Hh8 in Hcw. unfold tl. rewrite Hcw. clear Hcw tl Htl Hs. cbn [mbind outcome_bind].
    assert (length (rest ++ replicate (64 - length rest) 0) = 64%nat) as H64 by (rewrite length_app, length_replicate; lia).
    revert H64. generalize (rest ++ replicate (64 - length rest) 0). intros buf H64.
    rewrite copy_at_start by (rewrite length_app; lia). rewrite Hx0, <- H64, Nat.min_l, drop_app_length, take_app_length by (rewrite length_app; lia).
    rewrite consumeUint64_be by done.
    cbn [mbind outcome_bind]. f_equal. f_equal.
    rewrite Hlen, wrapU_small by (pose proof (len_nonneg m); lia). rewrite int64_small by (pose proof (len_nonneg m); lia).
    rewrite Z.rem_mod_nonneg by (unfold chunk; pose proof (len_nonneg m); lia).
    destruct Hfull as [k Hk]. symmetry. apply (Z.mod_unique _ _ (Z.of_nat k)); unfold chunk, len in *; [lia|].
    rewrite Hcut, length_app. lia.
  - exists full, rest. cbn. repeat split; try done; [rewrite length_app, length_replicate; lia|]. apply take_app_length.
  - done.
Qed.

Lemma absorbed_writes ps : forall d m, absorbed d m -> Forall bytes_ok ps ->
  absorbed (fold_left digest_Write ps d) (m ++ concat ps) /\ is224 (fold_left digest_Write ps d) = is224 d.
Proof.
  induction ps as [|p ps IH]; intros d m Hd Hps; cbn [fold_left concat]; [by rewrite app_nil_r|].
  apply Forall_cons in Hps as [Hp Hps].
  destruct (IH (digest_Write d p) (m ++ p)) as [Ha Hb]; [by apply absorbed_Write|done|].
  rewrite app_assoc. split; [done|]. by rewrite Hb, is224_Write.
Qed.

Lemma Sum256_Ret data : bytes_ok data -> Sum256 data = Ret (Sha.sha256_with _K init256 data).
Proof.
  intros Hd. unfold Sum256.
  rewrite (checkSum_spec _ data); [by rewrite is224_Write|].
  apply (absorbed_Write _ [] data); [by apply absorbed_Reset|done].
Qed.

(** * Claims *)

(** C36: However a message is cut into writes, the streaming hash of the proofs of capacity
    returns, and what it returns is the FIPS 180-4 construction over the whole message with
    the constants of the package (truncated to 28 bytes, zero-padded, for the 224-bit
    variant); in particular the padding always ends on a block boundary, so the panic of
    checkSum is unreachable.  A state marshalled after any writes (of less than 2^63 bytes) is
    read back, and writing and summing from the restored state gives what the original state
    would have given. *)
Theorem mass_sha256_streams (b : bool) (ps : list bytes) (Hps : Forall bytes_ok ps) :
  let start := digest_Reset (zero_digest b) in
  let d := fold_left digest_Write ps start in
  checkSum d = Ret (if b then take 28 (Sha.sha256_with _K init224 (concat ps)) ++ replicate 4 0
                    else Sha.sha256_with _K init256 (concat ps)) /\
  (len (concat ps) < 2 ^ 63 ->
   exists s d', MarshalBinary d = Ret s /\ UnmarshalBinary start s = Ret d' /\
     forall qs, Forall bytes_ok qs ->
       checkSum (fold_left digest_Write qs d') = checkSum (fold_left digest_Write qs d)).
Proof.
  cbv zeta. pose proof (absorbed_Reset (zero_digest b) eq_refl) as H0.
  destruct (absorbed_writes ps _ _ H0 Hps) as [Hd Hb]. cbn [app] in Hd.
  split; [rewrite (checkSum_spec _ _ Hd), Hb; done|]. intros Hlen.
  destruct (unmarshal_marshal _ (digest_Reset (zero_digest b)) _ Hd) as (s & d' & Hs & Hu & Hd' & Hb'); [done|by rewrite Hb|done|].
  exists s, d'. split; [done|]. split; [done|]. intros qs Hqs.
  destruct (absorbed_writes qs _ _ Hd Hqs) as [Ha1 He1]. destruct (absorbed_writes qs _ _ Hd' Hqs) as [Ha2 He2].
  by rewrite (checkSum_spec _ _ Ha1), (checkSum_spec _ _ Ha2), He1, He2, Hb'.
Qed.

Definition two_writes : list bytes := [replicate 40 97; replicate 100 98].

Lemma mass_sha256_streams_witness :
  checkSum (fold_left digest_Write two_writes sha256_New) =
    Ret (Sha.sha256_with _K init256 (concat two_writes)).
Proof.
  apply (mass_sha256_streams false two_writes).
  unfold two_writes. repeat constructor; unfold is_byte; lia.
Defined.
