(* ===== verification/Poc.v ===== *)
(** Proofs of capacity (src/poc, src/poc/pocutil, src/poc/chiapos/pos.go): the two kinds of
    proofs of space, their encodings and their verification.  The BLS and chia libraries are
    C code called through cgo; they are the class [ChiaLib].  The floating-point part of the
    quality of a proof is the parameter [quality_of]. *)

From S2P Require Import Prelude Hashes Forks Keys PocHash.

(** * Definitions *)

Inductive poc_error :=
| ErrProofDecodeDataSize | ErrProofInvalidBitLength | ErrProofInvalidFlipValue
| ErrProofInvalidChallenge | ErrProofNilChia | ErrProofChiaNoQuality | ErrProofFilter
| ErrProofType | ErrProofNilItf
(** errors of chiapos/pos.go *)
| ErrEOF | ErrG1Element | ErrPoolKeyNil | ErrPuzzleHash | ErrNilPoolAndPuzzle
| ErrBothPoolAndPuzzle | ErrPlotKSize | ErrPosChallenge | ErrPosFilter | ErrVerifier.

#[global] Instance poc_error_eq_dec : EqDecision poc_error.
Proof. solve_decision. Defined.

Abbreviation poc A := (outcome poc_error A).

(** ** pocutil *)

Definition MASSSHA256 (raw : bytes) : poc bytes :=
  match Sum256 raw with Ret h => Ret h | _ => Panic end.

Definition MASSDoubleSHA256 (raw : bytes) : poc bytes := h ← MASSSHA256 raw; MASSSHA256 h.

(** [(1 << uint(bl)) - 1] in a [uint64]: a shift by 64 or more, which a negative [bl] asks
    for too, gives zero. *)
Definition bl_mask (bl : Z) : Z :=
  uint64 ((if (0 <=? bl) && (bl <? 64) then Z.shiftl 1 bl else 0) - 1).

Definition CutBigInt (bi bl : Z) : Z := Z.land (bl_mask bl) (uint64 (Z.abs bi)).

Definition CutHash (hash : bytes) (bl : Z) : Z := Z.land (bl_mask bl) (le_decode (take 8 hash)).

Definition FlipValue (v bl : Z) : Z := Z.land (bl_mask bl) (Z.lxor (bl_mask bl) v).

Definition RecordSize (bl : Z) : Z := Z.shiftr (bl + 7) 3.

Definition PoCValue2Bytes (v bl : Z) : poc bytes :=
  let size := RecordSize bl in
  let v := Z.land (bl_mask bl) v in
  slice (le_encode 8 v) 0 size.

Definition Bytes2PoCValue (vb : bytes) (bl : Z) : Z :=
  let b8 := copy_at (replicate 8 0) 0 vb in
  Z.land (bl_mask bl) (le_decode b8).

(** [vb] afterwards; the function writes to the slice it is given. *)
Definition NormalizePoCBytes (vb : bytes) (bl : Z) : poc bytes :=
  let size := RecordSize bl in
  if len vb <? size then Ret vb
  else
    let rem := Z.rem bl 8 in
    vb ← (if negb (rem =? 0) then
            b ← index vb (size - 1);
            Ret (<[Z.to_nat (size - 1) := Z.land b (uint8 ((if rem <? 0 then 0 else Z.shiftl 1 rem) - 1))]> vb)
          else Ret vb);
    if size <? 0 then Panic
    else Ret (take (Z.to_nat size) vb ++ replicate (length vb - Z.to_nat size) 0).

Definition PoCPrefixLen : Z := 4.
Definition PoCPrefix : bytes := [0x4d; 0x41; 0x53; 0x53].

Definition PB (x : bytes) (bl : Z) (pubKeyHash : bytes) : poc Z :=
  let raw := replicate 44 0 in
  let raw := copy_at raw 0 PoCPrefix in
  let raw := copy_at raw 4 pubKeyHash in
  let raw := copy_at raw 36 x in
  tail ← NormalizePoCBytes (drop 36 raw) bl;
  h ← MASSSHA256 (take 36 raw ++ tail);
  Ret (CutHash h bl).

Definition P (x bl : Z) (pubKeyHash : bytes) : poc Z := PB (le_encode 8 x) bl pubKeyHash.

Definition FB (x xp : bytes) (bl : Z) (pubKeyHash : bytes) : poc Z :=
  let raw := replicate 52 0 in
  let raw := copy_at raw 0 PoCPrefix in
  let raw := copy_at raw 4 pubKeyHash in
  let raw := copy_at raw 36 x in
  let raw := copy_at raw 44 xp in
  mid ← NormalizePoCBytes (take 8 (drop 36 raw)) bl;
  tail ← NormalizePoCBytes (drop 44 raw) bl;
  h ← MASSSHA256 (take 36 raw ++ mid ++ tail);
  Ret (CutHash h bl).

Definition F (x xp bl : Z) (pubKeyHash : bytes) : poc Z := FB (le_encode 8 x) (le_encode 8 xp) bl pubKeyHash.

(** ** The external libraries *)

(** [Hash256] returns the digest of its data, zeros for no data.  The decoders of group
    elements accept some strings of the right size; the rest is checked by the C library. *)
Class ChiaLib := {
  chia_Hash256 : bytes -> bytes;
  chia_Hash256_length b : length (chia_Hash256 b) = 32%nat;
  chia_Hash256_ok b : bytes_ok (chia_Hash256 b);
  g1_valid : bytes -> bool;
  g1_valid_length b : g1_valid b = true -> length b = 48%nat;
  g2_valid : bytes -> bool;
  g2_valid_length b : g2_valid b = true -> length b = 96%nat;
  (** [ValidateProof] of the plotter: [None] is an error. *)
  ValidateProof : Z -> bytes -> bytes -> bytes -> option bytes;
  (** [bls_SchemeMPL_verify] of the augmented scheme: public key, message, signature. *)
  aug_verify : bytes -> bytes -> bytes -> option bool;
  (** the quality of a hash value under a factor, computed with floating-point numbers *)
  quality_of : (Z * bool) + Z -> bytes -> Z;
}.

Section poc.
Context {HF : HashFunctions} {CL : ChiaLib}.

Definition SHA256 (raw : bytes) : bytes := sha256_Sum256 raw.
Definition DoubleSHA256 (raw : bytes) : bytes := SHA256 (SHA256 raw).

Definition PubKeyHash (pubKey : option Keys.PublicKey) : bytes :=
  match pubKey with
  | None => replicate 32 0
  | Some pubKey => DoubleSHA256 (Keys.SerializeCompressed pubKey)
  end.

(** ** chiapos *)

Definition MinPlotSize : Z := 32.
Definition MaxPlotSize : Z := 50.
Definition ZeroID : bytes := replicate 32 0.

(** A group element is its serialisation. *)
Definition NewG1ElementFromBytes (b : bytes) : poc bytes :=
  if g1_valid b then Ret (copy_at (replicate 48 0) 0 b) else Err ErrG1Element.

Record ProofOfSpace := mkProofOfSpace {
  pos_Challenge : bytes;
  PoolPublicKey : option bytes;
  PuzzleHash : bytes;
  PlotPublicKey : bytes;
  KSize : Z;
  pos_Proof : bytes;
}.

Definition GetID (pos : ProofOfSpace) : poc bytes :=
  check (bool_decide (PoolPublicKey pos = None) && bytes_Equal (PuzzleHash pos) ZeroID) ErrNilPoolAndPuzzle;;
  check (bool_decide (PoolPublicKey pos <> None) && negb (bytes_Equal (PuzzleHash pos) ZeroID)) ErrBothPoolAndPuzzle;;
  Ret match PoolPublicKey pos with
      | None => chia_Hash256 (PuzzleHash pos ++ PlotPublicKey pos)
      | Some pk => chia_Hash256 (pk ++ PlotPublicKey pos)
      end.

Definition pos_Encode (pos : ProofOfSpace) : bytes :=
  pos_Challenge pos ++
  match PoolPublicKey pos with
  | Some pk => [1] ++ copy_at (replicate 48 0) 0 pk
  | None => [0]
  end ++
  (if negb (bytes_Equal (PuzzleHash pos) ZeroID) then [1] ++ PuzzleHash pos else [0]) ++
  copy_at (replicate 48 0) 0 (PlotPublicKey pos) ++
  [KSize pos] ++
  be_encode 4 (uint32 (len (pos_Proof pos))) ++
  pos_Proof pos.

(** [bytes.Reader.Read] into [buf]: at the end an error, else the buffer is overwritten as
    far as the data goes. *)
Definition reader_Read (buf r : bytes) : poc (bytes * bytes) :=
  match r with
  | [] => Err ErrEOF
  | _ => Ret (copy_at buf 0 r, drop (length buf) r)
  end.

Definition reader_ReadByte (r : bytes) : poc (Z * bytes) :=
  match r with [] => Err ErrEOF | b :: r => Ret (b, r) end.

(** The receiver is fresh in every call: its puzzle hash, which is never written, is zero.
    [b48] is one buffer, used for both keys. *)
Definition pos_Decode (data : bytes) : poc ProofOfSpace :=
  '(b32, r) ← reader_Read (replicate 32 0) data;
  '(b, r) ← reader_ReadByte r;
  '(b48, r) ← (if b =? 1 then reader_Read (replicate 48 0) r else Err ErrPoolKeyNil);
  pool ← NewG1ElementFromBytes b48;
  '(b, r) ← reader_ReadByte r;
  check (b =? 1) ErrPuzzleHash;;
  '(b48, r) ← reader_Read b48 r;
  plot ← NewG1ElementFromBytes b48;
  '(k, r) ← reader_ReadByte r;
  '(b4, r) ← reader_Read (replicate 4 0) r;
  let n := be_decode b4 in
  proof ← (match reader_Read (replicate (Z.to_nat n) 0) r with
           | Ret (p, _) => Ret p
           | _ => if n =? 0 then Ret [] else Err ErrEOF
           end);
  Ret (mkProofOfSpace b32 (Some pool) ZeroID plot k proof).

Definition CalculatePlotFilterInput (plotID challenge : bytes) : bytes :=
  let data := replicate 64 0 in
  let data := copy_at data 0 plotID in
  let data := copy_at data 32 challenge in
  chia_Hash256 data.

Definition CalculatePosChallenge (plotID challenge : bytes) : bytes :=
  chia_Hash256 (CalculatePlotFilterInput plotID challenge).

Definition PassPlotFilter (plotID challenge : bytes) : bool :=
  let input := CalculatePlotFilterInput plotID challenge in
  (nth 0 input 0 =? 0) && (Z.land (nth 1 input 0) 0x80 =? 0).

Definition verifier_GetVerifiedQuality (plotSeed proof challenge : bytes) (k : Z) : poc bytes :=
  match ValidateProof k plotSeed challenge proof with Some q => Ret q | None => Err ErrVerifier end.

Definition GetVerifiedQuality (pos : ProofOfSpace) (challenge : bytes) : poc bytes :=
  pid ← GetID pos;
  check ((KSize pos <? MinPlotSize) || (KSize pos >? MaxPlotSize)) ErrPlotKSize;;
  check (negb (bytes_Equal (pos_Challenge pos) (CalculatePosChallenge pid challenge))) ErrPosChallenge;;
  check (negb (PassPlotFilter pid challenge)) ErrPosFilter;;
  verifier_GetVerifiedQuality pid (pos_Proof pos) (pos_Challenge pos) (KSize pos).

Definition pos_GetQuality (pos : ProofOfSpace) : poc bytes :=
  pid ← GetID pos;
  verifier_GetVerifiedQuality pid (pos_Proof pos) (pos_Challenge pos) (KSize pos).

(** ** Proofs *)

Definition PoCSlot : Z := 3.
Definition MinValidDefaultBitLength : Z := 24.
Definition MaxValidDefaultBitLength : Z := 40.
Definition ProofTypeDefault : Z := 0.
Definition ProofTypeChia : Z := 1.
Definition ProofTypeEmpty : Z := 255.

Definition EnsureBitLength (pt bl : Z) : bool :=
  if pt =? ProofTypeDefault then
    (bl >=? MinValidDefaultBitLength) && (bl <=? MaxValidDefaultBitLength) && (Z.rem bl 2 =? 0)
  else if pt =? ProofTypeChia then (MinPlotSize <=? bl) && (bl <=? MaxPlotSize)
  else false.

Definition DefaultPlotSize (bl : Z) : Z :=
  uint64 (int64 (bl * int64 (if bl - 2 <? 64 then Z.shiftl 1 (bl - 2) else 0))).

Definition ChiaPlotSize (k : Z) : Z :=
  uint64 (uint64 (2 * k + 1) * (if k - 1 <? 64 then uint64 (Z.shiftl 1 (k - 1)) else 0)).

Definition PlotSize (pt bl : Z) : Z :=
  if negb (EnsureBitLength pt bl) then 0
  else if pt =? ProofTypeDefault then DefaultPlotSize bl
  else if pt =? ProofTypeChia then ChiaPlotSize bl
  else 0.

Definition IsValidProofType (pt : Z) : bool := (pt =? ProofTypeDefault) || (pt =? ProofTypeChia).

Record DefaultProof := mkDefaultProof { X : bytes; XPrime : bytes; BL : Z }.

Definition massProofByteLength : Z := 17.

Definition DefaultProof_Encode (proof : DefaultProof) : bytes :=
  let data := replicate 17 0 in
  let data := copy_at (take 8 data) 0 (X proof) ++ drop 8 data in
  let data := take 8 data ++ copy_at (take 8 (drop 8 data)) 0 (XPrime proof) ++ drop 16 data in
  <[16%nat := uint8 (BL proof)]> data.

Definition DefaultProof_Decode (data : bytes) : poc DefaultProof :=
  check (negb (len data =? massProofByteLength)) ErrProofDecodeDataSize;;
  bl ← index data 16;
  x ← PoCValue2Bytes (le_decode (take 8 data)) bl;
  xp ← PoCValue2Bytes (le_decode (take 8 (drop 8 data))) bl;
  Ret (mkDefaultProof x xp bl).

(** The 32 bytes [GetHashVal] hashes. *)
Definition hashval_input (proof : DefaultProof) (slot height : Z) : bytes :=
  let b32 := replicate 32 0 in
  let b32 := copy_at b32 0 (le_encode 8 slot) in
  let b32 := copy_at b32 8 (X proof) in
  let b32 := copy_at b32 16 (XPrime proof) in
  copy_at b32 24 (le_encode 8 height).

Definition GetHashVal (proof : DefaultProof) (slot height : Z) : bytes := SHA256 (hashval_input proof slot height).

Definition DefaultProof_Verify (proof : DefaultProof) (pubKeyHash challenge : bytes) (filter : bool) : poc unit :=
  let bl := BL proof in
  check (negb (EnsureBitLength ProofTypeDefault bl)) ErrProofInvalidBitLength;;
  check (filter && negb (PassPlotFilter pubKeyHash challenge)) ErrProofFilter;;
  y ← PB (X proof) bl pubKeyHash;
  yp ← PB (XPrime proof) bl pubKeyHash;
  check (negb (y =? FlipValue yp bl)) ErrProofInvalidFlipValue;;
  let cShort := CutHash challenge bl in
  z ← FB (X proof) (XPrime proof) bl pubKeyHash;
  check (negb (cShort =? z)) ErrProofInvalidChallenge.

Definition poc_EnforceMASSIP0002 (height : Z) : bool := height >=? MASSIP0002Height.

Definition DefaultProof_Quality (proof : DefaultProof) (slot height : Z) : Z :=
  quality_of (inl (BL proof, poc_EnforceMASSIP0002 height)) (GetHashVal proof slot height).

(** A chia proof holds a proof of space, or nil. *)
Definition ChiaProof : Type := option ProofOfSpace.

Definition ChiaProof_Encode (proof : ChiaProof) : bytes :=
  match proof with
  | None => []
  | Some pos => pos_Encode pos ++ [uint8 ProofTypeChia]
  end.

Definition ChiaProof_Decode (data : bytes) : poc ChiaProof :=
  check (len data <? 1) ErrProofDecodeDataSize;;
  b ← index data (len data - 1);
  check (negb (b =? ProofTypeChia)) ErrProofInvalidBitLength;;
  d ← slice data 0 (len data - 1);
  pos ← pos_Decode d;
  Ret (Some pos).

Definition HashValChia (chiaQuality : bytes) (slot height : Z) : bytes :=
  SHA256 (le_encode 8 slot ++ chiaQuality ++ le_encode 8 height).

Definition ChiaProof_Quality (proof : ChiaProof) (slot height : Z) : Z :=
  match proof with
  | None => 0
  | Some pos =>
      match pos_GetQuality pos with
      | Ret q => quality_of (inr (KSize pos)) (HashValChia q slot height)
      | _ => 0
      end
  end.

Definition ChiaProof_Verify (proof : ChiaProof) (challenge : bytes) : poc unit :=
  match proof with
  | None => Err ErrProofNilChia
  | Some pos =>
      quality ← GetVerifiedQuality pos challenge;
      check (len quality =? 0) ErrProofChiaNoQuality
  end.

(** The interface [Proof]. *)
Inductive Proof :=
| PDefault (p : DefaultProof)
| PChia (p : ChiaProof)
| PEmpty.

Definition Proof_Type (p : Proof) : Z :=
  match p with PDefault _ => ProofTypeDefault | PChia _ => ProofTypeChia | PEmpty => ProofTypeEmpty end.

Definition BitLength (p : Proof) : Z :=
  match p with
  | PDefault d => BL d
  | PChia None => ProofTypeChia
  | PChia (Some pos) => KSize pos
  | PEmpty => ProofTypeEmpty
  end.

Definition Proof_Encode (p : Proof) : bytes :=
  match p with PDefault d => DefaultProof_Encode d | PChia c => ChiaProof_Encode c | PEmpty => [] end.

Definition Proof_Verify (p : Proof) (seed challenge : bytes) (filter : bool) : poc unit :=
  match p with
  | PDefault d => DefaultProof_Verify d seed challenge filter
  | PChia c => ChiaProof_Verify c challenge
  | PEmpty => Ret tt
  end.

Definition Proof_Quality (p : Proof) (slot height : Z) : Z :=
  match p with
  | PDefault d => DefaultProof_Quality d slot height
  | PChia c => ChiaProof_Quality c slot height
  | PEmpty => 0
  end.

Definition VerifiedQuality (p : Proof) (seed challenge : bytes) (filter : bool) (slot height : Z) : poc Z :=
  Proof_Verify p seed challenge filter;;
  Ret (Proof_Quality p slot height).

Definition GetChiaProof (p : option Proof) : poc ChiaProof :=
  match p with None => Err ErrProofNilItf | Some (PChia c) => Ret c | Some _ => Err ErrProofType end.

Definition GetDefaultProof (p : option Proof) : poc DefaultProof :=
  match p with None => Err ErrProofNilItf | Some (PDefault d) => Ret d | Some _ => Err ErrProofType end.

Definition GetChiaPoolPublicKey (p : option Proof) : poc (option bytes) :=
  c ← GetChiaProof p;
  match c with None => Err ErrProofNilChia | Some pos => Ret (PoolPublicKey pos) end.

Definition GetChiaPlotID (p : option Proof) : poc bytes :=
  c ← GetChiaProof p;
  match c with None => Err ErrProofNilChia | Some pos => GetID pos end.

End poc.
