(* ===== verification/PocSpec.v ===== *)
(** Theorems on the proofs of capacity of [Poc]: what verification of a default proof means,
    that it reads only the values of the two numbers of a proof and not their bytes, and the
    round trips of the encodings. *)

From S2P Require Import Prelude Hashes Keys PocHash Poc.

(** * Bit-length masks *)

Lemma bl_mask_ones bl : 0 <= bl <= 64 -> bl_mask bl = Z.ones bl.
Proof.
  intros Hbl. unfold bl_mask. rewrite Z.ones_equiv. destruct (decide (bl = 64)) as [->|].
  { done. }
  replace ((0 <=? bl) && (bl <? 64)) with true by (symmetry; rewrite andb_true_iff, Z.leb_le, Z.ltb_lt; lia).
  rewrite Z.shiftl_mul_pow2, Z.mul_1_l by lia. rewrite wrapU_small; [lia|].
  assert (2 ^ bl < 2 ^ 64) by (apply Z.pow_lt_mono_r; lia). assert (0 < 2 ^ bl) by lia. lia.
Qed.

Lemma land_mask_mod bl v : 0 <= bl <= 64 -> Z.land (bl_mask bl) v = v mod 2 ^ bl.
Proof. intros. rewrite bl_mask_ones, Z.land_comm by done. apply Z.land_ones. lia. Qed.

Lemma FlipValue_spec v bl : 0 <= bl <= 64 -> 0 <= v < 2 ^ bl -> FlipValue v bl = 2 ^ bl - 1 - v.
Proof.
  intros Hbl Hv. unfold FlipValue. rewrite land_mask_mod, bl_mask_ones by done.
  assert (Z.lxor (Z.ones bl) v = Z.ones bl - v) as ->.
  { assert (forall i, Z.testbit v i = true -> Z.testbit (Z.ones bl) i = true) as Hb.
    { intros i Hi. assert (0 <= i) by (destruct (decide (0 <= i)); [done|by rewrite Z.testbit_neg_r in Hi by lia]).
      apply Z.ones_spec_low. split; [done|]. destruct (decide (i < bl)); [done|].
      rewrite <- (Z.mod_small v (2 ^ bl)), Z.mod_pow2_bits_high in Hi by lia. done. }
    rewrite Z.sub_nocarry_ldiff.
    - apply Z.bits_inj'. intros i Hi. rewrite Z.lxor_spec, Z.ldiff_spec. specialize (Hb i).
      destruct (Z.testbit v i); [rewrite Hb by done|]; by destruct (Z.testbit (Z.ones bl) i).
    - apply Z.bits_inj'. intros i Hi. rewrite Z.ldiff_spec, Z.bits_0. specialize (Hb i).
      destruct (Z.testbit v i); [by rewrite Hb|done]. }
  rewrite Z.ones_equiv, Z.mod_small by lia. lia.
Qed.

(** * Normalised bytes *)

Lemma RecordSize_spec bl : RecordSize bl = (bl + 7) / 8.
Proof. unfold RecordSize. by rewrite Z.shiftr_div_pow2 by lia. Qed.

Lemma le_decode_zeros n : le_decode (replicate n 0) = 0.
Proof. induction n as [|n IH]; cbn [replicate le_decode]; lia. Qed.

(** The value of eight normalised bytes is the value cut to the bit length. *)
Lemma Normalize_value vb bl : bytes_ok vb -> length vb = 8%nat -> 1 <= bl <= 64 ->
  NormalizePoCBytes vb bl = Ret (le_encode 8 (le_decode vb mod 2 ^ bl)).
Proof.
  intros Hok Hlen Hbl. unfold NormalizePoCBytes. rewrite RecordSize_spec.
  set (size := (bl + 7) / 8).
  assert (1 <= size <= 8 /\ 8 * size - 7 <= bl <= 8 * size) as [Hs Hb].
  { subst size. pose proof (Z.div_mod (bl + 7) 8 ltac:(lia)). pose proof (Z.mod_pos_bound (bl + 7) 8 ltac:(lia)). lia. }
  replace (len vb <? size) with false by (symmetry; apply Z.ltb_ge; unfold len; lia).
  set (s := Z.to_nat (size - 1)). set (r := bl - 8 * (size - 1)).
  assert (exists a b c, vb = a ++ b :: c /\ length a = s) as (a & b & c & -> & Ha).
  { destruct (lookup_lt_is_Some_2 vb s) as [b Hb']; [subst s; lia|].
    exists (take s vb), b, (drop (S s) vb). split; [by rewrite take_drop_middle|]. rewrite length_take. subst s. lia. }
  apply Forall_app in Hok as [Hoka Hokb]. apply Forall_cons in Hokb as [Hokb Hokc]. unfold is_byte in Hokb.
  (* the last byte is cut to its [r] bits *)
  assert ((if negb (Z.rem bl 8 =? 0) then
             b0 ← index (a ++ b :: c) (size - 1);
             Ret (<[s := Z.land b0 (uint8 ((if Z.rem bl 8 <? 0 then 0 else Z.shiftl 1 (Z.rem bl 8)) - 1))]> (a ++ b :: c))
           else Ret (a ++ b :: c)) = Ret (E := poc_error) (a ++ (b mod 2 ^ r) :: c)) as ->.
  { rewrite Z.rem_mod_nonneg by lia. subst r.
    destruct (decide (bl = 8 * size)) as [Heq|Hne].
    - replace (bl mod 8) with 0 by (rewrite Heq, Z.mul_comm; symmetry; apply Z.mod_mul; lia). cbn [Z.eqb negb].
      do 3 f_equal. replace (bl - 8 * (size - 1)) with 8 by lia. rewrite Z.mod_small by (change (2 ^ 8) with 256; lia). done.
    - assert (bl mod 8 = bl - 8 * (size - 1)) as -> by (symmetry; apply (Z.mod_unique _ _ (size - 1)); lia).
      set (r := bl - 8 * (size - 1)) in *.
      replace (r =? 0) with false by (symmetry; apply Z.eqb_neq; lia). cbn [negb].
      replace (index (a ++ b :: c) (size - 1)) with (Ret (E := poc_error) b).
      2:{ symmetry. apply index_Ret. split; [lia|]. fold s. rewrite <- Ha. apply lookup_app_mid. }
      cbn [mbind outcome_bind]. f_equal. rewrite <- Ha, insert_app_r_alt, Nat.sub_diag by lia. cbn [insert list_insert].
      do 2 f_equal. replace (r <? 0) with false by (symmetry; apply Z.ltb_ge; lia).
      rewrite Z.shiftl_mul_pow2, Z.mul_1_l by lia. rewrite wrapU_small.
      + rewrite Z.sub_1_r, <- Z.ones_equiv, Z.land_ones by lia. done.
      + assert (2 ^ r <= 2 ^ 8) by (apply Z.pow_le_mono_r; lia). assert (0 < 2 ^ r) by lia. lia. }
  cbn [mbind outcome_bind]. replace (size <? 0) with false by (symmetry; apply Z.ltb_ge; lia).
  f_equal. rewrite !length_app in *. cbn [length] in *.
  replace (Z.to_nat size) with (length a + 1)%nat by (subst s; lia).
  rewrite take_app_add. cbn [take]. rewrite take_0.
  assert (r <= 8 /\ 1 <= r) as [Hr8 Hr1] by (subst r; lia).
  assert (0 <= b mod 2 ^ r < 256) as Hbr.
  { pose proof (Z.mod_pos_bound b (2 ^ r) ltac:(lia)). assert (2 ^ r <= 2 ^ 8) by (apply Z.pow_le_mono_r; lia).
    change (2 ^ 8) with 256 in *. lia. }
  apply le_decode_inj; [| apply le_encode_ok | |].
  - apply Forall_app. split; [apply Forall_app; split; [done|by constructor]|]. apply Forall_replicate. unfold is_byte. lia.
  - rewrite !length_app, length_replicate, length_le_encode. cbn [length]. lia.
  - rewrite le_decode_encode, !le_decode_app, le_decode_zeros. cbn [le_decode].
    pose proof (le_decode_range a Hoka) as Hra.
    assert (le_decode (b :: c) = b + 256 * le_decode c) as Hbc by done.
    assert (2 ^ bl = 256 ^ len a * 2 ^ r) as Hpow.
    { change 256 with (2 ^ 8). rewrite <- Z.pow_mul_r, <- Z.pow_add_r by (unfold len; lia). f_equal.
      subst s r. unfold len. lia. }
    assert (0 < 256 ^ len a) by (apply Z.pow_pos_nonneg; [lia|apply len_nonneg]).
    assert (0 < 2 ^ r) by lia.
    assert ((le_decode a + 256 ^ len a * (b + 256 * le_decode c)) mod 2 ^ bl = le_decode a + 256 ^ len a * (b mod 2 ^ r)) as ->.
    { symmetry. apply (Z.mod_unique _ _ (b / 2 ^ r + 2 ^ (8 - r) * le_decode c)).
      - left. rewrite Hpow. pose proof (Z.mod_pos_bound b (2 ^ r) ltac:(lia)). nia.
      - rewrite Hpow. assert (256 = 2 ^ r * 2 ^ (8 - r)) as H256 by (rewrite <- Z.pow_add_r by lia; by replace (r + (8 - r)) with 8 by lia).
        pose proof (Z.div_mod b (2 ^ r) ltac:(lia)) as Hd. rewrite Hd at 1. rewrite H256 at 2. ring. }
    assert (2 ^ bl <= 2 ^ 64) by (apply Z.pow_le_mono_r; lia).
    change (256 ^ Z.of_nat 8) with (2 ^ 64). rewrite (Z.mod_small (le_decode a + _)); [lia|].
    pose proof (Z.mod_pos_bound b (2 ^ r) ltac:(lia)). nia.
Qed.

(** * The plot functions *)

Lemma drop_copy_at {A} (dst : list A) i src : (i <= length dst)%nat ->
  drop i (copy_at dst i src) = copy_at (drop i dst) 0 src.
Proof.
  intros Hi. unfold copy_at. rewrite drop_app_ge by (rewrite length_take; lia). rewrite length_take, Nat.min_l, Nat.sub_diag by lia.
  rewrite !drop_0, take_0, length_drop, Nat.sub_0_r, drop_drop. done.
Qed.

Lemma take_copy_at {A} (dst : list A) i src : (i <= length dst)%nat -> take i (copy_at dst i src) = take i dst.
Proof.
  intros Hi. unfold copy_at. rewrite take_app_le by (rewrite length_take; lia). rewrite take_take. f_equal. lia.
Qed.

Lemma copy_at_app {A} (a b c src : list A) : length b = length src -> copy_at (a ++ b ++ c) (length a) src = a ++ src ++ c.
Proof.
  intros Hb. unfold copy_at. rewrite take_app_length, !length_app. f_equal.
  rewrite take_ge by lia. f_equal. rewrite <- Hb, <- length_app, app_assoc. apply drop_app_length.
Qed.

(** The eight bytes a slice is copied to. *)
Definition pad8 (x : bytes) : bytes := copy_at (replicate 8 0) 0 x.

Lemma length_pad8 x : length (pad8 x) = 8%nat.
Proof. apply length_copy_at. lia. Qed.

Lemma pad8_spec x : pad8 x = take 8 x ++ replicate (8 - length x) 0.
Proof. unfold pad8, copy_at. by rewrite take_0, drop_replicate. Qed.

Lemma pad8_ok x : bytes_ok x -> bytes_ok (pad8 x).
Proof.
  intros Hx. rewrite pad8_spec. apply Forall_app. split; [by apply Forall_take|]. apply Forall_replicate. unfold is_byte. lia.
Qed.

Lemma pad8_full x : length x = 8%nat -> pad8 x = x.
Proof. intros Hx. rewrite pad8_spec, Hx, take_ge by lia. apply app_nil_r. Qed.

Lemma Bytes2PoCValue_spec x bl : 0 <= bl <= 64 -> Bytes2PoCValue x bl = le_decode (pad8 x) mod 2 ^ bl.
Proof. intros. unfold Bytes2PoCValue. by rewrite land_mask_mod. Qed.

(** The message that is hashed. *)
Definition mass_hash (m : bytes) : bytes := Sha.sha256_with _K init256 m.

Lemma MASSSHA256_Ret m : bytes_ok m -> MASSSHA256 m = Ret (mass_hash m).
Proof. intros Hm. unfold MASSSHA256. by rewrite Sum256_Ret. Qed.

(** The two functions of a plot of bit length [bl] for the key hash [h], on numbers. *)
Definition plot_P (bl : Z) (h : bytes) (x : Z) : Z :=
  le_decode (take 8 (mass_hash (PoCPrefix ++ h ++ le_encode 8 x))) mod 2 ^ bl.
Definition plot_F (bl : Z) (h : bytes) (x xp : Z) : Z :=
  le_decode (take 8 (mass_hash (PoCPrefix ++ h ++ le_encode 8 x ++ le_encode 8 xp))) mod 2 ^ bl.

Lemma prefix_copied n h : length h = 32%nat ->
  copy_at (copy_at (replicate (36 + n) 0) 0 PoCPrefix) 4 h = (PoCPrefix ++ h) ++ replicate n 0.
Proof.
  intros Hh. replace (36 + n)%nat with (4 + (32 + n))%nat by lia. rewrite !replicate_add.
  pose proof (copy_at_app [] (replicate 4 0) (replicate 32 0 ++ replicate n 0) PoCPrefix eq_refl) as H1.
  cbn [app length] in H1. rewrite H1.
  change 4%nat with (length PoCPrefix). rewrite copy_at_app by (by rewrite length_replicate). by rewrite app_assoc.
Qed.

Lemma prefix_length h : length h = 32%nat -> length (PoCPrefix ++ h) = 36%nat.
Proof. intros Hh. rewrite length_app, Hh. done. Qed.

Lemma prefix_ok h : bytes_ok h -> bytes_ok (PoCPrefix ++ h).
Proof. intros Hh. apply Forall_app. split; [|done]. repeat constructor; unfold is_byte; lia. Qed.

Lemma CutHash_spec h bl : 0 <= bl <= 64 -> CutHash h bl = le_decode (take 8 h) mod 2 ^ bl.
Proof. intros. unfold CutHash. by rewrite land_mask_mod. Qed.

Section plot.
Context (bl : Z) (h : bytes) (Hbl : 1 <= bl <= 64) (Hh : bytes_ok h) (Hlen : length h = 32%nat).

Lemma PB_spec x : bytes_ok x -> PB x bl h = Ret (plot_P bl h (Bytes2PoCValue x bl)).
Proof.
  intros Hx. unfold PB. cbv zeta.
  assert (copy_at (copy_at (replicate 44 0) 0 PoCPrefix) 4 h = (PoCPrefix ++ h) ++ replicate 8 0) as Hpre
    by (apply (prefix_copied 8); done).
  rewrite Hpre. clear Hpre.
  pose proof (prefix_length h Hlen) as Hp. pose proof (prefix_ok h Hh) as Hpok.
  unfold plot_P. rewrite app_assoc. revert Hp Hpok. generalize (PoCPrefix ++ h). intros pre Hp Hpok.
  rewrite drop_copy_at, take_copy_at by (rewrite length_app, length_replicate; lia).
  rewrite <- Hp, drop_app_length, take_app_length. fold (pad8 x).
  rewrite Normalize_value by (apply pad8_ok, Hx || apply length_pad8 || lia).
  cbn [mbind outcome_bind]. rewrite <- Bytes2PoCValue_spec by lia.
  rewrite MASSSHA256_Ret by (apply Forall_app; split; [done|apply le_encode_ok]).
  cbn [mbind outcome_bind]. by rewrite CutHash_spec by lia.
Qed.

Lemma take_pad n x : (n <= 16)%nat -> take n (copy_at (replicate 16 0) 0 x) = copy_at (replicate n 0) 0 x.
Proof.
  intros Hn. unfold copy_at. rewrite !take_0, !length_replicate, !Nat.sub_0_r, !drop_replicate. cbn [app Nat.add].
  rewrite take_app, take_take, Nat.min_l, length_take by lia. rewrite take_replicate. do 2 f_equal. lia.
Qed.

Lemma FB_spec x xp : bytes_ok x -> bytes_ok xp -> (length x <= 8)%nat ->
  FB x xp bl h = Ret (plot_F bl h (Bytes2PoCValue x bl) (Bytes2PoCValue xp bl)).
Proof.
  intros Hx Hxp Hlx. unfold FB. cbv zeta.
  assert (copy_at (copy_at (replicate 52 0) 0 PoCPrefix) 4 h = (PoCPrefix ++ h) ++ replicate 16 0) as Hpre
    by (apply (prefix_copied 16); done).
  rewrite Hpre. clear Hpre.
  pose proof (prefix_length h Hlen) as Hp. pose proof (prefix_ok h Hh) as Hpok.
  unfold plot_F. rewrite (app_assoc PoCPrefix). revert Hp Hpok. generalize (PoCPrefix ++ h). intros pre Hp Hpok.
  set (raw := copy_at (pre ++ replicate 16 0) 36 x).
  assert (raw = pre ++ pad8 x ++ replicate 8 0) as ->.
  { subst raw. rewrite <- (take_drop 36 (copy_at _ _ _)).
    rewrite drop_copy_at, take_copy_at by (rewrite length_app, length_replicate; lia).
    rewrite <- Hp, drop_app_length, take_app_length. f_equal.
    rewrite pad8_spec. unfold copy_at. rewrite take_0, length_replicate, drop_replicate. cbn [app Nat.add Nat.sub].
    rewrite !take_ge, <- app_assoc, <- replicate_add by lia. do 2 f_equal. lia. }
  pose proof (length_pad8 x) as H8. set (raw := pre ++ pad8 x ++ replicate 8 0).
  assert (copy_at raw 44 xp = pre ++ pad8 x ++ pad8 xp) as ->.
  { subst raw. rewrite <- (take_drop 44 (copy_at _ _ _)).
    rewrite drop_copy_at, take_copy_at by (rewrite !length_app, length_replicate; lia).
    rewrite !app_assoc. assert (length (pre ++ pad8 x) = 44%nat) as H44 by (rewrite length_app; lia).
    by rewrite <- H44, drop_app_length, take_app_length. }
  clear raw.
  replace (take 36 (pre ++ pad8 x ++ pad8 xp)) with pre by (rewrite <- Hp; by rewrite take_app_length).
  replace (drop 36 (pre ++ pad8 x ++ pad8 xp)) with (pad8 x ++ pad8 xp) by (rewrite <- Hp; by rewrite drop_app_length).
  replace (drop 44 (pre ++ pad8 x ++ pad8 xp)) with (pad8 xp).
  2:{ rewrite app_assoc. assert (length (pre ++ pad8 x) = 44%nat) as <- by (rewrite length_app; lia). by rewrite drop_app_length. }
  replace (take 8 (pad8 x ++ pad8 xp)) with (pad8 x) by (rewrite <- H8 at 1; by rewrite take_app_length).
  rewrite !Normalize_value by (by apply pad8_ok || apply length_pad8 || lia).
  cbn [mbind outcome_bind]. rewrite <- !Bytes2PoCValue_spec by lia.
  rewrite MASSSHA256_Ret by (repeat (apply Forall_app; split); [done|apply le_encode_ok|apply le_encode_ok]).
  cbn [mbind outcome_bind]. by rewrite CutHash_spec by lia.
Qed.
End plot.

Lemma EnsureBitLength_default bl : EnsureBitLength ProofTypeDefault bl = true <-> 24 <= bl <= 40 /\ bl mod 2 = 0.
Proof.
  change (EnsureBitLength ProofTypeDefault bl) with ((bl >=? 24) && (bl <=? 40) && (Z.rem bl 2 =? 0)).
  rewrite !andb_true_iff, Z.geb_leb, !Z.leb_le, Z.eqb_eq. split.
  - intros [[? ?] Hr]. rewrite Z.rem_mod_nonneg in Hr by lia. lia.
  - intros [? ?]. rewrite Z.rem_mod_nonneg by lia. lia.
Qed.

(** * Encodings of default proofs *)

Lemma take_le_encode n m z : (n <= m)%nat -> take n (le_encode m z) = le_encode n z.
Proof.
  revert m z. induction n as [|n IH]; intros [|m] z Hn; cbn; [done|done|lia|]. f_equal. apply IH. lia.
Qed.

Lemma PoCValue2Bytes_spec v bl : 0 <= bl <= 64 ->
  PoCValue2Bytes v bl = Ret (le_encode (Z.to_nat (RecordSize bl)) (v mod 2 ^ bl)).
Proof.
  intros Hbl. unfold PoCValue2Bytes. rewrite land_mask_mod by done. rewrite RecordSize_spec.
  assert (0 <= (bl + 7) / 8 <= 8).
  { pose proof (Z.div_mod (bl + 7) 8 ltac:(lia)). pose proof (Z.mod_pos_bound (bl + 7) 8 ltac:(lia)). lia. }
  rewrite slice_Ret by (unfold len; rewrite ?length_le_encode; lia). f_equal.
  rewrite drop_0, Z.sub_0_r. apply take_le_encode. lia.
Qed.

(** A number of [bl] bits in the bytes such a number takes. *)
Definition canonical_value (bl : Z) (x : bytes) : Prop :=
  bytes_ok x /\ len x = RecordSize bl /\ le_decode x < 2 ^ bl.
Definition canonical (p : DefaultProof) : Prop :=
  0 <= BL p <= 64 /\ canonical_value (BL p) (X p) /\ canonical_value (BL p) (XPrime p).

Lemma RecordSize_8 bl : 0 <= bl <= 64 -> 0 <= RecordSize bl <= 8 /\ bl <= 8 * RecordSize bl.
Proof.
  intros. rewrite RecordSize_spec.
  pose proof (Z.div_mod (bl + 7) 8 ltac:(lia)). pose proof (Z.mod_pos_bound (bl + 7) 8 ltac:(lia)). lia.
Qed.

Lemma canonical_short bl x : 0 <= bl <= 64 -> canonical_value bl x -> (length x <= 8)%nat.
Proof. intros Hbl (_ & Hl & _). pose proof (RecordSize_8 bl Hbl). unfold len in Hl. lia. Qed.

Lemma le_decode_pad8 x : (length x <= 8)%nat -> le_decode (pad8 x) = le_decode x.
Proof. intros Hx. rewrite pad8_spec, take_ge, le_decode_app, le_decode_zeros by lia. lia. Qed.

Lemma canonical_decoded v bl : 0 <= bl <= 64 -> canonical_value bl (le_encode (Z.to_nat (RecordSize bl)) (v mod 2 ^ bl)).
Proof.
  intros Hbl. pose proof (RecordSize_8 bl Hbl) as [H1 H2]. split; [apply le_encode_ok|].
  split; [unfold len; rewrite length_le_encode; lia|]. rewrite le_decode_encode.
  pose proof (Z.mod_pos_bound v (2 ^ bl) ltac:(lia)).
  assert (2 ^ bl <= 256 ^ Z.of_nat (Z.to_nat (RecordSize bl))).
  { change 256 with (2 ^ 8). rewrite <- Z.pow_mul_r by lia. apply Z.pow_le_mono_r; lia. }
  rewrite Z.mod_small; lia.
Qed.

Lemma canonical_reencode bl x : 0 <= bl <= 64 -> canonical_value bl x ->
  le_encode (Z.to_nat (RecordSize bl)) (le_decode (pad8 x) mod 2 ^ bl) = x.
Proof.
  intros Hbl Hx. pose proof (canonical_short bl x Hbl Hx) as H8. destruct Hx as (Hok & Hl & Hv).
  rewrite le_decode_pad8 by done. pose proof (le_decode_range x Hok). rewrite Z.mod_small by lia.
  replace (Z.to_nat (RecordSize bl)) with (length x) by (unfold len in Hl; lia). by apply le_encode_decode.
Qed.

Lemma DefaultProof_Encode_spec p : DefaultProof_Encode p = pad8 (X p) ++ pad8 (XPrime p) ++ [uint8 (BL p)].
Proof.
  unfold DefaultProof_Encode. cbv zeta.
  change (take 8 (replicate 17 0)) with (replicate 8 0). fold (pad8 (X p)).
  change (drop 8 (replicate 17 0)) with (replicate 9 0).
  pose proof (length_pad8 (X p)) as Hx. pose proof (length_pad8 (XPrime p)) as Hxp.
  replace (take 8 (pad8 (X p) ++ replicate 9 0)) with (pad8 (X p)) by (by rewrite take_app_length').
  replace (drop 8 (pad8 (X p) ++ replicate 9 0)) with (replicate 9 0) by (by rewrite drop_app_length').
  change (take 8 (replicate 9 0)) with (replicate 8 0). fold (pad8 (XPrime p)).
  replace (drop 16 (pad8 (X p) ++ replicate 9 0)) with [0] by (rewrite drop_app_ge by lia; by rewrite Hx).
  rewrite !app_assoc, insert_app_r_alt by (rewrite length_app; lia).
  by rewrite length_app, Hx, Hxp.
Qed.

Lemma DefaultProof_Decode_parts a b bl : length a = 8%nat -> length b = 8%nat ->
  DefaultProof_Decode (a ++ b ++ [bl]) =
    (x ← PoCValue2Bytes (le_decode a) bl; xp ← PoCValue2Bytes (le_decode b) bl; Ret (mkDefaultProof x xp bl)).
Proof.
  intros Ha Hb. unfold DefaultProof_Decode.
  replace (len (a ++ b ++ [bl]) =? massProofByteLength) with true
    by (symmetry; apply Z.eqb_eq; unfold len; rewrite !length_app; cbn [length]; unfold massProofByteLength; lia).
  cbn [negb check mbind outcome_bind].
  replace (index (a ++ b ++ [bl]) 16) with (Ret (E := poc_error) bl).
  2:{ symmetry. apply index_Ret. split; [lia|]. change (Z.to_nat 16) with 16%nat. rewrite app_assoc.
      replace 16%nat with (length (a ++ b)) by (rewrite length_app; lia). apply lookup_app_mid. }
  cbn [mbind outcome_bind].
  replace (take 8 (a ++ b ++ [bl])) with a by (rewrite <- Ha; by rewrite take_app_length).
  replace (drop 8 (a ++ b ++ [bl])) with (b ++ [bl]) by (rewrite <- Ha; by rewrite drop_app_length).
  replace (take 8 (b ++ [bl])) with b by (rewrite <- Hb; by rewrite take_app_length).
  done.
Qed.

Lemma split17 (data : bytes) : length data = 17%nat -> exists a b bl, data = a ++ b ++ [bl] /\ length a = 8%nat /\ length b = 8%nat.
Proof.
  intros H. do 18 (destruct data as [|? data]; try done).
  eexists [_; _; _; _; _; _; _; _], [_; _; _; _; _; _; _; _], _. done.
Qed.

Lemma PoCValue2Bytes_panics v bl : 64 < bl -> PoCValue2Bytes v bl = Panic.
Proof.
  intros Hbl. unfold PoCValue2Bytes, slice. rewrite RecordSize_spec.
  assert (8 < (bl + 7) / 8) by (pose proof (Z.div_mod (bl + 7) 8 ltac:(lia)); pose proof (Z.mod_pos_bound (bl + 7) 8 ltac:(lia)); lia).
  replace ((bl + 7) / 8 <=? len (le_encode 8 (Z.land (bl_mask bl) v))) with false; [by rewrite andb_false_r|].
  symmetry. apply Z.leb_gt. unfold len. rewrite length_le_encode. lia.
Qed.

(** * Encodings of chia proofs *)

Lemma reader_Read_app buf a r : length a = length buf -> a <> [] -> reader_Read buf (a ++ r) = Ret (a, r).
Proof.
  intros Hl Hne. unfold reader_Read. destruct (a ++ r) eqn:He; [by destruct a|]. rewrite <- He.
  rewrite copy_at_start by (rewrite length_app; lia). by rewrite <- Hl, take_app_length, drop_app_length.
Qed.

Section chia.
Context {CL : ChiaLib}.

Lemma NewG1_valid b : g1_valid b = true -> NewG1ElementFromBytes b = Ret b.
Proof.
  intros Hb. unfold NewG1ElementFromBytes. rewrite Hb. f_equal. pose proof (g1_valid_length b Hb) as Hl.
  rewrite copy_at_start by (rewrite length_replicate; lia). rewrite length_replicate. apply take_ge. lia.
Qed.

(** A proof of space that can be sent: a pool key and no puzzle hash. *)
Definition sendable (pos : ProofOfSpace) : Prop :=
  exists pk, PoolPublicKey pos = Some pk /\ g1_valid pk = true /\ PuzzleHash pos = ZeroID /\
    g1_valid (PlotPublicKey pos) = true /\ length (pos_Challenge pos) = 32%nat /\ len (pos_Proof pos) < 2 ^ 32.

Lemma copy48 b : length b = 48%nat -> copy_at (replicate 48 0) 0 b = b.
Proof. intros Hb. rewrite copy_at_start by (rewrite length_replicate; lia). rewrite length_replicate. apply take_ge. lia. Qed.

Lemma pos_roundtrip pos : sendable pos -> pos_Decode (pos_Encode pos) = Ret pos.
Proof.
  intros (pk & Hpool & Hpk & Hpuz & Hplot & Hch & Hproof).
  pose proof (g1_valid_length _ Hpk) as Hl1. pose proof (g1_valid_length _ Hplot) as Hl2.
  destruct pos as [ch pool puz plot k proof].
  cbn [pos_Challenge PoolPublicKey PuzzleHash PlotPublicKey KSize pos_Proof] in *. subst pool puz.
  unfold pos_Encode, pos_Decode. cbv zeta. cbn [pos_Challenge PoolPublicKey PuzzleHash PlotPublicKey KSize pos_Proof].
  rewrite !copy48 by done. unfold bytes_Equal. rewrite bool_decide_eq_true_2 by done. cbn [negb].
  rewrite reader_Read_app by (by rewrite ?length_replicate || by intros ->).
  cbn [mbind outcome_bind app reader_ReadByte]. change (1 =? 1) with true. cbv iota.
  rewrite reader_Read_app by (by rewrite ?length_replicate || by intros ->).
  cbn [mbind outcome_bind]. rewrite NewG1_valid by done.
  cbn [mbind outcome_bind app reader_ReadByte]. change (0 =? 1) with false. cbn [check mbind outcome_bind].
  rewrite reader_Read_app by (by rewrite ?Hl1 || by intros ->).
  cbn [mbind outcome_bind]. rewrite NewG1_valid by done. cbn [mbind outcome_bind app reader_ReadByte].
  rewrite reader_Read_app by (by rewrite ?length_be_encode || by (intros He; apply (f_equal length) in He; rewrite length_be_encode in He)).
  cbn [mbind outcome_bind]. rewrite be_decode_encode. change (256 ^ Z.of_nat 4) with (2 ^ 32).
  pose proof (len_nonneg proof). rewrite (wrapU_small 32) by lia. rewrite Z.mod_small by lia.
  destruct (decide (proof = [])) as [->|Hne]; [done|].
  pose proof (reader_Read_app (replicate (Z.to_nat (len proof)) 0) proof []) as Hr.
  rewrite app_nil_r in Hr. rewrite Hr; [done| |done]. by rewrite length_replicate, to_nat_len.
Qed.
Lemma chia_decode_encode pos : sendable pos -> ChiaProof_Decode (ChiaProof_Encode (Some pos)) = Ret (Some pos).
Proof.
  intros Hpos. unfold ChiaProof_Decode, ChiaProof_Encode. set (l := pos_Encode pos).
  pose proof (len_nonneg l). rewrite len_app, len_one.
  replace (len l + 1 <? 1) with false by (symmetry; apply Z.ltb_ge; lia). cbn [check mbind outcome_bind].
  replace (len l + 1 - 1) with (len l) by lia.
  pose proof (index_app_r (E := poc_error) l [uint8 ProofTypeChia] 0 ltac:(lia)) as Hi. rewrite Z.add_0_r in Hi. rewrite Hi.
  rewrite slice_pre. cbn [index mbind outcome_bind]. change (negb (uint8 ProofTypeChia =? ProofTypeChia)) with false.
  cbn. subst l. by rewrite pos_roundtrip.
Qed.
End chia.

(** * Claims *)

Lemma complement_test y yp n : (y =? n - 1 - yp) = (y + yp =? n - 1).
Proof. apply eq_true_iff_eq. rewrite !Z.eqb_eq. lia. Qed.

Section claims.
Context {HF : HashFunctions} {CL : ChiaLib}.

Lemma Verify_value p h c filter :
  bytes_ok (X p) -> bytes_ok (XPrime p) -> (length (X p) <= 8)%nat -> bytes_ok h -> length h = 32%nat ->
  DefaultProof_Verify p h c filter =
    if negb (EnsureBitLength ProofTypeDefault (BL p)) then Err ErrProofInvalidBitLength
    else if filter && negb (PassPlotFilter h c) then Err ErrProofFilter
    else
      let x := Bytes2PoCValue (X p) (BL p) in
      let xp := Bytes2PoCValue (XPrime p) (BL p) in
      if negb (plot_P (BL p) h x + plot_P (BL p) h xp =? 2 ^ BL p - 1) then Err ErrProofInvalidFlipValue
      else if negb (le_decode (take 8 c) mod 2 ^ BL p =? plot_F (BL p) h x xp) then Err ErrProofInvalidChallenge
      else Ret tt.
Proof.
  intros Hx Hxp Hlx Hh Hlh. unfold DefaultProof_Verify.
  destruct (EnsureBitLength ProofTypeDefault (BL p)) eqn:Hbl; [|done]. cbn [negb check mbind outcome_bind].
  apply EnsureBitLength_default in Hbl as [Hbl _].
  destruct (filter && negb (PassPlotFilter h c)); [done|]. cbn [check mbind outcome_bind].
  rewrite !PB_spec, FB_spec by (done || lia). cbn [mbind outcome_bind].
  assert (forall x, 0 <= plot_P (BL p) h x < 2 ^ BL p) as Hr by (intros; apply Z.mod_pos_bound; lia).
  rewrite FlipValue_spec, CutHash_spec by (apply Hr || lia).
  rewrite complement_test.
  unfold check. by repeat case_if.
Qed.

(** Verification of a default proof against a key hash and a challenge returns (it never
    panics), and accepts exactly when the bit length is an even number from 24 to 40, the plot
    filter passes if it is asked for, the images of the two numbers of the proof under the
    plot function are bit-wise complements, and their joint image is the challenge cut to the
    bit length.  (The bytes of X are at most the 8 the code has room for.) *)
Theorem default_verify_spec p h c filter
  (Hx : bytes_ok (X p)) (Hxp : bytes_ok (XPrime p)) (Hlx : (length (X p) <= 8)%nat)
  (Hh : bytes_ok h) (Hlh : length h = 32%nat) :
  DefaultProof_Verify p h c filter <> Panic /\
  (DefaultProof_Verify p h c filter = Ret tt <->
   24 <= BL p <= 40 /\ BL p mod 2 = 0 /\ (filter = true -> PassPlotFilter h c = true) /\
   let x := le_decode (pad8 (X p)) mod 2 ^ BL p in
   let xp := le_decode (pad8 (XPrime p)) mod 2 ^ BL p in
   plot_P (BL p) h x + plot_P (BL p) h xp = 2 ^ BL p - 1 /\
   plot_F (BL p) h x xp = le_decode (take 8 c) mod 2 ^ BL p).
Proof.
  rewrite (Verify_value p h c filter Hx Hxp Hlx Hh Hlh). split; [cbv zeta; by repeat case_match|].
  destruct (EnsureBitLength ProofTypeDefault (BL p)) eqn:Hbl; cbn [negb].
  2:{ split; [done|]. intros (H1 & H2 & _). assert (EnsureBitLength ProofTypeDefault (BL p) = true); [|congruence].
      by apply EnsureBitLength_default. }
  apply EnsureBitLength_default in Hbl as [Hbl Hev]. rewrite !Bytes2PoCValue_spec by lia.
  destruct filter; cbn [andb]; [destruct (PassPlotFilter h c); cbn [negb]|];
    cbv zeta; repeat case_if; bool_to_prop; (split; [try done; intros _|]); naive_solver lia.
Qed.

Lemma hashval_input_spec p slot height : (length (X p) <= 8)%nat -> (length (XPrime p) <= 8)%nat ->
  hashval_input p slot height = le_encode 8 slot ++ pad8 (X p) ++ pad8 (XPrime p) ++ le_encode 8 height.
Proof.
  intros Hx Hxp. unfold hashval_input. cbv zeta.
  pose proof (copy_at_app [] (replicate 8 0) (replicate 24 0) (le_encode 8 slot)) as H1.
  cbn [app length] in H1. change (replicate 32 0) with (replicate 8 0 ++ replicate 24 0). rewrite H1 by (by rewrite length_le_encode).
  assert (forall (a : bytes) (x : bytes) n m k, length a = k -> (length x <= 8)%nat -> n = (8 + m)%nat ->
    copy_at (a ++ replicate n 0) k x = (a ++ pad8 x) ++ replicate m 0) as Hstep.
  { intros a x n m k <- Hlen ->. rewrite pad8_spec, take_ge by lia. unfold copy_at.
    rewrite take_app_length, length_app, length_replicate, take_ge by lia. rewrite <- !app_assoc. do 2 f_equal.
    rewrite drop_app_ge by lia. replace (length a + length x - length a)%nat with (length x) by lia.
    rewrite drop_replicate, <- replicate_add. f_equal. lia. }
  rewrite (Hstep _ (X p) 24 16 8)%nat by (rewrite ?length_le_encode; lia).
  rewrite (Hstep _ (XPrime p) 16 8 16)%nat by (rewrite ?length_app, ?length_le_encode, ?length_pad8; lia).
  set (a := (_ ++ pad8 (X p)) ++ pad8 (XPrime p)).
  assert (length a = 24%nat) as Ha by (subst a; rewrite !length_app, !length_pad8, length_le_encode; lia).
  pose proof (copy_at_app a (replicate 8 0) [] (le_encode 8 height)) as H2. rewrite !app_nil_r, Ha in H2.
  rewrite H2 by (by rewrite length_replicate, length_le_encode). subst a. by rewrite <- !app_assoc.
Qed.

(** Verification does not fix the bytes of a default proof, but its quality hash reads
    them: every canonical proof of a valid bit length has another byte string for X, with the
    same outcome of Verify for every key hash, challenge and filter, that changes the input of
    the quality hash for every slot and height. *)
Theorem default_proof_malleable p
  (Hp : canonical p) (Hbl : EnsureBitLength ProofTypeDefault (BL p) = true) :
  exists q, BL q = BL p /\ XPrime q = XPrime p /\ X q <> X p /\
    (forall h c filter, bytes_ok h -> length h = 32%nat ->
       DefaultProof_Verify q h c filter = DefaultProof_Verify p h c filter) /\
    (forall slot height, hashval_input q slot height <> hashval_input p slot height).
Proof.
  pose proof (proj1 (EnsureBitLength_default _) Hbl) as [Hr _].
  destruct Hp as (Hbl64 & Hx & Hxp). pose proof (canonical_short _ _ Hbl64 Hxp) as Hlxp.
  destruct Hx as (Hok & Hl & Hv). destruct Hxp as (Hokp & _ & _).
  assert (len (X p) <= 5) as H5.
  { rewrite Hl, RecordSize_spec. apply Z.lt_succ_r, Z.div_lt_upper_bound; lia. }
  set (q := mkDefaultProof (X p ++ [1]) (XPrime p) (BL p)).
  assert (length (X p) <= 5)%nat as H5n by (unfold len in H5; lia).
  assert (length (X q) <= 8)%nat as Hlq by (cbn; rewrite length_app; cbn; lia).
  assert (bytes_ok (X q)) as Hokq by (cbn; apply Forall_app; split; [done|]; repeat constructor; unfold is_byte; lia).
  exists q. split; [done|]. split; [done|]. split.
  { cbn. intros He. apply (f_equal length) in He. rewrite length_app in He. cbn in He. lia. }
  split.
  - intros h c filter Hh Hlh. rewrite !Verify_value by (done || lia). cbn [BL XPrime q].
    assert (Bytes2PoCValue (X q) (BL p) = Bytes2PoCValue (X p) (BL p)) as ->; [|done].
    rewrite !Bytes2PoCValue_spec, !le_decode_pad8 by lia. cbn [X q]. rewrite le_decode_app. cbn [le_decode].
    assert (256 ^ len (X p) = 2 ^ (8 * RecordSize (BL p) - BL p) * 2 ^ BL p) as ->.
    { pose proof (RecordSize_8 _ Hbl64). rewrite <- Z.pow_add_r by lia. change 256 with (2 ^ 8).
      rewrite <- Z.pow_mul_r, Hl by lia. f_equal. lia. }
    rewrite Z.mul_0_r, Z.add_0_r, Z.mul_1_r. by rewrite Z_mod_plus_full.
  - intros slot height. rewrite !hashval_input_spec by (done || cbn; lia). intros He.
    apply app_inj_1 in He as [_ He]; [|done]. apply app_inj_1 in He as [He _]; [|by rewrite !length_pad8].
    apply (f_equal le_decode) in He. rewrite !le_decode_pad8 in He by lia.
    cbn [X q] in He. rewrite le_decode_app in He. cbn [le_decode] in He.
    assert (0 < 256 ^ len (X p)) by (apply Z.pow_pos_nonneg; [lia|apply len_nonneg]). lia.
Qed.

(** A canonical default proof survives encoding and decoding; a decoded proof is canonical;
    and decoding panics exactly on 17 bytes whose last one, the bit length, exceeds 64. *)
Theorem default_proof_roundtrip p data (Hdata : bytes_ok data) :
  (canonical p -> DefaultProof_Decode (DefaultProof_Encode p) = Ret p) /\
  (DefaultProof_Decode data = Ret p -> canonical p) /\
  (DefaultProof_Decode data = Panic <-> length data = 17%nat /\ 64 < nth 16 data 0).
Proof.
  split; [|destruct (decide (length data = 17%nat)) as [H17|H17]].
  - intros (Hbl & Hx & Hxp). rewrite DefaultProof_Encode_spec, DefaultProof_Decode_parts by apply length_pad8.
    rewrite wrapU_small by (change (2 ^ 8) with 256; lia). rewrite !PoCValue2Bytes_spec by lia. cbn [mbind outcome_bind].
    rewrite !canonical_reencode by done. by destruct p.
  - destruct (split17 data H17) as (a & b & bl & -> & Ha & Hb).
    assert (nth 16 (a ++ b ++ [bl]) 0 = bl) as ->
      by (rewrite app_assoc, app_nth2, length_app, Ha, Hb by (rewrite length_app; lia); done).
    assert (0 <= bl) by (apply Forall_app in Hdata as [_ Hdata]; apply Forall_app in Hdata as [_ Hdata];
      apply Forall_cons in Hdata as [Hd _]; unfold is_byte in Hd; lia).
    rewrite DefaultProof_Decode_parts by done. destruct (decide (bl <= 64)).
    + rewrite !PoCValue2Bytes_spec by lia. cbn [mbind outcome_bind]. split; [|split; [done|lia]].
      intros [= <-]. split; [cbn; lia|]. split; apply canonical_decoded; cbn; lia.
    + rewrite !PoCValue2Bytes_panics by lia. cbn [mbind outcome_bind]. split; [by intros [=]|]. split; [|by intros _]. intros _. split; [done|lia].
  - assert (DefaultProof_Decode data = Err ErrProofDecodeDataSize) as ->.
    { unfold DefaultProof_Decode. replace (len data =? massProofByteLength) with false; [done|].
      symmetry. apply Z.eqb_neq. unfold len, massProofByteLength. lia. }
    split; [done|]. split; [done|]. by intros [? _].
Qed.

(** A chia proof with a pool key and without a puzzle hash, whose keys the BLS library
    accepts, survives encoding and decoding, whatever its challenge, size and proof. *)
Theorem chia_proof_roundtrip pos (Hpos : sendable pos) :
  ChiaProof_Decode (ChiaProof_Encode (Some pos)) = Ret (Some pos).
Proof.
  by apply chia_decode_encode.
Qed.

End claims.

(** * A concrete instance *)

(** [Hash256] of the BLS library is SHA-256; the other functions are placeholders that satisfy
    the laws. *)
Definition sample_chia : ChiaLib.
Proof.
  refine {| chia_Hash256 := Sha.sha256; chia_Hash256_length := Sha.length_sha256;
    g1_valid b := (len b =? 48); g2_valid b := (len b =? 96);
    ValidateProof _ _ _ _ := Some [1]; aug_verify _ _ _ := Some true; quality_of _ _ := 0 |}.
  - intros. apply Sha.digest_ok.
  - intros b H. apply Z.eqb_eq in H. unfold len in H. lia.
  - intros b H. apply Z.eqb_eq in H. unfold len in H. lia.
Defined.

(** The proof, the key and the challenge of the genesis block (src/config/genesis.go). *)
Definition genesis_proof : DefaultProof := mkDefaultProof [0xac; 0xc5; 0x99; 0x96] [0x94; 0x4f; 0x01; 0x16] 32.
Definition genesis_key : bytes := be_encode 33 0x02c121b2bb27f8af5b365f1c0d9e02c2044a731aad6d0a6951ab3af506a3792c9c.
Definition genesis_challenge : bytes := be_encode 32 0x5eb91b2d9fd6d5920ccc9610f0695509b60ccf764fab693ecab112f2edf1e3f0.
Definition genesis_seed : bytes := DoubleSHA256 (HF := Sha.concrete) genesis_key.

Example genesis_proof_verifies :
  DefaultProof_Verify (CL := sample_chia) genesis_proof genesis_seed genesis_challenge false = Ret tt.
Proof. vm_compute. reflexivity. Qed.

Lemma genesis_canonical : canonical genesis_proof.
Proof. repeat split; cbn; try lia; repeat constructor; unfold is_byte; lia. Qed.

Lemma default_verify_spec_witness :
  plot_P 32 genesis_seed 0x9699c5ac + plot_P 32 genesis_seed 0x16014f94 = 2 ^ 32 - 1.
Proof.
  apply (default_verify_spec (CL := sample_chia) genesis_proof genesis_seed genesis_challenge false).
  - apply genesis_canonical.
  - apply genesis_canonical.
  - cbn. lia.
  - apply Sha.digest_ok.
  - apply Sha.length_sha256.
  - exact genesis_proof_verifies.
Defined.

Lemma default_proof_malleable_witness :
  exists q, X q <> X genesis_proof /\ DefaultProof_Verify (CL := sample_chia) q genesis_seed genesis_challenge false = Ret tt.
Proof.
  destruct (default_proof_malleable (CL := sample_chia) genesis_proof genesis_canonical eq_refl) as (q & _ & _ & Hne & Hv & _).
  exists q. split; [exact Hne|]. rewrite Hv; [exact genesis_proof_verifies|apply Sha.digest_ok|apply Sha.length_sha256].
Defined.

Lemma default_proof_roundtrip_witness : DefaultProof_Decode (DefaultProof_Encode genesis_proof) = Ret genesis_proof.
Proof. apply (default_proof_roundtrip genesis_proof []); [constructor|apply genesis_canonical]. Defined.

Definition sample_pos : ProofOfSpace :=
  mkProofOfSpace (replicate 32 7) (Some (replicate 48 1)) (replicate 32 0) (replicate 48 2) 32 [1; 2; 3].

Lemma chia_proof_roundtrip_witness :
  ChiaProof_Decode (CL := sample_chia) (ChiaProof_Encode (Some sample_pos)) = Ret (Some sample_pos).
Proof. apply (chia_proof_roundtrip (CL := sample_chia)). exists (replicate 48 1). repeat split. Defined.
