(* ===== verification/Block.v ===== *)
(** Block headers, proposals and blocks on the wire: wire/blockheader.go, wire/proposal.go,
    wire/msgblock.go, wire/merkle.go (the tree over proposals) and wire/pb/{blockheader,ec,
    proposal,block}.go.

    The interfaces PublicKey and Signature have two implementations each, the pocec types and
    the BLS group elements; a value of one is a constructor with its content.  The timestamp
    of a header is its Unix time in seconds, the only part of it that is encoded.  Protobuf
    marshalling is an argument of the operations that call it. *)

From S2P Require Import Prelude Hashes Wire Merkle Amount Forks Curve Keys Poc.

(** * Data *)

Inductive block_error :=
| NilProtoHeader | NilProtoBigInt | NilProtoPublicKey | UnknownPublicKeyLength
| NilProtoSignature | UnknownSignatureLength | NilProtoProof | NilProtoPunishment
| NilProtoProposal | NilProtoProposalArea | NilProtoBlock | NilProtoBlockBase
| errTooManyTxsInBlock | errWrongProposalType | errFaultPubKeyNoPubKey
| errFaultPubKeyWrongHeight | errFaultPubKeyWrongBigLength | errFaultPubKeySameBlock
| errFaultPubKeyWrongPubKey | errFaultPubKeyWrongSignature | errUnknownPubKeyType
| errUnknownSignatureType | errWrongBlockVersion | errMisusePubKeyType
| errMisuseSignatureType | errMisuseProofType | errMisuseBindingRoot
| ErrChainIDHeight | ErrMultipleBitLengths | ErrBlockCodecMode | ErrUnmarshal | ErrReadEOF
| ErrBls
| OfWire (e : wire_error) | OfKey (e : Keys.key_error) | OfPoc (e : poc_error).

Abbreviation blk A := (outcome block_error A).

(** An error passed on from a callee. *)
Definition wrap {E E' A} (f : E -> E') (o : outcome E A) : outcome E' A :=
  match o with Ret a => Ret a | Err e => Err (f e) | Panic => Panic end.

Inductive PubKey := PkS256 (k : Keys.PublicKey) | PkBLS (g : bytes).
Inductive Sig := SigS256 (s : Keys.Signature) | SigBLS (g : bytes).

Definition PubKey_SerializeCompressed (pub : PubKey) : bytes :=
  match pub with PkS256 k => Keys.SerializeCompressed k | PkBLS g => g end.
Definition PubKey_SerializeUncompressed (pub : PubKey) : bytes :=
  match pub with PkS256 k => Keys.SerializeUncompressed k | PkBLS g => g end.
Definition Sig_Serialize (sig : Sig) : bytes :=
  match sig with SigS256 s => Keys.Serialize s | SigBLS g => g end.

Definition isS256PublicKey (pub : PubKey) : bool := match pub with PkS256 _ => true | _ => false end.
Definition isBLSPublicKey (pub : PubKey) : bool := match pub with PkBLS _ => true | _ => false end.
Definition isS256Signature (sig : Sig) : bool := match sig with SigS256 _ => true | _ => false end.
Definition isBLSSignature (sig : Sig) : bool := match sig with SigBLS _ => true | _ => false end.
Definition isEmptyBindingRoot (root : Hash) : bool := bytes_Equal root (replicate 32 0).

(** A time is given by its seconds since 1970, an [int64].  [time.Time] holds the seconds since the
    year 1, and that is what [Before] and [Equal] compare: the addition wraps for the last
    62135596800 seconds before [2^63]. *)
Definition unixToInternal : Z := 62135596800.
Definition instant (unix : Z) : Z := int64 (unix + unixToInternal).

Record BlockHeader := mkBlockHeader {
  bh_ChainID : Hash;
  bh_Version : Z;
  bh_Height : Z;
  bh_Timestamp : Z;
  bh_Previous : Hash;
  bh_TransactionRoot : Hash;
  bh_WitnessRoot : Hash;
  bh_ProposalRoot : Hash;
  bh_Target : Z;
  bh_Challenge : Hash;
  bh_PubKey : PubKey;
  bh_Proof : Proof;
  bh_Signature : Sig;
  bh_BanList : list PubKey;
  bh_BindingRoot : Hash;
}.

(** ** Protobuf messages *)

Record pbProof := mkPbProof { pb_X : bytes; pb_XPrime : bytes; pb_BitLength : Z }.

Record pbBlockHeader := mkPbBlockHeader {
  pbh_ChainID : option pbHash;
  pbh_Version : Z;
  pbh_Height : Z;
  pbh_Timestamp : Z;
  pbh_Previous : option pbHash;
  pbh_TransactionRoot : option pbHash;
  pbh_WitnessRoot : option pbHash;
  pbh_ProposalRoot : option pbHash;
  pbh_Target : option bytes;
  pbh_Challenge : option pbHash;
  pbh_PubKey : option bytes;
  pbh_Proof : option pbProof;
  pbh_Signature : option bytes;
  pbh_BanList : list (option bytes);
  pbh_BindingRoot : option pbHash;
}.

Definition BigIntToProto (x : Z) : bytes := big_Bytes x.

Definition ProtoToBigInt (pb : option bytes) : blk Z :=
  match pb with None => Err NilProtoBigInt | Some raw => Ret (be_decode raw) end.

Definition PublicKeyLengthS256 : Z := 33.
Definition PublicKeyLengthBLS : Z := 48.
Definition SignatureLengthS256Min : Z := Keys.MinSigLen.
Definition SignatureLengthS256Max : Z := 80.
Definition SignatureLengthBLS : Z := 96.

Definition PublicKeyToProto (pub : PubKey) : bytes := PubKey_SerializeCompressed pub.
Definition SignatureToProto (sig : Sig) : bytes := Sig_Serialize sig.

Definition BlockVersion : Z := BlockVersionV2.

(** ecdsa.Verify of the Go library. *)
Class Ecdsa := { ecdsa_Verify : Keys.PublicKey -> bytes -> Keys.Signature -> bool }.

(** * Headers *)

Section block.
Context {HF : HashFunctions} {CL : ChiaLib} {EC : Ecdsa}.

Definition NewG2ElementFromBytes (b : bytes) : blk bytes :=
  if g2_valid b then Ret (copy_at (replicate 96 0) 0 b) else Err ErrBls.

Definition ProtoToPublicKey (pb : option bytes) : blk PubKey :=
  match pb with
  | None => Err NilProtoPublicKey
  | Some raw =>
      if len raw =? PublicKeyLengthS256 then
        key ← wrap OfKey (Keys.ParsePubKey raw Curve.secp256k1); Ret (PkS256 key)
      else if len raw =? PublicKeyLengthBLS then
        key ← wrap OfPoc (NewG1ElementFromBytes raw); Ret (PkBLS key)
      else Err UnknownPublicKeyLength
  end.

Definition ProtoToSignature (pb : option bytes) : blk Sig :=
  match pb with
  | None => Err NilProtoSignature
  | Some raw =>
      if len raw =? SignatureLengthBLS then
        sig ← NewG2ElementFromBytes raw; Ret (SigBLS sig)
      else if (SignatureLengthS256Min <=? len raw) && (len raw <=? SignatureLengthS256Max) then
        sig ← wrap OfKey (Keys.ParseDERSignature raw Curve.secp256k1); Ret (SigS256 sig)
      else Err UnknownSignatureLength
  end.

Definition ProtoToProof (pb : option pbProof) : blk Proof :=
  match pb with
  | None => Err NilProtoProof
  | Some pb =>
      if pb_BitLength pb =? ProofTypeChia then
        chia ← wrap OfPoc (ChiaProof_Decode (pb_X pb)); Ret (PChia chia)
      else if pb_BitLength pb =? ProofTypeEmpty then Ret PEmpty
      else Ret (PDefault (mkDefaultProof (MoveBytes (pb_X pb)) (MoveBytes (pb_XPrime pb)) (pb_BitLength pb)))
  end.

Definition ProofToProto (proof : Proof) : pbProof :=
  match proof with
  | PDefault dp => mkPbProof (X dp) (XPrime dp) (uint32 (BL dp))
  | _ => mkPbProof (Proof_Encode proof) [] (Proof_Type proof)
  end.

Definition BlockHeader_ToProto (h : BlockHeader) : pbBlockHeader :=
  let banList := map (fun pub => Some (PublicKeyToProto pub)) (bh_BanList h) in
  mkPbBlockHeader
    (Some (Hash_ToProto (bh_ChainID h))) (bh_Version h) (bh_Height h) (uint64 (bh_Timestamp h))
    (Some (Hash_ToProto (bh_Previous h))) (Some (Hash_ToProto (bh_TransactionRoot h)))
    (Some (Hash_ToProto (bh_WitnessRoot h))) (Some (Hash_ToProto (bh_ProposalRoot h)))
    (Some (BigIntToProto (bh_Target h))) (Some (Hash_ToProto (bh_Challenge h)))
    (Some (PublicKeyToProto (bh_PubKey h))) (Some (ProofToProto (bh_Proof h)))
    (Some (SignatureToProto (bh_Signature h))) banList
    (if bh_Version h >=? BlockVersionV2 then Some (Hash_ToProto (bh_BindingRoot h)) else None).

Definition checkVersionConstraintV1 (h : BlockHeader) : blk unit :=
  check (negb (isS256PublicKey (bh_PubKey h))) errMisusePubKeyType;;
  check (negb (Proof_Type (bh_Proof h) =? ProofTypeDefault)) errMisuseProofType;;
  check (negb (isS256Signature (bh_Signature h))) errMisuseSignatureType;;
  check (negb (forallb isS256PublicKey (bh_BanList h))) errMisusePubKeyType;;
  check (negb (isEmptyBindingRoot (bh_BindingRoot h))) errMisuseBindingRoot.

Definition checkVersionConstraintV2 (h : BlockHeader) : blk unit :=
  (if Proof_Type (bh_Proof h) =? ProofTypeDefault then
     check (negb (isS256PublicKey (bh_PubKey h))) errMisusePubKeyType;;
     check (negb (isS256Signature (bh_Signature h))) errMisuseSignatureType
   else if Proof_Type (bh_Proof h) =? ProofTypeChia then
     check (negb (isBLSPublicKey (bh_PubKey h))) errMisusePubKeyType;;
     check (negb (isBLSSignature (bh_Signature h))) errMisuseSignatureType
   else Err errMisuseProofType);;
  (if bh_Height h <? MASSIP0002Height
   then check (negb (forallb isS256PublicKey (bh_BanList h))) errMisusePubKeyType
   else Ret tt).

Definition CheckVersionConstraint (h : BlockHeader) : blk unit :=
  if bh_Version h =? 0 then Err errWrongBlockVersion
  else if bh_Version h =? BlockVersionV1 then checkVersionConstraintV1 h
  else checkVersionConstraintV2 h.

(** The receiver is overwritten, and then the version constraint decides about the error. *)
Definition BlockHeader_FromProto (pb : option pbBlockHeader) : blk BlockHeader :=
  match pb with
  | None => Err NilProtoHeader
  | Some pb =>
      chainID ← wrap OfWire (Hash_FromProto (pbh_ChainID pb));
      previous ← wrap OfWire (Hash_FromProto (pbh_Previous pb));
      transactionRoot ← wrap OfWire (Hash_FromProto (pbh_TransactionRoot pb));
      witnessRoot ← wrap OfWire (Hash_FromProto (pbh_WitnessRoot pb));
      proposalRoot ← wrap OfWire (Hash_FromProto (pbh_ProposalRoot pb));
      challenge ← wrap OfWire (Hash_FromProto (pbh_Challenge pb));
      target ← ProtoToBigInt (pbh_Target pb);
      pub ← ProtoToPublicKey (pbh_PubKey pb);
      proof ← ProtoToProof (pbh_Proof pb);
      sig ← ProtoToSignature (pbh_Signature pb);
      banList ← mapM ProtoToPublicKey (pbh_BanList pb);
      bindingRoot ← (if pbh_Version pb >=? BlockVersionV2
                     then wrap OfWire (Hash_FromProto (pbh_BindingRoot pb))
                     else Ret (replicate 32 0));
      let h := mkBlockHeader chainID (pbh_Version pb) (pbh_Height pb) (int64 (pbh_Timestamp pb))
                 previous transactionRoot witnessRoot proposalRoot target challenge pub proof sig
                 banList bindingRoot in
      CheckVersionConstraint h;;
      Ret h
  end.

(** ** Plain encodings *)

Definition pbProof_Bytes (m : pbProof) : bytes := pb_X m ++ pb_XPrime m ++ le_encode 4 (pb_BitLength m).

Definition hash_bytes (m : option pbHash) : blk bytes := h ← deref m; Ret (pbHash_Bytes h).
Definition proof_bytes (m : option pbProof) : blk bytes := p ← deref m; Ret (pbProof_Bytes p).

(** The fields from Previous to Proof, which the three encodings share. *)
Definition pbh_common (m : pbBlockHeader) : blk bytes :=
  previous ← hash_bytes (pbh_Previous m);
  transactionRoot ← hash_bytes (pbh_TransactionRoot m);
  witnessRoot ← hash_bytes (pbh_WitnessRoot m);
  proposalRoot ← hash_bytes (pbh_ProposalRoot m);
  target ← deref (pbh_Target m);
  challenge ← hash_bytes (pbh_Challenge m);
  pubKey ← deref (pbh_PubKey m);
  proof ← proof_bytes (pbh_Proof m);
  Ret (le_encode 8 (pbh_Version m) ++ le_encode 8 (pbh_Height m) ++ le_encode 8 (pbh_Timestamp m) ++
       previous ++ transactionRoot ++ witnessRoot ++ proposalRoot ++ target ++ challenge ++ pubKey ++ proof).

(** The ban list and, from version 2 on, the binding root. *)
Definition pbh_tail (m : pbBlockHeader) : blk bytes :=
  banList ← mapM deref (pbh_BanList m);
  bindingRoot ← (if pbh_Version m >=? 2 then hash_bytes (pbh_BindingRoot m) else Ret []);
  Ret (concat banList ++ bindingRoot).

Definition pbHeader_Write (m : pbBlockHeader) : blk bytes :=
  chainID ← hash_bytes (pbh_ChainID m);
  common ← pbh_common m;
  signature ← deref (pbh_Signature m);
  tail ← pbh_tail m;
  Ret (chainID ++ common ++ signature ++ tail).

Definition pbHeader_WritePoC (m : pbBlockHeader) : blk bytes :=
  chainID ← hash_bytes (pbh_ChainID m);
  common ← pbh_common m;
  tail ← pbh_tail m;
  Ret (chainID ++ common ++ tail).

Definition pbHeader_BytesChainID (m : pbBlockHeader) : blk bytes :=
  common ← pbh_common m;
  tail ← pbh_tail m;
  Ret (common ++ tail).

(** [Encode] in the modes that do not marshal; [marshal] is what the others call. *)
Definition BlockHeader_Encode (marshal : pbBlockHeader -> option bytes) (h : BlockHeader) (mode : CodecMode) : blk bytes :=
  let pb := BlockHeader_ToProto h in
  match mode with
  | DB | Packet => match marshal pb with Some b => Ret b | None => Err ErrUnmarshal end
  | Plain | ID => pbHeader_Write pb
  | PoCID => pbHeader_WritePoC pb
  | ChainID => if pbh_Height pb >? 0 then Err ErrChainIDHeight else pbHeader_BytesChainID pb
  | WitnessID => Err ErrBlockCodecMode
  end.

Definition BlockHeader_Decode (unmarshal : bytes -> option pbBlockHeader) (buf : bytes) (mode : CodecMode) : blk BlockHeader :=
  match mode with
  | DB | Packet => match unmarshal buf with Some pb => BlockHeader_FromProto (Some pb) | None => Err ErrUnmarshal end
  | _ => Err ErrBlockCodecMode
  end.

Definition no_marshal {A} : A -> option bytes := fun _ => None.

(** [BlockHash] ignores the error of [Bytes], which leaves a nil buffer. *)
Definition BlockHash (h : BlockHeader) : blk Hash :=
  match BlockHeader_Encode no_marshal h ID with
  | Ret buf => Ret (DoubleHashH buf)
  | Err _ => Ret (DoubleHashH [])
  | Panic => Panic
  end.

Definition PoCHash (h : BlockHeader) : blk Hash :=
  buf ← BlockHeader_Encode no_marshal h PoCID; Ret (DoubleHashH buf).

Definition GetChainID (h : BlockHeader) : blk Hash :=
  check (bh_Height h >? 0) ErrChainIDHeight;;
  buf ← BlockHeader_Encode no_marshal h ChainID; Ret (DoubleHashH buf).

Definition BlockHeader_PlainSize (h : BlockHeader) : blk Z :=
  buf ← BlockHeader_Encode no_marshal h Plain; Ret (len buf).

Definition BlockHeader_Quality (h : BlockHeader) : Z :=
  Proof_Quality (bh_Proof h) (uint64 (bh_Timestamp h) / PoCSlot) (bh_Height h).

Definition VerifySig (h : BlockHeader) : blk bool :=
  pocHash ← PoCHash h;
  let dataHash := HashH pocHash in
  match bh_PubKey h with
  | PkS256 pub =>
      match bh_Signature h with
      | SigS256 sig => Ret (ecdsa_Verify pub dataHash sig)
      | SigBLS _ => Err errUnknownSignatureType
      end
  | PkBLS pub =>
      match bh_Signature h with
      | SigBLS sig => match aug_verify pub dataHash sig with Some ok => Ret ok | None => Err ErrBls end
      | SigS256 _ => Err errUnknownSignatureType
      end
  end.

(** * Proposals *)

Definition ProposalVersion : Z := 1.
Definition HeadersPerProposal : Z := 2.
Definition HeaderSizePerPlaceHolder : Z := 500.
Definition PlaceHolderSize : Z := HeadersPerProposal * HeaderSizePerPlaceHolder.
Definition typeFaultPubKey : Z := 0.
Definition typePlaceHolder : Z := 1.
Definition typeAnyMessage : Z := 2.

Record FaultPubKey := mkFaultPubKey {
  fpk_version : Z;
  fpk_PubKey : option PubKey;
  fpk_Testimony : BlockHeader * BlockHeader;
}.

Record pbPunishment := mkPbPunishment {
  pbp_Version : Z;
  pbp_Type : Z;
  TestimonyA : option pbBlockHeader;
  TestimonyB : option pbBlockHeader;
}.

Definition FaultPubKey_ToProto (fpk : FaultPubKey) : pbPunishment :=
  mkPbPunishment (fpk_version fpk) typeFaultPubKey
    (Some (BlockHeader_ToProto (fpk_Testimony fpk).1)) (Some (BlockHeader_ToProto (fpk_Testimony fpk).2)).

Definition FaultPubKey_FromProto (pb : option pbPunishment) : blk FaultPubKey :=
  match pb with
  | None => Err NilProtoPunishment
  | Some pb =>
      headerA ← BlockHeader_FromProto (TestimonyA pb);
      headerB ← BlockHeader_FromProto (TestimonyB pb);
      Ret (mkFaultPubKey (pbp_Version pb) (Some (bh_PubKey headerA)) (headerA, headerB))
  end.

Definition pbPunishment_Write (m : pbPunishment) : blk bytes :=
  testimonyA ← (a ← deref (TestimonyA m); pbHeader_Write a);
  testimonyB ← (b ← deref (TestimonyB m); pbHeader_Write b);
  Ret (le_encode 4 (pbp_Version m) ++ le_encode 4 (pbp_Type m) ++ testimonyA ++ testimonyB).

Record NormalProposal := mkNormalProposal { np_version : Z; proposalType : Z; np_content : bytes }.

(** A proto Proposal has the same fields. *)
Definition NormalProposal_ToProto (np : NormalProposal) : NormalProposal := np.

Definition NormalProposal_FromProto (pb : option NormalProposal) : blk NormalProposal :=
  match pb with
  | None => Err NilProtoProposal
  | Some pb => Ret (mkNormalProposal (np_version pb) (proposalType pb) (MoveBytes (np_content pb)))
  end.

Definition pbProposal_Write (m : NormalProposal) : bytes :=
  le_encode 4 (np_version m) ++ le_encode 4 (proposalType m) ++ np_content m.

(** [GetProposalHash]; the error of [Bytes] is ignored, and the encodings in mode ID have none. *)
Definition GetProposalHash (encoding : bytes) (idx : Z) : Hash :=
  DoubleHashH (encoding ++ le_encode 8 (uint64 idx)).

Definition FaultPubKey_Hash (fpk : FaultPubKey) (idx : Z) : blk Hash :=
  buf ← pbPunishment_Write (FaultPubKey_ToProto fpk); Ret (GetProposalHash buf idx).

Definition NormalProposal_Hash (np : NormalProposal) (idx : Z) : Hash :=
  GetProposalHash (pbProposal_Write (NormalProposal_ToProto np)) idx.

Definition NewPlaceHolder : NormalProposal :=
  mkNormalProposal ProposalVersion typePlaceHolder (replicate (Z.to_nat (2 * HeaderSizePerPlaceHolder)) 0).

Definition FaultPubKey_IsValid (fpk : FaultPubKey) : blk unit :=
  match fpk_PubKey fpk with
  | None => Err errFaultPubKeyNoPubKey
  | Some pub =>
      let '(h0, h1) := fpk_Testimony fpk in
      check (negb (bh_Height h0 =? bh_Height h1)) errFaultPubKeyWrongHeight;;
      check (negb (BitLength (bh_Proof h0) =? BitLength (bh_Proof h1))) errFaultPubKeyWrongBigLength;;
      hash0 ← BlockHash h0;
      hash1 ← BlockHash h1;
      check (bytes_Equal hash0 hash1) errFaultPubKeySameBlock;;
      let fpkbytes := PubKey_SerializeUncompressed pub in
      check (negb (bytes_Equal fpkbytes (PubKey_SerializeUncompressed (bh_PubKey h0))) ||
             negb (bytes_Equal fpkbytes (PubKey_SerializeUncompressed (bh_PubKey h1)))) errFaultPubKeyWrongPubKey;;
      pass0 ← VerifySig h0;
      pass1 ← VerifySig h1;
      check (negb (pass0 && pass1)) errFaultPubKeyWrongSignature
  end.

Record ProposalArea := mkProposalArea { PunishmentArea : list FaultPubKey; OtherArea : list NormalProposal }.

Definition PunishmentCount (pa : ProposalArea) : Z := len (PunishmentArea pa).
Definition OtherCount (pa : ProposalArea) : Z := len (OtherArea pa).
Definition Count (pa : ProposalArea) : Z := len (PunishmentArea pa) + len (OtherArea pa).

Definition newEmptyProposalArea : ProposalArea := mkProposalArea [] [].

Definition NewProposalArea (punishmentArea : list FaultPubKey) (otherArea : list NormalProposal) : blk ProposalArea :=
  check (existsb (fun other => proposalType other <? typeAnyMessage) otherArea) errWrongProposalType;;
  Ret (mkProposalArea punishmentArea otherArea).

Record pbProposalArea := mkPbProposalArea {
  pbPunishments : list (option pbPunishment);
  pbOtherProposals : list (option NormalProposal);
}.

Definition ProposalArea_ToProto (pa : ProposalArea) : blk pbProposalArea :=
  let punishments := map (fun fpk => Some (FaultPubKey_ToProto fpk)) (PunishmentArea pa) in
  check (existsb (fun proposal => proposalType proposal <? typeAnyMessage) (OtherArea pa)) errWrongProposalType;;
  Ret (mkPbProposalArea punishments (map (fun proposal => Some (NormalProposal_ToProto proposal)) (OtherArea pa))).

(** [v.Type] of a nil entry is a nil dereference. *)
Definition other_FromProto (v : option NormalProposal) : blk NormalProposal :=
  pb ← deref v;
  check (proposalType pb <? typeAnyMessage) errWrongProposalType;;
  NormalProposal_FromProto v.

Definition ProposalArea_FromProto (pb : option pbProposalArea) : blk ProposalArea :=
  match pb with
  | None => Err NilProtoProposalArea
  | Some pb =>
      punishments ← mapM FaultPubKey_FromProto (pbPunishments pb);
      others ← mapM other_FromProto (pbOtherProposals pb);
      Ret (mkProposalArea punishments others)
  end.

Definition pbProposalArea_Write (m : pbProposalArea) : blk bytes :=
  punishments ← mapM (fun p => p ← deref p; pbPunishment_Write p) (pbPunishments m);
  others ← mapM (fun p => p ← deref p; Ret (pbProposal_Write p)) (pbOtherProposals m);
  Ret (concat punishments ++ concat others).

(** The size of an area without punishments includes the place holder. *)
Definition ProposalArea_PlainSize (pa : ProposalArea) : blk Z :=
  pb ← ProposalArea_ToProto pa;
  buf ← pbProposalArea_Write pb;
  Ret (len buf + (if PunishmentCount pa =? 0 then PlaceHolderSize else 0)).

(** The hashes of the proposals of an area with their positions. *)
Fixpoint punishment_hashes (idx : Z) (l : list FaultPubKey) : blk (list Hash) :=
  match l with
  | [] => Ret []
  | punishment :: l' =>
      sha ← FaultPubKey_Hash punishment idx;
      shas ← punishment_hashes (idx + 1) l';
      Ret (sha :: shas)
  end.

Fixpoint other_hashes (idx : Z) (l : list NormalProposal) : list Hash :=
  match l with
  | [] => []
  | np :: l' => NormalProposal_Hash np idx :: other_hashes (idx + 1) l'
  end.

Definition proposal_hashes (proposals : ProposalArea) : blk (list Hash) :=
  let first := if PunishmentCount proposals =? 0 then [NormalProposal_Hash NewPlaceHolder 0] else [] in
  punishments ← punishment_hashes (len first) (PunishmentArea proposals);
  Ret (first ++ punishments ++ other_hashes (len first + len punishments) (OtherArea proposals)).

Definition BuildMerkleTreeStoreForProposal (proposals : ProposalArea) : blk (list (option Hash)) :=
  let proposalCount := Count proposals + (if PunishmentCount proposals =? 0 then 1 else 0) in
  let nextPoT := nextPowerOfTwo proposalCount in
  let arraySize := nextPoT * 2 - 1 in
  shas ← proposal_hashes proposals;
  wrap OfWire (buildMerkleTreeStore (map Some shas ++ replicate (Z.to_nat (arraySize - len shas)) None) nextPoT arraySize).

End block.
