(* ===== verification/MsgBlock.v ===== *)
(** Blocks: wire/msgblock.go and wire/pb/block.go.  A block is stored as its header and
    proposals, marshalled and prefixed by their length, followed by its transactions, each
    with its length, so that a transaction can be read at its location. *)

From S2P Require Import Prelude Hashes Wire Merkle Poc Block.

(** * Definitions *)

Definition MaxBlockPayload : Z := 2000000.
Definition minTxPayload : Z := 12.
Definition MaxTxPerBlock : Z := MaxBlockPayload / minTxPayload + 1.

Record TxLoc := mkTxLoc { TxStart : Z; TxLen : Z }.

Record MsgBlock := mkMsgBlock {
  Header : BlockHeader;
  Proposals : ProposalArea;
  Transactions : list MsgTx;
}.

Record BlockBase := mkBlockBase { base_Header : BlockHeader; base_Proposals : ProposalArea }.

Record pbBlock := mkPbBlock {
  pbb_Header : option pbBlockHeader;
  pbb_Proposals : option pbProposalArea;
  pbb_Transactions : list (option pbTx);
}.

Record pbBlockBase := mkPbBlockBase {
  pbbase_Header : option pbBlockHeader;
  pbbase_Proposals : option pbProposalArea;
}.

(** proto.Marshal and proto.Unmarshal on the stored messages. *)
Class Protobuf := {
  marshal_base : pbBlockBase -> option bytes;
  unmarshal_base : bytes -> option pbBlockBase;
  marshal_tx : pbTx -> option bytes;
  unmarshal_tx : bytes -> option pbTx;
  marshal_block : pbBlock -> option bytes;
  unmarshal_block : bytes -> option pbBlock;
}.

(** What the code relies on: a marshalled message is read back. *)
Class ProtobufLaws (PB : Protobuf) := {
  base_roundtrip pb b : marshal_base pb = Some b -> bytes_ok b /\ unmarshal_base b = Some pb;
  tx_roundtrip pb b : marshal_tx pb = Some b -> bytes_ok b /\ unmarshal_tx b = Some pb;
  (** only a message with no field set is empty *)
  tx_nonempty pb b : marshal_tx pb = Some b -> pb_Version pb <> 0 -> b <> [];
  block_roundtrip pb b : marshal_block pb = Some b -> bytes_ok b /\ unmarshal_block b = Some pb;
}.

Definition AddTransaction (tx : MsgTx) : prog MsgBlock block_error unit :=
  modify (fun msg => mkMsgBlock (Header msg) (Proposals msg) (Transactions msg ++ [tx])).

Definition ClearTransactions : prog MsgBlock block_error unit :=
  modify (fun msg => mkMsgBlock (Header msg) (Proposals msg) []).

Definition NewMsgBlock (blockHeader : BlockHeader) : MsgBlock := mkMsgBlock blockHeader newEmptyProposalArea [].

(** [make([]byte, n)]: a size beyond the address space panics. *)
Definition make_bytes (n : Z) : blk bytes := if n <? 2 ^ 48 then Ret (replicate (Z.to_nat n) 0) else Panic.

Section block.
Context {HF : HashFunctions} {CL : ChiaLib} {EC : Ecdsa} {PB : Protobuf}.

Definition MsgBlock_BlockHash (msg : MsgBlock) : blk Hash := BlockHash (Header msg).

Definition TxHashes (msg : MsgBlock) : blk (list Hash) := mapM (fun tx => wrap OfWire (TxHash tx)) (Transactions msg).

Definition BlockBase_ToProto (base : BlockBase) : blk pbBlockBase :=
  pa ← ProposalArea_ToProto (base_Proposals base);
  let h := BlockHeader_ToProto (base_Header base) in
  Ret (mkPbBlockBase (Some h) (Some pa)).

Definition BlockBase_FromProto (pb : option pbBlockBase) : blk BlockBase :=
  match pb with
  | None => Err NilProtoBlockBase
  | Some pb =>
      pa ← ProposalArea_FromProto (pbbase_Proposals pb);
      h ← BlockHeader_FromProto (pbbase_Header pb);
      Ret (mkBlockBase h pa)
  end.

Definition MsgBlock_ToProto (msg : MsgBlock) : blk pbBlock :=
  pa ← ProposalArea_ToProto (Proposals msg);
  let h := BlockHeader_ToProto (Header msg) in
  let txs := map (fun tx => Some (ToProto tx)) (Transactions msg) in
  Ret (mkPbBlock (Some h) (Some pa) txs).

Definition MsgBlock_FromProto (pb : option pbBlock) : blk MsgBlock :=
  match pb with
  | None => Err NilProtoBlock
  | Some pb =>
      pa ← ProposalArea_FromProto (pbb_Proposals pb);
      h ← BlockHeader_FromProto (pbb_Header pb);
      txs ← mapM (fun v => wrap OfWire (NewTxFromProto v)) (pbb_Transactions pb);
      Ret (mkMsgBlock h pa txs)
  end.

Definition pbBlock_Write (m : pbBlock) : blk bytes :=
  header ← (h ← deref (pbb_Header m); pbHeader_Write h);
  proposals ← (p ← deref (pbb_Proposals m); pbProposalArea_Write p);
  txs ← mapM (fun tx => tx ← deref tx; wrap OfWire (pbTx_Write tx)) (pbb_Transactions m);
  Ret (header ++ proposals ++ concat txs).

Definition marshalled (o : option bytes) : blk bytes := match o with Some b => Ret b | None => Err ErrUnmarshal end.

(** The transactions of a stored block. *)
Fixpoint encode_txs (txs : list MsgTx) : blk bytes :=
  match txs with
  | [] => Ret []
  | tx :: txs' =>
      txData ← marshalled (marshal_tx (ToProto tx));
      rest ← encode_txs txs';
      Ret (WriteUint64 (len txData) ++ txData ++ rest)
  end.

Definition MsgBlock_Encode (msg : MsgBlock) (mode : CodecMode) : blk bytes :=
  match mode with
  | DB =>
      pb ← BlockBase_ToProto (mkBlockBase (Header msg) (Proposals msg));
      baseData ← marshalled (marshal_base pb);
      txs ← encode_txs (Transactions msg);
      Ret (WriteUint64 (len baseData) ++ baseData ++ WriteUint64 (len (Transactions msg)) ++ txs)
  | Packet =>
      pb ← MsgBlock_ToProto msg;
      marshalled (marshal_block pb)
  | Plain =>
      pb ← MsgBlock_ToProto msg;
      pbBlock_Write pb
  | _ => Err ErrBlockCodecMode
  end.

Definition MsgBlock_PlainSize (msg : MsgBlock) : blk Z :=
  buf ← MsgBlock_Encode msg Plain;
  Ret (len buf + (if PunishmentCount (Proposals msg) =? 0 then PlaceHolderSize else 0)).

(** [ReadUint64] with the rest of the input. *)
Definition read_uint64 (r : bytes) : blk (Z * bytes) :=
  match ReadUint64 r with Some (v, n) => Ret (v, drop (Z.to_nat n) r) | None => Err ErrReadEOF end.

Definition read_bytes (n : Z) (r : bytes) : blk (bytes * bytes) :=
  buf ← make_bytes n;
  wrap (fun _ => ErrReadEOF) (reader_Read buf r).

(** [tx.SetBytes(buf, DB)] *)
Definition MsgTx_SetBytes (buf : bytes) : blk MsgTx :=
  match unmarshal_tx buf with
  | Some pb => wrap OfWire (NewTxFromProto (Some pb))
  | None => Err ErrUnmarshal
  end.

(** The loop over the transactions; an iteration reads at least a byte or fails, so the length of
    the input bounds the iterations. *)
Fixpoint decode_txs (fuel : nat) (n : Z) (r : bytes) : blk (list MsgTx) :=
  if n <=? 0 then Ret []
  else
    match fuel with
    | O => Err ErrReadEOF
    | S fuel' =>
        '(txLen, r) ← read_uint64 r;
        '(buf, r) ← read_bytes txLen r;
        tx ← MsgTx_SetBytes buf;
        txs ← decode_txs fuel' (n - 1) r;
        Ret (tx :: txs)
    end.

Definition check_tx_count (msg : MsgBlock) : blk MsgBlock :=
  check (len (Transactions msg) >? MaxTxPerBlock) errTooManyTxsInBlock;; Ret msg.

Definition MsgBlock_Decode (r : bytes) (mode : CodecMode) : blk MsgBlock :=
  match mode with
  | DB =>
      '(blockBaseLength, r) ← read_uint64 r;
      '(baseData, r) ← read_bytes blockBaseLength r;
      match unmarshal_base baseData with
      | None => Err ErrUnmarshal
      | Some basePb =>
          base ← BlockBase_FromProto (Some basePb);
          '(txCount, r) ← read_uint64 r;
          (if txCount <? 2 ^ 45 then Ret tt else Panic);;
          txs ← decode_txs (length r) txCount r;
          check_tx_count (mkMsgBlock (base_Header base) (base_Proposals base) txs)
      end
  | Packet =>
      match unmarshal_block r with
      | None => Err ErrUnmarshal
      | Some pb => msg ← MsgBlock_FromProto (Some pb); check_tx_count msg
      end
  | _ => Err ErrBlockCodecMode
  end.

(** [bytes.Buffer.Read]: unlike a Reader, a Buffer at its end succeeds for no bytes. *)
Definition buffer_Read (n : Z) (r : bytes) : blk (bytes * bytes) :=
  buf ← make_bytes n;
  match r with
  | [] => if n =? 0 then Ret ([], []) else Err ErrReadEOF
  | _ => Ret (copy_at buf 0 r, drop (length buf) r)
  end.

Fixpoint loc_txs (fuel : nat) (fullLen n : Z) (r : bytes) : blk (list (TxLoc * MsgTx)) :=
  if n <=? 0 then Ret []
  else
    match fuel with
    | O => Err ErrReadEOF
    | S fuel' =>
        '(txLen, r) ← read_uint64 r;
        let loc := mkTxLoc (fullLen - len r) (int64 txLen) in
        '(buf, r) ← buffer_Read txLen r;
        tx ← MsgTx_SetBytes buf;
        rest ← loc_txs fuel' fullLen (n - 1) r;
        Ret ((loc, tx) :: rest)
    end.

(** The locations, [None] for the nil slice a short read of the base returns without an error;
    and the transactions the receiver is given. *)
Definition DeserializeTxLoc (r : bytes) : blk (option (list TxLoc * list MsgTx)) :=
  let fullLen := len r in
  '(blockBaseLength, r) ← read_uint64 r;
  '(baseData, r') ← buffer_Read blockBaseLength r;
  if len r <? blockBaseLength then Ret None
  else
    '(txCount, r) ← read_uint64 r';
    check (txCount >? MaxTxPerBlock) errTooManyTxsInBlock;;
    locs ← loc_txs (length r) fullLen txCount r;
    Ret (Some (map fst locs, map snd locs)).
End block.
