(* ===== verification/BlockSpec.v ===== *)
(** Theorems on headers, proposals and blocks: round trips of the protobuf forms and of stored
    blocks, what a block hash covers and where it is ambiguous, and when a punishment is valid. *)

From S2P Require Import Prelude Hashes Wire Merkle Amount Forks Curve CurveSpec Keys KeysSpec PocHash Poc PocSpec Block MsgBlock.

(** * Keys and signatures *)

Section parts.
Context {CL : ChiaLib}.

Definition pubkey_ok (pub : PubKey) : Prop :=
  match pub with PkS256 k => key_on_curve k | PkBLS g => g1_valid g = true end.

(** Signatures are written with the smaller of the two values of S. *)
Definition sig_ok (sig : Sig) : Prop :=
  match sig with
  | SigS256 s => valid_scalars (Keys.R s) (Keys.S s) /\ Keys.S s <= Curve.halfOrder Curve.secp256k1
  | SigBLS g => g2_valid g = true
  end.

(** The wire form of a proof keeps its type in the bit length. *)
Definition proof_ok (p : Proof) : Prop :=
  match p with
  | PDefault d => 0 <= BL d < 2 ^ 32 /\ BL d <> ProofTypeChia /\ BL d <> ProofTypeEmpty
  | PChia (Some pos) => sendable pos
  | PChia None => False
  | PEmpty => True
  end.

Lemma pubkey_proto_roundtrip pub : pubkey_ok pub -> ProtoToPublicKey (Some (PublicKeyToProto pub)) = Ret pub.
Proof.
  destruct pub as [k|g]; intros Hok; unfold ProtoToPublicKey, PublicKeyToProto; cbn [PubKey_SerializeCompressed].
  - destruct (Serialize_formats k Hok) as (_ & _ & Hc).
    destruct (ParsePubKey_Serialize k Hok) as (_ & _ & Hp).
    assert (len (Keys.SerializeCompressed k) = 33) as Hl by (rewrite Hc, len_cons; unfold len; rewrite length_be_encode; done).
    rewrite Hl, Hp. done.
  - pose proof (g1_valid_length g Hok) as Hl. unfold len. rewrite Hl. cbn. by rewrite NewG1_valid.
Qed.

Lemma proof_proto_roundtrip p : proof_ok p -> ProtoToProof (Some (ProofToProto p)) = Ret p.
Proof.
  unfold ProtoToProof, ProofToProto. destruct p as [d|[pos|]|]; cbn [proof_ok pb_BitLength pb_X pb_XPrime Proof_Type Proof_Encode]; try done.
  - intros (Hbl & Hc & He). rewrite wrapU_small by lia.
    rewrite (proj2 (Z.eqb_neq _ _) Hc), (proj2 (Z.eqb_neq _ _) He), !MoveBytes_id. by destruct d.
  - intros Hs. change (ProofTypeChia =? ProofTypeChia) with true. cbv iota.
    by rewrite chia_decode_encode.
Qed.

Lemma Serialize_length s : valid_scalars (Keys.R s) (Keys.S s) -> 8 <= len (Keys.Serialize s) <= 72.
Proof.
  intros Hv. rewrite Serialize_der, der_length by done. destruct Hv as [HR HS]. apply low_s_range in HS.
  assert (Curve.halfOrder Curve.secp256k1 < Curve.curve_N Curve.secp256k1 < 2 ^ 256) as [? ?] by (split; reflexivity).
  destruct (canonicalizeInt_spec (Keys.R s) ltac:(lia)) as (_ & _ & _ & Lr).
  destruct (canonicalizeInt_spec (low_s (Keys.S s)) ltac:(lia)) as (_ & _ & _ & Ls). lia.
Qed.

Lemma NewG2_valid b : g2_valid b = true -> NewG2ElementFromBytes b = Ret b.
Proof.
  intros Hb. unfold NewG2ElementFromBytes. rewrite Hb. f_equal. pose proof (g2_valid_length b Hb) as Hl.
  rewrite copy_at_start by (rewrite length_replicate; lia). rewrite length_replicate. apply take_ge. lia.
Qed.

Lemma sig_proto_roundtrip sig : sig_ok sig -> ProtoToSignature (Some (SignatureToProto sig)) = Ret sig.
Proof.
  destruct sig as [s|g]; cbn [sig_ok]; intros Hok; unfold ProtoToSignature, SignatureToProto; cbn [Sig_Serialize].
  - destruct Hok as [Hv Hlow]. pose proof (Serialize_length s Hv) as Hl. rewrite ParseDER_Serialize by done.
    replace (len (Keys.Serialize s) =? SignatureLengthBLS) with false by (symmetry; apply Z.eqb_neq; unfold SignatureLengthBLS; lia).
    change SignatureLengthS256Min with 8. change SignatureLengthS256Max with 80.
    replace ((8 <=? len (Keys.Serialize s)) && (len (Keys.Serialize s) <=? 80)) with true
      by (symmetry; rewrite andb_true_iff, !Z.leb_le; lia).
    cbn [wrap mbind outcome_bind]. unfold low_s. rewrite Z.gtb_ltb. rewrite (proj2 (Z.ltb_ge _ _)) by exact Hlow. by destruct s.
  - pose proof (g2_valid_length g Hok) as Hl. unfold len. rewrite Hl. cbn. by rewrite NewG2_valid.
Qed.
End parts.

(** * Headers *)

Section headers.
Context {HF : HashFunctions} {CL : ChiaLib} {EC : Ecdsa}.

(** A header as nodes build and accept it. *)
Record header_ok (h : BlockHeader) : Prop := {
  ok_chain : hash_ok (bh_ChainID h);
  ok_time : - 2 ^ 63 <= bh_Timestamp h < 2 ^ 63;
  ok_previous : hash_ok (bh_Previous h);
  ok_txroot : hash_ok (bh_TransactionRoot h);
  ok_witroot : hash_ok (bh_WitnessRoot h);
  ok_proproot : hash_ok (bh_ProposalRoot h);
  ok_target : 0 <= bh_Target h;
  ok_challenge : hash_ok (bh_Challenge h);
  ok_pubkey : pubkey_ok (bh_PubKey h);
  ok_proof : proof_ok (bh_Proof h);
  ok_sig : sig_ok (bh_Signature h);
  ok_ban : Forall pubkey_ok (bh_BanList h);
  ok_binding : hash_ok (bh_BindingRoot h);
  ok_version : CheckVersionConstraint h = Ret tt;
}.

Lemma int64_uint64 z : - 2 ^ 63 <= z < 2 ^ 63 -> int64 (uint64 z) = z.
Proof.
  intros Hz. unfold wrapS, wrapU. rewrite Zplus_mod_idemp_l. rewrite Z.mod_small by lia. lia.
Qed.

Lemma banlist_roundtrip l : Forall pubkey_ok l -> mapM ProtoToPublicKey (map (fun pub => Some (PublicKeyToProto pub)) l) = Ret l.
Proof.
  induction 1 as [|pub l Hp _ IH]; [done|]. cbn [map mapM]. rewrite pubkey_proto_roundtrip by done. cbn [mbind outcome_bind]. by rewrite IH.
Qed.

Lemma old_binding_root h : header_ok h -> (bh_Version h >=? BlockVersionV2) = false -> 0 <= bh_Version h ->
  bh_BindingRoot h = replicate 32 0.
Proof.
  intros Hok Hv H0. pose proof (ok_version h Hok) as Hc. unfold CheckVersionConstraint in Hc.
  rewrite Z.geb_leb in Hv. apply Z.leb_gt in Hv. unfold BlockVersionV2 in Hv.
  destruct (Z.eqb_spec (bh_Version h) 0); [done|].
  replace (bh_Version h =? BlockVersionV1) with true in Hc by (symmetry; apply Z.eqb_eq; unfold BlockVersionV1; lia).
  unfold checkVersionConstraintV1 in Hc.
  repeat (apply bind_Ret in Hc as (? & ? & Hc)).
  unfold check in Hc. destruct (isEmptyBindingRoot (bh_BindingRoot h)) eqn:He; [|done].
  unfold isEmptyBindingRoot in He. by apply bytes_Equal_true in He.
Qed.

Lemma header_roundtrip h : header_ok h -> 0 <= bh_Version h -> BlockHeader_FromProto (Some (BlockHeader_ToProto h)) = Ret h.
Proof.
  intros Hok Hv. pose proof (old_binding_root h Hok) as Hbr. destruct Hok.
  unfold BlockHeader_FromProto, BlockHeader_ToProto.
  cbn [pbh_ChainID pbh_Version pbh_Height pbh_Timestamp pbh_Previous pbh_TransactionRoot pbh_WitnessRoot pbh_ProposalRoot
       pbh_Target pbh_Challenge pbh_PubKey pbh_Proof pbh_Signature pbh_BanList pbh_BindingRoot].
  rewrite !Hash_proto_roundtrip by done. cbn [wrap mbind outcome_bind ProtoToBigInt].
  unfold BigIntToProto. rewrite be_decode_big_Bytes by done.
  rewrite pubkey_proto_roundtrip, proof_proto_roundtrip, sig_proto_roundtrip, banlist_roundtrip by done.
  cbn [mbind outcome_bind]. rewrite int64_uint64 by done.
  assert ((if bh_Version h >=? BlockVersionV2
           then wrap OfWire (Hash_FromProto (if bh_Version h >=? BlockVersionV2 then Some (Hash_ToProto (bh_BindingRoot h)) else None))
           else Ret (replicate 32 0)) = Ret (E := block_error) (bh_BindingRoot h)) as ->.
  { destruct (bh_Version h >=? BlockVersionV2) eqn:Hge; [by rewrite Hash_proto_roundtrip|]. by rewrite Hbr. }
  cbn [mbind outcome_bind].
  replace (mkBlockHeader _ _ _ _ _ _ _ _ _ _ _ _ _ _ _) with h by (by destruct h). by rewrite ok_version0.
Qed.

Lemma FromProto_version pb h : BlockHeader_FromProto pb = Ret h -> CheckVersionConstraint h = Ret tt.
Proof.
  unfold BlockHeader_FromProto. destruct pb as [pb|]; [|done]. intros H.
  repeat (apply bind_Ret in H as (? & ? & H)). injection H as <-. by destruct x11.
Qed.

(** ** Plain encodings *)

Definition common_wire (h : BlockHeader) : bytes :=
  le_encode 8 (bh_Version h) ++ le_encode 8 (bh_Height h) ++ le_encode 8 (uint64 (bh_Timestamp h)) ++
  hash_wire (bh_Previous h) ++ hash_wire (bh_TransactionRoot h) ++ hash_wire (bh_WitnessRoot h) ++
  hash_wire (bh_ProposalRoot h) ++ big_Bytes (bh_Target h) ++ hash_wire (bh_Challenge h) ++
  PubKey_SerializeCompressed (bh_PubKey h) ++ pbProof_Bytes (ProofToProto (bh_Proof h)).

Definition tail_wire (h : BlockHeader) : bytes :=
  concat (map PubKey_SerializeCompressed (bh_BanList h)) ++
  (if bh_Version h >=? 2 then hash_wire (bh_BindingRoot h) else []).

Definition header_wire (h : BlockHeader) : bytes :=
  hash_wire (bh_ChainID h) ++ common_wire h ++ Sig_Serialize (bh_Signature h) ++ tail_wire h.
Definition poc_wire (h : BlockHeader) : bytes := hash_wire (bh_ChainID h) ++ common_wire h ++ tail_wire h.

Lemma mapM_deref {E A} (l : list A) : mapM (deref (E := E)) (map Some l) = Ret l.
Proof. induction l as [|x l IH]; [done|]. cbn [map mapM deref mbind outcome_bind]. by rewrite IH. Qed.

Lemma common_ToProto h : pbh_common (BlockHeader_ToProto h) = Ret (common_wire h).
Proof. done. Qed.

Lemma tail_ToProto h : pbh_tail (BlockHeader_ToProto h) = Ret (tail_wire h).
Proof.
  unfold pbh_tail, tail_wire. cbn [BlockHeader_ToProto pbh_BanList pbh_Version pbh_BindingRoot].
  rewrite <- (map_map PublicKeyToProto Some), mapM_deref. cbn [mbind outcome_bind].
  change BlockVersionV2 with 2. by destruct (bh_Version h >=? 2).
Qed.

Lemma Write_header h : pbHeader_Write (BlockHeader_ToProto h) = Ret (header_wire h).
Proof. unfold pbHeader_Write. by rewrite common_ToProto, tail_ToProto. Qed.

Lemma WritePoC_header h : pbHeader_WritePoC (BlockHeader_ToProto h) = Ret (poc_wire h).
Proof. unfold pbHeader_WritePoC. by rewrite common_ToProto, tail_ToProto. Qed.

Lemma BlockHash_wire h : BlockHash h = Ret (DoubleHashH (header_wire h)).
Proof. unfold BlockHash, BlockHeader_Encode. by rewrite Write_header. Qed.

Lemma PoCHash_wire h : PoCHash h = Ret (DoubleHashH (poc_wire h)).
Proof. unfold PoCHash, BlockHeader_Encode. by rewrite WritePoC_header. Qed.

(** Another proof in the same header. *)
Definition set_proof (h : BlockHeader) (p : Proof) : BlockHeader :=
  mkBlockHeader (bh_ChainID h) (bh_Version h) (bh_Height h) (bh_Timestamp h) (bh_Previous h) (bh_TransactionRoot h)
    (bh_WitnessRoot h) (bh_ProposalRoot h) (bh_Target h) (bh_Challenge h) (bh_PubKey h) p (bh_Signature h)
    (bh_BanList h) (bh_BindingRoot h).

Lemma verdict h : exists b, VerifySig h = Ret b \/ exists e, VerifySig h = Err e.
Proof.
  unfold VerifySig. rewrite PoCHash_wire. cbn [mbind outcome_bind].
  destruct (bh_PubKey h), (bh_Signature h).
  - eexists. by left.
  - exists true. right. by eexists.
  - exists true. right. by eexists.
  - destruct (aug_verify _ _ _); [eexists; by left|]. exists true. right. by eexists.
Qed.

(** * Claims on headers *)

(** A header that nodes can build (hashes of 32 bytes, keys on the curve or accepted by
    the BLS library, a signature in its low form, a proof whose type the wire can tell, types
    that agree with its version) survives the protobuf form, including its time and its
    target; and every header read from the wire satisfies the version constraint: version 1
    has pocec keys and signature, a default proof and no binding root, later versions pair
    chia proofs with BLS keys and default proofs with pocec keys. *)
Theorem header_proto_roundtrip (h : BlockHeader) (pb : option pbBlockHeader) :
  (header_ok h -> 0 <= bh_Version h -> BlockHeader_FromProto (Some (BlockHeader_ToProto h)) = Ret h) /\
  (BlockHeader_FromProto pb = Ret h -> CheckVersionConstraint h = Ret tt).
Proof. split; [apply header_roundtrip|apply FromProto_version]. Qed.

(** The encoding under the block hash and under the hash that is signed does not separate
    the two halves of a default proof: moving bytes from the end of X to the front of XPrime
    gives a different header with the same block hash and the same hash to sign, on which the
    signature verifies as before. *)
Theorem block_hash_ambiguous (h : BlockHeader) (x y xp : bytes) (bl : Z) :
  y <> [] ->
  let h1 := set_proof h (PDefault (mkDefaultProof (x ++ y) xp bl)) in
  let h2 := set_proof h (PDefault (mkDefaultProof x (y ++ xp) bl)) in
  h1 <> h2 /\ BlockHash h1 = BlockHash h2 /\ PoCHash h1 = PoCHash h2 /\ VerifySig h1 = VerifySig h2.
Proof.
  intros Hy h1 h2.
  assert (common_wire h1 = common_wire h2) as Hc.
  { unfold common_wire, h1, h2, pbProof_Bytes. cbn. by rewrite <- !app_assoc. }
  assert (PoCHash h1 = PoCHash h2) as Hp by (rewrite !PoCHash_wire; unfold poc_wire; by rewrite Hc).
  split; [|split; [|split]].
  - intros He. apply (f_equal bh_Proof) in He. cbn in He. injection He as He _. rewrite <- (app_nil_r x) in He at 2.
    by apply app_inv_head in He.
  - rewrite !BlockHash_wire. unfold header_wire. by rewrite Hc.
  - done.
  - unfold VerifySig. by rewrite Hp.
Qed.

(** A punishment is valid exactly when its key is present and its two headers have the same
    height and bit length, different block hashes, that key as their public key, and
    signatures that verify under it; checking it never panics. *)
Theorem punishment_valid (fpk : FaultPubKey) :
  FaultPubKey_IsValid fpk <> Panic /\
  (FaultPubKey_IsValid fpk = Ret tt <->
   let '(h0, h1) := fpk_Testimony fpk in
   exists pub, fpk_PubKey fpk = Some pub /\
     bh_Height h0 = bh_Height h1 /\ BitLength (bh_Proof h0) = BitLength (bh_Proof h1) /\
     DoubleHashH (header_wire h0) <> DoubleHashH (header_wire h1) /\
     PubKey_SerializeUncompressed (bh_PubKey h0) = PubKey_SerializeUncompressed pub /\
     PubKey_SerializeUncompressed (bh_PubKey h1) = PubKey_SerializeUncompressed pub /\
     VerifySig h0 = Ret true /\ VerifySig h1 = Ret true).
Proof.
  unfold FaultPubKey_IsValid. destruct (fpk_Testimony fpk) as [h0 h1]. destruct (fpk_PubKey fpk) as [pub|]; [|naive_solver].
  rewrite !BlockHash_wire. cbn [mbind outcome_bind].
  destruct (verdict h0) as [b0 H0], (verdict h1) as [b1 H1].
  unfold check, bytes_Equal. split.
  - repeat (case_if; cbn [mbind outcome_bind]; try done).
    all: destruct H0 as [->|[? ->]]; cbn [mbind outcome_bind]; try done.
    all: destruct H1 as [->|[? ->]]; cbn [mbind outcome_bind]; try done.
    all: by destruct b0, b1.
  - destruct (Z.eqb_spec (bh_Height h0) (bh_Height h1)); cbn [negb mbind outcome_bind]; [|naive_solver].
    destruct (Z.eqb_spec (BitLength (bh_Proof h0)) (BitLength (bh_Proof h1))); cbn [negb mbind outcome_bind]; [|naive_solver].
    destruct (bool_decide_reflect (DoubleHashH (header_wire h0) = DoubleHashH (header_wire h1))) as [Hd|Hd]; cbn [mbind outcome_bind]; [naive_solver|].
    destruct (bool_decide_reflect (PubKey_SerializeUncompressed pub = PubKey_SerializeUncompressed (bh_PubKey h0))) as [Hk0|Hk0]; cbn [negb orb mbind outcome_bind]; [|naive_solver].
    destruct (bool_decide_reflect (PubKey_SerializeUncompressed pub = PubKey_SerializeUncompressed (bh_PubKey h1))) as [Hk1|Hk1]; cbn [negb orb mbind outcome_bind]; [|naive_solver].
    destruct H0 as [->|[? ->]]; cbn [mbind outcome_bind]; [|naive_solver].
    destruct H1 as [->|[? ->]]; cbn [mbind outcome_bind]; [|naive_solver].
    destruct b0, b1; cbn; naive_solver.
Qed.
End headers.

(** * Blocks *)

Section blocks.
Context {HF : HashFunctions} {CL : ChiaLib} {EC : Ecdsa} {PB : Protobuf} {PL : ProtobufLaws PB}.

Definition punishment_ok (fpk : FaultPubKey) : Prop :=
  let '(h0, h1) := fpk_Testimony fpk in
  header_ok h0 /\ header_ok h1 /\ 0 <= bh_Version h0 /\ 0 <= bh_Version h1 /\ fpk_PubKey fpk = Some (bh_PubKey h0).

Definition proposals_ok (pa : ProposalArea) : Prop :=
  Forall punishment_ok (PunishmentArea pa) /\ Forall (fun np => typeAnyMessage <= proposalType np) (OtherArea pa).

Definition block_ok (b : MsgBlock) : Prop :=
  header_ok (Header b) /\ 0 <= bh_Version (Header b) /\ proposals_ok (Proposals b) /\
  Forall (fun tx => msgtx_ok tx /\ Version tx <> 0) (Transactions b) /\ len (Transactions b) <= MaxTxPerBlock.

Lemma punishment_roundtrip fpk : punishment_ok fpk -> FaultPubKey_FromProto (Some (FaultPubKey_ToProto fpk)) = Ret fpk.
Proof.
  destruct fpk as [v pub [h0 h1]]. unfold punishment_ok. cbn [fpk_Testimony fpk_PubKey fst snd].
  intros (H0 & H1 & V0 & V1 & ->). unfold FaultPubKey_FromProto, FaultPubKey_ToProto.
  cbn [TestimonyA TestimonyB fpk_Testimony fst snd fpk_version pbp_Version].
  by rewrite !header_roundtrip by done.
Qed.

Lemma proposals_roundtrip pa : proposals_ok pa ->
  exists pb, ProposalArea_ToProto pa = Ret pb /\ ProposalArea_FromProto (Some pb) = Ret pa.
Proof.
  intros [Hp Ho]. unfold ProposalArea_ToProto.
  assert (existsb (fun proposal => proposalType proposal <? typeAnyMessage) (OtherArea pa) = false) as ->.
  { induction Ho as [|np l Hnp _ IH]; [done|]. cbn [existsb]. rewrite IH, orb_false_r. apply Z.ltb_ge. done. }
  eexists. split; [done|]. unfold ProposalArea_FromProto. cbn [pbPunishments pbOtherProposals].
  rewrite (mapM_total_map _ FaultPubKey_FromProto id), (mapM_total_map _ other_FromProto id), !map_id; [by destruct pa| |].
  - intros np Hnp. rewrite Forall_forall in Ho. specialize (Ho np Hnp). unfold other_FromProto. cbn.
    rewrite (proj2 (Z.ltb_ge _ _)) by done. cbn. rewrite MoveBytes_id. by destruct np.
  - intros fpk Hin. rewrite Forall_forall in Hp. by apply punishment_roundtrip, Hp.
Qed.

Lemma tx_decoded tx : msgtx_ok tx -> NewTxFromProto (Some (ToProto tx)) = Ret tx.
Proof. intros Htx. unfold NewTxFromProto. by rewrite FromProto_ToProto. Qed.

Lemma read_uint64_app v r : 0 <= v < 2 ^ 64 -> read_uint64 (WriteUint64 v ++ r) = Ret (v, r).
Proof.
  intros Hv. unfold read_uint64, ReadUint64, WriteUint64.
  pose proof (length_le_encode 8 v) as Hl. destruct (le_encode 8 v ++ r) eqn:He; [by destruct (le_encode 8 v)|]. rewrite <- He.
  rewrite take_app_length' by done. rewrite Hl. cbn [Nat.sub replicate]. rewrite app_nil_r, le_decode_encode.
  change (256 ^ Z.of_nat 8) with (2 ^ 64). rewrite Z.mod_small by done.
  rewrite to_nat_len, drop_app_length. done.
Qed.

Lemma read_bytes_app b r : len b < 2 ^ 48 -> b ++ r <> [] -> read_bytes (len b) (b ++ r) = Ret (b, r).
Proof.
  intros Hl Hne. unfold read_bytes, make_bytes. rewrite (proj2 (Z.ltb_lt _ _)) by done. cbn [mbind outcome_bind].
  unfold reader_Read. destruct (b ++ r) eqn:He; [done|]. rewrite <- He. cbn [wrap].
  rewrite copy_at_start by (rewrite length_replicate, to_nat_len, length_app; lia).
  by rewrite length_replicate, to_nat_len, take_app_length, drop_app_length.
Qed.

Lemma buffer_Read_app b r : len b < 2 ^ 48 -> b ++ r <> [] -> buffer_Read (len b) (b ++ r) = Ret (b, r).
Proof.
  intros Hl Hne. pose proof (read_bytes_app b r Hl Hne) as H. unfold read_bytes, buffer_Read in *.
  destruct (make_bytes (len b)) as [buf| |]; cbn [mbind outcome_bind] in *; [|done|done].
  unfold reader_Read in H. by destruct (b ++ r).
Qed.

Lemma marshalled_Ret o b : marshalled o = Ret b <-> o = Some b.
Proof. destruct o; cbn; split; by intros [= ->]. Qed.

(** The stored transactions, one by one. *)
Lemma encode_txs_cons tx txs data : encode_txs (tx :: txs) = Ret data ->
  exists d rest, marshal_tx (ToProto tx) = Some d /\ encode_txs txs = Ret rest /\ data = WriteUint64 (len d) ++ d ++ rest.
Proof.
  cbn [encode_txs]. intros H. apply bind_Ret in H as (d & Hd & H). apply bind_Ret in H as (rest & Hrest & [= <-]).
  apply marshalled_Ret in Hd. eauto.
Qed.

Lemma decode_encode_txs txs : forall data n fuel, encode_txs txs = Ret data -> len data < 2 ^ 48 ->
  Forall (fun tx => msgtx_ok tx /\ Version tx <> 0) txs -> n = len txs -> (length data <= fuel)%nat ->
  decode_txs fuel n data = Ret txs.
Proof.
  induction txs as [|tx txs IH]; intros data n fuel He Hlen Hok -> Hf.
  { by destruct fuel. }
  apply Forall_cons in Hok as [[Htx Hv] Hok]. apply encode_txs_cons in He as (d & rest & Hd & Hr & ->).
  pose proof (len_nonneg txs). pose proof (len_nonneg d). pose proof (len_nonneg rest).
  assert (len (WriteUint64 (len d)) = 8) as H8 by (unfold len, WriteUint64; by rewrite length_le_encode).
  rewrite !len_app, H8 in Hlen.
  destruct fuel as [|fuel]; [exfalso; unfold len in *; rewrite !length_app in Hf; lia|].
  cbn [decode_txs]. rewrite len_cons. rewrite (proj2 (Z.leb_gt _ _)) by lia.
  rewrite read_uint64_app by lia. cbn [mbind outcome_bind].
  rewrite read_bytes_app by (lia || (intros He; apply app_eq_nil in He as [-> _]; by apply (tx_nonempty _ _ Hd))).
  cbn [mbind outcome_bind]. unfold MsgTx_SetBytes.
  destruct (tx_roundtrip _ _ Hd) as [_ ->]. rewrite tx_decoded by done. cbn [wrap mbind outcome_bind].
  rewrite (IH rest); [done|done|lia|done|lia|]. rewrite !length_app in Hf. unfold len in *. lia.
Qed.

(** Where the transactions of [txs] are stored from offset [pos] on. *)
Fixpoint stored_at (pos : Z) (txs : list MsgTx) (locs : list TxLoc) (data : bytes) : Prop :=
  match txs, locs with
  | [], [] => True
  | tx :: txs', loc :: locs' =>
      exists d, marshal_tx (ToProto tx) = Some d /\ TxLen loc = len d /\ pos + 8 = TxStart loc /\
        slice (E := block_error) data (TxStart loc) (TxStart loc + TxLen loc) = Ret d /\
        stored_at (TxStart loc + TxLen loc) txs' locs' data
  | _, _ => False
  end.

Lemma loc_encode_txs txs : forall pre data n fuel, encode_txs txs = Ret data -> len (pre ++ data) < 2 ^ 48 ->
  Forall (fun tx => msgtx_ok tx /\ Version tx <> 0) txs -> n = len txs -> (length data <= fuel)%nat ->
  exists locs, loc_txs fuel (len (pre ++ data)) n data = Ret (zip locs txs) /\ length locs = length txs /\
    stored_at (len pre) txs locs (pre ++ data).
Proof.
  induction txs as [|tx txs IH]; intros pre data n fuel He Hlen Hok -> Hf.
  { exists []. split; [by destruct fuel|done]. }
  apply Forall_cons in Hok as [[Htx Hv] Hok]. apply encode_txs_cons in He as (d & rest & Hd & Hr & ->).
  pose proof (len_nonneg txs). pose proof (len_nonneg d). pose proof (len_nonneg rest). pose proof (len_nonneg pre).
  assert (len (WriteUint64 (len d)) = 8) as H8 by (unfold len, WriteUint64; by rewrite length_le_encode).
  assert (len (pre ++ WriteUint64 (len d) ++ d ++ rest) = len pre + 8 + len d + len rest) as Htot by (rewrite !len_app, H8; lia).
  rewrite Htot in Hlen.
  destruct fuel as [|fuel]; [exfalso; unfold len in *; rewrite !length_app in Hf; lia|].
  destruct (IH ((pre ++ WriteUint64 (len d)) ++ d) rest (len txs) fuel) as (locs & Hl & Hlc & Hst); [done| |done|done| |].
  { rewrite !len_app, H8. lia. }
  { rewrite !length_app in Hf. unfold len in *. lia. }
  rewrite <- !app_assoc in Hl, Hst.
  exists (mkTxLoc (len pre + 8) (len d) :: locs). split; [|split; [cbn; lia|]].
  - cbn [loc_txs]. rewrite len_cons. rewrite (proj2 (Z.leb_gt _ _)) by lia.
    rewrite read_uint64_app by lia. cbn [mbind outcome_bind].
    rewrite buffer_Read_app by (lia || (intros He; apply app_eq_nil in He as [-> _]; by apply (tx_nonempty _ _ Hd))).
    cbn [mbind outcome_bind]. unfold MsgTx_SetBytes.
    destruct (tx_roundtrip _ _ Hd) as [_ ->]. rewrite tx_decoded by done. cbn [wrap mbind outcome_bind].
    replace (1 + len txs - 1) with (len txs) by lia. rewrite Hl. cbn [mbind outcome_bind zip zip_with].
    do 4 f_equal; [|rewrite int64_small by lia; done]. rewrite Htot, len_app. lia.
  - cbn [stored_at TxStart TxLen]. exists d. split; [done|]. split; [done|]. split; [done|].
    replace (len (pre ++ WriteUint64 (len d) ++ d)) with (len pre + 8 + len d) in Hst by (rewrite !len_app; lia).
    rewrite <- app_assoc in Hst. split; [|done].
    rewrite !app_assoc. rewrite <- (app_assoc (pre ++ WriteUint64 (len d))).
    replace (len pre + 8) with (len (pre ++ WriteUint64 (len d))) by (rewrite len_app; lia). apply slice_mid.
Qed.

Lemma punishment_hashes_ok l : forall idx, exists hs, punishment_hashes idx l = Ret hs /\ length hs = length l.
Proof.
  induction l as [|fpk l IH]; intros idx; cbn [punishment_hashes]; [by exists []|].
  destruct (IH (idx + 1)) as (hs & -> & Hl). unfold FaultPubKey_Hash, pbPunishment_Write, FaultPubKey_ToProto.
  cbn [TestimonyA TestimonyB deref mbind outcome_bind]. rewrite !Write_header. cbn [mbind outcome_bind].
  eexists. split; [done|]. cbn. by rewrite Hl.
Qed.

Lemma length_other_hashes l : forall idx, length (other_hashes idx l) = length l.
Proof. induction l as [|np l IH]; intros idx; cbn; [done|]. by rewrite IH. Qed.

(** The merkle store over the proposals of a block, whatever they are, is built without
    error or panic, and its last entry is the merkle root, computed level by level, of the
    hashes of the proposals with their positions, the place holder standing in when there is
    no punishment. *)
Theorem proposal_merkle_root (pa : ProposalArea) :
  exists hashes store root, proposal_hashes pa = Ret hashes /\
    len hashes = Count pa + (if PunishmentCount pa =? 0 then 1 else 0) /\
    BuildMerkleTreeStoreForProposal pa = Ret store /\
    merkle_root (length hashes) hashes = Some root /\ last store = Some (Some root).
Proof.
  unfold proposal_hashes. set (first := if PunishmentCount pa =? 0 then _ else _).
  destruct (punishment_hashes_ok (PunishmentArea pa) (len first)) as (hs & Hhs & Hl).
  rewrite Hhs. cbn [mbind outcome_bind]. set (hashes := first ++ hs ++ _).
  assert (len hashes = Count pa + (if PunishmentCount pa =? 0 then 1 else 0)) as Hlen.
  { unfold hashes, first, Count. rewrite !len_app. unfold len. rewrite length_other_hashes, Hl. case_if; cbn [length]; lia. }
  assert (1 <= len hashes) as H1.
  { rewrite Hlen. unfold Count, PunishmentCount. pose proof (len_nonneg (PunishmentArea pa)). pose proof (len_nonneg (OtherArea pa)).
    case_if; bool_to_prop; lia. }
  destruct (nextPowerOfTwo_spec _ H1) as (k & Hk & Hr).
  assert (2 ^ Z.of_nat k = Z.of_nat (2 ^ k)) as Hp by (by rewrite Nat2Z.inj_pow).
  assert (fits k hashes) as Hfit by (unfold fits; unfold len in *; lia).
  destruct (levels_root k hashes Hfit) as (root & Hroot & Hlast).
  exists hashes, (levels k (pad k hashes)), root. split_and!; [done|done| |by eapply merkle_root_fuel, fits_fuel|done].
  unfold BuildMerkleTreeStoreForProposal, proposal_hashes. fold first. rewrite Hhs. cbn [mbind outcome_bind]. fold hashes.
  rewrite <- Hlen, Hk, Hp, store_levels; [done|done|]. unfold len. lia.
Qed.

(** C37: A stored block is read back: the database form of a block (its header and proposals as
    nodes build them, at most MaxTxPerBlock transactions with a version) decodes to the block,
    for every marshaller that reads back what it wrote; and DeserializeTxLoc of the same bytes
    gives the transactions together with locations at which exactly their marshalled bytes
    are found, one after the other. *)
Theorem block_store_roundtrip (b : MsgBlock) (data : bytes) :
  block_ok b -> MsgBlock_Encode b DB = Ret data -> len data < 2 ^ 48 ->
  MsgBlock_Decode data DB = Ret b /\
  exists locs start, DeserializeTxLoc data = Ret (Some (locs, Transactions b)) /\
    stored_at start (Transactions b) locs data.
Proof.
  intros (Hh & Hv & Hp & Htx & Hmax) He Hlen. unfold MsgBlock_Encode in He.
  apply bind_Ret in He as (pb & Hpb & He). apply bind_Ret in He as (base & Hbase & He).
  apply bind_Ret in He as (txs & Htxs & He). apply Ret_inj in He. subst data. apply marshalled_Ret in Hbase.
  destruct (proposals_roundtrip _ Hp) as (pa & Hpa & Hpa').
  unfold BlockBase_ToProto in Hpb. cbn [base_Proposals base_Header] in Hpb. rewrite Hpa in Hpb. apply Ret_inj in Hpb. subst pb.
  destruct (base_roundtrip _ _ Hbase) as [_ Hun].
  set (cnt := WriteUint64 (len (Transactions b))) in *.
  assert (forall v, len (WriteUint64 v) = 8) as H8 by (intros; unfold len, WriteUint64; by rewrite length_le_encode).
  pose proof (len_nonneg base). pose proof (len_nonneg txs). pose proof (len_nonneg (Transactions b)).
  assert (cnt ++ txs <> []) as Hne.
  { intros E. apply (f_equal len) in E. unfold cnt in E. rewrite len_app, H8, len_nil in E. lia. }
  pose proof Hlen as Hlen'. rewrite !len_app in Hlen'. unfold cnt in Hlen' at 1. rewrite !H8 in Hlen'.
  assert (0 <= len (Transactions b) < 2 ^ 45) as Hcnt by (change MaxTxPerBlock with 166667 in Hmax; lia).
  split.
  - cbn [MsgBlock_Decode]. rewrite read_uint64_app by lia. cbn [mbind outcome_bind].
    rewrite read_bytes_app by (lia || (intros E; by apply app_eq_nil in E as [_ ?])). cbn [mbind outcome_bind]. rewrite Hun.
    unfold BlockBase_FromProto. cbn [pbbase_Proposals pbbase_Header]. rewrite Hpa'. cbn [mbind outcome_bind].
    rewrite header_roundtrip by done. cbn [mbind outcome_bind].
    unfold cnt. rewrite read_uint64_app by lia. cbn [mbind outcome_bind].
    rewrite (proj2 (Z.ltb_lt _ _)) by lia. cbn [mbind outcome_bind].
    rewrite (decode_encode_txs (Transactions b)) by (done || lia). cbn [mbind outcome_bind base_Header base_Proposals].
    unfold check_tx_count. cbn [Transactions]. rewrite Z.gtb_ltb, (proj2 (Z.ltb_ge _ _)) by done. by destruct b.
  - destruct (loc_encode_txs (Transactions b) (WriteUint64 (len base) ++ base ++ cnt) txs (len (Transactions b)) (length txs))
      as (locs & Hl & Hlc & Hst); [done| |done|done|lia|].
    { rewrite <- !app_assoc. done. }
    rewrite <- !app_assoc in Hl, Hst. exists locs, (len (WriteUint64 (len base) ++ base ++ cnt)). split; [|done].
    unfold DeserializeTxLoc. rewrite read_uint64_app by lia. cbn [mbind outcome_bind].
    rewrite buffer_Read_app by (lia || (intros E; by apply app_eq_nil in E as [_ ?])). cbn [mbind outcome_bind].
    rewrite (proj2 (Z.ltb_ge (len (base ++ cnt ++ txs)) _)) by (rewrite len_app; pose proof (len_nonneg (cnt ++ txs)); lia).
    subst cnt. rewrite read_uint64_app by lia. cbn [mbind outcome_bind].
    rewrite Z.gtb_ltb, (proj2 (Z.ltb_ge MaxTxPerBlock _)) by done. cbn [check mbind outcome_bind].
    rewrite Hl. cbn [mbind outcome_bind]. rewrite fst_zip, snd_zip by lia. done.
Qed.
End blocks.
