(* ===== verification/Genesis.v ===== *)
(** The genesis block (src/config/genesis.go) run through the model with SHA-256: its hash,
    its roots, its chain id and its proof come out as the constants of the source say, except
    for the chain id the parameters announce.  It also instantiates the theorems on blocks. *)

From S2P Require Import Prelude Hashes Wire Merkle Curve CurveSpec Keys KeysSpec PocHash Poc PocSpec Block MsgBlock BlockSpec.

(** * Definitions *)

(** [mustDecodeHash], of the 64 digits of a hash. *)
Definition mustDecodeHash (z : Z) : Hash := be_encode 32 z.

Definition genesisCoinbaseTx : MsgTx :=
  mkMsgTx 1 [mkTxIn (mkOutPoint (replicate 32 0) MaxPrevOutIndex) [] MaxTxInSequenceNum]
    [mkTxOut 0x47868c000 (be_encode 34 0x0020ba60494593fe65bea35fe9e118c129e5478ce660cec07c8ea8a7e2ec841fccd2)]
    0 (replicate 12 0).

(** The key and the signature [mustDecodePoCPublicKey] and [mustDecodePoCSignature] return; see
    [genesis_decoded]. *)
Definition genesisPubKey : Keys.PublicKey :=
  Keys.mkPublicKey 87355919286277337560786450858351880352088898019818216323951531307005258575004
    27022174871757411347853725030973302468571003648116204524954603760029481959168.
Definition genesisSignature : Keys.Signature :=
  Keys.mkSignature 33790656417522645917738610192616368237698624454299254844761948474464317522227
    17704130624199888323609981466903719809434212399291044099934083095796226267769.

Definition genesisHeader : BlockHeader :=
  mkBlockHeader
    (mustDecodeHash 0x5433524b370b149007ba1d06225b5d8e53137a041869834cff5860b02bebc5c7) 1 0 0x5d6b653e
    (mustDecodeHash 0)
    (mustDecodeHash 0x0a084691f90ffd9ac09db47648327b6df15334ad95388badbc9edb963f6f82cb)
    (mustDecodeHash 0x0a084691f90ffd9ac09db47648327b6df15334ad95388badbc9edb963f6f82cb)
    (mustDecodeHash 0x9663440551fdcd6ada50b1fa1b0003d19bc7944955820b54ab569eb9a7ab7999)
    0xb5e620f48000
    (mustDecodeHash 0x5eb91b2d9fd6d5920ccc9610f0695509b60ccf764fab693ecab112f2edf1e3f0)
    (PkS256 genesisPubKey) (PDefault genesis_proof) (SigS256 genesisSignature) [] (replicate 32 0).

Definition genesisBlock : MsgBlock := mkMsgBlock genesisHeader (mkProposalArea [] []) [genesisCoinbaseTx].

Definition genesisHash : Hash := mustDecodeHash 0xee26300e0f068114a680a772e080507c0f9c0ca4335c382c42b78e2eafbebaa3.
Definition genesisChainID : Hash := mustDecodeHash 0x5433524b370b149007ba1d06225b5d8e53137a041869834cff5860b02bebc5c8.

(** * Claims *)

Lemma genesis_decoded :
  Keys.ParsePubKey genesis_key Curve.secp256k1 = Ret genesisPubKey /\
  Keys.ParseSignature (be_encode 70 0x304402204ab4d572324785f59119a5dce949a47edb5b05cbf065e255510c23bcc9f0c133022027242ece09dee99ef19fa22d72a85a3db0662da1605300ae7610f03eab1d1a79)
    Curve.secp256k1 = Ret genesisSignature.
Proof. split; vm_compute; reflexivity. Qed.

#[local] Existing Instances Sha.concrete sample_chia.

(** The genesis block of the source is consistent: under SHA-256 its header hashes to the
    constant genesisHash, its transaction, witness and proposal roots are the merkle roots of
    its content, its default proof verifies against its key and challenge, and the chain id
    computed from its header is the one in its header; that id differs from the constant
    genesisChainID, which the network parameters use. *)
Theorem genesis_consistent :
  BlockHash genesisHeader = Ret genesisHash /\
  BuildMerkleTreeStoreTransactions (Transactions genesisBlock) false = Ret [Some (bh_TransactionRoot genesisHeader)] /\
  BuildMerkleTreeStoreTransactions (Transactions genesisBlock) true = Ret [Some (bh_WitnessRoot genesisHeader)] /\
  BuildMerkleTreeStoreForProposal (Proposals genesisBlock) = Ret [Some (bh_ProposalRoot genesisHeader)] /\
  Proof_Verify (bh_Proof genesisHeader) (PubKeyHash (Some genesisPubKey)) (bh_Challenge genesisHeader) false = Ret tt /\
  GetChainID genesisHeader = Ret (bh_ChainID genesisHeader) /\
  bh_ChainID genesisHeader <> genesisChainID.
Proof. repeat (split; [vm_compute; reflexivity|]). vm_compute. discriminate. Qed.

(** * Instances of the theorems on blocks *)

Lemma hash_ok_be z : hash_ok (be_encode 32 z).
Proof. split; [apply length_be_encode|apply be_encode_ok]. Qed.

Lemma genesis_header_ok : header_ok genesisHeader.
Proof.
  constructor; try apply hash_ok_be; try (cbn; lia); try done.
  split; [done|]. apply (Forall_replicate is_byte 32 0). unfold is_byte. lia.
Qed.

Lemma header_proto_roundtrip_witness : BlockHeader_FromProto (Some (BlockHeader_ToProto genesisHeader)) = Ret genesisHeader.
Proof. apply (header_proto_roundtrip genesisHeader None); [exact genesis_header_ok|cbn; lia]. Defined.

#[local] Instance sample_ecdsa : Ecdsa := { ecdsa_Verify _ _ _ := true }.

Lemma block_hash_ambiguous_witness :
  let h1 := set_proof genesisHeader (PDefault (mkDefaultProof ([0xac; 0xc5; 0x99] ++ [0x96]) [0x94; 0x4f; 0x01; 0x16] 32)) in
  let h2 := set_proof genesisHeader (PDefault (mkDefaultProof [0xac; 0xc5; 0x99] ([0x96] ++ [0x94; 0x4f; 0x01; 0x16]) 32)) in
  h1 = genesisHeader /\ BlockHash h1 = BlockHash h2.
Proof.
  split; [reflexivity|].
  exact (proj1 (proj2 (block_hash_ambiguous genesisHeader [0xac; 0xc5; 0x99] [0x96] [0x94; 0x4f; 0x01; 0x16] 32 ltac:(discriminate)))).
Defined.

#[local] Instance pbHash_eq_dec : EqDecision pbHash.
Proof. solve_decision. Defined.
#[local] Instance pbProof_eq_dec : EqDecision pbProof.
Proof. solve_decision. Defined.
#[local] Instance pbBlockHeader_eq_dec : EqDecision pbBlockHeader.
Proof. solve_decision. Defined.
#[local] Instance pbPunishment_eq_dec : EqDecision pbPunishment.
Proof. solve_decision. Defined.
#[local] Instance NormalProposal_eq_dec : EqDecision NormalProposal.
Proof. solve_decision. Defined.
#[local] Instance pbProposalArea_eq_dec : EqDecision pbProposalArea.
Proof. solve_decision. Defined.
#[local] Instance pbBlockBase_eq_dec : EqDecision pbBlockBase.
Proof. solve_decision. Defined.
#[local] Instance pbOutPoint_eq_dec : EqDecision pbOutPoint.
Proof. solve_decision. Defined.
#[local] Instance pbTxIn_eq_dec : EqDecision pbTxIn.
Proof. solve_decision. Defined.
#[local] Instance pbTxOut_eq_dec : EqDecision pbTxOut.
Proof. solve_decision. Defined.
#[local] Instance pbTx_eq_dec : EqDecision pbTx.
Proof. solve_decision. Defined.

(** A marshaller of the two messages of the stored genesis block. *)
Definition genesis_base : pbBlockBase :=
  mkPbBlockBase (Some (BlockHeader_ToProto genesisHeader)) (Some (mkPbProposalArea [] [])).

#[local] Instance sample_protobuf : Protobuf := {
  marshal_base pb := if decide (pb = genesis_base) then Some [1; 2] else None;
  unmarshal_base _ := Some genesis_base;
  marshal_tx pb := if decide (pb = ToProto genesisCoinbaseTx) then Some [3] else None;
  unmarshal_tx _ := Some (ToProto genesisCoinbaseTx);
  marshal_block _ := None;
  unmarshal_block _ := None;
}.

#[local] Instance sample_protobuf_laws : ProtobufLaws sample_protobuf.
Proof.
  constructor; cbn.
  - intros pb b. case_decide; [|done]. intros [= <-]. subst. split; [|done]. repeat constructor; unfold is_byte; lia.
  - intros pb b. case_decide; [|done]. intros [= <-]. subst. split; [|done]. repeat constructor; unfold is_byte; lia.
  - intros pb b. case_decide; [|done]. by intros [= <-].
  - done.
Qed.

Lemma genesis_tx_ok : msgtx_ok genesisCoinbaseTx.
Proof.
  split; [cbn; lia|]. split; [|split; [|split]].
  - apply Forall_singleton. split; [split; [done|solve_bytes]|]. split; [cbn; unfold MaxPrevOutIndex; lia|]. split; [by apply Forall_nil|cbn; unfold MaxTxInSequenceNum; lia].
  - apply Forall_singleton. split; [cbn; lia|solve_bytes].
  - cbn. lia.
  - solve_bytes.
Qed.

Lemma block_store_roundtrip_witness :
  exists data, MsgBlock_Encode genesisBlock DB = Ret data /\ MsgBlock_Decode data DB = Ret genesisBlock.
Proof.
  eexists. split; [vm_compute; reflexivity|].
  apply (block_store_roundtrip genesisBlock); [|vm_compute; reflexivity|vm_compute; reflexivity].
  split; [exact genesis_header_ok|]. split; [cbn; lia|]. split; [by split|]. split; [|vm_compute; discriminate].
  constructor; [|by constructor]. split; [exact genesis_tx_ok|done].
Defined.
