(* ===== verification/OrphanPool.v ===== *)
(** Orphan pools: blockchain/orphanpool/orphan_pool.go, blockchain/orphanblockpool.go and
    blockchain/orphantxpool.go.

    A pool keeps entries that wait for a parent, indexed by their own id, by the ids of their
    parents, and the other way round.  Ids are the hexadecimal strings of hashes; the string of
    a hash determines it, so the hash stands for it.  An entry is a pointer: [address] is what
    Go compares with [==] and uses as a map key. *)

From S2P Require Import Prelude Hashes Wire.

(** * The abstract pool *)

Class PoolEntry (E : Type) := { OrphanPoolID : E -> Hash; address : E -> positive }.

Record AbstractOrphanPool (E : Type) := mkPool {
  entryIndex : gmap Hash E;
  priorToSubIndex : gmap Hash (list E);
  subToPriorIndex : gmap positive (list Hash);
}.
Arguments mkPool {E}.
Arguments entryIndex {E}.
Arguments priorToSubIndex {E}.
Arguments subToPriorIndex {E}.

(** The operations return no error. *)
Inductive no_error : Type := .

Definition NewAbstractOrphanPool {E} : AbstractOrphanPool E := mkPool ∅ ∅ ∅.

Section operations.
Context {E : Type} `{PoolEntry E}.
Implicit Types (aop : AbstractOrphanPool E) (entry e : E) (entries : list E) (id pid : Hash).

Definition same_entry e entry : bool := bool_decide (address e = address entry).

(** The value of [index] when the loop ends: the first match, the last index without one. *)
Fixpoint find_index (i : nat) entries entry : nat :=
  match entries with
  | [] => i
  | e :: rest =>
      if same_entry e entry then i else match rest with [] => i | _ => find_index (S i) rest entry end
  end.

(** [make] panics on the length -1. *)
Definition deleteFromSlice entries entry : outcome no_error (list E) :=
  match entries with
  | [] => Panic
  | _ => let i := find_index 0 entries entry in Ret (take i entries ++ drop (S i) entries)
  end.

Definition subs_of (subs : gmap Hash (list E)) pid : list E := default [] (subs !! pid).

Fixpoint delete_priors (priors : list Hash) entry (subs : gmap Hash (list E)) : outcome no_error (gmap Hash (list E)) :=
  match priors with
  | [] => Ret subs
  | pid :: rest =>
      l ← deleteFromSlice (subs_of subs pid) entry;
      delete_priors rest entry (<[pid := l]> subs)
  end.

Definition fetch id : prog (AbstractOrphanPool E) no_error (option E) := fun aop =>
  match entryIndex aop !! id with
  | None => (Ret None, aop)
  | Some entry =>
      match subToPriorIndex aop !! address entry with
      | None => (Ret (Some entry), mkPool (delete id (entryIndex aop)) (priorToSubIndex aop) (subToPriorIndex aop))
      | Some priors =>
          match delete_priors priors entry (priorToSubIndex aop) with
          | Ret subs => (Ret (Some entry), mkPool (delete id (entryIndex aop)) subs (delete (address entry) (subToPriorIndex aop)))
          | Err err => (Err err, aop)
          | Panic => (Panic, aop)
          end
      end
  end.

Definition Read id aop : option E := entryIndex aop !! id.
Definition ReadSubs pid aop : list E := subs_of (priorToSubIndex aop) pid.
Definition Has id aop : bool := bool_decide (is_Some (entryIndex aop !! id)).
Definition pool_Count aop : Z := Z.of_nat (size (entryIndex aop)).
Definition Fetch id : prog (AbstractOrphanPool E) no_error (option E) := fetch id.

Fixpoint fetch_all (entries : list E) : prog (AbstractOrphanPool E) no_error unit :=
  match entries with
  | [] => mret tt
  | entry :: rest => fetch (OrphanPoolID entry);; fetch_all rest
  end.

Definition FetchSubs pid : prog (AbstractOrphanPool E) no_error (option (list E)) :=
  o ← gets (fun aop => priorToSubIndex aop !! pid);
  match o with
  | None => mret None
  | Some entries =>
      fetch_all entries;;
      modify (fun aop => mkPool (entryIndex aop) (delete pid (priorToSubIndex aop)) (subToPriorIndex aop));;
      mret (Some entries)
  end.

Definition put_prior entry (subs : gmap Hash (list E)) pid : gmap Hash (list E) :=
  match subs !! pid with
  | Some l => <[pid := l ++ [entry]]> subs
  | None => <[pid := [entry]]> subs
  end.

Definition Put entry (priors : list Hash) : prog (AbstractOrphanPool E) no_error unit :=
  modify (fun aop =>
    mkPool (<[OrphanPoolID entry := entry]> (entryIndex aop))
           (foldl (put_prior entry) (priorToSubIndex aop) priors)
           (<[address entry := priors]> (subToPriorIndex aop))).

(** [Items] and [IDs] list a Go map: their order is any permutation of these lists. *)
Definition Items aop : list E := (map_to_list (entryIndex aop)).*2.
Definition IDs aop : list Hash := (map_to_list (entryIndex aop)).*1.
End operations.

(** * Orphan blocks *)

Definition maxOrphanBlocks : Z := 100.

(** [ob_ptr] is the address of the orphan, [expiration] in nanoseconds. *)
Record orphanBlock (B : Type) := mkOrphanBlock { ob_ptr : positive; ob_block : B; expiration : Z }.
Arguments mkOrphanBlock {B}.
Arguments ob_ptr {B}.
Arguments ob_block {B}.
Arguments expiration {B}.

(** What the pool uses of a block. *)
Class OrphanData (B : Type) := { block_Hash : B -> Hash; block_Previous : B -> Hash }.

#[global] Instance orphanBlock_entry {B} `{OrphanData B} : PoolEntry (orphanBlock B) :=
  {| OrphanPoolID blk := block_Hash (ob_block blk); address := ob_ptr |}.

(** [next_ptr] is the address the next orphan is allocated at. *)
Record OrphanBlockPool (B : Type) := mkOrphanBlockPool {
  block_pool : AbstractOrphanPool (orphanBlock B);
  oldestOrphan : option (orphanBlock B);
  next_ptr : positive;
}.
Arguments mkOrphanBlockPool {B}.
Arguments block_pool {B}.
Arguments oldestOrphan {B}.
Arguments next_ptr {B}.

Definition newOrphanBlockPool {B} : OrphanBlockPool B := mkOrphanBlockPool NewAbstractOrphanPool None 1%positive.

Definition hour : Z := 3600 * 10 ^ 9.

Section blocks.
Context {B : Type} `{OrphanData B}.
Implicit Types (orphan : orphanBlock B) (ors : OrphanBlockPool B) (block : B) (hash : Hash).

Definition removeOrphanBlock orphan : prog (OrphanBlockPool B) no_error unit := fun ors =>
  let (o, aop) := Fetch (block_Hash (ob_block orphan)) (block_pool ors) in
  (match o with Ret _ => Ret tt | Err e => Err e | Panic => Panic end,
   mkOrphanBlockPool aop (oldestOrphan ors) (next_ptr ors)).

(** The loop over [Items]: expired orphans leave, the oldest of the others is noted. *)
Fixpoint expire_orphans (now : Z) (items : list (orphanBlock B)) : prog (OrphanBlockPool B) no_error unit :=
  match items with
  | [] => mret tt
  | oBlock :: rest =>
      (if now >? expiration oBlock then removeOrphanBlock oBlock
       else modify (fun ors =>
              if match oldestOrphan ors with None => true | Some old => expiration oBlock <? expiration old end
              then mkOrphanBlockPool (block_pool ors) (Some oBlock) (next_ptr ors) else ors));;
      expire_orphans now rest
  end.

Definition limit_orphans : prog (OrphanBlockPool B) no_error unit :=
  count ← gets (fun ors => pool_Count (block_pool ors));
  if count + 1 >? maxOrphanBlocks then
    oldest ← gets oldestOrphan;
    match oldest with
    | None => panic
    | Some orphan =>
        removeOrphanBlock orphan;;
        modify (fun ors => mkOrphanBlockPool (block_pool ors) None (next_ptr ors))
    end
  else mret tt.

(** [items] is the order in which the map of items is ranged over, [now] the clock.  The code
    reads the clock for every item and once more at the end; here one reading serves the call. *)
Definition addOrphanBlock (now : Z) (items : list (orphanBlock B)) block : prog (OrphanBlockPool B) no_error unit :=
  expire_orphans now items;;
  limit_orphans;;
  modify (fun ors =>
    let oBlock := mkOrphanBlock (next_ptr ors) block (now + hour) in
    mkOrphanBlockPool (Put oBlock [block_Previous block] (block_pool ors)).2 (oldestOrphan ors) (Pos.succ (next_ptr ors))).

Definition isOrphanInPool hash ors : bool := Has hash (block_pool ors).
Definition getOrphansByPrevious hash ors : list (orphanBlock B) := ReadSubs hash (block_pool ors).
End blocks.

(** * Orphan transactions *)

Definition defaultMaxOrphanTransactions : Z := 1000.
Definition maxOrphanTxSize : Z := 5000.

(** What the pool uses of a transaction: its hash, the hashes of the transactions it spends
    from, one per input, and its size. *)
Class OrphanTxData (T : Type) := { tx_Hash : T -> Hash; tx_parents : T -> list Hash; tx_PlainSize : T -> Z }.

Record orphanTx (T : Type) := mkOrphanTx { ot_ptr : positive; ot_tx : T }.
Arguments mkOrphanTx {T}.
Arguments ot_ptr {T}.
Arguments ot_tx {T}.

#[global] Instance orphanTx_entry {T} `{OrphanTxData T} : PoolEntry (orphanTx T) :=
  {| OrphanPoolID tx := tx_Hash (ot_tx tx); address := ot_ptr |}.

Record OrphanTxPool (T : Type) := mkOrphanTxPool {
  maxOrphanTransactions : Z;
  tx_pool : AbstractOrphanPool (orphanTx T);
}.
Arguments mkOrphanTxPool {T}.
Arguments maxOrphanTransactions {T}.
Arguments tx_pool {T}.

Definition newOrphanTxPool {T} : OrphanTxPool T := mkOrphanTxPool defaultMaxOrphanTransactions NewAbstractOrphanPool.

Inductive orphan_error : Type := ErrRandom | ErrOrphanTxTooBig.

Section txs.
Context {T : Type} `{OrphanTxData T}.
Implicit Types (otp : OrphanTxPool T) (tx : orphanTx T) (hash : Hash).

(** A pool method inside the transaction pool; the pool returns no error. *)
Definition on_pool {A} (c : prog (AbstractOrphanPool (orphanTx T)) no_error A) : prog (OrphanTxPool T) orphan_error A := fun otp =>
  let (o, aop) := c (tx_pool otp) in
  (match o with Ret a => Ret a | Err e => match e with end | Panic => Panic end,
   mkOrphanTxPool (maxOrphanTransactions otp) aop).

Definition removeOrphan hash : prog (OrphanTxPool T) orphan_error unit := on_pool (Fetch hash);; mret tt.

(** [ids] is the order of [IDs]; [rand] the four random bytes, [None] when they cannot be read. *)
Definition limitNumOrphans (ids : list Hash) (rand : option bytes) : prog (OrphanTxPool T) orphan_error unit :=
  otp ← gets id;
  if pool_Count (tx_pool otp) + 1 >? maxOrphanTransactions otp then
    match rand with
    | None => throw ErrRandom
    | Some randNum =>
        i ← (if len ids =? 0 then panic else mret (le_decode randNum mod len ids));
        removeHash ← lift (index ids i);
        removeOrphan removeHash
    end
  else mret tt.

Definition addOrphan (ids : list Hash) (rand : option bytes) tx : prog (OrphanTxPool T) orphan_error unit :=
  ignore_err (limitNumOrphans ids rand);;
  on_pool (Put tx (tx_parents (ot_tx tx))).

Definition maybeAddOrphan (ids : list Hash) (rand : option bytes) tx : prog (OrphanTxPool T) orphan_error unit :=
  fail_if (tx_PlainSize (ot_tx tx) >? maxOrphanTxSize) ErrOrphanTxTooBig;;
  addOrphan ids rand tx.

Definition isOrphanTxInPool hash otp : bool := Has hash (tx_pool otp).
Definition getOrphanTxsByPrevious hash otp : list T := map ot_tx (ReadSubs hash (tx_pool otp)).
Definition orphans otp : list T := map ot_tx (Items (tx_pool otp)).
End txs.
