(* ===== verification/OrphanPoolSpec.v ===== *)
(** The orphan pools keep their three indices consistent, never panic and stay bounded. *)

From S2P Require Import Prelude Hashes Wire OrphanPool.

(** * Consistency of the indices *)

Section spec.
Context {E : Type} `{PoolEntry E}.
Implicit Types (aop : AbstractOrphanPool E) (entry e : E) (entries : list E) (id pid : Hash) (priors : list Hash).

(** How often an address occurs in a slice, and an id among priors. *)
Definition occ (a : positive) entries : nat := length (filter (fun e => address e = a) entries).
Definition times pid (priors : list Hash) : nat := length (filter (fun p => p = pid) priors).
Definition priors_of aop (a : positive) : list Hash := default [] (subToPriorIndex aop !! a).

(** The indices agree: an id leads to the entry with that id, the entries with recorded
    priors are the live ones, an entry is listed under a prior as often as the prior is
    recorded for it, and only live entries are listed. *)
Record pool_ok aop : Prop := {
  ok_id id e : entryIndex aop !! id = Some e -> OrphanPoolID e = id;
  ok_address id id' e e' :
    entryIndex aop !! id = Some e -> entryIndex aop !! id' = Some e' -> address e = address e' -> id = id';
  ok_priors id e : entryIndex aop !! id = Some e -> is_Some (subToPriorIndex aop !! address e);
  ok_live a : is_Some (subToPriorIndex aop !! a) -> exists id e, entryIndex aop !! id = Some e /\ address e = a;
  ok_listed pid a : occ a (ReadSubs pid aop) = times pid (priors_of aop a);
  ok_subs pid e : e ∈ ReadSubs pid aop -> entryIndex aop !! OrphanPoolID e = Some e;
}.

Lemma pool_ok_new : pool_ok NewAbstractOrphanPool.
Proof. split; unfold ReadSubs, subs_of, priors_of; cbn; intros; rewrite ?lookup_empty in *; by set_solver. Qed.

Lemma find_index_spec entries entry i :
  (0 < occ (address entry) entries)%nat ->
  exists l1 e l2, entries = l1 ++ e :: l2 /\ address e = address entry /\ find_index i entries entry = (i + length l1)%nat.
Proof.
  revert i. induction entries as [|e rest IH]; intros i Hocc; [cbn in Hocc; lia|].
  unfold occ in Hocc. rewrite filter_cons in Hocc. cbn [find_index]. unfold same_entry.
  destruct (decide (address e = address entry)) as [Heq|Hne].
  - exists [], e, rest. rewrite bool_decide_true by done. cbn. split_and!; [done|done|lia].
  - rewrite bool_decide_false by done.
    destruct (IH (S i) Hocc) as (l1 & e' & l2 & -> & Ha & Hi).
    exists (e :: l1), e', l2. split_and!; [done|done|].
    destruct (l1 ++ e' :: l2) eqn:Hl; [by destruct l1|]. rewrite Hi. cbn. lia.
Qed.

Lemma occ_app a l1 l2 : occ a (l1 ++ l2) = (occ a l1 + occ a l2)%nat.
Proof. unfold occ. by rewrite filter_app, length_app. Qed.

Lemma occ_cons a e l : occ a (e :: l) = ((if decide (address e = a) then 1 else 0) + occ a l)%nat.
Proof. unfold occ. rewrite filter_cons. by case_decide. Qed.

Lemma times_cons pid p l : times pid (p :: l) = ((if decide (p = pid) then 1 else 0) + times pid l)%nat.
Proof. unfold times. rewrite filter_cons. by case_decide. Qed.

Lemma deleteFromSlice_spec entries entry :
  (0 < occ (address entry) entries)%nat ->
  exists l, deleteFromSlice entries entry = Ret l /\
    (forall a, occ a entries = ((if decide (a = address entry) then 1 else 0) + occ a l)%nat) /\
    (forall e, e ∈ l -> e ∈ entries).
Proof.
  intros Hocc. destruct (find_index_spec entries entry 0 Hocc) as (l1 & e & l2 & -> & Ha & Hi).
  exists (l1 ++ l2). split_and!.
  - unfold deleteFromSlice. rewrite Hi. cbn [Nat.add].
    rewrite take_app_length, (drop_app_ge l1 (e :: l2)) by lia.
    replace (S (length l1) - length l1)%nat with 1%nat by lia. cbn [drop].
    by destruct (l1 ++ e :: l2) eqn:Hl; [destruct l1|].
  - intros a. rewrite !occ_app, occ_cons, Ha. repeat case_decide; congruence || lia.
  - intros e' He'. set_solver.
Qed.

Lemma subs_of_insert (subs : gmap Hash (list E)) pid pid' l :
  subs_of (<[pid := l]> subs) pid' = if decide (pid = pid') then l else subs_of subs pid'.
Proof.
  unfold subs_of. case_decide as Hd; [subst; by rewrite lookup_insert_eq|by rewrite lookup_insert_ne by done].
Qed.

Lemma delete_priors_spec priors entry (subs : gmap Hash (list E)) :
  (forall pid, (times pid priors <= occ (address entry) (subs_of subs pid))%nat) ->
  exists subs', delete_priors priors entry subs = Ret subs' /\
    forall pid,
      (forall a, occ a (subs_of subs pid) =
         ((if decide (a = address entry) then times pid priors else 0) + occ a (subs_of subs' pid))%nat) /\
      (forall e, e ∈ subs_of subs' pid -> e ∈ subs_of subs pid).
Proof.
  revert subs. induction priors as [|p rest IH]; intros subs Hle.
  { exists subs. split; [done|]. intros pid. split; [|done]. intros a. by case_decide. }
  destruct (deleteFromSlice_spec (subs_of subs p) entry) as (l & Hl & Hocc & Hin).
  { specialize (Hle p). rewrite times_cons, decide_True in Hle by done. lia. }
  destruct (IH (<[p := l]> subs)) as (subs' & Hs & Hspec).
  { intros pid. specialize (Hle pid). rewrite times_cons in Hle. rewrite subs_of_insert.
    case_decide; subst; [|lia]. specialize (Hocc (address entry)). rewrite decide_True in Hocc by done. lia. }
  exists subs'. split; [cbn [delete_priors]; rewrite Hl; exact Hs|].
  intros pid. destruct (Hspec pid) as [Ha Hin']. rewrite subs_of_insert in Hin'.
  split.
  - intros a. specialize (Ha a). rewrite subs_of_insert, times_cons in *. specialize (Hocc a).
    repeat case_decide; subst; lia.
  - intros e He. specialize (Hin' e He). case_decide; subst; auto.
Qed.

(** Removing an entry keeps the pool consistent and cannot panic. *)
Lemma fetch_spec id aop :
  pool_ok aop ->
  exists aop', fetch id aop = (Ret (entryIndex aop !! id), aop') /\ pool_ok aop' /\
    entryIndex aop' = delete id (entryIndex aop) /\
    (forall a, subToPriorIndex aop' !! a =
       if decide (Some a = address <$> (entryIndex aop !! id)) then None else subToPriorIndex aop !! a).
Proof.
  intros Hok. unfold fetch. destruct (entryIndex aop !! id) as [entry|] eqn:He.
  2:{ exists aop. split_and!; [done|done| |].
      - symmetry. by apply delete_id.
      - intros a. by case_decide. }
  pose proof (ok_id _ Hok _ _ He) as Hid.
  destruct (ok_priors _ Hok _ _ He) as [priors Hp]. rewrite Hp.
  assert (priors_of aop (address entry) = priors) as Hpo by (unfold priors_of; by rewrite Hp).
  destruct (delete_priors_spec priors entry (priorToSubIndex aop)) as (subs & Hs & Hspec).
  { intros pid. rewrite <- Hpo, <- ok_listed by done. unfold ReadSubs. lia. }
  rewrite Hs. eexists. split; [done|]. cbn [entryIndex subToPriorIndex]. split_and!; [|done|].
  2:{ intros a. rewrite lookup_delete. cbn [fmap option_fmap option_map]. repeat case_decide; congruence. }
  split; unfold ReadSubs, priors_of; cbn [entryIndex subToPriorIndex priorToSubIndex].
  - intros id' e [_ ?]%lookup_delete_Some. eauto using ok_id.
  - intros id1 id2 e1 e2 [_ ?]%lookup_delete_Some [_ ?]%lookup_delete_Some. eauto using ok_address.
  - intros id' e [Hne He']%lookup_delete_Some.
    rewrite lookup_delete_ne; [by eauto using ok_priors|]. intros Ha. eapply Hne, (ok_address _ Hok); eauto.
  - intros a [ps [Hne Hps]%lookup_delete_Some].
    destruct (ok_live _ Hok a) as (id' & e & Hl & Ha); [by eexists|].
    exists id', e. split; [|done]. apply lookup_delete_Some. split; [|done]. intros <-. naive_solver.
  - intros pid a. destruct (Hspec pid) as [Ha _]. specialize (Ha a).
    pose proof (ok_listed _ Hok pid a) as Hl. unfold ReadSubs in Hl. rewrite Hl in Ha.
    rewrite lookup_delete. case_decide as Hd.
    + subst a. rewrite decide_True by done. rewrite Hpo in Ha. cbn. lia.
    + rewrite decide_False by done. unfold priors_of in Ha. lia.
  - intros pid e Hin. destruct (Hspec pid) as [Ha Hsub].
    pose proof (ok_subs _ Hok pid e (Hsub e Hin)) as Hlive.
    apply lookup_delete_Some. split; [|done]. intros Heq.
    assert (e = entry) as -> by congruence.
    specialize (Ha (address entry)). rewrite decide_True in Ha by done.
    pose proof (ok_listed _ Hok pid (address entry)) as Hl. unfold ReadSubs in Hl. rewrite Hpo in Hl.
    assert (0 < occ (address entry) (subs_of subs pid))%nat; [|lia].
    apply list_elem_of_split in Hin as (l1 & l2 & Heql). rewrite Heql, occ_app, occ_cons, decide_True by done. lia.
Qed.

Lemma foldl_put_prior entry priors (subs : gmap Hash (list E)) pid :
  subs_of (foldl (put_prior entry) subs priors) pid = subs_of subs pid ++ replicate (times pid priors) entry.
Proof.
  revert subs. induction priors as [|p rest IH]; intros subs; cbn [foldl].
  { by rewrite app_nil_r. }
  rewrite IH, times_cons.
  assert (subs_of (put_prior entry subs p) pid = subs_of subs pid ++ if decide (p = pid) then [entry] else []) as ->.
  { unfold put_prior. destruct (subs !! p) eqn:Hp; rewrite subs_of_insert; case_decide; subst; rewrite ?app_nil_r; try done;
      unfold subs_of; by rewrite Hp. }
  rewrite <- app_assoc. f_equal. by case_decide.
Qed.

Lemma occ_replicate a n e : occ a (replicate n e) = if decide (address e = a) then n else 0%nat.
Proof. induction n as [|n IH]; cbn [replicate]; [by case_decide|]. rewrite occ_cons, IH. case_decide; lia. Qed.

(** Adding an entry that is not yet in the pool keeps it consistent. *)
Lemma Put_ok entry priors aop :
  pool_ok aop -> entryIndex aop !! OrphanPoolID entry = None -> subToPriorIndex aop !! address entry = None ->
  pool_ok (Put entry priors aop).2.
Proof.
  intros Hok Hnew Hfresh. cbn.
  assert (forall id e, entryIndex aop !! id = Some e -> address e <> address entry) as Hne.
  { intros id e He Ha. destruct (ok_priors _ Hok _ _ He) as [? Hp]. congruence. }
  split; unfold ReadSubs, priors_of; cbn [entryIndex subToPriorIndex priorToSubIndex].
  - intros id e [[<- <-]|[_ ?]]%lookup_insert_Some; [done|]. eauto using ok_id.
  - intros id id' e e' [[<- <-]|[_ He]]%lookup_insert_Some [[<- <-]|[_ He']]%lookup_insert_Some Ha; [done| | |].
    + by destruct (Hne _ _ He').
    + by destruct (Hne _ _ He).
    + eauto using ok_address.
  - intros id e [[<- <-]|[_ He]]%lookup_insert_Some; [by rewrite lookup_insert_eq|].
    rewrite lookup_insert_ne by (intros ?; by eapply Hne). eauto using ok_priors.
  - intros a [ps [[<- _]|[_ Hp]]%lookup_insert_Some].
    + exists (OrphanPoolID entry), entry. by rewrite lookup_insert_eq.
    + destruct (ok_live _ Hok a) as (id & e & He & Ha); [by eexists|].
      exists id, e. split; [|done]. rewrite lookup_insert_ne by congruence. done.
  - intros pid a. rewrite foldl_put_prior, occ_app, occ_replicate.
    pose proof (ok_listed _ Hok pid a) as Hl. unfold ReadSubs in Hl. rewrite Hl. unfold priors_of.
    rewrite lookup_insert. case_decide; subst; [by rewrite Hfresh|cbn; lia].
  - intros pid e. rewrite foldl_put_prior, elem_of_app. intros [Hin|Hin].
    + pose proof (ok_subs _ Hok pid e Hin). rewrite lookup_insert_ne by congruence. done.
    + apply elem_of_replicate in Hin as [-> _]. by rewrite lookup_insert_eq.
Qed.
End spec.

(** * The pool of orphan blocks *)

Section blocks.
Context {B : Type} `{OrphanData B}.
Implicit Types (orphan e : orphanBlock B) (ors : OrphanBlockPool B) (block : B) (items : list (orphanBlock B)).

Abbreviation live ors id := (entryIndex (block_pool ors) !! id).

(** Everything the code relies on: the indices agree, an orphan
    has its parent as prior, new addresses are new, and the pool is
    one over its limit at most, in which case no oldest orphan is remembered. *)
Record blocks_ok ors : Prop := {
  bok_pool : pool_ok (block_pool ors);
  bok_prior id e ps : live ors id = Some e -> subToPriorIndex (block_pool ors) !! ob_ptr e = Some ps ->
    ps = [block_Previous (ob_block e)];
  bok_next a : is_Some (subToPriorIndex (block_pool ors) !! a) -> (a < next_ptr ors)%positive;
  bok_bound : pool_Count (block_pool ors) <= maxOrphanBlocks + 1;
  bok_oldest : pool_Count (block_pool ors) = maxOrphanBlocks + 1 -> oldestOrphan ors = None;
}.

Lemma sub_some {A} (m m' : gmap positive A) a : m ⊆ m' -> is_Some (m !! a) -> is_Some (m' !! a).
Proof. intros Hsub [v Hv]. exists v. by eapply lookup_weaken. Qed.

Lemma remove_spec orphan ors :
  pool_ok (block_pool ors) ->
  exists ors', removeOrphanBlock orphan ors = (Ret tt, ors') /\ pool_ok (block_pool ors') /\
    entryIndex (block_pool ors') = delete (OrphanPoolID orphan) (entryIndex (block_pool ors)) /\
    subToPriorIndex (block_pool ors') ⊆ subToPriorIndex (block_pool ors) /\
    oldestOrphan ors' = oldestOrphan ors /\ next_ptr ors' = next_ptr ors.
Proof.
  intros Hok. destruct (fetch_spec (OrphanPoolID orphan) _ Hok) as (aop & Hf & Hok' & Hi & Hs).
  eexists. split; [unfold removeOrphanBlock, Fetch; cbn in Hf |- *; by rewrite Hf|].
  cbn. split_and!; try done. apply map_subseteq_spec. intros a v. rewrite Hs. by case_decide.
Qed.

Lemma count_delete ors ors' id :
  entryIndex (block_pool ors') = delete id (entryIndex (block_pool ors)) ->
  pool_Count (block_pool ors') = pool_Count (block_pool ors) - (if decide (is_Some (live ors id)) then 1 else 0).
Proof.
  unfold pool_Count. intros ->. case_decide as Hd.
  - assert (size (entryIndex (block_pool ors)) <> 0)%nat as Hsz.
    { intros Hz. apply map_size_empty_inv in Hz. rewrite Hz in Hd. destruct Hd as [? Hd]. done. }
    rewrite map_size_delete_Some by done. lia.
  - rewrite map_size_delete_None by by apply eq_None_not_Some. lia.
Qed.

(** An entry that is not among the items stays. *)
Lemma expire_keeps now items ors ors' e :
  expire_orphans now items ors = (Ret tt, ors') ->
  (forall e', e' ∈ items -> OrphanPoolID e' <> OrphanPoolID e) ->
  live ors' (OrphanPoolID e) = live ors (OrphanPoolID e).
Proof.
  revert ors. induction items as [|e' rest IH]; intros ors Hx Hdiff; [cbn in Hx; by injection Hx as ->|].
  cbn [expire_orphans] in Hx. apply prog_bind_Ret in Hx as ([] & ors1 & Hst & Hx).
  rewrite (IH _ Hx ltac:(set_solver)). clear IH Hx. pose proof (Hdiff e' ltac:(set_solver)) as Hne. case_match.
  - unfold removeOrphanBlock, Fetch, fetch in Hst. cbn in Hne. repeat case_match; simplify_eq/=; by rewrite ?lookup_delete_ne.
  - unfold modify in Hst. injection Hst as <-. by case_match.
Qed.

(** The loop over the items leaves a consistent pool without the expired ones; it ends without
    an oldest orphan only when all have expired. *)
Lemma expire_spec now items ors :
  pool_ok (block_pool ors) -> NoDup (map OrphanPoolID items) ->
  (forall e, e ∈ items -> live ors (OrphanPoolID e) = Some e) ->
  exists ors', expire_orphans now items ors = (Ret tt, ors') /\ pool_ok (block_pool ors') /\
    next_ptr ors' = next_ptr ors /\
    subToPriorIndex (block_pool ors') ⊆ subToPriorIndex (block_pool ors) /\
    entryIndex (block_pool ors') ⊆ entryIndex (block_pool ors) /\
    (oldestOrphan ors' = oldestOrphan ors \/
     exists e, oldestOrphan ors' = Some e /\ live ors' (OrphanPoolID e) = Some e) /\
    (oldestOrphan ors' = None -> forall e, e ∈ items -> live ors' (OrphanPoolID e) = None).
Proof.
  revert ors. induction items as [|e rest IH]; intros ors Hok Hnd Hlive.
  { exists ors. cbn. split_and!; try done; [by left|]. intros _ e' He'. by apply elem_of_nil in He'. }
  cbn [map] in Hnd. apply NoDup_cons in Hnd as [Hfresh Hnd]. cbn [expire_orphans].
  assert (forall e', e' ∈ rest -> OrphanPoolID e' <> OrphanPoolID e) as Hdiff.
  { intros e' He' Heq. apply Hfresh. rewrite <- Heq. apply list_elem_of_fmap. eauto. }
  destruct (now >? expiration e) eqn:Hexp.
  - destruct (remove_spec e ors Hok) as (ors1 & Hr & Hok1 & Hi1 & Hs1 & Ho1 & Hn1).
    destruct (IH ors1) as (ors2 & Hx & Hok2 & Hn2 & Hs2 & Hsub2 & Ho2 & Hnone2); [done|done| |].
    { intros e' He'. rewrite Hi1, lookup_delete_ne by (by intros ?; eapply Hdiff). apply Hlive. set_solver. }
    exists ors2. unfold mbind, prog_bind. rewrite Hr, Hx. split_and!; try done; [congruence|by etrans| | |].
    + etrans; [exact Hsub2|]. rewrite Hi1. apply delete_subseteq.
    + destruct Ho2 as [Ho2|?]; [left; congruence|by right].
    + intros Hz e' [->|He']%elem_of_cons; [|by auto].
      apply eq_None_not_Some. intros [x Hx']. pose proof (lookup_weaken _ _ _ _ Hx' Hsub2) as Hy.
      rewrite Hi1, lookup_delete_eq in Hy. done.
  - set (ors1 := if match oldestOrphan ors with Some old => expiration e <? expiration old | None => true end
                 then mkOrphanBlockPool (block_pool ors) (Some e) (next_ptr ors) else ors).
    assert (block_pool ors1 = block_pool ors /\ next_ptr ors1 = next_ptr ors) as [Hp1 Hn1] by (unfold ors1; by case_match).
    assert (oldestOrphan ors1 <> None) as Hsome.
    { unfold ors1. destruct (oldestOrphan ors) eqn:Ho; [case_match; cbn; congruence|done]. }
    assert (oldestOrphan ors1 = oldestOrphan ors \/ oldestOrphan ors1 = Some e) as Hcase by (unfold ors1; case_match; auto).
    destruct (IH ors1) as (ors2 & Hx & Hok2 & Hn2 & Hs2 & Hsub2 & Ho2 & Hnone2); [by rewrite Hp1|done| |].
    { intros e' He'. rewrite Hp1. apply Hlive. set_solver. }
    rewrite Hp1 in Hsub2, Hs2. exists ors2. cbn [mbind prog_bind modify]. unfold mbind, prog_bind, modify. fold ors1. rewrite Hx.
    pose proof (expire_keeps _ _ _ _ _ Hx Hdiff) as Hkeep. rewrite Hp1 in Hkeep.
    split_and!; try done; [congruence| |].
    + destruct Ho2 as [Ho2|?]; [|by right]. destruct Hcase as [Hc|Hc]; [left; congruence|].
      right. exists e. split; [congruence|]. rewrite Hkeep. apply Hlive. set_solver.
    + intros Hz. exfalso. destruct Ho2 as [Ho2|(x & Hx' & _)]; congruence.
Qed.

Lemma Items_live ors items :
  pool_ok (block_pool ors) -> items ≡ₚ Items (block_pool ors) ->
  NoDup (map OrphanPoolID items) /\ forall e, e ∈ items <-> live ors (OrphanPoolID e) = Some e.
Proof.
  intros Hok Hperm. unfold Items in Hperm.
  assert (map OrphanPoolID (map_to_list (entryIndex (block_pool ors))).*2 = (map_to_list (entryIndex (block_pool ors))).*1) as Hids.
  { rewrite map_map. apply map_ext_in. intros [id e] Hin. cbn.
    apply (ok_id _ Hok). apply elem_of_map_to_list. by apply list_elem_of_In. }
  split.
  - rewrite (Permutation_map OrphanPoolID Hperm), Hids. apply NoDup_fst_map_to_list.
  - intros e. rewrite Hperm, list_elem_of_fmap. split.
    + intros ([id e'] & -> & Hin%elem_of_map_to_list). pose proof (ok_id _ Hok _ _ Hin) as Hid. cbn in Hid |- *. by rewrite Hid.
    + intros He. exists (OrphanPoolID e, e). by rewrite elem_of_map_to_list.
Qed.

(** Eviction makes room: afterwards the pool is within its limit. *)
Lemma limit_spec ors :
  pool_ok (block_pool ors) -> pool_Count (block_pool ors) <= maxOrphanBlocks + 1 ->
  (oldestOrphan ors = None -> pool_Count (block_pool ors) = 0) ->
  (pool_Count (block_pool ors) = maxOrphanBlocks + 1 ->
     exists e, oldestOrphan ors = Some e /\ live ors (OrphanPoolID e) = Some e) ->
  exists ors', limit_orphans ors = (Ret tt, ors') /\ pool_ok (block_pool ors') /\ next_ptr ors' = next_ptr ors /\
    subToPriorIndex (block_pool ors') ⊆ subToPriorIndex (block_pool ors) /\
    entryIndex (block_pool ors') ⊆ entryIndex (block_pool ors) /\
    pool_Count (block_pool ors') <= maxOrphanBlocks /\
    (pool_Count (block_pool ors') = maxOrphanBlocks -> oldestOrphan ors' = None).
Proof.
  intros Hok Hle Hnone Hfull. unfold limit_orphans, mbind, prog_bind, gets. unfold maxOrphanBlocks in *.
  destruct (pool_Count (block_pool ors) + 1 >? 100) eqn:Hc; bool_to_prop.
  2:{ exists ors. split_and!; try done; lia. }
  destruct (oldestOrphan ors) as [orphan|] eqn:Ho; [|specialize (Hnone eq_refl); lia].
  destruct (remove_spec orphan ors Hok) as (ors1 & Hr & Hok1 & Hi1 & Hs1 & Ho1 & Hn1).
  rewrite Hr. eexists. split; [done|]. cbn. split_and!; try done.
  - rewrite Hi1. apply delete_subseteq.
  - rewrite (count_delete _ _ _ Hi1). case_decide as Hd; [lia|].
    destruct (decide (pool_Count (block_pool ors) = 101)) as [He|]; [|lia].
    destruct (Hfull He) as (e & [= <-] & Hl). destruct Hd. by eexists.
Qed.

Lemma add_spec now items block ors :
  blocks_ok ors -> items ≡ₚ Items (block_pool ors) -> isOrphanInPool (block_Hash block) ors = false ->
  exists ors', addOrphanBlock now items block ors = (Ret tt, ors') /\ blocks_ok ors' /\
    forall id e, live ors' id = Some e -> live ors id = Some e \/ id = block_Hash block /\ ob_block e = block.
Proof.
  intros [Hok Hprior Hnext Hbound Hold] Hperm Hnew.
  destruct (Items_live ors items Hok Hperm) as [Hnd Hlive].
  destruct (expire_spec now items ors Hok Hnd) as (ors1 & Hx & Hok1 & Hn1 & Hs1 & Hsub1 & Ho1 & Hnone1).
  { intros e. apply Hlive. }
  assert (pool_Count (block_pool ors1) <= pool_Count (block_pool ors)) as Hle1.
  { unfold pool_Count. apply Nat2Z.inj_le, map_subseteq_size, Hsub1. }
  destruct (limit_spec ors1) as (ors2 & Hl & Hok2 & Hn2 & Hs2 & Hsub2 & Hle2 & Hold2); [done|lia| | |].
  - intros Hz. specialize (Hnone1 Hz). enough (entryIndex (block_pool ors1) = ∅) as Hemp.
    { unfold pool_Count. by rewrite Hemp, map_size_empty. }
    apply map_empty. intros id. apply eq_None_not_Some. intros [e He].
    pose proof (ok_id _ Hok1 _ _ He) as Hid. subst id.
    rewrite (Hnone1 e) in He; [done|]. apply Hlive. exact (lookup_weaken _ _ _ _ He Hsub1).
  - intros Hfull. assert (pool_Count (block_pool ors) = maxOrphanBlocks + 1) as Hf by lia.
    destruct Ho1 as [Ho1|?]; [|done]. rewrite (Hold Hf) in Ho1. exfalso.
    assert (exists e, e ∈ items) as [e He].
    { destruct items as [|e items]; [|exists e; set_solver]. apply Permutation_nil in Hperm.
      unfold Items in Hperm. apply fmap_nil_inv, map_to_list_empty_iff in Hperm.
      unfold pool_Count in Hf. rewrite Hperm, map_size_empty in Hf. done. }
    assert (entryIndex (block_pool ors1) = entryIndex (block_pool ors)) as Heq.
    { apply map_subseteq_size_eq; [done|]. unfold pool_Count in *. lia. }
    pose proof (proj1 (Hlive e) He) as Hl. rewrite <- Heq, (Hnone1 Ho1 e He) in Hl. done.
  - unfold addOrphanBlock, mbind, prog_bind. rewrite Hx, Hl. eexists. split; [done|].
    assert (entryIndex (block_pool ors2) !! block_Hash block = None) as Hfresh.
    { apply eq_None_not_Some. intros [e He]. apply bool_decide_eq_false in Hnew. apply Hnew. exists e.
      exact (lookup_weaken _ _ _ _ (lookup_weaken _ _ _ _ He Hsub2) Hsub1). }
    assert (subToPriorIndex (block_pool ors2) !! next_ptr ors2 = None) as Hptr.
    { apply eq_None_not_Some. intros Hs. apply (sub_some _ _ _ Hs2), (sub_some _ _ _ Hs1), Hnext in Hs. rewrite Hn2, Hn1 in Hs. lia. }
    split; [split; cbn [block_pool oldestOrphan next_ptr modify snd Put]|].
    + by apply Put_ok.
    + intros id e ps. cbn. rewrite !lookup_insert_Some. intros [[<- <-]|[Hne He]] [[Ha <-]|[Ha Hp]]; [done|done| |].
      * exfalso. destruct (ok_priors _ Hok2 _ _ He) as [v Hv]. cbn in Hv. congruence.
      * apply (Hprior id).
        -- exact (lookup_weaken _ _ _ _ (lookup_weaken _ _ _ _ He Hsub2) Hsub1).
        -- exact (lookup_weaken _ _ _ _ (lookup_weaken _ _ _ _ Hp Hs2) Hs1).
    + intros a. cbn. rewrite lookup_insert. case_decide; [lia|]. intros Hs%(sub_some _ _ _ Hs2)%(sub_some _ _ _ Hs1)%Hnext. rewrite Hn2, Hn1. lia.
    + unfold pool_Count in *. cbn. rewrite map_size_insert_None by done. lia.
    + unfold pool_Count in *. cbn. rewrite map_size_insert_None by done. intros. apply Hold2. lia.
    + intros id e. cbn. rewrite lookup_insert_Some. intros [[<- <-]|[_ He]]; [by right|]. left.
      exact (lookup_weaken _ _ _ _ (lookup_weaken _ _ _ _ He Hsub2) Hsub1).
Qed.

Lemma remove_ok orphan ors :
  blocks_ok ors -> exists ors', removeOrphanBlock orphan ors = (Ret tt, ors') /\ blocks_ok ors'.
Proof.
  intros [Hok Hprior Hnext Hbound Hold]. destruct (remove_spec orphan ors Hok) as (ors' & Hr & Hok' & Hi & Hs & Ho & Hn).
  exists ors'. split; [done|]. pose proof (count_delete _ _ _ Hi) as Hc.
  split; [done| | | |].
  - intros id e ps He Hp. apply (Hprior id); [|by eapply lookup_weaken]. rewrite Hi in He. by apply lookup_delete_Some in He as [_ He].
  - intros a Ha. rewrite Hn. apply Hnext. by eapply sub_some.
  - case_decide; lia.
  - rewrite Ho. intros Hf. case_decide; [lia|]. apply Hold. lia.
Qed.

Lemma occ_nodup (l : list (orphanBlock B)) : (forall a, occ a l <= 1)%nat -> NoDup (map ob_ptr l).
Proof.
  induction l as [|e l IH]; intros Hocc; cbn; [constructor|]. constructor.
  - intros (e' & Hp & Hin)%list_elem_of_fmap. specialize (Hocc (ob_ptr e)). rewrite occ_cons, decide_True in Hocc by done.
    apply list_elem_of_split in Hin as (l1 & l2 & ->). rewrite occ_app, occ_cons, decide_True in Hocc by done. lia.
  - apply IH. intros a. specialize (Hocc a). rewrite occ_cons in Hocc. lia.
Qed.

(** The orphans of a block are pooled, name it as their parent and have different hashes. *)
Lemma getOrphansByPrevious_spec ors h :
  blocks_ok ors ->
  (forall e, e ∈ getOrphansByPrevious h ors -> live ors (block_Hash (ob_block e)) = Some e /\ block_Previous (ob_block e) = h) /\
  NoDup (map (fun e => block_Hash (ob_block e)) (getOrphansByPrevious h ors)).
Proof.
  intros [Hok Hprior _ _ _]. unfold getOrphansByPrevious.
  assert (forall e, e ∈ ReadSubs h (block_pool ors) -> live ors (block_Hash (ob_block e)) = Some e /\ subToPriorIndex (block_pool ors) !! ob_ptr e = Some [block_Previous (ob_block e)]) as Hin.
  { intros e He. pose proof (ok_subs _ Hok _ _ He) as Hl. split; [done|].
    destruct (ok_priors _ Hok _ _ Hl) as [ps Hps]. cbn in Hps. rewrite Hps. f_equal. by eapply Hprior. }
  assert (forall a, occ a (ReadSubs h (block_pool ors)) <= 1)%nat as Hocc.
  { intros a. destruct (decide (occ a (ReadSubs h (block_pool ors)) = 0)%nat) as [|Hne]; [lia|].
    unfold occ in Hne. destruct (filter _ _) as [|e l] eqn:Hf; [done|].
    assert (e ∈ e :: l) as He by set_solver. rewrite <- Hf in He. apply list_elem_of_filter in He as [Ha He].
    destruct (Hin e He) as [_ Hp]. cbn in Ha. rewrite Ha in Hp. rewrite (ok_listed _ Hok). unfold priors_of. rewrite Hp.
    change (times h [block_Previous (ob_block e)] <= 1)%nat. rewrite times_cons. case_decide; cbn; lia. }
  split.
  - intros e He. destruct (Hin e He) as [Hl Hp]. split; [done|].
    pose proof (ok_listed _ Hok h (ob_ptr e)) as Ho. unfold priors_of in Ho. rewrite Hp in Ho.
    change (occ (ob_ptr e) (ReadSubs h (block_pool ors)) = times h [block_Previous (ob_block e)]) in Ho. rewrite times_cons in Ho. case_decide; [done|]. exfalso.
    apply list_elem_of_split in He as (l1 & l2 & Heq). rewrite Heq, occ_app, occ_cons, decide_True in Ho by done. change (times h []) with 0%nat in Ho. lia.
  - apply NoDup_fmap_2_strong.
    + intros e e' He He' Heq. destruct (Hin e He) as [Hl _]. destruct (Hin e' He') as [Hl' _]. congruence.
    + eapply NoDup_fmap_1. apply occ_nodup, Hocc.
Qed.

(** What the chain does with the pool. *)
Inductive pool_step : OrphanBlockPool B -> OrphanBlockPool B -> Prop :=
| step_add now items block ors ors' :
    items ≡ₚ Items (block_pool ors) -> isOrphanInPool (block_Hash block) ors = false ->
    addOrphanBlock now items block ors = (Ret tt, ors') -> pool_step ors ors'
| step_remove orphan ors ors' : removeOrphanBlock orphan ors = (Ret tt, ors') -> pool_step ors ors'.

Lemma pool_steps_ok ors : rtc pool_step newOrphanBlockPool ors -> blocks_ok ors.
Proof.
  assert (blocks_ok newOrphanBlockPool) as Hnew.
  { split; [apply pool_ok_new|done|intros a; cbn; rewrite lookup_empty; by intros []|done|done]. }
  revert Hnew. generalize (newOrphanBlockPool (B := B)). intros ors0 Hok Hsteps. revert Hok.
  induction Hsteps as [ors0|ors0 ors1 ors2 Hstep _ IH]; [done|]. intros Hok. apply IH.
  destruct Hstep as [now items block ors ors' Hperm Hnew Hadd|orphan ors ors' Hr].
  - destruct (add_spec now items block ors Hok Hperm Hnew) as (x & Hx & Hokx & _). congruence.
  - destruct (remove_ok orphan ors Hok) as (x & Hx & Hokx). congruence.
Qed.

Lemma add_held now items block ors ors' :
  addOrphanBlock now items block ors = (Ret tt, ors') -> isOrphanInPool (block_Hash block) ors' = true.
Proof.
  intros Hadd. unfold addOrphanBlock in Hadd. inv_run Hadd. inv_run Hadd. unfold modify in Hadd. injection Hadd as <-.
  unfold isOrphanInPool, Has. cbn. by rewrite lookup_insert_eq.
Qed.

(** C38: However blocks are added to and taken from the pool of orphan blocks, in whatever
    order Go ranges over the pool and whatever expires, its three indices agree, it never
    holds more than one block over its limit of 100, and neither adding a block that it does
    not hold nor removing one panics. *)
Theorem orphan_pool_bounded ors :
  rtc pool_step newOrphanBlockPool ors ->
  pool_ok (block_pool ors) /\ pool_Count (block_pool ors) <= maxOrphanBlocks + 1 /\
  (forall now items block, items ≡ₚ Items (block_pool ors) -> isOrphanInPool (block_Hash block) ors = false ->
     exists ors', addOrphanBlock now items block ors = (Ret tt, ors') /\ isOrphanInPool (block_Hash block) ors' = true) /\
  (forall orphan, exists ors', removeOrphanBlock orphan ors = (Ret tt, ors') /\
     isOrphanInPool (block_Hash (ob_block orphan)) ors' = false).
Proof.
  intros Hok%pool_steps_ok. split_and!; [apply Hok|apply Hok| |].
  - intros now items block Hperm Hnew. destruct (add_spec now items block ors Hok Hperm Hnew) as (ors' & Hadd & _).
    exists ors'. split; [done|]. by eapply add_held.
  - intros orphan. destruct (remove_spec orphan ors (bok_pool _ Hok)) as (ors' & Hr & _ & Hi & _).
    exists ors'. split; [done|]. unfold isOrphanInPool, Has. by rewrite Hi, lookup_delete_eq.
Qed.
End blocks.

(** * A pool over its limit *)

(** Blocks given by their hash and the hash of their parent. *)
#[local] Instance pair_data : OrphanData (Hash * Hash) := {| block_Hash := fst; block_Previous := snd |}.

Definition sample_orphan (i : nat) : Hash * Hash := ([Z.of_nat i], [0]).

(** Adding the [i]-th sample block, [i] ticks into the run. *)
Definition add_sample (ors : OrphanBlockPool (Hash * Hash)) (i : nat) : OrphanBlockPool (Hash * Hash) :=
  (addOrphanBlock (Z.of_nat i) (Items (block_pool ors)) (sample_orphan i) ors).2.

(** 99 blocks, the second addition of which notes the first block as the oldest; that block
    then leaves because its parent has arrived, and two more follow. *)
Definition overshoot : OrphanBlockPool (Hash * Hash) :=
  let ors := foldl add_sample newOrphanBlockPool (seq 1 99) in
  let ors := (removeOrphanBlock (mkOrphanBlock 1 (sample_orphan 1) hour) ors).2 in
  foldl add_sample ors (seq 100 3).

Lemma add_sample_step ors i :
  isOrphanInPool (sample_orphan i).1 ors = false ->
  is_panic (addOrphanBlock (Z.of_nat i) (Items (block_pool ors)) (sample_orphan i) ors).1 = false ->
  pool_step ors (add_sample ors i).
Proof.
  intros Hnew Hp. apply (step_add (Z.of_nat i) (Items (block_pool ors)) (sample_orphan i)); [done|done|].
  unfold add_sample. by destruct (addOrphanBlock _ _ _ _) as [[[]|[]|] ?].
Qed.

Definition adds_ok (ors : OrphanBlockPool (Hash * Hash)) (l : list nat) : bool :=
  (foldl (fun p i =>
     (add_sample p.1 i, p.2 && negb (isOrphanInPool (sample_orphan i).1 p.1)
        && negb (is_panic (addOrphanBlock (Z.of_nat i) (Items (block_pool p.1)) (sample_orphan i) p.1).1)))
   (ors, true) l).2.

Lemma adds_false l p0 :
  (foldl (fun p i =>
     (add_sample p.1 i, p.2 && negb (isOrphanInPool (sample_orphan i).1 p.1)
        && negb (is_panic (addOrphanBlock (Z.of_nat i) (Items (block_pool p.1)) (sample_orphan i) p.1).1)))
   (p0, false) l).2 = false.
Proof. revert p0. induction l as [|i l IH]; intros p0; [done|]. cbn [foldl fst snd andb]. apply IH. Qed.

Lemma adds_steps l ors : adds_ok ors l = true -> rtc pool_step ors (foldl add_sample ors l).
Proof.
  revert ors. induction l as [|i l IH]; intros ors Hok; [done|]. unfold adds_ok in Hok. cbn [foldl fst snd andb] in Hok.
  destruct (negb (isOrphanInPool _ _)) eqn:H1; [|by rewrite adds_false in Hok].
  destruct (negb (is_panic _)) eqn:H2; [|by rewrite adds_false in Hok].
  apply negb_true_iff in H1, H2. cbn [foldl]. eapply rtc_l; [by apply add_sample_step|]. by apply IH.
Qed.

Lemma overshoot_steps : rtc pool_step newOrphanBlockPool overshoot.
Proof.
  unfold overshoot. transitivity (foldl add_sample newOrphanBlockPool (seq 1 99)); [apply adds_steps; vm_compute; reflexivity|].
  eapply rtc_l; [apply (step_remove (mkOrphanBlock 1 (sample_orphan 1) hour)); vm_compute; reflexivity|].
  apply adds_steps. vm_compute. reflexivity.
Qed.

(** The bound is attained: the pool remembers an oldest orphan that has left, evicts nothing
    in its place, and holds 101 blocks. *)
Lemma orphan_pool_bounded_witness :
  pool_Count (block_pool overshoot) = maxOrphanBlocks + 1 /\ pool_ok (block_pool overshoot) /\ pool_Count (block_pool overshoot) <= maxOrphanBlocks + 1.
Proof.
  split; [vm_compute; reflexivity|].
  destruct (orphan_pool_bounded overshoot overshoot_steps) as (Hok & Hc & _). exact (conj Hok Hc).
Defined.
