(* ===== verification/BlockTree.v ===== *)
(** The block tree: blockchain/blocktree.go, and the computations that walk it: the challenge,
    target and median time of the next block (blockchain/consensus.go, consensus/challenge,
    consensus/difficulty, calcPastMedianTime of blockchain/chain.go).

    Nodes are shared and updated in place, so they live in a heap and are referred to by
    address, as in the source.  The fields of a node that copy fields of its header are read
    from the header.  The cached binding state of a node belongs to the state database
    (Chain.v); nodes of block templates, which never enter the tree, are left out. *)

From S2P Require Import Prelude Hashes Wire Amount Forks Poc Block.

(** * Data *)

Inductive chain_error :=
| errIndexAlreadyInitialized | errConnectMainChain | errDisconnectMainChain
| errExpandOrphanRootBlockNode | errExpandChildRootBlockNode | errAttachNonLeafBlockNode
| errDetachParentBlockNode | errRootNodeAlreadyExists | errBlockCacheNotExists
| ErrMismatchedBindingRoot | errPrevNodeNotFound | ErrCheckpointTimeTooOld
| errCheckpointLookup | errCheckpointMissing | ErrDBNotFound | errNilLastHeader
| errInvalidReferredHeaders
| ErrOther (code : Z)  (** an error of a component that is an argument of the model *)
| OutOfFuel.           (** the recursion bound of the model, never reached *)

Abbreviation ptr := positive.

Record BlockNode := mkNode {
  InMainChain : bool;
  Parent : option ptr;
  node_Hash : Hash;
  CapSum : Z;
  node_Quality : Z;
  blockHeader : BlockHeader;
}.

Definition node_Height (n : BlockNode) : Z := bh_Height (blockHeader n).
Definition node_Previous (n : BlockNode) : Hash := bh_Previous (blockHeader n).
Definition node_Timestamp (n : BlockNode) : Z := bh_Timestamp (blockHeader n).

Definition set_InMainChain (b : bool) (n : BlockNode) : BlockNode :=
  mkNode b (Parent n) (node_Hash n) (CapSum n) (node_Quality n) (blockHeader n).
Definition set_Parent (q : option ptr) (n : BlockNode) : BlockNode :=
  mkNode (InMainChain n) q (node_Hash n) (CapSum n) (node_Quality n) (blockHeader n).
Definition set_CapSum (z : Z) (n : BlockNode) : BlockNode :=
  mkNode (InMainChain n) (Parent n) (node_Hash n) z (node_Quality n) (blockHeader n).

(** [nodes] is the heap. *)
Record BlockTree := mkTree {
  nodes : gmap ptr BlockNode;
  rootNode : option ptr;
  bestNode : option ptr;
  tree_index : gmap Hash ptr;
  children : gmap Hash (list ptr);
}.

Definition set_nodes (f : gmap ptr BlockNode -> gmap ptr BlockNode) (t : BlockTree) : BlockTree :=
  mkTree (f (nodes t)) (rootNode t) (bestNode t) (tree_index t) (children t).

Definition NewBlockTree : BlockTree := mkTree ∅ None None ∅ ∅.

Definition NewBlockNode {HF : HashFunctions} {CL : ChiaLib} (header : BlockHeader) (blockHash : Hash) : BlockNode :=
  mkNode false None blockHash (bh_Target header) (BlockHeader_Quality header) header.

(** * Operations *)

Abbreviation tree_prog := (prog BlockTree chain_error).

(** [&BlockNode{...}] *)
Definition new_node (n : BlockNode) : tree_prog ptr := fun t =>
  let p := fresh (dom (nodes t)) in (Ret p, set_nodes <[p := n]> t).

(** [*p]; a nil or unknown address panics. *)
Definition load (p : ptr) : tree_prog BlockNode := fun t =>
  match nodes t !! p with Some n => (Ret n, t) | None => (Panic, t) end.

(** An update of the fields of [*p]. *)
Definition store (p : ptr) (f : BlockNode -> BlockNode) : tree_prog unit :=
  n ← load p; modify (set_nodes <[p := f n]>).

Definition setBestBlockNode (p : option ptr) : tree_prog unit :=
  modify (fun t => mkTree (nodes t) (rootNode t) p (tree_index t) (children t)).

Definition add_child (prev : Hash) (p : ptr) (ch : gmap Hash (list ptr)) : gmap Hash (list ptr) :=
  <[prev := default [] (ch !! prev) ++ [p]]> ch.

Definition setRootBlockNode (p : ptr) : tree_prog unit :=
  t ← gets id;
  fail_if (bool_decide (rootNode t <> None)) errRootNodeAlreadyExists;;
  n ← load p;
  modify (fun t => mkTree (nodes t) (Some p) (bestNode t) (<[node_Hash n := p]> (tree_index t))
                          (add_child (node_Previous n) p (children t))).

Definition getBlockNode (hash : Hash) (t : BlockTree) : option ptr := tree_index t !! hash.
Definition nodeExists (hash : Hash) (t : BlockTree) : bool := bool_decide (is_Some (tree_index t !! hash)).

Definition attachBlockNode (p : ptr) : tree_prog unit :=
  n ← load p;
  o ← gets (getBlockNode (node_Previous n));
  match o with
  | None => throw errAttachNonLeafBlockNode
  | Some parent =>
      parentNode ← load parent;
      store p (fun n => set_Parent (Some parent) (set_CapSum (CapSum parentNode + CapSum n) n));;
      modify (fun t => mkTree (nodes t) (rootNode t) (bestNode t) (<[node_Hash n := p]> (tree_index t))
                              (add_child (node_Previous n) p (children t)))
  end.

Fixpoint removeBlockNodeFromSlice (ps : list ptr) (hash : Hash) : tree_prog (list ptr) :=
  match ps with
  | [] => mret []
  | p :: rest =>
      n ← load p;
      if bytes_Equal (node_Hash n) hash then mret rest
      else rest' ← removeBlockNodeFromSlice rest hash; mret (p :: rest')
  end.

Definition detachBlockNode (p : ptr) : tree_prog unit :=
  n ← load p;
  t ← gets id;
  fail_if (bool_decide (is_Some (children t !! node_Hash n))) errDetachParentBlockNode;;
  l ← removeBlockNodeFromSlice (default [] (children t !! node_Previous n)) (node_Hash n);
  modify (fun t => mkTree (nodes t) (rootNode t) (bestNode t) (tree_index t)
                          (match l with [] => delete (node_Previous n) (children t)
                                      | _ => <[node_Previous n := l]> (children t) end)).

(** [fuel] bounds the depth of the recursion; the number of nodes is enough. *)
Fixpoint recursiveAddChildrenCapSum (fuel : nat) (hash : Hash) (cap : Z) : tree_prog unit :=
  match fuel with
  | O => throw OutOfFuel
  | S fuel' =>
      ps ← gets (fun t => default [] (children t !! hash));
      (fix loop (ps : list ptr) : tree_prog unit :=
         match ps with
         | [] => mret tt
         | p :: rest =>
             store p (fun n => set_CapSum (CapSum n + cap) n);;
             n ← load p;
             recursiveAddChildrenCapSum fuel' (node_Hash n) cap;;
             loop rest
         end) ps
  end.

(** The loop over the children of the new root. *)
Fixpoint expand_loop (fuel : nat) (childNodes : list ptr) (p : ptr) (hash : Hash) : tree_prog unit :=
  match childNodes with
  | [] => mret tt
  | c :: rest =>
      store c (set_Parent (Some p));;
      modify (fun t => mkTree (nodes t) (rootNode t) (bestNode t) (tree_index t) (add_child hash c (children t)));;
      n ← load p;
      recursiveAddChildrenCapSum fuel hash (CapSum n);;
      modify (fun t => mkTree (nodes t) (Some p) (bestNode t) (tree_index t) (children t));;
      expand_loop fuel rest p hash
  end.

Definition expandRootBlockNode (p : ptr) : tree_prog unit :=
  n ← load p;
  t ← gets id;
  fail_if (nodeExists (node_Previous n) t) errExpandChildRootBlockNode;;
  match children t !! node_Hash n with
  | None => throw errExpandOrphanRootBlockNode
  | Some childNodes =>
      expand_loop (S (size (nodes t))) childNodes p (node_Hash n);;
      modify (fun t => mkTree (nodes t) (rootNode t) (bestNode t) (<[node_Hash n := p]> (tree_index t))
                              (add_child (node_Previous n) p (children t)))
  end.

(** The nodes from [p] to the root; [fuel] bounds their number. *)
Fixpoint ancestry (fuel : nat) (t : BlockTree) (p : option ptr) : list ptr :=
  match fuel, p with
  | S fuel', Some p =>
      match nodes t !! p with
      | Some n => p :: ancestry fuel' t (Parent n)
      | None => []
      end
  | _, _ => []
  end.

(** Following [Parent] from [p]; a heap of [n] nodes has no longer chain. *)
Definition lineage (t : BlockTree) (p : option ptr) : list ptr := ancestry (S (size (nodes t))) t p.

Definition Ancestor (p : ptr) (height : Z) : tree_prog (option ptr) :=
  n ← load p;
  if height >? node_Height n then mret None
  else gets (fun t => head (filter (fun q => node_Height <$> nodes t !! q = Some height) (lineage t (Some p)))).

(** * The next challenge and target *)

Definition ChallengeInterval : Z := 10.
Definition MaxReferredBlocks : Z := ChallengeInterval * 2.
Definition toleranceSlot : Z := 10.

Section consensus.
Context {HF : HashFunctions} {CL : ChiaLib}.

Definition CalcNextChallenge (lastHeader : option BlockHeader) (referredHeaders : list BlockHeader) : outcome chain_error Hash :=
  match lastHeader with
  | None => Err errNilLastHeader
  | Some lastHeader =>
      if bh_Height lastHeader <? ChallengeInterval then
        match BlockHash lastHeader with
        | Ret hash => Ret (HashH hash)
        | _ => Panic
        end
      else
        let M := bh_Height lastHeader mod ChallengeInterval in
        check (len referredHeaders <? M + ChallengeInterval + 1) errInvalidReferredHeaders;;
        referredBlock ← index referredHeaders (M + ChallengeInterval);
        let proofHash := HashB (Proof_Encode (bh_Proof referredBlock)) in
        Ret (Nat.iter (Z.to_nat M) HashB proofHash)
  end.

(** The headers of [p] and its ancestors, [size] of them; a missing parent panics. *)
Fixpoint refer_headers (size : nat) (p : option ptr) : tree_prog (list BlockHeader) :=
  match size with
  | O => mret []
  | S size' =>
      match p with
      | None => panic
      | Some p =>
          n ← load p;
          rest ← refer_headers size' (Parent n);
          mret (blockHeader n :: rest)
      end
  end.

Definition calcNextChallenge (p : ptr) : tree_prog Hash :=
  lastNode ← load p;
  let next := uint64 (node_Height lastNode + 1) in
  let size := if next <? MaxReferredBlocks then next else MaxReferredBlocks in
  headers ← refer_headers (Z.to_nat size) (Some p);
  lift (CalcNextChallenge (Some (blockHeader lastNode)) headers).

(** [Unix] times are in seconds; Go's division of signed integers truncates, that of big
    integers by a positive one rounds down. *)
Definition CalcNextRequiredDifficulty (pocLimit : Z) (lastHeader : option BlockHeader) (newBlockTime : Z) : Z :=
  match lastHeader with
  | None => pocLimit
  | Some lastHeader =>
      let diffUnit := 2048 in
      let ParentDiff := bh_Target lastHeader in
      let MaxOne := Z.max (int64 (1 - Z.quot (int64 (Z.quot newBlockTime PoCSlot - Z.quot (bh_Timestamp lastHeader) PoCSlot)) toleranceSlot)) (-199) in
      let Adjusted := ParentDiff / diffUnit * MaxOne in
      ParentDiff + Adjusted
  end.

Definition calcNextTarget (pocLimit : Z) (p : ptr) (newBlockTime : Z) : tree_prog Z :=
  lastNode ← load p;
  mret (CalcNextRequiredDifficulty pocLimit (Some (blockHeader lastNode)) newBlockTime).
End consensus.

(** ** Fork choice *)

(** [isPotentialNewBestChain]: heavier, then earlier, then of higher quality, then of smaller hash. *)
Definition better (side best : BlockNode) : bool :=
  if negb (CapSum side =? CapSum best) then CapSum best <? CapSum side
  else if negb (node_Timestamp side =? node_Timestamp best) then node_Timestamp side <? node_Timestamp best
  else if negb (node_Quality side =? node_Quality best) then node_Quality best <? node_Quality side
  else be_decode (node_Hash side) <? be_decode (node_Hash best).

(** Without a side or best chain the answer is no. *)
Definition isPotentialNewBestChain (sideChain : option ptr) : tree_prog bool :=
  bestChain ← gets bestNode;
  match sideChain, bestChain with
  | Some s, Some b => side ← load s; best ← load b; mret (better side best)
  | _, _ => mret false
  end.

(** [getReorganizeNodes]: the nodes to detach, from the tip down, and those to attach, in order. *)
Fixpoint attach_walk (t : BlockTree) (l acc : list ptr) : option ptr * list ptr :=
  match l with
  | [] => (None, acc)
  | p :: rest =>
      match nodes t !! p with
      | Some n =>
          if bool_decide (Parent n = None) || InMainChain n then (Some p, acc)
          else attach_walk t rest (p :: acc)
      | None => (None, acc)
      end
  end.

Fixpoint detach_walk (t : BlockTree) (ancestor : Hash) (l : list ptr) : list ptr :=
  match l with
  | [] => []
  | p :: rest =>
      match nodes t !! p with
      | Some n =>
          if bool_decide (Parent n = None) || bytes_Equal (node_Hash n) ancestor then []
          else p :: detach_walk t ancestor rest
      | None => []
      end
  end.

Definition getReorganizeNodes (p : ptr) : tree_prog (list ptr * list ptr) :=
  t ← gets id;
  let (ancestor, attachNodes) := attach_walk t (lineage t (Some p)) [] in
  match ancestor with
  | None => panic
  | Some a => n ← load a; mret (detach_walk t (node_Hash n) (lineage t (bestNode t)), attachNodes)
  end.
