(* ===== verification/BlockTreeSpec.v ===== *)
(** The shape of the block tree and the computations over it: ancestries, the fork choice as
    an order, the blocks a reorganisation detaches and attaches, the challenge and the target
    of the next block. *)

From S2P Require Import Prelude Hashes Wire Amount Forks Poc Block BlockSpec BlockTree.

(** * Ancestries *)

(** [path t p l]: [l] are the nodes from [p] to a root. *)
Inductive path (t : BlockTree) : ptr -> list ptr -> Prop :=
| path_root p n : nodes t !! p = Some n -> Parent n = None -> path t p [p]
| path_step p n q l : nodes t !! p = Some n -> Parent n = Some q -> path t q l -> path t p (p :: l).

Section paths.
Context (t : BlockTree).
Implicit Types (p q : ptr) (l : list ptr).

Lemma path_head p l : path t p l -> exists l', l = p :: l'.
Proof. destruct 1; eauto. Qed.

Lemma path_node p l : path t p l -> is_Some (nodes t !! p).
Proof. destruct 1; eauto. Qed.

Lemma path_det p l l' : path t p l -> path t p l' -> l = l'.
Proof.
  intros Hp. revert l'. induction Hp as [p n Hn Hpar|p n q l Hn Hpar Hp IH]; intros l' Hp'; destruct Hp'; simplify_eq; [done|].
  f_equal. auto.
Qed.

Lemma path_tail p l1 q l2 : path t p (l1 ++ q :: l2) -> path t q (q :: l2).
Proof.
  revert p. induction l1 as [|a l1 IH]; intros p Hp; cbn in *.
  - by destruct (path_head _ _ Hp) as [? [= <- <-]].
  - inversion Hp; subst; [by destruct l1|]. eauto.
Qed.

Lemma path_nodup p l : path t p l -> NoDup l.
Proof.
  induction 1 as [p n Hn Hpar|p n q l Hn Hpar Hp IH]; [apply NoDup_singleton|].
  constructor; [|done]. intros Hin. apply list_elem_of_split in Hin as (l1 & l2 & ->).
  pose proof (path_step _ _ _ _ _ Hn Hpar Hp) as Hfull. pose proof (path_tail _ _ _ _ Hp) as Hsub.
  pose proof (path_det _ _ _ Hfull Hsub) as Heq. apply (f_equal length) in Heq. cbn in Heq. rewrite length_app in Heq. cbn in Heq. lia.
Qed.

Lemma path_length p l : path t p l -> (length l <= size (nodes t))%nat.
Proof.
  intros Hp. rewrite <- size_dom, <- (size_list_to_set (C := gset ptr) l) by eauto using path_nodup.
  apply subseteq_size. intros q Hq. apply elem_of_list_to_set, list_elem_of_split in Hq as (l1 & l2 & ->).
  apply path_tail, path_node in Hp. by apply elem_of_dom.
Qed.

Lemma ancestry_path fuel p l : path t p l -> (length l < fuel)%nat -> ancestry fuel t (Some p) = l.
Proof.
  intros Hp. revert fuel. induction Hp as [p n Hn Hpar|p n q l Hn Hpar Hp IH]; intros fuel Hf; cbn in Hf;
    (destruct fuel as [|fuel]; [lia|]); cbn [ancestry]; rewrite Hn, Hpar.
  - by destruct fuel.
  - by rewrite IH by lia.
Qed.

(** The bound on the walk is never reached. *)
Lemma lineage_path p l : path t p l -> lineage t (Some p) = l.
Proof. intros Hp. apply ancestry_path; [done|]. pose proof (path_length _ _ Hp). lia. Qed.

Lemma path_mem p l q : path t p l -> q ∈ l -> exists l1 l2, l = l1 ++ q :: l2 /\ path t q (q :: l2).
Proof. intros Hp (l1 & l2 & ->)%list_elem_of_split. eauto using path_tail. Qed.

(** Two ancestries that meet agree from there on. *)
Lemma path_meet p p' l l' q :
  path t p l -> path t p' l' -> q ∈ l -> q ∈ l' ->
  exists l1 l1' l2, l = l1 ++ q :: l2 /\ l' = l1' ++ q :: l2 /\ path t q (q :: l2).
Proof.
  intros Hp Hp' Hq Hq'. destruct (path_mem _ _ _ Hp Hq) as (l1 & l2 & -> & H2).
  destruct (path_mem _ _ _ Hp' Hq') as (l1' & l2' & -> & H2').
  pose proof (path_det _ _ _ H2 H2') as [= <-]. eauto 10.
Qed.
End paths.

(** An ancestry depends on the parents only. *)
Lemma path_ext t t' p l :
  path t p l -> (forall q n, q ∈ l -> nodes t !! q = Some n -> exists n', nodes t' !! q = Some n' /\ Parent n' = Parent n) ->
  path t' p l.
Proof.
  induction 1 as [p n Hn Hpar|p n q l Hn Hpar Hp IH]; intros Hext.
  - destruct (Hext p n) as (n' & Hn' & Hpar'); [set_solver|done|]. eapply path_root; [done|congruence].
  - destruct (Hext p n) as (n' & Hn' & Hpar'); [set_solver|done|].
    eapply path_step; [done|by rewrite Hpar'|]. apply IH. intros; apply Hext; set_solver.
Qed.

(** * The invariant of the tree *)

(** Hashes lead to their nodes, parents are in the tree under the hash their child names, the
    root is the one node without a parent, every ancestry ends there, the best node is in the
    tree, and the main chain is its ancestry. *)
Record tree_ok (t : BlockTree) (best : ptr) : Prop := {
  tok_index h p : tree_index t !! h = Some p -> exists n, nodes t !! p = Some n /\ node_Hash n = h;
  tok_parent h p n q :
    tree_index t !! h = Some p -> nodes t !! p = Some n -> Parent n = Some q -> tree_index t !! node_Previous n = Some q;
  tok_path h p : tree_index t !! h = Some p -> exists l, path t p l;
  tok_root : exists r, rootNode t = Some r /\ (exists n, nodes t !! r = Some n /\ tree_index t !! node_Hash n = Some r /\ Parent n = None) /\
    forall h p n, tree_index t !! h = Some p -> nodes t !! p = Some n -> Parent n = None -> p = r;
  tok_best : bestNode t = Some best /\ exists n, nodes t !! best = Some n /\ tree_index t !! node_Hash n = Some best;
  tok_main h p n : tree_index t !! h = Some p -> nodes t !! p = Some n ->
    (InMainChain n = true <-> p ∈ lineage t (Some best));
}.

Section tree.
Context (t : BlockTree) (best : ptr) (Hok : tree_ok t best).

Lemma best_path : exists l, path t best l.
Proof. destruct (tok_best _ _ Hok) as (_ & n & _ & Hi). eauto using tok_path. Qed.

Lemma index_inj h p n : tree_index t !! h = Some p -> nodes t !! p = Some n -> h = node_Hash n.
Proof. intros Hi Hn. destruct (tok_index _ _ Hok _ _ Hi) as (n' & Hn' & <-). congruence. Qed.

(** The ancestors of a node of the tree are in the tree. *)
Lemma path_indexed h p l q n :
  tree_index t !! h = Some p -> path t p l -> q ∈ l -> nodes t !! q = Some n -> tree_index t !! node_Hash n = Some q.
Proof.
  intros Hi Hp. revert h Hi. induction Hp as [p np Hnp Hpar|p np q' l Hnp Hpar Hp IH]; intros h Hi Hq Hn.
  - apply list_elem_of_singleton in Hq as ->. rewrite <- (index_inj _ _ _ Hi Hn). done.
  - apply elem_of_cons in Hq as [->|Hq]; [rewrite <- (index_inj _ _ _ Hi Hn); done|].
    eapply IH; [|done|done]. eapply tok_parent; eauto.
Qed.

(** Every ancestry ends in the root. *)
Lemma path_ends h p l r :
  tree_index t !! h = Some p -> path t p l -> rootNode t = Some r -> r ∈ l.
Proof.
  intros Hi Hp Hr. destruct (tok_root _ _ Hok) as (r' & Hr' & _ & Hone). assert (r' = r) as -> by congruence.
  revert h Hi. induction Hp as [p n Hn Hpar|p n q l Hn Hpar Hp IH]; intros h Hi.
  - rewrite (Hone _ _ _ Hi Hn Hpar). set_solver.
  - apply elem_of_cons. right. eapply IH, tok_parent; eauto.
Qed.

Lemma root_main r n : rootNode t = Some r -> nodes t !! r = Some n -> InMainChain n = true.
Proof.
  intros Hr Hn. destruct (tok_root _ _ Hok) as (r' & Hr' & (n' & Hn' & Hi & _) & _).
  assert (r' = r) as -> by congruence. assert (n' = n) as -> by congruence.
  apply (tok_main _ _ Hok _ _ _ Hi Hn). destruct best_path as [l Hl]. rewrite (lineage_path _ _ _ Hl).
  destruct (tok_best _ _ Hok) as (_ & nb & _ & Hib). eapply path_ends; eauto.
Qed.
End tree.

(** * The nodes of a reorganisation *)

Lemma attach_walk_spec t p l acc :
  path t p l -> exists A anc L na, l = A ++ anc :: L /\ attach_walk t l acc = (Some anc, rev A ++ acc) /\
    nodes t !! anc = Some na /\ (Parent na = None \/ InMainChain na = true) /\
    forall a, a ∈ A -> exists n, nodes t !! a = Some n /\ InMainChain n = false.
Proof.
  intros Hp. revert acc. induction Hp as [p n Hn Hpar|p n q l Hn Hpar Hp IH]; intros acc; cbn [attach_walk]; rewrite Hn, Hpar; cbn [orb].
  { exists [], p, [], n. rewrite bool_decide_true by done. cbn. split_and!; auto. set_solver. }
  rewrite bool_decide_false by done. cbn [orb]. destruct (InMainChain n) eqn:Hm.
  { exists [], p, l, n. split_and!; auto. set_solver. }
  destruct (IH (p :: acc)) as (A & anc & L & na & -> & Hw & Hna & Hor & HA).
  exists (p :: A), anc, L, na. split_and!; auto.
  - rewrite Hw. cbn [rev]. by rewrite <- app_assoc.
  - intros a [->|Ha]%elem_of_cons; eauto.
Qed.

Lemma path_has_parent t p l1 a b l2 : path t p (l1 ++ a :: b :: l2) -> exists n, nodes t !! a = Some n /\ Parent n = Some b.
Proof.
  intros Hp%path_tail. inversion Hp; subst.
  match goal with H : path t _ (b :: l2) |- _ => destruct (path_head _ _ _ H) as [? [= <-]] end. eauto.
Qed.

(** An element splits a list without duplicates in one way. *)
Lemma nodup_split {A} (l1 l1' : list A) x l2 l2' :
  NoDup (l1 ++ x :: l2) -> l1 ++ x :: l2 = l1' ++ x :: l2' -> l1' = l1 /\ l2' = l2.
Proof.
  revert l1'. induction l1 as [|a l1 IH]; intros [|a' l1'] Hnd Heq; cbn in *; apply NoDup_cons in Hnd as [Hn Hnd]; simplify_eq.
  - done.
  - exfalso. set_solver.
  - exfalso. set_solver.
  - destruct (IH l1' Hnd) as [-> ->]; done.
Qed.

Section reorganise.
Context (t : BlockTree) (best : ptr) (Hok : tree_ok t best).

Lemma detach_walk_spec D anc L na :
  path t best (D ++ anc :: L) -> nodes t !! anc = Some na -> detach_walk t (node_Hash na) (D ++ anc :: L) = D.
Proof.
  intros Hp Hna. destruct (tok_best _ _ Hok) as (_ & nb & Hnb & Hib).
  assert (tree_index t !! node_Hash na = Some anc) as Hia by (eapply path_indexed; eauto; set_solver).
  pose proof (path_nodup _ _ _ Hp) as Hnd. revert Hib Hnd Hp. generalize (node_Hash nb) best. clear nb Hnb.
  induction D as [|a D IH]; intros h b Hib Hnd Hp; cbn [app detach_walk].
  { rewrite Hna. unfold bytes_Equal. rewrite (bool_decide_true (node_Hash na = node_Hash na)) by done. by rewrite orb_true_r. }
  assert (exists d rest, D ++ anc :: L = d :: rest) as (d & rest & Hrest) by (destruct D; cbn; eauto).
  cbn [app] in Hp, Hnd. rewrite Hrest in Hp. destruct (path_has_parent t b [] a d rest Hp) as (n & Hn & Hpar).
  rewrite <- Hrest in Hp. destruct (path_head _ _ _ Hp) as [? [= -> _]].
  rewrite Hn, Hpar, bool_decide_false by done. cbn [orb].
  apply NoDup_cons in Hnd as [Hnot Hnd].
  assert (bytes_Equal (node_Hash n) (node_Hash na) = false) as ->.
  { apply bool_decide_eq_false. intros Heq. apply Hnot. rewrite (index_inj _ _ Hok _ _ _ Hib Hn), Heq, Hia in Hib.
    injection Hib as ->. set_solver. }
  f_equal. eapply IH; [|done|].
  - eapply tok_parent; eauto.
  - rewrite Hrest in Hp |- *. inversion Hp; subst.
    match goal with H : path t _ (d :: rest) |- _ => destruct (path_head _ _ _ H) as [? Hx]; simplify_eq; exact H end.
Qed.

(** A reorganisation to a node of the tree detaches the main chain down to the last common
    ancestor and attaches the branch from there up. *)
Lemma getReorganizeNodes_spec h p lp :
  tree_index t !! h = Some p -> path t p lp ->
  exists D A anc L, lineage t (Some best) = D ++ anc :: L /\ lp = A ++ anc :: L /\
    getReorganizeNodes p t = (Ret (D, rev A), t) /\
    forall a, a ∈ A -> exists n, nodes t !! a = Some n /\ InMainChain n = false.
Proof.
  intros Hi Hp. destruct (best_path _ _ Hok) as [lb Hb]. pose proof (lineage_path _ _ _ Hb) as Hlb.
  destruct (attach_walk_spec t p lp [] Hp) as (A & anc & L & na & -> & Hw & Hna & Hor & HA).
  assert (tree_index t !! node_Hash na = Some anc) as Hia by (eapply path_indexed; eauto; set_solver).
  assert (InMainChain na = true) as Hmain.
  { destruct Hor as [Hpar|]; [|done]. destruct (tok_root _ _ Hok) as (r & Hr & _ & Hone).
    pose proof (Hone _ _ _ Hia Hna Hpar) as ->. eapply root_main; eauto. }
  apply (tok_main _ _ Hok _ _ _ Hia Hna) in Hmain. rewrite Hlb in Hmain.
  destruct (path_meet t _ _ _ _ anc Hb Hp) as (D & A' & L' & -> & HeqA & Hanc); [done|set_solver|].
  assert (A' = A /\ L' = L) as [-> ->].
  { apply (nodup_split _ _ anc _ _ (path_nodup _ _ _ Hp)). done. }
  exists D, A, anc, L. split_and!; auto.
  unfold getReorganizeNodes, gets, mbind, prog_bind. cbn [id]. rewrite (lineage_path _ _ _ Hp), Hw. unfold load. rewrite Hna.
  rewrite (proj1 (tok_best _ _ Hok)), Hlb, (detach_walk_spec D anc L na Hb Hna), app_nil_r. done.
Qed.
End reorganise.

(** * Fork choice *)

Section fork_choice.
Implicit Types (a b c : BlockNode).

(** The fork choice as a lexicographic order on four keys. *)
Lemma better_spec a b :
  better a b = true <->
  CapSum b < CapSum a \/ CapSum a = CapSum b /\
  (node_Timestamp a < node_Timestamp b \/ node_Timestamp a = node_Timestamp b /\
  (node_Quality b < node_Quality a \/ node_Quality a = node_Quality b /\
   be_decode (node_Hash a) < be_decode (node_Hash b))).
Proof. unfold better. repeat case_if; bool_to_prop; rewrite ?Z.ltb_lt; split; intros; try lia; try done; intuition lia. Qed.

Lemma better_trans a b c : better a b = true -> better b c = true -> better a c = true.
Proof. rewrite !better_spec. lia. Qed.

(** The rule that chooses between chain tips is a strict total order on nodes with
    different hashes: no tip is better than itself, the comparison is transitive, and of two
    tips with different hashes exactly one is better, so nodes that know the same tips agree
    on the best one whatever the order they received them in. *)
Theorem fork_choice_total :
  (forall a, better a a = false) /\
  (forall a b c, better a b = true -> better b c = true -> better a c = true) /\
  (forall a b, bytes_ok (node_Hash a) -> bytes_ok (node_Hash b) -> length (node_Hash a) = length (node_Hash b) ->
     node_Hash a <> node_Hash b -> better a b = negb (better b a)).
Proof.
  split_and!.
  - intros a. apply not_true_iff_false. rewrite better_spec. lia.
  - exact better_trans.
  - intros a b Ha Hb Hlen Hne.
    assert (be_decode (node_Hash a) <> be_decode (node_Hash b)) as Hdec.
    { intros Heq. apply (f_equal (be_encode (length (node_Hash b)))) in Heq. rewrite !be_encode_decode in Heq by done. done. }
    apply eq_true_iff_eq. rewrite negb_true_iff, <- not_true_iff_false, !better_spec. lia.
Qed.
End fork_choice.

(** * The next target *)

Section target.
Implicit Types (h : BlockHeader) (time pocLimit : Z).

(** The formula without the machine arithmetic. *)
Lemma CalcNextRequiredDifficulty_eq pocLimit h time :
  0 <= bh_Timestamp h < 2 ^ 62 -> 0 <= time < 2 ^ 62 ->
  CalcNextRequiredDifficulty pocLimit (Some h) time =
    bh_Target h + bh_Target h / 2048 * Z.max (1 - Z.quot (time / 3 - bh_Timestamp h / 3) 10) (-199).
Proof.
  intros Hts Htime. cbn [CalcNextRequiredDifficulty]. unfold PoCSlot, toleranceSlot.
  rewrite (Z.quot_div_nonneg time 3), (Z.quot_div_nonneg (bh_Timestamp h) 3) by lia.
  pose proof (Z.div_pos time 3). pose proof (Z.div_pos (bh_Timestamp h) 3).
  assert (time / 3 <= time) by (apply Z.div_le_upper_bound; lia).
  assert (bh_Timestamp h / 3 <= bh_Timestamp h) by (apply Z.div_le_upper_bound; lia).
  rewrite (int64_small (time / 3 - _)) by lia.
  set (d := time / 3 - bh_Timestamp h / 3) in *.
  assert (- 2 ^ 62 <= Z.quot d 10 <= 2 ^ 62).
  { split; [apply Z.quot_le_lower_bound|apply Z.quot_le_upper_bound]; lia. }
  rewrite int64_small by lia. done.
Qed.

(** C25: For a block that is not earlier than its parent, the target of the next block is the
    parent's target changed by at most 1/2048 of it upwards and 199/2048 downwards; it stays
    positive, is raised for a block in the first ten slots, kept in the next ten and lowered
    afterwards (a target below 2048, which has no 2048th part, is kept), and waiting longer
    never raises it.  All this holds for every value of the limit on targets, which the code
    takes and does not apply. *)
Theorem target_adjusts pocLimit h time :
  0 < bh_Target h -> 0 <= bh_Timestamp h -> bh_Timestamp h <= time < 2 ^ 62 ->
  let slots := time / 3 - bh_Timestamp h / 3 in
  let next := CalcNextRequiredDifficulty pocLimit (Some h) time in
  bh_Target h - 199 * (bh_Target h / 2048) <= next <= bh_Target h + bh_Target h / 2048 /\ 0 < next /\
  (slots < 10 -> next = bh_Target h + bh_Target h / 2048) /\
  (10 <= slots < 20 -> next = bh_Target h) /\
  (20 <= slots -> 2048 <= bh_Target h -> next < bh_Target h) /\
  (forall later, time <= later < 2 ^ 62 -> CalcNextRequiredDifficulty pocLimit (Some h) later <= next).
Proof.
  intros HT Hts Htime slots next. subst next.
  assert (forall x, time <= x < 2 ^ 62 -> CalcNextRequiredDifficulty pocLimit (Some h) x =
    bh_Target h + bh_Target h / 2048 * Z.max (1 - (x / 3 - bh_Timestamp h / 3) / 10) (-199)) as Heq.
  { intros x Hx. rewrite CalcNextRequiredDifficulty_eq by lia.
    pose proof (Z.div_le_mono (bh_Timestamp h) x 3 ltac:(lia) ltac:(lia)). by rewrite Z.quot_div_nonneg by lia. }
  pose proof (Z.div_le_mono (bh_Timestamp h) time 3 ltac:(lia) ltac:(lia)) as Hslots.
  assert (0 <= slots) as H0 by (unfold slots; lia).
  rewrite Heq by lia. fold slots. pose proof (Z.div_pos slots 10 ltac:(lia) ltac:(lia)) as Hq.
  pose proof (Z.div_pos (bh_Target h) 2048 ltac:(lia) ltac:(lia)) as Hu.
  pose proof (Z.mul_div_le (bh_Target h) 2048 ltac:(lia)) as Hu2.
  set (u := bh_Target h / 2048) in *. set (s := slots / 10) in *.
  split_and!.
  - nia.
  - nia.
  - nia.
  - intros Hs. assert (s = 0) as Hz by (unfold s; apply Z.div_small; lia). rewrite Hz. lia.
  - intros Hs. assert (s = 1) as Hz by (unfold s; symmetry; apply (Z.div_unique slots 10 1 (slots - 10)); lia). rewrite Hz. nia.
  - intros Hs Hbig. assert (2 <= s) by (unfold s; apply Z.div_le_lower_bound; lia).
    assert (1 <= u) by (unfold u; apply Z.div_le_lower_bound; lia). nia.
  - intros later Hl. rewrite Heq by lia.
    assert (s <= (later / 3 - bh_Timestamp h / 3) / 10); [|nia].
    unfold s. apply Z.div_le_mono; [lia|]. unfold slots. pose proof (Z.div_le_mono time later 3 ltac:(lia) ltac:(lia)). lia.
Qed.
End target.

(** * The next challenge *)

Section challenge.
Context {HF : HashFunctions} {CL : ChiaLib}.

Lemma refer_headers_spec t size p l :
  path t p l -> (size <= length l)%nat ->
  exists hs, refer_headers size (Some p) t = (Ret hs, t) /\ length hs = size /\
    forall i q n, (i < size)%nat -> l !! i = Some q -> nodes t !! q = Some n -> hs !! i = Some (blockHeader n).
Proof.
  intros Hp. revert size. induction Hp as [p n Hn Hpar|p n q l Hn Hpar Hp IH]; intros [|size] Hs;
    try (exists []; split_and!; [done|done|intros; lia]).
  - cbn in Hs. assert (size = 0%nat) as -> by lia. exists [blockHeader n].
    cbn [refer_headers]. unfold mbind, prog_bind, load. rewrite Hn. split_and!; [done|done|].
    intros [|i] q n' Hi Hq Hn'; [|lia]. cbn in Hq. simplify_eq. done.
  - cbn in Hs. destruct (IH size ltac:(lia)) as (hs & Hr & Hlen & Hnth). exists (blockHeader n :: hs).
    cbn [refer_headers]. unfold mbind, prog_bind, load. rewrite Hn, Hpar. cbv beta. fold (@prog BlockTree chain_error).
    rewrite Hr. split_and!; [done|cbn; lia|].
    intros [|i] q' n' Hi Hq Hn'; cbn in Hq; [simplify_eq; done|]. cbn. eapply Hnth; eauto. lia.
Qed.

(** From the second interval of ten blocks on, the challenge of the next block is defined
    whenever the tree holds the last twenty blocks (or all of them), and all ten blocks of an
    interval take theirs from one proof, that of the first block of the interval before:
    after the block with number [M] of an interval it is that proof hashed [M + 1] times. *)
Theorem challenge_of_interval t p lp n k M :
  path t p lp -> nodes t !! p = Some n -> node_Height n = 10 * k + M -> 1 <= k -> 0 <= M < 10 ->
  node_Height n < 2 ^ 64 - 1 -> Z.min 20 (node_Height n + 1) <= len lp ->
  (forall i q nq, lp !! i = Some q -> nodes t !! q = Some nq -> node_Height nq = node_Height n - Z.of_nat i) ->
  exists r nr, lp !! Z.to_nat (M + 10) = Some r /\ nodes t !! r = Some nr /\ node_Height nr = 10 * (k - 1) /\
    calcNextChallenge p t = (Ret (Nat.iter (Z.to_nat (M + 1)) HashB (Proof_Encode (bh_Proof (blockHeader nr)))), t).
Proof.
  intros Hp Hn Hh Hk HM Hmax Hlen Hheights.
  assert (Z.to_nat (M + 10) < length lp)%nat as Hlt by (unfold len in Hlen; lia).
  destruct (lookup_lt_is_Some_2 lp _ Hlt) as [r Hr].
  assert (exists nr, nodes t !! r = Some nr) as [nr Hnr].
  { apply list_elem_of_lookup_2, list_elem_of_split in Hr as (l1 & l2 & ->). by apply path_tail, path_node in Hp as [? ?]; eauto. }
  exists r, nr. split_and!; [done|done|rewrite (Hheights _ _ _ Hr Hnr); lia|].
  set (size := Z.to_nat (Z.min 20 (node_Height n + 1))).
  destruct (refer_headers_spec t size p lp Hp) as (hs & Hhs & Hl & Hnth); [unfold size, len in *; lia|].
  unfold calcNextChallenge, mbind at 1, prog_bind at 1, load at 1. rewrite Hn. cbv beta zeta.
  rewrite wrapU_small by lia. unfold MaxReferredBlocks, ChallengeInterval.
  assert ((if node_Height n + 1 <? 10 * 2 then node_Height n + 1 else 10 * 2) = Z.min 20 (node_Height n + 1)) as ->
    by (case_if; bool_to_prop; lia).
  fold size. unfold mbind, prog_bind. rewrite Hhs. unfold lift, CalcNextChallenge, ChallengeInterval.
  fold (node_Height n). rewrite Hh.
  assert ((10 * k + M <? 10) = false) as -> by lia.
  assert ((10 * k + M) mod 10 = M) as -> by (rewrite (Z.mul_comm 10), Z.add_comm, Z_mod_plus_full; apply Z.mod_small; lia).
  assert ((len hs <? M + 10 + 1) = false) as -> by (unfold len, size in *; lia).
  unfold check, mbind, outcome_bind.
  assert (index (E := chain_error) hs (M + 10) = Ret (blockHeader nr)) as ->.
  { apply index_Ret. split; [lia|]. eapply Hnth; eauto. unfold size. lia. }
  rewrite (Z2Nat.inj_add M 1) by lia. rewrite Nat.add_1_r. by rewrite Nat.iter_succ_r.
Qed.
End challenge.
