(* ===== verification/Chain.v ===== *)
(** Chain processing: blockchain/process.go, the chain selection of blockchain/chain.go, the
    node lookups of blockchain/blockchain.go and blockchain/checkpoints.go.

    The components the chain calls (validation, database, address index, binding states, pools,
    the double-mining detector, listeners) are an argument of the model: a call may change their
    state, which it reads together with the whole chain, but not the chain's own.  Blocks of
    templates (BFNoPoCCheck) are left out: they are checked and never enter the chain. *)

From stdpp Require Import sorting.
From S2P Require Import Prelude Hashes Wire Amount Forks Poc Block OrphanPool BlockTree.

(** * State *)

(** What the chain uses of a block. *)
Class ChainBlock (B : Type) := {
  cb_Hash : B -> Hash;
  cb_Header : B -> BlockHeader;
  cb_IsImport : B -> bool;
}.

#[global] Instance chain_orphan_data {B} `{ChainBlock B} : OrphanData B :=
  {| block_Hash := cb_Hash; block_Previous b := bh_Previous (cb_Header b) |}.

(** [config.Checkpoint] *)
Record Checkpoint := mkCheckpoint { cp_Height : Z; cp_Hash : Hash }.

(** The LRU cache of errors (groupcache). *)
Class LruCache (C : Type) := {
  lru_Add : Hash -> chain_error -> C -> C;
  lru_Get : Hash -> C -> option chain_error * C;
}.

(** [X] is the state of the other components, [C] that of the error cache.  [blockCache] holds
    side chain blocks by hash; [nextCheckpoint] is an index into [checkpoints]. *)
Record Chain (B X C : Type) := mkChain {
  tree : BlockTree;
  orphanPool : OrphanBlockPool B;
  blockCache : gmap Hash B;
  errCache : C;
  checkpoints : list Checkpoint;
  nextCheckpoint : option nat;
  checkpointNode : option BlockNode;
  ext : X;
}.
Arguments mkChain {B X C}.
Arguments tree {B X C}.
Arguments orphanPool {B X C}.
Arguments blockCache {B X C}.
Arguments errCache {B X C}.
Arguments checkpoints {B X C}.
Arguments nextCheckpoint {B X C}.
Arguments checkpointNode {B X C}.
Arguments ext {B X C}.

Section chain.
Context {B X C : Type} `{ChainBlock B} `{LruCache C} {HF : HashFunctions} {CL : ChiaLib}.
Abbreviation chain := (Chain B X C).

Definition set_tree (c : chain) (t : BlockTree) : chain :=
  mkChain t (orphanPool c) (blockCache c) (errCache c) (checkpoints c) (nextCheckpoint c) (checkpointNode c) (ext c).
Definition set_orphans (c : chain) (o : OrphanBlockPool B) : chain :=
  mkChain (tree c) o (blockCache c) (errCache c) (checkpoints c) (nextCheckpoint c) (checkpointNode c) (ext c).
Definition set_cache (c : chain) (m : gmap Hash B) : chain :=
  mkChain (tree c) (orphanPool c) m (errCache c) (checkpoints c) (nextCheckpoint c) (checkpointNode c) (ext c).
Definition set_errs (c : chain) (e : C) : chain :=
  mkChain (tree c) (orphanPool c) (blockCache c) e (checkpoints c) (nextCheckpoint c) (checkpointNode c) (ext c).
Definition set_checkpoint (c : chain) (next : option nat) (n : option BlockNode) : chain :=
  mkChain (tree c) (orphanPool c) (blockCache c) (errCache c) (checkpoints c) next n (ext c).
Definition set_ext (c : chain) (x : X) : chain :=
  mkChain (tree c) (orphanPool c) (blockCache c) (errCache c) (checkpoints c) (nextCheckpoint c) (checkpointNode c) x.

(** * Calls to other components *)

Context {TxStore BState : Type}.

(** One constructor per callee, with its arguments; the index is the type of the result. *)
Inductive Call : Type -> Type :=
| checkBlockSanity (block : B) : Call unit
| checkBlockContext (block : B) (prev : ptr) : Call unit
| checkConnectBlock (node : ptr) (block : B) (st : option BState) : Call unit
| connectState (st : BState) (block : B) : Call BState
| fetchInputTransactions (node : ptr) (block : B) : Call TxStore
| db_SubmitBlock (block : B) : Call unit
| db_DeleteBlock (hash : Hash) : Call unit
| db_Commit (hash : Hash) : Call unit
| db_Rollback : Call unit
| db_FetchBlockBySha (hash : Hash) : Call B
| ParentBindingState (node : ptr) : Call BState
| index_AttachBlock (st : BState) (block : B) (store : TxStore) : Call BState
| index_DetachBlock (block : B) : Call unit
| SetBindingState (node : ptr) (st : option BState) : Call unit
| state_Commit (st : BState) : Call Hash
| applyBlockNode (node : ptr) : Call unit  (** with the submission of the evidence it finds *)
| attachBlock (block : B) : Call unit
| detachBlock (block : B) : Call unit
| notifyBlockConnected (block : B) : Call unit.

Class Env := {
  env_call {A} : Call A -> chain -> outcome chain_error A * X;
  (** reads of the database and of a state, which change nothing *)
  db_FetchBlockHeaderBySha : X -> Hash -> outcome chain_error BlockHeader;
  db_ExistsSha : X -> Hash -> bool;
  state_Hash : BState -> Hash;
}.
Context {EV : Env}.
Abbreviation cprog := (prog chain chain_error).

Definition call {A} (k : Call A) : cprog A := fun c =>
  let (o, x) := env_call k c in (o, set_ext c x).

(** A call whose error is ignored. *)
Definition try_call (k : Call unit) : cprog unit := ignore_err (call k).

Definition on_tree {A} (p : tree_prog A) : cprog A := zoom tree set_tree p.

(** * Looking nodes up *)

Definition blockExists (hash : Hash) (c : chain) : bool :=
  nodeExists hash (tree c) || db_ExistsSha (ext c) hash.

Definition loadBlockNode (hash : Hash) : cprog ptr :=
  c ← gets id;
  header ← lift (db_FetchBlockHeaderBySha (ext c) hash);
  p ← on_tree (new_node (set_InMainChain true (NewBlockNode header hash)));
  if nodeExists (bh_Previous header) (tree c) then on_tree (attachBlockNode p);; mret p
  else
    match rootNode (tree c) with
    | None => on_tree (setRootBlockNode p);; mret p
    | Some r =>
        root ← on_tree (load r);
        if bytes_Equal hash (node_Previous root) then on_tree (expandRootBlockNode p);; mret p
        else throw errExpandOrphanRootBlockNode
    end.

Definition getPrevNodeFromBlock (block : B) : cprog (option ptr) :=
  let prevHash := bh_Previous (cb_Header block) in
  if bytes_Equal prevHash zeroHash then mret None
  else
    c ← gets id;
    match getBlockNode prevHash (tree c) with
    | Some p => mret (Some p)
    | None => p ← loadBlockNode prevHash; mret (Some p)
    end.

Definition getPrevNodeFromNode (genesisHash : Hash) (p : ptr) : cprog (option ptr) :=
  node ← on_tree (load p);
  match Parent node with
  | Some q => mret (Some q)
  | None =>
      c ← gets id;
      match getBlockNode (node_Previous node) (tree c) with
      | Some q => mret (Some q)
      | None =>
          if bytes_Equal (node_Hash node) genesisHash then mret None
          else q ← loadBlockNode (node_Previous node); mret (Some q)
      end
  end.

(** ** The initial index *)

Definition minMemoryNodes : Z := 8000.

Fixpoint index_hashes (hashList : list Hash) : cprog unit :=
  match hashList with
  | [] => mret tt
  | hash :: rest => p ← loadBlockNode hash; on_tree (setBestBlockNode (Some p));; index_hashes rest
  end.

(** [range] is [FetchHeightRange] of the database; every round takes at least one block. *)
Fixpoint index_ranges (fuel : nat) (range : Z -> Z -> outcome chain_error (list Hash)) (start endHeight : Z) : cprog unit :=
  match fuel with
  | O => throw OutOfFuel
  | S fuel' =>
      if endHeight <? start then mret tt
      else
        hashList ← lift (range start (endHeight + 1));
        match hashList with
        | [] => mret tt
        | _ => index_hashes hashList;; index_ranges fuel' range (start + len hashList) endHeight
        end
  end.

(** [newest] is the height [NewestSha] of the database returns. *)
Definition generateInitialIndex (newest : outcome chain_error Z) (range : Z -> Z -> outcome chain_error (list Hash)) : cprog unit :=
  c ← gets id;
  fail_if (bool_decide (rootNode (tree c) <> None)) errIndexAlreadyInitialized;;
  endHeight ← lift newest;
  let startHeight := if endHeight >=? minMemoryNodes then endHeight - minMemoryNodes else 0 in
  index_ranges (S (S (Z.to_nat (endHeight - startHeight)))) range startHeight endHeight.

(** ** Median time *)

Definition medianTimeBlocks : nat := 11.

Fixpoint median_walk (genesisHash : Hash) (n : nat) (p : option ptr) : cprog (list Z) :=
  match n, p with
  | S n', Some p =>
      node ← on_tree (load p);
      q ← getPrevNodeFromNode genesisHash p;
      rest ← median_walk genesisHash n' q;
      mret (node_Timestamp node :: rest)
  | _, _ => mret []
  end.

(** [timeSorter] of blockchain/timesorter.go. *)
Definition not_after (t u : Z) : Prop := instant t <= instant u.
#[global] Instance not_after_dec : RelDecision not_after := fun t u => Z_le_dec (instant t) (instant u).

(** The timestamps are whole seconds, so that every sort gives the same list. *)
Definition calcPastMedianTime (genesisHash : Hash) (genesisTime : Z) (p : option ptr) : cprog Z :=
  match p with
  | None => mret genesisTime
  | Some _ =>
      timestamps ← median_walk genesisHash medianTimeBlocks p;
      lift (index (merge_sort not_after timestamps) (len timestamps / 2))
  end.

(** ** Checkpoints *)

Definition lookupBestChainNode (hash : Hash) : cprog (option BlockNode) :=
  c ← gets id;
  match getBlockNode hash (tree c) with
  | Some p => n ← on_tree (load p); mret (Some n)
  | None =>
      match db_FetchBlockHeaderBySha (ext c) hash with
      | Ret header => mret (Some (NewBlockNode header hash))
      | Err ErrDBNotFound => mret None
      | Err e => throw e
      | Panic => panic
      end
  end.

(** The search among the first [i] checkpoints, from the last one. *)
Fixpoint search_checkpoint (cps : list Checkpoint) (i : nat) : cprog (option BlockNode) :=
  match i with
  | O => modify (fun c => set_checkpoint c (Some 0%nat) (checkpointNode c));; mret None
  | S i' =>
      cp ← lift (index cps (Z.of_nat i'));
      o ← (fun c => match lookupBestChainNode (cp_Hash cp) c with (Err _, c') => (Err errCheckpointLookup, c') | r => r end);
      match o with
      | None => search_checkpoint cps i'
      | Some node =>
          modify (fun c => set_checkpoint c (if (i' <? length cps - 1)%nat then Some (S i') else nextCheckpoint c) (Some node));;
          mret (Some node)
      end
  end.

(** The last checkpoint with the hash of the one at [i]. *)
Definition checkpoint_index (cps : list Checkpoint) (hash : Hash) : option nat :=
  last (filter (fun i => (cp_Hash <$> cps !! i) = Some hash) (seq 0 (length cps))).

Definition BestBlockHeight : cprog Z :=
  c ← gets id;
  match bestNode (tree c) with
  | None => panic
  | Some b => n ← on_tree (load b); mret (node_Height n)
  end.

Definition findPreviousCheckpoint : cprog (option BlockNode) :=
  c ← gets id;
  let cps := checkpoints c in
  match cps with
  | [] => mret None
  | _ =>
      match nextCheckpoint c with
      | None =>
          match checkpointNode c with
          | None => search_checkpoint cps (length cps)
          | Some n => mret (Some n)
          end
      | Some i =>
          next ← lift (index cps (Z.of_nat i));
          best ← BestBlockHeight;
          if best <? cp_Height next then mret (checkpointNode c)
          else
            o ← (fun c => match lookupBestChainNode (cp_Hash next) c with (Err _, c') => (Err errCheckpointLookup, c') | r => r end);
            match o with
            | None => throw errCheckpointMissing
            | Some node =>
                modify (fun c => set_checkpoint c
                  (match checkpoint_index cps (cp_Hash next) with
                   | Some j => if (j <? length cps - 1)%nat then Some (S j) else None
                   | None => None
                   end) (Some node));;
                mret (Some node)
            end
      end
  end.

Definition HasCheckpoints (c : chain) : bool := negb (len (checkpoints c) =? 0).
Definition LatestCheckpoint (c : chain) : option Checkpoint := last (checkpoints c).

(** [checkpointsByHeight] maps a height to the last checkpoint of that height; the heights
    increase. *)
Definition verifyCheckpoint (height : Z) (hash : Hash) (c : chain) : bool :=
  match list_find (fun cp => cp_Height cp = height) (checkpoints c) with
  | Some (_, cp) => bytes_Equal (cp_Hash cp) hash
  | None => true
  end.

(** * Connecting and disconnecting blocks *)

Definition best_hash : cprog Hash :=
  c ← gets id;
  match bestNode (tree c) with
  | None => panic
  | Some b => n ← on_tree (load b); mret (node_Hash n)
  end.

(** The deferred rollback. *)
Definition with_rollback {A} (p : cprog A) : cprog A := fun c =>
  match p c with
  | (Err e, c') => (Err e, (call db_Rollback c').2)
  | r => r
  end.

(** The commit of the binding state of a block after the warm-up. *)
Definition commit_state (p : ptr) (header : BlockHeader) (st : BState) : cprog unit :=
  let root := state_Hash st in
  fail_if (negb (bytes_Equal root (bh_BindingRoot header))) ErrMismatchedBindingRoot;;
  call (SetBindingState p (Some st));;
  commitRoot ← (fun c => match call (state_Commit st) c with
                         | (Err e, c') => (Err e, (call (SetBindingState p None) c').2)
                         | r => r
                         end);
  if negb (bytes_Equal root commitRoot) then
    try_call (SetBindingState p None);; throw ErrMismatchedBindingRoot
  else mret tt.

(** What happens before the block is the end of the main chain. *)
Definition connect_store (p : ptr) (block : B) : cprog unit :=
  h ← best_hash;
  fail_if (negb (bytes_Equal (bh_Previous (cb_Header block)) h)) errConnectMainChain;;
  txInputStore ← call (fetchInputTransactions p block);
  call (db_SubmitBlock block);;
  bindingState ← call (ParentBindingState p);
  bindingState ← call (index_AttachBlock bindingState block txInputStore);
  node ← on_tree (load p);
  (if EnforceMASSIP0002WarmUp (node_Height node) then commit_state p (cb_Header block) bindingState else mret tt);;
  call (db_Commit (node_Hash node)).

Definition connectBlock (p : ptr) (block : B) : cprog unit :=
  with_rollback (connect_store p block);;
  on_tree (store p (set_InMainChain true));;
  on_tree (setBestBlockNode (Some p));;
  try_call (applyBlockNode p);;
  try_call (attachBlock block).

(** The file of the block cache takes any block. *)
Definition cache_addBlock (block : B) : cprog unit :=
  modify (fun c => set_cache c (<[cb_Hash block := block]> (blockCache c))).
Definition cache_getBlock (hash : Hash) : cprog B :=
  c ← gets id;
  match blockCache c !! hash with Some b => mret b | None => throw errBlockCacheNotExists end.

Definition disconnectBlock (p : ptr) (block : B) : cprog unit :=
  node ← on_tree (load p);
  h ← best_hash;
  fail_if (negb (bytes_Equal (node_Hash node) h)) errDisconnectMainChain;;
  call (db_DeleteBlock (node_Hash node));;
  call (index_DetachBlock block);;
  call (db_Commit (node_Hash node));;
  on_tree (store p (set_InMainChain false));;
  cache_addBlock block;;
  on_tree (setBestBlockNode (Parent node));;
  try_call (detachBlock block).

(** ** Reorganisation *)

Fixpoint ensure_cached (ps : list ptr) : cprog unit :=
  match ps with
  | [] => mret tt
  | p :: rest => n ← on_tree (load p); cache_getBlock (node_Hash n);; ensure_cached rest
  end.

(** The dry run over the blocks to attach. *)
Fixpoint check_attach (ps : list ptr) (st : option BState) : cprog unit :=
  match ps with
  | [] => mret tt
  | p :: rest =>
      n ← on_tree (load p);
      block ← cache_getBlock (node_Hash n);
      st ← (match st with Some st => mret st | None => call (ParentBindingState p) end);
      call (checkConnectBlock p block (Some st));;
      st' ← call (connectState st block);
      check_attach rest (Some st')
  end.

Fixpoint detach_all (ps : list ptr) : cprog unit :=
  match ps with
  | [] => mret tt
  | p :: rest =>
      n ← on_tree (load p);
      block ← call (db_FetchBlockBySha (node_Hash n));
      disconnectBlock p block;;
      detach_all rest
  end.

Fixpoint attach_all (ps : list ptr) : cprog unit :=
  match ps with
  | [] => mret tt
  | p :: rest =>
      n ← on_tree (load p);
      block ← cache_getBlock (node_Hash n);
      connectBlock p block;;
      attach_all rest
  end.

(** The final log reads the first node of each list. *)
Definition reorganizeChain (genesisHash : Hash) (detachNodes attachNodes : list ptr) : cprog unit :=
  ensure_cached attachNodes;;
  check_attach attachNodes None;;
  detach_all detachNodes;;
  attach_all attachNodes;;
  match attachNodes with
  | [] => panic
  | first :: _ =>
      getPrevNodeFromNode genesisHash first;;
      match detachNodes with [] => panic | _ => mret tt end
  end.

Definition notify (block : B) : cprog unit :=
  if cb_IsImport block then mret tt else call (notifyBlockConnected block).

Definition connectBestChain (genesisHash : Hash) (p : ptr) (block : B) : cprog unit :=
  node ← on_tree (load p);
  parent ← (match Parent node with None => panic | Some q => on_tree (load q) end);
  h ← best_hash;
  if bytes_Equal (node_Hash parent) h then
    call (checkConnectBlock p block None);;
    connectBlock p block;;
    on_tree (attachBlockNode p);;
    notify block
  else
    cache_addBlock block;;
    on_tree (store p (set_InMainChain false));;
    on_tree (attachBlockNode p);;
    ok ← on_tree (isPotentialNewBestChain (Some p));
    if negb ok then try_call (applyBlockNode p)
    else
      '(detachNodes, attachNodes) ← on_tree (getReorganizeNodes p);
      reorganizeChain genesisHash detachNodes attachNodes;;
      notify block.

Definition maybeAcceptBlock (genesisHash : Hash) (block : B) : cprog unit :=
  o ← getPrevNodeFromBlock block;
  match o with
  | None => throw errPrevNodeNotFound
  | Some prevNode =>
      call (checkBlockContext block prevNode);;
      newNode ← on_tree (new_node (set_Parent (Some prevNode) (NewBlockNode (cb_Header block) (cb_Hash block))));
      connectBestChain genesisHash newNode block
  end.

(** * Processing blocks *)

Definition errCache_Add (hash : Hash) (e : chain_error) : cprog unit :=
  modify (fun c => set_errs c (lru_Add hash e (errCache c))).

Definition errCache_Get (hash : Hash) : cprog (option chain_error) := fun c =>
  let (o, e) := lru_Get hash (errCache c) in (Ret o, set_errs c e).

(** The error of [p] is remembered under [hash] and returned. *)
Definition remember {A} (hash : Hash) (p : cprog A) : cprog A := fun c =>
  match p c with
  | (Err e, c') => (Err e, (errCache_Add hash e c').2)
  | r => r
  end.

Definition on_orphans {A} (p : prog (OrphanBlockPool B) no_error A) : cprog A := fun c =>
  let (o, ors) := p (orphanPool c) in
  (match o with Ret a => Ret a | Err e => match e with end | Panic => Panic end, set_orphans c ors).

(** The loop over the orphans of one block; [rec] is the recursive call. *)
Fixpoint orphan_loop (genesisHash : Hash) (rec : Hash -> cprog unit) (orphans : list (orphanBlock B)) : cprog unit :=
  match orphans with
  | [] => mret tt
  | orphan :: rest =>
      let block := ob_block orphan in
      remember (cb_Hash block) (maybeAcceptBlock genesisHash block);;
      on_orphans (removeOrphanBlock orphan);;
      rec (cb_Hash block);;
      orphan_loop genesisHash rec rest
  end.

(** [fuel] bounds the depth of the recursion; every level takes a block out of the pool. *)
Fixpoint processOrphans (genesisHash : Hash) (fuel : nat) (hash : Hash) : cprog unit :=
  match fuel with
  | O => throw OutOfFuel
  | S fuel' =>
      orphans ← gets (fun c => getOrphansByPrevious hash (orphanPool c));
      orphan_loop genesisHash (processOrphans genesisHash fuel') orphans
  end.

(** [now] is the clock and [items] the order of the orphan pool, for the case that the block is
    an orphan; the result tells whether it is. *)
Definition processBlock (genesisHash : Hash) (now : Z) (items : list (orphanBlock B)) (block : B) : cprog bool :=
  let blockHash := cb_Hash block in
  c ← gets id;
  if blockExists blockHash c then mret false
  else if isOrphanInPool blockHash (orphanPool c) then mret true
  else
    o ← errCache_Get blockHash;
    match o with
    | Some e => throw e
    | None =>
        remember blockHash (call (checkBlockSanity block));;
        let header := cb_Header block in
        checkpoint ← findPreviousCheckpoint;
        (match checkpoint with
         | Some n => fail_if (instant (bh_Timestamp header) <? instant (node_Timestamp n)) ErrCheckpointTimeTooOld
         | None => mret tt
         end);;
        let prevHash := bh_Previous header in
        c ← gets id;
        if negb (bytes_Equal prevHash zeroHash) && negb (blockExists prevHash c) then
          on_orphans (addOrphanBlock now items block);; mret true
        else
          remember blockHash (maybeAcceptBlock genesisHash block);;
          c ← gets id;
          processOrphans genesisHash (S (size (entryIndex (block_pool (orphanPool c))))) blockHash;;
          mret false
    end.
End chain.
