(* ===== verification/ChainTree.v ===== *)
(** What the operations of the block tree do to its invariant. *)

From S2P Require Import Prelude Hashes Wire Block OrphanPool BlockTree BlockTreeSpec.

(** * Updates that leave the shape alone *)

(** The fields the invariant reads. *)
Definition same_node (n n' : BlockNode) : Prop :=
  Parent n' = Parent n /\ node_Hash n' = node_Hash n /\ blockHeader n' = blockHeader n /\ InMainChain n' = InMainChain n.

(** [t'] has every node of [t], up to fields the invariant does not read. *)
Definition node_ext (t t' : BlockTree) : Prop :=
  forall p n, nodes t !! p = Some n -> exists n', nodes t' !! p = Some n' /\ same_node n n'.

Lemma node_ext_refl t : node_ext t t.
Proof. intros p n Hn. exists n. by repeat split. Qed.

Lemma path_node_ext t t' p l : node_ext t t' -> path t p l -> path t' p l.
Proof. intros He Hp. apply (path_ext t); [done|]. intros q n _ Hn. destruct (He q n Hn) as (n' & Hn' & Hpar & _). eauto. Qed.

Lemma lineage_ext t t' best : node_ext t t' -> (exists l, path t best l) -> lineage t' (Some best) = lineage t (Some best).
Proof. intros He [l Hl]. rewrite (lineage_path _ _ _ Hl). apply lineage_path. eauto using path_node_ext. Qed.

(** New nodes outside the index, sums of capacity and lists of children do not matter. *)
Lemma tree_ok_ext t t' best :
  tree_ok t best -> node_ext t t' -> tree_index t' = tree_index t -> rootNode t' = rootNode t -> bestNode t' = bestNode t ->
  tree_ok t' best.
Proof.
  intros Hok He Hi Hr Hb. pose proof (lineage_ext _ _ _ He (best_path _ _ Hok)) as Hlin.
  assert (forall h p n', tree_index t !! h = Some p -> nodes t' !! p = Some n' -> exists n, nodes t !! p = Some n /\ same_node n n') as Hback.
  { intros h p n' Hh Hn'. destruct (tok_index _ _ Hok _ _ Hh) as (n & Hn & _). destruct (He _ _ Hn) as (n'' & Hn'' & Hs).
    exists n. split; [done|]. congruence. }
  split; rewrite ?Hi, ?Hr, ?Hb, ?Hlin.
  - intros h p Hh. destruct (tok_index _ _ Hok _ _ Hh) as (n & Hn & <-). destruct (He _ _ Hn) as (n' & Hn' & _ & Hhash & _). eauto.
  - intros h p n' q Hh Hn' Hpar. destruct (Hback _ _ _ Hh Hn') as (n & Hn & Hp & _ & Hhd & _).
    unfold node_Previous. rewrite Hhd. eapply (tok_parent _ _ Hok); eauto. congruence.
  - intros h p Hh. destruct (tok_path _ _ Hok _ _ Hh) as [l Hl]. eauto using path_node_ext.
  - destruct (tok_root _ _ Hok) as (r & Hr' & (n & Hn & Hh & Hpar) & Hone). exists r. split; [done|].
    destruct (He _ _ Hn) as (n' & Hn' & Hp & Hhash & _). split; [exists n'; rewrite Hhash; split_and!; [done|done|congruence]|].
    intros h p np' Hh' Hnp' Hpar'. destruct (Hback _ _ _ Hh' Hnp') as (np & Hnp & Hp' & _). eapply Hone; eauto. congruence.
  - destruct (tok_best _ _ Hok) as (Hb' & n & Hn & Hh). split; [done|]. destruct (He _ _ Hn) as (n' & Hn' & _ & Hhash & _).
    exists n'. by rewrite Hhash.
  - intros h p n' Hh Hn'. destruct (Hback _ _ _ Hh Hn') as (n & Hn & _ & _ & _ & Hm). rewrite Hm. by apply (tok_main _ _ Hok h).
Qed.

Lemma node_ext_insert t p n : nodes t !! p = None -> node_ext t (set_nodes <[p := n]> t).
Proof. intros Hf q nq Hq. exists nq. cbn. rewrite lookup_insert_ne by congruence. by repeat split. Qed.

Lemma node_ext_update t p n n' : nodes t !! p = Some n -> same_node n n' -> node_ext t (set_nodes <[p := n']> t).
Proof.
  intros Hp Hs q nq Hq. cbn. rewrite lookup_insert. case_decide; subst; [|exists nq; by repeat split].
  assert (nq = n) as -> by congruence. eauto.
Qed.

Lemma same_node_trans a b c : same_node a b -> same_node b c -> same_node a c.
Proof. unfold same_node. intuition congruence. Qed.

Lemma node_ext_trans t1 t2 t3 : node_ext t1 t2 -> node_ext t2 t3 -> node_ext t1 t3.
Proof.
  intros H12 H23 p n Hn. destruct (H12 _ _ Hn) as (n' & Hn' & Hs). destruct (H23 _ _ Hn') as (n'' & Hn'' & Hs').
  exists n''. eauto using same_node_trans.
Qed.

Lemma fresh_node t : nodes t !! fresh (dom (nodes t)) = None.
Proof. apply not_elem_of_dom, is_fresh. Qed.

(** * Adding a leaf *)

(** The tree with the node [n] at [p], not in it before, as a child of [q]. *)
Definition add_leaf (t : BlockTree) (p : ptr) (n : BlockNode) (best : ptr) (ch : gmap Hash (list ptr)) : BlockTree :=
  mkTree (<[p := n]> (nodes t)) (rootNode t) (Some best) (<[node_Hash n := p]> (tree_index t)) ch.

Section leaf.
Context (t : BlockTree) (best p q : ptr) (n : BlockNode) (ch : gmap Hash (list ptr)).
Context (Hok : tree_ok t best) (Hnew : forall h, tree_index t !! h <> Some p).
Context (Hhash : tree_index t !! node_Hash n = None) (Hparent : Parent n = Some q).
Context (Hprev : tree_index t !! node_Previous n = Some q).

Lemma leaf_path b r l : tree_index t !! r = Some b -> path t b l -> path (add_leaf t p n best ch) b l.
Proof.
  intros Hi Hp. apply (path_ext t); [done|]. intros a na Ha Hna. cbn.
  pose proof (path_indexed _ _ Hok _ _ _ _ _ Hi Hp Ha Hna) as Hia. exists na. rewrite lookup_insert_ne; [done|].
  intros <-. by eapply Hnew.
Qed.

Lemma leaf_best_path b l : path t best l -> path (add_leaf t p n b ch) best l.
Proof.
  destruct (tok_best _ _ Hok) as (_ & nb & _ & Hib). intros Hl.
  pose proof (leaf_path _ _ _ Hib Hl) as Hp. eapply (path_ext _ _ _ _ Hp). intros a na _ Hna. exists na. done.
Qed.

Lemma leaf_own_path b l : path t q l -> path (add_leaf t p n b ch) p (p :: l).
Proof.
  intros Hl. pose proof (leaf_path _ _ _ Hprev Hl) as Hq. eapply path_step; [apply lookup_insert_eq|done|].
  eapply (path_ext _ _ _ _ Hq). intros a na _ Hna. exists na. done.
Qed.

Lemma leaf_common b :
  (InMainChain n = true <-> p ∈ lineage (add_leaf t p n b ch) (Some b)) ->
  (forall h a na, tree_index t !! h = Some a -> nodes t !! a = Some na ->
     (InMainChain na = true <-> a ∈ lineage (add_leaf t p n b ch) (Some b))) ->
  (b = best \/ b = p) -> tree_ok (add_leaf t p n b ch) b.
Proof.
  intros Hm Hms Hb. assert (forall h a, tree_index t !! h = Some a -> a <> p) as Hnp by (intros h a Ha ->; by eapply Hnew).
  assert (forall h a l, tree_index t !! h = Some a -> path t a l -> path (add_leaf t p n b ch) a l) as Hpath.
  { intros h a l Ha Hl. pose proof (leaf_path _ _ _ Ha Hl) as Hp. eapply (path_ext _ _ _ _ Hp). intros x nx _ Hx. exists nx. done. }
  split.
  - intros h a. cbn. rewrite lookup_insert_Some. intros [[<- <-]|[Hne Ha]].
    + exists n. by rewrite lookup_insert_eq.
    + destruct (tok_index _ _ Hok _ _ Ha) as (na & Hna & ?). exists na. rewrite lookup_insert_ne by (by symmetry; eauto). done.
  - intros h a na x. cbn. rewrite !lookup_insert_Some. intros [[<- <-]|[Hne Ha]] Hna Hpar.
    + destruct Hna as [[_ <-]|[? _]]; [|done]. right. split; [|congruence]. intros Heq. congruence.
    + destruct Hna as [[<- _]|[_ Hna]]; [by destruct (Hnp _ _ Ha)|].
      right. split; [|by eapply (tok_parent _ _ Hok); eauto].
      intros Heq. pose proof (tok_parent _ _ Hok _ _ _ _ Ha Hna Hpar) as Hi. congruence.
  - intros h a. cbn. rewrite lookup_insert_Some. intros [[<- <-]|[Hne Ha]].
    + destruct (tok_path _ _ Hok _ _ Hprev) as [l Hl]. exists (p :: l). by apply leaf_own_path.
    + destruct (tok_path _ _ Hok _ _ Ha) as [l Hl]. eauto.
  - destruct (tok_root _ _ Hok) as (r & Hr & (nr & Hnr & Hir & Hpr) & Hone). exists r. split; [done|]. split.
    + exists nr. cbn. rewrite !lookup_insert_ne; [done|congruence|]. intros <-. by eapply Hnp.
    + intros h a na. cbn. rewrite !lookup_insert_Some. intros [[<- <-]|[Hne Ha]] Hna Hpar.
      * destruct Hna as [[_ <-]|[? _]]; [congruence|done].
      * destruct Hna as [[<- _]|[_ Hna]]; [by destruct (Hnp _ _ Ha)|eauto].
  - split; [done|]. destruct (tok_best _ _ Hok) as (_ & nb & Hnb & Hib). destruct Hb as [-> | ->].
    + exists nb. cbn. rewrite !lookup_insert_ne; [done|congruence|]. intros <-. by eapply Hnp.
    + exists n. cbn. by rewrite !lookup_insert_eq.
  - intros h a na. cbn. rewrite lookup_insert_Some. intros [[<- <-]|[Hne Ha]].
    + rewrite lookup_insert_eq. intros [= <-]. done.
    + rewrite lookup_insert_ne by (by symmetry; eauto). intros Hna. eauto.
Qed.

(** A side chain gains a block. *)
Lemma tree_side : InMainChain n = false -> tree_ok (add_leaf t p n best ch) best.
Proof.
  intros Hm. destruct (best_path _ _ Hok) as [l Hl]. pose proof (leaf_best_path best _ Hl) as Hl'.
  apply leaf_common; [| |by left]; rewrite (lineage_path _ _ _ Hl').
  - rewrite Hm. split; [done|]. intros Hin. destruct (tok_best _ _ Hok) as (_ & nb & _ & Hib).
    destruct (path_mem _ _ _ _ Hl Hin) as (l1 & l2 & -> & Hp). destruct (path_node _ _ _ Hp) as [np Hnp].
    exfalso. eapply Hnew. eapply (path_indexed _ _ Hok _ _ _ p); eauto.
  - intros h a na Ha Hna. rewrite <- (lineage_path _ _ _ Hl). by apply (tok_main _ _ Hok h).
Qed.

(** The main chain gains a block. *)
Lemma tree_extend : q = best -> InMainChain n = true -> tree_ok (add_leaf t p n p ch) p.
Proof.
  intros Hq Hm. destruct (best_path _ _ Hok) as [l Hl].
  assert (path t q l) as Hlq by by rewrite Hq. pose proof (leaf_own_path p _ Hlq) as Hl'.
  apply leaf_common; [| |by right]; rewrite (lineage_path _ _ _ Hl').
  - rewrite Hm. split; [|done]. intros _. apply elem_of_cons. by left.
  - intros h a na Ha Hna. rewrite (tok_main _ _ Hok h a na Ha Hna), (lineage_path _ _ _ Hl), elem_of_cons.
    split; [by right|]. intros [-> |]; [by destruct (Hnew h)|done].
Qed.
End leaf.

(** * Moving the tip *)

(** The tree with the flag of [p] set to [b] and the tip at [tip]. *)
Definition move_tip (t : BlockTree) (p : ptr) (n : BlockNode) (b : bool) (tip : option ptr) : BlockTree :=
  mkTree (<[p := set_InMainChain b n]> (nodes t)) (rootNode t) tip (tree_index t) (children t).

Section tip.
Context (t : BlockTree) (best p : ptr) (n : BlockNode) (b : bool).
Context (Hok : tree_ok t best) (Hn : nodes t !! p = Some n).

Lemma move_node a na' tip :
  nodes (move_tip t p n b tip) !! a = Some na' ->
  exists na, nodes t !! a = Some na /\ Parent na' = Parent na /\ node_Hash na' = node_Hash na /\ blockHeader na' = blockHeader na /\
    InMainChain na' = if decide (a = p) then b else InMainChain na.
Proof.
  cbn. rewrite lookup_insert_Some. intros [[<- <-]|[Hne Ha]].
  - exists n. rewrite decide_True by done. done.
  - exists na'. rewrite decide_False by done. done.
Qed.

Lemma move_node_fwd a na tip :
  nodes t !! a = Some na -> exists na', nodes (move_tip t p n b tip) !! a = Some na' /\
    Parent na' = Parent na /\ node_Hash na' = node_Hash na /\ blockHeader na' = blockHeader na.
Proof.
  intros Ha. cbn. rewrite lookup_insert. case_decide; subst; [|by exists na].
  assert (na = n) as -> by congruence. by exists (set_InMainChain b n).
Qed.

Lemma move_path a l tip : path t a l -> path (move_tip t p n b tip) a l.
Proof.
  intros Hp. apply (path_ext t); [done|]. intros x nx _ Hx.
  destruct (move_node_fwd x nx tip Hx) as (nx' & Hx' & Hpar & _). eauto.
Qed.

Lemma move_ok tip ntip l :
  nodes t !! tip = Some ntip -> tree_index t !! node_Hash ntip = Some tip -> path t tip l ->
  (forall h a na, tree_index t !! h = Some a -> nodes t !! a = Some na ->
     ((if decide (a = p) then b else InMainChain na) = true <-> a ∈ l)) ->
  tree_ok (move_tip t p n b (Some tip)) tip.
Proof.
  intros Htip Hitip Hl Hmain. split.
  - intros h a Ha. destruct (tok_index _ _ Hok _ _ Ha) as (na & Hna & <-).
    destruct (move_node_fwd a na (Some tip) Hna) as (na' & ? & _ & ? & _). eauto.
  - intros h a na' x Ha Hna' Hpar. destruct (move_node _ _ _ Hna') as (na & Hna & Hp & _ & Hhd & _).
    unfold node_Previous. rewrite Hhd. eapply (tok_parent _ _ Hok); eauto. congruence.
  - intros h a Ha. destruct (tok_path _ _ Hok _ _ Ha) as [la Hla]. eauto using move_path.
  - destruct (tok_root _ _ Hok) as (r & Hr & (nr & Hnr & Hir & Hpr) & Hone). exists r. split; [done|]. split.
    + destruct (move_node_fwd r nr (Some tip) Hnr) as (nr' & Hnr' & Hp & Hh & _).
      exists nr'. rewrite Hh. split_and!; [done|done|congruence].
    + intros h a na' Ha Hna' Hpar. destruct (move_node _ _ _ Hna') as (na & Hna & Hp & _). eapply Hone; eauto. congruence.
  - split; [done|]. destruct (move_node_fwd tip ntip (Some tip) Htip) as (n' & Hn' & _ & Hh & _). exists n'. by rewrite Hh.
  - intros h a na' Ha Hna'. destruct (move_node _ _ _ Hna') as (na & Hna & _ & _ & _ & ->).
    rewrite (lineage_path _ _ _ (move_path _ _ (Some tip) Hl)). eauto.
Qed.
End tip.

(** A side block on top of the tip becomes the tip. *)
Lemma tree_connect t best p n h :
  tree_ok t best -> tree_index t !! h = Some p -> nodes t !! p = Some n -> Parent n = Some best ->
  tree_ok (move_tip t p n true (Some p)) p.
Proof.
  intros Hok Hi Hn Hpar. destruct (best_path _ _ Hok) as [l Hl].
  apply (move_ok t best p n true Hok Hn p n (p :: l)); [done| |by eapply path_step|].
  { by rewrite <- (index_inj _ _ Hok _ _ _ Hi Hn). }
  intros h' a na Ha Hna. rewrite elem_of_cons. case_decide as Hd; [naive_solver|].
  rewrite (tok_main _ _ Hok _ _ _ Ha Hna), (lineage_path _ _ _ Hl). naive_solver.
Qed.

(** The parent of the tip becomes the tip. *)
Lemma tree_disconnect t best n q :
  tree_ok t best -> nodes t !! best = Some n -> Parent n = Some q ->
  tree_ok (move_tip t best n false (Some q)) q.
Proof.
  intros Hok Hn Hpar. destruct (tok_best _ _ Hok) as (_ & n' & Hn' & Hib). assert (n' = n) as -> by congruence.
  pose proof (tok_parent _ _ Hok _ _ _ _ Hib Hn Hpar) as Hiq. destruct (tok_index _ _ Hok _ _ Hiq) as (nq & Hnq & Hhq).
  destruct (tok_path _ _ Hok _ _ Hiq) as [l Hl]. pose proof (path_step _ _ _ _ _ Hn Hpar Hl) as Hb.
  apply (move_ok t best best n false Hok Hn q nq l); [done|by rewrite Hhq|done|].
  intros h a na Ha Hna. pose proof (tok_main _ _ Hok _ _ _ Ha Hna) as Hm. rewrite (lineage_path _ _ _ Hb), elem_of_cons in Hm.
  case_decide as Hd; [|naive_solver]. subst a. split; [done|]. intros Hin.
  apply path_nodup, NoDup_cons in Hb as [Hnot _]. done.
Qed.

(** * A root below the root *)

(** The tree with [p] as the parent of the old root. *)
Section root.
Context (t t' : BlockTree) (best p r : ptr) (n nr : BlockNode).
Context (Hok : tree_ok t best) (Hroot : rootNode t = Some r) (Hnr : nodes t !! r = Some nr).
Context (Hnew : forall h, tree_index t !! h <> Some p) (Hn : Parent n = None) (Hmain : InMainChain n = true).
Context (Hprev : node_Previous nr = node_Hash n) (Hfresh : tree_index t !! node_Hash n = None).
Context (Hp' : exists n', nodes t' !! p = Some n' /\ same_node n n').
Context (Hr' : exists nr', nodes t' !! r = Some nr' /\ same_node (set_Parent (Some p) nr) nr').
Context (Hothers : forall h a na, a <> r -> tree_index t !! h = Some a -> nodes t !! a = Some na ->
                   exists na', nodes t' !! a = Some na' /\ same_node na na').
Context (Hi' : tree_index t' = <[node_Hash n := p]> (tree_index t)) (Hroot' : rootNode t' = Some p) (Hbest' : bestNode t' = bestNode t).

Lemma expand_path h a l : tree_index t !! h = Some a -> path t a l -> path t' a (l ++ [p]).
Proof.
  intros Ha Hl. revert h Ha. induction Hl as [a na Hna Hpar|a na x l Hna Hpar Hl IH]; intros h Ha.
  - destruct (tok_root _ _ Hok) as (r' & Hr & _ & Hone). assert (r' = r) as -> by congruence.
    pose proof (Hone _ _ _ Ha Hna Hpar) as ->. destruct Hr' as (nr' & Hnr' & Hs & _). destruct Hp' as (n' & Hn' & Hs' & _).
    eapply path_step; [done|by rewrite Hs|]. eapply path_root; [done|congruence].
  - assert (a <> r) as Hne.
    { intros ->. destruct (tok_root _ _ Hok) as (r' & Hr & (nr0 & Hnr0 & _ & Hp0) & _). congruence. }
    destruct (Hothers _ _ _ Hne Ha Hna) as (na' & Hna' & Hs & _). cbn [app].
    eapply path_step; [done|by rewrite Hs|]. eapply IH, tok_parent; eauto.
Qed.

Lemma old_node h a na' :
  tree_index t !! h = Some a -> nodes t' !! a = Some na' ->
  exists na, nodes t !! a = Some na /\ Parent na' = (if decide (a = r) then Some p else Parent na) /\
    node_Hash na' = node_Hash na /\ blockHeader na' = blockHeader na /\ InMainChain na' = InMainChain na.
Proof.
  intros Ha Hna'. destruct (decide (a = r)) as [->|Hne].
  - destruct Hr' as (nr' & Hnr' & Hpar & Hh & Hhd & Hm). assert (na' = nr') as -> by congruence. exists nr. done.
  - destruct (tok_index _ _ Hok _ _ Ha) as (na & Hna & _). destruct (Hothers _ _ _ Hne Ha Hna) as (na'' & Hna'' & ? & ? & ? & ?).
    assert (na'' = na') as -> by congruence. exists na. done.
Qed.

Lemma tree_expand : tree_ok t' best.
Proof.
  destruct Hp' as (n' & Hn' & Hpar' & Hh' & Hhd' & Hm').
  destruct (best_path _ _ Hok) as [l Hl]. destruct (tok_best _ _ Hok) as (Hb & nb & Hnb & Hib).
  pose proof (lineage_path _ _ _ (expand_path _ _ _ Hib Hl)) as Hlin.
  assert (forall h a na', tree_index t !! h = Some a -> nodes t' !! a = Some na' -> a <> p) as Hnp by (intros h a na' Ha _ ->; by eapply Hnew).
  assert (forall h a, tree_index t !! h = Some a -> exists na', nodes t' !! a = Some na') as Hex.
  { intros h a Ha. destruct (decide (a = r)) as [->|Hne]; [destruct Hr' as (? & ? & _); eauto|].
    destruct (tok_index _ _ Hok _ _ Ha) as (na & Hna & _). destruct (Hothers _ _ _ Hne Ha Hna) as (? & ? & _); eauto. }
  split; rewrite ?Hi', ?Hroot', ?Hbest'.
  - intros h a. rewrite lookup_insert_Some. intros [[<- <-]|[_ Ha]]; [eauto|].
    destruct (Hex _ _ Ha) as [na' Hna']. exists na'. split; [done|].
    destruct (old_node _ _ _ Ha Hna') as (na & Hna & _ & -> & _). symmetry. eapply index_inj; eauto.
  - intros h a na' x. rewrite lookup_insert_Some. intros [[<- <-]|[_ Ha]] Hna' Hpar; [congruence|].
    destruct (old_node _ _ _ Ha Hna') as (na & Hna & Hp & _ & Hhd & _). unfold node_Previous. rewrite Hhd.
    case_decide as Hd.
    + subst a. assert (na = nr) as -> by congruence. fold (node_Previous nr). rewrite Hprev, lookup_insert_eq. congruence.
    + rewrite Hp in Hpar. pose proof (tok_parent _ _ Hok _ _ _ _ Ha Hna Hpar) as Hx. fold (node_Previous na).
      rewrite lookup_insert_ne by congruence. done.
  - intros h a. rewrite lookup_insert_Some. intros [[<- <-]|[_ Ha]]; [exists [p]; eapply path_root; [done|congruence]|].
    destruct (tok_path _ _ Hok _ _ Ha) as [la Hla]. eauto using expand_path.
  - exists p. split; [done|]. split; [exists n'; rewrite Hh', lookup_insert_eq; split_and!; [done|done|congruence]|].
    intros h a na'. rewrite lookup_insert_Some. intros [[_ <-]|[_ Ha]] Hna' Hpar; [done|]. exfalso.
    destruct (old_node _ _ _ Ha Hna') as (na & Hna & Hp & _). case_decide as Hd; [congruence|].
    destruct (tok_root _ _ Hok) as (r' & Hr & _ & Hone). apply Hd. rewrite (Hone _ _ _ Ha Hna) by congruence. congruence.
  - split; [done|]. destruct (Hex _ _ Hib) as [nb' Hnb']. exists nb'. split; [done|].
    destruct (old_node _ _ _ Hib Hnb') as (nb0 & Hnb0 & _ & -> & _). assert (nb0 = nb) as -> by congruence.
    rewrite lookup_insert_ne by congruence. done.
  - intros h a na'. rewrite Hlin, elem_of_app, list_elem_of_singleton, lookup_insert_Some. intros [[_ <-]|[_ Ha]] Hna'.
    + assert (na' = n') as -> by congruence. rewrite Hm', Hmain. tauto.
    + destruct (old_node _ _ _ Ha Hna') as (na & Hna & _ & _ & _ & ->).
      rewrite (tok_main _ _ Hok _ _ _ Ha Hna), (lineage_path _ _ _ Hl). split; [by left|]. intros [?|?]; [done|].
      by destruct (Hnp _ _ _ Ha Hna').
Qed.
End root.
