(* ===== verification/ChainSpec.v ===== *)
(** Chain processing keeps the block tree, the main chain and the orphan pool consistent. *)

From S2P Require Import Prelude Hashes Wire Amount Forks Poc Block OrphanPool OrphanPoolSpec BlockTree BlockTreeSpec ChainTree Chain.

(** * Conditions on runs *)

(** [wp p Q R s]: the run of [p] from [s] ends in [Q] when it returns and in [R] when it fails.
    A panic ends the process, so it is not constrained. *)
Definition wp {S E A} (p : prog S E A) (Q : A -> S -> Prop) (R : E -> S -> Prop) (s : S) : Prop :=
  match p s with (Ret a, s') => Q a s' | (Err e, s') => R e s' | (Panic, _) => True end.

Section wp.
Context {S E A B : Type}.
Implicit Types (p : prog S E A) (s : S).

Lemma wp_bind p (f : A -> prog S E B) Q R s : wp p (fun a => wp (f a) Q R) R s -> wp (p ≫= f) Q R s.
Proof. unfold wp, mbind, prog_bind. by destruct (p s) as [[a|e|] s']. Qed.

Lemma wp_mono p (Q Q' : A -> S -> Prop) (R R' : E -> S -> Prop) s :
  wp p Q R s -> (forall a s', Q a s' -> Q' a s') -> (forall e s', R e s' -> R' e s') -> wp p Q' R' s.
Proof. unfold wp. destruct (p s) as [[a|e|] s']; auto. Qed.

Lemma wp_gets (g : S -> A) (Q : A -> S -> Prop) (R : E -> S -> Prop) s : Q (g s) s -> wp (gets g) Q R s.
Proof. done. Qed.
Lemma wp_mret (a : A) (Q : A -> S -> Prop) (R : E -> S -> Prop) s : Q a s -> wp (mret a) Q R s.
Proof. done. Qed.
Lemma wp_throw (e : E) (Q : A -> S -> Prop) (R : E -> S -> Prop) s : R e s -> wp (throw e) Q R s.
Proof. done. Qed.
Lemma wp_panic (Q : A -> S -> Prop) (R : E -> S -> Prop) s : wp panic Q R s.
Proof. done. Qed.
Lemma wp_modify (g : S -> S) (Q : unit -> S -> Prop) (R : E -> S -> Prop) s : Q tt (g s) -> wp (modify g) Q R s.
Proof. done. Qed.
Lemma wp_lift (o : outcome E A) (Q : A -> S -> Prop) (R : E -> S -> Prop) s :
  (forall a, o = Ret a -> Q a s) -> (forall e, o = Err e -> R e s) -> wp (lift o) Q R s.
Proof. unfold wp, lift. destruct o; auto. Qed.
Lemma wp_fail_if b (e : E) (Q : unit -> S -> Prop) (R : E -> S -> Prop) s :
  (b = false -> Q tt s) -> (b = true -> R e s) -> wp (fail_if b e) Q R s.
Proof. unfold wp, fail_if. destruct b; cbn; auto. Qed.
Lemma wp_run p (Q : A -> S -> Prop) (R : E -> S -> Prop) s o s' :
  p s = (o, s') -> wp p Q R s -> match o with Ret a => Q a s' | Err e => R e s' | Panic => True end.
Proof. unfold wp. by intros ->. Qed.
End wp.

(** * The invariant of the chain *)

Section invariant.
Context {B X C : Type} `{!ChainBlock B} `{!LruCache C} {HF : HashFunctions} {CL : ChiaLib}.
Context {TxStore BState : Type} {EV : Env (B := B) (X := X) (C := C) (TxStore := TxStore) (BState := BState)}.
Abbreviation chain := (Chain B X C).
Implicit Types (c : chain) (h : Hash) (b : B) (p q : ptr) (n : BlockNode).

Definition commits {A} (k : Call (B := B) (TxStore := TxStore) (BState := BState) A) : option Hash :=
  match k with db_Commit h => Some h | _ => None end.

(** What the chain relies on: blocks with one hash have one parent, a header is in the
    database only after the commit of its block, and the sanity check refuses a target that is
    not positive. *)
Class EnvLaws := {
  prev_determined b b' : cb_Hash b = cb_Hash b' -> bh_Previous (cb_Header b) = bh_Previous (cb_Header b');
  call_fetch {A} (k : Call A) c o x h hdr :
    env_call k c = (o, x) -> db_FetchBlockHeaderBySha x h = Ret hdr ->
    (exists hdr', db_FetchBlockHeaderBySha (ext c) h = Ret hdr') \/ (commits k = Some h /\ is_Ret o);
  sanity_target b c x : env_call (checkBlockSanity b) c = (Ret tt, x) -> 0 < bh_Target (cb_Header b);
}.

Abbreviation idx c h := (tree_index (tree c) !! h).
Abbreviation nod c p := (nodes (tree c) !! p).
Abbreviation fetched c h := (exists hdr, db_FetchBlockHeaderBySha (ext c) h = Ret hdr).

(** The tree is well formed, its nodes stand for blocks, blocks are cached under their hash,
    the orphan pool is consistent, no orphan is the root, and all have positive targets. *)
Record struct_ok c : Prop := {
  cok_tree : exists best, tree_ok (tree c) best;
  cok_block h p n : idx c h = Some p -> nod c p = Some n -> exists b, cb_Hash b = h /\ cb_Header b = blockHeader n;
  cok_cache h b : blockCache c !! h = Some b -> cb_Hash b = h;
  cok_pool : blocks_ok (orphanPool c);
  cok_orphan id o p n : entryIndex (block_pool (orphanPool c)) !! id = Some o ->
    idx c id = Some p -> nod c p = Some n -> Parent n <> None;
  cok_target id o : entryIndex (block_pool (orphanPool c)) !! id = Some o -> 0 < bh_Target (cb_Header (ob_block o));
}.

(** The memory covers the database except for the blocks in [ex]. *)
Definition mem_ok (ex : list Hash) c : Prop := forall h, fetched c h -> is_Some (idx c h) \/ h ∈ ex.

Definition chain_ok c : Prop := struct_ok c /\ mem_ok [] c.

Context {EL : EnvLaws}.

(** Calls change the state of other components only. *)
Lemma wp_call {A} (k : Call A) (Q : A -> chain -> Prop) (R : chain_error -> chain -> Prop) c :
  (forall a x, env_call k c = (Ret a, x) -> Q a (set_ext c x)) ->
  (forall e x, env_call k c = (Err e, x) -> R e (set_ext c x)) -> wp (call k) Q R c.
Proof. unfold wp, call. destruct (env_call k c) as [[a|e|] x] eqn:Hk; auto. Qed.

Lemma wp_try_call (k : Call unit) (Q : unit -> chain -> Prop) (R : chain_error -> chain -> Prop) c :
  (forall o x, env_call k c = (o, x) -> Q tt (set_ext c x)) -> wp (try_call k) Q R c.
Proof. unfold wp, try_call, ignore_err, call. intros Hq. destruct (env_call k c) as [[[]|e|] x] eqn:Hk; eauto. Qed.

Lemma wp_on_tree {A} (p : tree_prog A) (Q : A -> chain -> Prop) (R : chain_error -> chain -> Prop) c :
  wp p (fun a t => Q a (set_tree c t)) (fun e t => R e (set_tree c t)) (tree c) -> wp (on_tree p) Q R c.
Proof. unfold wp, on_tree, zoom. by destruct (p (tree c)) as [[a|e|] t]. Qed.

Lemma wp_load p (Q : BlockNode -> BlockTree -> Prop) (R : chain_error -> BlockTree -> Prop) t :
  (forall n, nodes t !! p = Some n -> Q n t) -> wp (load p) Q R t.
Proof. unfold wp, load. destruct (nodes t !! p) eqn:Hp; auto. Qed.

Lemma wp_node p (Q : BlockNode -> chain -> Prop) (R : chain_error -> chain -> Prop) c :
  (forall n, nod c p = Some n -> Q n c) -> wp (on_tree (load p)) Q R c.
Proof. intros HQ. apply wp_on_tree, wp_load. intros n Hn. specialize (HQ n Hn). by destruct c. Qed.

Lemma wp_best_hash (Q : Hash -> chain -> Prop) (R : chain_error -> chain -> Prop) c :
  (forall t n, bestNode (tree c) = Some t -> nod c t = Some n -> Q (node_Hash n) c) -> wp best_hash Q R c.
Proof.
  intros HQ. unfold best_hash. apply wp_bind, wp_gets. cbn [id]. destruct (bestNode (tree c)) eqn:Hb; [|apply wp_panic].
  apply wp_bind, wp_node. intros n Hn. apply wp_mret. eauto.
Qed.

Lemma mem_call {A} ex (k : Call A) c o x :
  mem_ok ex c -> env_call k c = (o, x) ->
  (forall h, commits k = Some h -> is_Ret o -> is_Some (idx c h) \/ h ∈ ex) -> mem_ok ex (set_ext c x).
Proof.
  intros Hm Hk Hcom h [hdr Hf]. cbn. destruct (call_fetch k c o x h hdr Hk Hf) as [?|[? ?]]; [by apply Hm|auto].
Qed.

(** A call that commits nothing keeps the invariant. *)
Lemma wp_call_ok {A} ex (k : Call A) (Q : A -> chain -> Prop) (R : chain_error -> chain -> Prop) c :
  mem_ok ex c -> commits k = None ->
  (forall a x, mem_ok ex (set_ext c x) -> Q a (set_ext c x)) ->
  (forall e x, mem_ok ex (set_ext c x) -> R e (set_ext c x)) -> wp (call k) Q R c.
Proof.
  intros Hok Hk HQ HR. apply wp_call.
  - intros a x Hx. apply HQ. eapply mem_call; eauto. intros h Hh. congruence.
  - intros e x Hx. apply HR. eapply mem_call; eauto. intros h Hh. congruence.
Qed.

Lemma wp_try_ok ex (k : Call unit) (Q : unit -> chain -> Prop) (R : chain_error -> chain -> Prop) c :
  mem_ok ex c -> commits k = None ->
  (forall x, mem_ok ex (set_ext c x) -> Q tt (set_ext c x)) -> wp (try_call k) Q R c.
Proof. intros Hok Hk HQ. apply wp_try_call. intros o x Hx. apply HQ. eapply mem_call; eauto. intros h Hh. congruence. Qed.

Lemma mem_weaken ex ex' c : mem_ok ex c -> (forall h, h ∈ ex -> is_Some (idx c h) \/ h ∈ ex') -> mem_ok ex' c.
Proof. intros Hm Hex h Hh. destruct (Hm h Hh); auto. Qed.

(** * Connecting a block *)

Lemma wp_commit_state ex p header (st : BState) (Q : unit -> chain -> Prop) (R : chain_error -> chain -> Prop) c :
  mem_ok ex c ->
  (forall x, mem_ok ex (set_ext c x) -> Q tt (set_ext c x)) ->
  (forall e x, mem_ok ex (set_ext c x) -> R e (set_ext c x)) -> wp (commit_state p header st) Q R c.
Proof.
  intros Hok HQ HR. unfold commit_state.
  apply wp_bind, wp_fail_if; [intros _|intros _; destruct c; by apply (HR _ _ Hok)].
  apply wp_bind, (wp_call_ok ex); [done|done| |by intros; apply HR]. intros [] x Hx.
  apply wp_bind. unfold wp. destruct (call (state_Commit st) (set_ext c x)) as [[root|e|] c1] eqn:Hcall; [| |done].
  - unfold call in Hcall. destruct (env_call _ _) as [o y] eqn:Hk. injection Hcall as -> <-.
    pose proof (mem_call ex _ _ _ _ Hx Hk ltac:(done)) as Hy. change (set_ext (set_ext c x) y) with (set_ext c y) in *.
    destruct (negb _).
    + apply wp_bind, (wp_try_ok ex); [done|done|]. intros z Hz. apply wp_throw. by apply HR.
    + apply wp_mret. by apply HQ.
  - unfold call in Hcall |- *. destruct (env_call (state_Commit st) _) as [o y] eqn:Hk. injection Hcall as -> <-.
    pose proof (mem_call ex _ _ _ _ Hx Hk ltac:(done)) as Hy. change (set_ext (set_ext c x) y) with (set_ext c y) in *.
    destruct (env_call (SetBindingState p None) _) as [o z] eqn:Hk2. apply (HR e z). exact (mem_call ex _ _ _ _ Hy Hk2 ltac:(done)).
Qed.

(** The tip a block is connected to is its parent; only the commit of the block shows in the
    database. *)
Lemma wp_connect_store ex ex' p b n (Q : unit -> chain -> Prop) (R : chain_error -> chain -> Prop) c :
  mem_ok ex c -> nod c p = Some n ->
  (forall h, h ∈ ex -> is_Some (idx c h) \/ h ∈ ex') -> (is_Some (idx c (node_Hash n)) \/ node_Hash n ∈ ex') ->
  (forall x t nt, bestNode (tree c) = Some t -> nod c t = Some nt -> bh_Previous (cb_Header b) = node_Hash nt ->
     mem_ok ex' (set_ext c x) -> Q tt (set_ext c x)) ->
  (forall e x, mem_ok ex (set_ext c x) -> R e (set_ext c x)) -> wp (connect_store p b) Q R c.
Proof.
  intros Hok Hn Hex Hh HQ HR. unfold connect_store.
  apply wp_bind, wp_best_hash. intros t nt Ht Hnt.
  apply wp_bind, wp_fail_if; [|intros _; destruct c; by apply (HR _ _ Hok)]. intros Heq.
  apply negb_false_iff, bytes_Equal_true in Heq.
  apply wp_bind, (wp_call_ok ex); [done|done| |by intros; apply HR]. intros store x1 H1.
  apply wp_bind, (wp_call_ok ex); [done|done| |by intros; apply HR]. intros [] x2 H2.
  apply wp_bind, (wp_call_ok ex); [done|done| |by intros; apply HR]. intros st x3 H3.
  apply wp_bind, (wp_call_ok ex); [done|done| |by intros; apply HR]. intros st' x4 H4.
  change (set_ext _ x4) with (set_ext c x4) in H4 |- *.
  apply wp_bind, wp_node. intros n' Hn'. cbn [tree set_ext] in Hn'. assert (n' = n) as -> by congruence.
  assert (forall x, mem_ok ex (set_ext c x) -> wp (call (db_Commit (node_Hash n))) Q R (set_ext c x)) as Hfin.
  { intros x Hx. apply wp_call.
    - intros [] y Hk. apply (HQ y t nt Ht Hnt Heq).
      apply (mem_call ex' (db_Commit (node_Hash n)) (set_ext c x) (Ret tt) y); [by eapply mem_weaken|done|].
      intros h [= <-] _. done.
    - intros e y Hk. apply (HR e y). apply (mem_call ex (db_Commit (node_Hash n)) (set_ext c x) (Err e) y); [done|done|].
      intros h _ [? ?]. done. }
  apply wp_bind. destruct (EnforceMASSIP0002WarmUp _); [|by apply wp_mret, Hfin].
  apply (wp_commit_state ex); [done| |by intros; apply HR]. intros x Hx. by apply Hfin.
Qed.

(** The tree of a chain after a tip has moved. *)
Definition tip_moved c p n (flag : bool) (tip : option ptr) : chain := set_tree c (move_tip (tree c) p n flag tip).

Lemma wp_connectBlock ex ex' p b n (Q : unit -> chain -> Prop) (R : chain_error -> chain -> Prop) c :
  mem_ok ex c -> nod c p = Some n ->
  (forall h, h ∈ ex -> is_Some (idx c h) \/ h ∈ ex') -> (is_Some (idx c (node_Hash n)) \/ node_Hash n ∈ ex') ->
  (forall x t nt, bestNode (tree c) = Some t -> nod c t = Some nt -> bh_Previous (cb_Header b) = node_Hash nt ->
     mem_ok ex' (set_ext c x) -> Q tt (set_ext (tip_moved c p n true (Some p)) x)) ->
  (forall e x, mem_ok ex (set_ext c x) -> R e (set_ext c x)) -> wp (connectBlock p b) Q R c.
Proof.
  intros Hm Hn Hex Hh HQ HR. unfold connectBlock.
  apply wp_bind. unfold with_rollback.
  assert (wp (connect_store p b)
    (fun _ c' => exists x t nt, c' = set_ext c x /\ bestNode (tree c) = Some t /\ nod c t = Some nt /\
                 bh_Previous (cb_Header b) = node_Hash nt /\ mem_ok ex' (set_ext c x))
    (fun _ c' => exists x, c' = set_ext c x /\ mem_ok ex (set_ext c x)) c) as Hs.
  { apply (wp_connect_store ex ex' p b n); eauto 10. }
  unfold wp in Hs |- *. destruct (connect_store p b c) as [[[]|e|] c1]; [| |done].
  - destruct Hs as (x & t & nt & -> & Ht & Hnt & Hprev & Hmx).
    change (wp (on_tree (store p (set_InMainChain true));; on_tree (setBestBlockNode (Some p));;
                try_call (applyBlockNode p);; try_call (attachBlock b)) Q R (set_ext c x)).
    apply wp_bind, wp_on_tree. unfold store. apply wp_bind, wp_load. cbn [tree set_ext]. intros n' Hn'.
    assert (n' = n) as -> by congruence. apply wp_modify.
    apply wp_bind, wp_on_tree, wp_modify. cbn -[mem_ok].
    change (wp (try_call (applyBlockNode p);; try_call (attachBlock b)) Q R (set_ext (tip_moved c p n true (Some p)) x)).
    assert (mem_ok ex' (set_ext (tip_moved c p n true (Some p)) x)) as Hmt by exact Hmx.
    apply wp_bind, (wp_try_ok ex'); [done|done|]. intros y Hy. apply (wp_try_ok ex'); [done|done|]. intros z Hz.
    exact (HQ z t nt Ht Hnt Hprev Hz).
  - destruct Hs as (x & -> & Hmx). unfold call. destruct (env_call db_Rollback _) as [o y] eqn:Hk. cbn [snd].
    apply (HR e y). exact (mem_call ex _ _ _ _ Hmx Hk ltac:(done)).
Qed.

Lemma wp_disconnectBlock p b n (Q : unit -> chain -> Prop) (R : chain_error -> chain -> Prop) c :
  mem_ok [] c -> nod c p = Some n -> is_Some (idx c (node_Hash n)) ->
  (forall x t nt, bestNode (tree c) = Some t -> nod c t = Some nt -> node_Hash n = node_Hash nt ->
     mem_ok [] (set_ext c x) ->
     Q tt (set_cache (set_ext (tip_moved c p n false (Parent n)) x) (<[cb_Hash b := b]> (blockCache c)))) ->
  (forall e x, mem_ok [] (set_ext c x) -> R e (set_ext c x)) -> wp (disconnectBlock p b) Q R c.
Proof.
  intros Hm Hn Hi HQ HR. unfold disconnectBlock.
  apply wp_bind, wp_node. intros n' Hn'. assert (n' = n) as -> by congruence. clear Hn'.
  apply wp_bind, wp_best_hash. intros t nt Ht Hnt.
  apply wp_bind, wp_fail_if; [|intros _; destruct c; by apply (HR _ _ Hm)]. intros Heq.
  apply negb_false_iff, bytes_Equal_true in Heq.
  apply wp_bind, (wp_call_ok []); [done|done| |by intros; apply HR]. intros [] x1 H1.
  apply wp_bind, (wp_call_ok []); [done|done| |by intros; apply HR]. intros [] x2 H2.
  change (set_ext _ x2) with (set_ext c x2) in H2 |- *.
  apply wp_bind, wp_call; [|intros e x Hk; apply (HR e x), (mem_call [] _ (set_ext c x2) _ _ H2 Hk); intros h [= <-]; auto].
  intros [] x3 Hk. assert (mem_ok [] (set_ext c x3)) as H3.
  { apply (mem_call [] _ (set_ext c x2) _ _ H2 Hk). intros h [= <-]; auto. }
  change (set_ext _ x3) with (set_ext c x3).
  apply wp_bind, wp_on_tree. unfold store. apply wp_bind, wp_load. cbn [tree set_ext]. intros n' Hn'.
  assert (n' = n) as -> by congruence. apply wp_modify.
  apply wp_bind, wp_modify. apply wp_bind, wp_on_tree, wp_modify. cbn -[mem_ok].
  set (c1 := set_cache (set_ext (tip_moved c p n false (Parent n)) x3) (<[cb_Hash b := b]> (blockCache c))).
  change (wp (try_call (detachBlock b)) Q R c1).
  assert (mem_ok [] c1) as H4 by exact H3.
  apply (wp_try_ok []); [done|done|]. intros y Hy. exact (HQ y t nt Ht Hnt Heq Hy).
Qed.

(** * Reorganisations *)

Lemma chain_ext c x : struct_ok c -> mem_ok [] (set_ext c x) -> chain_ok (set_ext c x).
Proof. intros [Ht Hb Hc Hp Ho Htg] Hm. by split; [split|]. Qed.

(** Blocks move between the main chain and side chains; nothing else changes in the tree. *)
Definition moved c c' : Prop :=
  tree_index (tree c') = tree_index (tree c) /\ orphanPool c' = orphanPool c /\
  forall p n, nod c p = Some n -> exists n', nod c' p = Some n' /\ Parent n' = Parent n /\ node_Hash n' = node_Hash n /\
    blockHeader n' = blockHeader n /\ CapSum n' = CapSum n /\ node_Quality n' = node_Quality n.

Lemma moved_refl c : moved c c.
Proof. split_and!; [done|done|]. intros p n Hn. exists n. by repeat split. Qed.

Lemma moved_trans c1 c2 c3 : moved c1 c2 -> moved c2 c3 -> moved c1 c3.
Proof.
  intros (H1 & H2 & H3) (H1' & H2' & H3'). split_and!; [congruence|congruence|].
  intros p n Hn. destruct (H3 p n Hn) as (n' & Hn' & ?). destruct (H3' p n' Hn') as (n'' & Hn'' & ?).
  exists n''. destruct_and!. split_and!; [done|congruence..].
Qed.

Lemma moved_tip c p n flag tip x : nod c p = Some n -> moved c (set_ext (tip_moved c p n flag tip) x).
Proof.
  intros Hn. split_and!; [done|done|]. intros a na Ha. cbn. rewrite lookup_insert. case_decide; subst.
  - assert (na = n) as -> by congruence. eexists. by repeat split.
  - exists na. by repeat split.
Qed.

Lemma struct_moved c c' :
  struct_ok c -> moved c c' -> (exists best, tree_ok (tree c') best) -> (forall h b, blockCache c' !! h = Some b -> cb_Hash b = h) -> struct_ok c'.
Proof.
  intros [Ht Hb Hc Hp Ho Htg] (Hi & Hpool & Hn) Ht' Hc'.
  assert (forall h p n', idx c' h = Some p -> nod c' p = Some n' -> exists n, idx c h = Some p /\ nod c p = Some n /\ Parent n' = Parent n /\ blockHeader n' = blockHeader n) as Hback.
  { intros h p n' Hh Hn'. rewrite Hi in Hh. destruct Ht as [best Ht]. destruct (tok_index _ _ Ht _ _ Hh) as (n & Hnn & _).
    destruct (Hn p n Hnn) as (n'' & Hn'' & ? & ? & ? & _). exists n. split_and!; [done|done|congruence|congruence]. }
  split; [done| |done|by rewrite Hpool| |by rewrite Hpool].
  - intros h p n' Hh Hn'. destruct (Hback _ _ _ Hh Hn') as (n & ? & ? & _ & ->). eauto.
  - intros id o p n'. rewrite Hpool. intros Hid Hh Hn'. destruct (Hback _ _ _ Hh Hn') as (n & ? & ? & -> & _). eauto.
Qed.

Lemma tree_best c best : tree_ok (tree c) best -> bestNode (tree c) = Some best.
Proof. intros Ht. apply (tok_best _ _ Ht). Qed.

(** The next block of a branch. *)
Inductive linked c : ptr -> list ptr -> Prop :=
| linked_nil q : linked c q []
| linked_cons q p n rest : nod c p = Some n -> idx c (node_Hash n) = Some p -> Parent n = Some q -> linked c p rest -> linked c q (p :: rest).

Lemma linked_moved c c' q ps : moved c c' -> linked c q ps -> linked c' q ps.
Proof.
  intros (Hi & _ & Hn). induction 1 as [q|q p n rest Hp Hidx Hpar _ IH]; [constructor|].
  destruct (Hn p n Hp) as (n' & Hn' & ? & Hh & _). econstructor; [done|rewrite Hi, Hh; done|congruence|done].
Qed.

Lemma mem_moved c c' x : moved c c' -> ext c' = x -> mem_ok [] (set_ext c x) -> mem_ok [] c'.
Proof. intros (Hi & _) <- Hm h Hf. specialize (Hm h Hf). cbn in Hm. by rewrite Hi. Qed.

Lemma wp_detach_all D anc L c best :
  chain_ok c -> tree_ok (tree c) best -> path (tree c) best (D ++ anc :: L) ->
  wp (detach_all D) (fun _ c' => chain_ok c' /\ tree_ok (tree c') anc /\ moved c c') (fun _ c' => chain_ok c') c.
Proof.
  revert c best. induction D as [|d D IH]; intros c best [Hs Hm] Ht Hp; cbn [detach_all app] in *.
  { apply wp_mret. destruct (path_head _ _ _ Hp) as [? [= -> _]]. split_and!; [by split|done|apply moved_refl]. }
  destruct (path_head _ _ _ Hp) as [? [= -> _]].
  assert (exists q rest, D ++ anc :: L = q :: rest) as (q & rest & Hrest) by (destruct D; cbn; eauto).
  rewrite Hrest in Hp. destruct (path_has_parent _ best [] best q rest Hp) as (n & Hn & Hpar).
  destruct (tok_best _ _ Ht) as (Hb & n0 & Hn0 & Hib). assert (n0 = n) as -> by congruence.
  assert (path (tree c) q (D ++ anc :: L)) as Hq by (rewrite Hrest; exact (path_tail _ best [best] q rest Hp)).
  apply wp_bind, wp_node. intros n' Hn'. assert (n' = n) as -> by congruence. clear Hn'.
  apply wp_bind, (wp_call_ok []); [done|done| |by intros e y Hy; apply (chain_ext c)].
  intros block z Hz. apply wp_bind, (wp_disconnectBlock best block n); [done|done|by eexists| |by intros e y Hy; apply (chain_ext c)].
  intros y t nt _ _ _ Hy. set (c1 := set_cache _ _).
  assert (moved c c1) as Hmv by (apply (moved_tip c best n false (Parent n) y Hn)).
  assert (tree_ok (tree c1) q) as Ht1.
  { unfold c1. cbn [tree set_cache set_ext tip_moved set_tree]. rewrite Hpar. by apply (tree_disconnect _ best). }
  assert (chain_ok c1) as Hok1.
  { split; [apply (struct_moved c); [done|done|eauto|]|by apply (mem_moved c c1 y)].
    intros h b'. unfold c1. cbn. rewrite lookup_insert_Some. intros [[<- <-]|[_ ?]]; [done|]. by eapply cok_cache. }
  eapply wp_mono; [apply (IH c1 q Hok1 Ht1)| |done].
  - apply (path_ext _ _ _ _ Hq). intros a na _ Ha. destruct Hmv as (_ & _ & Hmv). destruct (Hmv a na Ha) as (na' & ? & ? & _). eauto.
  - intros [] c' (Hok' & Ht' & Hmv'). split_and!; [done|done|by eapply moved_trans].
Qed.

Lemma wp_attach_all ps c q :
  chain_ok c -> tree_ok (tree c) q -> linked c q ps ->
  wp (attach_all ps) (fun _ c' => chain_ok c' /\ tree_ok (tree c') (default q (last ps)) /\ moved c c') (fun _ c' => chain_ok c') c.
Proof.
  revert c q. induction ps as [|p ps IH]; intros c q [Hs Hm] Ht Hl; cbn [attach_all].
  { apply wp_mret. split_and!; [by split|done|apply moved_refl]. }
  inversion Hl as [|? ? n ? Hn Hi Hpar Hl']; subst.
  apply wp_bind, wp_node. intros n' Hn'. assert (n' = n) as -> by congruence. clear Hn'.
  apply wp_bind. unfold cache_getBlock. apply wp_bind, wp_gets. cbn [id].
  destruct (blockCache c !! node_Hash n) as [block|] eqn:Hc; [|apply wp_throw; by split]. apply wp_mret.
  apply wp_bind, (wp_connectBlock [] [] p block n); [done|done|auto|by left; eexists| |by intros e y Hy; apply (chain_ext c)].
  intros x t nt Ht' Hnt Hprev Hx. set (c1 := set_ext _ _).
  assert (moved c c1) as Hmv by (apply (moved_tip c p n true (Some p) x Hn)).
  assert (tree_ok (tree c1) p) as Ht1 by exact (tree_connect _ q p n _ Ht Hi Hn Hpar).
  assert (chain_ok c1) as Hok1.
  { split; [apply (struct_moved c); [done|done|eauto|]|by apply (mem_moved c c1 x)].
    intros h b'. by apply (cok_cache _ Hs). }
  eapply wp_mono; [apply (IH c1 p Hok1 Ht1)| |done].
  - by eapply linked_moved.
  - intros [] c' (Hok' & Ht'' & Hmv'). split_and!; [done| |by eapply moved_trans].
    rewrite last_cons. by destruct (last ps).
Qed.

Lemma wp_ensure_cached ps (Q : unit -> chain -> Prop) (R : chain_error -> chain -> Prop) c :
  Q tt c -> (forall e, R e c) -> wp (ensure_cached ps) Q R c.
Proof.
  intros HQ HR. revert c HQ HR. induction ps as [|p ps IH]; intros c HQ HR; cbn [ensure_cached]; [by apply wp_mret|].
  apply wp_bind, wp_node. intros n Hn. apply wp_bind. unfold cache_getBlock. apply wp_bind, wp_gets. cbn [id].
  destruct (blockCache c !! node_Hash n); [apply wp_mret; auto|by apply wp_throw].
Qed.

Lemma wp_check_attach ps st (Q : unit -> chain -> Prop) (R : chain_error -> chain -> Prop) c :
  mem_ok [] c -> (forall x, mem_ok [] (set_ext c x) -> Q tt (set_ext c x)) ->
  (forall e x, mem_ok [] (set_ext c x) -> R e (set_ext c x)) -> wp (check_attach ps st) Q R c.
Proof.
  revert st c. induction ps as [|p ps IH]; intros st c Hm HQ HR; cbn [check_attach].
  { apply wp_mret. destruct c. by apply (HQ _ Hm). }
  apply wp_bind, wp_node. intros n Hn. apply wp_bind. unfold cache_getBlock. apply wp_bind, wp_gets. cbn [id].
  destruct (blockCache c !! node_Hash n) as [block|]; [|apply wp_throw; destruct c; by apply (HR _ _ Hm)]. apply wp_mret.
  assert (forall st' x, mem_ok [] (set_ext c x) ->
    wp (call (checkConnectBlock p block (Some st'));; st'' ← call (connectState st' block); check_attach ps (Some st'')) Q R (set_ext c x)) as Hrest.
  { intros st' x Hx. apply wp_bind, (wp_call_ok []); [done|done| |by intros; apply HR]. intros [] y Hy.
    apply wp_bind, (wp_call_ok []); [done|done| |by intros; apply HR]. intros st'' z Hz.
    apply IH; [done|intros w Hw; by apply HQ|intros e w Hw; by apply HR]. }
  apply wp_bind. destruct st as [st|].
  - apply wp_mret. destruct c. apply (Hrest st _ Hm).
  - apply (wp_call_ok []); [done|done| |by intros; apply HR]. intros st x Hx. by apply Hrest.
Qed.

Lemma linked_branch c best h p A anc L :
  tree_ok (tree c) best -> idx c h = Some p -> path (tree c) p (A ++ anc :: L) -> linked c anc (rev A).
Proof.
  intros Ht Hi Hp.
  assert (forall l1 l2 q, A = l1 ++ l2 -> head (l2 ++ [anc]) = Some q -> linked c q (rev l1)) as Hgen; [|apply (Hgen A []); [by rewrite app_nil_r|done]].
  intros l1. induction l1 as [|a l1 IH] using rev_ind; intros l2 q HA Hq; [constructor|].
  rewrite rev_app_distr. cbn [rev app].
  assert (exists n, nod c a = Some n /\ Parent n = Some q) as (n & Hn & Hpar).
  { subst A. rewrite <- !app_assoc in Hp. destruct l2 as [|q' l2]; cbn in Hq, Hp; injection Hq as ->;
      eapply path_has_parent; exact Hp. }
  econstructor; [exact Hn| |exact Hpar|].
  - eapply path_indexed; [exact Ht|exact Hi|exact Hp| |done]. subst A. set_solver.
  - apply (IH (a :: l2)); [by rewrite <- app_assoc in HA|done].
Qed.

Lemma wp_reorganizeChain gh D A anc L p h best c :
  chain_ok c -> tree_ok (tree c) best -> idx c h = Some p ->
  path (tree c) best (D ++ anc :: L) -> path (tree c) p (A ++ anc :: L) ->
  wp (reorganizeChain gh D (rev A)) (fun _ c' => chain_ok c' /\ tree_ok (tree c') p /\ moved c c') (fun _ c' => chain_ok c') c.
Proof.
  intros [Hs Hm] Ht Hi Hb Hp. unfold reorganizeChain.
  apply wp_bind, wp_ensure_cached; [|by split].
  apply wp_bind, wp_check_attach; [done| |by intros e x Hx; apply (chain_ext c)]. intros x Hx.
  pose proof (chain_ext c x Hs Hx) as Hokx. set (cx := set_ext c x) in *.
  apply wp_bind. eapply wp_mono; [apply (wp_detach_all D anc L cx best Hokx Ht Hb)| |done].
  intros [] c1 (Hok1 & Ht1 & Hmv1). assert (linked c1 anc (rev A)) as Hl1.
  { apply (linked_moved cx); [done|]. exact (linked_branch cx best h p A anc L Ht Hi Hp). }
  apply wp_bind. eapply wp_mono; [apply (wp_attach_all (rev A) c1 anc Hok1 Ht1 Hl1)| |done].
  intros [] c2 (Hok2 & Ht2 & Hmv2). assert (moved c c2) as Hmv by (apply (moved_trans cx c1 c2); done).
  assert (default anc (last (rev A)) = p) as Htip.
  { destruct (path_head _ _ _ Hp) as [l Hl]. destruct A as [|a A]; cbn in Hl; injection Hl as -> _; [done|].
    cbn [rev]. by rewrite last_snoc. }
  rewrite Htip in Ht2. destruct (rev A) as [|first rest] eqn:Hrev; [apply wp_panic|].
  inversion Hl1 as [|? ? n ? Hn Hin Hpar _]; subst.
  destruct Hmv2 as (_ & _ & Hmv2). destruct (Hmv2 _ _ Hn) as (n' & Hn' & Hpar' & _).
  apply wp_bind. unfold getPrevNodeFromNode. apply wp_bind, wp_node. intros n'' Hn''.
  assert (n'' = n') as -> by congruence. rewrite Hpar', Hpar. apply wp_mret.
  destruct D; [apply wp_panic|]. apply wp_mret. done.
Qed.

(** * Accepting a block *)

(** The nodes of the tree stay, apart from their place on or off the main chain. *)
Definition kept c c' : Prop :=
  forall g p n, idx c g = Some p -> nod c p = Some n ->
  idx c' g = Some p /\ exists n', nod c' p = Some n' /\ Parent n' = Parent n /\ node_Hash n' = node_Hash n /\
    blockHeader n' = blockHeader n /\ CapSum n' = CapSum n /\ node_Quality n' = node_Quality n.

Lemma kept_trans c1 c2 c3 : kept c1 c2 -> kept c2 c3 -> kept c1 c3.
Proof.
  intros H12 H23 g p n Hi Hn. destruct (H12 _ _ _ Hi Hn) as (Hi2 & n2 & Hn2 & ?).
  destruct (H23 _ _ _ Hi2 Hn2) as (Hi3 & n3 & Hn3 & ?). split; [done|]. exists n3. destruct_and!. split_and!; [done|congruence..].
Qed.

Lemma kept_refl c : kept c c.
Proof. intros g p n Hi Hn. split; [done|]. exists n. by repeat split. Qed.

Lemma moved_kept c c' : moved c c' -> kept c c'.
Proof. intros (Hi & _ & Hn) g p n Hg Hp. rewrite Hi. split; [done|]. by apply Hn. Qed.

(** The tip is the old one or the new block, which is then better. *)
Definition tip_improves c c' b : Prop :=
  forall best, tree_ok (tree c) best ->
  exists best' n n', tree_ok (tree c') best' /\ nod c' best = Some n /\ nod c' best' = Some n' /\
    (best' = best \/ node_Hash n' = cb_Hash b /\ (0 < bh_Target (cb_Header b) -> better n' n = true)).

Record accepted c c' b : Prop := {
  acc_ok : chain_ok c';
  acc_pool : orphanPool c' = orphanPool c;
  acc_index g : is_Some (idx c' g) <-> is_Some (idx c g) \/ g = cb_Hash b;
  acc_kept : kept c c';
  acc_tip : tip_improves c c' b;
}.

(** The node of a new block, before it is in the index. *)
Definition fresh_child c b p q n : Prop :=
  nod c p = Some n /\ (forall h, idx c h <> Some p) /\ idx c (cb_Hash b) = None /\ Parent n = Some q /\
  idx c (bh_Previous (cb_Header b)) = Some q /\ node_Hash n = cb_Hash b /\ blockHeader n = cb_Header b /\
  CapSum n = bh_Target (cb_Header b) /\ InMainChain n = false.

Lemma struct_leaf c c' b p n tip ch :
  struct_ok c -> (forall h, idx c h <> Some p) -> tree c' = add_leaf (tree c) p n tip ch -> tree_ok (tree c') tip ->
  node_Hash n = cb_Hash b -> blockHeader n = cb_Header b -> Parent n <> None -> orphanPool c' = orphanPool c ->
  (forall h b', blockCache c' !! h = Some b' -> cb_Hash b' = h) -> struct_ok c'.
Proof.
  intros [Ht Hb Hc Hp Ho Htg] Hnew Htree Ht' Hh Hhd Hpar Hpool Hc'.
  split; [eauto| |done|by rewrite Hpool| |by rewrite Hpool]; rewrite Htree; cbn [add_leaf nodes tree_index].
  - intros h a na. rewrite lookup_insert_Some. intros [[<- <-]|[_ Ha]].
    + rewrite lookup_insert_eq. intros [= <-]. eauto.
    + rewrite lookup_insert_ne by (intros ->; by eapply Hnew). eauto.
  - intros id o a na. rewrite Hpool, lookup_insert_Some. intros Hid [[<- <-]|[_ Ha]].
    + rewrite lookup_insert_eq. by intros [= <-].
    + rewrite lookup_insert_ne by (intros ->; by eapply Hnew). eauto.
Qed.

Lemma kept_leaf c c' p n tip ch :
  (forall h, idx c h <> Some p) -> idx c (node_Hash n) = None -> tree c' = add_leaf (tree c) p n tip ch -> kept c c'.
Proof.
  intros Hnew Hh Htree g a na Hg Ha. rewrite Htree. cbn. rewrite !lookup_insert_ne; [|intros ->; by eapply Hnew|congruence].
  split; [done|]. exists na. by repeat split.
Qed.

Lemma index_leaf c c' b p n tip ch g :
  tree c' = add_leaf (tree c) p n tip ch -> node_Hash n = cb_Hash b ->
  is_Some (idx c' g) <-> is_Some (idx c g) \/ g = cb_Hash b.
Proof.
  intros -> <-. cbn. rewrite lookup_insert. case_decide; [naive_solver|]. naive_solver.
Qed.

Lemma mem_leaf c c' p n tip ch ex :
  tree c' = add_leaf (tree c) p n tip ch -> ext c' = ext c -> mem_ok ex c -> (forall h, h ∈ ex -> h = node_Hash n) -> mem_ok [] c'.
Proof.
  intros Htree Hext Hm Hex h Hf. rewrite Hext in Hf. rewrite Htree. cbn. left.
  destruct (Hm h Hf) as [Hi|Hi]; rewrite lookup_insert; case_decide; eauto. by rewrite (Hex h Hi) in *.
Qed.

(** [attachBlockNode] on a new child adds it as a leaf. *)
Lemma attach_run t p q n nq best :
  nodes t !! p = Some n -> tree_index t !! node_Previous n = Some q -> nodes t !! q = Some nq -> bestNode t = Some best ->
  attachBlockNode p t = (Ret tt, add_leaf t p (set_Parent (Some q) (set_CapSum (CapSum nq + CapSum n) n)) best
                                         (add_child (node_Previous n) p (children t))).
Proof.
  intros Hn Hi Hq Hb. unfold attachBlockNode, store, load, mbind, prog_bind, gets, getBlockNode. rewrite Hn, Hi, Hq, Hn.
  unfold modify, set_nodes, add_leaf. cbn. by rewrite Hb.
Qed.

Lemma attach_fresh c b p q n nq flag tip :
  fresh_child c b p q n -> nod c q = Some nq ->
  attachBlockNode p (move_tip (tree c) p n flag (Some tip)) =
  (Ret tt, add_leaf (tree c) p (set_Parent (Some q) (set_CapSum (CapSum nq + CapSum n) (set_InMainChain flag n))) tip
                    (add_child (node_Previous n) p (children (tree c)))).
Proof.
  intros (Hn & Hnew & _ & _ & Hprev & _ & Hhd & _) Hq. assert (p <> q) as Hpq by (intros ->; by eapply Hnew).
  rewrite (attach_run _ p q (set_InMainChain flag n) nq tip); cbn.
  - unfold add_leaf. cbn. by rewrite insert_insert_eq.
  - by rewrite lookup_insert_eq.
  - unfold node_Previous. cbn. by rewrite Hhd.
  - by rewrite lookup_insert_ne.
  - done.
Qed.

Lemma wp_notify b (Q : unit -> chain -> Prop) (R : chain_error -> chain -> Prop) c :
  mem_ok [] c -> (forall x, mem_ok [] (set_ext c x) -> Q tt (set_ext c x)) ->
  (forall e x, mem_ok [] (set_ext c x) -> R e (set_ext c x)) -> wp (notify b) Q R c.
Proof.
  intros Hm HQ HR. unfold notify. destruct (cb_IsImport b); [apply wp_mret; destruct c; by apply (HQ _ Hm)|].
  apply (wp_call_ok []); [done|done| |done]. intros [] x Hx. by apply HQ.
Qed.

Lemma accepted_ext c c' b x : accepted c c' b -> mem_ok [] (set_ext c' x) -> accepted c (set_ext c' x) b.
Proof. intros [[Hs _] Hp Hi Hk Ht] Hm. split; [by apply chain_ext|done|done|done|done]. Qed.

(** A block on the tip. *)
Lemma wp_extend b p q n c :
  chain_ok c -> tree_ok (tree c) q -> fresh_child c b p q n ->
  wp (call (checkConnectBlock p b None);; connectBlock p b;; on_tree (attachBlockNode p);; notify b)
     (fun _ c' => accepted c c' b) (fun _ c' => chain_ok c') c.
Proof.
  intros [Hs Hm] Ht Hf. pose proof Hf as (Hn & Hnew & Hnone & Hpar & Hprev & Hh & Hhd & Hcap & Hmain).
  apply wp_bind, (wp_call_ok []); [done|done| |by intros e x Hx; apply chain_ext]. intros [] x Hx.
  pose proof (chain_ext c x Hs Hx) as [Hsx _]. set (cx := set_ext c x) in *.
  apply wp_bind, (wp_connectBlock [] [cb_Hash b] p b n); [done|done|set_solver|right; rewrite Hh; set_solver| |by intros e y Hy; apply (chain_ext cx)].
  intros y t nt _ _ _ Hy. destruct (tok_best _ _ Ht) as (Hb & nq & Hnq & Hiq).
  set (c1 := set_ext (tip_moved cx p n true (Some p)) y). assert (p <> q) as Hpq by (intros ->; by eapply Hnew).
  set (n2 := set_Parent (Some q) (set_CapSum (CapSum nq + CapSum n) (set_InMainChain true n))).
  set (ch := add_child (node_Previous n) p (children (tree c))).
  set (c2 := set_tree c1 (add_leaf (tree cx) p n2 p ch)).
  apply wp_bind, wp_on_tree.
  pose proof (attach_fresh cx b p q n nq true p Hf Hnq) as Hatt. change (move_tip _ _ _ _ _) with (tree c1) in Hatt.
  unfold wp at 1. rewrite Hatt. change (set_tree c1 (add_leaf (tree cx) p n2 p ch)) with c2.
  assert (tree_ok (tree c2) p) as Ht2.
  { apply (tree_extend (tree cx) q p q n2 ch); try done; unfold n2, node_Previous; cbn; rewrite ?Hh, ?Hhd; done. }
  assert (accepted c c2 b) as Hacc.
  { assert (mem_ok [] c2) as Hm2.
    { apply (mem_leaf (set_ext c y) c2 p n2 p ch [cb_Hash b]); [done|done|done|]. intros h ->%list_elem_of_singleton. done. }
    split; [split; [|done]|done| | |].
    - apply (struct_leaf cx c2 b p n2 p ch); try done. intros h b'. by apply (cok_cache _ Hs).
    - intros g. by apply (index_leaf c c2 b p n2 p ch).
    - apply (kept_leaf c c2 p n2 p ch); [done|by rewrite <- Hh in Hnone|done].
    - intros best Hbest. assert (best = q) as -> by (apply tree_best in Hbest, Ht; congruence).
      exists p, nq, n2. split_and!; [done|cbn; by rewrite lookup_insert_ne|cbn; by rewrite lookup_insert_eq|].
      right. split; [done|]. intros HT. apply better_spec. left. cbn. lia. }
  apply wp_notify; [apply Hacc|intros z Hz; by apply accepted_ext|]. intros e z Hz. apply chain_ext; [apply Hacc|done].
Qed.

(** A block on a side chain, before the choice of the tip. *)
Lemma side_added b p q n nq best c :
  chain_ok c -> tree_ok (tree c) best -> fresh_child c b p q n -> nod c q = Some nq ->
  let n2 := set_Parent (Some q) (set_CapSum (CapSum nq + CapSum n) (set_InMainChain false n)) in
  let c2 := set_tree (set_cache c (<[cb_Hash b := b]> (blockCache c)))
              (add_leaf (tree c) p n2 best (add_child (node_Previous n) p (children (tree c)))) in
  tree_ok (tree c2) best /\ chain_ok c2 /\ kept c c2 /\ (forall g, is_Some (idx c2 g) <-> is_Some (idx c g) \/ g = cb_Hash b).
Proof.
  intros [Hs Hm] Ht (Hn & Hnew & Hnone & Hpar & Hprev & Hh & Hhd & Hcap & Hmain) Hnq n2 c2.
  assert (tree_ok (tree c2) best) as Ht2.
  { apply (tree_side (tree c) best p q n2); try done; unfold n2, node_Previous; cbn; rewrite ?Hh, ?Hhd; done. }
  split_and!; [done|split| |].
  - apply (struct_leaf c c2 b p n2 best (add_child (node_Previous n) p (children (tree c)))); try done.
    intros h b'. cbn. rewrite lookup_insert_Some. intros [[<- <-]|[_ ?]]; [done|]. by eapply cok_cache.
  - by apply (mem_leaf c c2 p n2 best (add_child (node_Previous n) p (children (tree c))) []); [| | |set_solver].
  - by apply (kept_leaf c c2 p n2 best (add_child (node_Previous n) p (children (tree c)))); [|rewrite <- Hh in Hnone|].
  - intros g. by apply (index_leaf c c2 b p n2 best (add_child (node_Previous n) p (children (tree c)))).
Qed.

(** The tree before a side block is attached. *)
Lemma move_same t p n best : bestNode t = Some best -> move_tip t p n false (Some best) = set_nodes <[p := set_InMainChain false n]> t.
Proof. intros Hb. unfold move_tip, set_nodes. by rewrite Hb. Qed.

(** A better side block becomes the tip. *)
Lemma wp_switch gh b p n nb best c c2 :
  chain_ok c -> tree_ok (tree c) best -> orphanPool c2 = orphanPool c ->
  (tree_ok (tree c2) best /\ chain_ok c2 /\ kept c c2 /\ (forall g, is_Some (idx c2 g) <-> is_Some (idx c g) \/ g = cb_Hash b)) ->
  idx c2 (cb_Hash b) = Some p -> nod c2 p = Some n -> node_Hash n = cb_Hash b -> nod c2 best = Some nb -> better n nb = true ->
  wp ('(D, A) ← on_tree (getReorganizeNodes p); reorganizeChain gh D A;; notify b)
     (fun _ c' => accepted c c' b) (fun _ c' => chain_ok c') c2.
Proof.
  intros Hok Ht Hpool (Ht2 & Hok2 & Hk2 & Hi2) Hip2 Hp2 Hh Hb2 Hbetter.
  destruct (tok_path _ _ Ht2 _ _ Hip2) as [lp Hlp].
  destruct (getReorganizeNodes_spec _ _ Ht2 _ _ _ Hip2 Hlp) as (D & A & anc & L & HD & -> & Hre & _).
  apply wp_bind, wp_on_tree. unfold wp at 1. rewrite Hre.
  assert (set_tree c2 (tree c2) = c2) as -> by by destruct c2.
  destruct (best_path _ _ Ht2) as [lb Hlb]. rewrite (lineage_path _ _ _ Hlb) in HD. subst lb.
  apply wp_bind. eapply wp_mono; [apply (wp_reorganizeChain gh D A anc L p (cb_Hash b) best c2 Hok2 Ht2 Hip2 Hlb Hlp)| |done].
  intros [] c3 (Hok3 & Ht3 & Hmv). assert (accepted c c3 b) as Hacc.
  { split; [done|by destruct Hmv as (_ & -> & _)| | |].
    - intros g. rewrite <- Hi2. by destruct Hmv as (-> & _).
    - eapply kept_trans; [exact Hk2|by apply moved_kept].
    - intros best0 Hbest0. assert (best0 = best) as -> by (apply tree_best in Hbest0, Ht; congruence).
      destruct Hmv as (_ & _ & Hmv). destruct (Hmv _ _ Hb2) as (nt' & Hnt3 & _ & Hh1 & Hhd1 & Hc1 & Hq1).
      destruct (Hmv _ _ Hp2) as (n2' & Hn3 & _ & Hh2 & Hhd2 & Hc2 & Hq2).
      exists p, nt', n2'. split_and!; [done|done|done|]. right. split; [by rewrite Hh2|]. intros _.
      revert Hbetter. unfold better, node_Timestamp. by rewrite Hh1, Hhd1, Hc1, Hq1, Hh2, Hhd2, Hc2, Hq2. }
  apply wp_notify; [apply Hok3|intros x Hx; by apply accepted_ext|]. intros e x Hx. apply chain_ext; [apply Hok3|done].
Qed.

(** What [connectBestChain] looks up first. *)
Lemma fresh_parent c b p q n best :
  tree_ok (tree c) best -> fresh_child c b p q n ->
  exists nq nb, nod c q = Some nq /\ nod c best = Some nb /\ best <> p /\
    (bytes_Equal (node_Hash nq) (node_Hash nb) = true -> q = best).
Proof.
  intros Ht (Hn & Hnew & _ & _ & Hprev & _). destruct (tok_index _ _ Ht _ _ Hprev) as (nq & Hnq & Hqh).
  destruct (tok_best _ _ Ht) as (_ & nb & Hnb & Hib). exists nq, nb. split_and!; [done|done|intros ->; by eapply Hnew|].
  intros Heq%bytes_Equal_true. rewrite <- Heq, Hqh, Hprev in Hib. congruence.
Qed.

Lemma wp_connectBestChain gh b p q n c :
  chain_ok c -> fresh_child c b p q n ->
  wp (connectBestChain gh p b) (fun _ c' => accepted c c' b) (fun _ c' => chain_ok c') c.
Proof.
  intros Hok Hf. pose proof Hok as [Hs Hm]. destruct (cok_tree _ Hs) as [best Ht].
  pose proof Hf as (Hn & _ & _ & Hpar & _ & Hh & _). destruct (fresh_parent c b p q n best Ht Hf) as (nq & nb & Hnq & Hnb & Hbp & Heq).
  unfold connectBestChain. apply wp_bind, wp_node. intros n' Hn'. assert (n' = n) as -> by congruence. clear Hn'. rewrite Hpar.
  apply wp_bind, wp_node. intros n' Hn'. assert (n' = nq) as -> by congruence. clear Hn'.
  apply wp_bind, wp_best_hash. intros t nt Hbt Hnt. rewrite (tree_best _ _ Ht) in Hbt. injection Hbt as <-. assert (nt = nb) as -> by congruence.
  destruct (bytes_Equal (node_Hash nq) (node_Hash nb)); [rewrite (Heq eq_refl) in *; by apply (wp_extend b p best n)|].
  pose proof (side_added b p q n nq best c Hok Ht Hf Hnq) as Hadd.
  set (n2 := set_Parent (Some q) (set_CapSum (CapSum nq + CapSum n) (set_InMainChain false n))) in *.
  cbv zeta in Hadd. set (c2 := set_tree _ _) in *.
  apply wp_bind, wp_modify. apply wp_bind, wp_on_tree. unfold store. apply wp_bind, wp_load. cbn [tree set_cache].
  intros n' Hn'. assert (n' = n) as -> by congruence. clear Hn'. apply wp_modify.
  apply wp_bind, wp_on_tree. unfold wp at 1. cbn [tree set_tree set_cache].
  rewrite <- (move_same _ p n best), (attach_fresh c b p q n nq false best Hf Hnq) by by apply tree_best.
  match goal with |- wp _ _ _ ?c0 => change c0 with c2 end.
  assert (nod c2 p = Some n2) as Hp2 by (cbn; by rewrite lookup_insert_eq).
  assert (nod c2 best = Some nb) as Hb2 by (cbn; by rewrite lookup_insert_ne).
  apply wp_bind, wp_on_tree. unfold isPotentialNewBestChain. apply wp_bind, wp_gets. rewrite (tree_best _ _ (proj1 Hadd)).
  apply wp_bind, wp_load. intros n' Hn'. assert (n' = n2) as -> by congruence. clear Hn'.
  apply wp_bind, wp_load. intros n' Hn'. assert (n' = nb) as -> by congruence. clear Hn'. apply wp_mret.
  change (set_tree c2 (tree c2)) with c2. destruct (better n2 nb) eqn:Hbetter; cbn [negb].
  - apply (wp_switch gh b p n2 nb best c c2); try done. cbn. rewrite Hh. by rewrite lookup_insert_eq.
  - destruct Hadd as (Ht2 & Hok2 & Hk2 & Hi2). apply (wp_try_ok []); [apply Hok2|done|]. intros x Hx.
    split; [by apply chain_ext; [apply Hok2|]|done|exact Hi2|exact Hk2|].
    intros best0 Hbest0. assert (best0 = best) as -> by (apply tree_best in Hbest0, Ht; congruence). exists best, nb, nb. split_and!; auto.
Qed.

(** Allocating a node changes nothing that is in the tree. *)
Lemma alloc_ok c n :
  let p := fresh (dom (nodes (tree c))) in
  let c1 := set_tree c (set_nodes <[p := n]> (tree c)) in
  chain_ok c -> chain_ok c1 /\ kept c c1 /\ (forall best, tree_ok (tree c) best -> tree_ok (tree c1) best) /\
    (forall h, idx c h <> Some p).
Proof.
  intros p c1 [Hs Hm]. assert (nod c p = None) as Hfresh by apply fresh_node.
  assert (forall best, tree_ok (tree c) best -> tree_ok (tree c1) best) as Htree.
  { intros best Ht. apply (tree_ok_ext (tree c)); [done|by apply node_ext_insert|done..]. }
  assert (forall h, idx c h <> Some p) as Hnew.
  { intros h Hi. destruct (cok_tree _ Hs) as [best Ht]. destruct (tok_index _ _ Ht _ _ Hi) as (? & ? & _). congruence. }
  assert (kept c c1) as Hk.
  { intros g a na Hi Ha. cbn. split; [done|]. exists na. rewrite lookup_insert_ne by congruence. by repeat split. }
  split_and!; [|done|done|done]. split; [|done]. destruct Hs as [[best Ht] Hb Hc Hp Ho Htg].
  assert (forall h a na, idx c h = Some a -> nodes (tree c1) !! a = Some na -> nod c a = Some na) as Hback.
  { intros h a na Hi. cbn. rewrite lookup_insert_ne; [done|]. intros Heq. subst a. by eapply Hnew. }
  split; [eauto| |done|done| |done].
  - intros h a na Hi Ha. eauto.
  - intros id o a na Hid Hi Ha. eauto.
Qed.

Lemma wp_loadBlockNode h (Q : ptr -> chain -> Prop) (R : chain_error -> chain -> Prop) c :
  mem_ok [] c -> idx c h = None -> (forall e, R e c) -> wp (loadBlockNode h) Q R c.
Proof.
  intros Hm Hi HR. unfold loadBlockNode. apply wp_bind, wp_gets. apply wp_bind, wp_lift; [|done]. cbn [id].
  intros hdr Hf. exfalso. destruct (Hm h) as [[? ?]|?]; [by eexists|congruence|set_solver].
Qed.

(** A block that is not in the tree is added to it or refused. *)
Lemma wp_maybeAcceptBlock gh b c :
  chain_ok c -> idx c (cb_Hash b) = None ->
  wp (maybeAcceptBlock gh b) (fun _ c' => accepted c c' b) (fun _ c' => chain_ok c') c.
Proof.
  intros Hok Hnone. unfold maybeAcceptBlock. apply wp_bind. unfold getPrevNodeFromBlock.
  destruct (bytes_Equal _ zeroHash); [by apply wp_mret, wp_throw|].
  apply wp_bind, wp_gets. cbn [id]. unfold getBlockNode.
  destruct (idx c (bh_Previous (cb_Header b))) as [q|] eqn:Hprev; [|apply wp_bind, wp_loadBlockNode; [apply Hok|done|done]].
  apply wp_mret. apply wp_bind, (wp_call_ok []); [apply Hok|done| |by intros e x Hx; apply chain_ext; [apply Hok|]].
  intros [] x Hx. pose proof (chain_ext c x (proj1 Hok) Hx) as Hokx.
  set (n := set_Parent (Some q) (NewBlockNode (cb_Header b) (cb_Hash b))).
  destruct (alloc_ok (set_ext c x) n Hokx) as (Hok1 & Hk1 & Ht1 & Hnew).
  set (p := fresh (dom (nodes (tree (set_ext c x))))) in *. set (c1 := set_tree _ _) in *.
  apply wp_bind, wp_on_tree. unfold wp at 1, new_node. change (set_tree (set_ext c x) (set_nodes <[fresh (dom (nodes (tree (set_ext c x)))) := n]> (tree (set_ext c x)))) with c1.
  fold p. eapply wp_mono; [apply (wp_connectBestChain gh b p q n c1 Hok1)| |done].
  - split_and!; try done. cbn. by rewrite lookup_insert_eq.
  - intros [] c' Hacc. split; [apply Hacc|by rewrite (acc_pool _ _ _ Hacc)|intros g; by rewrite (acc_index _ _ _ Hacc)| |].
    + eapply kept_trans; [|apply Hacc]. exact Hk1.
    + intros best Hbest. apply (acc_tip _ _ _ Hacc), Ht1. done.
Qed.

(** * Orphans *)

Abbreviation pooled c id := (entryIndex (block_pool (orphanPool c)) !! id).

(** What processing orphans of [h] may do on the way to [c']: accept pooled blocks below [h]. *)
Record progressed c c' h : Prop := {
  pro_ok : chain_ok c';
  pro_kept : kept c c';
  pro_index g : is_Some (idx c' g) -> is_Some (idx c g) \/
    exists o, pooled c g = Some o /\ (bh_Previous (cb_Header (ob_block o)) = h \/ idx c (bh_Previous (cb_Header (ob_block o))) = None);
  pro_pool g o : pooled c g = Some o -> pooled c' g = Some o \/ (is_Some (idx c' g) /\
    (bh_Previous (cb_Header (ob_block o)) = h \/ idx c (bh_Previous (cb_Header (ob_block o))) = None));
  pro_less g o : pooled c' g = Some o -> pooled c g = Some o;
}.

Lemma on_orphans_remove c o :
  blocks_ok (orphanPool c) ->
  exists ors, on_orphans (removeOrphanBlock o) c = (Ret tt, set_orphans c ors) /\ blocks_ok ors /\
    entryIndex (block_pool ors) = delete (cb_Hash (ob_block o)) (entryIndex (block_pool (orphanPool c))).
Proof.
  intros Hok. destruct (remove_spec o (orphanPool c) (bok_pool _ Hok)) as (ors & Hr & _ & Hi & _).
  destruct (remove_ok o (orphanPool c) Hok) as (ors' & Hr' & Hok'). assert (ors' = ors) as -> by congruence.
  exists ors. unfold on_orphans. rewrite Hr. done.
Qed.

Lemma orphans_ok c ors :
  chain_ok c -> blocks_ok ors ->
  (forall id o, entryIndex (block_pool ors) !! id = Some o -> pooled c id = Some o) -> chain_ok (set_orphans c ors).
Proof. intros [[Ht Hb Hc Hp Ho Htg] Hm] Hok Hsub. split; [split|]; eauto. Qed.

(** The tip is the old one or a better one. *)
Definition tips c c' : Prop :=
  forall best, tree_ok (tree c) best ->
  exists best' n n', tree_ok (tree c') best' /\ nod c' best = Some n /\ nod c' best' = Some n' /\ (best' = best \/ better n' n = true).

Lemma kept_better c c' p q np nq np' nq' g g' :
  kept c c' -> idx c g = Some p -> idx c g' = Some q -> nod c p = Some np -> nod c q = Some nq ->
  nod c' p = Some np' -> nod c' q = Some nq' -> better np' nq' = better np nq.
Proof.
  intros Hk Hp Hq Hnp Hnq Hnp' Hnq'. destruct (Hk _ _ _ Hp Hnp) as (_ & x & Hx & _ & Hh1 & Hhd1 & Hc1 & Hq1).
  destruct (Hk _ _ _ Hq Hnq) as (_ & y & Hy & _ & Hh2 & Hhd2 & Hc2 & Hq2). assert (x = np') as -> by congruence. assert (y = nq') as -> by congruence.
  unfold better, node_Timestamp. by rewrite Hh1, Hhd1, Hc1, Hq1, Hh2, Hhd2, Hc2, Hq2.
Qed.

Lemma tips_trans c1 c2 c3 : kept c1 c2 -> kept c2 c3 -> tips c1 c2 -> tips c2 c3 -> tips c1 c3.
Proof.
  intros Hk12 Hk23 H12 H23 best Hbest. destruct (H12 best Hbest) as (b2 & n & n2 & Ht2 & Hn & Hn2 & Hor2).
  destruct (H23 b2 Ht2) as (b3 & n2' & n3 & Ht3 & Hn2' & Hn3 & Hor3).
  destruct (tok_best _ _ Hbest) as (_ & n1 & Hn1 & Hi1). destruct (tok_best _ _ Ht2) as (_ & n2a & Hn2a & Hi2). assert (n2a = n2) as -> by congruence.
  destruct (Hk12 _ _ _ Hi1 Hn1) as (Hi1' & _). destruct (Hk23 _ _ _ Hi1' Hn) as (_ & n' & Hn' & _).
  exists b3, n', n3. split_and!; [done|done|done|].
  destruct Hor2 as [-> | Hb2].
  { destruct Hor3 as [-> | Hb3]; [by left|]. right. assert (n2' = n') as -> by congruence. done. }
  pose proof (kept_better c2 c3 b2 best n2 n n2' n' _ _ Hk23 Hi2 Hi1' Hn2 Hn Hn2' Hn') as Heq.
  destruct Hor3 as [-> | Hb3]; right; [assert (n3 = n2') as -> by congruence; congruence|].
  eapply better_trans; [exact Hb3|congruence].
Qed.

Lemma tips_refl c : tips c c.
Proof. intros best Hb. destruct (tok_best _ _ Hb) as (_ & n & Hn & _). exists best, n, n. auto. Qed.

Lemma accepted_tips c c' b : accepted c c' b -> 0 < bh_Target (cb_Header b) -> tips c c'.
Proof. intros Hacc HT best Hb. destruct (acc_tip _ _ _ Hacc best Hb) as (b' & n & n' & ? & ? & ? & Hor). exists b', n, n'. naive_solver. Qed.

Lemma wp_remember {A} h (p : prog chain chain_error A) Q c :
  wp p Q (fun _ c' => chain_ok c') c -> wp (remember h p) Q (fun _ c' => chain_ok c') c.
Proof. unfold wp, remember. destruct (p c) as [[a|e|] c']; [done| |done]. intros [[Ht Hb Hc Hp Ho Htg] Hm]. by split; [split|]. Qed.

(** A pooled block whose parent is new to the tree is not in the tree. *)
Lemma orphan_below c id o :
  chain_ok c -> pooled c id = Some o -> is_Some (idx c id) -> is_Some (idx c (bh_Previous (cb_Header (ob_block o)))).
Proof.
  intros [Hs _] Hpool [p Hi]. destruct (cok_tree _ Hs) as [best Ht]. destruct (tok_index _ _ Ht _ _ Hi) as (n & Hn & Hh).
  destruct (Parent n) as [q|] eqn:Hpar; [|by destruct (cok_orphan _ Hs _ _ _ _ Hpool Hi Hn)].
  pose proof (tok_parent _ _ Ht _ _ _ _ Hi Hn Hpar) as Hq. destruct (cok_block _ Hs _ _ _ Hi Hn) as (b & Hb & Hhd).
  pose proof (ok_id _ (bok_pool _ (cok_pool _ Hs)) _ _ Hpool) as Hid. cbn in Hid.
  rewrite (prev_determined (ob_block o) b) by congruence. rewrite Hhd. eauto.
Qed.

(** The blocks of [os] wait for [h] and are not in the tree. *)
Definition waiting c h (os : list (orphanBlock B)) : Prop :=
  NoDup (map (fun o => cb_Hash (ob_block o)) os) /\
  forall o, o ∈ os -> pooled c (cb_Hash (ob_block o)) = Some o /\ bh_Previous (cb_Header (ob_block o)) = h /\ idx c (cb_Hash (ob_block o)) = None.

(** One orphan has been accepted and taken out of the pool. *)
Record one_accepted c c' o : Prop := {
  one_ok : chain_ok c';
  one_kept : kept c c';
  one_tips : tips c c';
  one_index g : is_Some (idx c' g) <-> is_Some (idx c g) \/ g = cb_Hash (ob_block o);
  one_pool : entryIndex (block_pool (orphanPool c')) = delete (cb_Hash (ob_block o)) (entryIndex (block_pool (orphanPool c)));
}.

Lemma wp_one_orphan gh o c :
  chain_ok c -> pooled c (cb_Hash (ob_block o)) = Some o -> idx c (cb_Hash (ob_block o)) = None ->
  wp (remember (cb_Hash (ob_block o)) (maybeAcceptBlock gh (ob_block o));; on_orphans (removeOrphanBlock o))
     (fun _ c' => one_accepted c c' o) (fun _ c' => chain_ok c') c.
Proof.
  intros Hok Hpool Hnone. apply wp_bind, wp_remember. eapply wp_mono; [by apply wp_maybeAcceptBlock| |done].
  intros [] c1 Hacc. pose proof (acc_ok _ _ _ Hacc) as Hok1.
  destruct (on_orphans_remove c1 o) as (ors & Hr & Hors & Hi); [apply Hok1|].
  unfold wp. rewrite Hr. rewrite (acc_pool _ _ _ Hacc) in Hi. split.
  - apply orphans_ok; [done|done|]. intros id o' Ho'. rewrite Hi in Ho'. apply lookup_delete_Some in Ho' as [_ Ho'].
    by rewrite (acc_pool _ _ _ Hacc).
  - apply Hacc.
  - apply (accepted_tips _ _ _ Hacc). by eapply cok_target; [apply Hok|].
  - apply Hacc.
  - done.
Qed.

Lemma one_waiting c c' o h os :
  one_accepted c c' o -> is_Some (idx c h) -> idx c (cb_Hash (ob_block o)) = None -> waiting c h (o :: os) -> waiting c' h os.
Proof.
  intros Hone Hh Hnone [Hnd Hall]. cbn [map] in Hnd. apply NoDup_cons in Hnd as [Hnot Hnd]. split; [done|].
  intros o' Ho'. destruct (Hall o') as (Hp & Hprev & Hi); [set_solver|].
  assert (cb_Hash (ob_block o') <> cb_Hash (ob_block o)) as Hne.
  { intros Heq. apply Hnot. rewrite <- Heq. apply list_elem_of_fmap. eauto. }
  split_and!; [by rewrite (one_pool _ _ _ Hone), lookup_delete_ne|done|].
  apply eq_None_not_Some. intros [Hs|]%(one_index _ _ _ Hone); [rewrite Hi in Hs; by destruct Hs|done].
Qed.

(** The recursive call for [o] leaves its siblings alone. *)
Lemma progressed_waiting c c' g h os :
  progressed c c' g -> is_Some (idx c h) -> h <> g -> waiting c h os -> waiting c' h os.
Proof.
  intros Hpro Hh Hne [Hnd Hall]. split; [done|]. intros o Ho. destruct (Hall o Ho) as (Hp & Hprev & Hi). split_and!; [|done|].
  - destruct (pro_pool _ _ _ Hpro _ _ Hp) as [?|[_ [?|Hx]]]; [done|congruence|]. rewrite Hprev in Hx. rewrite Hx in Hh. by destruct Hh.
  - apply eq_None_not_Some. intros Hs. destruct (pro_index _ _ _ Hpro _ Hs) as [Hs'|(o' & Ho' & Hor)].
    + rewrite Hi in Hs'. by destruct Hs'.
    + assert (o' = o) as -> by congruence. destruct Hor as [?|Hx]; [congruence|]. rewrite Hprev in Hx. rewrite Hx in Hh. by destruct Hh.
Qed.

Lemma kept_idx c c' g : chain_ok c -> kept c c' -> is_Some (idx c g) -> is_Some (idx c' g).
Proof.
  intros [Hs _] Hk [p Hp]. destruct (cok_tree _ Hs) as [best Ht]. destruct (tok_index _ _ Ht _ _ Hp) as (n & Hn & _).
  destruct (Hk _ _ _ Hp Hn) as [? _]. eauto.
Qed.

Lemma kept_none c c' g : chain_ok c -> kept c c' -> idx c' g = None -> idx c g = None.
Proof.
  intros Hok Hk Hn. apply eq_None_not_Some. intros Hs. apply (kept_idx c c') in Hs; [|done|done]. rewrite Hn in Hs. by destruct Hs.
Qed.

Lemma progressed_refl c h : chain_ok c -> progressed c c h.
Proof. intros Hok. split; auto using kept_refl. Qed.

Lemma progressed_step c c1 c2 o h :
  chain_ok c -> progressed c c1 h -> is_Some (idx c1 h) ->
  pooled c1 (cb_Hash (ob_block o)) = Some o -> bh_Previous (cb_Header (ob_block o)) = h -> idx c1 (cb_Hash (ob_block o)) = None ->
  forall c3, one_accepted c1 c2 o -> progressed c2 c3 (cb_Hash (ob_block o)) -> progressed c c3 h.
Proof.
  intros Hok H1 Hh Hp Hprev Hnone c3 H2 H3. pose proof (pro_ok _ _ _ H1) as Hok1. pose proof (one_ok _ _ _ H2) as Hok2.
  assert (kept c c2) as Hk2 by (eapply kept_trans; [apply H1|apply H2]).
  assert (idx c (cb_Hash (ob_block o)) = None) as Hnone0 by (apply (kept_none c c1); [done|apply H1|done]).
  assert (forall g o', pooled c2 g = Some o' -> pooled c g = Some o') as Hless2.
  { intros g o' Ho'. rewrite (one_pool _ _ _ H2) in Ho'. apply lookup_delete_Some in Ho' as [_ Ho']. by apply (pro_less _ _ _ H1). }
  assert (forall g o', bh_Previous (cb_Header (ob_block o')) = cb_Hash (ob_block o) \/ idx c2 (bh_Previous (cb_Header (ob_block o'))) = None ->
            pooled c2 g = Some o' -> idx c (bh_Previous (cb_Header (ob_block o'))) = None) as Hprev2.
  { intros g o' [-> |Hx] _; [done|]. by apply (kept_none c c2). }
  split.
  - apply H3.
  - eapply kept_trans; [exact Hk2|apply H3].
  - intros g Hg. destruct (pro_index _ _ _ H3 _ Hg) as [Hg2|(o' & Ho' & Hor)].
    2:{ right. exists o'. split; [by apply Hless2|]. right. by eapply Hprev2. }
    apply (one_index _ _ _ H2) in Hg2 as [Hg1| ->]; [by apply (pro_index _ _ _ H1)|]. right. exists o. split; [by apply (pro_less _ _ _ H1)|by left].
  - intros g o' Ho'. destruct (pro_pool _ _ _ H1 _ _ Ho') as [Ho1|[Hs Hor]].
    + destruct (decide (g = cb_Hash (ob_block o))) as [-> |Hne].
      * assert (o' = o) as -> by congruence. right. split; [|by left]. apply (kept_idx c2); [done|apply H3|]. apply (one_index _ _ _ H2). by right.
      * assert (pooled c2 g = Some o') as Ho2 by by rewrite (one_pool _ _ _ H2), lookup_delete_ne.
        destruct (pro_pool _ _ _ H3 _ _ Ho2) as [?|[Hs Hor]]; [by left|]. right. split; [done|]. right. by eapply Hprev2.
    + right. split; [|done]. apply (kept_idx c2); [done|apply H3|]. apply (one_index _ _ _ H2). by left.
  - intros g o' Ho'. apply Hless2, (pro_less _ _ _ H3), Ho'.
Qed.

(** What the recursive call needs to know. *)
Definition ready c h : Prop :=
  chain_ok c /\ is_Some (idx c h) /\ forall g o, pooled c g = Some o -> bh_Previous (cb_Header (ob_block o)) = h -> idx c g = None.

Lemma one_ready c c' o :
  chain_ok c -> idx c (cb_Hash (ob_block o)) = None -> one_accepted c c' o -> ready c' (cb_Hash (ob_block o)).
Proof.
  intros Hok Hnone Hone. split_and!; [apply Hone|apply (one_index _ _ _ Hone); by right|].
  intros g o' Ho' Hprev. rewrite (one_pool _ _ _ Hone) in Ho'. apply lookup_delete_Some in Ho' as [Hne Ho'].
  apply eq_None_not_Some. intros [Hs|]%(one_index _ _ _ Hone); [|done].
  pose proof (orphan_below c g o' Hok Ho' Hs) as Hx. rewrite Hprev, Hnone in Hx. by destruct Hx.
Qed.

Lemma ready_waiting c h : ready c h -> waiting c h (getOrphansByPrevious h (orphanPool c)).
Proof.
  intros (Hok & _ & Hready). destruct (getOrphansByPrevious_spec (orphanPool c) h) as [Hin Hnd]; [apply Hok|].
  split; [exact Hnd|]. intros o Ho. destruct (Hin o Ho) as [Hp Hprev]. split_and!; [done|done|eauto].
Qed.

Lemma wp_orphan_loop gh rec h c0 os c :
  (forall c o, ready c (cb_Hash (ob_block o)) ->
     wp (rec (cb_Hash (ob_block o))) (fun _ c' => progressed c c' (cb_Hash (ob_block o)) /\ tips c c') (fun _ c' => chain_ok c') c) ->
  chain_ok c0 -> progressed c0 c h -> tips c0 c -> is_Some (idx c h) -> waiting c h os ->
  wp (orphan_loop gh rec os) (fun _ c' => progressed c0 c' h /\ tips c0 c') (fun _ c' => chain_ok c') c.
Proof.
  intros Hrec Hok0. revert c. induction os as [|o os IH]; intros c Hpro Htips Hh Hw; cbn [orphan_loop]; [by apply wp_mret|].
  pose proof (pro_ok _ _ _ Hpro) as Hok. destruct (proj2 Hw o) as (Hp & Hprev & Hnone); [set_solver|].
  assert (wp (remember (cb_Hash (ob_block o)) (maybeAcceptBlock gh (ob_block o));; on_orphans (removeOrphanBlock o))
     (fun _ c' => one_accepted c c' o) (fun _ c' => chain_ok c') c) as Hone by by apply wp_one_orphan.
  apply wp_bind. unfold wp in Hone at 1. unfold mbind, prog_bind in Hone. unfold wp at 1.
  destruct (remember _ _ c) as [[[]|e|] c1]; [|done|done].
  apply wp_bind. unfold wp at 1. destruct (on_orphans _ c1) as [[[]|e|] c2]; [|done|done].
  apply wp_bind. eapply wp_mono; [apply Hrec; by eapply one_ready| |done].
  intros [] c3 [Hpro3 Htips3].
  assert (h <> cb_Hash (ob_block o)) as Hne by (intros ->; rewrite Hnone in Hh; by destruct Hh).
  apply IH.
  - by eapply (progressed_step c0 c c2 o).
  - eapply (tips_trans c0 c2); [eapply kept_trans; [apply Hpro|apply Hone]|apply Hpro3| |done].
    eapply (tips_trans c0 c); [apply Hpro|apply Hone|done|apply Hone].
  - apply (kept_idx c2); [apply Hone|apply Hpro3|]. apply (one_index _ _ _ Hone). by left.
  - eapply progressed_waiting; [done| |done|by eapply one_waiting]. apply (one_index _ _ _ Hone). by left.
Qed.

Lemma wp_processOrphans gh fuel h c :
  ready c h ->
  wp (processOrphans gh fuel h) (fun _ c' => progressed c c' h /\ tips c c') (fun _ c' => chain_ok c') c.
Proof.
  revert h c. induction fuel as [|fuel IH]; intros h c Hr; cbn [processOrphans]; [apply wp_throw, Hr|].
  apply wp_bind, wp_gets. apply wp_orphan_loop.
  - intros c' o. apply IH.
  - apply Hr.
  - apply progressed_refl, Hr.
  - apply tips_refl.
  - apply Hr.
  - by apply ready_waiting.
Qed.

(** ** Termination of the recursion *)

Abbreviation pool_size c := (size (entryIndex (block_pool (orphanPool c)))).

(** Accepting one orphan and taking it out of the pool. *)
Definition adopt_one gh (o : orphanBlock B) : prog chain chain_error unit :=
  remember (cb_Hash (ob_block o)) (maybeAcceptBlock gh (ob_block o));; on_orphans (removeOrphanBlock o).

(** The recursion of [processOrphans] as the code has it, without a bound: [adopts os c r c']
    when the loop over [os] comes to an end, with the outcome [r].  After each orphan the loop
    runs over those that wait for it; the first failure ends everything. *)
Inductive adopts gh : list (orphanBlock B) -> chain -> outcome chain_error unit -> chain -> Prop :=
| adopts_none c : adopts gh [] c (Ret tt) c
| adopts_refused o os c r c1 : adopt_one gh o c = (r, c1) -> r <> Ret tt -> adopts gh (o :: os) c r c1
| adopts_failed o os c c1 r c2 :
    adopt_one gh o c = (Ret tt, c1) -> adopts gh (getOrphansByPrevious (cb_Hash (ob_block o)) (orphanPool c1)) c1 r c2 ->
    r <> Ret tt -> adopts gh (o :: os) c r c2
| adopts_next o os c c1 c2 r c3 :
    adopt_one gh o c = (Ret tt, c1) -> adopts gh (getOrphansByPrevious (cb_Hash (ob_block o)) (orphanPool c1)) c1 (Ret tt) c2 ->
    adopts gh os c2 r c3 -> adopts gh (o :: os) c r c3.

Lemma adopts_det gh os c r c' : adopts gh os c r c' -> forall r2 c2, adopts gh os c r2 c2 -> r2 = r /\ c2 = c'.
Proof.
  induction 1; intros r' c''; inversion 1; simplify_eq; try done;
    repeat match goal with
           | E : adopt_one gh ?o ?c = _, E' : adopt_one gh ?o ?c = _ |- _ => rewrite E in E'; simplify_eq
           | IH : forall r2 c2, adopts gh ?os ?c r2 c2 -> _, Hr : adopts gh ?os ?c _ _ |- _ => destruct (IH _ _ Hr); clear IH; simplify_eq
           end; done.
Qed.

Lemma orphan_loop_adopts gh f h os c c0 :
  (forall c o r c', ready c (cb_Hash (ob_block o)) -> (pool_size c < f)%nat -> processOrphans gh f (cb_Hash (ob_block o)) c = (r, c') ->
     adopts gh (getOrphansByPrevious (cb_Hash (ob_block o)) (orphanPool c)) c r c') ->
  chain_ok c0 -> progressed c0 c h -> is_Some (idx c h) -> waiting c h os -> (pool_size c <= f)%nat ->
  forall r c', orphan_loop gh (processOrphans gh f) os c = (r, c') -> adopts gh os c r c'.
Proof.
  intros Hrec Hok0. revert c. induction os as [|o os IH]; intros c Hpro Hh Hw Hf r c'; cbn [orphan_loop]; [intros [= <- <-]; constructor|].
  pose proof (pro_ok _ _ _ Hpro) as Hok. destruct (proj2 Hw o) as (Hp & Hprev & Hnone); [set_solver|].
  assert (wp (adopt_one gh o) (fun _ c' => one_accepted c c' o) (fun _ c' => chain_ok c') c) as Hone by by apply wp_one_orphan.
  unfold wp in Hone. destruct (adopt_one gh o c) as [r1 c2] eqn:E. pose proof E as E'. unfold adopt_one in E. unfold mbind, prog_bind in E |- *.
  destruct (remember _ _ c) as [[[]|e|] c1]; [|intros [= <- <-]; injection E as <- <-; by eapply adopts_refused..].
  destruct (on_orphans _ c1) as [[[]|e|] c1']; injection E as <- <-; [|intros [= <- <-]; by eapply adopts_refused..].
  assert (pool_size c1' < pool_size c)%nat as Hsz2.
  { rewrite (one_pool _ _ _ Hone), map_size_delete_Some by by eexists.
    assert (pool_size c <> 0)%nat; [|lia]. intros Hz%map_size_empty_inv. rewrite Hz in Hp. done. }
  pose proof (one_ready _ _ _ Hok Hnone Hone) as Hr1.
  pose proof (wp_processOrphans gh f (cb_Hash (ob_block o)) c1' Hr1) as Hwp. unfold wp in Hwp.
  destruct (processOrphans gh f (cb_Hash (ob_block o)) c1') as [r3 c3] eqn:E3. pose proof (Hrec _ _ _ _ Hr1 ltac:(lia) E3) as Hin.
  destruct r3 as [[]|e|]; [|intros [= <- <-]; by eapply adopts_failed..]. destruct Hwp as [Hpro3 _].
  assert (h <> cb_Hash (ob_block o)) as Hne by (intros ->; rewrite Hnone in Hh; by destruct Hh).
  assert (pool_size c3 <= pool_size c1')%nat as Hsz3.
  { apply map_subseteq_size, map_subseteq_spec. intros id e. apply (pro_less _ _ _ Hpro3). }
  intros Hr. eapply adopts_next; [done|done|]. apply IH; [| | |lia|done].
  - by eapply (progressed_step c0 c c1' o).
  - apply (kept_idx c1'); [apply Hone|apply Hpro3|]. apply (one_index _ _ _ Hone). by left.
  - eapply progressed_waiting; [done| |done|by eapply one_waiting]. apply (one_index _ _ _ Hone). by left.
Qed.

(** Every level takes a block out of the pool, so that a bound above its size is not reached. *)
Lemma processOrphans_adopts gh f h c r c' :
  ready c h -> (pool_size c < f)%nat -> processOrphans gh f h c = (r, c') -> adopts gh (getOrphansByPrevious h (orphanPool c)) c r c'.
Proof.
  revert h c r c'. induction f as [|f IH]; intros h c r c' Hr Hf; [lia|]. cbn [processOrphans].
  unfold mbind, prog_bind, gets. apply (orphan_loop_adopts gh f h _ c c); [| | | | |lia].
  - intros c1 o r1 c1' Hr' Hf'. by apply IH.
  - apply Hr.
  - apply progressed_refl, Hr.
  - apply Hr.
  - by apply ready_waiting.
Qed.

End invariant.
