(* ===== verification/ProcessSpec.v ===== *)
(** What [processBlock] does to the chain: it keeps it consistent, never prefers a worse tip,
    adopts a better one when the components it calls let it, and remembers errors by hash. *)

From S2P Require Import Prelude Hashes Wire Amount Forks Poc Block OrphanPool OrphanPoolSpec BlockTree BlockTreeSpec ChainTree Chain ChainSpec.

Section process.
Context {B X C : Type} `{!ChainBlock B} `{!LruCache C} {HF : HashFunctions} {CL : ChiaLib}.
Context {TxStore BState : Type} {EV : Env (B := B) (X := X) (C := C) (TxStore := TxStore) (BState := BState)}.
Context {EL : EnvLaws}.
Abbreviation chain := (Chain B X C).
Implicit Types (c : chain) (h : Hash) (b : B) (p q : ptr) (n : BlockNode).
Abbreviation idx c h := (tree_index (tree c) !! h).
Abbreviation nod c p := (nodes (tree c) !! p).
Abbreviation pooled c id := (entryIndex (block_pool (orphanPool c)) !! id).
Abbreviation pool_size c := (size (entryIndex (block_pool (orphanPool c)))).

(** * Processing a block *)

(** The tree and the pools are the same. *)
Definition same_core c c' : Prop :=
  tree c' = tree c /\ orphanPool c' = orphanPool c /\ blockCache c' = blockCache c /\ mem_ok [] c'.

Lemma same_ok c c' : chain_ok c -> same_core c c' -> chain_ok c'.
Proof.
  intros [[Ht Hb Hc Hp Ho Htg] _] (Htree & Hpool & Hcache & Hm). split; [|done].
  split; rewrite ?Htree, ?Hpool, ?Hcache; done.
Qed.

Lemma wp_lookupBest h (Q : option BlockNode -> chain -> Prop) (R : chain_error -> chain -> Prop) c :
  (forall o, Q o c) -> (forall e, R e c) -> wp (lookupBestChainNode h) Q R c.
Proof.
  intros HQ HR. unfold lookupBestChainNode. apply wp_bind, wp_gets. cbn [id].
  destruct (getBlockNode _ _); [apply wp_bind, wp_node; intros n _; by apply wp_mret|].
  destruct (db_FetchBlockHeaderBySha _ _) as [hdr|e|]; [by apply wp_mret| |apply wp_panic].
  destruct e; try by apply wp_throw. by apply wp_mret.
Qed.

Lemma wp_lookup_wrapped h (Q : option BlockNode -> chain -> Prop) (R : chain_error -> chain -> Prop) c :
  (forall o, Q o c) -> (forall e, R e c) ->
  wp (fun c => match lookupBestChainNode h c with (Err _, c') => (Err errCheckpointLookup, c') | r => r end) Q R c.
Proof.
  intros HQ HR. pose proof (wp_lookupBest h (fun _ c' => c' = c) (fun _ c' => c' = c) c (fun _ => eq_refl) (fun _ => eq_refl)) as Hw.
  unfold wp in *. destruct (lookupBestChainNode h c) as [[o|e|] c']; subst; auto.
Qed.

Lemma wp_search cps i c :
  wp (search_checkpoint cps i) (fun _ c' => exists k m, c' = set_checkpoint c k m) (fun _ c' => c' = c) c.
Proof.
  induction i as [|i IH]; cbn [search_checkpoint]; [apply wp_bind, wp_modify, wp_mret; eauto|].
  apply wp_bind, wp_lift; [|done]. intros cp _. apply wp_bind, wp_lookup_wrapped; [|done]. intros [node|]; [|done].
  apply wp_bind, wp_modify, wp_mret. eauto.
Qed.

Lemma wp_findPrevious c :
  wp findPreviousCheckpoint (fun _ c' => exists k m, c' = set_checkpoint c k m) (fun _ c' => c' = c) c.
Proof.
  unfold findPreviousCheckpoint. apply wp_bind, wp_gets. cbn [id].
  assert (exists k m, c = set_checkpoint c k m) as Hself by (exists (nextCheckpoint c), (checkpointNode c); by destruct c).
  destruct (checkpoints c) as [|cp cps] eqn:Hcps; [by apply wp_mret|].
  destruct (nextCheckpoint c) as [i|]; [|destruct (checkpointNode c); [by apply wp_mret|apply wp_search]].
  apply wp_bind, wp_lift; [|done]. intros next _. apply wp_bind. unfold BestBlockHeight. apply wp_bind, wp_gets. cbn [id].
  destruct (bestNode (tree c)); [|apply wp_panic]. apply wp_bind, wp_node. intros n _. apply wp_mret.
  destruct (_ <? _); [by apply wp_mret|]. apply wp_bind, wp_lookup_wrapped; [|done].
  intros [node|]; [|by apply wp_throw]. apply wp_bind, wp_modify, wp_mret. eauto.
Qed.

Lemma checkpoint_same c c1 k m : same_core c c1 -> same_core c (set_checkpoint c1 k m).
Proof. by intros (? & ? & ? & ?). Qed.

Lemma wp_sanity b c :
  chain_ok c ->
  wp (remember (cb_Hash b) (call (checkBlockSanity b)))
     (fun _ c' => same_core c c' /\ 0 < bh_Target (cb_Header b)) (fun _ c' => chain_ok c') c.
Proof.
  intros Hok. apply wp_remember, wp_call.
  - intros [] x Hk. split; [|by eapply sanity_target]. split_and!; [done|done|done|].
    apply (mem_call [] _ _ _ _ (proj2 Hok) Hk). done.
  - intros e x Hk. apply chain_ext; [apply Hok|]. apply (mem_call [] _ _ _ _ (proj2 Hok) Hk). done.
Qed.

(** A block that has entered the tree is ready for its orphans. *)
Lemma accepted_ready c c' b :
  chain_ok c -> idx c (cb_Hash b) = None -> pooled c (cb_Hash b) = None -> accepted c c' b -> ready c' (cb_Hash b).
Proof.
  intros Hok Hnone Hout Hacc. split_and!; [apply Hacc|apply (acc_index _ _ _ Hacc); by right|].
  intros g o Ho Hprev. rewrite (acc_pool _ _ _ Hacc) in Ho. apply eq_None_not_Some.
  intros [Hs| ->]%(acc_index _ _ _ Hacc); [|congruence].
  pose proof (orphan_below c g o Hok Ho Hs) as Hx. rewrite Hprev, Hnone in Hx. by destruct Hx.
Qed.

(** Adding an orphan whose parent is unknown. *)
Lemma wp_add_orphan now items b c :
  chain_ok c -> idx c (cb_Hash b) = None -> pooled c (cb_Hash b) = None -> 0 < bh_Target (cb_Header b) ->
  items ≡ₚ Items (block_pool (orphanPool c)) ->
  wp (on_orphans (addOrphanBlock now items b)) (fun _ c' => chain_ok c' /\ tree c' = tree c) (fun _ c' => chain_ok c') c.
Proof.
  intros Hok Hnone Hout HT Hperm. pose proof Hok as [[Ht Hb Hc Hp Ho Htg] Hm].
  destruct (add_spec now items b (orphanPool c) Hp Hperm) as (ors & Hadd & Hors & Hlive).
  { unfold isOrphanInPool, Has. cbn. by rewrite Hout. }
  unfold wp, on_orphans. rewrite Hadd. split; [|done]. split; [split|]; cbn; try done.
  - intros id o p n Hid Hi. destruct (Hlive id o Hid) as [Hold|[-> _]]; [eauto|]. cbn in Hi. congruence.
  - intros id o Hid. destruct (Hlive id o Hid) as [Hold|[_ ->]]; [eauto|done].
Qed.

(** The tree keeps its nodes and the tip does not get worse. *)
Definition grows c c' : Prop := kept c c' /\ tips c c'.

Lemma grows_trans c1 c2 c3 : grows c1 c2 -> grows c2 c3 -> grows c1 c3.
Proof. intros [Hk Ht] [Hk' Ht']. split; [by eapply kept_trans|by eapply tips_trans]. Qed.

Lemma same_grows c c' : tree c' = tree c -> grows c c'.
Proof.
  intros Htree. split.
  - intros g p n Hi Hn. rewrite Htree. split; [done|]. exists n. by repeat split.
  - intros best Hb. destruct (tok_best _ _ Hb) as (_ & n & Hn & _). exists best, n, n. rewrite Htree. auto.
Qed.

(** Accepting a block and the orphans that wait for it. *)
Lemma wp_accept gh b c :
  chain_ok c -> idx c (cb_Hash b) = None -> pooled c (cb_Hash b) = None -> 0 < bh_Target (cb_Header b) ->
  wp (remember (cb_Hash b) (maybeAcceptBlock gh b);; c ← gets id; processOrphans gh (S (pool_size c)) (cb_Hash b);; mret false)
     (fun _ c' => chain_ok c' /\ grows c c') (fun _ c' => chain_ok c') c.
Proof.
  intros Hok Hnone Hout HT. apply wp_bind, wp_remember. eapply wp_mono; [by apply wp_maybeAcceptBlock| |done].
  intros [] c1 Hacc. apply wp_bind, wp_gets. cbn [id]. apply wp_bind.
  eapply wp_mono; [apply wp_processOrphans; by eapply accepted_ready| |done].
  intros [] c2 [Hpro Htips]. apply wp_mret. split; [apply Hpro|]. eapply grows_trans; [|by split; [apply Hpro|]].
  split; [apply Hacc|by eapply accepted_tips].
Qed.

Lemma not_exists c h : blockExists h c = false -> idx c h = None.
Proof. unfold blockExists, nodeExists, getBlockNode. destruct (idx c h); [done|done]. Qed.

Lemma not_orphan c h : isOrphanInPool h (orphanPool c) = false -> pooled c h = None.
Proof. unfold isOrphanInPool, Has. by destruct (pooled c h). Qed.

Lemma wp_processBlock gh now items b c :
  chain_ok c -> items ≡ₚ Items (block_pool (orphanPool c)) ->
  wp (processBlock gh now items b) (fun _ c' => chain_ok c' /\ grows c c') (fun _ c' => chain_ok c') c.
Proof.
  intros Hok Hperm. unfold processBlock. apply wp_bind, wp_gets. cbn [id].
  destruct (blockExists _ c) eqn:Hex; [apply wp_mret; split; [done|by apply same_grows]|]. apply not_exists in Hex.
  destruct (isOrphanInPool _ _) eqn:Hor; [apply wp_mret; split; [done|by apply same_grows]|]. apply not_orphan in Hor.
  apply wp_bind. unfold wp at 1, errCache_Get. destruct (lru_Get _ _) as [o cache].
  assert (same_core c (set_errs c cache)) as Hs by (split_and!; [done..|apply Hok]). pose proof (same_ok _ _ Hok Hs) as Hok1.
  set (c1 := set_errs c cache) in *. destruct o as [e|]; [by apply wp_throw|].
  apply wp_bind. eapply wp_mono; [by apply (wp_sanity b c1)| |done]. intros [] c2 [Hs2 HT].
  pose proof (same_ok _ _ Hok1 Hs2) as Hok2.
  apply wp_bind. eapply wp_mono; [apply wp_findPrevious| |by intros ? ? ->].
  intros checkpoint c3 (k & m & ->). pose proof (checkpoint_same _ _ k m Hs2) as Hs3. set (c3 := set_checkpoint c2 k m) in *.
  pose proof (same_ok _ _ Hok1 Hs3) as Hok3. destruct Hs3 as (Htree & Hpool & _ & _).
  change (tree c1) with (tree c) in Htree. change (orphanPool c1) with (orphanPool c) in Hpool.
  assert (grows c c3) as Hg by by apply same_grows.
  rewrite <- Htree in Hex. rewrite <- Hpool in Hor, Hperm.
  apply wp_bind. assert (forall Q : unit -> chain -> Prop, Q tt c3 -> wp (match checkpoint with
         | Some n => fail_if (instant (bh_Timestamp (cb_Header b)) <? instant (node_Timestamp n)) ErrCheckpointTimeTooOld
         | None => mret tt end) Q (fun _ c' => chain_ok c') c3) as Hcp.
  { intros Q HQ. destruct checkpoint; [by apply wp_fail_if|by apply wp_mret]. }
  apply Hcp. apply wp_bind, wp_gets. cbn [id]. destruct (_ && _).
  - apply wp_bind. eapply wp_mono; [by apply wp_add_orphan| |done]. intros [] c4 [Hok4 Htree4]. apply wp_mret.
    split; [done|]. eapply grows_trans; [done|by apply same_grows].
  - eapply wp_mono; [by apply wp_accept| |done]. intros a c4 [Hok4 Hg4]. split; [done|by eapply grows_trans].
Qed.

(** One block is processed, at any time and with any order of the orphan pool; a panic ends
    the process. *)
Inductive processed gh : chain -> chain -> Prop :=
| processed_block now items b o c c' :
    items ≡ₚ Items (block_pool (orphanPool c)) -> processBlock gh now items b c = (o, c') -> o <> Panic -> processed gh c c'.

Lemma processed_ok gh c c' : chain_ok c -> processed gh c c' -> chain_ok c'.
Proof.
  intros Hok Hp. destruct Hp as [now items b o c c' Hperm Hrun Hnp] in Hok |- *. pose proof (wp_run _ _ _ _ _ _ Hrun (wp_processBlock gh now items b c Hok Hperm)).
  destruct o; naive_solver.
Qed.

(** C2: Processing blocks keeps the chain consistent, whatever blocks arrive, in whatever order,
    and whatever the components it calls answer, within three laws ([EnvLaws]: a block hash has
    one parent hash, the database gains a header only by a commit of its block that succeeded,
    and the sanity check refuses targets that are not positive): the block tree stays one tree whose main chain
    is the ancestry of the best node, side blocks are cached under their hash, the orphan pool
    and its index agree, and every header in the database has a node.  When a block is processed
    without error, no node is lost or changed, and the tip is the old one or a better one. *)
Theorem process_keeps_chain gh c c' c'' now items b r :
  chain_ok c -> rtc (processed gh) c c' -> items ≡ₚ Items (block_pool (orphanPool c')) ->
  processBlock gh now items b c' = (Ret r, c'') -> chain_ok c' /\ chain_ok c'' /\ kept c' c'' /\ tips c' c''.
Proof.
  intros Hok Hrun Hperm Hlast.
  assert (chain_ok c') as Hok' by (revert Hok; induction Hrun; eauto using processed_ok).
  pose proof (wp_run _ _ _ _ _ _ Hlast (wp_processBlock gh now items b c' Hok' Hperm)) as [Hok'' [Hk Ht]]. done.
Qed.

(** C24: Adopting orphans ends: from every consistent chain whose tree holds the block, the
    recursion over the orphans that wait for it, as the code has it and without a bound, comes to
    an end, and every bound on its depth above the size of the orphan pool gives exactly that
    result. *)
Theorem orphans_terminate gh h c :
  ready c h ->
  exists r c', adopts gh (getOrphansByPrevious h (orphanPool c)) c r c' /\
    forall f, (size (entryIndex (block_pool (orphanPool c))) < f)%nat -> processOrphans gh f h c = (r, c').
Proof.
  intros Hr. destruct (processOrphans gh (S (pool_size c)) h c) as [r c'] eqn:E. exists r, c'.
  pose proof (processOrphans_adopts _ _ _ _ _ _ Hr (Nat.lt_succ_diag_r _) E) as Ha. split; [done|].
  intros f Hf. destruct (processOrphans gh f h c) as [r2 c2] eqn:E2.
  by destruct (adopts_det _ _ _ _ _ Ha _ _ (processOrphans_adopts _ _ _ _ _ _ Hr Hf E2)) as [-> ->].
Qed.

(** A block is judged by its hash once it has failed: after the sanity check of one block
    fails, every other block with the same header hash is refused with the same error without
    being looked at, as long as the error stays in the cache. *)
Theorem error_poisons_hash gh now now' items items' b b' c e x :
  (forall h e cache, (lru_Get h (lru_Add h e cache)).1 = Some e) ->
  cb_Hash b' = cb_Hash b -> blockExists (cb_Hash b) c = false -> isOrphanInPool (cb_Hash b) (orphanPool c) = false ->
  lru_Get (cb_Hash b) (errCache c) = (None, errCache c) ->
  env_call (checkBlockSanity b') c = (Err e, x) -> db_ExistsSha x (cb_Hash b) = false ->
  exists c1, processBlock gh now items b' c = (Err e, c1) /\ (processBlock gh now' items' b c1).1 = Err e.
Proof.
  intros Hlru Hh Hex Hor Hmiss Hsan Hx. set (c1 := set_errs (set_ext c x) (lru_Add (cb_Hash b) e (errCache c))).
  exists c1. split.
  - unfold processBlock, mbind, prog_bind, gets, id, errCache_Get. rewrite Hh, Hex, Hor, Hmiss.
    assert (set_errs c (errCache c) = c) as -> by by destruct c. unfold remember, call. rewrite Hsan. done.
  - assert (blockExists (cb_Hash b) c1 = false) as Hex1.
    { unfold blockExists in Hex |- *. cbn. apply orb_false_iff in Hex as [-> _]. done. }
    unfold processBlock, mbind, prog_bind, gets, id, errCache_Get. rewrite Hex1. change (orphanPool c1) with (orphanPool c). rewrite Hor.
    change (errCache c1) with (lru_Add (cb_Hash b) e (errCache c)).
    pose proof (Hlru (cb_Hash b) e (errCache c)) as Hget. destruct (lru_Get (cb_Hash b) (lru_Add _ _ _)) as [o cache]. cbn in Hget. by rewrite Hget.
Qed.
End process.
