(* ===== verification/ChainLive.v ===== *)
(** When the components the chain calls accept what it asks, a block it is given is processed
    without error, or refused by a remembered error or a checkpoint and the tree left alone, and
    its tip is the best block it knows. *)

From S2P Require Import Prelude Hashes Wire Amount Forks Poc Block OrphanPool OrphanPoolSpec BlockTree BlockTreeSpec ChainTree Chain ChainSpec ProcessSpec.

(** * Runs that return *)

(** [twp p Q s]: the run of [p] from [s] returns, and ends in [Q]. *)
Definition twp {S E A} (p : prog S E A) (Q : A -> S -> Prop) (s : S) : Prop :=
  match p s with (Ret a, s') => Q a s' | _ => False end.

Section twp.
Context {S E A B : Type}.
Implicit Types (p : prog S E A) (s : S).

Lemma twp_bind p (f : A -> prog S E B) Q s : twp p (fun a => twp (f a) Q) s -> twp (p ≫= f) Q s.
Proof. unfold twp, mbind, prog_bind. by destruct (p s) as [[a|e|] s']. Qed.

Lemma twp_mono p (Q Q' : A -> S -> Prop) s : twp p Q s -> (forall a s', Q a s' -> Q' a s') -> twp p Q' s.
Proof. unfold twp. destruct (p s) as [[a|e|] s']; auto. Qed.

(** What holds of every run that returns holds of this one. *)
Lemma twp_wp p (Q Q' : A -> S -> Prop) R s : wp p Q R s -> twp p Q' s -> twp p (fun a s' => Q a s' /\ Q' a s') s.
Proof. unfold wp, twp. destruct (p s) as [[a|e|] s']; auto. Qed.

Lemma twp_gets (g : S -> A) (Q : A -> S -> Prop) s : Q (g s) s -> twp (E := E) (gets g) Q s.
Proof. done. Qed.
Lemma twp_mret (a : A) (Q : A -> S -> Prop) s : Q a s -> twp (E := E) (mret a) Q s.
Proof. done. Qed.
Lemma twp_modify (g : S -> S) (Q : unit -> S -> Prop) s : Q tt (g s) -> twp (E := E) (modify g) Q s.
Proof. done. Qed.
Lemma twp_fail_if b (e : E) (Q : unit -> S -> Prop) s : b = false -> Q tt s -> twp (fail_if b e) Q s.
Proof. intros ->. done. Qed.
End twp.

(** * The components *)

Section live.
Context {B X C : Type} `{!ChainBlock B} `{!LruCache C} {HF : HashFunctions} {CL : ChiaLib}.
Context {TxStore BState : Type} {EV : Env (B := B) (X := X) (C := C) (TxStore := TxStore) (BState := BState)}.
Abbreviation chain := (Chain B X C).
Implicit Types (c : chain) (h : Hash) (b : B) (p q : ptr) (n : BlockNode).
Abbreviation idx c h := (tree_index (tree c) !! h).
Abbreviation nod c p := (nodes (tree c) !! p).
Abbreviation pooled c id := (entryIndex (block_pool (orphanPool c)) !! id).
Abbreviation pool_size c := (size (entryIndex (block_pool (orphanPool c)))).

(** Every call succeeds, the database returns the block of the hash and has the header of every
    block it says it has, reading a header does not crash, and the binding state of a block is the
    one its header commits to. *)
Class EnvSucceeds := {
  call_returns {A} (k : Call A) c : is_Ret (env_call k c).1;
  fetch_hash h c b x : env_call (db_FetchBlockBySha h) c = (Ret b, x) -> cb_Hash b = h;
  exists_header x h : db_ExistsSha x h = true -> is_Ret (db_FetchBlockHeaderBySha x h);
  header_read x h : db_FetchBlockHeaderBySha x h <> Panic;
  attach_root st b store c st' x : env_call (index_AttachBlock st b store) c = (Ret st', x) -> state_Hash st' = bh_BindingRoot (cb_Header b);
  commit_root st c root x : env_call (state_Commit st) c = (Ret root, x) -> root = state_Hash st;
}.
Context {EL : EnvLaws} {ES : EnvSucceeds}.

Lemma twp_call {A} (k : Call A) (Q : A -> chain -> Prop) c :
  (forall a x, env_call k c = (Ret a, x) -> Q a (set_ext c x)) -> twp (call k) Q c.
Proof.
  intros HQ. unfold twp, call. destruct (call_returns k c) as [a Ha]. destruct (env_call k c) as [o x] eqn:Hk.
  cbn in Ha. subst o. by apply HQ.
Qed.

Lemma twp_try (k : Call unit) (Q : unit -> chain -> Prop) c : (forall x, Q tt (set_ext c x)) -> twp (try_call k) Q c.
Proof. intros HQ. unfold twp, try_call, ignore_err, call. destruct (call_returns k c) as [[] Ha]. destruct (env_call k c) as [o x]. cbn in Ha. by subst o. Qed.

Lemma twp_on_tree {A} (p : tree_prog A) (Q : A -> chain -> Prop) c :
  twp p (fun a t => Q a (set_tree c t)) (tree c) -> twp (on_tree p) Q c.
Proof. unfold twp, on_tree, zoom. by destruct (p (tree c)) as [[a|e|] t]. Qed.

Lemma twp_load p n (Q : BlockNode -> BlockTree -> Prop) t : nodes t !! p = Some n -> Q n t -> twp (load p) Q t.
Proof. intros Hn HQ. unfold twp, load. by rewrite Hn. Qed.

Lemma twp_node p n (Q : BlockNode -> chain -> Prop) c : nod c p = Some n -> Q n c -> twp (on_tree (load p)) Q c.
Proof. intros Hn HQ. eapply twp_on_tree, twp_load; [done|]. by destruct c. Qed.

Lemma twp_best_hash best n (Q : Hash -> chain -> Prop) c :
  bestNode (tree c) = Some best -> nod c best = Some n -> Q (node_Hash n) c -> twp best_hash Q c.
Proof.
  intros Hb Hn HQ. unfold best_hash. apply twp_bind, twp_gets. cbn [id]. rewrite Hb. eapply twp_bind, twp_node; [done|]. done.
Qed.

(** * Connecting and disconnecting *)

Lemma bytes_Equal_refl h : bytes_Equal h h = true.
Proof. by apply bytes_Equal_true. Qed.

Lemma twp_commit_state p header st (Q : unit -> chain -> Prop) c :
  state_Hash st = bh_BindingRoot header -> (forall x, Q tt (set_ext c x)) -> twp (commit_state p header st) Q c.
Proof.
  intros Hroot HQ. unfold commit_state. apply twp_bind, twp_fail_if; [by rewrite Hroot, bytes_Equal_refl|].
  apply twp_bind, twp_call. intros [] x _. apply twp_bind. unfold twp at 1.
  assert (twp (call (state_Commit st)) (fun root c' => root = state_Hash st /\ exists y, c' = set_ext c y) (set_ext c x)) as Hc.
  { apply twp_call. intros root y Hk. split; [by eapply commit_root|]. by exists y. }
  unfold twp in Hc. destruct (call (state_Commit st) _) as [[root|e|] c1]; [|done|done]. destruct Hc as [-> [y ->]].
  rewrite bytes_Equal_refl. apply twp_mret, HQ.
Qed.

Lemma twp_connectBlock p b n best nb (Q : unit -> chain -> Prop) c :
  nod c p = Some n -> bestNode (tree c) = Some best -> nod c best = Some nb -> bh_Previous (cb_Header b) = node_Hash nb ->
  (forall x, Q tt (set_ext (tip_moved c p n true (Some p)) x)) -> twp (connectBlock p b) Q c.
Proof.
  intros Hn Hb Hnb Hprev HQ. unfold connectBlock. apply twp_bind.
  assert (twp (connect_store p b) (fun _ c' => exists x, c' = set_ext c x) c) as Hs.
  { unfold connect_store. eapply twp_bind, twp_best_hash; [done|done|].
    apply twp_bind, twp_fail_if; [by rewrite Hprev, bytes_Equal_refl|].
    apply twp_bind, twp_call. intros store x1 _. apply twp_bind, twp_call. intros [] x2 _.
    apply twp_bind, twp_call. intros st x3 _. apply twp_bind, twp_call. intros st' x4 Hk.
    eapply twp_bind, twp_node; [done|]. apply twp_bind.
    assert (forall x, twp (call (db_Commit (node_Hash n))) (fun _ c' => exists x, c' = set_ext c x) (set_ext c x)) as Hfin.
    { intros x. apply twp_call. intros [] y _. by exists y. }
    destruct (EnforceMASSIP0002WarmUp _); [|by apply twp_mret, Hfin].
    apply twp_commit_state; [by eapply attach_root|]. intros x. apply Hfin. }
  unfold twp at 1, with_rollback. unfold twp in Hs. destruct (connect_store p b c) as [[[]|e|] c1]; [|done|done].
  destruct Hs as [x ->]. apply twp_bind, twp_on_tree. unfold store.
  eapply twp_bind, twp_load; [done|]. apply twp_modify. apply twp_bind, twp_on_tree, twp_modify.
  apply twp_bind, twp_try. intros y. apply twp_try. intros z. apply HQ.
Qed.

Lemma twp_disconnectBlock p b n (Q : unit -> chain -> Prop) c :
  nod c p = Some n -> bestNode (tree c) = Some p ->
  (forall x, Q tt (set_cache (set_ext (tip_moved c p n false (Parent n)) x) (<[cb_Hash b := b]> (blockCache c)))) ->
  twp (disconnectBlock p b) Q c.
Proof.
  intros Hn Hb HQ. unfold disconnectBlock. eapply twp_bind, twp_node; [done|]. eapply twp_bind, twp_best_hash; [done|done|].
  apply twp_bind, twp_fail_if; [by rewrite bytes_Equal_refl|].
  apply twp_bind, twp_call. intros [] x1 _. apply twp_bind, twp_call. intros [] x2 _. apply twp_bind, twp_call. intros [] x3 _.
  apply twp_bind, twp_on_tree. unfold store. eapply twp_bind, twp_load; [done|]. apply twp_modify.
  apply twp_bind, twp_modify. apply twp_bind, twp_on_tree, twp_modify. apply twp_try. intros y. apply HQ.
Qed.

(** * Reorganisations *)

(** The blocks off the main chain are in the cache. *)
Definition sides_cached c : Prop :=
  forall h p n, idx c h = Some p -> nod c p = Some n -> InMainChain n = false -> is_Some (blockCache c !! h).

(** The error cache and the checkpoints are not touched. *)
Definition unmarked c c' : Prop := checkpoints c' = checkpoints c /\ nextCheckpoint c' = nextCheckpoint c.

Lemma unmarked_trans c1 c2 c3 : unmarked c1 c2 -> unmarked c2 c3 -> unmarked c1 c3.
Proof. unfold unmarked. intuition congruence. Qed.

(** Blocks stay in the cache. *)
Definition cache_grows c c' : Prop := forall h, is_Some (blockCache c !! h) -> is_Some (blockCache c' !! h).

Definition indexed c : Prop := forall h p n, idx c h = Some p -> nod c p = Some n -> node_Hash n = h.

Lemma twp_detach_all D anc L c best :
  bestNode (tree c) = Some best -> path (tree c) best (D ++ anc :: L) -> sides_cached c -> indexed c ->
  twp (detach_all D) (fun _ c' => sides_cached c' /\ unmarked c c' /\ cache_grows c c') c.
Proof.
  revert c best. induction D as [|d D IH]; intros c best Hb Hp Hc Hin; cbn [detach_all app] in *.
  { apply twp_mret. split_and!; [done|done|]. by intros h. }
  destruct (path_head _ _ _ Hp) as [? [= -> _]].
  assert (exists q rest, D ++ anc :: L = q :: rest) as (q & rest & Hrest) by (destruct D; cbn; eauto).
  pose proof (path_nodup _ _ _ Hp) as Hnd. apply NoDup_cons in Hnd as [Hnot _].
  rewrite Hrest in Hp. destruct (path_has_parent _ best [] best q rest Hp) as (n & Hn & Hpar).
  pose proof (path_tail _ best [best] q rest Hp) as Hq. rewrite <- Hrest in Hq.
  eapply twp_bind, twp_node; [done|]. apply twp_bind, twp_call. intros b y Hk. apply fetch_hash in Hk.
  apply twp_bind, (twp_disconnectBlock best b n); [done|done|]. intros z. set (c1 := set_cache _ _).
  assert (forall a na, nod c1 a = Some na -> exists na0, nod c a = Some na0 /\ node_Hash na = node_Hash na0 /\ (a = best \/ na = na0)) as Hback.
  { intros a na. cbn. rewrite lookup_insert_Some. intros [[<- <-]|[_ ?]]; [|eauto]. exists n. auto. }
  assert (cache_grows c c1) as Hg by (intros h; cbn; rewrite lookup_insert; case_decide; eauto).
  eapply twp_mono; [apply (IH c1 q)|].
  - cbn. done.
  - apply (path_ext _ _ _ _ Hq). intros a na Ha Hna. exists na. cbn. rewrite lookup_insert_ne; [done|]. intros ->. done.
  - intros h a na Hi Hna Hflag. destruct (Hback _ _ Hna) as (na0 & Hna0 & _ & [-> | ->]); [|by eapply Hg, Hc].
    assert (na0 = n) as -> by congruence. cbn. rewrite Hk, (Hin h best n Hi Hn), lookup_insert_eq. eauto.
  - intros h a na Hi Hna. destruct (Hback _ _ Hna) as (na0 & Hna0 & -> & _). eauto.
  - intros [] c' (Hc' & Hu & Hsub). split_and!; [done|done|]. intros h Hh. by apply Hsub, Hg.
Qed.

(** The blocks of a branch are cached. *)
Definition branch_cached c (ps : list ptr) : Prop := forall p n, p ∈ ps -> nod c p = Some n -> is_Some (blockCache c !! node_Hash n).

Lemma moved_node c c' p n' : moved c c' -> is_Some (nod c p) -> nod c' p = Some n' ->
  exists n, nod c p = Some n /\ Parent n' = Parent n /\ node_Hash n' = node_Hash n /\ blockHeader n' = blockHeader n /\ CapSum n' = CapSum n /\ node_Quality n' = node_Quality n.
Proof.
  intros (_ & _ & Hn) [n Hp] Hn'. destruct (Hn p n Hp) as (n'' & Hn'' & ?). assert (n'' = n') as -> by congruence. eauto.
Qed.

(** A cached block of a node follows the parent of the node. *)
Lemma cached_previous c best p n q nq b :
  struct_ok c -> tree_ok (tree c) best -> nod c p = Some n -> idx c (node_Hash n) = Some p -> Parent n = Some q -> nod c q = Some nq ->
  blockCache c !! node_Hash n = Some b -> bh_Previous (cb_Header b) = node_Hash nq.
Proof.
  intros Hs Ht Hn Hi Hpar Hq Hb. destruct (cok_block _ Hs _ _ _ Hi Hn) as (b' & Hh & Hhd).
  rewrite (prev_determined b b') by (rewrite Hh; by eapply cok_cache). rewrite Hhd. change (node_Previous n = node_Hash nq).
  pose proof (tok_parent _ _ Ht _ _ _ _ Hi Hn Hpar) as Hiq. destruct (tok_index _ _ Ht _ _ Hiq) as (nq' & Hnq' & <-). congruence.
Qed.

Lemma twp_attach_all ps c q :
  chain_ok c -> tree_ok (tree c) q -> linked c q ps -> branch_cached c ps -> sides_cached c ->
  twp (attach_all ps) (fun _ c' => sides_cached c' /\ unmarked c c') c.
Proof.
  revert c q. induction ps as [|p ps IH]; intros c q [Hs Hm] Ht Hl Hbr Hside; cbn [attach_all]; [by apply twp_mret; split|].
  inversion Hl as [|? ? n ? Hn Hi Hpar Hl']; subst. destruct (tok_best _ _ Ht) as (Hb & nq & Hnq & Hiq).
  destruct (Hbr p n ltac:(set_solver) Hn) as [b Hcb].
  pose proof (cached_previous _ _ _ _ _ _ _ Hs Ht Hn Hi Hpar Hnq Hcb) as Hprev.
  eapply twp_bind, twp_node; [done|]. apply twp_bind. unfold cache_getBlock. apply twp_bind, twp_gets. cbn [id].
  rewrite Hcb. apply twp_mret. apply twp_bind.
  eapply twp_mono; [apply twp_wp with (R := fun _ _ => True) (Q := fun _ c1 => chain_ok c1 /\ exists y, c1 = set_ext (tip_moved c p n true (Some p)) y)
    (Q' := fun _ _ => True)|].
  - apply (wp_connectBlock [] [] p b n); [done|done|auto|by left; eexists| |done].
    intros y t nt _ _ _ Hy. split; [|eauto]. set (c1 := set_ext _ _).
    assert (moved c c1) as Hmv by (apply (moved_tip c p n true (Some p) y Hn)).
    split; [apply (struct_moved c); [done|done| |]|by apply (mem_moved c c1 y)].
    + exists p. exact (tree_connect _ q p n _ Ht Hi Hn Hpar).
    + intros h b'. by apply (cok_cache _ Hs).
  - by eapply twp_connectBlock.
  - intros [] c1 [[Hok1 [y ->]] _]. set (c1 := set_ext _ _) in *.
    assert (moved c c1) as Hmv by (apply (moved_tip c p n true (Some p) y Hn)).
    eapply twp_mono; [apply (IH c1 p Hok1)|done].
    + exact (tree_connect _ q p n _ Ht Hi Hn Hpar).
    + by eapply linked_moved.
    + intros a na Ha. cbn. rewrite lookup_insert_Some. intros [[<- <-]|[_ Hna]]; [eauto|]. apply (Hbr a na); [set_solver|done].
    + intros h a na Hia. cbn. rewrite lookup_insert_Some. intros [[<- <-]|[_ Hna]]; [done|]. by eapply Hside.
Qed.

Lemma twp_ensure_cached ps (Q : unit -> chain -> Prop) c :
  branch_cached c ps -> (forall p, p ∈ ps -> is_Some (nod c p)) -> Q tt c -> twp (ensure_cached ps) Q c.
Proof.
  intros Hbr Hin HQ. induction ps as [|p ps IH]; cbn [ensure_cached]; [by apply twp_mret|].
  destruct (Hin p) as [n Hn]; [set_solver|]. destruct (Hbr p n) as [b Hb]; [set_solver|done|].
  eapply twp_bind, twp_node; [done|]. apply twp_bind. unfold cache_getBlock. apply twp_bind, twp_gets. cbn [id]. rewrite Hb.
  apply twp_mret, IH; [intros a na Ha; apply Hbr; set_solver|intros a Ha; apply Hin; set_solver].
Qed.

Lemma twp_check_attach ps st (Q : unit -> chain -> Prop) c :
  branch_cached c ps -> (forall p, p ∈ ps -> is_Some (nod c p)) -> (forall x, Q tt (set_ext c x)) -> twp (check_attach ps st) Q c.
Proof.
  revert st c. induction ps as [|p ps IH]; intros st c Hbr Hin HQ; cbn [check_attach].
  { apply twp_mret. destruct c. apply HQ. }
  destruct (Hin p) as [n Hn]; [set_solver|]. destruct (Hbr p n) as [b Hb]; [set_solver|done|].
  eapply twp_bind, twp_node; [done|]. apply twp_bind. unfold cache_getBlock. apply twp_bind, twp_gets. cbn [id]. rewrite Hb. apply twp_mret.
  assert (forall st' x, twp (call (checkConnectBlock p b (Some st'));; st'' ← call (connectState st' b); check_attach ps (Some st'')) Q (set_ext c x)) as Hrest.
  { intros st' x. apply twp_bind, twp_call. intros [] y _. apply twp_bind, twp_call. intros st'' z _.
    apply IH; [intros a na Ha Hna; apply (Hbr a na); [set_solver|done]|intros a Ha; apply (Hin a); set_solver|done]. }
  apply twp_bind. destruct st as [st|]; [apply twp_mret; destruct c; apply Hrest|apply twp_call; intros st x _; apply Hrest].
Qed.

Lemma tree_indexed c best : tree_ok (tree c) best -> indexed c.
Proof. intros Ht h p n Hi Hn. by rewrite (index_inj _ _ Ht _ _ _ Hi Hn). Qed.

Lemma elem_of_rev (a : ptr) (l : list ptr) : a ∈ rev l <-> a ∈ l.
Proof. by rewrite !list_elem_of_In, <- in_rev. Qed.

Lemma branch_sides c best h p A anc L :
  tree_ok (tree c) best -> idx c h = Some p -> path (tree c) p (A ++ anc :: L) -> sides_cached c ->
  (forall a, a ∈ A -> exists n, nod c a = Some n /\ InMainChain n = false) -> branch_cached c (rev A).
Proof.
  intros Ht Hi Hp Hside Hoff a n Ha Hn. rewrite elem_of_rev in Ha. destruct (Hoff a Ha) as (n' & Hn' & Hflag).
  assert (n' = n) as -> by congruence. eapply Hside; [|done|done].
  eapply path_indexed; [exact Ht|exact Hi|exact Hp|set_solver|done].
Qed.

Lemma twp_reorganizeChain gh D A anc L p h best c :
  chain_ok c -> tree_ok (tree c) best -> idx c h = Some p ->
  path (tree c) best (D ++ anc :: L) -> path (tree c) p (A ++ anc :: L) -> D <> [] -> A <> [] ->
  sides_cached c -> (forall a, a ∈ A -> exists n, nod c a = Some n /\ InMainChain n = false) ->
  twp (reorganizeChain gh D (rev A)) (fun _ c' => sides_cached c' /\ unmarked c c') c.
Proof.
  intros Hok Ht Hi Hb Hp HD HA Hside Hoff. unfold reorganizeChain.
  pose proof (branch_sides c best h p A anc L Ht Hi Hp Hside Hoff) as Hbr.
  assert (forall a, a ∈ rev A -> is_Some (nod c a)) as Hin by (intros a Ha; rewrite elem_of_rev in Ha; destruct (Hoff a Ha) as (n & ? & _); eauto).
  apply twp_bind, twp_ensure_cached; [done|done|]. apply twp_bind.
  eapply twp_mono; [apply twp_wp with (R := fun _ _ => True) (Q := fun _ c' => exists x, c' = set_ext c x /\ chain_ok c') (Q' := fun _ _ => True)|].
  { apply wp_check_attach; [apply Hok| |done]. intros x Hx. exists x. split; [done|]. by apply chain_ext; [apply Hok|]. }
  { by apply twp_check_attach. }
  intros [] cx [(x & -> & Hokx) _]. set (cx := set_ext c x) in *. apply twp_bind.
  eapply twp_mono; [eapply twp_wp; [exact (wp_detach_all D anc L cx best Hokx Ht Hb)|]|].
  { eapply (twp_detach_all D anc L cx best); [by apply tree_best|done|done|by eapply tree_indexed]. }
  intros [] c1 [(Hok1 & Ht1 & Hmv1) (Hside1 & Hu1 & Hg1)].
  pose proof (linked_moved cx c1 _ _ Hmv1 (linked_branch cx best h p A anc L Ht Hi Hp)) as Hl1. apply twp_bind.
  eapply twp_mono; [eapply twp_wp; [exact (wp_attach_all (rev A) c1 anc Hok1 Ht1 Hl1)|]|].
  { apply (twp_attach_all (rev A) c1 anc); try done. intros a na Ha Hna.
    destruct (moved_node cx c1 a na Hmv1 (Hin a Ha) Hna) as (n0 & Hn0 & _ & -> & _). apply Hg1, (Hbr a n0 Ha Hn0). }
  intros [] c2 [(Hok2 & Ht2 & Hmv2) (Hside2 & Hu2)].
  destruct (rev A) as [|first rest] eqn:Hrev; [by destruct A; [done|apply app_eq_nil in Hrev as [_ ?]]|].
  inversion Hl1 as [|? ? n ? Hn Hin1 Hpar _]; subst. destruct Hmv2 as (_ & _ & Hmv2). destruct (Hmv2 _ _ Hn) as (n' & Hn' & Hpar' & _).
  apply twp_bind. unfold getPrevNodeFromNode. eapply twp_bind, twp_node; [done|]. rewrite Hpar', Hpar. apply twp_mret.
  destruct D; [done|]. apply twp_mret. split; [done|]. by eapply (unmarked_trans c c1).
Qed.

(** * Accepting blocks *)

(** A consistent chain in which no block is better than the tip, blocks are heavier than their
    parents, the blocks off the main chain are at hand, no orphan claims to be a genesis block,
    and the next checkpoint is one of the list. *)
Record settled c : Prop := {
  stl_ok : chain_ok c;
  stl_best best nb h p n :
    tree_ok (tree c) best -> nod c best = Some nb -> idx c h = Some p -> nod c p = Some n -> better n nb = false;
  stl_heavier h p n q nq : idx c h = Some p -> nod c p = Some n -> Parent n = Some q -> nod c q = Some nq -> CapSum nq < CapSum n;
  stl_side : sides_cached c;
  stl_prev id o : pooled c id = Some o -> bh_Previous (cb_Header (ob_block o)) <> zeroHash;
  stl_next i : nextCheckpoint c = Some i -> (i < length (checkpoints c))%nat;
}.

(** The tip has no child. *)
Lemma settled_leaf c best h p n : settled c -> tree_ok (tree c) best -> idx c h = Some p -> nod c p = Some n -> Parent n <> Some best.
Proof.
  intros Hst Ht Hi Hn Hpar. destruct (tok_best _ _ Ht) as (_ & nb & Hnb & _).
  pose proof (stl_heavier _ Hst _ _ _ _ _ Hi Hn Hpar Hnb) as Hlt.
  pose proof (stl_best _ Hst _ _ _ _ _ Ht Hnb Hi Hn) as Hno. enough (better n nb = true) by congruence.
  apply better_spec. by left.
Qed.

(** A node of the new tree is the new one or an old one. *)
Lemma kept_old c c' x best h p n' :
  kept c c' -> tree_ok (tree c) best -> (forall g, is_Some (idx c' g) -> is_Some (idx c g) \/ idx c' g = Some x) ->
  idx c' h = Some p -> nod c' p = Some n' ->
  p = x \/ exists n, idx c h = Some p /\ nod c p = Some n /\ Parent n' = Parent n /\ CapSum n' = CapSum n.
Proof.
  intros Hk Ht Hnew Hi Hn. destruct (Hnew h) as [[p0 Hi0]|Hx]; [by eexists| |left; congruence].
  destruct (tok_index _ _ Ht _ _ Hi0) as (n0 & Hn0 & _). destruct (Hk _ _ _ Hi0 Hn0) as (Hi' & n1 & Hn1 & ? & _ & _ & ? & _).
  assert (p0 = p) as -> by congruence. assert (n1 = n') as -> by congruence. right. eauto.
Qed.

(** What a step has to show to keep the chain settled: [x] is the one new node. *)
Lemma settled_step c c' x best best' :
  settled c -> chain_ok c' -> kept c c' -> tree_ok (tree c) best -> tree_ok (tree c') best' ->
  (forall g, is_Some (idx c' g) -> is_Some (idx c g) \/ idx c' g = Some x) ->
  (forall nx q nq, nod c' x = Some nx -> Parent nx = Some q -> nod c' q = Some nq -> CapSum nq < CapSum nx) ->
  (forall nx nb', nod c' x = Some nx -> nod c' best' = Some nb' -> better nx nb' = false) ->
  (forall nb nb', nod c' best = Some nb -> nod c' best' = Some nb' -> best' = best \/ better nb' nb = true) ->
  sides_cached c' -> unmarked c c' -> (forall g o, pooled c' g = Some o -> pooled c g = Some o) -> settled c'.
Proof.
  intros Hst Hok' Hk Ht Ht' Hnew Hheavy Hx Htip Hside [Hcp Hnx] Hpool.
  destruct (tok_best _ _ Ht) as (_ & nb0 & Hnb0 & Hib). destruct (Hk _ _ _ Hib Hnb0) as (Hib' & nb & Hnb & _).
  split; [done| | |done|intros id o Ho; eapply stl_prev; eauto|rewrite Hcp, Hnx; by apply stl_next].
  - intros t nt h p n Htt Hnt Hi Hn. assert (t = best') as -> by (apply tree_best in Htt, Ht'; congruence).
    destruct (kept_old c c' x best h p n Hk Ht Hnew Hi Hn) as [-> | (n0 & Hi0 & Hn0 & _)]; [eauto|].
    pose proof (stl_best _ Hst _ _ _ _ _ Ht Hnb0 Hi0 Hn0) as Hno.
    rewrite <- (kept_better c c' p best n0 nb0 n nb h (node_Hash nb0)) in Hno by done.
    destruct (Htip nb nt Hnb Hnt) as [-> | Hup]; [congruence|].
    apply not_true_iff_false. intros Hb. rewrite (better_trans _ _ _ Hb Hup) in Hno. done.
  - intros h p n q nq Hi Hn Hpar Hq.
    destruct (kept_old c c' x best h p n Hk Ht Hnew Hi Hn) as [-> | (n0 & Hi0 & Hn0 & Hp0 & ->)]; [eauto|].
    rewrite Hp0 in Hpar. pose proof (tok_parent _ _ Ht _ _ _ _ Hi0 Hn0 Hpar) as Hiq.
    destruct (tok_index _ _ Ht _ _ Hiq) as (nq0 & Hnq0 & _). destruct (Hk _ _ _ Hiq Hnq0) as (_ & nq' & Hnq' & _ & _ & _ & Hcap & _).
    assert (nq' = nq) as -> by congruence. rewrite Hcap. exact (stl_heavier _ Hst _ _ _ _ _ Hi0 Hn0 Hpar Hnq0).
Qed.

Lemma settled_ext c x : settled c -> mem_ok [] (set_ext c x) -> settled (set_ext c x).
Proof. intros [[Hs _] ? ? ? ? ?] Hm. split; try done. by apply chain_ext. Qed.

Lemma twp_notify b (Q : unit -> chain -> Prop) c : (forall x, Q tt (set_ext c x)) -> twp (notify b) Q c.
Proof.
  intros HQ. unfold notify. destruct (cb_IsImport b); [apply twp_mret; destruct c; apply HQ|]. apply twp_call. intros [] x _. apply HQ.
Qed.

Lemma better_irrefl n : better n n = false.
Proof. apply not_true_iff_false. rewrite better_spec. lia. Qed.

(** The new block [b], at [p], is in the tree, and it is the tip or not better than the tip. *)
Record decided c c' b p best : Prop := {
  dec_unmarked : unmarked c c';
  dec_side : sides_cached c';
  dec_index : idx c' (cb_Hash b) = Some p;
  dec_heavier np q nq : nod c' p = Some np -> Parent np = Some q -> nod c' q = Some nq -> CapSum nq < CapSum np;
  dec_tip : bestNode (tree c') = Some p \/
    bestNode (tree c') = Some best /\ forall np nb, nod c' p = Some np -> nod c' best = Some nb -> better np nb = false;
}.

Lemma decided_settled c c' b p best :
  settled c -> tree_ok (tree c) best -> 0 < bh_Target (cb_Header b) -> accepted c c' b -> decided c c' b p best -> settled c'.
Proof.
  intros Hst Ht HT [Hok' Hpool Hidx Hk Htip] [Hu Hside Hi Hheavy Hdec].
  destruct (Htip best Ht) as (best' & nb & nb' & Ht' & Hnb & Hnb' & Himp).
  assert (forall g, is_Some (idx c' g) -> is_Some (idx c g) \/ idx c' g = Some p) as Hnew by (intros g [?| ->]%Hidx; auto).
  pose proof (tree_best _ _ Ht') as Hb'.
  apply (settled_step c c' p best best'); try done; [| |by intros g o; rewrite Hpool].
  - intros nx nt Hnx Hnt. assert (nt = nb') as -> by congruence. destruct Hdec as [Hd|[Hd Hno]].
    + assert (best' = p) as -> by congruence. assert (nx = nb') as -> by congruence. apply better_irrefl.
    + assert (best' = best) as -> by congruence. eauto.
  - intros n1 n2 Hn1 Hn2. assert (n1 = nb) as -> by congruence. assert (n2 = nb') as -> by congruence. naive_solver.
Qed.

Lemma twp_extend b p q n c :
  tree_ok (tree c) q -> fresh_child c b p q n -> 0 < bh_Target (cb_Header b) -> sides_cached c ->
  twp (call (checkConnectBlock p b None);; connectBlock p b;; on_tree (attachBlockNode p);; notify b)
      (fun _ c' => decided c c' b p q) c.
Proof.
  intros Ht Hf HT Hside. pose proof Hf as (Hn & Hnew & Hnone & Hpar & Hprev & Hh & Hhd & Hcap & Hmain).
  destruct (tok_best _ _ Ht) as (Hb & nq & Hnq & Hiq). assert (p <> q) as Hpq by (intros ->; by eapply Hnew).
  assert (bh_Previous (cb_Header b) = node_Hash nq) as Hlink by exact (index_inj _ _ Ht _ _ _ Hprev Hnq).
  apply twp_bind, twp_call. intros [] x _. set (cx := set_ext c x).
  eapply twp_bind, (twp_connectBlock p b n q nq); try done. intros y.
  set (c1 := set_ext (tip_moved cx p n true (Some p)) y).
  apply twp_bind, twp_on_tree. unfold twp at 1. change (tree c1) with (move_tip (tree cx) p n true (Some p)).
  rewrite (attach_fresh cx b p q n nq true p Hf Hnq). apply twp_notify. intros z.
  split; cbn; rewrite ?Hh; [done| |by rewrite lookup_insert_eq| |by left].
  - intros h a na. cbn. rewrite !lookup_insert_Some. intros [[_ <-]|[_ Hi]] [[_ <-]|[Hne Hna]]; try done. by eapply Hside.
  - intros np q' nq'. rewrite lookup_insert_eq. intros [= <-]. cbn. intros [= <-]. rewrite lookup_insert_ne by done.
    intros ?. assert (nq' = nq) as -> by congruence. lia.
Qed.

(** A reorganisation of a settled chain has blocks to detach and to attach. *)
Lemma switch_branches c c2 b p q n best D A anc L :
  settled c -> tree_ok (tree c) best -> kept c c2 -> tree_ok (tree c2) best ->
  (forall g, is_Some (idx c2 g) -> is_Some (idx c g) \/ idx c2 g = Some p) ->
  idx c2 (cb_Hash b) = Some p -> nod c2 p = Some n -> Parent n = Some q -> q <> best -> InMainChain n = false ->
  path (tree c2) best (D ++ anc :: L) -> path (tree c2) p (A ++ anc :: L) -> D <> [] /\ A <> [].
Proof.
  intros Hst Ht Hk Ht2 Hnew Hi Hn Hpar Hq Hflag HD HA. split; intros ->.
  - destruct (path_head _ _ _ HD) as [? [= -> _]]. destruct A as [|a A _] using rev_ind.
    { destruct (path_head _ _ _ HA) as [? [= -> _]]. assert (InMainChain n = true); [|congruence].
      apply (tok_main _ _ Ht2 _ _ _ Hi Hn). rewrite (lineage_path _ _ _ HD). set_solver. }
    rewrite <- app_assoc in HA. destruct (path_has_parent _ _ _ _ _ _ HA) as (na & Hna & Hpa).
    assert (idx c2 (node_Hash na) = Some a) as Hia by (eapply path_indexed; [exact Ht2|exact Hi|exact HA|set_solver|done]).
    destruct (kept_old c c2 p best _ _ _ Hk Ht Hnew Hia Hna) as [-> | (n0 & Hi0 & Hn0 & Hp0 & _)]; [congruence|].
    apply (settled_leaf c best _ _ _ Hst Ht Hi0 Hn0). congruence.
  - destruct (path_head _ _ _ HA) as [? [= -> _]]. assert (InMainChain n = true); [|congruence].
    apply (tok_main _ _ Ht2 _ _ _ Hi Hn). rewrite (lineage_path _ _ _ HD). set_solver.
Qed.

Lemma twp_switch gh b p q n best c c2 :
  settled c -> tree_ok (tree c) best -> kept c c2 -> tree_ok (tree c2) best -> chain_ok c2 ->
  (forall g, is_Some (idx c2 g) -> is_Some (idx c g) \/ idx c2 g = Some p) ->
  idx c2 (cb_Hash b) = Some p -> nod c2 p = Some n -> Parent n = Some q -> q <> best -> InMainChain n = false ->
  (forall nq, nod c2 q = Some nq -> CapSum nq < CapSum n) -> sides_cached c2 -> unmarked c c2 ->
  twp ('(D, A) ← on_tree (getReorganizeNodes p); reorganizeChain gh D A;; notify b) (fun _ c' => decided c c' b p best) c2.
Proof.
  intros Hst Ht Hk Ht2 Hok2 Hnew Hi Hn Hpar Hq Hflag Hheavy Hside Hu.
  destruct (tok_path _ _ Ht2 _ _ Hi) as [lp Hlp].
  destruct (getReorganizeNodes_spec _ _ Ht2 _ _ _ Hi Hlp) as (D & A & anc & L & HD & -> & Hre & Hoff).
  destruct (best_path _ _ Ht2) as [lb Hlb]. rewrite (lineage_path _ _ _ Hlb) in HD. subst lb.
  destruct (switch_branches c c2 b p q n best D A anc L) as [HD HA]; try done.
  apply twp_bind, twp_on_tree. unfold twp at 1. rewrite Hre. assert (set_tree c2 (tree c2) = c2) as -> by by destruct c2.
  apply twp_bind. eapply twp_mono; [eapply twp_wp; [exact (wp_reorganizeChain gh D A anc L p _ best c2 Hok2 Ht2 Hi Hlb Hlp)|by eapply twp_reorganizeChain]|].
  intros [] c3 [(Hok3 & Ht3 & Hmv) (Hside3 & Hu3)]. apply twp_notify. intros x. split; cbn.
  - by eapply (unmarked_trans c c2).
  - exact Hside3.
  - by destruct Hmv as (-> & _).
  - intros np q' nq' Hnp Hpq Hnq. destruct (moved_node c2 c3 p np Hmv ltac:(eauto) Hnp) as (n0 & Hn0 & Hp0 & _ & _ & -> & _).
    assert (n0 = n) as -> by congruence. assert (q' = q) as -> by congruence.
    pose proof (tok_parent _ _ Ht2 _ _ _ _ Hi Hn Hpar) as Hiq. destruct (tok_index _ _ Ht2 _ _ Hiq) as (nq & Hnq2 & _).
    destruct (moved_node c2 c3 q nq' Hmv ltac:(eauto) Hnq) as (n1 & Hn1 & _ & _ & _ & -> & _). eauto.
  - left. by apply tree_best.
Qed.

Lemma twp_connectBestChain gh b p q n best c :
  settled c -> tree_ok (tree c) best -> fresh_child c b p q n -> 0 < bh_Target (cb_Header b) ->
  twp (connectBestChain gh p b) (fun _ c' => decided c c' b p best) c.
Proof.
  intros Hst Ht Hf HT. pose proof (stl_ok _ Hst) as Hok.
  pose proof Hf as (Hn & Hnew & Hnone & Hpar & Hprev & Hh & Hhd & Hcap & Hmain).
  destruct (fresh_parent c b p q n best Ht Hf) as (nq & nb & Hnq & Hnb & Hbp & Heq).
  unfold connectBestChain. eapply twp_bind, twp_node; [done|]. rewrite Hpar. eapply twp_bind, twp_node; [done|].
  eapply twp_bind, twp_best_hash; [by apply tree_best|done|].
  destruct (bytes_Equal (node_Hash nq) (node_Hash nb)) eqn:Htest.
  { rewrite (Heq eq_refl) in *. eapply twp_extend; try done. apply Hst. }
  assert (q <> best) as Hq by (intros ->; assert (nq = nb) as -> by congruence; by rewrite bytes_Equal_refl in Htest).
  destruct (side_added b p q n nq best c Hok Ht Hf Hnq) as (Ht2 & Hok2 & Hk2 & Hi2).
  set (n2 := set_Parent (Some q) (set_CapSum (CapSum nq + CapSum n) (set_InMainChain false n))) in *.
  set (c2 := set_tree _ _) in *.
  apply twp_bind, twp_modify. apply twp_bind, twp_on_tree. unfold store. eapply twp_bind, twp_load; [exact Hn|]. apply twp_modify.
  apply twp_bind, twp_on_tree. unfold twp at 1. cbn [tree set_tree set_cache].
  rewrite <- (move_same _ p n best), (attach_fresh c b p q n nq false best Hf Hnq) by by apply tree_best.
  match goal with |- twp _ _ ?c0 => change c0 with c2 end.
  assert (nod c2 p = Some n2) as Hp2 by (cbn; by rewrite lookup_insert_eq).
  assert (nod c2 best = Some nb) as Hb2 by (cbn; by rewrite lookup_insert_ne).
  assert (p <> q) as Hpq by (intros ->; by eapply Hnew).
  assert (forall nq', nod c2 q = Some nq' -> CapSum nq' < CapSum n2) as Hheavy.
  { intros nq'. cbn. rewrite lookup_insert_ne by done. intros ?. assert (nq' = nq) as -> by congruence. lia. }
  assert (idx c2 (cb_Hash b) = Some p) as Hip2 by (cbn; rewrite Hh; by rewrite lookup_insert_eq).
  assert (sides_cached c2) as Hside2.
  { intros h a na Hi Hna Hflag. cbn in *. rewrite lookup_insert. case_decide; [eauto|]. rewrite Hh, lookup_insert_ne in Hi by done.
    rewrite lookup_insert_ne in Hna by (intros ->; by eapply Hnew). eapply (stl_side _ Hst); eauto. }
  eapply twp_bind, twp_on_tree. unfold isPotentialNewBestChain. eapply twp_bind, twp_gets. rewrite (tree_best _ _ Ht2).
  eapply twp_bind, twp_load; [exact Hp2|]. eapply twp_bind, twp_load; [exact Hb2|]. apply twp_mret.
  change (set_tree c2 (tree c2)) with c2. destruct (better n2 nb) eqn:Hbetter; cbn [negb].
  - apply (twp_switch gh b p q n2 best c c2); try done. intros g [?| ->]%Hi2; auto.
  - apply twp_try. intros x. split; [done|done|done| |].
    + intros np q' nq' Hnp Hpq' Hnq'. assert (np = n2) as -> by (change (nod c2 p = Some np) in Hnp; congruence).
      injection Hpq' as <-. exact (Hheavy _ Hnq').
    + right. split; [by apply tree_best|]. intros np nb' Hnp Hnb'. change (nod c2 p = Some np) in Hnp. change (nod c2 best = Some nb') in Hnb'. congruence.
Qed.

Lemma settled_alloc c n :
  settled c -> settled (set_tree c (set_nodes <[fresh (dom (nodes (tree c))) := n]> (tree c))).
Proof.
  intros Hst. pose proof (stl_ok _ Hst) as Hok. destruct (cok_tree _ (proj1 Hok)) as [best Ht].
  destruct (alloc_ok c n Hok) as (Hok1 & Hk1 & Ht1 & Hnew). set (p := fresh _) in *. set (c1 := set_tree _ _) in *.
  assert (forall h a na, idx c h = Some a -> nod c1 a = Some na -> nod c a = Some na) as Hback.
  { intros h a na Hi. cbn. rewrite lookup_insert_ne; [done|]. intros Heq. subst a. by eapply Hnew. }
  split; try (by apply Hst); [done| | |].
  - intros best' nb h a na Ht' Hnb Hi Hna. assert (best' = best) as -> by (apply tree_best in Ht', Ht; cbn in Ht'; congruence).
    destruct (tok_best _ _ Ht) as (_ & nb0 & Hnb0 & Hib).
    exact (stl_best _ Hst _ _ _ _ _ Ht (Hback _ _ _ Hib Hnb) Hi (Hback _ _ _ Hi Hna)).
  - intros h a na q nq Hi Hna Hpar Hnq. pose proof (Hback _ _ _ Hi Hna) as Hna0. pose proof (tok_parent _ _ Ht _ _ _ _ Hi Hna0 Hpar) as Hiq.
    exact (stl_heavier _ Hst _ _ _ _ _ Hi Hna0 Hpar (Hback _ _ _ Hiq Hnq)).
  - intros h a na Hi Hna Hflag. exact (stl_side _ Hst _ _ _ Hi (Hback _ _ _ Hi Hna) Hflag).
Qed.

(** A block whose parent is in the tree enters the tree. *)
Lemma twp_maybeAcceptBlock gh b c q :
  settled c -> idx c (cb_Hash b) = None -> bh_Previous (cb_Header b) <> zeroHash -> idx c (bh_Previous (cb_Header b)) = Some q ->
  0 < bh_Target (cb_Header b) -> twp (maybeAcceptBlock gh b) (fun _ c' => accepted c c' b /\ settled c') c.
Proof.
  intros Hst Hnone Hz Hprev HT. pose proof (stl_ok _ Hst) as Hok.
  eapply twp_wp; [exact (wp_maybeAcceptBlock gh b c Hok Hnone)|].
  unfold maybeAcceptBlock, getPrevNodeFromBlock. destruct (bytes_Equal _ zeroHash) eqn:Htest; [by apply bytes_Equal_true in Htest|].
  apply twp_bind, twp_bind, twp_gets. cbn [id]. unfold getBlockNode. rewrite Hprev. apply twp_mret.
  apply twp_bind, twp_call. intros [] x Hk.
  assert (settled (set_ext c x)) as Hstx by (apply settled_ext; [done|]; apply (mem_call [] _ _ _ _ (proj2 Hok) Hk); done).
  set (n := set_Parent (Some q) (NewBlockNode (cb_Header b) (cb_Hash b))).
  pose proof (settled_alloc (set_ext c x) n Hstx) as Hst1. destruct (alloc_ok (set_ext c x) n (stl_ok _ Hstx)) as (_ & _ & _ & Hnew).
  apply twp_bind, twp_on_tree. unfold twp at 1, new_node. set (p := fresh _) in *.
  set (c1 := set_tree (set_ext c x) (set_nodes <[p := n]> (tree (set_ext c x)))) in *. change (twp (connectBestChain gh p b) (fun _ c' => settled c') c1).
  assert (fresh_child c1 b p q n) as Hf by (split_and!; try done; cbn; by rewrite lookup_insert_eq).
  destruct (cok_tree _ (proj1 (stl_ok _ Hst1))) as [best Ht1].
  eapply twp_mono; [eapply twp_wp; [exact (wp_connectBestChain gh b p q n c1 (stl_ok _ Hst1) Hf)|by apply (twp_connectBestChain gh b p q n best c1)]|].
  intros [] c' [Hacc Hdec]. by eapply decided_settled.
Qed.

(** * Orphans and processing *)

Lemma twp_remember {A} h (p : prog chain chain_error A) Q c : twp p Q c -> twp (remember h p) Q c.
Proof. unfold twp, remember. by destruct (p c) as [[a|e|] c']. Qed.

Lemma settled_orphans c ors :
  settled c -> chain_ok (set_orphans c ors) ->
  (forall id o, entryIndex (block_pool ors) !! id = Some o -> bh_Previous (cb_Header (ob_block o)) <> zeroHash) -> settled (set_orphans c ors).
Proof. intros [? ? ? ? ? ?] Hok Hprev. by split. Qed.

Lemma twp_one_orphan gh o h c :
  settled c -> pooled c (cb_Hash (ob_block o)) = Some o -> idx c (cb_Hash (ob_block o)) = None ->
  bh_Previous (cb_Header (ob_block o)) = h -> is_Some (idx c h) ->
  twp (remember (cb_Hash (ob_block o)) (maybeAcceptBlock gh (ob_block o));; on_orphans (removeOrphanBlock o))
      (fun _ c' => one_accepted c c' o /\ settled c') c.
Proof.
  intros Hst Hp Hnone Hprev [q Hq]. pose proof (stl_ok _ Hst) as Hok.
  eapply twp_wp; [by apply wp_one_orphan|]. apply twp_bind, twp_remember.
  eapply twp_mono; [eapply (twp_maybeAcceptBlock gh (ob_block o) c q); try done|].
  - by eapply stl_prev.
  - by rewrite Hprev.
  - by eapply cok_target; [apply Hok|].
  - intros [] c1 [Hacc Hst1]. pose proof (acc_ok _ _ _ Hacc) as Hok1.
    destruct (on_orphans_remove c1 o) as (ors & Hr & Hors & Hi); [apply Hok1|].
    unfold twp. rewrite Hr. assert (forall id o', entryIndex (block_pool ors) !! id = Some o' -> pooled c1 id = Some o') as Hsub.
    { intros id o'. rewrite Hi. by intros [_ ?]%lookup_delete_Some. }
    apply settled_orphans; [done|by apply orphans_ok|]. intros id o' Ho'. by eapply stl_prev; [apply Hst1|apply Hsub].
Qed.

Lemma twp_orphan_loop gh rec f h os c :
  (forall c o, ready c (cb_Hash (ob_block o)) -> settled c -> (pool_size c < f)%nat ->
     twp (rec (cb_Hash (ob_block o))) (fun _ c' => progressed c c' (cb_Hash (ob_block o)) /\ settled c') c) ->
  settled c -> is_Some (idx c h) -> waiting c h os -> (pool_size c <= f)%nat ->
  twp (orphan_loop gh rec os) (fun _ c' => settled c') c.
Proof.
  intros Hrec. revert c. induction os as [|o os IH]; intros c Hst Hh Hw Hsz; cbn [orphan_loop]; [by apply twp_mret|].
  pose proof (stl_ok _ Hst) as Hok. destruct (proj2 Hw o) as (Hp & Hprev & Hnone); [set_solver|].
  pose proof (twp_one_orphan gh o h c Hst Hp Hnone Hprev Hh) as Hone. unfold twp in Hone at 1. unfold mbind, prog_bind in Hone.
  apply twp_bind. unfold twp at 1. destruct (remember _ _ c) as [[[]|e|] c1]; [|done|done].
  apply twp_bind. unfold twp at 1. destruct (on_orphans _ c1) as [[[]|e|] c2]; [|done|done]. destruct Hone as [Hone Hst2].
  assert (pool_size c2 < pool_size c)%nat as Hsz2.
  { rewrite (one_pool _ _ _ Hone), map_size_delete_Some by by eexists.
    assert (pool_size c <> 0)%nat; [|lia]. intros Hz%map_size_empty_inv. rewrite Hz in Hp. done. }
  apply twp_bind. eapply twp_mono; [apply Hrec; [by eapply one_ready|done|lia]|]. intros [] c3 [Hpro3 Hst3].
  assert (pool_size c3 <= pool_size c2)%nat as Hsz3.
  { apply map_subseteq_size, map_subseteq_spec. intros id e. apply (pro_less _ _ _ Hpro3). }
  assert (is_Some (idx c2 h)) as Hh2 by (apply (one_index _ _ _ Hone); by left).
  apply IH; [done|apply (kept_idx c2); [apply Hone|apply Hpro3|done]| |lia].
  eapply progressed_waiting; [done|done| |by eapply one_waiting]. intros ->. rewrite Hnone in Hh. by destruct Hh.
Qed.

Lemma twp_processOrphans gh fuel h c :
  ready c h -> settled c -> (pool_size c < fuel)%nat ->
  twp (processOrphans gh fuel h) (fun _ c' => progressed c c' h /\ settled c') c.
Proof.
  revert h c. induction fuel as [|fuel IH]; intros h c Hr Hst Hsz; [lia|].
  eapply twp_mono; [eapply (twp_wp _ _ (fun _ c' => settled c')); [by apply (wp_processOrphans gh (S fuel) h c)|]|by intros [] c' [[Hpro _] Hst']].
  cbn [processOrphans]. apply twp_bind, twp_gets.
  apply (twp_orphan_loop gh _ fuel h); [intros c' o; apply IH|done|apply Hr|by apply ready_waiting|lia].
Qed.

Lemma twp_accept gh b c q :
  settled c -> idx c (cb_Hash b) = None -> pooled c (cb_Hash b) = None -> bh_Previous (cb_Header b) <> zeroHash ->
  idx c (bh_Previous (cb_Header b)) = Some q -> 0 < bh_Target (cb_Header b) ->
  twp (remember (cb_Hash b) (maybeAcceptBlock gh b);; c ← gets id; processOrphans gh (S (pool_size c)) (cb_Hash b);; mret false)
      (fun r c' => r = false /\ settled c' /\ is_Some (idx c' (cb_Hash b))) c.
Proof.
  intros Hst Hnone Hout Hz Hprev HT. apply twp_bind, twp_remember. eapply twp_mono; [by eapply twp_maybeAcceptBlock|].
  intros [] c1 [Hacc Hst1]. apply twp_bind, twp_gets. cbn [id]. apply twp_bind.
  eapply twp_mono; [apply twp_processOrphans; [eapply accepted_ready; [apply Hst|done..]|done|lia]|].
  intros [] c2 [Hpro Hst2]. apply twp_mret. split_and!; [done|done|].
  apply (kept_idx c1); [apply Hst1|apply Hpro|]. apply (acc_index _ _ _ Hacc). by right.
Qed.

Lemma twp_add_orphan now items b c :
  settled c -> idx c (cb_Hash b) = None -> pooled c (cb_Hash b) = None -> bh_Previous (cb_Header b) <> zeroHash ->
  0 < bh_Target (cb_Header b) -> items ≡ₚ Items (block_pool (orphanPool c)) ->
  twp (on_orphans (addOrphanBlock now items b)) (fun _ c' => settled c' /\ isOrphanInPool (cb_Hash b) (orphanPool c') = true) c.
Proof.
  intros Hst Hnone Hout Hz HT Hperm. pose proof (stl_ok _ Hst) as Hok.
  destruct (add_spec now items b (orphanPool c) (cok_pool _ (proj1 Hok)) Hperm) as (ors & Hadd & Hors & Hlive).
  { unfold isOrphanInPool, Has. cbn. by rewrite Hout. }
  pose proof (wp_add_orphan now items b c Hok Hnone Hout HT Hperm) as Hwp. unfold wp, twp, on_orphans in *. rewrite Hadd in *.
  split; [|exact (add_held _ _ _ _ _ Hadd)]. apply settled_orphans; [done|apply Hwp|]. intros id o Hid. destruct (Hlive id o Hid) as [Hold|[_ ->]]; [by eapply stl_prev|done].
Qed.

Lemma exists_index c h : settled c -> blockExists h c = true -> is_Some (idx c h).
Proof.
  intros Hst Hex. unfold blockExists, nodeExists in Hex. unfold getBlockNode in Hex.
  destruct (idx c h) eqn:Hi; [eauto|]. cbn in Hex. apply exists_header in Hex as [hdr Hf].
  destruct (proj2 (stl_ok _ Hst) h) as [Hs|Hs]; [by exists hdr|by rewrite Hi in Hs|set_solver].
Qed.

(** ** Checkpoints and remembered errors *)

(** [swp p Q R s]: the run of [p] from [s] does not panic; it returns and ends in [Q], or fails
    with an error and ends in [R]. *)
Definition swp {S E A} (p : prog S E A) (Q : A -> S -> Prop) (R : E -> S -> Prop) (s : S) : Prop :=
  match p s with (Ret a, s') => Q a s' | (Err e, s') => R e s' | (Panic, _) => False end.

Lemma swp_bind {S E A A'} (p : prog S E A) (f : A -> prog S E A') Q R s : swp p (fun a => swp (f a) Q R) R s -> swp (p ≫= f) Q R s.
Proof. unfold swp, mbind, prog_bind. by destruct (p s) as [[a|e|] s']. Qed.

Lemma swp_mono {S E A} (p : prog S E A) (Q Q' : A -> S -> Prop) (R R' : E -> S -> Prop) s :
  swp p Q R s -> (forall a s', Q a s' -> Q' a s') -> (forall e s', R e s' -> R' e s') -> swp p Q' R' s.
Proof. unfold swp. destruct (p s) as [[a|e|] s']; auto. Qed.

Lemma swp_twp {S E A} (p : prog S E A) Q (R : E -> S -> Prop) s : twp p Q s -> swp p Q R s.
Proof. unfold swp, twp. by destruct (p s) as [[a|e|] s']. Qed.

Lemma swp_index {S E A} (l : list A) i x (Q : A -> S -> Prop) (R : E -> S -> Prop) s :
  l !! i = Some x -> Q x s -> swp (lift (index l (Z.of_nat i))) Q R s.
Proof. intros Hl HQ. unfold swp, lift. rewrite (proj2 (index_Ret l (Z.of_nat i) x)); [done|]. rewrite Nat2Z.id. split; [lia|done]. Qed.

(** The errors of the search for the last checkpoint. *)
Definition checkpoint_failure (e : chain_error) : Prop := e = errCheckpointLookup \/ e = errCheckpointMissing.

(** Only the position in the list of checkpoints has moved. *)
Definition checkpoint_moved c c' : Prop :=
  exists k m, c' = set_checkpoint c k m /\ forall i, k = Some i -> (i < length (checkpoints c))%nat.

Lemma checkpoint_stays c : settled c -> checkpoint_moved c c.
Proof. intros Hst. exists (nextCheckpoint c), (checkpointNode c). split; [by destruct c|apply Hst]. Qed.

Lemma swp_lookup h c :
  settled c ->
  swp (fun c => match lookupBestChainNode h c with (Err _, c') => (Err errCheckpointLookup, c') | r => r end)
      (fun _ c' => c' = c) (fun e c' => c' = c /\ checkpoint_failure e) c.
Proof.
  intros Hst. unfold swp, lookupBestChainNode, mbind, prog_bind, gets. cbn [id]. destruct (getBlockNode h (tree c)) as [p|] eqn:Hp.
  - destruct (cok_tree _ (proj1 (stl_ok _ Hst))) as [best Ht]. destruct (tok_index _ _ Ht _ _ Hp) as (n & Hn & _).
    assert (twp (on_tree (load p)) (fun _ c' => c' = c) c) as Hl by (apply (twp_node p n); [done|reflexivity]).
    unfold twp in Hl. by destruct (on_tree (load p) c) as [[?|?|] ?].
  - pose proof (header_read (ext c) h) as Hnp. destruct (db_FetchBlockHeaderBySha (ext c) h) as [hdr|e|]; [done| |done].
    unfold checkpoint_failure. destruct e; cbn; auto.
Qed.

Lemma swp_search i c :
  settled c -> (0 < length (checkpoints c))%nat -> (i <= length (checkpoints c))%nat ->
  swp (search_checkpoint (checkpoints c) i) (fun _ c' => checkpoint_moved c c') (fun e c' => c' = c /\ checkpoint_failure e) c.
Proof.
  intros Hst Hpos. induction i as [|i IH]; intros Hi; cbn [search_checkpoint].
  - exists (Some 0%nat), (checkpointNode c). split; [done|]. by intros ? [= <-].
  - destruct (lookup_lt_is_Some_2 (checkpoints c) i ltac:(lia)) as [cp Hcp].
    eapply swp_bind, swp_index; [done|].
    apply swp_bind. eapply swp_mono; [by apply swp_lookup| |done]. intros [node|] c' ->; [|apply IH; lia].
    cbv [swp mbind prog_bind modify mret prog_ret]. eexists _, _. split; [done|]. intros j. case_match eqn:Hlt; [|apply Hst].
    apply Nat.ltb_lt in Hlt. intros [= <-]. lia.
Qed.

Lemma swp_findPrevious c :
  settled c -> swp findPreviousCheckpoint (fun _ c' => checkpoint_moved c c') (fun e c' => c' = c /\ checkpoint_failure e) c.
Proof.
  intros Hst. unfold findPreviousCheckpoint. apply swp_bind. unfold swp at 1, gets. cbn [id].
  destruct (checkpoints c) as [|cp cps] eqn:Hcps; [by apply checkpoint_stays|]. rewrite <- Hcps.
  assert (0 < length (checkpoints c))%nat as Hpos by (rewrite Hcps; cbn; lia).
  destruct (nextCheckpoint c) as [i|] eqn:Hnx; [|destruct (checkpointNode c); [by apply checkpoint_stays|by apply swp_search]].
  destruct (lookup_lt_is_Some_2 (checkpoints c) i (stl_next _ Hst _ Hnx)) as [next Hnext].
  eapply swp_bind, swp_index; [done|].
  destruct (cok_tree _ (proj1 (stl_ok _ Hst))) as [best Ht]. destruct (tok_best _ _ Ht) as (Hb & nb & Hnb & _).
  apply swp_bind. unfold BestBlockHeight. apply swp_twp, twp_bind, twp_gets. cbn [id]. rewrite Hb.
  eapply twp_bind, twp_node; [done|]. apply twp_mret. destruct (_ <? _); [by apply checkpoint_stays|].
  apply swp_bind. eapply swp_mono; [by apply swp_lookup| |done]. intros [node|] c' ->; [|by split; [|right]].
  cbv [swp mbind prog_bind modify mret prog_ret]. eexists _, _. split; [done|]. intros j. case_match; [|done]. case_match eqn:Hlt; [|done].
  apply Nat.ltb_lt in Hlt. intros [= <-]. lia.
Qed.

Lemma settled_checkpoint c c' : settled c -> checkpoint_moved c c' -> settled c'.
Proof. intros [[Hs Hm] ? ? ? ? ?] (k & m & -> & Hk). split; try done. split; [|done]. by destruct Hs; split. Qed.

Lemma settled_errs c e : settled c -> settled (set_errs c e).
Proof. intros [[Hs Hm] ? ? ? ? ?]. split; try done. split; [|done]. by destruct Hs; split. Qed.

(** ** Processing *)

(** Why a block can be refused although every component accepts it: the error cache has an error
    for its hash, or the checkpoints say so. *)
Definition refused c b (e : chain_error) : Prop :=
  (lru_Get (cb_Hash b) (errCache c)).1 = Some e \/ checkpoints c <> [] /\ (checkpoint_failure e \/ e = ErrCheckpointTimeTooOld).

(** The end of [processBlock]: the block is an orphan, or it is accepted with those that wait for
    it. *)
Lemma twp_deliver gh now items b c :
  settled c -> items ≡ₚ Items (block_pool (orphanPool c)) -> bh_Previous (cb_Header b) <> zeroHash ->
  idx c (cb_Hash b) = None -> pooled c (cb_Hash b) = None -> 0 < bh_Target (cb_Header b) ->
  twp (c ← gets id;
       if negb (bytes_Equal (bh_Previous (cb_Header b)) zeroHash) && negb (blockExists (bh_Previous (cb_Header b)) c) then
         on_orphans (addOrphanBlock now items b);; mret true
       else remember (cb_Hash b) (maybeAcceptBlock gh b);; c ← gets id; processOrphans gh (S (pool_size c)) (cb_Hash b);; mret false)
      (fun r c' => settled c' /\ if (r : bool) then isOrphanInPool (cb_Hash b) (orphanPool c') = true else is_Some (idx c' (cb_Hash b))) c.
Proof.
  intros Hst Hperm Hz Hex Hor HT. apply twp_bind, twp_gets. cbn [id].
  destruct (bytes_Equal _ zeroHash) eqn:Htest; [by apply bytes_Equal_true in Htest|]. cbn [negb andb].
  destruct (blockExists (bh_Previous (cb_Header b)) c) eqn:Hpar; cbn [negb].
  - apply exists_index in Hpar as [q Hq]; [|done]. eapply twp_mono; [by eapply (twp_accept gh b c q)|].
    intros r c' (-> & Hst' & Hi). by split.
  - apply twp_bind. eapply twp_mono; [by apply twp_add_orphan|]. intros [] c' [Hst' Hin]. by apply twp_mret.
Qed.

Lemma swp_processBlock gh now items b c :
  settled c -> items ≡ₚ Items (block_pool (orphanPool c)) -> bh_Previous (cb_Header b) <> zeroHash ->
  swp (processBlock gh now items b) (fun r c' => settled c' /\ if (r : bool) then isOrphanInPool (cb_Hash b) (orphanPool c') = true else is_Some (idx c' (cb_Hash b)))
    (fun e c' => settled c' /\ refused c b e) c.
Proof.
  intros Hst Hperm Hz. unfold processBlock. apply swp_bind. unfold swp at 1, gets. cbn [id].
  destruct (blockExists _ c) eqn:Hex; [split; [done|by apply exists_index]|]. apply not_exists in Hex.
  destruct (isOrphanInPool _ _) eqn:Hor; [by split|]. apply not_orphan in Hor.
  apply swp_bind. unfold swp at 1, errCache_Get. destruct (lru_Get _ _) as [o cache] eqn:Hget. pose proof (settled_errs c cache Hst) as Hste.
  destruct o as [e|]; [split; [done|left; by rewrite Hget]|]. set (ce := set_errs c cache) in *.
  apply swp_bind, swp_twp, twp_remember, twp_call. intros [] x Hk. pose proof (sanity_target _ _ _ Hk) as HT.
  assert (settled (set_ext ce x)) as Hstx by (apply settled_ext; [done|]; apply (mem_call [] _ _ _ _ (proj2 (stl_ok _ Hste)) Hk); done).
  set (cx := set_ext ce x) in *. apply swp_bind.
  destruct (decide (checkpoints c = [])) as [Hnone|Hsome].
  - unfold findPreviousCheckpoint. apply swp_bind. unfold swp at 1, gets. cbn [id]. change (checkpoints cx) with (checkpoints c). rewrite Hnone.
    apply swp_bind. cbv [swp mret prog_ret]. apply swp_twp. by apply twp_deliver.
  - eapply swp_mono; [by apply (swp_findPrevious cx)| |intros e c' [-> He]; split; [done|right; auto]].
    intros checkpoint c1 Hmv. pose proof (settled_checkpoint _ _ Hstx Hmv) as Hst1. destruct Hmv as (k & m & -> & _). apply swp_bind.
    destruct checkpoint as [n|]; [unfold swp at 1, fail_if; destruct (_ <? _); [split; [done|right; auto]|]|cbv [swp mret prog_ret]]; apply swp_twp; by apply twp_deliver.
Qed.

(** A block that is not a genesis block is processed. *)
Inductive delivered gh : chain -> chain -> Prop :=
| delivered_block now items b o c c' :
    items ≡ₚ Items (block_pool (orphanPool c)) -> bh_Previous (cb_Header b) <> zeroHash ->
    processBlock gh now items b c = (o, c') -> delivered gh c c'.

Lemma delivered_settled gh c c' : settled c -> delivered gh c c' -> settled c'.
Proof.
  intros Hst Hp. destruct Hp as [now items b o c c' Hperm Hz Hrun] in Hst |- *. pose proof (swp_processBlock gh now items b c Hst Hperm Hz) as Hw.
  unfold swp in Hw. rewrite Hrun in Hw. destruct o; naive_solver.
Qed.

(** C3: When the components the chain calls accept what it asks, the chain selects the best
    tip.  From a chain whose tip is the best block of its tree, and whatever blocks other than
    genesis blocks arrive, in whatever order: processing a block does not crash; it is refused
    only when the error cache holds an error for its hash or the checkpoints refuse it (its time
    is before the last checkpoint, or a checkpoint cannot be found); otherwise it is in the tree
    or, when the answer is that it is an orphan, in the orphan pool; and afterwards no block of the tree is better than the tip. *)
Theorem best_tip_selected gh c c' now items b :
  settled c -> rtc (delivered gh) c c' -> items ≡ₚ Items (block_pool (orphanPool c')) -> bh_Previous (cb_Header b) <> zeroHash ->
  exists o c'' best nbest,
    processBlock gh now items b c' = (o, c'') /\
    match o with
    | Ret orphan => if orphan then isOrphanInPool (cb_Hash b) (orphanPool c'') = true else is_Some (tree_index (tree c'') !! cb_Hash b)
    | Err e => refused c' b e
    | Panic => False
    end /\
    tree_ok (tree c'') best /\ nodes (tree c'') !! best = Some nbest /\
    forall h p n, tree_index (tree c'') !! h = Some p -> nodes (tree c'') !! p = Some n -> better n nbest = false.
Proof.
  intros Hst Hrun Hperm Hz. assert (settled c') as Hst' by (revert Hst; induction Hrun; eauto using delivered_settled).
  pose proof (swp_processBlock gh now items b c' Hst' Hperm Hz) as Hw. unfold swp in Hw.
  destruct (processBlock gh now items b c') as [o c''].
  assert (settled c'') as Hst'' by (destruct o; naive_solver).
  destruct (cok_tree _ (proj1 (stl_ok _ Hst''))) as [best Ht]. destruct (tok_best _ _ Ht) as (_ & nb & Hnb & _).
  exists o, c'', best, nb. split_and!; [done|by destruct o; naive_solver|done|done|]. intros h p n Hi Hn. exact (stl_best _ Hst'' _ _ _ _ _ Ht Hnb Hi Hn).
Qed.
End live.
