(* ===== verification/ChainSample.v ===== *)
(** A small block chain that instantiates the theorems on chain processing: blocks are
    identified by their hash, a list whose tail is the hash of the parent, and every component
    accepts what it is asked. *)

From S2P Require Import Prelude Hashes Wire Amount Forks Poc PocSpec Block Genesis OrphanPool OrphanPoolSpec BlockTree BlockTreeSpec ChainTree Chain ChainSpec ProcessSpec ChainLive.

#[local] Existing Instances Sha.concrete sample_chia.

(** * The components *)

(** The header of the block with hash [h]; the first number of the hash is the target. *)
Definition toy_header (h : Hash) : BlockHeader :=
  mkBlockHeader (bh_ChainID genesisHeader) 1 (len h) (1000 * len h)
    (match h with [] => zeroHash | _ :: parent => parent end)
    zeroHash zeroHash zeroHash (match h with [] => 1 | x :: _ => Z.max 1 x end) zeroHash
    (bh_PubKey genesisHeader) (bh_Proof genesisHeader) (bh_Signature genesisHeader) [] zeroHash.

(** A block is its hash and a body the hash does not cover; a body may be damaged. *)
Record toy_block := mkToy { toy_hash : Hash; toy_good : bool }.

#[local] Instance toy_chain_block : ChainBlock toy_block :=
  {| cb_Hash := toy_hash; cb_Header b := toy_header (toy_hash b); cb_IsImport _ := false |}.

(** The cache is a list; the database is the list of the committed hashes. *)
#[local] Instance toy_lru : LruCache (list (Hash * chain_error)) :=
  {| lru_Add h e cache := (h, e) :: cache;
     lru_Get h cache := (snd <$> head (filter (fun x => x.1 = h) cache), cache) |}.

Abbreviation toy_chain := (Chain toy_block (list Hash) (list (Hash * chain_error))).

Definition toy_call (strict : bool) {A} (k : Call (B := toy_block) (TxStore := unit) (BState := unit) A) (c : toy_chain) :
  outcome chain_error A * list Hash :=
  match k in Call A return outcome chain_error A * list Hash with
  | checkBlockSanity block => (if strict && negb (toy_good block) then Err (ErrOther 1) else Ret tt, ext c)
  | checkBlockContext _ _ => (Ret tt, ext c)
  | checkConnectBlock _ _ _ => (Ret tt, ext c)
  | connectState st _ => (Ret st, ext c)
  | fetchInputTransactions _ _ => (Ret tt, ext c)
  | db_SubmitBlock _ => (Ret tt, ext c)
  | db_DeleteBlock _ => (Ret tt, ext c)
  | db_Commit h => (Ret tt, h :: ext c)
  | db_Rollback => (Ret tt, ext c)
  | db_FetchBlockBySha h => (Ret (mkToy h true), ext c)
  | ParentBindingState _ => (Ret tt, ext c)
  | index_AttachBlock st _ _ => (Ret st, ext c)
  | index_DetachBlock _ => (Ret tt, ext c)
  | SetBindingState _ _ => (Ret tt, ext c)
  | state_Commit _ => (Ret zeroHash, ext c)
  | applyBlockNode _ => (Ret tt, ext c)
  | attachBlock _ => (Ret tt, ext c)
  | detachBlock _ => (Ret tt, ext c)
  | notifyBlockConnected _ => (Ret tt, ext c)
  end.

Definition toy_env (strict : bool) : Env (B := toy_block) (X := list Hash) (C := list (Hash * chain_error)) (TxStore := unit) (BState := unit) :=
  {| env_call A := toy_call strict;
     db_FetchBlockHeaderBySha x h := if bool_decide (h ∈ x) then Ret (toy_header h) else Err ErrDBNotFound;
     db_ExistsSha x h := bool_decide (h ∈ x);
     state_Hash _ := zeroHash |}.

Lemma toy_target h : 0 < bh_Target (toy_header h).
Proof. destruct h; cbn; lia. Qed.

#[local] Instance toy_laws strict : EnvLaws (EV := toy_env strict).
Proof.
  split.
  - intros b b'. cbn. by intros ->.
  - intros A k c o x h hdr Hk Hf.
    assert (x = ext c \/ exists g, x = g :: ext c /\ commits k = Some g /\ is_Ret o) as [-> | (g & -> & Hc & Hr)].
    { destruct k; cbn in Hk; simplify_eq; eauto. right. eexists. split_and!; [done|done|by eexists]. }
    + left. eauto.
    + cbn in Hf |- *. case_bool_decide as Hin; [|done]. apply elem_of_cons in Hin as [-> |Hin]; [by right|].
      left. rewrite bool_decide_true by done. eauto.
  - intros b c x _. apply toy_target.
Qed.

#[local] Instance toy_succeeds : EnvSucceeds (EV := toy_env false).
Proof.
  split.
  - intros A k c. destruct k; cbn; eexists; reflexivity.
  - intros h c b x [= <- _]. done.
  - intros x h. cbn. intros Hin. rewrite Hin. by eexists.
  - intros x h. cbn. by case_bool_decide.
  - done.
  - by intros st c root x [= <- _].
Qed.

(** * The start *)

Definition toy_empty : toy_chain := mkChain NewBlockTree newOrphanBlockPool ∅ [] [] None None [[]].
Definition toy_range (_ _ : Z) : outcome chain_error (list Hash) := Ret [[]].

(** The tree after the initial index of a database with the genesis block only. *)
Definition toy_genesis : BlockNode := set_InMainChain true (NewBlockNode (toy_header []) []).
Definition toy_start : toy_chain :=
  set_tree toy_empty (mkTree {[1%positive := toy_genesis]} (Some 1%positive) (Some 1%positive) {[[] := 1%positive]} {[zeroHash := [1%positive]]}).

Example toy_started strict : generateInitialIndex (EV := toy_env strict) (Ret 0) toy_range toy_empty = (Ret tt, toy_start).
Proof. vm_compute. reflexivity. Qed.

Lemma toy_index h p : tree_index (tree toy_start) !! h = Some p -> h = [] /\ p = 1%positive.
Proof. cbn. rewrite lookup_singleton_Some. naive_solver. Qed.
Lemma toy_node p n : nodes (tree toy_start) !! p = Some n -> p = 1%positive /\ n = toy_genesis.
Proof. cbn. rewrite lookup_singleton_Some. naive_solver. Qed.

Lemma toy_path : path (tree toy_start) 1%positive [1%positive].
Proof. by apply (path_root _ _ toy_genesis). Qed.

Lemma toy_tree_ok : tree_ok (tree toy_start) 1%positive.
Proof.
  split.
  - intros h p [-> ->]%toy_index. by exists toy_genesis.
  - intros h p n q _ [-> ->]%toy_node. done.
  - intros h p [-> ->]%toy_index. eauto using toy_path.
  - exists 1%positive. split; [done|]. split; [by exists toy_genesis|]. by intros h p n [-> ->]%toy_index.
  - split; [done|]. by exists toy_genesis.
  - intros h p n [-> ->]%toy_index [_ ->]%toy_node. rewrite (lineage_path _ _ _ toy_path). set_solver.
Qed.

Lemma toy_chain_ok strict : chain_ok (EV := toy_env strict) toy_start.
Proof.
  split.
  - split.
    + exists 1%positive. apply toy_tree_ok.
    + intros h p n [-> ->]%toy_index [_ ->]%toy_node. by exists (mkToy [] true).
    + done.
    + split; [apply pool_ok_new|done|intros a [? ?]; done|done|done].
    + done.
    + done.
  - intros h [hdr Hf]. cbn in Hf |- *. case_bool_decide as Hin; [|done]. apply list_elem_of_singleton in Hin as ->. left. by eexists.
Qed.

Lemma toy_settled : settled (EV := toy_env false) toy_start.
Proof.
  split; [apply toy_chain_ok| | | |done|done].
  - intros best nb h p n _ [_ ->]%toy_node _ [_ ->]%toy_node. apply better_irrefl.
  - intros h p n q nq _ [_ ->]%toy_node. done.
  - intros h p n _ [_ ->]%toy_node. done.
Qed.

(** * Instances of the theorems *)

Definition run_block strict (b : toy_block) (c : toy_chain) : outcome chain_error bool * toy_chain :=
  processBlock (EV := toy_env strict) [] 0 (Items (block_pool (orphanPool c))) b c.

(** A block on the genesis block, a heavier sibling that takes over, and an orphan whose parent
    arrives later. *)
Definition toy_run : list (outcome chain_error bool * option Hash) :=
  let tip (c : toy_chain) := bestNode (tree c) ≫= fun p => node_Hash <$> nodes (tree c) !! p in
  (fix go (bs : list Hash) (c : toy_chain) :=
     match bs with
     | [] => []
     | h :: rest => let (o, c') := run_block false (mkToy h true) c in (o, tip c') :: go rest c'
     end) [[1]; [5]; [2; 3; 1]; [3; 1]] toy_start.

Example toy_run_tips :
  toy_run = [(Ret false, Some [1]); (Ret false, Some [5]); (Ret true, Some [5]); (Ret false, Some [2; 3; 1])].
Proof. vm_compute. reflexivity. Qed.

Definition toy_one : toy_chain := (run_block true (mkToy [1] true) toy_start).2.
Definition toy_two : toy_chain := (run_block true (mkToy [5] true) toy_one).2.

Lemma pair_run {A B} (x : A * B) (a : A) : x.1 = a -> x = (a, x.2).
Proof. by destruct x; cbn; intros ->. Qed.

Lemma toy_one_run : run_block true (mkToy [1] true) toy_start = (Ret false, toy_one).
Proof. unfold toy_one. apply pair_run. vm_compute. reflexivity. Qed.
Lemma toy_two_run : run_block true (mkToy [5] true) toy_one = (Ret false, toy_two).
Proof. unfold toy_two. apply pair_run. vm_compute. reflexivity. Qed.

Lemma process_keeps_chain_witness :
  chain_ok (EV := toy_env true) toy_one /\ chain_ok (EV := toy_env true) toy_two /\ kept toy_one toy_two /\ tips toy_one toy_two.
Proof.
  apply (process_keeps_chain (EV := toy_env true) [] toy_start toy_one toy_two 0 (Items (block_pool (orphanPool toy_one))) (mkToy [5] true) false).
  - apply toy_chain_ok.
  - apply rtc_once. by apply (processed_block (EV := toy_env true) [] 0 (Items (block_pool (orphanPool toy_start))) (mkToy [1] true) (Ret false)); [|apply toy_one_run|].
  - done.
  - apply toy_two_run.
Defined.

(** Two orphans, each the parent of the next, wait for the block [1], which has just entered the
    tree. *)
Definition toy_waiting : toy_chain := (run_block true (mkToy [2; 3; 1] true) (run_block true (mkToy [3; 1] true) toy_start).2).2.
Definition toy_arrived : toy_chain := (maybeAcceptBlock (EV := toy_env true) [] (mkToy [1] true) toy_waiting).2.

Lemma toy_waiting_ok : chain_ok (EV := toy_env true) toy_waiting.
Proof.
  set (c1 := (run_block true (mkToy [3; 1] true) toy_start).2).
  apply (processed_ok (EV := toy_env true) [] c1); [apply (processed_ok (EV := toy_env true) [] toy_start); [apply toy_chain_ok|]|].
  - apply (processed_block (EV := toy_env true) [] 0 (Items (block_pool (orphanPool toy_start))) (mkToy [3; 1] true) (Ret true)); [done| |done].
    apply pair_run. vm_compute. reflexivity.
  - apply (processed_block (EV := toy_env true) [] 0 (Items (block_pool (orphanPool c1))) (mkToy [2; 3; 1] true) (Ret true)); [done| |done].
    apply pair_run. vm_compute. reflexivity.
Qed.

Lemma toy_arrived_ready : ready (EV := toy_env true) toy_arrived [1].
Proof.
  pose proof (wp_maybeAcceptBlock (EV := toy_env true) [] (mkToy [1] true) toy_waiting toy_waiting_ok) as Hw.
  unfold wp in Hw. assert ((maybeAcceptBlock (EV := toy_env true) [] (mkToy [1] true) toy_waiting).1 = Ret tt) as E by (vm_compute; reflexivity).
  apply pair_run in E. fold toy_arrived in E. rewrite E in Hw.
  change ([1] : Hash) with (cb_Hash (mkToy [1] true)).
  apply (accepted_ready (EV := toy_env true) toy_waiting toy_arrived (mkToy [1] true)); [apply toy_waiting_ok|vm_compute; reflexivity|vm_compute; reflexivity|].
  apply Hw. vm_compute. reflexivity.
Qed.

Lemma orphans_terminate_witness :
  exists c', processOrphans (EV := toy_env true) [] 3 [1] toy_arrived = (Ret tt, c') /\ is_Some (tree_index (tree c') !! [2; 3; 1]) /\
    adopts (EV := toy_env true) [] (getOrphansByPrevious [1] (orphanPool toy_arrived)) toy_arrived (Ret tt) c'.
Proof.
  destruct (orphans_terminate (EV := toy_env true) [] [1] toy_arrived toy_arrived_ready) as (r & c' & Ha & Hf).
  pose proof (Hf 3%nat ltac:(vm_compute; lia)) as E.
  assert (r = Ret tt) as -> by (change r with (r, c').1; rewrite <- E; vm_compute; reflexivity).
  exists c'. split; [exact E|]. split; [|exact Ha]. change c' with (Ret (E := chain_error) tt, c').2. rewrite <- E. vm_compute. by eexists.
Defined.

Lemma error_poisons_hash_witness :
  exists c1, run_block true (mkToy [1] false) toy_start = (Err (ErrOther 1), c1) /\ (run_block true (mkToy [1] true) c1).1 = Err (ErrOther 1).
Proof.
  destruct (error_poisons_hash (EV := toy_env true) [] 0 0 (Items (block_pool (orphanPool toy_start))) (Items (block_pool (orphanPool toy_start)))
    (mkToy [1] true) (mkToy [1] false) toy_start (ErrOther 1) [[]]) as (c1 & Hfail & Hpoison).
  - intros h e cache. cbn. by rewrite decide_True.
  - reflexivity.
  - vm_compute. reflexivity.
  - vm_compute. reflexivity.
  - reflexivity.
  - reflexivity.
  - reflexivity.
  - exists c1. split; [exact Hfail|]. unfold run_block. vm_compute in Hfail. injection Hfail as <-. vm_compute. reflexivity.
Defined.

(** The start with the genesis block as a checkpoint. *)
Definition toy_marked : toy_chain :=
  mkChain (tree toy_start) (orphanPool toy_start) (blockCache toy_start) [] [mkCheckpoint 0 []] None None (ext toy_start).

Lemma toy_marked_settled : settled (EV := toy_env false) toy_marked.
Proof. destruct toy_settled as [[Hs Hm] ? ? ? ? ?]. split; try done. split; [|done]. by destruct Hs; split. Qed.

(** The block is accepted, and it is the new tip. *)
Lemma best_tip_selected_witness :
  exists c'' best nbest, run_block false (mkToy [5] true) toy_marked = (Ret false, c'') /\
    is_Some (tree_index (tree c'') !! [5]) /\ nodes (tree c'') !! best = Some nbest /\
    forall h p n, tree_index (tree c'') !! h = Some p -> nodes (tree c'') !! p = Some n -> better n nbest = false.
Proof.
  destruct (best_tip_selected (EV := toy_env false) [] toy_marked toy_marked 0 (Items (block_pool (orphanPool toy_marked))) (mkToy [5] true))
    as (o & c'' & best & nbest & Hrun & Ho & _ & Hn & Hbest).
  - apply toy_marked_settled.
  - reflexivity.
  - reflexivity.
  - vm_compute. discriminate.
  - assert (o = Ret false) as -> by (change o with (o, c'').1; rewrite <- Hrun; vm_compute; reflexivity).
    exists c'', best, nbest. split; [exact Hrun|]. split; [exact Ho|]. split; [exact Hn|exact Hbest].
Defined.

Lemma target_adjusts_witness :
  CalcNextRequiredDifficulty 0 (Some (toy_header [100000])) 1006 = 100048 /\
  CalcNextRequiredDifficulty 0 (Some (toy_header [100000])) 1600 <= 100048.
Proof.
  destruct (target_adjusts 0 (toy_header [100000]) 1006) as (_ & _ & Hup & _ & _ & Hmono); [done|done|change (1000 <= 1006 < 2 ^ 62); lia|].
  rewrite (Hup ltac:(vm_compute; reflexivity)) in Hmono. split; [rewrite Hup; [reflexivity|vm_compute; reflexivity]|].
  apply (Hmono 1600). lia.
Defined.

(** Eleven blocks in a row. *)
Definition line_node (i : nat) : BlockNode :=
  mkNode true (match i with O => None | S _ => Some (Pos.of_succ_nat (pred i)) end) (replicate i 1) 1 1 (toy_header (replicate i 1)).
Definition line_tree : BlockTree :=
  mkTree (list_to_map (map (fun i => (Pos.of_succ_nat i, line_node i)) (seq 0 11))) (Some 1%positive) (Some 11%positive) ∅ ∅.
Definition line_path : list ptr := map Pos.of_succ_nat (rev (seq 0 11)).

Lemma line_is_path : path line_tree 11%positive line_path.
Proof.
  assert (forall n, (n < 11)%nat -> path line_tree (Pos.of_succ_nat n) (map Pos.of_succ_nat (rev (seq 0 (S n))))) as Hall; [|apply (Hall 10%nat); lia].
  assert (forall n, (n < 11)%nat -> nodes line_tree !! Pos.of_succ_nat n = Some (line_node n)) as Hn.
  { intros n Hlt. do 11 (destruct n as [|n]; [reflexivity|]). lia. }
  induction n as [|n IH]; intros Hlt.
  - by apply (path_root _ _ (line_node 0)); [apply Hn|].
  - rewrite seq_S, rev_app_distr. cbn [rev app map Nat.add]. eapply path_step; [by apply Hn|done|apply IH; lia].
Qed.

Lemma challenge_of_interval_witness :
  exists r nr, line_path !! 10%nat = Some r /\ nodes line_tree !! r = Some nr /\ node_Height nr = 0 /\
    calcNextChallenge 11%positive line_tree = (Ret (HashB (Proof_Encode (bh_Proof (blockHeader nr)))), line_tree).
Proof.
  apply (challenge_of_interval line_tree 11%positive line_path (line_node 10) 1 0); try done; [apply line_is_path|].
  intros i q nq Hi Hq. assert (i < 11)%nat as Hlt by exact (lookup_lt_Some _ _ _ Hi).
  do 11 (destruct i as [|i]; [vm_compute in Hi; injection Hi as <-; vm_compute in Hq; injection Hq as <-; reflexivity|]). lia.
Defined.
