(* ===== verification/Payload.v ===== *)
(** Payloads of transactions (blockchain/payload.go): the height and reward count in a coinbase,
    and the messages that bind a pool key to a coinbase address. *)

From S2P Require Import Prelude Hashes Wire Poc Block.

(** * Definitions *)

Record CoinbasePayload := mkCoinbasePayload { cbp_height : Z; numStakingReward : Z }.

Definition CoinbasePayload_Bytes (p : CoinbasePayload) : bytes :=
  le_encode 8 (cbp_height p) ++ le_encode 4 (numStakingReward p).

(** [None] is errIncompleteCoinbasePayload. *)
Definition CoinbasePayload_SetBytes (data : bytes) : option CoinbasePayload :=
  if len data <? 12 then None
  else Some (mkCoinbasePayload (le_decode (take 8 data)) (le_decode (take 4 (drop 8 data)))).

Definition standardCoinbasePayload (nextBlockHeight num : Z) : bytes :=
  CoinbasePayload_Bytes (mkCoinbasePayload nextBlockHeight num).

Definition BindPoolCoinbase : Z := 1.

(** Keys and signatures are their encodings. *)
Record BindPoolCoinbaseParams := mkParams {
  PoolPK : bytes;
  pp_Signature : bytes;
  CoinbaseScriptAddress : bytes;
  Nonce : Z;
}.

(** The one method there is. *)
Record TransactionPayload := mkTransactionPayload { Method : Z; Params : BindPoolCoinbaseParams }.

Section payload.
Context {HF : HashFunctions} {CL : ChiaLib}.

Definition NewBindPoolCoinbasePayload (ppk sig coinbase : bytes) (nonce : Z) : option TransactionPayload :=
  if nonce =? 0 then None
  else Some (mkTransactionPayload BindPoolCoinbase (mkParams ppk sig coinbase nonce)).

(** [None] is an error. *)
Definition Params_Decode (data : bytes) : option BindPoolCoinbaseParams :=
  if len data <? 148 then None
  else
    match NewG1ElementFromBytes (take 48 data) with
    | Ret pk =>
        match NewG2ElementFromBytes (take 96 (drop 48 data)) with
        | Ret sig =>
            let nonce := be_decode (take 4 (drop 144 data)) in
            if nonce =? 0 then None else Some (mkParams pk sig (drop 148 data) nonce)
        | _ => None
        end
    | _ => None
    end.

(** [copy] into a field of fixed size: the value cut or filled with zeros. *)
Definition field (n : nat) (b : bytes) : bytes := take n b ++ replicate (n - length b) 0.

Definition Params_Encode (params : BindPoolCoinbaseParams) : bytes :=
  field 48 (PoolPK params) ++ field 96 (pp_Signature params) ++ be_encode 4 (Nonce params) ++ CoinbaseScriptAddress params.

Definition EncodePayload (payload : TransactionPayload) : bytes :=
  be_encode 2 (Method payload) ++ Params_Encode (Params payload).

(** [None] is an error of the library or a zero nonce. *)
Definition VerifyPoolPkPayload (poolPk signature coinbaseScriptAddress : bytes) (nonce : Z) : option bool :=
  if nonce =? 0 then None
  else
    let content := poolPk ++ be_encode 4 nonce ++ le_encode 4 (len coinbaseScriptAddress) ++ coinbaseScriptAddress in
    aug_verify poolPk (HashB content) signature.

Definition DecodePayload (payload : bytes) : option TransactionPayload :=
  if len payload <? 2 then None
  else if be_decode (take 2 payload) =? BindPoolCoinbase then
    match Params_Decode (drop 2 payload) with
    | None => None
    | Some params =>
        match VerifyPoolPkPayload (PoolPK params) (pp_Signature params) (CoinbaseScriptAddress params) (Nonce params) with
        | Some true => Some (mkTransactionPayload BindPoolCoinbase params)
        | _ => None
        end
    end
  else None.
End payload.
