(* ===== verification/Validate.v ===== *)
(** Validation of transactions, headers and blocks: blockchain/validate.go and the relative
    lock times of blockchain/chain.go.  The coinbase is
    in Coinbase.v and the composition of the checks in Connect.v. *)

From S2P Require Import Prelude TxCommon Script Hashes Wire Merkle Amount Forks Poc Block MsgBlock Payload.

(** * Definitions *)

(** blockchain/errors.go; the last constructors are errors of callees. *)
Inductive val_error :=
| ErrNoTxInputs | ErrNoTxOutputs | ErrTxTooBig | ErrBadTxOutValue | ErrDuplicateTxInputs | ErrBadTxInput
| ErrInvalidProofType | ErrUnexpectedDifficulty | ErrLowQuality | ErrChainID | ErrInvalidBlockVersion
| ErrTimeTooNew | ErrBanSelfPk | ErrBanList | ErrBlockSIG | ErrCheckBannedPk
| errBlockNoTransactions | errIncompleteCoinbasePayload | ErrBadCoinbaseHeight | ErrTooManyTransactions
| ErrBlockTooBig | ErrInvalidProposalRoot | ErrFirstTxNotCoinbase | ErrMultipleCoinbases
| ErrInvalidMerkleRoot | ErrDuplicateTx | ErrTooManySigOps | errUnFinalizedTx
| ErrMissingTx | ErrImmatureSpend | ErrDoubleSpend | ErrCoinbaseTxInWitness | ErrOverwriteTx
| ErrTxShaMissing | ErrTxAlreadyExists | ErrSequenceNotSatisfied
| ErrBadFees | ErrFeeForPoolPkCoinbase | ErrPayloadNonce | ErrConnectGenesis
| ErrBindingPubKey | ErrInvalidBindingScript | ErrStakingRewardNum | ErrBadCoinbaseValue
| errStakingRewardValue | errStakingRewardAddress | ErrUnexpectedCoinbase | ErrNilChiaPoolPk
| errZeroPlotID | ErrPlotPKNotBound
| ErrBannedPk | ErrBadBlockHeight | ErrBadCheckpoint | ErrForkTooOld | ErrUnexpectedChallenge | ErrTimeTooOld
| ErrWitnessLength | ErrScriptMalformed | ErrScriptValidation
| ErrPlotPKAlreadyBound | ErrInvalidStakingTxValue | ErrInvalidFrozenPeriod | ErrInvalidBitLength
| ErrBindingValueNotEnough | ErrNonStandardType | ErrBindingInputMissing | ErrStandardBindingTx
| ErrMismatchedBindingRoot | errUnexpectedHeight | errTxNotFound
| ErrDuplicateStaking | errStakingTxNotFound | errRewardBeforeHeight | errExpiredStaking
| ErrTxMsgPayloadSize | ErrCoinbaseTx | ErrInsufficientFee | ErrInsufficientPriority | ErrProhibitionOrphanTx
| ErrInvalidTxVersion | ErrUnfinalizedTx | ErrNonStandardTxSize | ErrWitnessSize | ErrSignaturePushOnly
| ErrDust | ErrNuLLDataScript | ErrParseInputScript | ErrExpectedSignInput | ErrFindReferenceInput | ErrTxExsit | ErrFindTxByAddr
| OfProof (e : poc_error) | OfMsg (e : block_error) | OfAmount (e : amount_error) | OfFork (e : fork_error)
| OfScript (e : script_error) | OfTrie
| OfCallee (code : Z).  (** an error of a component that is an argument of the model *)

Abbreviation val A := (outcome val_error A).

Definition MaxSigOpsPerBlock : Z := MaxBlockPayload / 150 * MaxPubKeysPerMultiSig.
Definition CoinbaseMaturity : Z := 1000.
Definition TransactionMaturity : Z := 1.

(** ** Transactions *)

Definition isNullOutpoint (outpoint : OutPoint) : bool :=
  (op_Index outpoint =? 2 ^ 32 - 1) && bytes_Equal (op_Hash outpoint) zeroHash.

(** [IsCoinBase] and [IsCoinBaseTx]: the first input decides. *)
Definition IsCoinBase (msgTx : MsgTx) : bool :=
  match TxIns msgTx with
  | [] => false
  | txIn :: _ =>
      let prevOut := PreviousOutPoint txIn in
      negb (negb (op_Index prevOut =? 2 ^ 32 - 1) || negb (bytes_Equal (op_Hash prevOut) zeroHash))
  end.

Definition IsFinalizedTransaction (msgTx : MsgTx) (blockHeight blockTime : Z) : bool :=
  let lockTime := LockTime msgTx in
  if lockTime =? 0 then true
  else
    let blockTimeOrHeight := if lockTime <? LockTimeThreshold then int64 blockHeight else blockTime in
    if int64 lockTime <? blockTimeOrHeight then true
    else forallb (fun txIn => Sequence txIn =? MaxTxInSequenceNum) (TxIns msgTx).

(** [totalMaxwell.AddInt] over the outputs; any error is ErrBadTxOutValue. *)
Fixpoint add_outputs (total : Amount) (outs : list TxOut) : val Amount :=
  match outs with
  | [] => Ret total
  | txOut :: rest =>
      match Amount_AddInt total (Value txOut) with
      | Ret total' => add_outputs total' rest
      | Err _ => Err ErrBadTxOutValue
      | Panic => Panic
      end
  end.

(** [seen] stands for the map of the outpoints seen so far. *)
#[global] Instance OutPoint_eq_dec : EqDecision OutPoint.
Proof. solve_decision. Defined.

Fixpoint check_dup_inputs (seen : list OutPoint) (ins : list TxIn) : val unit :=
  match ins with
  | [] => Ret tt
  | txIn :: rest =>
      if bool_decide (PreviousOutPoint txIn ∈ seen) then Err ErrDuplicateTxInputs
      else check_dup_inputs (PreviousOutPoint txIn :: seen) rest
  end.

Definition CheckTransactionSanity (msgTx : MsgTx) : val unit :=
  check (len (TxIns msgTx) =? 0) ErrNoTxInputs;;
  check (len (TxOuts msgTx) =? 0) ErrNoTxOutputs;;
  check (PlainSize msgTx >? MaxBlockPayload) ErrTxTooBig;;
  add_outputs ZeroAmount (TxOuts msgTx);;
  check_dup_inputs [] (TxIns msgTx);;
  let ins := if IsCoinBase msgTx then drop 1 (TxIns msgTx) else TxIns msgTx in
  check (existsb (fun txIn => isNullOutpoint (PreviousOutPoint txIn)) ins) ErrBadTxInput.

(** The last item of the witness of an input is read without a check. *)
Fixpoint input_sigops (total : Z) (ins : list TxIn) : val Z :=
  match ins with
  | [] => Ret total
  | txIn :: rest =>
      script ← index (Witness txIn) (len (Witness txIn) - 1);
      input_sigops (int64 (total + GetSigOpCount script)) rest
  end.

Definition CountSigOps (msgTx : MsgTx) : val Z :=
  if IsCoinBase msgTx then Ret 0
  else
    total ← input_sigops 0 (TxIns msgTx);
    Ret (fold_left (fun total txOut => int64 (total + GetSigOpCount (PkScript txOut))) (TxOuts msgTx) total).

(** ** Headers *)

Section headers.
Context {HF : HashFunctions} {CL : ChiaLib} {EC : Ecdsa} {PB : Protobuf}.

Definition PubKeyItfHash (pubKey : PubKey) : bytes := DoubleSHA256 (PubKey_SerializeCompressed pubKey).

Definition checkProofOfCapacity (header : BlockHeader) (pocLimit : Z) : val unit :=
  check (negb (EnforceMASSIP0002 (bh_Height header)) && negb (Proof_Type (bh_Proof header) =? ProofTypeDefault)) ErrInvalidProofType;;
  let target := bh_Target header in
  check (Z.sgn target <=? 0) ErrUnexpectedDifficulty;;
  check (target <? pocLimit) ErrUnexpectedDifficulty;;
  let pubKeyHash := PubKeyItfHash (bh_PubKey header) in
  let slot := uint64 (bh_Timestamp header) / PoCSlot in
  quality ← wrap OfProof (VerifiedQuality (bh_Proof header) pubKeyHash (bh_Challenge header)
                            (EnforceMASSIP0002 (bh_Height header)) slot (bh_Height header));
  check (quality <? target) ErrLowQuality.

Definition checkChainID (header : BlockHeader) (chainID : Hash) : val unit :=
  check (negb (bytes_Equal (bh_ChainID header) chainID)) ErrChainID.

Definition checkVersion (header : BlockHeader) : val unit :=
  check (bh_Version header <? GetBlockVersion (bh_Height header)) ErrInvalidBlockVersion.

(** Timestamps are whole seconds in the model, so that the check of their precision passes;
    [now] is the clock, in nanoseconds since 1970. *)
Definition checkHeaderTimestamp (now : Z) (header : BlockHeader) : val unit :=
  let allowed := unixToInternal * 10 ^ 9 + now + 3 * 10 ^ 9 in
  check (allowed <? instant (bh_Timestamp header) * 10 ^ 9) ErrTimeTooNew.

Fixpoint check_banned (hpk : bytes) (seen : list bytes) (banned : list PubKey) : val unit :=
  match banned with
  | [] => Ret tt
  | bpk :: rest =>
      let pk := PubKey_SerializeCompressed bpk in
      check (bytes_Equal hpk pk) ErrBanSelfPk;;
      check (bool_decide (pk ∈ seen)) ErrBanList;;
      check_banned hpk (pk :: seen) rest
  end.

Definition checkHeaderBanList (header : BlockHeader) : val unit :=
  check_banned (PubKey_SerializeCompressed (bh_PubKey header)) [] (bh_BanList header).

(** The key and the signature of a header are never nil in the model. *)
Definition checkHeaderSignature (header : BlockHeader) : val unit :=
  correct ← wrap OfMsg (VerifySig header);
  check (negb correct) ErrBlockSIG.

Definition checkBlockHeaderSanity (now : Z) (header : BlockHeader) (chainID : Hash) (pocLimit : Z) : val unit :=
  checkChainID header chainID;;
  checkVersion header;;
  checkHeaderTimestamp now header;;
  checkHeaderBanList header;;
  checkProofOfCapacity header pocLimit;;
  checkHeaderSignature header.

(** ** Proposals *)

Definition checkFaultPkSanity (now : Z) (fpk : FaultPubKey) (chainID : Hash) : val unit :=
  match FaultPubKey_IsValid fpk with
  | Panic => Panic
  | Err _ => Err ErrCheckBannedPk
  | Ret _ =>
      match checkBlockHeaderSanity now (fpk_Testimony fpk).1 chainID 0, checkBlockHeaderSanity now (fpk_Testimony fpk).2 chainID 0 with
      | Ret _, Ret _ => Ret tt
      | Panic, _ | _, Panic => Panic
      | _, _ => Err ErrCheckBannedPk
      end
  end.

(** The keys of the punishments are those of the header, in order. *)
Fixpoint match_banned (area : list FaultPubKey) (bannedKeys : list PubKey) : val unit :=
  match area with
  | [] => Ret tt
  | fpk :: rest =>
      pk ← deref (fpk_PubKey fpk);
      key ← index bannedKeys 0;
      check (negb (bytes_Equal (PubKey_SerializeCompressed pk) (PubKey_SerializeCompressed key))) ErrBanList;;
      match_banned rest (drop 1 bannedKeys)
  end.

Fixpoint check_punishments (now : Z) (area : list FaultPubKey) (header : BlockHeader) (chainID : Hash) : val unit :=
  match area with
  | [] => Ret tt
  | fpk :: rest =>
      check (bh_Height (fpk_Testimony fpk).1 >? bh_Height header) ErrBanList;;
      match checkFaultPkSanity now fpk chainID with
      | Ret _ => check_punishments now rest header chainID
      | Err _ => Err ErrBanList
      | Panic => Panic
      end
  end.

Definition checkBlockProposalSanity (now : Z) (pa : ProposalArea) (header : BlockHeader) (chainID : Hash) : val unit :=
  let bannedKeys := bh_BanList header in
  check (negb (PunishmentCount pa =? len bannedKeys)) ErrBanList;;
  match_banned (PunishmentArea pa) bannedKeys;;
  check_punishments now (PunishmentArea pa) header chainID.

(** ** Blocks *)

Definition extractCoinbaseHeight (coinbaseTx : MsgTx) : val Z :=
  let payload := Payload coinbaseTx in
  check (len payload <? 8) errIncompleteCoinbasePayload;; Ret (le_decode (take 8 payload)).

Definition extractCoinbaseStakingRewardNumber (coinbaseTx : MsgTx) : val Z :=
  let payload := Payload coinbaseTx in
  check (len payload <? 12) errIncompleteCoinbasePayload;; Ret (le_decode (take 4 (drop 8 payload))).

Definition checkSerializedHeight (coinbaseTx : MsgTx) (wantHeight : Z) : val unit :=
  serializedHeight ← extractCoinbaseHeight coinbaseTx;
  check (negb (serializedHeight =? wantHeight)) ErrBadCoinbaseHeight.

Definition CheckCoinbaseHeight (block : MsgBlock) : val unit :=
  coinbaseTx ← index (Transactions block) 0;
  checkSerializedHeight coinbaseTx (bh_Height (Header block)).

(** The last node of a merkle store, which is the root, equals the hash in the header. *)
Definition check_root (merkles : val (list (option Hash))) (root : Hash) (e : val_error) : val unit :=
  merkles ← merkles;
  calculated ← index merkles (len merkles - 1);
  check (negb (Hash_IsEqual (Some root) calculated)) e.

(** [tx.Hash()] *)
Definition tx_sha (tx : MsgTx) : Hash := match TxHash tx with Ret h => h | _ => zeroHash end.

Fixpoint check_dup_txs (seen : list Hash) (txs : list MsgTx) : val unit :=
  match txs with
  | [] => Ret tt
  | tx :: rest =>
      if bool_decide (tx_sha tx ∈ seen) then Err ErrDuplicateTx else check_dup_txs (tx_sha tx :: seen) rest
  end.

Fixpoint check_sigops (totalSigOps : Z) (txs : list MsgTx) : val unit :=
  match txs with
  | [] => Ret tt
  | tx :: rest =>
      n ← CountSigOps tx;
      let total := int64 (totalSigOps + n) in
      check ((total <? totalSigOps) || (total >? MaxSigOpsPerBlock)) ErrTooManySigOps;;
      check_sigops total rest
  end.

Fixpoint check_all {A} (f : A -> val unit) (l : list A) : val unit :=
  match l with [] => Ret tt | x :: rest => f x;; check_all f rest end.

(** [noPoC] is the flag BFNoPoCCheck. *)
Definition checkBlockSanity (now : Z) (block : MsgBlock) (chainID : Hash) (pocLimit : Z) (noPoC : bool) : val unit :=
  let header := Header block in
  (if negb noPoC then checkBlockHeaderSanity now header chainID pocLimit else Ret tt);;
  checkBlockProposalSanity now (Proposals block) header chainID;;
  let numTx := len (Transactions block) in
  check (numTx =? 0) errBlockNoTransactions;;
  CheckCoinbaseHeight block;;
  check (numTx >? MaxTxPerBlock) ErrTooManyTransactions;;
  serializedSize ← wrap OfMsg (MsgBlock_PlainSize block);
  check (serializedSize >? MaxBlockPayload) ErrBlockTooBig;;
  check_root (wrap OfMsg (BuildMerkleTreeStoreForProposal (Proposals block))) (bh_ProposalRoot header) ErrInvalidProposalRoot;;
  first ← index (Transactions block) 0;
  check (negb (IsCoinBase first)) ErrFirstTxNotCoinbase;;
  check (existsb IsCoinBase (drop 1 (Transactions block))) ErrMultipleCoinbases;;
  check_all CheckTransactionSanity (Transactions block);;
  check_root (wrap (fun e => OfMsg (OfWire e)) (BuildMerkleTreeStoreTransactions (Transactions block) false)) (bh_TransactionRoot header) ErrInvalidMerkleRoot;;
  check_root (wrap (fun e => OfMsg (OfWire e)) (BuildMerkleTreeStoreTransactions (Transactions block) true)) (bh_WitnessRoot header) ErrInvalidMerkleRoot;;
  check_dup_txs [] (Transactions block);;
  check_sigops 0 (Transactions block).
End headers.

(** ** Inputs *)

(** [TxData]: a transaction an input refers to, from the point of view of a block. *)
Record TxData := mkTxData {
  td_Tx : option MsgTx;
  td_Hash : Hash;
  td_BlockHeight : Z;
  td_Spent : list bool;
  td_Err : option val_error;
}.

Abbreviation TxStore := (gmap Hash TxData).

Definition set_Spent (td : TxData) (spent : list bool) : TxData :=
  mkTxData (td_Tx td) (td_Hash td) (td_BlockHeight td) spent (td_Err td).

Definition isTransactionSpent (txD : TxData) : bool := forallb id (td_Spent txD).

Definition checkDupSpend (preOutPoint : OutPoint) (spent : list bool) : val unit :=
  check (op_Index preOutPoint >=? uint32 (len spent)) ErrBadTxInput;;
  isSpent ← index spent (op_Index preOutPoint);
  check isSpent ErrDoubleSpend.

Definition checkTxInMaturity (txData : TxData) (txHeight : Z) (isCoinbase : bool) : val unit :=
  let blocksSincePrev := if txHeight >? td_BlockHeight txData then txHeight - td_BlockHeight txData else 0 in
  match td_Tx txData with
  | None => Panic
  | Some tx =>
      if IsCoinBase tx then check (blocksSincePrev <? CoinbaseMaturity) ErrImmatureSpend
      else if isCoinbase then check (blocksSincePrev <? TransactionMaturity) ErrImmatureSpend
      else Ret tt
  end.

(** The entry of a referenced transaction and the transaction, when it is available. *)
Definition available (txStore : TxStore) (hash : Hash) : option (TxData * MsgTx) :=
  match txStore !! hash with
  | Some originTx =>
      match td_Err originTx, td_Tx originTx with
      | None, Some tx => Some (originTx, tx)
      | _, _ => None
      end
  | None => None
  end.

(** The value of the output an input spends, and the entry it belongs to. *)
Definition check_input (txHeight : Z) (txStore : TxStore) (isCoinbase : bool) (op : OutPoint) : val (TxData * MsgTx * Amount) :=
  match available txStore (op_Hash op) with
  | None => Err ErrMissingTx
  | Some (originTx, tx) =>
      checkTxInMaturity originTx txHeight isCoinbase;;
      checkDupSpend op (td_Spent originTx);;
      out ← index (TxOuts tx) (op_Index op);
      originTxMaxwell ← wrap OfAmount (NewAmountFromInt (Value out));
      Ret (originTx, tx, originTxMaxwell)
  end.

Definition mark_spent (op : OutPoint) (originTx : TxData) (txStore : TxStore) : TxStore :=
  <[op_Hash op := set_Spent originTx (<[Z.to_nat (op_Index op) := true]> (td_Spent originTx))]> txStore.

Fixpoint check_inputs (txHeight : Z) (total : Amount) (ins : list TxIn) : prog TxStore val_error Amount :=
  match ins with
  | [] => mret total
  | txIn :: rest =>
      let op := PreviousOutPoint txIn in
      txStore ← gets id;
      '(originTx, _, originTxMaxwell) ← lift (check_input txHeight txStore false op);
      total' ← lift (wrap OfAmount (Amount_Add total originTxMaxwell));
      modify (mark_spent op originTx);;
      check_inputs txHeight total' rest
  end.

Fixpoint sum_outputs (total : Amount) (outs : list TxOut) : val Amount :=
  match outs with
  | [] => Ret total
  | txOut :: rest =>
      v ← wrap OfAmount (NewAmountFromInt (Value txOut));
      total' ← wrap OfAmount (Amount_Add total v);
      sum_outputs total' rest
  end.

(** The fee of a transaction; the outputs it spends are marked in the store. *)
Definition CheckTransactionInputs (tx : MsgTx) (txHeight : Z) : prog TxStore val_error Amount :=
  if IsCoinBase tx then
    fail_if (existsb (fun txIn => negb (TxWitness_PlainSize (Witness txIn) =? 0)) (TxIns tx)) ErrCoinbaseTxInWitness;;
    mret ZeroAmount
  else
    totalMaxwellIn ← check_inputs txHeight ZeroAmount (TxIns tx);
    totalMaxwellOut ← lift (sum_outputs ZeroAmount (TxOuts tx));
    lift (wrap OfAmount (Amount_Sub totalMaxwellIn totalMaxwellOut)).

(** ** Fees *)

Definition MASSIP0002SetPoolPkCoinbaseFee : Z := 100000000.

Section fees.
Context {HF : HashFunctions} {CL : ChiaLib}.

Definition check_pool_payload (txFee : Amount) (tx : MsgTx) : val unit :=
  match DecodePayload (Payload tx) with
  | Some payload =>
      fee ← wrap OfAmount (Amount_IntValue txFee);
      check (fee <? MASSIP0002SetPoolPkCoinbaseFee) ErrFeeForPoolPkCoinbase;;
      check (Nonce (Params payload) =? 0) ErrPayloadNonce
  | None => Ret tt
  end.

(** [first] tells whether the next transaction is the first of the block. *)
Fixpoint sum_fees (height : Z) (first : bool) (totalFees : Amount) (txs : list MsgTx) : prog TxStore val_error Amount :=
  match txs with
  | [] => mret totalFees
  | tx :: rest =>
      txFee ← CheckTransactionInputs tx height;
      lift (if negb first && EnforceMASSIP0002WarmUp height then check_pool_payload txFee tx else Ret tt);;
      total ← lift (match Amount_Add totalFees txFee with Ret a => Ret a | Err _ => Err ErrBadFees | Panic => Panic end);
      sum_fees height false total rest
  end.
End fees.

(** ** Relative lock times *)

Record SequenceLock := mkSequenceLock { sl_Seconds : Z; sl_BlockHeight : Z }.

(** [LockTimeToSequence] *)
Definition LockTimeToSequence (isSeconds : bool) (locktime : Z) : Z :=
  if negb isSeconds then locktime
  else Z.lor SequenceLockTimeIsSeconds (Z.shiftr locktime SequenceLockTimeGranularity).

Definition mempoolHeight : Z := 2 ^ 64 - 1.

(** [median] is the past median time of the ancestor at a height, in seconds. *)
Fixpoint sequence_locks (nextHeight : Z) (median : Z -> Z) (txStore : TxStore) (lock : SequenceLock) (ins : list TxIn) : val SequenceLock :=
  match ins with
  | [] => Ret lock
  | txIn :: rest =>
      match txStore !! op_Hash (PreviousOutPoint txIn) with
      | None => Err ErrMissingTx
      | Some utxo =>
          let coinHeight := if td_BlockHeight utxo =? mempoolHeight then nextHeight else td_BlockHeight utxo in
          let sequenceNum := Sequence txIn in
          let relativeLock := Z.land sequenceNum SequenceLockTimeMask in
          let lock' :=
            if Z.land sequenceNum SequenceLockTimeDisabled =? SequenceLockTimeDisabled then lock
            else if Z.land sequenceNum SequenceLockTimeIsSeconds =? SequenceLockTimeIsSeconds then
              let prevInputHeight := uint64 (coinHeight - 1) in
              let timeLockSeconds := uint64 (uint64 (Z.shiftl relativeLock SequenceLockTimeGranularity) - 1) in
              let timeLock := int64 (median prevInputHeight + int64 timeLockSeconds) in
              mkSequenceLock (if timeLock >? sl_Seconds lock then timeLock else sl_Seconds lock) (sl_BlockHeight lock)
            else
              let blockHeight := uint64 (uint64 (coinHeight + relativeLock) - 1) in
              mkSequenceLock (sl_Seconds lock) (if blockHeight >? sl_BlockHeight lock then blockHeight else sl_BlockHeight lock) in
          sequence_locks nextHeight median txStore lock' rest
      end
  end.

Definition calcSequenceLock (nodeHeight : Z) (median : Z -> Z) (tx : MsgTx) (txStore : TxStore) : val SequenceLock :=
  let sequenceLock := mkSequenceLock 0 0 in
  if IsCoinBase tx then Ret sequenceLock
  else sequence_locks (uint64 (nodeHeight + 1)) median txStore sequenceLock (TxIns tx).

Definition SequenceLockActive (sequenceLock : SequenceLock) (blockHeight medianTimePast : Z) : bool :=
  if (sl_Seconds sequenceLock >=? medianTimePast) || (sl_BlockHeight sequenceLock >=? blockHeight) then false else true.
