(* ===== verification/ValidateSpec.v ===== *)
(** What validation guarantees: sane transactions, conservation of value and the absence of
    double spends in a block, and when relative lock times are met. *)

From S2P Require Import Prelude TxCommon Script Hashes Wire Merkle Amount Forks Poc PocSpec Block MsgBlock BlockSpec Payload Validate.

(** * Amounts *)

Definition amount (z : Z) : Amount := mkAmount (mkUint128 z).
Definition maxwells (a : Amount) : Z := u_value (a_value a).
Definition max_maxwells : Z := 20643840000000000.

Lemma checked_Ret z a : (u ← validated z; checkedAmount u) = Ret a <-> 0 <= z <= max_maxwells /\ a = amount z.
Proof.
  rewrite checked_validated. unfold max_maxwells, amount. rewrite max_value.
  repeat case_decide; split; try (by intros [=]); try lia; [intros [= <-]; split; [lia|done]|by intros [_ ->]].
Qed.

Lemma FromInt_Ret v a : NewAmountFromInt v = Ret a <-> 0 <= v <= max_maxwells /\ a = amount v.
Proof. apply checked_Ret. Qed.

Lemma Add_Ret a b c : Amount_Add a b = Ret c <-> 0 <= maxwells a + maxwells b <= max_maxwells /\ c = amount (maxwells a + maxwells b).
Proof. apply checked_Ret. Qed.

Lemma Amount_Sub_Ret a b c : Amount_Sub a b = Ret c <-> 0 <= maxwells a - maxwells b <= max_maxwells /\ c = amount (maxwells a - maxwells b).
Proof. apply checked_Ret. Qed.

Lemma AddInt_Ret a v c :
  Amount_AddInt a v = Ret c <-> 0 <= v < 2 ^ 128 /\ 0 <= maxwells a + v <= max_maxwells /\ c = amount (maxwells a + v).
Proof.
  unfold Amount_AddInt, Uint128_AddInt, NewUint128FromInt. rewrite validated_spec.
  case_decide; [split; [done|lia]|]. case_decide; [split; [done|lia]|].
  cbn [mbind outcome_bind]. unfold Uint128_Add. cbn [u_value]. rewrite checked_Ret. unfold maxwells. naive_solver lia.
Qed.

Lemma Amount_no_panic a b : Amount_Add a b <> Panic /\ Amount_Sub a b <> Panic.
Proof. unfold Amount_Add, Amount_Sub, Uint128_Add, Uint128_Sub. rewrite !checked_validated. by repeat case_decide. Qed.

Lemma AddInt_no_panic a v : Amount_AddInt a v <> Panic.
Proof.
  unfold Amount_AddInt, Uint128_AddInt, NewUint128FromInt. rewrite validated_spec. repeat case_decide; [done|done|].
  cbn [mbind outcome_bind]. unfold Uint128_Add. rewrite checked_validated. by repeat case_decide.
Qed.

Definition total_value (outs : list TxOut) : Z := foldr Z.add 0 (Value <$> outs).

Lemma total_nonneg outs : Forall (fun o => 0 <= Value o) outs -> 0 <= total_value outs.
Proof. induction 1 as [|o outs Ho _ IH]; unfold total_value in *; cbn; lia. Qed.

Lemma wrap_Ret {E E' A} (f : E -> E') (o : outcome E A) a : wrap f o = Ret a <-> o = Ret a.
Proof. destruct o; cbn; split; congruence. Qed.

Lemma sum_outputs_Ret t outs r :
  sum_outputs t outs = Ret r -> Forall (fun o => 0 <= Value o <= max_maxwells) outs /\ maxwells r = maxwells t + total_value outs.
Proof.
  revert t. induction outs as [|o outs IH]; intros t; cbn [sum_outputs].
  - intros [= <-]. split; [done|]. cbn. lia.
  - intros (v & Hv & (t' & Ht & Hr)%bind_Ret)%bind_Ret. apply wrap_Ret, FromInt_Ret in Hv as [Hv ->].
    apply wrap_Ret, Add_Ret in Ht as [_ ->]. destruct (IH _ Hr) as [Hall ->]. split; [by constructor|]. unfold total_value. cbn. lia.
Qed.

Lemma add_outputs_Ret t outs :
  0 <= maxwells t <= max_maxwells -> (forall o, o ∈ outs -> Value o < 2 ^ 63) ->
  is_Ret (add_outputs t outs) <-> Forall (fun o => 0 <= Value o) outs /\ maxwells t + total_value outs <= max_maxwells.
Proof.
  revert t. induction outs as [|o outs IH]; intros t Ht Hw; cbn [add_outputs].
  - split; [intros _; split; [done|]; cbn; lia|intros _; by eexists].
  - destruct (Amount_AddInt t (Value o)) as [t'|e|] eqn:Ha; [| |by destruct (AddInt_no_panic t (Value o))].
    + apply AddInt_Ret in Ha as (Hv & Hsum & ->). rewrite IH by (cbn; (lia || set_solver)).
      unfold total_value, maxwells, amount in *. cbn. rewrite Forall_cons. split; [intros [? ?]|intros [[? ?] ?]]; split_and?; try done; lia.
    + split; [by intros [? ?]|]. rewrite Forall_cons. intros [[Hv Hall] Hsum]. exfalso.
      assert (Amount_AddInt t (Value o) = Ret (amount (maxwells t + Value o))) as Hr; [|congruence].
      pose proof (total_nonneg outs Hall). specialize (Hw o ltac:(set_solver)). unfold total_value in *. cbn in Hsum.
      apply AddInt_Ret. unfold max_maxwells in *. split_and!; (lia || done).
Qed.

(** * Spending *)

(** The output an outpoint refers to, and whether it is there to be spent at a height. *)
Definition output_of (store : TxStore) (op : OutPoint) : option TxOut :=
  '(_, tx) ← available store (op_Hash op); TxOuts tx !! Z.to_nat (op_Index op).

Definition value_of (store : TxStore) (op : OutPoint) : Z := default 0 (Value <$> output_of store op).

Definition spendable (height : Z) (store : TxStore) (op : OutPoint) : Prop :=
  exists td tx, available store (op_Hash op) = Some (td, tx) /\ 0 <= op_Index op /\
    td_Spent td !! Z.to_nat (op_Index op) = Some false /\ is_Some (TxOuts tx !! Z.to_nat (op_Index op)) /\
    (IsCoinBase tx = true -> td_BlockHeight td + CoinbaseMaturity <= height).

Lemma at_Ret {E A} (l : list A) i (a : A) : index (E := E) l i = Ret a <-> 0 <= i /\ l !! Z.to_nat i = Some a.
Proof.
  unfold index. destruct (Z.ltb_spec i 0); [split; [done|lia]|]. destruct (l !! Z.to_nat i); split; [|naive_solver|done|naive_solver].
  intros [= ->]. done.
Qed.

Lemma check_pass {E} b (e : E) : check b e = Ret tt <-> b = false.
Proof. destruct b; done. Qed.

Lemma check_bind {E A} b (e : E) (f : unit -> outcome E A) a : (x ← check b e; f x) = Ret a <-> b = false /\ f tt = Ret a.
Proof. destruct b; cbn; naive_solver. Qed.

Lemma checkDupSpend_Ret op spent :
  checkDupSpend op spent = Ret tt <-> op_Index op < uint32 (len spent) /\ 0 <= op_Index op /\ spent !! Z.to_nat (op_Index op) = Some false.
Proof.
  unfold checkDupSpend. rewrite check_bind, bind_Ret. setoid_rewrite at_Ret. setoid_rewrite check_pass.
  rewrite Z.geb_leb, Z.leb_gt. naive_solver.
Qed.

Lemma maturity_Ret td height coinbase tx :
  td_Tx td = Some tx -> 0 <= height -> checkTxInMaturity td height coinbase = Ret tt -> IsCoinBase tx = true ->
  td_BlockHeight td + CoinbaseMaturity <= height.
Proof.
  unfold checkTxInMaturity. intros -> Hh Hr Hc. rewrite Hc in Hr. apply check_pass, Z.ltb_ge in Hr.
  destruct (height >? td_BlockHeight td); unfold CoinbaseMaturity in *; lia.
Qed.

Lemma available_Some store h td tx : available store h = Some (td, tx) -> store !! h = Some td /\ td_Tx td = Some tx.
Proof. unfold available. destruct (store !! h) as [d|]; [|done]. destruct (td_Err d), (td_Tx d) eqn:E; naive_solver. Qed.

Lemma check_input_Ret height store coinbase op td tx a :
  0 <= height -> check_input height store coinbase op = Ret (td, tx, a) ->
  spendable height store op /\ available store (op_Hash op) = Some (td, tx) /\ a = amount (value_of store op).
Proof.
  intros Hh. unfold check_input. destruct (available store (op_Hash op)) as [[d t]|] eqn:Hav; [|done].
  intros ([] & Hmat & ([] & Hdup & (out & Hout & (v & Hv & [= -> -> ->])%bind_Ret)%bind_Ret)%bind_Ret)%bind_Ret.
  apply checkDupSpend_Ret in Hdup as (_ & Hi & Hspent). apply at_Ret in Hout as [_ Hout]. apply wrap_Ret, FromInt_Ret in Hv as [_ ->].
  destruct (available_Some _ _ _ _ Hav) as [_ Htx]. split_and!; [|done|].
  - exists td, tx. split_and!; [done..|by eexists|]. by eapply maturity_Ret.
  - unfold value_of, output_of. rewrite Hav. cbn. by rewrite Hout.
Qed.

(** Marking an output leaves the others as they are. *)
Lemma available_mark op td tx store h :
  available store (op_Hash op) = Some (td, tx) ->
  available (mark_spent op td store) h =
  if decide (h = op_Hash op) then Some (set_Spent td (<[Z.to_nat (op_Index op) := true]> (td_Spent td)), tx) else available store h.
Proof.
  intros Hav. destruct (available_Some _ _ _ _ Hav) as [Hs Htx]. unfold available, mark_spent in *. rewrite Hs in Hav.
  case_decide as Hd.
  - subst h. rewrite lookup_insert_eq. cbn. destruct (td_Err td); [done|]. by rewrite Htx.
  - by rewrite lookup_insert_ne.
Qed.

Lemma output_mark op td tx store op' :
  available store (op_Hash op) = Some (td, tx) -> output_of (mark_spent op td store) op' = output_of store op'.
Proof.
  intros Hav. unfold output_of. rewrite (available_mark _ _ _ _ _ Hav). case_decide as Hd; [|done]. by rewrite Hd, Hav.
Qed.

Lemma value_mark op td tx store op' :
  available store (op_Hash op) = Some (td, tx) -> value_of (mark_spent op td store) op' = value_of store op'.
Proof. intros Hav. unfold value_of. by rewrite (output_mark _ _ _ _ _ Hav). Qed.

Lemma spendable_mark height op td tx store op' :
  available store (op_Hash op) = Some (td, tx) -> 0 <= op_Index op -> spendable height (mark_spent op td store) op' ->
  spendable height store op' /\ op' <> op.
Proof.
  intros Hav Hi (td' & tx' & Hav' & Hi' & Hsp & Hout & Hmat). rewrite (available_mark _ _ _ _ _ Hav) in Hav'.
  destruct op as [h i], op' as [h' i']. cbn in *. case_decide as Hd.
  - subst h'. injection Hav' as <- <-. cbn in Hsp, Hmat. destruct (decide (Z.to_nat i' = Z.to_nat i)) as [E|E].
    + rewrite E in Hsp. apply list_lookup_insert_Some in Hsp as [(_ & [=] & _)|[? _]]; done.
    + rewrite list_lookup_insert_ne in Hsp by done. split; [|naive_solver]. exists td, tx. done.
  - split; [|naive_solver]. by exists td', tx'.
Qed.

(** A store without its marks: the transactions, their heights and the errors.  Checking inputs
    changes the marks alone. *)
Definition unmarked (store : TxStore) : TxStore := (fun td => set_Spent td []) <$> store.

Lemma unmarked_mark op td store : store !! op_Hash op = Some td -> unmarked (mark_spent op td store) = unmarked store.
Proof.
  intros Hs. unfold unmarked, mark_spent. rewrite fmap_insert. apply insert_id. by rewrite lookup_fmap, Hs.
Qed.

Lemma unmarked_lookup store store' h :
  unmarked store' = unmarked store -> (fun td => set_Spent td []) <$> store' !! h = (fun td => set_Spent td []) <$> store !! h.
Proof. intros E. rewrite <- !lookup_fmap. change (unmarked store' !! h = unmarked store !! h). by rewrite E. Qed.

(** [ops] are spent one by one between two states of the store. *)
Record spends (height : Z) (ops : list OutPoint) (store store' : TxStore) : Prop := {
  spends_once : NoDup ops;
  spends_available : Forall (spendable height store) ops;
  spends_values op : value_of store' op = value_of store op;
  spends_left op : spendable height store' op -> spendable height store op /\ op ∉ ops;
  spends_marks : unmarked store' = unmarked store;
}.

Lemma spends_nil height store : spends height [] store store.
Proof. split; [constructor|constructor|done| |done]. intros op H. split; [done|set_solver]. Qed.

Lemma spends_app height ops1 ops2 s1 s2 s3 :
  spends height ops1 s1 s2 -> spends height ops2 s2 s3 -> spends height (ops1 ++ ops2) s1 s3.
Proof.
  intros [Hn1 Ha1 Hv1 Hl1 Hu1] [Hn2 Ha2 Hv2 Hl2 Hu2]. rewrite Forall_forall in Ha2. split.
  - apply NoDup_app. split_and!; [done| |done]. intros op Hop1 Hop2. by apply (proj2 (Hl1 op (Ha2 op Hop2))).
  - apply Forall_app. split; [done|]. apply Forall_forall. intros op Hop. apply Hl1, Ha2, Hop.
  - intros op. by rewrite Hv2, Hv1.
  - intros op H. destruct (Hl2 op H) as [H2 Hn]. destruct (Hl1 op H2) as [H1 Hn']. split; [done|set_solver].
  - by rewrite Hu2.
Qed.

Lemma spends_mark height op td tx store :
  spendable height store op -> available store (op_Hash op) = Some (td, tx) -> spends height [op] store (mark_spent op td store).
Proof.
  intros Hs Hav. destruct Hs as (td' & tx' & Hav' & Hi & Hs). split.
  - apply NoDup_singleton.
  - apply Forall_singleton. by exists td', tx'.
  - intros op'. by eapply value_mark.
  - intros op' H. rewrite list_elem_of_singleton. by eapply spendable_mark.
  - by apply unmarked_mark, (available_Some _ _ _ _ Hav).
Qed.

Definition total_of (store : TxStore) (ops : list OutPoint) : Z := foldr Z.add 0 (value_of store <$> ops).

Lemma foldr_add_app (l1 l2 : list Z) : foldr Z.add 0 (l1 ++ l2) = foldr Z.add 0 l1 + foldr Z.add 0 l2.
Proof. induction l1; cbn; lia. Qed.

Lemma total_of_app store ops1 ops2 : total_of store (ops1 ++ ops2) = total_of store ops1 + total_of store ops2.
Proof. unfold total_of. by rewrite fmap_app, foldr_add_app. Qed.

Lemma total_of_spends height ops store store' ops' : spends height ops store store' -> total_of store' ops' = total_of store ops'.
Proof. intros Hs. unfold total_of. f_equal. apply list_fmap_ext. intros i op _. apply (spends_values _ _ _ _ Hs). Qed.

Lemma check_inputs_Ret height total ins store r store' :
  0 <= height -> check_inputs height total ins store = (Ret r, store') ->
  spends height (PreviousOutPoint <$> ins) store store' /\
  maxwells r = maxwells total + total_of store (PreviousOutPoint <$> ins).
Proof.
  intros Hh. revert total store. induction ins as [|i ins IH]; intros total store; cbn [check_inputs].
  - intros [= <- <-]. split; [apply spends_nil|cbn; lia].
  - intros (s & t1 & [= <- <-] & ([[td tx] a] & t2 & [= Hin <-] & (total' & t3 & [= Hadd <-] & ([] & t4 & [= <-] & Hr)%prog_bind_Ret)%prog_bind_Ret)%prog_bind_Ret)%prog_bind_Ret.
    apply check_input_Ret in Hin as (Hs & Hav & ->); [|done]. apply wrap_Ret, Add_Ret in Hadd as [_ ->].
    destruct (IH _ _ Hr) as [Hsp Hsum]. pose proof (spends_mark _ _ _ _ _ Hs Hav) as Hmark.
    split; [by apply (spends_app _ [_] _ _ _ _ Hmark)|].
    rewrite Hsum, (total_of_spends _ _ _ _ _ Hmark). unfold total_of, maxwells, amount. cbn. lia.
Qed.

Lemma amount_maxwells a : amount (maxwells a) = a.
Proof. by destruct a as [[v]]. Qed.

(** The outpoints a transaction spends; the inputs of a coinbase spend nothing. *)
Definition spent_by (tx : MsgTx) : list OutPoint := if IsCoinBase tx then [] else PreviousOutPoint <$> TxIns tx.
Definition paid_by (tx : MsgTx) : Z := if IsCoinBase tx then 0 else total_value (TxOuts tx).

Lemma CheckTransactionInputs_Ret height tx store fee store' :
  0 <= height -> CheckTransactionInputs tx height store = (Ret fee, store') ->
  spends height (spent_by tx) store store' /\ 0 <= maxwells fee /\ total_of store (spent_by tx) = maxwells fee + paid_by tx.
Proof.
  intros Hh. unfold CheckTransactionInputs, spent_by, paid_by. destruct (IsCoinBase tx).
  - intros (? & t & Hf & [= <- <-])%prog_bind_Ret. unfold fail_if in Hf. case_match; [done|]. injection Hf as _ <-.
    split_and!; [apply spends_nil|done|done].
  - intros (tin & t & Hin & (tout & t' & [= Hout <-] & [= Hsub <-])%prog_bind_Ret)%prog_bind_Ret.
    apply check_inputs_Ret in Hin as [Hs Hsum]; [|done]. apply sum_outputs_Ret in Hout as [_ Hout].
    apply wrap_Ret, Amount_Sub_Ret in Hsub as [Hr ->]. split_and!; [done|cbn; lia|].
    change (maxwells (amount ?z)) with z. rewrite Hout in *. change (maxwells ZeroAmount) with 0 in *. lia.
Qed.

Section fees_spec.
Context {HF : HashFunctions} {CL : ChiaLib}.

Lemma sum_fees_Ret height first total txs store fees store' :
  0 <= height -> sum_fees height first total txs store = (Ret fees, store') ->
  spends height (concat (spent_by <$> txs)) store store' /\ maxwells total <= maxwells fees /\
  maxwells total + total_of store (concat (spent_by <$> txs)) = maxwells fees + foldr Z.add 0 (paid_by <$> txs).
Proof.
  intros Hh. revert first total store. induction txs as [|tx txs IH]; intros first total store; cbn [sum_fees].
  - intros [= <- <-]. split_and!; [apply spends_nil|lia|done].
  - intros (fee & t & Hfee & (? & t' & [= _ <-] & (tot & t'' & [= Hadd <-] & Hr)%prog_bind_Ret)%prog_bind_Ret)%prog_bind_Ret.
    apply CheckTransactionInputs_Ret in Hfee as (Hs & Hpos & Hbal); [|done].
    destruct (Amount_Add total fee) as [tot'|e|] eqn:Ha; [|done|done]. injection Hadd as ->. apply Add_Ret in Ha as [_ ->].
    destruct (IH _ _ _ Hr) as (Hs' & Hle & Hsum). rewrite (total_of_spends _ _ _ _ _ Hs) in Hsum.
    change (concat (spent_by <$> tx :: txs)) with (spent_by tx ++ concat (spent_by <$> txs)).
    change (foldr Z.add 0 (paid_by <$> tx :: txs)) with (paid_by tx + foldr Z.add 0 (paid_by <$> txs)). rewrite total_of_app. change (maxwells (amount ?z)) with z in *.
    split_and!; [by eapply spends_app|lia|lia].
Qed.

(** the fees [checkConnectBlock] sums are what the block leaves over: every output a
    transaction other than the coinbase spends is there, unspent and mature before the block,
    no output is spent twice in the block (by one transaction or by several), the fees are not
    negative, and the values of the outputs spent are exactly those of the outputs created plus
    the fees.  Afterwards none of these outputs can be spent. *)
Theorem block_conserves_value height txs store fees store' :
  0 <= height -> sum_fees height true ZeroAmount txs store = (Ret fees, store') ->
  NoDup (concat (spent_by <$> txs)) /\
  Forall (spendable height store) (concat (spent_by <$> txs)) /\
  0 <= maxwells fees /\
  total_of store (concat (spent_by <$> txs)) = maxwells fees + foldr Z.add 0 (paid_by <$> txs) /\
  Forall (fun op => ~ spendable height store' op) (concat (spent_by <$> txs)).
Proof.
  intros Hh Hr. destruct (sum_fees_Ret _ _ _ _ _ _ _ Hh Hr) as ([Hn Ha _ Hl _] & Hpos & Hsum).
  split_and!; [done|done|done|exact Hsum|]. apply Forall_forall. intros op Hop H. by destruct (Hl op H).
Qed.
End fees_spec.

(** * Sane transactions *)

Lemma bind_no_panic {E A B} (o : outcome E A) (f : A -> outcome E B) : o <> Panic -> (forall a, f a <> Panic) -> o ≫= f <> Panic.
Proof. destruct o; cbn; auto. Qed.

Lemma check_no_panic {E} b (e : E) : check b e <> Panic.
Proof. by destruct b. Qed.

Lemma dup_inputs_Ret seen ins :
  check_dup_inputs seen ins = Ret tt <-> NoDup (PreviousOutPoint <$> ins) /\ forall op, op ∈ PreviousOutPoint <$> ins -> op ∉ seen.
Proof.
  revert seen. induction ins as [|i ins IH]; intros seen; cbn [check_dup_inputs].
  - split; [intros _; split; [constructor|set_solver]|done].
  - rewrite fmap_cons, NoDup_cons. case_bool_decide as Hd; [set_solver|]. rewrite IH. split; [|set_solver].
    intros [Hn Hs]. split_and!; [|done|set_solver]. intros Hin. apply (Hs _ Hin). set_solver.
Qed.

Lemma dup_inputs_no_panic seen ins : check_dup_inputs seen ins <> Panic.
Proof. revert seen. induction ins; intros seen; cbn; [done|]. by case_match. Qed.

Lemma add_outputs_no_panic t outs : add_outputs t outs <> Panic.
Proof.
  revert t. induction outs as [|o outs IH]; intros t; cbn [add_outputs]; [done|].
  destruct (Amount_AddInt t (Value o)) eqn:Ha; [apply IH|done|by apply AddInt_no_panic in Ha].
Qed.

Definition has_null (tx : MsgTx) : bool :=
  existsb (fun i => isNullOutpoint (PreviousOutPoint i)) (if IsCoinBase tx then drop 1 (TxIns tx) else TxIns tx).

(** C27: [CheckTransactionSanity] accepts exactly the transactions that have an input and an
    output, fit in a block, have no negative output and at most the whole supply in their
    outputs, spend no outpoint twice and spend the null outpoint at most in the first input of
    a coinbase.  It never panics. *)
Theorem transaction_sane (tx : MsgTx) :
  (forall o, o ∈ TxOuts tx -> Value o < 2 ^ 63) ->
  CheckTransactionSanity tx <> Panic /\
  (CheckTransactionSanity tx = Ret tt <->
   TxIns tx <> [] /\ TxOuts tx <> [] /\ PlainSize tx <= MaxBlockPayload /\
   Forall (fun o => 0 <= Value o) (TxOuts tx) /\ total_value (TxOuts tx) <= max_maxwells /\
   NoDup (PreviousOutPoint <$> TxIns tx) /\ has_null tx = false).
Proof.
  intros Hw. pose proof (add_outputs_Ret ZeroAmount (TxOuts tx) ltac:(cbn; unfold max_maxwells; lia) Hw) as Hadd.
  unfold CheckTransactionSanity. split.
  - auto 20 using bind_no_panic, check_no_panic, add_outputs_no_panic, dup_inputs_no_panic.
  - rewrite !check_bind, !Z.eqb_neq, Z.gtb_ltb, Z.ltb_ge, bind_Ret. setoid_rewrite bind_Ret. setoid_rewrite check_pass. unfold has_null.
    assert (forall A (l : list A), len l <> 0 <-> l <> []) as Hlen.
    { intros A [|x l]; unfold len; cbn; [done|split; [done|lia]]. }
    rewrite !Hlen. unfold is_Ret in Hadd. change (maxwells ZeroAmount) with 0 in Hadd.
    assert ((forall u, check_dup_inputs [] (TxIns tx) = Ret u <-> NoDup (PreviousOutPoint <$> TxIns tx))) as Hdup.
    { intros []. rewrite dup_inputs_Ret. set_solver. }
    setoid_rewrite Hdup. rewrite Z.add_0_l in Hadd. split.
    + intros (? & ? & ? & a & Ha & [] & ? & ?). destruct (proj1 Hadd (ex_intro _ a Ha)) as [??]. split_and!; done.
    + intros (? & ? & ? & Hpos & Hle & ? & ?). destruct (proj2 Hadd (conj Hpos Hle)) as [a Ha]. split_and!; [done..|]. exists a. split; [done|].
      by exists tt.
Qed.

(** * Signature operations *)


Lemma last_index {E} {A} (l : list A) : index (E := E) l (len l - 1) = match last l with Some x => Ret x | None => Panic end.
Proof.
  destruct l as [|x l] using rev_ind; [done|]. rewrite last_snoc. apply at_Ret. unfold len. rewrite length_app. cbn [length].
  split; [lia|]. replace (Z.to_nat _) with (length l) by lia. by apply list_lookup_middle.
Qed.

Lemma input_sigops_panic total ins : input_sigops total ins = Panic <-> Exists (fun i => Witness i = []) ins.
Proof.
  revert total. induction ins as [|i ins IH]; intros total; cbn [input_sigops].
  - rewrite Exists_nil. done.
  - rewrite last_index, Exists_cons. destruct (last (Witness i)) as [s|] eqn:Hl; cbn [mbind outcome_bind].
    + rewrite IH. split; [by right|]. intros [H|H]; [by rewrite H in Hl|done].
    + apply last_None in Hl. naive_solver.
Qed.

Lemma input_sigops_Ret total ins :
  Forall (fun i => Witness i <> []) ins -> exists n, input_sigops total ins = Ret n.
Proof.
  revert total. induction ins as [|i ins IH]; intros total; cbn [input_sigops]; [eauto|]. rewrite Forall_cons, last_index. intros [Hw Hall].
  destruct (last (Witness i)) as [s|] eqn:Hl; [|by apply last_None in Hl]. cbn [mbind outcome_bind]. by apply IH.
Qed.

(** [CountSigOps], which [checkBlockSanity] calls on every transaction of a block before
    any check of the witnesses, panics exactly on a transaction that is not a coinbase and has
    an input without a witness; otherwise it returns a count. *)
Theorem sigops_panics (tx : MsgTx) :
  (CountSigOps tx = Panic <-> IsCoinBase tx = false /\ Exists (fun i => Witness i = []) (TxIns tx)) /\
  (CountSigOps tx = Panic \/ exists n, CountSigOps tx = Ret n).
Proof.
  unfold CountSigOps. destruct (IsCoinBase tx); [split; [|eauto]; split; [done|by intros [? _]]|].
  destruct (decide (Exists (fun i => Witness i = []) (TxIns tx))) as [He|Hn].
  - pose proof (proj2 (input_sigops_panic 0 (TxIns tx)) He) as Hp. rewrite Hp. cbn. split; [split; [by split|done]|by left].
  - assert (Forall (fun i => Witness i <> []) (TxIns tx)) as Hall by by apply not_Exists_Forall in Hn; [|intros; apply _].
    destruct (input_sigops_Ret 0 _ Hall) as [n Hr]. rewrite Hr. cbn. split; [split; [done|by intros [_ ?]]|by right; eexists].
Qed.

(** * Sane blocks *)

Section blocks.
Context {HF : HashFunctions} {CL : ChiaLib} {EC : Ecdsa} {PB : Protobuf}.

Lemma dup_txs_Ret seen txs :
  check_dup_txs seen txs = Ret tt -> NoDup (tx_sha <$> txs) /\ forall h, h ∈ tx_sha <$> txs -> h ∉ seen.
Proof.
  revert seen. induction txs as [|tx txs IH]; intros seen; cbn [check_dup_txs].
  - intros _. split; [constructor|set_solver].
  - case_bool_decide as Hd; [done|]. intros [Hn Hs]%IH. rewrite fmap_cons, NoDup_cons. split_and!; [|done|set_solver].
    intros Hin. apply (Hs _ Hin). set_solver.
Qed.

Lemma check_all_Ret {A} (f : A -> val unit) l : check_all f l = Ret tt <-> Forall (fun x => f x = Ret tt) l.
Proof.
  induction l as [|x l IH]; cbn [check_all]; [split; [constructor|done]|]. rewrite Forall_cons, <- IH, bind_Ret. split.
  - by intros ([] & ? & ?).
  - intros [??]. by exists tt.
Qed.

Lemma check_sigops_Ret total txs :
  check_sigops total txs = Ret tt -> exists ns, Forall2 (fun tx n => CountSigOps tx = Ret n) txs ns.
Proof.
  revert total. induction txs as [|tx txs IH]; intros total; cbn [check_sigops]; [by exists []|].
  intros (n & Hn & Hr)%bind_Ret. apply check_bind in Hr as [_ Hr].
  destruct (IH _ Hr) as [ns Hns]. exists (n :: ns). by constructor.
Qed.

Lemma check_root_Ret f txs w root e :
  txs <> [] -> check_root (wrap f (BuildMerkleTreeStoreTransactions txs w)) root e = Ret tt ->
  exists ids, Forall2 (fun tx h => tx_id w tx = Ret h) txs ids /\ merkle_root (length ids) ids = Some root.
Proof.
  intros Hne. destruct (ids_exist w txs) as [ids Hids]. destruct (build_levels w txs ids Hne Hids) as (k & _ & Hf & Hb).
  destruct (levels_root k ids Hf) as (r & Hr & Hl). unfold check_root. rewrite Hb. cbn [wrap mbind outcome_bind].
  rewrite last_index, Hl. cbn [mbind outcome_bind]. rewrite check_pass. intros Heq. exists ids. split; [done|].
  apply negb_false_iff in Heq. cbn in Heq. apply bool_decide_eq_true in Heq. subst root. by eapply merkle_root_fuel, fits_fuel.
Qed.

Lemma match_banned_Ret area keys :
  match_banned area keys = Ret tt -> exists pks, fpk_PubKey <$> area = Some <$> pks /\
    PubKey_SerializeCompressed <$> pks = take (length area) (PubKey_SerializeCompressed <$> keys).
Proof.
  revert keys. induction area as [|fpk area IH]; intros keys; cbn [match_banned]; [by exists []|].
  intros (pk & Hpk & (key & Hkey & Hr)%bind_Ret)%bind_Ret. apply check_bind in Hr as [Heq Hr].
  apply negb_false_iff, bytes_Equal_true in Heq. apply at_Ret in Hkey as [_ Hkey].
  destruct keys as [|k keys]; [done|]. cbn in Hkey. injection Hkey as ->. destruct (IH _ Hr) as (pks & Hf & Hs). cbn [drop] in Hs. rewrite drop_0 in Hs.
  exists (pk :: pks). rewrite !fmap_cons. unfold deref in Hpk. destruct (fpk_PubKey fpk); [|done]. injection Hpk as ->.
  cbn [length take]. by rewrite Hf, Hs, Heq.
Qed.

Lemma punishments_Ret now area header chainID :
  check_punishments now area header chainID = Ret tt ->
  Forall (fun fpk => FaultPubKey_IsValid fpk = Ret tt /\ bh_Height (fpk_Testimony fpk).1 <= bh_Height header) area.
Proof.
  induction area as [|fpk area IH]; cbn [check_punishments]; [constructor|].
  intros [Hh Hr]%check_bind. rewrite Z.gtb_ltb, Z.ltb_ge in Hh. unfold checkFaultPkSanity in Hr.
  destruct (FaultPubKey_IsValid fpk) as [[]|e|] eqn:Hv; [|done|done].
  do 2 (destruct (checkBlockHeaderSanity _ _ _ _) as [?|?|]; try done). constructor; auto.
Qed.

(** What an accepted block satisfies. *)
Record sane_block (now : Z) (block : MsgBlock) (chainID : Hash) (pocLimit : Z) : Prop := {
  sb_chain : bh_ChainID (Header block) = chainID;
  sb_target : 0 < bh_Target (Header block) /\ pocLimit <= bh_Target (Header block);
  sb_time : - 2 ^ 63 <= bh_Timestamp (Header block) < 2 ^ 63 - unixToInternal -> bh_Timestamp (Header block) * 10 ^ 9 <= now + 3 * 10 ^ 9;
  sb_signed : VerifySig (Header block) = Ret true;
  sb_punished : exists pks, fpk_PubKey <$> PunishmentArea (Proposals block) = Some <$> pks /\
    PubKey_SerializeCompressed <$> pks = PubKey_SerializeCompressed <$> bh_BanList (Header block);
  sb_faults : Forall (fun fpk => FaultPubKey_IsValid fpk = Ret tt) (PunishmentArea (Proposals block));
  sb_coinbase : exists coinbase txs, Transactions block = coinbase :: txs /\ IsCoinBase coinbase = true /\
    Forall (fun tx => IsCoinBase tx = false) txs /\ extractCoinbaseHeight coinbase = Ret (bh_Height (Header block));
  sb_txs : Forall (fun tx => CheckTransactionSanity tx = Ret tt) (Transactions block);
  sb_distinct : NoDup (tx_sha <$> Transactions block);
  sb_root : exists ids, Forall2 (fun tx h => tx_id false tx = Ret h) (Transactions block) ids /\
    merkle_root (length ids) ids = Some (bh_TransactionRoot (Header block));
  sb_witness_root : exists ids, Forall2 (fun tx h => tx_id true tx = Ret h) (Transactions block) ids /\
    merkle_root (length ids) ids = Some (bh_WitnessRoot (Header block));
}.

Lemma header_sane now header chainID pocLimit :
  checkBlockHeaderSanity now header chainID pocLimit = Ret tt ->
  bh_ChainID header = chainID /\ 0 < bh_Target header /\ pocLimit <= bh_Target header /\
  (- 2 ^ 63 <= bh_Timestamp header < 2 ^ 63 - unixToInternal -> bh_Timestamp header * 10 ^ 9 <= now + 3 * 10 ^ 9) /\ VerifySig header = Ret true.
Proof.
  unfold checkBlockHeaderSanity, checkChainID, checkVersion, checkHeaderTimestamp, checkProofOfCapacity, checkHeaderSignature.
  rewrite check_bind, negb_false_iff, bytes_Equal_true. intros [Hc Hr]. apply check_bind in Hr as [_ Hr].
  apply check_bind in Hr as [Ht Hr]. apply bind_Ret in Hr as (_ & _ & Hr). apply bind_Ret in Hr as ([] & Hp & Hs).
  apply check_bind in Hp as [_ Hp]. apply check_bind in Hp as [Hsgn Hp]. apply check_bind in Hp as [Hlim _].
  apply bind_Ret in Hs as (b & Hb & Hs). apply wrap_Ret in Hb. apply check_pass, negb_false_iff in Hs. subst b.
  split_and!; [done|lia|lia| |done]. intros Hrange. unfold instant in Ht. rewrite wrapS_small in Ht by (unfold unixToInternal in *; lia). unfold unixToInternal in *. lia.
Qed.

End blocks.

(** * Relative lock times *)

Definition coin_height (nextHeight : Z) (store : TxStore) (i : TxIn) : Z :=
  match store !! op_Hash (PreviousOutPoint i) with
  | Some td => if td_BlockHeight td =? mempoolHeight then nextHeight else td_BlockHeight td
  | None => 0
  end.

(** An input may be spent at a height and a median time: its lock is disabled, or the relative
    lock, in units of 32 seconds or in blocks, has passed since its output was confirmed.  For an
    output of height 0 the height before is [2^64 - 1], which no block has, and a lock of no
    block at all is never met. *)
Definition lock_met (nextHeight : Z) (median : Z -> Z) (store : TxStore) (height mtp : Z) (i : TxIn) : Prop :=
  let h := coin_height nextHeight store i in
  let relative := Sequence i mod 2 ^ 32 in
  if Z.testbit (Sequence i) 63 then True
  else if Z.testbit (Sequence i) 38 then median (if h =? 0 then 2 ^ 64 - 1 else h - 1) + 32 * relative <= mtp
  else h + relative <> 0 /\ h + relative <= height.

Lemma uint64_small z : 0 <= z < 2 ^ 64 -> uint64 z = z.
Proof. apply wrapU_small. Qed.

Lemma land_bit n k : 0 <= k -> (Z.land n (Z.shiftl 1 k) =? Z.shiftl 1 k) = Z.testbit n k.
Proof.
  intros Hk. rewrite Z.shiftl_1_l. apply eq_true_iff_eq. rewrite Z.eqb_eq. split.
  - intros E. apply (f_equal (fun z => Z.testbit z k)) in E. rewrite Z.land_spec, Z.pow2_bits_true, andb_true_r in E by done. done.
  - intros Hb. apply Z.bits_inj'. intros j Hj. rewrite Z.land_spec. destruct (Z.eqb_spec j k) as [->|Hne].
    + by rewrite Hb.
    + rewrite (Z.pow2_bits_false k j) by lia. by rewrite andb_false_r.
Qed.

Lemma mask_mod n : Z.land n SequenceLockTimeMask = n mod 2 ^ 32.
Proof. exact (Z.land_ones n 32 ltac:(lia)). Qed.

(** The locks do not depend on the marks. *)
Lemma calcSequenceLock_unmarked height median tx store store' :
  unmarked store' = unmarked store -> calcSequenceLock height median tx store' = calcSequenceLock height median tx store.
Proof.
  intros E. unfold calcSequenceLock. destruct (IsCoinBase tx); [done|]. generalize (mkSequenceLock 0 0).
  induction (TxIns tx) as [|i ins IH]; intros lock; cbn [sequence_locks]; [done|].
  pose proof (unmarked_lookup _ _ (op_Hash (PreviousOutPoint i)) E) as El.
  destruct (store' !! _) as [td'|], (store !! _) as [td|]; cbn in El; [|done|done|done].
  assert (td_BlockHeight td' = td_BlockHeight td) as -> by by injection El. apply IH.
Qed.

(** The referenced output is known, at a height below [2^62]. *)
Definition in_chain (nextHeight : Z) (store : TxStore) (i : TxIn) : Prop :=
  0 <= coin_height nextHeight store i < 2 ^ 62 /\ is_Some (store !! op_Hash (PreviousOutPoint i)).

(** One input raises the lock to what it asks for. *)
Lemma one_lock nextHeight median store lock i rest height mtp :
  (forall h, 0 <= median h < 2 ^ 62) -> 0 < height < 2 ^ 64 -> in_chain nextHeight store i ->
  exists lock', sequence_locks nextHeight median store lock (i :: rest) = sequence_locks nextHeight median store lock' rest /\
    (SequenceLockActive lock' height mtp = true <->
     SequenceLockActive lock height mtp = true /\ lock_met nextHeight median store height mtp i).
Proof.
  intros Hm Hheight (Hh & [td Htd]). cbn [sequence_locks]. unfold lock_met, coin_height in *. rewrite Htd in *.
  eexists; split; [reflexivity|]. set (h := if td_BlockHeight td =? mempoolHeight then _ else _) in *.
  unfold SequenceLockTimeDisabled, SequenceLockTimeIsSeconds. rewrite !land_bit, mask_mod by lia.
  pose proof (Z.mod_pos_bound (Sequence i) (2 ^ 32) ltac:(lia)) as Hrel. set (r := Sequence i mod 2 ^ 32) in *.
  destruct (Z.testbit (Sequence i) 63); [naive_solver|]. destruct (Z.testbit (Sequence i) 38).
  - unfold SequenceLockTimeGranularity. rewrite Z.shiftl_mul_pow2 by lia.
    assert (uint64 (h - 1) = if h =? 0 then 2 ^ 64 - 1 else h - 1) as -> by (destruct (Z.eqb_spec h 0) as [->|]; [reflexivity|apply uint64_small; lia]).
    set (prev := if h =? 0 then _ else _). pose proof (Hm prev) as Hmp. rewrite (uint64_small (r * 2 ^ 5)) by lia.
    assert (int64 (uint64 (r * 2 ^ 5 - 1)) = r * 2 ^ 5 - 1) as ->.
    { destruct (Z.eq_dec r 0) as [->|]; [reflexivity|]. rewrite uint64_small, int64_small by lia. done. }
    rewrite int64_small by lia. unfold SequenceLockActive. cbn [sl_Seconds sl_BlockHeight].
    destruct (Z.gtb_spec (median prev + (r * 2 ^ 5 - 1)) (sl_Seconds lock)); repeat case_match; bool_to_prop; split; try done; intros; lia.
  - rewrite (uint64_small (h + r)) by lia. unfold SequenceLockActive. cbn [sl_Seconds sl_BlockHeight].
    destruct (Z.eq_dec (h + r) 0) as [Hz|Hz]; [rewrite Hz; change (uint64 (0 - 1)) with (2 ^ 64 - 1)|rewrite uint64_small by lia];
      [destruct (Z.gtb_spec (2 ^ 64 - 1) (sl_BlockHeight lock))|destruct (Z.gtb_spec (h + r - 1) (sl_BlockHeight lock))];
      repeat case_match; bool_to_prop; split; try done; intros; lia.
Qed.

Lemma all_locks nextHeight median store lock ins height mtp :
  (forall h, 0 <= median h < 2 ^ 62) -> 0 < height < 2 ^ 64 -> Forall (in_chain nextHeight store) ins ->
  exists lock', sequence_locks nextHeight median store lock ins = Ret lock' /\
    (SequenceLockActive lock' height mtp = true <->
     SequenceLockActive lock height mtp = true /\ Forall (lock_met nextHeight median store height mtp) ins).
Proof.
  intros Hm Hheight Hall. revert lock. induction Hall as [|i ins Hi _ IH]; intros lock.
  - exists lock. split; [done|]. rewrite Forall_nil. tauto.
  - destruct (one_lock nextHeight median store lock i ins height mtp Hm Hheight Hi) as (l1 & -> & H1).
    destruct (IH l1) as (l2 & -> & H2). exists l2. split; [done|]. rewrite H2, H1, Forall_cons. tauto.
Qed.

(** C26: the sequence lock of a transaction that is no coinbase says exactly when its relative
    lock times are met.  When the referenced outputs are known, and heights and median times are
    those of a chain (at least 0 and below 2^62), [calcSequenceLock] succeeds, and the lock it
    returns is active at a positive height and a positive median time exactly when every input is
    disabled, or 32 seconds per unit have passed since the median time of the block before the
    one of its output, or the number of blocks has been mined on top of that output.  For outputs
    of height 0 this is what the code does and not what it means to: the height before is
    2^64 - 1, and a lock of 0 blocks is never met. *)
Theorem sequence_lock_spec nodeHeight median tx store height mtp :
  IsCoinBase tx = false -> 0 <= nodeHeight < 2 ^ 62 -> 0 < height < 2 ^ 64 -> 0 < mtp ->
  (forall h, 0 <= median h < 2 ^ 62) -> Forall (in_chain (nodeHeight + 1) store) (TxIns tx) ->
  exists lock, calcSequenceLock nodeHeight median tx store = Ret lock /\
    (SequenceLockActive lock height mtp = true <-> Forall (lock_met (nodeHeight + 1) median store height mtp) (TxIns tx)).
Proof.
  intros Hcb Hn Hh Hm Hmed Hall. unfold calcSequenceLock. rewrite Hcb, uint64_small by lia.
  destruct (all_locks (nodeHeight + 1) median store (mkSequenceLock 0 0) (TxIns tx) height mtp Hmed Hh Hall) as (lock & Hr & Ha).
  exists lock. split; [done|]. rewrite Ha. unfold SequenceLockActive at 1. cbn [sl_Seconds sl_BlockHeight].
  split; [by intros [_ ?]|]. intros H. split; [|done]. case_match; bool_to_prop; [lia|done].
Qed.

(** * Payloads *)

Section payloads.
Context {HF : HashFunctions} {CL : ChiaLib}.

Definition payload_valid (p : TransactionPayload) : Prop :=
  Method p = BindPoolCoinbase /\ g1_valid (PoolPK (Params p)) = true /\ g2_valid (pp_Signature (Params p)) = true /\
  0 < Nonce (Params p) < 2 ^ 32 /\
  VerifyPoolPkPayload (PoolPK (Params p)) (pp_Signature (Params p)) (CoinbaseScriptAddress (Params p)) (Nonce (Params p)) = Some true.

Lemma field_full n b : length b = n -> field n b = b.
Proof. intros <-. unfold field. rewrite take_ge, Nat.sub_diag by lia. apply app_nil_r. Qed.

Lemma NewG1_Ret b k : NewG1ElementFromBytes b = Ret k <-> g1_valid b = true /\ k = b.
Proof.
  split; [|intros [Hv ->]; by apply NewG1_valid]. intros H. assert (g1_valid b = true) as Hv; [|split; [done|]].
  - unfold NewG1ElementFromBytes in H. by destruct (g1_valid b).
  - rewrite NewG1_valid in H by done. congruence.
Qed.

Lemma NewG2_Ret b k : NewG2ElementFromBytes b = Ret k <-> g2_valid b = true /\ k = b.
Proof.
  split; [|intros [Hv ->]; by apply NewG2_valid]. intros H. assert (g2_valid b = true) as Hv; [|split; [done|]].
  - unfold NewG2ElementFromBytes in H. by destruct (g2_valid b).
  - rewrite NewG2_valid in H by done. congruence.
Qed.

Lemma Params_split pk sig rest (n : Z) :
  length pk = 48%nat -> length sig = 96%nat ->
  let data := pk ++ sig ++ be_encode 4 n ++ rest in
  take 48 data = pk /\ take 96 (drop 48 data) = sig /\ take 4 (drop 144 data) = be_encode 4 n /\ drop 148 data = rest /\ 148 <= len data.
Proof.
  intros Hk Hs data. subst data. split_and!.
  - by apply take_app_length'.
  - rewrite (drop_app_length' _ _ 48) by done. by apply take_app_length'.
  - rewrite app_assoc, (drop_app_length' _ _ 144) by (rewrite length_app; lia). apply take_app_length'. by rewrite length_be_encode.
  - rewrite 2!app_assoc. apply drop_app_length'. rewrite !length_app, length_be_encode. lia.
  - unfold len. rewrite !length_app, length_be_encode. lia.
Qed.

Lemma cut_fields {A} (data : list A) :
  data = take 48 data ++ take 96 (drop 48 data) ++ take 4 (drop 144 data) ++ drop 148 data.
Proof.
  assert (forall n m, drop n data = take m (drop n data) ++ drop (n + m) data) as H.
  { intros n m. by rewrite <- drop_drop, take_drop. }
  pose proof (H 144%nat 4%nat) as H1. pose proof (H 48%nat 96%nat) as H2. cbn [Nat.add] in H1, H2.
  rewrite <- H1, <- H2. symmetry. apply take_drop.
Qed.

Lemma Params_decoded data p : bytes_ok data -> Params_Decode data = Some p ->
  g1_valid (PoolPK p) = true /\ g2_valid (pp_Signature p) = true /\ 0 < Nonce p < 2 ^ 32 /\ Params_Encode p = data.
Proof.
  intros Hok. unfold Params_Decode. destruct (Z.ltb_spec (len data) 148) as [|Hlen]; [done|].
  destruct (NewG1ElementFromBytes _) as [pk| |] eqn:Hpk; [|done|done]. apply NewG1_Ret in Hpk as [Hpk ->].
  destruct (NewG2ElementFromBytes _) as [sig| |] eqn:Hsig; [|done|done]. apply NewG2_Ret in Hsig as [Hsig ->].
  set (nb := take 4 (drop 144 data)). destruct (Z.eqb_spec (be_decode nb) 0) as [|Hn]; [done|]. intros [= <-]. cbn [PoolPK pp_Signature Nonce].
  unfold len in Hlen. assert (length nb = 4%nat) as Hl by (unfold nb; rewrite length_take, length_drop; lia).
  assert (bytes_ok nb) as Hnb by (by apply Forall_take, Forall_drop).
  pose proof (be_decode_range nb Hnb) as Hr. replace (len nb) with 4 in Hr by (unfold len; lia). change (256 ^ 4) with (2 ^ 32) in Hr.
  split_and!; [done|done|lia|lia|]. unfold Params_Encode. cbn [PoolPK pp_Signature Nonce CoinbaseScriptAddress].
  rewrite !field_full by (rewrite ?length_take, ?length_drop; lia). rewrite (be_encode_decode 4 nb) by done. unfold nb.
  symmetry. apply cut_fields.
Qed.

Lemma Params_roundtrip p :
  g1_valid (PoolPK p) = true -> g2_valid (pp_Signature p) = true -> 0 < Nonce p < 2 ^ 32 -> Params_Decode (Params_Encode p) = Some p.
Proof.
  intros Hpk Hsig Hn. pose proof (g1_valid_length _ Hpk) as Lp. pose proof (g2_valid_length _ Hsig) as Ls.
  unfold Params_Encode, Params_Decode. rewrite !field_full by done.
  destruct (Params_split _ _ (CoinbaseScriptAddress p) (Nonce p) Lp Ls) as (-> & -> & -> & -> & Hlen).
  rewrite (proj2 (Z.ltb_ge _ _)) by lia. rewrite NewG1_valid, NewG2_valid by done.
  rewrite be_decode_encode. change (256 ^ Z.of_nat 4) with (2 ^ 32). rewrite Z.mod_small by lia.
  rewrite (proj2 (Z.eqb_neq _ _)) by lia. by destruct p.
Qed.

Lemma decoded_valid b p : bytes_ok b -> DecodePayload b = Some p -> b = EncodePayload p /\ payload_valid p.
Proof.
  intros Hok. unfold DecodePayload, EncodePayload, payload_valid.
  destruct (Z.ltb_spec (len b) 2) as [|Hlen]; [done|]. destruct (Z.eqb_spec (be_decode (take 2 b)) BindPoolCoinbase) as [Hm|]; [|done].
  destruct (Params_Decode (drop 2 b)) as [q|] eqn:Hq; [|done]. apply Params_decoded in Hq as (Hpk & Hsig & Hn & He); [|by apply Forall_drop].
  destruct (VerifyPoolPkPayload _ _ _ _) as [[]|] eqn:Hv; [|done|done]. intros [= <-]. cbn [Method Params]. split; [|by auto 10].
  rewrite <- Hm, (be_encode_decode 2); [by rewrite He, take_drop|by apply Forall_take|]. unfold len in Hlen. rewrite length_take. lia.
Qed.

(** a payload that binds a pool key has one encoding: [DecodePayload] returns a payload
    exactly for the bytes [EncodePayload] writes of it, for keys and signatures the library
    accepts, a nonce that is not zero and a signature of the key over the key, the nonce and
    the address. *)
Theorem payload_canonical (b : bytes) (p : TransactionPayload) :
  bytes_ok b -> DecodePayload b = Some p <-> b = EncodePayload p /\ payload_valid p.
Proof.
  intros Hok. split; [by apply decoded_valid|]. unfold DecodePayload, EncodePayload, payload_valid.
  intros [-> (Hm & Hpk & Hsig & Hn & Hv)]. assert (take 2 (be_encode 2 (Method p) ++ Params_Encode (Params p)) = be_encode 2 (Method p)) as ->
    by (apply take_app_length'; by rewrite length_be_encode).
  assert (drop 2 (be_encode 2 (Method p) ++ Params_Encode (Params p)) = Params_Encode (Params p)) as ->
    by (apply drop_app_length'; by rewrite length_be_encode).
  rewrite (proj2 (Z.ltb_ge _ _)); [|unfold len; rewrite length_app, length_be_encode; lia].
  rewrite Hm. change (be_decode (be_encode 2 BindPoolCoinbase) =? BindPoolCoinbase) with true.
  cbv iota. rewrite Params_roundtrip, Hv by done. destruct p. cbn in *. by rewrite Hm.
Qed.
End payloads.
