(* ===== verification/ScriptVal.v ===== *)
(** Validation of the scripts of a block: blockchain/scriptval.go.  The inputs are checked by a
    pool of goroutines; their interleavings are a step relation. *)

From S2P Require Import Prelude TxCommon Script Hashes Wire SigHash SigCache Engine EngineSafety Amount Forks Poc Block MsgBlock Payload Validate ValidateSpec.

(** * Definitions *)

Record txValidateItem := mkItem { vi_txInIndex : Z; vi_txIn : TxIn; vi_tx : MsgTx; vi_sigHashes : option TxSigHashes }.

Section scripts.
Context {HF : HashFunctions} {BC : Btcec} {EV : Env}.

(** What a goroutine answers for an item.  The answer does not depend on the signature cache,
    which only holds triples that verify, so that the engine runs without it here. *)
Definition validate_item (txStore : TxStore) (flags : Z) (item : txValidateItem) : val unit :=
  let op := PreviousOutPoint (vi_txIn item) in
  match available txStore (op_Hash op) with
  | None => Err ErrMissingTx
  | Some (originTx, originMsgTx) =>
      check (op_Index op >=? uint32 (len (TxOuts originMsgTx))) ErrBadTxInput;;
      check (negb (len (Witness (vi_txIn item)) =? 2)) ErrWitnessLength;;
      out ← index (TxOuts originMsgTx) (op_Index op);
      let scriptFlags := if EnforceMASSIP0002WarmUp (td_BlockHeight originTx) then Z.lor flags ScriptMASSip2 else flags in
      match NewEngine (PkScript out) (vi_tx item) (vi_txInIndex item) scriptFlags None (vi_sigHashes item) (Value out) with
      | Panic => Panic
      | Err _ => Err ErrScriptMalformed
      | Ret vm =>
          match Execute max_steps vm with
          | Some (Ret _, _) => Ret tt
          | Some (Err _, _) => Err ErrScriptValidation
          | Some (Panic, _) | None => Panic
          end
      end
  end.

(** The items of a transaction: its inputs but those of index MaxUint32. *)
Fixpoint input_items (tx : MsgTx) (i : Z) (ins : list TxIn) : list txValidateItem :=
  match ins with
  | [] => []
  | txIn :: rest =>
      if op_Index (PreviousOutPoint txIn) =? 2 ^ 32 - 1 then input_items tx (i + 1) rest
      else mkItem i txIn tx (Some (NewTxSigHashes tx)) :: input_items tx (i + 1) rest
  end.

Definition block_items (txs : list MsgTx) : list txValidateItem := concat ((fun tx => input_items tx 0 (TxIns tx)) <$> txs).

(** The result when the answers come in order. *)
Definition ValidateTransactionScripts (tx : MsgTx) (txStore : TxStore) (flags : Z) : val unit :=
  check_all (validate_item txStore flags) (input_items tx 0 (TxIns tx)).

(** [block.Transactions()[1:]] panics on an empty list. *)
Definition checkBlockScripts (txs : list MsgTx) (txStore : TxStore) (scriptFlags : Z) : val unit :=
  match txs with
  | [] => Panic
  | _ :: rest => check_all (validate_item txStore scriptFlags) (block_items rest)
  end.
End scripts.

(** ** The pool of goroutines *)

Section pool.
Context {I : Type} (verdict : I -> val unit).

(** The items not sent yet, those a goroutine works on, the goroutines that wait, and what
    [Validate] has returned. *)
Record Validator := mkValidator { v_todo : list I; v_busy : list I; v_idle : nat; v_result : option (val unit) }.

Definition maxGoRoutines (numCPU : Z) (items : list I) : Z :=
  let n := numCPU * 3 in
  let n := if n <=? 0 then 1 else n in
  if n >? len items then len items else n.

Definition newTxValidator (numCPU : Z) (items : list I) : Validator :=
  mkValidator items [] (Z.to_nat (maxGoRoutines numCPU items)) (if len items =? 0 then Some (Ret tt) else None).

(** Sending an item to a waiting goroutine, and receiving the answer of one: the last answer,
    and the first error, end the loop of [Validate]; a panic ends the process. *)
Inductive validate_step : Validator -> Validator -> Prop :=
| step_send it todo busy k : validate_step (mkValidator (it :: todo) busy (S k) None) (mkValidator todo (it :: busy) k None)
| step_answer it todo b1 b2 k :
    verdict it = Ret tt ->
    validate_step (mkValidator todo (b1 ++ it :: b2) k None)
      (mkValidator todo (b1 ++ b2) (S k) (if (len todo =? 0) && (len (b1 ++ b2) =? 0) then Some (Ret tt) else None))
| step_error it todo b1 b2 k e : verdict it = Err e -> validate_step (mkValidator todo (b1 ++ it :: b2) k None) (mkValidator todo (b1 ++ b2) k (Some (Err e)))
| step_panic it todo b1 b2 k : verdict it = Panic -> validate_step (mkValidator todo (b1 ++ it :: b2) k None) (mkValidator todo (b1 ++ b2) k (Some Panic)).

(** * Theorems *)

(** The verdict on an input does not depend on which outputs are marked as spent. *)
Lemma validate_item_unmarked `{HashFunctions, Btcec, Env} store store' flags it :
  unmarked store' = unmarked store -> validate_item store' flags it = validate_item store flags it.
Proof.
  intros E. unfold validate_item, available. pose proof (unmarked_lookup _ _ (op_Hash (PreviousOutPoint (vi_txIn it))) E) as El.
  destruct (store' !! _) as [[tx' h' ht' sp' e']|], (store !! _) as [[tx h ht sp e]|]; cbn in El; [|done|done|done].
  injection El as -> -> -> ->. by destruct e, tx.
Qed.

(** What holds at every point of a run over [items]. *)
Record running (items : list I) (v : Validator) : Prop := {
  run_answered : exists answered, Permutation items (answered ++ v_busy v ++ v_todo v) /\
    match v_result v with
    | None => Forall (fun it => verdict it = Ret tt) answered
    | Some (Ret _) => Forall (fun it => verdict it = Ret tt) items
    | Some o => exists it, it ∈ items /\ verdict it = o
    end;
  run_workers : v_result v = None -> (0 < v_idle v + length (v_busy v))%nat;
  run_pending : v_result v = None -> (0 < length (v_busy v) + length (v_todo v))%nat;
}.

Lemma init_running numCPU items : running items (newTxValidator numCPU items).
Proof.
  unfold newTxValidator, maxGoRoutines. destruct items as [|it items]; cbn.
  - split; cbn; [exists []; split; [done|constructor]|done|done].
  - pose proof (len_nonneg items). split; cbn; [exists []; split; [done|constructor]| |lia]. intros _.
    rewrite len_cons. repeat case_match; bool_to_prop; lia.
Qed.

Lemma perm_take (it : I) todo b1 b2 answered items :
  Permutation items (answered ++ (b1 ++ it :: b2) ++ todo) -> Permutation items ((it :: answered) ++ (b1 ++ b2) ++ todo).
Proof. intros ->. rewrite <- !app_assoc. cbn. rewrite !(app_assoc answered b1). symmetry. apply Permutation_middle. Qed.

Lemma step_running items v v' : validate_step v v' -> running items v -> running items v'.
Proof.
  intros Hs [(answered & Hp & Ha) Hw Hpend]. destruct Hs as [it todo busy k|it todo b1 b2 k Hv|it todo b1 b2 k e Hv|it todo b1 b2 k Hv]; cbn in *.
  - split; cbn; [|lia|lia]. exists answered. split; [|done]. rewrite Hp. by rewrite <- Permutation_middle.
  - apply perm_take in Hp. specialize (Hw eq_refl). split; cbn; [|rewrite length_app; lia|].
    + exists (it :: answered). split; [done|]. destruct ((len todo =? 0) && _) eqn:Hend; [|by constructor].
      apply andb_true_iff in Hend as [Ht Hb]. apply Z.eqb_eq, len_zero_iff in Ht, Hb. rewrite Hb, Ht, !app_nil_r in Hp.
      rewrite Hp. by constructor.
    + destruct ((len todo =? 0) && _) eqn:Hend; [done|]. intros _. apply andb_false_iff in Hend. rewrite !Z.eqb_neq in Hend.
      unfold len in Hend. lia.
  - apply perm_take in Hp. split; cbn; [|done|done]. exists (it :: answered). split; [done|]. exists it. rewrite Hp. set_solver.
  - apply perm_take in Hp. split; cbn; [|done|done]. exists (it :: answered). split; [done|]. exists it. rewrite Hp. set_solver.
Qed.

Definition pending (v : Validator) : nat := match v_result v with Some _ => 0 | None => 2 * length (v_todo v) + length (v_busy v) end.

Lemma step_pending v v' : validate_step v v' -> (pending v' < pending v)%nat.
Proof. intros []; unfold pending; cbn; rewrite ?length_app; cbn; [lia| |lia|lia]. case_match; lia. Qed.

Lemma running_steps items v : running items v -> v_result v = None -> exists v', validate_step v v'.
Proof.
  intros [_ Hw Hp] Hr. destruct v as [todo busy idle r]. cbn in *. subst r. specialize (Hw eq_refl). specialize (Hp eq_refl).
  destruct busy as [|it busy].
  - destruct todo as [|it todo]; [cbn in Hp; lia|]. destruct idle as [|k]; [cbn in Hw; lia|]. eexists. apply step_send.
  - destruct (verdict it) as [[]|e|] eqn:Hv; eexists.
    + by apply (step_answer it todo [] busy).
    + by apply (step_error it todo [] busy).
    + by apply (step_panic it todo [] busy).
Qed.

(** C23: whatever the interleaving of the goroutines that validate the scripts of a block, the
    validation ends, without deadlock, after at most two steps per input: a run that has not
    returned can continue, and when it has returned, it has returned nil exactly when every
    input is valid, and otherwise the error of an input that is not. *)
Theorem validator_decides (numCPU : Z) (items : list I) (n : nat) (v : Validator) :
  nsteps validate_step n (newTxValidator numCPU items) v ->
  (n <= 2 * length items)%nat /\
  (v_result v = None -> exists v', validate_step v v') /\
  (forall u, v_result v = Some (Ret u) -> Forall (fun it => verdict it = Ret tt) items) /\
  (forall e, v_result v = Some (Err e) -> exists it, it ∈ items /\ verdict it = Err e) /\
  (v_result v = Some Panic -> exists it, it ∈ items /\ verdict it = Panic).
Proof.
  intros Hn. assert (running items v /\ (n + pending v <= pending (newTxValidator numCPU items))%nat) as [Hr Hb].
  { pose proof (init_running numCPU items) as Hi. revert Hi. induction Hn as [v|n v0 v1 v2 Hs _ IH]; intros Hi; [split; [done|lia]|].
    apply step_pending in Hs as Hd. destruct (IH (step_running _ _ _ Hs Hi)). split; [done|lia]. }
  split; [|split; [|split_and!]].
  - unfold pending at 2 in Hb. cbn in Hb. case_match; lia.
  - by apply (running_steps items).
  - intros u Hu. destruct Hr as [(a & _ & H) _ _]. by rewrite Hu in H.
  - intros e He. destruct Hr as [(a & _ & H) _ _]. by rewrite He in H.
  - intros Hp. destruct Hr as [(a & _ & H) _ _]. by rewrite Hp in H.
Qed.
End pool.
