(* ===== verification/BindingState.v ===== *)
(** The binding state and the address index of blocks: blockchain/utils.go, blockchain/state,
    the output policy of blockchain/policy.go, blockchain/addrindexer.go and
    addrindexer_massip2.go, and [connectState] of blockchain/chain.go. *)

From S2P Require Import Prelude TxCommon Opcodes Script Hashes Wire Standard Amount Forks Poc Block MsgBlock Payload Validate.

(** * Definitions *)

(** What the code uses of the state trie (blockchain/state/database.go, interface Trie).  The
    laws speak of calls that return; [st_map t m] says that the trie [t] stands for the map [m]. *)
Class StateTrie (T : Type) := {
  st_TryGet : bytes -> prog T val_error (option bytes);
  st_TryUpdate : bytes -> bytes -> prog T val_error unit;
  st_TryDelete : bytes -> prog T val_error unit;
  st_Hash : T -> bytes;
  st_map : T -> gmap bytes bytes -> Prop;
  st_get_law k t m v t' : bytes_ok k -> st_map t m -> st_TryGet k t = (Ret v, t') -> v = m !! k /\ st_map t' m;
  st_update_law k v t m u t' :
    bytes_ok k -> v <> [] -> st_map t m -> st_TryUpdate k v t = (Ret u, t') -> st_map t' (<[k := v]> m);
  st_delete_law k t m u t' : bytes_ok k -> st_map t m -> st_TryDelete k t = (Ret u, t') -> st_map t' (base.delete k m);
}.

(** blockchain/state: the value under a binding target. *)
Record BindingInfo := mkBindingInfo { bi_Amount : Z }.

Definition DecodeBindingInfo (buf : bytes) : outcome val_error BindingInfo :=
  if len buf =? 0 then Ret (mkBindingInfo 0)
  else if len buf <? 8 then Panic
  else Ret (mkBindingInfo (int64 (be_decode (take 8 buf)))).

Definition EncodeBindingInfo (info : BindingInfo) : bytes := be_encode 8 (bi_Amount info).

(** "networkbinding" and "p_" *)
Definition keyNetworkBinding : bytes := [110; 101; 116; 119; 111; 114; 107; 98; 105; 110; 100; 105; 110; 103].
Definition keyPoolPkCoinbasePrefix : bytes := [112; 95].
Definition MASSIP0002PayloadNonceGap : Z := 5.

Definition makePoolPkKey (poolPk : bytes) : bytes := keyPoolPkCoinbasePrefix ++ poolPk.

(** ** Keys of the address index *)

Definition mustEncodeTxIndexKey (scriptHash : bytes) (loc : TxLoc) : bytes :=
  field 32 scriptHash ++ le_encode 4 (TxStart loc) ++ le_encode 4 (TxLen loc).

Definition mustDecodeTxIndexKey (key : bytes) : bytes * TxLoc :=
  (take 32 key, mkTxLoc (le_decode (take 4 (drop 32 key))) (le_decode (take 4 (drop 36 key)))).

Definition mustEncodeGtxIndexKey (scriptHash : bytes) (loc : TxLoc) (index : Z) : bytes :=
  field 20 scriptHash ++ le_encode 4 (TxStart loc) ++ le_encode 4 (TxLen loc) ++ le_encode 4 index.

Definition mustDecodeGtxIndexKey (key : bytes) : bytes * TxLoc * Z :=
  (take 20 key, mkTxLoc (le_decode (take 4 (drop 20 key))) (le_decode (take 4 (drop 24 key))), le_decode (take 4 (drop 28 key))).

(** [spent] is the transaction that spends, [btx] the binding transaction. *)
Definition mustEncodeGtxSpentIndexKey (scriptHash : bytes) (spent : TxLoc) (btxHeight : Z) (btx : TxLoc) (gtxTxOutIndex : Z) : bytes :=
  field 20 scriptHash ++ le_encode 4 (TxStart spent) ++ le_encode 4 (TxLen spent) ++ le_encode 8 btxHeight ++
  le_encode 4 (TxStart btx) ++ le_encode 4 (TxLen btx) ++ le_encode 4 gtxTxOutIndex.

Definition mustDecodeGtxSpentIndexKey (key : bytes) : bytes * TxLoc * Z * TxLoc * Z :=
  (take 20 key, mkTxLoc (le_decode (take 4 (drop 20 key))) (le_decode (take 4 (drop 24 key))),
   le_decode (take 8 (drop 28 key)),
   mkTxLoc (le_decode (take 4 (drop 36 key))) (le_decode (take 4 (drop 40 key))), le_decode (take 4 (drop 44 key))).

(** [shTxLoc], [btxIndex] and [btxSpentIndex]: sets of keys. *)
Record Indexes := mkIndexes { txAddrIndex : gset bytes; btxAddrIndex : gset bytes; btxSpentIndex : gset bytes }.

Definition add_tx (k : bytes) (ix : Indexes) : Indexes := mkIndexes ({[k]} ∪ txAddrIndex ix) (btxAddrIndex ix) (btxSpentIndex ix).
Definition add_btx (k : bytes) (ix : Indexes) : Indexes := mkIndexes (txAddrIndex ix) ({[k]} ∪ btxAddrIndex ix) (btxSpentIndex ix).
Definition add_spent (k : bytes) (ix : Indexes) : Indexes := mkIndexes (txAddrIndex ix) (btxAddrIndex ix) ({[k]} ∪ btxSpentIndex ix).

Definition script {A} (o : outcome script_error A) : val A := wrap OfScript o.

Definition indexScriptPubKeyForTxIn (ix : Indexes) (scriptPubKey : bytes) (loc : TxLoc) (blkHeightBefore : Z)
    (txLocBefore : TxLoc) (txBeforeIndex : Z) : val Indexes :=
  let '(scriptClass, pops) := GetScriptInfo scriptPubKey in
  match scriptClass with
  | BindingScriptHashTy =>
      '(holderScriptHash, bindingScriptHash) ← script (GetParsedBindingOpcode pops);
      check (negb (len bindingScriptHash =? OP_DATA_20)) ErrInvalidBindingScript;;
      Ret (add_spent (mustEncodeGtxSpentIndexKey bindingScriptHash loc blkHeightBefore txLocBefore txBeforeIndex)
             (add_tx (mustEncodeTxIndexKey holderScriptHash loc) ix))
  | WitnessV0ScriptHashTy | StakingScriptHashTy =>
      '(_, rsh) ← script (GetParsedOpcode pops scriptClass);
      Ret (add_tx (mustEncodeTxIndexKey rsh loc) ix)
  | _ => Ret ix
  end.

Definition indexScriptPubKeyForTxOut (ix : Indexes) (scriptPubKey : bytes) (loc : TxLoc) (index : Z) : val Indexes :=
  let '(scriptClass, pops) := GetScriptInfo scriptPubKey in
  match scriptClass with
  | BindingScriptHashTy =>
      '(holderScriptHash, bindingScriptHash) ← script (GetParsedBindingOpcode pops);
      check (negb (len bindingScriptHash =? OP_DATA_20)) ErrInvalidBindingScript;;
      Ret (add_btx (mustEncodeGtxIndexKey bindingScriptHash loc index) (add_tx (mustEncodeTxIndexKey holderScriptHash loc) ix))
  | WitnessV0ScriptHashTy | StakingScriptHashTy =>
      '(_, rsh) ← script (GetParsedOpcode pops scriptClass);
      Ret (add_tx (mustEncodeTxIndexKey rsh loc) ix)
  | _ => Ret ix
  end.

(** ** The binding state *)

Section state.
Context {HF : HashFunctions} {CL : ChiaLib} {T : Type} {ST : StateTrie T}.
Abbreviation stateful A := (prog T val_error A).

Definition GetNetworkBinding : stateful Amount :=
  oldVal ← st_TryGet keyNetworkBinding;
  match oldVal with
  | None => mret ZeroAmount
  | Some v => uv ← lift (wrap OfAmount (NewUint128FromBytes v)); lift (wrap OfAmount (NewAmount uv))
  end.

Definition PutNetworkBinding (totalBinding : Amount) : stateful unit :=
  b ← lift (wrap OfAmount (Uint128_Bytes (Amount_Value totalBinding)));
  st_TryUpdate keyNetworkBinding b.

(** [binary.BigEndian.Uint32(value[0:4])] *)
Definition stored_nonce (value : bytes) : val Z := if len value <? 4 then Panic else Ret (be_decode (take 4 value)).

Definition CheckNonceAndSetPoolPkCoinbase (payload : bytes) : stateful unit :=
  match DecodePayload payload with
  | None => mret tt
  | Some decodedPayload =>
      let params := Params decodedPayload in
      let key := makePoolPkKey (PoolPK params) in
      oldVal ← st_TryGet key;
      let put := st_TryUpdate key (be_encode 4 (Nonce params) ++ CoinbaseScriptAddress params) in
      match oldVal with
      | Some v =>
          oldNonce ← lift (stored_nonce v);
          if (Nonce params <=? oldNonce) || (Nonce params >? uint32 (oldNonce + MASSIP0002PayloadNonceGap)) then mret tt else put
      | None => if Nonce params =? 0 then throw ErrPayloadNonce else put
      end
  end.

Definition GetPoolPkCoinbase (poolPk : bytes) : stateful (bytes * Z) :=
  value ← st_TryGet (makePoolPkKey poolPk);
  match value with
  | None => mret ([], 0)
  | Some v => nonce ← lift (stored_nonce v); mret (drop 4 v, nonce)
  end.

(** The three results of an output: the index and whether a binding was created or removed. *)
Definition indexTxInPkScriptForMassip2 (txout : TxOut) (ix : Indexes) (loc : TxLoc) : stateful (Indexes * bool) :=
  let '(scriptClass, pops) := GetScriptInfo (PkScript txout) in
  match scriptClass with
  | WitnessV0ScriptHashTy | StakingScriptHashTy =>
      '(_, rsh) ← lift (script (GetParsedOpcode pops scriptClass));
      mret (add_tx (mustEncodeTxIndexKey rsh loc) ix, false)
  | BindingScriptHashTy =>
      '(holderScriptHash, bindingScriptHash) ← lift (script (GetParsedBindingOpcode pops));
      fail_if (negb (len bindingScriptHash =? OP_DATA_22)) ErrInvalidBindingScript;;
      buf ← (fun t => match st_TryGet bindingScriptHash t with (Err _, t') => (Ret None, t') | r => r end);
      match buf with
      | None => throw ErrPlotPKNotBound
      | Some _ =>
          st_TryDelete bindingScriptHash;;
          mret (add_tx (mustEncodeTxIndexKey holderScriptHash loc) ix, true)
      end
  | _ => mret (ix, false)
  end.

Definition indexTxOutPkScriptForMassip2 (txout : TxOut) (ix : Indexes) (loc : TxLoc) : stateful (Indexes * bool) :=
  let '(scriptClass, pops) := GetScriptInfo (PkScript txout) in
  match scriptClass with
  | WitnessV0ScriptHashTy | StakingScriptHashTy =>
      '(_, rsh) ← lift (script (GetParsedOpcode pops scriptClass));
      mret (add_tx (mustEncodeTxIndexKey rsh loc) ix, false)
  | BindingScriptHashTy =>
      '(holderScriptHash, bindingScriptHash) ← lift (script (GetParsedBindingOpcode pops));
      fail_if (negb (len bindingScriptHash =? OP_DATA_22)) ErrInvalidBindingScript;;
      buf ← st_TryGet bindingScriptHash;
      match buf with
      | Some _ => throw ErrPlotPKAlreadyBound
      | None =>
          st_TryUpdate bindingScriptHash (EncodeBindingInfo (mkBindingInfo (Value txout)));;
          mret (add_tx (mustEncodeTxIndexKey holderScriptHash loc) ix, true)
      end
  | _ => mret (ix, false)
  end.

(** The outputs of a transaction in [indexBlockAddrs]. *)
Fixpoint index_outs (warm : bool) (loc : TxLoc) (i : Z) (outs : list TxOut) (ix : Indexes) (networkBinding : Amount) : stateful (Indexes * Amount) :=
  match outs with
  | [] => mret (ix, networkBinding)
  | txOut :: rest =>
      if negb warm then
        ix' ← lift (indexScriptPubKeyForTxOut ix (PkScript txOut) loc i);
        index_outs warm loc (i + 1) rest ix' networkBinding
      else
        '(ix', isBinding) ← indexTxOutPkScriptForMassip2 txOut ix loc;
        nb ← (if (isBinding : bool) then lift (wrap OfAmount (Amount_AddInt networkBinding (Value txOut))) else mret networkBinding);
        index_outs warm loc (i + 1) rest ix' nb
  end.

(** Where a transaction that an input refers to is: in the database, or earlier in the block. *)
Record BlockPlace := mkBlockPlace { bp_Height : Z; bp_Loc : TxLoc }.

(** The inputs of a transaction: [place] finds the transaction an input refers to. *)
Fixpoint index_ins (place : Hash -> val BlockPlace) (txStore : TxStore) (loc : TxLoc) (ins : list TxIn) (ix : Indexes)
    (networkBinding : Amount) : stateful (Indexes * Amount) :=
  match ins with
  | [] => mret (ix, networkBinding)
  | txIn :: rest =>
      let prevOut := PreviousOutPoint txIn in
      match txStore !! op_Hash prevOut with
      | None => throw errTxNotFound
      | Some txD =>
          match td_Err txD with
          | Some e => throw e
          | None =>
              before ← lift (place (op_Hash prevOut));
              tx ← lift (deref (td_Tx txD));
              out ← lift (index (TxOuts tx) (op_Index prevOut));
              if negb (EnforceMASSIP0002WarmUp (bp_Height before)) then
                ix' ← lift (indexScriptPubKeyForTxIn ix (PkScript out) loc (bp_Height before) (bp_Loc before) (op_Index prevOut));
                index_ins place txStore loc rest ix' networkBinding
              else
                '(ix', isBinding) ← indexTxInPkScriptForMassip2 out ix loc;
                nb ← (if (isBinding : bool) then lift (wrap OfAmount (Amount_AddInt networkBinding (int64 (- Value out)))) else mret networkBinding);
                index_ins place txStore loc rest ix' nb
          end
      end
  end.

(** [GetUnspentTxData] of the database, and the transactions of the block seen so far. *)
Definition place_of (db : Hash -> option BlockPlace) (height : Z) (seen : gmap Hash TxLoc) (h : Hash) : val BlockPlace :=
  match db h with
  | Some p => Ret p
  | None => match seen !! h with Some loc => Ret (mkBlockPlace height loc) | None => Err errTxNotFound end
  end.

Fixpoint index_txs (db : Hash -> option BlockPlace) (height : Z) (txStore : TxStore) (seen : gmap Hash TxLoc) (txs : list MsgTx)
    (txLocs : list TxLoc) (ix : Indexes) (networkBinding : Amount) : stateful (Indexes * Amount) :=
  match txs with
  | [] => mret (ix, networkBinding)
  | tx :: rest =>
      let warm := EnforceMASSIP0002WarmUp height in
      loc ← lift (index txLocs 0);
      let seen := <[tx_sha tx := loc]> seen in
      '(ix, nb) ← (if IsCoinBase tx then mret (ix, networkBinding)
                   else index_ins (place_of db height seen) txStore loc (TxIns tx) ix networkBinding);
      '(ix, nb) ← index_outs warm loc 0 (TxOuts tx) ix nb;
      (if negb (IsCoinBase tx) && warm then CheckNonceAndSetPoolPkCoinbase (Payload tx) else mret tt);;
      index_txs db height txStore seen rest (drop 1 txLocs) ix nb
  end.

(** The entries of a set of keys by script hash; the order of each list is that of the
    iteration over a Go map, which is not specified. *)
Definition group {V} (decode : bytes -> bytes * V) (keys : gset bytes) : gmap bytes (list V) :=
  foldr (fun key acc => let '(sh, v) := decode key in <[sh := default [] (acc !! sh) ++ [v]]> acc) ∅ (elements keys).

Record AddrIndexData := mkAddrIndexData {
  TxIndex : gmap bytes (list TxLoc);
  BindingTxIndex : gmap bytes (list (TxLoc * Z));
  BindingTxSpentIndex : gmap bytes (list (TxLoc * Z * TxLoc * Z));
}.

Definition indexBlockAddrs (db : Hash -> option BlockPlace) (height : Z) (txs : list MsgTx) (txLocs : val (list TxLoc)) (txStore : TxStore)
    : stateful AddrIndexData :=
  txLocs ← lift txLocs;
  networkBinding ← GetNetworkBinding;
  '(ix, nb) ← index_txs db height txStore ∅ txs txLocs (mkIndexes ∅ ∅ ∅) networkBinding;
  (if EnforceMASSIP0002WarmUp height && negb (Amount_Cmp networkBinding nb =? 0) then PutNetworkBinding nb else mret tt);;
  mret (mkAddrIndexData (group mustDecodeTxIndexKey (txAddrIndex ix))
          (group (fun k => let '(sh, loc, i) := mustDecodeGtxIndexKey k in (sh, (loc, i))) (btxAddrIndex ix))
          (group (fun k => let '(sh, stx, h, btx, i) := mustDecodeGtxSpentIndexKey k in (sh, (stx, h, btx, i))) (btxSpentIndex ix))).

(** An error logged at the level PANIC. *)
Definition log_panic {A} (p : stateful A) : stateful A := fun t => match p t with (Err _, t') => (Panic, t') | r => r end.

(** [SyncAttachBlock]: errors of the index and of its storage are logged at the level PANIC. *)
Definition SyncAttachBlock (tip : val (Hash * Z)) (submit : AddrIndexData -> val unit) (db : Hash -> option BlockPlace) (header : BlockHeader)
    (txs : list MsgTx) (txLocs : val (list TxLoc)) (txStore : TxStore) : stateful unit :=
  '(currentIndexSha, currentIndexTip) ← lift tip;
  if (bh_Height header =? uint64 (currentIndexTip + 1)) && Hash_IsEqual (Some (bh_Previous header)) (Some currentIndexSha) then
    data ← log_panic (indexBlockAddrs db (bh_Height header) txs txLocs txStore);
    log_panic (lift (submit data))
  else throw errUnexpectedHeight.

(** [deleteTxAddressIndex] and [SyncDetachBlock] *)
Definition deleteTxAddressIndex (tip : val (Hash * Z)) (remove : val unit) (blkSha : Hash) (blkHeight : Z) : val unit :=
  '(currentIndexSha, currentIndexTip) ← tip;
  if (blkHeight =? currentIndexTip) && Hash_IsEqual (Some blkSha) (Some currentIndexSha) then
    match remove with Err _ => Panic | r => r end
  else Err errUnexpectedHeight.

(** ** Connecting a state on a side chain *)

(** The payload is applied once per output. *)
Fixpoint connect_outs (coinbase : bool) (payload : bytes) (loc : TxLoc) (outs : list TxOut) (ix : Indexes) (networkBinding : Amount)
    : stateful (Indexes * Amount) :=
  match outs with
  | [] => mret (ix, networkBinding)
  | txOut :: rest =>
      '(ix', isBinding) ← indexTxOutPkScriptForMassip2 txOut ix loc;
      nb ← (if (isBinding : bool) then lift (wrap OfAmount (Amount_AddInt networkBinding (Value txOut))) else mret networkBinding);
      (if negb coinbase then CheckNonceAndSetPoolPkCoinbase payload else mret tt);;
      connect_outs coinbase payload loc rest ix' nb
  end.

Fixpoint connect_txs (txs : list MsgTx) (txLocs : list TxLoc) (ix : Indexes) (networkBinding : Amount) : stateful (Indexes * Amount) :=
  match txs with
  | [] => mret (ix, networkBinding)
  | tx :: rest =>
      loc ← lift (index txLocs 0);
      '(ix, nb) ← connect_outs (IsCoinBase tx) (Payload tx) loc (TxOuts tx) ix networkBinding;
      connect_txs rest (drop 1 txLocs) ix nb
  end.

Definition connectState (header : BlockHeader) (txs : list MsgTx) (txLocs : val (list TxLoc)) : stateful unit :=
  if negb (EnforceMASSIP0002WarmUp (bh_Height header)) then mret tt
  else
    txLocs ← lift txLocs;
    networkBinding ← GetNetworkBinding;
    '(_, nb) ← connect_txs txs txLocs (mkIndexes ∅ ∅ ∅) networkBinding;
    (if negb (Amount_Cmp networkBinding nb =? 0) then PutNetworkBinding nb else mret tt);;
    root ← gets st_Hash;
    fail_if (negb (bytes_Equal root (bh_BindingRoot header))) ErrMismatchedBindingRoot.

(** ** The policy on outputs *)

(** [ensureTxInNoBinding] *)
Fixpoint ensureTxInNoBinding (txStore : TxStore) (ins : list TxIn) : val unit :=
  match ins with
  | [] => Ret tt
  | txIn :: rest =>
      let op := PreviousOutPoint txIn in
      txD ← deref (txStore !! op_Hash op);
      match td_Tx txD with
      | None => Err ErrBindingInputMissing
      | Some originTx =>
          out ← index (TxOuts originTx) (op_Index op);
          check (bool_decide (GetScriptClass (PkScript out) = BindingScriptHashTy)) ErrStandardBindingTx;;
          ensureTxInNoBinding txStore rest
      end
  end.

(** The price of a binding; [fuel] bounds the search for the interval of the price. *)
Definition required_binding (fuel : nat) (nextBlockHeight proofType proofSize : Z) (networkBinding : Amount) : val Amount :=
  match GetRequiredBinding fuel nextBlockHeight (PlotSize proofType proofSize) (-1) networkBinding with
  | Some r => wrap OfFork r
  | None => Err (OfCallee 0)
  end.

(** One binding output after the warm-up. *)
Definition check_binding (fuel : nat) (nextBlockHeight : Z) (inPool : bytes -> bool) (networkBinding : Amount) (seen : gset bytes)
    (target : bytes) (value : Z) : stateful (gset bytes) :=
  fail_if (negb (len target =? OP_DATA_22)) ErrInvalidBindingScript;;
  fail_if (bool_decide (target ∈ seen)) ErrInvalidBindingScript;;
  fail_if (inPool target) ErrPlotPKAlreadyBound;;
  data ← st_TryGet target;
  fail_if (bool_decide (is_Some data)) ErrPlotPKAlreadyBound;;
  proofType ← lift (index target 20);
  proofSize ← lift (index target 21);
  fail_if (negb (EnsureBitLength proofType proofSize)) ErrInvalidBitLength;;
  requiredBinding ← lift (required_binding fuel nextBlockHeight proofType proofSize networkBinding);
  required ← lift (wrap OfAmount (Amount_IntValue requiredBinding));
  fail_if (value <? required) ErrBindingValueNotEnough;;
  mret ({[target]} ∪ seen).

(** The outputs of a transaction: the targets seen so far and whether there is a binding. *)
Fixpoint check_outs (fuel : nat) (nextBlockHeight : Z) (inPool : bytes -> bool) (networkBinding : Amount) (outs : list TxOut)
    (seen : gset bytes) (hasBinding : bool) : stateful (gset bytes * bool) :=
  match outs with
  | [] => mret (seen, hasBinding)
  | txOut :: rest =>
      '(class, frozen, _, bound) ← lift (script (WitPkScriptParseFunc (PkScript txOut)));
      match class with
      | StakingScriptHashTy =>
          fail_if (negb (IsValidStakingValue (Value txOut))) ErrInvalidStakingTxValue;;
          fail_if (negb (IsValidFrozenPeriod frozen)) ErrInvalidFrozenPeriod;;
          check_outs fuel nextBlockHeight inPool networkBinding rest seen hasBinding
      | BindingScriptHashTy =>
          seen' ← (if EnforceMASSIP0002WarmUp nextBlockHeight
                   then check_binding fuel nextBlockHeight inPool networkBinding seen bound (Value txOut)
                   else fail_if (negb (len bound =? OP_DATA_20)) ErrInvalidBindingScript;; mret seen);
          check_outs fuel nextBlockHeight inPool networkBinding rest seen' true
      | NonStandardTy | MultiSigTy => throw ErrNonStandardType
      | _ => check_outs fuel nextBlockHeight inPool networkBinding rest seen hasBinding
      end
  end.

Fixpoint check_scripts (fuel : nat) (nextBlockHeight : Z) (inPool : bytes -> bool) (networkBinding : Amount) (txStore : TxStore)
    (txs : list MsgTx) (seen : gset bytes) : stateful unit :=
  match txs with
  | [] => mret tt
  | tx :: rest =>
      '(seen', hasBinding) ← check_outs fuel nextBlockHeight inPool networkBinding (TxOuts tx) seen false;
      (if (hasBinding : bool) && negb (IsCoinBase tx) then lift (ensureTxInNoBinding txStore (TxIns tx)) else mret tt);;
      check_scripts fuel nextBlockHeight inPool networkBinding txStore rest seen'
  end.

(** [inPool] is [bindingExistInPool], false everywhere when the argument is nil. *)
Definition checkParsePkScriptNew (fuel : nat) (nextBlockHeight : Z) (inPool : bytes -> bool) (txStore : TxStore) (txs : list MsgTx) : stateful unit :=
  networkBinding ← (if EnforceMASSIP0002WarmUp nextBlockHeight then GetNetworkBinding else mret ZeroAmount);
  check_scripts fuel nextBlockHeight inPool networkBinding txStore txs ∅.
End state.
