(* ===== verification/TrieState.v ===== *)
(** The state trie of trie/trie.go implements the interface the chain uses of it
    (blockchain/state/database.go): a method that returns has the effect on the map the trie
    stands for, whatever number of steps it was given.  A trie depends on the map alone, not on
    the history of updates and deletions that made it. *)

From S2P Require Import Prelude TrieEncoding Trie TrieSpec Wire Amount Poc Block Validate BindingState.

(** * More steps do not change a result *)

(** A run that returns, returns the same with more steps. *)
Definition extends {E A} (o o' : outcome E A) : Prop := forall a, o = Ret a -> o' = Ret a.

Lemma extends_refl {E A} (o : outcome E A) : extends o o.
Proof. by intros a. Qed.

Lemma extends_Err {E A} (e : E) (o : outcome E A) : extends (Err e) o.
Proof. by intros a. Qed.

Lemma extends_bind {E A B} (o o' : outcome E A) (f f' : A -> outcome E B) :
  extends o o' -> (forall a, extends (f a) (f' a)) -> extends (o ≫= f) (o' ≫= f').
Proof. intros Ho Hf b (a & Ha & Hb)%bind_Ret. apply bind_Ret. exists a. split; [by apply Ho|by apply Hf]. Qed.

Create HintDb steps.
#[export] Hint Resolve extends_refl extends_Err : steps.

(** Follows the code: the same test, the same call, a recursive call with more steps. *)
Ltac extend :=
  repeat first
    [ progress (intros; auto with steps)
    | apply extends_bind; intros
    | match goal with |- extends (match ?x with _ => _ end) (match ?x with _ => _ end) => destruct x end ].

Section extends.
Context (db : bytes -> option node).

Lemma tryGet_steps f : forall f' n key pos, (f <= f')%nat -> extends (tryGet db f n key pos) (tryGet db f' n key pos).
Proof.
  induction f as [|f IH]; intros [|f'] n key pos Hf; [by apply extends_Err|by apply extends_Err|lia|].
  apply le_S_n in Hf. destruct n; cbn [tryGet]; extend.
Qed.

Lemma insert_steps f : forall f' n prefix key value, (f <= f')%nat -> extends (insert db f n prefix key value) (insert db f' n prefix key value).
Proof.
  induction f as [|f IH]; intros [|f'] n prefix key value Hf; [by apply extends_Err|by apply extends_Err|lia|].
  apply le_S_n in Hf. cbn [insert]. extend.
Qed.

Lemma delete_steps f : forall f' n prefix key, (f <= f')%nat -> extends (delete db f n prefix key) (delete db f' n prefix key).
Proof.
  induction f as [|f IH]; intros [|f'] n prefix key Hf; [by apply extends_Err|by apply extends_Err|lia|].
  apply le_S_n in Hf. destruct n; cbn [delete]; extend.
Qed.
End extends.

(** * The methods *)

Section methods.
Context (db : bytes -> option node).

Lemma TryGet_steps f f' key t v t' : (f <= f')%nat -> TryGet db f key t = (Ret v, t') -> TryGet db f' key t = (Ret v, t').
Proof.
  intros Hf. unfold TryGet. rewrite !bind_gets. intros ([[x n] r] & s & [= Hg <-] & Hr)%prog_bind_Ret.
  apply prog_bind_Ret. exists (x, n, r), t. split; [|done]. unfold lift. f_equal. by apply (tryGet_steps db f f').
Qed.

Lemma TryUpdate_steps f f' key value t u t' : (f <= f')%nat -> TryUpdate db f key value t = (Ret u, t') -> TryUpdate db f' key value t = (Ret u, t').
Proof.
  intros Hf. unfold TryUpdate. rewrite !bind_modify, !bind_gets. destruct (negb _).
  - intros ([dt n] & s & [= Hg <-] & Hr)%prog_bind_Ret. apply prog_bind_Ret. exists (dt, n), (mkTrie (root t) (unhashed t + 1)).
    split; [|done]. unfold lift. f_equal. by apply (insert_steps db f f').
  - intros ([dt n] & s & [= Hg <-] & Hr)%prog_bind_Ret. apply prog_bind_Ret. exists (dt, n), (mkTrie (root t) (unhashed t + 1)).
    split; [|done]. unfold lift. f_equal. by apply (delete_steps db f f').
Qed.

Lemma TryDelete_steps f f' key t u t' : (f <= f')%nat -> TryDelete db f key t = (Ret u, t') -> TryDelete db f' key t = (Ret u, t').
Proof.
  intros Hf. unfold TryDelete. rewrite !bind_modify, !bind_gets. intros ([dt n] & s & [= Hg <-] & Hr)%prog_bind_Ret.
  apply prog_bind_Ret. exists (dt, n), (mkTrie (root t) (unhashed t + 1)). split; [|done]. unfold lift. f_equal. by apply (delete_steps db f f').
Qed.
End methods.

(** * Histories *)

Inductive trie_op := GetOp (key : bytes) | UpdateOp (key value : bytes) | DeleteOp (key : bytes).

Definition op_key (op : trie_op) : bytes := match op with GetOp k | UpdateOp k _ | DeleteOp k => k end.

(** The calls of a history, one after the other. *)
Definition trie_run (db : bytes -> option node) (fuel : nat) (op : trie_op) : prog Trie trie_error unit :=
  match op with
  | GetOp key => TryGet db fuel key;; mret tt
  | UpdateOp key value => TryUpdate db fuel key value
  | DeleteOp key => TryDelete db fuel key
  end.

Fixpoint trie_runs (db : bytes -> option node) (fuel : nat) (ops : list trie_op) : prog Trie trie_error unit :=
  match ops with
  | [] => mret tt
  | op :: rest => trie_run db fuel op;; trie_runs db fuel rest
  end.

(** What they mean for the map. *)
Definition map_run (m : gmap bytes bytes) (op : trie_op) : gmap bytes bytes :=
  match op with
  | GetOp _ => m
  | UpdateOp key value => if decide (value = []) then base.delete key m else <[key := value]> m
  | DeleteOp key => base.delete key m
  end.

Section histories.
Context (db : bytes -> option node).

Lemma trie_run_steps f f' op t u t' : (f <= f')%nat -> trie_run db f op t = (Ret u, t') -> trie_run db f' op t = (Ret u, t').
Proof.
  intros Hf. destruct op; cbn [trie_run]; [|by apply TryUpdate_steps|by apply TryDelete_steps].
  intros (v & s & Hg & Hr)%prog_bind_Ret. apply prog_bind_Ret. exists v, s. split; [by apply (TryGet_steps db f f')|done].
Qed.

Lemma trie_run_spec op t m :
  represents db t m -> bytes_ok (op_key op) ->
  exists F t', (forall fuel, (F <= fuel)%nat -> trie_run db fuel op t = (Ret tt, t')) /\ represents db t' (map_run m op).
Proof.
  intros Hm Hk. destruct (trie_methods db t m (op_key op) (match op with UpdateOp _ v => v | _ => [] end) Hm Hk) as [F HF].
  assert (exists t', trie_run db F op t = (Ret tt, t') /\ represents db t' (map_run m op)) as (t' & Hr & Hrep).
  { destruct (HF F (le_n F)) as ((t1 & H1 & R1) & H2 & H3). destruct op; cbn [trie_run map_run op_key] in *; [|done|done].
    exists t1. split; [|done]. unfold mbind, prog_bind. by rewrite H1. }
  exists F, t'. split; [|done]. intros fuel Hf. by apply (trie_run_steps F).
Qed.

Lemma trie_runs_spec ops t m :
  represents db t m -> Forall (fun op => bytes_ok (op_key op)) ops ->
  exists F t', (forall fuel, (F <= fuel)%nat -> trie_runs db fuel ops t = (Ret tt, t')) /\ represents db t' (foldl map_run m ops).
Proof.
  intros Hm Hok. revert t m Hm. induction Hok as [|op ops Hk _ IH]; intros t m Hm; [by exists 0%nat, t|].
  destruct (trie_run_spec op t m Hm Hk) as (F1 & t1 & H1 & Hm1). destruct (IH t1 _ Hm1) as (F2 & t2 & H2 & Hm2).
  exists (Nat.max F1 F2), t2. split; [|done]. intros fuel Hf. cbn [trie_runs]. unfold mbind, prog_bind. rewrite H1 by lia. apply H2. lia.
Qed.
End histories.

(** C19: The trie does not remember its history.  Take two tries, each in memory or in part in a
    database of its own, and two sequences of gets, updates and deletes on them, and let the maps
    that result agree.  With enough steps every call of both sequences succeeds, and in the end
    the nodes of the two tries, those in the databases included, form exactly the same tree: the
    same branches, keys and values. *)
Theorem trie_canonical (db db' : bytes -> option node) (t t' : Trie) (m m' : gmap bytes bytes) (ops ops' : list trie_op) :
  represents db t m -> represents db' t' m' ->
  Forall (fun op => bytes_ok (op_key op)) ops -> Forall (fun op => bytes_ok (op_key op)) ops' ->
  foldl map_run m ops = foldl map_run m' ops' ->
  exists F s s' d tr, (forall fuel, (F <= fuel)%nat -> trie_runs db fuel ops t = (Ret tt, s) /\ trie_runs db' fuel ops' t' = (Ret tt, s')) /\
    expand db d (root s) tr /\ expand db' d (root s') tr.
Proof.
  intros Hm Hm' Hok Hok' E. destruct (trie_runs_spec db ops t m Hm Hok) as (F & s & Hr & Hs).
  destruct (trie_runs_spec db' ops' t' m' Hm' Hok') as (F' & s' & Hr' & Hs'). rewrite <- E in Hs'.
  destruct (represents_canonical db db' s s' _ Hs Hs') as (d & tr & He & He').
  exists (Nat.max F F'), s, s', d, tr. split; [|done]. intros fuel Hf. split; [apply Hr|apply Hr']; lia.
Qed.

(** Two keys, one of which is deleted again, and the other key alone in a database. *)
Lemma trie_canonical_witness :
  let leaf := ShortNode [1; 2; 16] (ValueNode [7]) newFlag in
  let db := fun h => if decide (h = replicate 32 9) then Some leaf else None in
  exists F s s' d tr, (forall fuel, (F <= fuel)%nat ->
      trie_runs (fun _ => None) fuel [UpdateOp [0x13] [5]; UpdateOp [0x12] [7]; DeleteOp [0x13]] (mkTrie NilNode 0) = (Ret tt, s) /\
      trie_runs db fuel [GetOp [0x12]] (mkTrie (HashNode (replicate 32 9)) 0) = (Ret tt, s')) /\
    expand (fun _ => None) d (root s) tr /\ expand db d (root s') tr.
Proof.
  intros leaf db.
  apply (trie_canonical (fun _ => None) db (mkTrie NilNode 0) (mkTrie (HashNode (replicate 32 9)) 0) ∅ {[ [0x12] := [7] ]}).
  - apply represents_empty.
  - apply (represents_one _ 3); [solve_bytes|discriminate|]. exists leaf. split; [reflexivity|]. split; [exact I|].
    exists (TVal [7]). split; reflexivity.
  - repeat constructor; unfold is_byte; lia.
  - repeat constructor; unfold is_byte; lia.
  - vm_compute. reflexivity.
Defined.

(** Errors of the trie, for the chain. *)
Definition of_trie {T A} (p : prog T trie_error A) : prog T val_error A := fun t => let '(o, t') := p t in (wrap (fun _ => OfTrie) o, t').

Lemma of_trie_Ret {T A} (p : prog T trie_error A) t a t' : of_trie p t = (Ret a, t') <-> p t = (Ret a, t').
Proof. unfold of_trie. destruct (p t) as [[x|e|] s]; cbn; naive_solver. Qed.

(** The trie over any database and with any number of steps; [root_of] is its Hash. *)
#[local] Obligation Tactic := idtac.
#[export] Program Instance trie_state (db : bytes -> option node) (fuel : nat) (root_of : Trie -> bytes) : StateTrie Trie := {
  st_TryGet k := of_trie (TryGet db fuel k);
  st_TryUpdate k v := of_trie (TryUpdate db fuel k v);
  st_TryDelete k := of_trie (TryDelete db fuel k);
  st_Hash := root_of;
  st_map := represents db;
}.
Next Obligation.
  intros db fuel _ k t m v t' Hk Hm Hr%of_trie_Ret. destruct (trie_methods db t m k [] Hm Hk) as [F HF].
  destruct (HF (Nat.max F fuel) ltac:(lia)) as ((s & Hs & Hrep) & _). apply (TryGet_steps db fuel (Nat.max F fuel)) in Hr; [|lia].
  rewrite Hs in Hr. by injection Hr as <- <-.
Qed.
Next Obligation.
  intros db fuel _ k v t m u t' Hk Hv Hm Hr%of_trie_Ret. destruct (trie_methods db t m k v Hm Hk) as [F HF].
  destruct (HF (Nat.max F fuel) ltac:(lia)) as (_ & (s & Hs & Hrep) & _). apply (TryUpdate_steps db fuel (Nat.max F fuel)) in Hr; [|lia].
  rewrite Hs in Hr. injection Hr as _ <-. by rewrite decide_False in Hrep.
Qed.
Next Obligation.
  intros db fuel _ k t m u t' Hk Hm Hr%of_trie_Ret. destruct (trie_methods db t m k [] Hm Hk) as [F HF].
  destruct (HF (Nat.max F fuel) ltac:(lia)) as (_ & _ & (s & Hs & Hrep)). apply (TryDelete_steps db fuel (Nat.max F fuel)) in Hr; [|lia].
  rewrite Hs in Hr. by injection Hr as _ <-.
Qed.
