(* ===== verification/BindingSpec.v ===== *)
(** What the binding state records: the bound targets with their amounts, their total, and the
    coinbase addresses of pool keys; and how the two ways of connecting a block agree. *)

From S2P Require Import Prelude TxCommon Opcodes Script Hashes Wire Standard Amount Forks Poc PocSpec Block MsgBlock Payload Validate ValidateSpec BindingState.

(** * Blocks as functions on maps *)

Section maps.
Context {HF : HashFunctions} {CL : ChiaLib}.

(** The target a binding output of the new form binds. *)
Definition target_of (o : TxOut) : option bytes :=
  match GetScriptInfo (PkScript o) with
  | (BindingScriptHashTy, pops) =>
      match GetParsedBindingOpcode pops with
      | Ret (_, target) => if len target =? OP_DATA_22 then Some target else None
      | _ => None
      end
  | _ => None
  end.

Definition bind_out (m : gmap bytes bytes) (o : TxOut) : gmap bytes bytes :=
  match target_of o with Some k => <[k := be_encode 8 (Value o)]> m | None => m end.

Definition pool_value (p : BindPoolCoinbaseParams) : bytes := be_encode 4 (Nonce p) ++ CoinbaseScriptAddress p.

(** A payload takes effect for a key that is not bound, or with one of the next five nonces. *)
Definition accepts_nonce (m : gmap bytes bytes) (p : BindPoolCoinbaseParams) : bool :=
  match m !! makePoolPkKey (PoolPK p) with
  | Some v =>
      let old := be_decode (take 4 v) in
      negb ((Nonce p <=? old) || (Nonce p >? uint32 (old + MASSIP0002PayloadNonceGap)))
  | None => true
  end.

Definition set_pool (payload : bytes) (m : gmap bytes bytes) : gmap bytes bytes :=
  match DecodePayload payload with
  | Some p => if accepts_nonce m (Params p) then <[makePoolPkKey (PoolPK (Params p)) := pool_value (Params p)]> m else m
  | None => m
  end.

Definition bind_tx (m : gmap bytes bytes) (tx : MsgTx) : gmap bytes bytes :=
  let m' := foldl bind_out m (TxOuts tx) in
  if IsCoinBase tx then m' else set_pool (Payload tx) m'.

(** The amount the outputs bind. *)
Definition bound_by (o : TxOut) : Z := if target_of o then Value o else 0.
Definition sum_bound (outs : list TxOut) : Z := foldr Z.add 0 (bound_by <$> outs).

(** ** Keys *)

Definition out_ok (o : TxOut) : Prop := bytes_ok (PkScript o).

Lemma target_length o k : target_of o = Some k -> len k = 22.
Proof.
  unfold target_of. destruct (GetScriptInfo _) as [[] pops]; try done. destruct (GetParsedBindingOpcode pops) as [[h t]|e|]; try done.
  destruct (Z.eqb_spec (len t) OP_DATA_22); [|done]. by intros [= <-].
Qed.

Lemma wf_data_ok pop : pop_wf pop -> bytes_ok (pop_data pop).
Proof. intros (v & Hv & _ & Hd). unfold pop_data. case_if; [by rewrite Hd; constructor|]. by destruct Hd as (d & -> & ?). Qed.

Lemma target_ok o k : out_ok o -> target_of o = Some k -> bytes_ok k.
Proof.
  unfold target_of, GetScriptInfo. intros Hok. pose proof (parseScript_wf _ Hok) as Hwf. destruct (parseScript _) as [pops [e|]]; [done|].
  cbn in Hwf. destruct (typeOfScript pops); try done. unfold GetParsedBindingOpcode. destruct (negb _); [done|].
  destruct (index pops 1) as [p1|e|] eqn:H1; [|done|done]. destruct (index pops 2) as [p2|e|] eqn:H2; [|done|done]. cbn.
  apply at_Ret in H2 as [_ H2]. case_if; [|done]. intros [= <-]. apply wf_data_ok. by eapply Forall_lookup_1.
Qed.

Lemma pool_key_length p : g1_valid (PoolPK p) = true -> len (makePoolPkKey (PoolPK p)) = 50.
Proof. intros Hv. apply g1_valid_length in Hv. unfold makePoolPkKey, len. rewrite length_app, Hv. done. Qed.

Lemma decoded_params payload p : bytes_ok payload -> DecodePayload payload = Some p -> payload_valid p /\ bytes_ok (PoolPK (Params p)).
Proof.
  intros Hok Hp. pose proof (decoded_valid _ _ Hok Hp) as [He Hv]. split; [done|]. rewrite He in Hok.
  destruct Hv as (_ & Hpk & _). unfold EncodePayload, Params_Encode in Hok. apply Forall_app in Hok as [_ Hok].
  apply Forall_app in Hok as [Hok _]. by rewrite field_full in Hok by by apply g1_valid_length.
Qed.
End maps.

(** * Runs on a trie *)

Section runs.
Context {HF : HashFunctions} {CL : ChiaLib} {T : Type} {ST : StateTrie T}.
Implicit Types (t : T) (m : gmap bytes bytes).

Lemma fail_if_Ret {S E} b (e : E) (s s' : S) u : fail_if b e s = (Ret u, s') <-> b = false /\ s' = s.
Proof. unfold fail_if. destruct b; cbn; [naive_solver|]. split; [by intros [= _ ->]|]. intros [_ ->]. by destruct u. Qed.

Lemma lift_Ret {S E A} (o : outcome E A) (s s' : S) a : lift o s = (Ret a, s') <-> o = Ret a /\ s' = s.
Proof. unfold lift. naive_solver. Qed.

Lemma be_encode_ne n z : be_encode (S n) z <> [].
Proof. intros E. apply (f_equal length) in E. by rewrite length_be_encode in E. Qed.

Lemma index_out_run o ix loc t m ix' b t' :
  out_ok o -> st_map t m -> indexTxOutPkScriptForMassip2 o ix loc t = (Ret (ix', b), t') ->
  st_map t' (bind_out m o) /\ b = bool_decide (is_Some (target_of o)) /\ (forall k, target_of o = Some k -> m !! k = None).
Proof.
  intros Hok Hm Hr. pose proof (target_ok o) as Htok. unfold indexTxOutPkScriptForMassip2, bind_out, target_of in *.
  destruct (GetScriptInfo (PkScript o)) as [[] pops]; cbn in Hr; try by injection Hr as <- <- <-.
  - apply prog_bind_Ret in Hr as ([f rsh] & t1 & [_ ->]%lift_Ret & Hr). by injection Hr as <- <- <-.
  - apply prog_bind_Ret in Hr as ([f rsh] & t1 & [_ ->]%lift_Ret & Hr). by injection Hr as <- <- <-.
  - apply prog_bind_Ret in Hr as ([h k] & t1 & [Hk ->]%lift_Ret & Hr). apply wrap_Ret in Hk. rewrite Hk in *.
    apply prog_bind_Ret in Hr as ([] & t2 & [Hl ->]%fail_if_Ret & Hr). apply negb_false_iff in Hl. rewrite Hl in *.
    apply prog_bind_Ret in Hr as (buf & t3 & Hget & Hr). apply st_get_law with (m := m) in Hget as [-> Hm3]; [|by auto|done].
    destruct (m !! k) eqn:Hk0; [done|]. apply prog_bind_Ret in Hr as (u & t4 & Hup & Hr). injection Hr as <- <- <-.
    apply st_update_law with (m := m) in Hup; [|by auto|by apply (be_encode_ne 7)|done]. split_and!; [done|done|]. by intros k' [= <-].
Qed.

(** A pool value in the state holds a nonce. *)
Definition pools_ok m : Prop := forall pk v, m !! makePoolPkKey pk = Some v -> 4 <= len v.

Lemma pool_key_ok p : bytes_ok (PoolPK p) -> bytes_ok (makePoolPkKey (PoolPK p)).
Proof. intros H. unfold makePoolPkKey. apply Forall_app. split; [|done]. repeat constructor; unfold is_byte; lia. Qed.

Lemma pool_run payload t m u t' :
  bytes_ok payload -> st_map t m -> CheckNonceAndSetPoolPkCoinbase payload t = (Ret u, t') -> st_map t' (set_pool payload m).
Proof.
  intros Hok Hm. unfold CheckNonceAndSetPoolPkCoinbase, set_pool. destruct (DecodePayload payload) as [p|] eqn:Hp; [|by intros [= _ <-]].
  destruct (decoded_params _ _ Hok Hp) as [(_ & _ & _ & Hn & _) Hpk]. apply pool_key_ok in Hpk.
  intros (old & t1 & Hget & Hr)%prog_bind_Ret. apply st_get_law with (m := m) in Hget as [-> Hm1]; [|done|done]. unfold accepts_nonce.
  assert (forall s, st_map s m -> st_TryUpdate (makePoolPkKey (PoolPK (Params p))) (be_encode 4 (Nonce (Params p)) ++ CoinbaseScriptAddress (Params p)) s = (Ret u, t') ->
    st_map t' (<[makePoolPkKey (PoolPK (Params p)) := pool_value (Params p)]> m)) as Hput.
  { intros s Hs Hup. eapply st_update_law; [done| |done|done]. intros [E _]%app_nil. by apply (be_encode_ne 3) in E. }
  destruct (m !! makePoolPkKey _) as [v|]; [|destruct (_ =? 0) eqn:E0; [done|by eauto]].
  apply prog_bind_Ret in Hr as (n & t2 & [Hs ->]%lift_Ret & Hr). unfold stored_nonce in Hs. destruct (len v <? 4); [done|]. injection Hs as <-.
  destruct ((_ <=? _) || _); cbn [negb]; [by injection Hr as _ <-|by eauto].
Qed.

(** ** The outputs of a transaction *)

(** No target is bound twice. *)
Fixpoint fresh_outs m (outs : list TxOut) : Prop :=
  match outs with
  | [] => True
  | o :: rest => (forall k, target_of o = Some k -> m !! k = None /\ 0 <= Value o <= max_maxwells) /\ fresh_outs (bind_out m o) rest
  end.

Lemma sum_bound_cons o outs : sum_bound (o :: outs) = bound_by o + sum_bound outs.
Proof. done. Qed.

Definition in_supply (a : Amount) : Prop := 0 <= maxwells a <= max_maxwells.

Lemma add_bound o nb nb' t t' :
  (if bool_decide (is_Some (target_of o)) then lift (wrap OfAmount (Amount_AddInt nb (Value o))) else mret nb) t = (Ret nb', t') ->
  in_supply nb ->
  t' = t /\ maxwells nb' = maxwells nb + bound_by o /\ in_supply nb' /\ (is_Some (target_of o) -> 0 <= Value o <= max_maxwells).
Proof.
  unfold bound_by. case_bool_decide as Hs.
  - intros [Ha ->]%lift_Ret Hn. apply wrap_Ret, AddInt_Ret in Ha as (? & ? & ->). destruct Hs as [k ->]. cbn. unfold in_supply in *. split_and!; [done|done|cbn; lia|cbn; lia|]. intros _. lia.
  - intros [= <- <-] Hn. destruct (target_of o); [by destruct Hs|]. split; [done|]. split; [lia|]. split; [done|]. by intros [? ?].
Qed.

Lemma outs_run loc i outs ix nb t m ix' nb' t' :
  Forall out_ok outs -> st_map t m -> in_supply nb -> index_outs true loc i outs ix nb t = (Ret (ix', nb'), t') ->
  st_map t' (foldl bind_out m outs) /\ maxwells nb' = maxwells nb + sum_bound outs /\ in_supply nb' /\ fresh_outs m outs.
Proof.
  intros Hall. revert i ix nb t m. induction Hall as [|o outs Ho _ IH]; intros i ix nb t m Hm Hn; cbn [index_outs negb].
  - intros [= <- <- <-]. unfold sum_bound. cbn. split; [done|]. split; [lia|]. by split.
  - intros ([ix1 b] & t1 & Hout & (nb1 & t2 & Hnb & Hr)%prog_bind_Ret)%prog_bind_Ret.
    apply index_out_run with (m := m) in Hout as (Hm1 & -> & Hfresh); [|done|done].
    apply add_bound in Hnb as (-> & Hnb & Hok1 & Hval); [|done].
    apply (IH _ _ _ _ _ Hm1 Hok1) in Hr as (Hm' & Hs & Hp & Hf). rewrite sum_bound_cons. split; [done|]. split; [lia|]. split; [done|].
    cbn. split; [|done]. intros k Hk. split; [by apply Hfresh|by apply Hval; eexists].
Qed.

(** * The total *)

(** What a target is bound with. *)
Definition weight (k v : bytes) : Z := if len k =? 22 then be_decode v else 0.
Definition bound_total m : Z := map_fold (fun k v acc => weight k v + acc) 0 m.

Lemma total_insert m k v : m !! k = None -> bound_total (<[k := v]> m) = weight k v + bound_total m.
Proof. intros Hk. unfold bound_total. rewrite map_fold_insert_L; [done| |done]. intros. lia. Qed.

Lemma total_replace m k v : len k <> 22 -> bound_total (<[k := v]> m) = bound_total m.
Proof.
  intros Hk. assert (forall w, weight k w = 0) as Hw by (intros w; unfold weight; case_if; bool_to_prop; [lia|done]).
  rewrite <- insert_delete_eq, total_insert, Hw by apply lookup_delete_eq.
  destruct (m !! k) as [w|] eqn:E.
  - unfold bound_total at 2. rewrite (map_fold_delete_L _ _ k w); [by rewrite Hw| |done]. intros. lia.
  - by rewrite delete_id.
Qed.

Lemma total_bind_out m o : (forall k, target_of o = Some k -> m !! k = None /\ 0 <= Value o <= max_maxwells) -> bound_total (bind_out m o) = bound_by o + bound_total m.
Proof.
  intros Hf. unfold bind_out, bound_by. destruct (target_of o) as [k|] eqn:Hk; [|done]. destruct (Hf k eq_refl) as [Hn Hv].
  rewrite total_insert by done. unfold weight. rewrite (target_length _ _ Hk). cbn [Z.eqb Pos.eqb].
  rewrite be_decode_encode, Z.mod_small; [done|]. unfold max_maxwells in Hv. lia.
Qed.

Lemma total_outs m outs : fresh_outs m outs -> bound_total (foldl bind_out m outs) = sum_bound outs + bound_total m.
Proof.
  revert m. induction outs as [|o outs IH]; intros m; [done|]. cbn [fresh_outs foldl]. intros [Ho Hr].
  rewrite IH, total_bind_out, sum_bound_cons by done. lia.
Qed.

Lemma total_set_pool payload m : bytes_ok payload -> bound_total (set_pool payload m) = bound_total m.
Proof.
  intros Hok. unfold set_pool. destruct (DecodePayload payload) as [p|] eqn:Hp; [|done]. case_match; [|done].
  destruct (decoded_params _ _ Hok Hp) as [(_ & Hpk & _) _]. apply total_replace. rewrite pool_key_length by done. lia.
Qed.

(** The key of the total is left alone. *)
Definition stored m : option bytes := m !! keyNetworkBinding.

Lemma stored_outs m outs : stored (foldl bind_out m outs) = stored m.
Proof.
  revert m. induction outs as [|o outs IH]; intros m; [done|]. cbn. rewrite IH. unfold bind_out, stored.
  destruct (target_of o) as [k|] eqn:Hk; [|done]. apply lookup_insert_ne. intros ->. by apply target_length in Hk.
Qed.

Lemma stored_set_pool payload m : bytes_ok payload -> stored (set_pool payload m) = stored m.
Proof.
  intros Hok. unfold set_pool, stored. destruct (DecodePayload payload) as [p|] eqn:Hp; [|done]. case_match; [|done].
  destruct (decoded_params _ _ Hok Hp) as [(_ & Hpk & _) _]. apply lookup_insert_ne. intros E.
  apply (f_equal len) in E. by rewrite pool_key_length in E.
Qed.

(** The state records the total of its bindings. *)
Definition total_recorded m : Prop :=
  match stored m with
  | None => bound_total m = 0
  | Some v => bytes_ok v /\ len v <= 16 /\ be_decode v = bound_total m
  end.

Lemma network_run t m nb t' :
  st_map t m -> total_recorded m -> GetNetworkBinding t = (Ret nb, t') -> st_map t' m /\ maxwells nb = bound_total m /\ in_supply nb.
Proof.
  intros Hm Hrec (v & t1 & Hget & Hr)%prog_bind_Ret.
  apply st_get_law with (m := m) in Hget as [-> Hm1]; [|repeat constructor; unfold is_byte; lia|done]. unfold total_recorded, stored in Hrec.
  destruct (m !! keyNetworkBinding) as [v|]; [|injection Hr as <- <-; rewrite Hrec; unfold in_supply, max_maxwells; cbn; split; [done|lia]].
  apply prog_bind_Ret in Hr as (u & t2 & [Hu ->]%lift_Ret & [Ha ->]%lift_Ret). destruct Hrec as (Hok & Hl & Hv).
  apply wrap_Ret in Hu. rewrite FromBytes_decode in Hu by done. injection Hu as <-. apply wrap_Ret in Ha. unfold NewAmount in Ha.
  rewrite checkedAmount_spec in Ha.
  case_decide as Hle; [|done]. injection Ha as <-. pose proof (be_decode_range v Hok). split; [done|]. split; [done|].
  rewrite max_value in Hle. unfold in_supply, maxwells, max_maxwells. cbn in *. lia.
Qed.

Lemma put_run nb t m u t' :
  in_supply nb -> st_map t m -> PutNetworkBinding nb t = (Ret u, t') ->
  exists v, st_map t' (<[keyNetworkBinding := v]> m) /\ bytes_ok v /\ len v <= 16 /\ be_decode v = maxwells nb /\ Uint128_Bytes (a_value nb) = Ret v.
Proof.
  intros Hn Hm (b & t1 & [Hb ->]%lift_Ret & Hup)%prog_bind_Ret. apply wrap_Ret in Hb.
  destruct (Uint128_Bytes_Ret (Amount_Value nb)) as (b' & Hb' & Hl & Hv & Hok); [unfold u128_ok; unfold in_supply, maxwells, max_maxwells, Amount_Value in *; lia|].
  assert (b' = b) as -> by congruence. exists b. split_and!; [|done|unfold len; lia|done|done].
  eapply st_update_law; [repeat constructor; unfold is_byte; lia| |done|done]. by intros ->.
Qed.

(** * Whole blocks *)

(** The outputs the store knows bind positive values. *)
Definition sound_store (txStore : TxStore) : Prop :=
  forall h td tx, txStore !! h = Some td -> td_Tx td = Some tx -> Forall (fun o => is_Some (target_of o) -> 0 < Value o < 2 ^ 63) (TxOuts tx).

Lemma index_in_run o ix loc t ix' b t' :
  indexTxInPkScriptForMassip2 o ix loc t = (Ret (ix', b), t') ->
  if target_of o then b = true else b = false /\ t' = t.
Proof.
  unfold indexTxInPkScriptForMassip2, target_of. intros Hr.
  destruct (GetScriptInfo (PkScript o)) as [[] pops]; cbn in Hr; try by injection Hr as <- <- <-.
  1, 2: apply prog_bind_Ret in Hr as ([f rsh] & t1 & [_ ->]%lift_Ret & Hr); by injection Hr as <- <- <-.
  apply prog_bind_Ret in Hr as ([h k] & t1 & [Hk ->]%lift_Ret & Hr). apply wrap_Ret in Hk. rewrite Hk.
  apply prog_bind_Ret in Hr as ([] & t2 & [Hl ->]%fail_if_Ret & Hr). apply negb_false_iff in Hl. rewrite Hl.
  apply prog_bind_Ret in Hr as (buf & t3 & _ & Hr). destruct buf; [|done].
  apply prog_bind_Ret in Hr as (u & t4 & _ & Hr). by injection Hr as <- <- <-.
Qed.

(** Taking a positive amount off the total fails. *)
Lemma no_subtraction nb v : 0 < v < 2 ^ 63 -> forall a, wrap OfAmount (Amount_AddInt nb (int64 (- v))) <> Ret a.
Proof. intros Hv a Ha. apply wrap_Ret, AddInt_Ret in Ha as [Ha _]. rewrite int64_small in Ha; lia. Qed.

Lemma ins_run place store loc ins ix nb t ix' nb' t' :
  sound_store store -> index_ins place store loc ins ix nb t = (Ret (ix', nb'), t') -> nb' = nb /\ t' = t.
Proof.
  intros Hs. revert ix nb t. induction ins as [|i ins IH]; intros ix nb t; cbn [index_ins]; [by intros [= <- <- <-]|].
  destruct (store !! _) as [td|] eqn:Htd; [|done]. destruct (td_Err td); [done|].
  intros (p & t1 & [_ ->]%lift_Ret & (tx & t2 & [Htx ->]%lift_Ret & (out & t3 & [Hout ->]%lift_Ret & Hr)%prog_bind_Ret)%prog_bind_Ret)%prog_bind_Ret.
  unfold deref in Htx. destruct (td_Tx td) as [tx'|] eqn:Hd; [|done]. injection Htx as ->. apply at_Ret in Hout as [_ Hout].
  pose proof (Forall_lookup_1 _ _ _ _ (Hs _ _ _ Htd Hd) Hout) as Hpos. cbn beta in Hpos. destruct (negb _).
  - apply prog_bind_Ret in Hr as (ix1 & t4 & [_ ->]%lift_Ret & Hr). by eapply IH.
  - apply prog_bind_Ret in Hr as ([ix1 b] & t4 & Hin & (nb1 & t5 & Hnb & Hr)%prog_bind_Ret). apply index_in_run in Hin.
    destruct (target_of out); [|destruct Hin as [-> ->]; injection Hnb as <- <-; by eapply IH].
    subst b. apply lift_Ret in Hnb as [Hnb _]. destruct (no_subtraction nb (Value out) (Hpos ltac:(by eexists)) nb1 Hnb).
Qed.

Definition tx_ok (tx : MsgTx) : Prop := Forall out_ok (TxOuts tx) /\ bytes_ok (Payload tx).

(** The state after some transactions: the map, and the total carried along. *)
Definition carries (nb : Amount) m : Prop := in_supply nb /\ maxwells nb = bound_total m.

Lemma bind_tx_carries tx m nb outs_nb :
  tx_ok tx -> carries nb m -> maxwells outs_nb = maxwells nb + sum_bound (TxOuts tx) -> in_supply outs_nb -> fresh_outs m (TxOuts tx) ->
  carries outs_nb (bind_tx m tx) /\ stored (bind_tx m tx) = stored m.
Proof.
  intros [Ho Hp] [_ Hnb] Hsum Hin Hf. unfold bind_tx. destruct (IsCoinBase tx).
  - split; [|apply stored_outs]. split; [done|]. rewrite total_outs by done. lia.
  - rewrite stored_set_pool, stored_outs by done. split; [|done]. split; [done|]. rewrite total_set_pool, total_outs by done. lia.
Qed.

Definition sum_txs (txs : list MsgTx) : Z := foldr Z.add 0 ((fun tx => sum_bound (TxOuts tx)) <$> txs).

Lemma txs_run db height store seen txs locs ix nb t m ix' nb' t' :
  EnforceMASSIP0002WarmUp height = true -> sound_store store -> Forall tx_ok txs -> st_map t m -> carries nb m ->
  index_txs db height store seen txs locs ix nb t = (Ret (ix', nb'), t') ->
  st_map t' (foldl bind_tx m txs) /\ carries nb' (foldl bind_tx m txs) /\ stored (foldl bind_tx m txs) = stored m /\
  maxwells nb' = maxwells nb + sum_txs txs.
Proof.
  intros Hw Hs Hall. revert seen locs ix nb t m. induction Hall as [|tx txs Htx _ IH]; intros seen locs ix nb t m Hm Hc; cbn [index_txs].
  - intros [= <- <- <-]. unfold sum_txs. cbn. split_and!; [done|apply Hc..|done|lia].
  - rewrite Hw. intros (loc & t1 & [_ ->]%lift_Ret & ([ix1 nb1] & t2 & Hins & ([ix2 nb2] & t3 & Houts & (u & t4 & Hpay & Hr)%prog_bind_Ret)%prog_bind_Ret)%prog_bind_Ret)%prog_bind_Ret.
    assert (nb1 = nb /\ t2 = t) as [-> ->].
    { destruct (IsCoinBase tx); [by injection Hins as <- <- <-|by eapply ins_run]. }
    apply outs_run with (m := m) in Houts as (Hm3 & Hsum & Hin & Hf); [|apply Htx|done|apply Hc].
    destruct (bind_tx_carries tx m nb nb2 Htx Hc Hsum Hin Hf) as [Hc' Hst].
    assert (st_map t4 (bind_tx m tx)) as Hm4.
    { unfold bind_tx. destruct (IsCoinBase tx); cbn in Hpay; [by injection Hpay as _ <-|]. eapply pool_run; [apply Htx|done|done]. }
    destruct (IH _ _ _ _ _ _ Hm4 Hc' Hr) as (? & ? & Hst' & Hsum'). cbn [foldl]. rewrite Hst', Hst. split_and!; [done|done|done|].
    unfold sum_txs in *. cbn. lia.
Qed.

(** Before the warm-up outputs and payloads leave the state alone. *)
Lemma outs_cold loc i outs ix nb t ix' nb' t' : index_outs false loc i outs ix nb t = (Ret (ix', nb'), t') -> nb' = nb /\ t' = t.
Proof.
  revert i ix. induction outs as [|o outs IH]; intros i ix; cbn [index_outs negb]; [by intros [= <- <- <-]|].
  intros (ix1 & t1 & [_ ->]%lift_Ret & Hr)%prog_bind_Ret. by eapply IH.
Qed.

Lemma txs_cold db height store seen txs locs ix nb t ix' nb' t' :
  EnforceMASSIP0002WarmUp height = false -> sound_store store ->
  index_txs db height store seen txs locs ix nb t = (Ret (ix', nb'), t') -> nb' = nb /\ t' = t.
Proof.
  intros Hw Hs. revert seen locs ix nb t. induction txs as [|tx txs IH]; intros seen locs ix nb t; cbn [index_txs]; [by intros [= <- <- <-]|].
  rewrite Hw, andb_false_r.
  intros (loc & t1 & [_ ->]%lift_Ret & ([ix1 nb1] & t2 & Hins & ([ix2 nb2] & t3 & Houts & ([] & t4 & [= <-] & Hr)%prog_bind_Ret)%prog_bind_Ret)%prog_bind_Ret)%prog_bind_Ret.
  assert (nb1 = nb /\ t2 = t) as [-> ->] by (destruct (IsCoinBase tx); [by injection Hins as <- <- <-|by eapply ins_run]).
  apply outs_cold in Houts as [-> ->]. by eapply IH.
Qed.

Lemma index_cold db height txs locs store t m data t' :
  EnforceMASSIP0002WarmUp height = false -> sound_store store -> st_map t m -> total_recorded m ->
  indexBlockAddrs db height txs (Ret locs) store t = (Ret data, t') -> st_map t' m.
Proof.
  intros Hw Hs Hm Hrec. unfold indexBlockAddrs. rewrite Hw. cbn [andb].
  intros (l & t1 & [[= <-] ->]%lift_Ret & (nb & t2 & Hnb & ([ix nb'] & t3 & Htxs & ([] & t4 & [= <-] & [= _ <-])%prog_bind_Ret)%prog_bind_Ret)%prog_bind_Ret)%prog_bind_Ret.
  apply (network_run _ _ _ _ Hm Hrec) in Hnb as (Hm2 & _). by apply txs_cold in Htxs as [_ ->].
Qed.

(** The bindings of a block: they take effect from the warm-up on. *)
Definition bind_block (height : Z) m (txs : list MsgTx) : gmap bytes bytes :=
  if EnforceMASSIP0002WarmUp height then foldl bind_tx m txs else m.

(** C16: attaching a block keeps the total.  Let a trie stand for a state that records, under its
    own key, the sum of the amounts of all bound targets, and let every binding output of the
    transactions in the store have a positive value.  When [indexBlockAddrs] returns for a block, whatever its height, its
    outputs and its pool payloads, its state records the sum again, and it is the old one with
    the targets of the block bound, in order, and its payloads applied; a block before the
    warm-up height changes nothing. *)
Theorem binding_total_kept db height txs locs store t m data t' :
  sound_store store -> Forall tx_ok txs -> st_map t m -> total_recorded m ->
  indexBlockAddrs db height txs (Ret locs) store t = (Ret data, t') ->
  exists m', st_map t' m' /\ total_recorded m' /\ base.delete keyNetworkBinding m' = base.delete keyNetworkBinding (bind_block height m txs).
Proof.
  intros Hs Hall Hm Hrec. unfold bind_block. destruct (EnforceMASSIP0002WarmUp height) eqn:Hw; [|by exists m; split_and!; [eapply index_cold| |]].
  unfold indexBlockAddrs. rewrite Hw.
  intros (l & t1 & [[= <-] ->]%lift_Ret & (nb & t2 & Hnb & ([ix nb'] & t3 & Htxs & (u & t4 & Hput & [= <- <-])%prog_bind_Ret)%prog_bind_Ret)%prog_bind_Ret)%prog_bind_Ret.
  destruct (network_run _ _ _ _ Hm Hrec Hnb) as (Hm2 & Hbt & Hin).
  destruct (txs_run _ _ _ _ _ _ _ _ _ _ _ _ _ Hw Hs Hall Hm2 (conj Hin Hbt) Htxs) as (Hm3 & [Hin' Hbt'] & Hst & _).
  destruct (negb (Amount_Cmp nb nb' =? 0)) eqn:Hcmp; cbn in Hput.
  - destruct (put_run _ _ _ _ _ Hin' Hm3 Hput) as (v & Hm4 & Hok & Hl & Hv & _). exists (<[keyNetworkBinding := v]> (foldl bind_tx m txs)).
    split_and!; [done| |by rewrite delete_insert_eq]. unfold total_recorded, stored. rewrite lookup_insert_eq, total_replace by done. split_and!; [done|done|lia].
  - injection Hput as _ <-. exists (foldl bind_tx m txs). split_and!; [done| |done]. unfold total_recorded in *. rewrite Hst.
    assert (maxwells nb' = maxwells nb) as E.
    { apply negb_false_iff, Z.eqb_eq in Hcmp. unfold Amount_Cmp, Uint128_Cmp in Hcmp. unfold maxwells.
      destruct (Z.compare_spec (u_value (a_value nb)) (u_value (a_value nb'))); (done || lia). }
    rewrite <- Hbt', E, Hbt. by destruct (stored m).
Qed.

(** An input that spends a binding made after the warm-up. *)
Definition withdraws (db : Hash -> option BlockPlace) (txStore : TxStore) (i : TxIn) : Prop :=
  exists td tx out p, txStore !! op_Hash (PreviousOutPoint i) = Some td /\ td_Tx td = Some tx /\
    TxOuts tx !! Z.to_nat (op_Index (PreviousOutPoint i)) = Some out /\ is_Some (target_of out) /\ 0 < Value out < 2 ^ 63 /\
    db (op_Hash (PreviousOutPoint i)) = Some p /\ EnforceMASSIP0002WarmUp (bp_Height p) = true.

Lemma withdraw_ins db height seen store loc ins i ix nb t r t' :
  i ∈ ins -> withdraws db store i -> index_ins (place_of db height seen) store loc ins ix nb t <> (Ret r, t').
Proof.
  intros Hi (td & tx & out & p & Htd & Htx & Hout & Htg & Hv & Hp & Hw). revert ix nb t.
  induction ins as [|j ins IH]; intros ix nb t; [by apply not_elem_of_nil in Hi|]. cbn [index_ins].
  apply elem_of_cons in Hi as [<-|Hi].
  - rewrite Htd, Htx. destruct (td_Err td); [done|]. assert (place_of db height seen (op_Hash (PreviousOutPoint i)) = Ret p) as -> by (unfold place_of; by rewrite Hp).
    intros (p' & t1 & [[= <-] ->]%lift_Ret & (tx' & t2 & [[= <-] ->]%lift_Ret & (out' & t3 & [Ho ->]%lift_Ret & Hr)%prog_bind_Ret)%prog_bind_Ret)%prog_bind_Ret.
    apply at_Ret in Ho as [_ Ho]. assert (out' = out) as -> by congruence. rewrite Hw in Hr. cbn [negb] in Hr.
    apply prog_bind_Ret in Hr as ([ix1 b] & t4 & Hin & (nb1 & t5 & Hnb & _)%prog_bind_Ret). apply index_in_run in Hin.
    destruct Htg as [k Hk]. rewrite Hk in Hin. subst b. apply lift_Ret in Hnb as [Hnb _]. by apply (no_subtraction nb (Value out) Hv) in Hnb.
  - destruct (store !! op_Hash (PreviousOutPoint j)) as [td'|]; [|done]. destruct (td_Err td'); [done|].
    intros (p' & t1 & _ & (tx' & t2 & _ & (out' & t3 & _ & Hr)%prog_bind_Ret)%prog_bind_Ret)%prog_bind_Ret. destruct (negb _).
    + apply prog_bind_Ret in Hr as (ix1 & t4 & _ & Hr). by apply IH in Hr.
    + apply prog_bind_Ret in Hr as ([ix1 b] & t4 & _ & (nb1 & t5 & _ & Hr)%prog_bind_Ret). by apply IH in Hr.
Qed.

Lemma withdraw_txs db height store seen txs tx i locs ix nb t r t' :
  tx ∈ txs -> IsCoinBase tx = false -> i ∈ TxIns tx -> withdraws db store i -> index_txs db height store seen txs locs ix nb t <> (Ret r, t').
Proof.
  intros Htx Hcb Hi Hw. revert seen locs ix nb t. induction txs as [|tx' txs IH]; intros seen locs ix nb t; [by apply not_elem_of_nil in Htx|].
  cbn [index_txs]. intros (loc & t1 & _ & ([ix1 nb1] & t2 & Hins & ([ix2 nb2] & t3 & _ & (u & t4 & _ & Hr)%prog_bind_Ret)%prog_bind_Ret)%prog_bind_Ret)%prog_bind_Ret.
  apply elem_of_cons in Htx as [<-|Htx]; [|by apply IH in Hr]. rewrite Hcb in Hins. by eapply withdraw_ins in Hins.
Qed.

(** C40: withdrawing a binding stops the node: when a block that extends the index has a
    transaction that spends an output that bound a positive amount after the warm-up height,
    [SyncAttachBlock] panics, because the amount is taken off the total by adding its negation,
    which [AddInt] refuses as an underflow, and the error is logged at the level PANIC. *)
Theorem withdrawal_panics tip submit db header txs locs store t tx i :
  tip = Ret (bh_Previous header, bh_Height header - 1) -> 0 < bh_Height header < 2 ^ 64 ->
  tx ∈ txs -> IsCoinBase tx = false -> i ∈ TxIns tx -> withdraws db store i ->
  exists t', SyncAttachBlock tip submit db header txs locs store t = (Panic, t').
Proof.
  intros -> Hh Htx Hcb Hi Hw. unfold SyncAttachBlock. rewrite bind_lift_Ret.
  replace (bh_Height header - 1 + 1) with (bh_Height header) by lia. rewrite uint64_small by lia.
  rewrite Z.eqb_refl. cbn [Hash_IsEqual andb]. rewrite bool_decide_true by done. unfold mbind, prog_bind, log_panic at 1.
  destruct (indexBlockAddrs _ _ _ _ _ t) as [[data|e|] t'] eqn:Hr; [|by eexists..].
  exfalso. unfold indexBlockAddrs in Hr.
  apply prog_bind_Ret in Hr as (l & t1 & _ & (nb & t2 & _ & ([ix nb'] & t3 & Htxs & _)%prog_bind_Ret)%prog_bind_Ret).
  by eapply withdraw_txs in Htxs.
Qed.

(** * Pool keys *)

Definition nonce_of (v : option bytes) : Z := match v with Some v => be_decode (take 4 v) | None => 0 end.

Lemma nonce_pool_value p : 0 < Nonce p < 2 ^ 32 -> nonce_of (Some (pool_value p)) = Nonce p.
Proof.
  intros Hn. unfold nonce_of, pool_value. rewrite (take_app_length' _ _ 4) by (by rewrite length_be_encode).
  rewrite be_decode_encode. apply Z.mod_small. lia.
Qed.

Lemma uint32_le z : 0 <= z -> uint32 z <= z.
Proof. intros Hz. apply Z.mod_le; lia. Qed.

Lemma nonce_nonneg m k : (forall v, m !! k = Some v -> bytes_ok v) -> 0 <= nonce_of (m !! k).
Proof. intros Hok. destruct (m !! k) as [v|]; cbn; [|done]. apply be_decode_range, Forall_take. by apply Hok. Qed.

(** the address of a pool key changes only forward: a payload changes at most the entry of
    its own key, only when the key has signed it, to its address and nonce, and the new nonce
    is larger than the old one, by at most five when the key was bound; so a payload that has
    taken effect once has no effect again.  [GetPoolPkCoinbase] then returns what was set. *)
Theorem pool_nonce_increases payload t m u t' k :
  bytes_ok payload -> (forall k v, m !! k = Some v -> bytes_ok v) -> st_map t m ->
  CheckNonceAndSetPoolPkCoinbase payload t = (Ret u, t') ->
  exists m', st_map t' m' /\
    (m' !! k = m !! k \/
     exists p, DecodePayload payload = Some p /\ payload_valid p /\ k = makePoolPkKey (PoolPK (Params p)) /\
       m' !! k = Some (pool_value (Params p)) /\ nonce_of (m !! k) < Nonce (Params p) /\
       (is_Some (m !! k) -> Nonce (Params p) <= nonce_of (m !! k) + MASSIP0002PayloadNonceGap) /\
       set_pool payload m' = m' /\
       forall a t'', GetPoolPkCoinbase (PoolPK (Params p)) t' = (Ret a, t'') -> a = (CoinbaseScriptAddress (Params p), Nonce (Params p))).
Proof.
  intros Hok Hm Hst Hr. exists (set_pool payload m). assert (st_map t' (set_pool payload m)) as Hst' by by eapply pool_run. split; [done|].
  unfold set_pool in *. destruct (DecodePayload payload) as [p|] eqn:Hp; [|by left]. destruct (decoded_params _ _ Hok Hp) as [Hv Hpk].
  pose proof Hv as (_ & _ & _ & Hn & _). destruct (accepts_nonce m (Params p)) eqn:Ha; [|by left].
  destruct (decide (k = makePoolPkKey (PoolPK (Params p)))) as [->|Hne]; [right|left; by rewrite lookup_insert_ne].
  pose proof (nonce_nonneg m (makePoolPkKey (PoolPK (Params p))) (Hm _)) as Hnn.
  exists p. split_and!; [done|done|done|by rewrite lookup_insert_eq| | | |].
  - unfold accepts_nonce in Ha. destruct (m !! _) as [v|]; cbn; [|lia]. cbn in Ha. bool_to_prop. lia.
  - unfold accepts_nonce in Ha. destruct (m !! _) as [v|]; [|by intros [? ?]]. intros _. cbn in *. bool_to_prop.
    pose proof (uint32_le (be_decode (take 4 v) + MASSIP0002PayloadNonceGap) ltac:(unfold MASSIP0002PayloadNonceGap; lia)). lia.
  - unfold accepts_nonce. rewrite lookup_insert_eq. change (be_decode (take 4 (pool_value (Params p)))) with (nonce_of (Some (pool_value (Params p)))).
    rewrite nonce_pool_value, (proj2 (Z.leb_le _ _)) by lia. done.
  - intros a t'' (v & t1 & Hget & Hg)%prog_bind_Ret. apply st_get_law with (m := <[makePoolPkKey (PoolPK (Params p)) := pool_value (Params p)]> m) in Hget as [-> _]; [|by apply pool_key_ok|done].
    rewrite lookup_insert_eq in Hg. apply prog_bind_Ret in Hg as (n & t2 & [Hsn ->]%lift_Ret & Hg). unfold stored_nonce in Hsn.
    destruct (len _ <? 4); [done|]. apply Ret_inj in Hsn. apply (f_equal fst), Ret_inj in Hg. subst a.
    rewrite <- Hsn. change (be_decode (take 4 (pool_value (Params p)))) with (nonce_of (Some (pool_value (Params p)))).
    rewrite nonce_pool_value by lia. f_equal.
Qed.

(** * Connecting on a side chain *)

Lemma set_pool_idem payload m : bytes_ok payload -> set_pool payload (set_pool payload m) = set_pool payload m.
Proof.
  intros Hok. unfold set_pool. destruct (DecodePayload payload) as [p|] eqn:Hp; [|done].
  destruct (decoded_params _ _ Hok Hp) as [(_ & _ & _ & Hn & _) _]. destruct (accepts_nonce m (Params p)) eqn:Ha; [|by rewrite Ha].
  replace (accepts_nonce (<[_ := _]> m) (Params p)) with false; [done|]. unfold accepts_nonce. rewrite lookup_insert_eq.
  change (be_decode (take 4 (pool_value (Params p)))) with (nonce_of (Some (pool_value (Params p)))).
  by rewrite nonce_pool_value, (proj2 (Z.leb_le _ _)) by lia.
Qed.

Lemma set_pool_bind payload m o : bytes_ok payload -> bind_out (set_pool payload m) o = set_pool payload (bind_out m o).
Proof.
  intros Hok. unfold set_pool, bind_out. destruct (DecodePayload payload) as [p|] eqn:Hp; [|done]. destruct (target_of o) as [k|] eqn:Hk; [|done].
  destruct (decoded_params _ _ Hok Hp) as [(_ & Hpk & _) _].
  assert (k <> makePoolPkKey (PoolPK (Params p))) as Hne.
  { intros E. apply (f_equal len) in E. by rewrite (target_length _ _ Hk), pool_key_length in E. }
  replace (accepts_nonce (<[k := _]> m) (Params p)) with (accepts_nonce m (Params p)).
  - destruct (accepts_nonce m (Params p)); [|done]. by rewrite insert_insert_ne.
  - unfold accepts_nonce. by rewrite lookup_insert_ne.
Qed.

Lemma set_pool_outs payload outs m : bytes_ok payload -> foldl bind_out (set_pool payload m) outs = set_pool payload (foldl bind_out m outs).
Proof. intros Hok. revert m. induction outs as [|o outs IH]; intros m; [done|]. cbn. by rewrite set_pool_bind, IH. Qed.

Definition connected (coinbase : bool) (payload : bytes) m (outs : list TxOut) : gmap bytes bytes :=
  if coinbase then foldl bind_out m outs else match outs with [] => m | _ => set_pool payload (foldl bind_out m outs) end.

Lemma connected_cons cb payload m o outs :
  bytes_ok payload -> connected cb payload (if cb then bind_out m o else set_pool payload (bind_out m o)) outs = connected cb payload m (o :: outs).
Proof.
  intros Hok. unfold connected. destruct cb; [done|]. cbn [foldl]. destruct outs as [|o' outs]; [done|]. by rewrite set_pool_outs, set_pool_idem.
Qed.

Lemma connect_outs_run cb payload loc outs ix nb t m ix' nb' t' :
  bytes_ok payload -> Forall out_ok outs -> st_map t m -> in_supply nb -> connect_outs cb payload loc outs ix nb t = (Ret (ix', nb'), t') ->
  st_map t' (connected cb payload m outs) /\ maxwells nb' = maxwells nb + sum_bound outs /\ in_supply nb'.
Proof.
  intros Hpok Hall. revert ix nb t m. induction Hall as [|o outs Ho _ IH]; intros ix nb t m Hm Hn; cbn [connect_outs].
  - intros [= <- <- <-]. unfold sum_bound, connected. cbn. split; [by destruct cb|]. split; [lia|done].
  - intros ([ix1 b] & t1 & Hout & (nb1 & t2 & Hnb & (u & t3 & Hpay & Hr)%prog_bind_Ret)%prog_bind_Ret)%prog_bind_Ret.
    apply index_out_run with (m := m) in Hout as (Hm1 & -> & _); [|done|done].
    apply add_bound in Hnb as (-> & Hnb & Hok1 & _); [|done].
    assert (st_map t3 (if cb then bind_out m o else set_pool payload (bind_out m o))) as Hm3.
    { destruct cb; cbn in Hpay; [by injection Hpay as _ <-|by eapply pool_run]. }
    apply (IH _ _ _ _ Hm3 Hok1) in Hr as (Hm' & Hs & Hp). rewrite connected_cons in Hm' by done. rewrite sum_bound_cons. split; [done|]. split; [lia|done].
Qed.

Lemma connect_txs_run txs locs ix nb t m ix' nb' t' :
  Forall tx_ok txs -> Forall (fun tx => TxOuts tx <> []) txs -> st_map t m -> in_supply nb -> connect_txs txs locs ix nb t = (Ret (ix', nb'), t') ->
  st_map t' (foldl bind_tx m txs) /\ maxwells nb' = maxwells nb + sum_txs txs /\ in_supply nb'.
Proof.
  intros Hall. revert locs ix nb t m. induction Hall as [|tx txs [Ho Hp] _ IH]; intros locs ix nb t m Hne Hm Hn; cbn [connect_txs].
  - intros [= <- <- <-]. unfold sum_txs. cbn. split; [done|]. split; [lia|done].
  - apply Forall_cons in Hne as [Hne Hrest].
    intros (loc & t1 & [_ ->]%lift_Ret & ([ix1 nb1] & t2 & Hc & Hr)%prog_bind_Ret)%prog_bind_Ret.
    apply connect_outs_run with (m := m) in Hc as (Hm2 & Hs2 & Hn2); [|done..].
    assert (connected (IsCoinBase tx) (Payload tx) m (TxOuts tx) = bind_tx m tx) as E.
    { unfold connected, bind_tx. destruct (IsCoinBase tx); [done|]. by destruct (TxOuts tx). }
    rewrite E in Hm2. destruct (IH _ _ _ _ _ Hrest Hm2 Hn2 Hr) as (Hm' & Hs' & Hn'). unfold sum_txs in *. cbn. split; [done|]. split; [lia|done].
Qed.

(** The total is written when it changes, in both. *)
Lemma put_if_run nb nb' t m u t' :
  in_supply nb' -> st_map t m -> (if negb (Amount_Cmp nb nb' =? 0) then PutNetworkBinding nb' else mret tt) t = (Ret u, t') ->
  exists v, Uint128_Bytes (a_value nb') = Ret v /\ st_map t' (if negb (Amount_Cmp nb nb' =? 0) then <[keyNetworkBinding := v]> m else m).
Proof.
  intros Hin Hm. destruct (Uint128_Bytes_Ret (a_value nb')) as (w & Hw & _); [unfold u128_ok; unfold in_supply, maxwells, max_maxwells in *; lia|].
  destruct (negb _); intros Hr.
  - destruct (put_run _ _ _ _ _ Hin Hm Hr) as (v & Hm' & _ & _ & _ & Hv). by exists v.
  - injection Hr as _ <-. by exists w.
Qed.

(** C17: the state computed for a block on a side chain is the one the index computes when the
    block is attached.  From tries that stand for one state, which records the total of its
    bindings, for a block whose transactions have outputs, and when every binding output of the
    transactions in the store has a positive value, [connectState] (which applies the payload of a transaction once per
    output and skips the inputs) and [indexBlockAddrs] (once per transaction) end, when both
    return, in tries that stand for one state; from the warm-up height on, the root of the first
    is the one in the header, and before it neither changes the state. *)
Theorem connect_matches_attach db header txs locs store t1 t2 m u data t1' t2' :
  sound_store store -> Forall tx_ok txs -> Forall (fun tx => TxOuts tx <> []) txs ->
  st_map t1 m -> st_map t2 m -> total_recorded m ->
  connectState header txs (Ret locs) t1 = (Ret u, t1') ->
  indexBlockAddrs db (bh_Height header) txs (Ret locs) store t2 = (Ret data, t2') ->
  exists m', st_map t1' m' /\ st_map t2' m' /\
    if EnforceMASSIP0002WarmUp (bh_Height header) then st_Hash t1' = bh_BindingRoot header else m' = m.
Proof.
  intros Hs Hall Hne Hm1 Hm2 Hrec Hc Hi. destruct (EnforceMASSIP0002WarmUp (bh_Height header)) eqn:Hw.
  2:{ exists m. unfold connectState in Hc. rewrite Hw in Hc. injection Hc as _ <-. split_and!; [done|by eapply index_cold|done]. }
  unfold connectState in Hc. rewrite Hw in Hc. cbn [negb] in Hc.
  apply prog_bind_Ret in Hc as (l & s1 & [[= <-] ->]%lift_Ret & (nb & s2 & Hnb & ([ix nbc] & s3 & Htxs & (u' & s4 & Hput & (root & s5 & [= <- <-] & [Hroot ->]%fail_if_Ret)%prog_bind_Ret)%prog_bind_Ret)%prog_bind_Ret)%prog_bind_Ret).
  destruct (network_run _ _ _ _ Hm1 Hrec Hnb) as (Hms2 & Hbt & Hin).
  destruct (connect_txs_run _ _ _ _ _ _ _ _ _ Hall Hne Hms2 Hin Htxs) as (Hms3 & Hsum & Hinc).
  unfold indexBlockAddrs in Hi. rewrite Hw in Hi. cbn [andb] in Hi.
  apply prog_bind_Ret in Hi as (l & r1 & [[= <-] ->]%lift_Ret & (nb' & r2 & Hnb' & ([ix' nbi] & r3 & Htxs' & (v & r4 & Hput' & [= _ <-])%prog_bind_Ret)%prog_bind_Ret)%prog_bind_Ret).
  destruct (network_run _ _ _ _ Hm2 Hrec Hnb') as (Hmr2 & Hbt' & Hin').
  destruct (txs_run _ _ _ _ _ _ _ _ _ _ _ _ _ Hw Hs Hall Hmr2 (conj Hin' Hbt') Htxs') as (Hmr3 & _ & _ & Hsum').
  assert (nb' = nb) as -> by (rewrite <- (amount_maxwells nb), <- (amount_maxwells nb'); congruence).
  assert (nbi = nbc) as -> by (rewrite <- (amount_maxwells nbi), <- (amount_maxwells nbc); congruence).
  destruct (put_if_run _ _ _ _ _ _ Hinc Hms3 Hput) as (w & Hw1 & Hm1'). destruct (put_if_run _ _ _ _ _ _ Hinc Hmr3 Hput') as (w' & Hw2 & Hm2').
  assert (w' = w) as -> by congruence. eexists. split_and!; [exact Hm1'|exact Hm2'|]. by apply negb_false_iff, bytes_Equal_true in Hroot.
Qed.
End runs.
