(* ===== verification/Coinbase.v ===== *)
(** The coinbase of a block: blockchain/validate_coinbase.go and [calcNodeReward] of
    blockchain/template.go. *)

From S2P Require Import Prelude AddressText TxCommon Opcodes Script Hashes Wire Standard Amount Forks Rewards Poc Block MsgBlock Payload Validate BindingState.

(** * Definitions *)

(** [pkToScriptHash]: the address of a hash of 20 bytes always exists. *)
Definition pkToScriptHash {HF : HashFunctions} (pubKey : bytes) : bytes := AddressText.Hash160 pubKey.

(** [database.Rank], without the rank and the list of transactions. *)
Record Rank := mkRank { r_Value : Z; r_ScriptHash : bytes; r_Weight : Uint128 }.
Definition rank_node (r : Rank) : StakingNode := mkStakingNode (r_Value r) (r_Weight r).

Definition calcNodeReward (totalReward : Amount) (totalWeight nodeWeight : Uint128) : checked Amount :=
  u ← Uint128_Mul (Amount_Value totalReward) nodeWeight;
  u ← Uint128_Div u totalWeight;
  NewAmount u.

(** The inputs of a coinbase after the first prove a binding of the miner's key. *)
Fixpoint check_coinbase_inputs (txStore : TxStore) (headerPkHash : bytes) (nextBlockHeight : Z) (total : Amount) (ins : list TxIn) : val Amount :=
  match ins with
  | [] => Ret total
  | txIn :: rest =>
      let op := PreviousOutPoint txIn in
      '(originTx, tx, originTxMaxwell) ← check_input nextBlockHeight txStore true op;
      total' ← wrap OfAmount (Amount_Add total originTxMaxwell);
      out ← index (TxOuts tx) (op_Index op);
      let '(class, pops) := GetScriptInfo (PkScript out) in
      check (negb (bool_decide (class = BindingScriptHashTy))) ErrBindingPubKey;;
      '(_, bindingScriptHash) ← script (GetParsedBindingOpcode pops);
      check (negb (len bindingScriptHash =? OP_DATA_20)) ErrInvalidBindingScript;;
      check (negb (bytes_Equal headerPkHash bindingScriptHash)) ErrBindingPubKey;;
      check_coinbase_inputs txStore headerPkHash nextBlockHeight total' rest
  end.

(** [TxIn[1:]] panics on a transaction without inputs. *)
Definition checkCoinbaseInputs (coinbaseTx : MsgTx) (txStore : TxStore) (headerPkHash : bytes) (nextBlockHeight : Z) : val Amount :=
  match TxIns coinbaseTx with
  | [] => Panic
  | _ :: rest => check_coinbase_inputs txStore headerPkHash nextBlockHeight ZeroAmount rest
  end.

(** The rewards, up to the first that is zero; [i] counts them and [outs] are the outputs from
    the [i]-th on, which are read without a check. *)
Fixpoint check_rewards (nextBlockHeight : Z) (superNode : Amount) (totalWeight : Uint128) (i : Z) (stakingRanks : list Rank) (outs : list TxOut) : val Z :=
  match stakingRanks with
  | [] => Ret i
  | r :: rest =>
      nodeWeight ← wrap OfAmount (CalcStakingNodeWeight nextBlockHeight (rank_node r));
      expectAmount ← wrap OfAmount (calcNodeReward superNode totalWeight nodeWeight);
      if Amount_IsZero expectAmount then Ret i
      else
        expect ← wrap OfAmount (Amount_IntValue expectAmount);
        out ← index outs 0;
        check (negb (expect =? Value out)) errStakingRewardValue;;
        pkScriptSuperNode ← script (payToWitnessScriptHashScript (r_ScriptHash r));
        if negb (bytes_Equal (PkScript out) pkScriptSuperNode) then
          let '(class, pops) := GetScriptInfo (PkScript out) in
          script (GetParsedOpcode pops class);; Err errStakingRewardAddress
        else check_rewards nextBlockHeight superNode totalWeight (i + 1) rest (drop 1 outs)
  end.

Definition checkCoinbase (tx : MsgTx) (stakingRanks : list Rank) (nextBlockHeight halving : Z) (hasValidBinding : bool) : val Amount :=
  let num := len stakingRanks in
  StakingRewardNum ← extractCoinbaseStakingRewardNumber tx;
  check (StakingRewardNum >? uint32 num) ErrStakingRewardNum;;
  '(miner, superNode) ← wrap OfFork (CalcBlockSubsidy nextBlockHeight halving hasValidBinding (num >? 0));
  totalWeight ← wrap OfAmount (CalcTotalStakingWeight nextBlockHeight (map rank_node stakingRanks));
  i ← check_rewards nextBlockHeight superNode totalWeight 0 stakingRanks (TxOuts tx);
  check (negb (uint32 i =? StakingRewardNum)) ErrStakingRewardNum;;
  wrap OfAmount (Amount_Add miner superNode).

(** [totalCoinbaseOut.AddInt] over the outputs. *)
Fixpoint add_coinbase_outputs (total : Amount) (outs : list TxOut) : val Amount :=
  match outs with
  | [] => Ret total
  | txOut :: rest => total' ← wrap OfAmount (Amount_AddInt total (Value txOut)); add_coinbase_outputs total' rest
  end.

Section coinbase.
Context {HF : HashFunctions} {CL : ChiaLib} {T : Type} {ST : StateTrie T}.

(** The checks of a Chia proof: the pool's coinbase address, and the target of the plot. *)
Definition check_chia (proof : Proof) (coinbaseTx : MsgTx) : prog T val_error bytes :=
  poolPk ← lift (wrap OfProof (GetChiaPoolPublicKey (Some proof)));
  match poolPk with
  | None => throw ErrNilChiaPoolPk
  | Some pk =>
      '(coinbaseScriptAddress, _) ← GetPoolPkCoinbase pk;
      (if negb (len coinbaseScriptAddress =? 0) then
         lift (expected ← script (payToWitnessScriptHashScript coinbaseScriptAddress);
               out ← index (TxOuts coinbaseTx) (len (TxOuts coinbaseTx) - 1);
               check (negb (bytes_Equal expected (PkScript out))) ErrUnexpectedCoinbase)
       else mret tt);;
      plotID ← lift (wrap OfProof (GetChiaPlotID (Some proof)));
      fail_if (bytes_Equal plotID (replicate 32 0)) errZeroPlotID;;
      mret (pkToScriptHash plotID)
  end.

(** Whether the miner has a valid binding; [bst] opens the binding state of the parent. *)
Definition check_binding_state (bst : val T) (header : BlockHeader) (coinbaseTx : MsgTx) (bindingTarget : bytes) : val bool :=
  t ← bst;
  fst ((target ← (if Proof_Type (bh_Proof header) =? ProofTypeChia then check_chia (bh_Proof header) coinbaseTx else mret bindingTarget);
        data ← st_TryGet (target ++ [uint8 (Proof_Type (bh_Proof header)); uint8 (BitLength (bh_Proof header))]);
        match data with
        | None => throw ErrPlotPKNotBound
        | Some _ => mret true
        end) t).

(** [stakingTx] are the ranks [fetchStakingTxStore] returns; [fuel] is that of [GetRequiredBinding]. *)
Definition validateCoinbase (fuel : nat) (bst : val T) (stakingTx : val (list Rank)) (header : BlockHeader) (coinbaseTx : MsgTx)
    (nodeHeight halving : Z) (txInputStore : TxStore) (totalFees : Amount) : val unit :=
  let bindingTarget := pkToScriptHash (PubKey_SerializeCompressed (bh_PubKey header)) in
  stakingTx ← stakingTx;
  hasValidBinding ←
    (if negb (EnforceMASSIP0002WarmUp (bh_Height header)) then
       totalBinding ← checkCoinbaseInputs coinbaseTx txInputStore bindingTarget nodeHeight;
       requiredBinding ← (match GetRequiredBinding fuel (bh_Height header) 0 (BitLength (bh_Proof header)) ZeroAmount with
                          | Some r => wrap OfFork r
                          | None => Err (OfCallee 0)
                          end);
       Ret (Amount_Cmp totalBinding requiredBinding >=? 0)
     else if EnforceMASSIP0002 (bh_Height header) then check_binding_state bst header coinbaseTx bindingTarget
     else Ret false);
  totalreward ← checkCoinbase coinbaseTx stakingTx nodeHeight halving hasValidBinding;
  maxTotalCoinbaseOut ← wrap OfAmount (Amount_Add totalreward totalFees);
  totalCoinbaseOut ← add_coinbase_outputs ZeroAmount (TxOuts coinbaseTx);
  check (Amount_Cmp totalCoinbaseOut maxTotalCoinbaseOut >? 0) ErrBadCoinbaseValue.
End coinbase.
