(* ===== verification/CoinbaseSpec.v ===== *)
(** What the checks of a coinbase guarantee: a block creates at most the subsidy of its height,
    and the staking rewards are paid as the ranks say. *)

From S2P Require Import Prelude AddressText TxCommon Opcodes Script Hashes Wire Standard Amount Forks Rewards Poc Block MsgBlock Payload Validate ValidateSpec BindingState Coinbase.

(** * The outputs *)

Lemma coinbase_outputs_Ret total outs r :
  add_coinbase_outputs total outs = Ret r -> maxwells r = maxwells total + total_value outs /\ Forall (fun o => 0 <= Value o) outs.
Proof.
  revert total. induction outs as [|o outs IH]; intros total; cbn [add_coinbase_outputs].
  - intros [= <-]. cbn. split; [lia|done].
  - intros (t & Ht & Hr)%bind_Ret. apply wrap_Ret, AddInt_Ret in Ht as (Hv & _ & ->). destruct (IH _ Hr) as [-> Hall].
    unfold total_value. cbn. split; [lia|]. constructor; [lia|done].
Qed.

(** What the node of a rank is paid. *)
Definition reward_of (height : Z) (superNode : Amount) (totalWeight : Uint128) (r : Rank) : checked Amount :=
  w ← CalcStakingNodeWeight height (rank_node r); calcNodeReward superNode totalWeight w.

(** An output pays a rank its reward at its address. *)
Definition pays (height : Z) (superNode : Amount) (totalWeight : Uint128) (r : Rank) (o : TxOut) : Prop :=
  exists a, reward_of height superNode totalWeight r = Ret a /\ maxwells a <> 0 /\ Amount_IntValue a = Ret (Value o) /\
    payToWitnessScriptHashScript (r_ScriptHash r) = Ret (PkScript o).

(** The ranks of a nonzero reward, in order, up to the first whose reward is zero. *)
Lemma check_rewards_Ret height superNode totalWeight i ranks outs n :
  check_rewards height superNode totalWeight i ranks outs = Ret n ->
  exists k, n = i + Z.of_nat k /\ (k <= length ranks)%nat /\ (k <= length outs)%nat /\
    Forall2 (pays height superNode totalWeight) (take k ranks) (take k outs) /\
    (forall r, ranks !! k = Some r -> exists a, reward_of height superNode totalWeight r = Ret a /\ maxwells a = 0).
Proof.
  revert i outs. induction ranks as [|r ranks IH]; intros i outs; cbn [check_rewards].
  - intros [= <-]. exists 0%nat. cbn. split_and!; [lia|lia|lia|constructor|done].
  - intros (w & Hw & (a & Ha & Hr)%bind_Ret)%bind_Ret. apply wrap_Ret in Hw, Ha.
    assert (reward_of height superNode totalWeight r = Ret a) as Hrew by (unfold reward_of; rewrite Hw; done).
    assert (Amount_IsZero a = (maxwells a =? 0)) as Hz by (unfold Amount_IsZero, Uint128_IsZero, maxwells; by destruct (u_value (a_value a))).
    rewrite Hz in Hr. destruct (Z.eqb_spec (maxwells a) 0) as [E|E].
    + injection Hr as <-. exists 0%nat. cbn. split_and!; [lia|lia|lia|constructor|]. intros r' [= <-]. by exists a.
    + apply bind_Ret in Hr as (v & Hv & (o & Ho & Hr)%bind_Ret). apply wrap_Ret in Hv. apply at_Ret in Ho as [_ Ho].
      destruct outs as [|o' outs]; [done|]. cbn in Ho. injection Ho as ->. apply check_bind in Hr as [Hval Hr].
      apply negb_false_iff, Z.eqb_eq in Hval. subst v. apply bind_Ret in Hr as (s & Hs & Hr). apply wrap_Ret in Hs.
      destruct (negb _) eqn:Heq; [destruct (GetScriptInfo _); by apply bind_Ret in Hr as (? & _ & ?)|].
      apply negb_false_iff, bytes_Equal_true in Heq. subst s. cbn [drop] in Hr. rewrite drop_0 in Hr.
      destruct (IH _ _ Hr) as (k & -> & Hk1 & Hk2 & Hf & Hz'). exists (S k). cbn. split_and!; [lia|lia|lia| |done].
      constructor; [|done]. by exists a.
Qed.

Lemma reward_range height superNode totalWeight r a : reward_of height superNode totalWeight r = Ret a -> 0 <= maxwells a < 2 ^ 63.
Proof.
  unfold reward_of, calcNodeReward. intros (w & _ & (u & _ & (d & Hd & Ha)%bind_Ret)%bind_Ret)%bind_Ret. unfold Uint128_Div in Hd.
  destruct (Uint128_IsZero _); [done|]. apply validated_ok in Hd as [_ Hd]. unfold NewAmount in Ha. rewrite checkedAmount_spec in Ha.
  case_decide as Hle; [|done]. injection Ha as <-. rewrite max_value in Hle. unfold u128_ok in Hd. unfold maxwells. cbn. lia.
Qed.

Lemma reward_step height superNode totalWeight i r ranks outs a :
  reward_of height superNode totalWeight r = Ret a -> maxwells a <> 0 ->
  check_rewards height superNode totalWeight i (r :: ranks) outs =
    (out ← index outs 0;
     check (negb (maxwells a =? Value out)) errStakingRewardValue;;
     pkScriptSuperNode ← script (payToWitnessScriptHashScript (r_ScriptHash r));
     if negb (bytes_Equal (PkScript out) pkScriptSuperNode) then
       let '(class, pops) := GetScriptInfo (PkScript out) in script (GetParsedOpcode pops class);; Err errStakingRewardAddress
     else check_rewards height superNode totalWeight (i + 1) ranks (drop 1 outs)).
Proof.
  intros Hr Hne. pose proof (reward_range _ _ _ _ _ Hr) as Ha. cbn [check_rewards]. unfold reward_of in Hr. apply bind_Ret in Hr as (w & -> & Hr). cbn [wrap mbind outcome_bind]. rewrite Hr.
  cbn [wrap mbind outcome_bind]. assert (Amount_IsZero a = false) as ->.
  { unfold Amount_IsZero, Uint128_IsZero. apply Z.eqb_neq. by rewrite Z.sgn_null_iff. }
  unfold Amount_IntValue. by rewrite IntValue_exact.
Qed.

(** a coinbase with too few outputs stops the node: when every output of the coinbase pays
    the staking node of its rank and the next rank has a reward too, [checkCoinbase] reads the
    output that is not there and panics, instead of rejecting the block. *)
Theorem short_coinbase_panics height superNode weight i ranks outs r a :
  Forall2 (pays height superNode weight) (take (length outs) ranks) outs ->
  ranks !! length outs = Some r -> reward_of height superNode weight r = Ret a -> maxwells a <> 0 ->
  check_rewards height superNode weight i ranks outs = Panic.
Proof.
  intros Hp Hr Hrew Ha. revert i ranks Hp Hr. induction outs as [|o outs IH]; intros i ranks Hp Hr.
  - destruct ranks as [|r' ranks]; [done|]. cbn in Hr. injection Hr as ->. by rewrite (reward_step _ _ _ _ _ _ _ a).
  - destruct ranks as [|r' ranks]; [done|]. cbn in Hp, Hr. apply Forall2_cons in Hp as [(a' & Hrew' & Hne' & Hint & Hscript) Hp].
    unfold Amount_IntValue in Hint. rewrite IntValue_exact in Hint by by eapply reward_range. injection Hint as Hval.
    rewrite (reward_step _ _ _ _ _ _ _ a') by done. change (maxwells a') with (u_value (a_value a')). rewrite Hval.
    change (index (E := val_error) (o :: outs) 0) with (Ret (E := val_error) o). cbn [mbind outcome_bind]. rewrite Z.eqb_refl. cbn. unfold script. rewrite Hscript. cbn.
    assert (bytes_Equal (PkScript o) (PkScript o) = true) as -> by by apply bytes_Equal_true. cbn. rewrite drop_0. by apply IH.
Qed.

(** * The value of a block *)

Lemma checkCoinbase_Ret tx ranks height halving b total :
  checkCoinbase tx ranks height halving b = Ret total ->
  exists miner superNode weight k,
    CalcBlockSubsidy height halving b (len ranks >? 0) = Ret (miner, superNode) /\
    CalcTotalStakingWeight height (map rank_node ranks) = Ret weight /\
    maxwells total = maxwells miner + maxwells superNode /\
    (k <= length ranks)%nat /\ (k <= length (TxOuts tx))%nat /\
    Forall2 (pays height superNode weight) (take k ranks) (take k (TxOuts tx)) /\
    (forall r, ranks !! k = Some r -> exists a, reward_of height superNode weight r = Ret a /\ maxwells a = 0).
Proof.
  unfold checkCoinbase. intros (num & _ & Hr)%bind_Ret. apply check_bind in Hr as [_ Hr].
  apply bind_Ret in Hr as ([miner superNode] & Hs & Hr). apply wrap_Ret in Hs.
  apply bind_Ret in Hr as (weight & Hw & (i & Hi & Hr)%bind_Ret). apply wrap_Ret in Hw.
  apply check_bind in Hr as [_ Hr]. apply wrap_Ret, Add_Ret in Hr as [_ ->].
  destruct (check_rewards_Ret _ _ _ _ _ _ _ Hi) as (k & _ & Hk1 & Hk2 & Hf & Hz). exists miner, superNode, weight, k.
  split_and!; done.
Qed.

Section block.
Context {HF : HashFunctions} {CL : ChiaLib} {T : Type} {ST : StateTrie T}.

Lemma validateCoinbase_Ret fuel bst staking header coinbase height halving store fees :
  validateCoinbase fuel bst staking header coinbase height halving store fees = Ret tt ->
  exists ranks b total, staking = Ret ranks /\ checkCoinbase coinbase ranks height halving b = Ret total /\
    total_value (TxOuts coinbase) <= maxwells total + maxwells fees.
Proof.
  unfold validateCoinbase. intros (ranks & Hst & (b & _ & (total & Htot & (mx & Hmx & (out & Hout & Hcmp)%bind_Ret)%bind_Ret)%bind_Ret)%bind_Ret)%bind_Ret.
  exists ranks, b, total. split_and!; [done|done|]. apply wrap_Ret, Add_Ret in Hmx as [_ ->].
  destruct (coinbase_outputs_Ret _ _ _ Hout) as [Ho _]. apply check_pass in Hcmp. unfold Amount_Cmp, Uint128_Cmp in Hcmp.
  unfold maxwells, amount in *. cbn in Ho, Hcmp. destruct (Z.compare_spec (u_value (a_value out)) (u_value (a_value total) + u_value (a_value fees))); (done || lia).
Qed.

(** C15: a block creates at most its subsidy: when the fees of a block (a coinbase and other
    transactions) have been summed and its coinbase has been validated against them, all the
    outputs of the block, those of the coinbase included, are worth at most the outputs it
    spends plus what [CalcBlockSubsidy] mints at its height; and the first outputs of the
    coinbase pay the staking nodes, in the order of their ranks, each its share at its
    address, up to the first whose share is zero. *)
Theorem block_mints_subsidy fuel bst staking header coinbase txs height store fees store' :
  IsCoinBase coinbase = true -> 0 <= height ->
  sum_fees height true ZeroAmount (coinbase :: txs) store = (Ret fees, store') ->
  validateCoinbase fuel bst staking header coinbase height SubsidyHalvingInterval store' fees = Ret tt ->
  exists ranks b, staking = Ret ranks /\
    total_value (TxOuts coinbase) + foldr Z.add 0 (paid_by <$> txs) <=
      total_of store (concat (spent_by <$> txs)) + minted_by height b (len ranks >? 0) /\
    exists miner superNode weight k, CalcBlockSubsidy height SubsidyHalvingInterval b (len ranks >? 0) = Ret (miner, superNode) /\
      CalcTotalStakingWeight height (map rank_node ranks) = Ret weight /\
      Forall2 (pays height superNode weight) (take k ranks) (take k (TxOuts coinbase)) /\
      (forall r, ranks !! k = Some r -> exists a, reward_of height superNode weight r = Ret a /\ maxwells a = 0).
Proof.
  intros Hcb Hh Hfees Hval. destruct (sum_fees_Ret _ _ _ _ _ _ _ Hh Hfees) as (_ & _ & Hsum).
  destruct (validateCoinbase_Ret _ _ _ _ _ _ _ _ _ Hval) as (ranks & b & total & Hst & Hc & Hle).
  destruct (checkCoinbase_Ret _ _ _ _ _ _ Hc) as (miner & superNode & weight & k & Hsub & Hw & Htot & _ & _ & Hf & Hz).
  exists ranks, b. split; [done|]. split; [|by exists miner, superNode, weight, k].
  unfold minted_by. rewrite Hsub. cbn [fmap list_fmap concat] in Hsum. unfold spent_by at 1, paid_by at 1 in Hsum. rewrite Hcb in Hsum.
  cbn [app foldr] in Hsum. change (maxwells ZeroAmount) with 0 in Hsum. unfold maxwells in *. lia.
Qed.
End block.
