(* ===== verification/TxLookup.v ===== *)
(** The transactions a block refers to, seen from a point of the chain: [TxStore] and its
    functions in blockchain/txlookup.go.  The store of a block on a side chain is that of the
    end of the main chain with the blocks up to the fork point undone and those of the branch
    applied; the theorem on it is in TxLookupSpec.v. *)

From S2P Require Import Prelude Hashes Wire Poc Block MsgBlock BlockTree Validate.

(** * Definitions *)

(** [FetchLastFullySpentTxBeforeHeight] of the database: the transaction and its height; no
    error and no transaction is a possible answer. *)
Abbreviation LastSpent := (Hash -> Z -> val (option (MsgTx * Z))).

(** [database.TxReply]. *)
Record TxReply := mkTxReply { tr_Sha : Hash; tr_Tx : option MsgTx; tr_Height : Z; tr_TxSpent : list bool; tr_Err : option val_error }.

(** The database: [FetchTxByShaList] when fully spent transactions are included,
    [FetchUnSpentTxByShaList] when they are not. *)
Abbreviation FetchTxs := (bool -> list Hash -> list TxReply).

Section lookup.
Context {HF : HashFunctions} {CL : ChiaLib}.

(** [originTx.Spent[originIndex] = flag] for the inputs of a transaction: only for the
    transactions that are in the store and available. *)
Fixpoint set_spends (flag : bool) (ins : list TxIn) : prog TxStore val_error unit :=
  match ins with
  | [] => mret tt
  | txIn :: rest =>
      let op := PreviousOutPoint txIn in
      txStore ← gets id;
      (match available txStore (op_Hash op) with
       | Some (originTx, _) =>
           fail_if (op_Index op >=? uint32 (len (td_Spent originTx))) ErrBadTxInput;;
           modify (<[op_Hash op := set_Spent originTx (<[Z.to_nat (op_Index op) := flag]> (td_Spent originTx))]>)
       | None => mret tt
       end);;
      set_spends flag rest
  end.

(** An entry for a transaction that is available with the flags [spent], and one that is not. *)
Definition found (hash : Hash) (tx : MsgTx) (height : Z) (spent : list bool) : TxData := mkTxData (Some tx) hash height spent None.
Definition missing (hash : Hash) : TxData := mkTxData None hash 0 [] (Some ErrTxShaMissing).

Definition unspent (tx : MsgTx) : list bool := replicate (length (TxOuts tx)) false.
Definition all_spent (tx : MsgTx) : list bool := replicate (length (TxOuts tx)) true.

Definition connect_tx (height : Z) (tx : MsgTx) : prog TxStore val_error unit :=
  txStore ← gets id;
  (match txStore !! tx_sha tx with
   | Some txD =>
       fail_if (bool_decide (is_Some (td_Tx txD)) && negb (isTransactionSpent txD)) ErrTxAlreadyExists;;
       modify (<[tx_sha tx := found (td_Hash txD) tx height (unspent tx)]>)
   | None => mret tt
   end);;
  if IsCoinBase tx then mret tt else set_spends true (TxIns tx).

Fixpoint connectTransactions (height : Z) (txs : list MsgTx) : prog TxStore val_error unit :=
  match txs with
  | [] => mret tt
  | tx :: rest => connect_tx height tx;; connectTransactions height rest
  end.

Definition disconnect_tx (last : LastSpent) (height : Z) (tx : MsgTx) : prog TxStore val_error unit :=
  txStore ← gets id;
  (match txStore !! tx_sha tx with
   | Some txD =>
       prev ← lift (match last (tx_sha tx) height with Err ErrTxShaMissing => Ret None | r => r end);
       modify (<[tx_sha tx := match prev with
                              | None => missing (td_Hash txD)
                              | Some (msgtx, h) => found (td_Hash txD) msgtx h (all_spent msgtx)
                              end]>)
   | None => mret tt
   end);;
  if IsCoinBase tx then mret tt else set_spends false (TxIns tx).

(** [rev_txs] are the transactions from the last to the first. *)
Fixpoint disconnect_txs (last : LastSpent) (height : Z) (rev_txs : list MsgTx) : prog TxStore val_error unit :=
  match rev_txs with
  | [] => mret tt
  | tx :: rest => disconnect_tx last height tx;; disconnect_txs last height rest
  end.

Definition disconnectTransactions (last : LastSpent) (height : Z) (txs : list MsgTx) : prog TxStore val_error unit :=
  disconnect_txs last height (rev txs).

Fixpoint fill_replies (replies : list TxReply) (txStore : TxStore) : TxStore :=
  match replies with
  | [] => txStore
  | r :: rest =>
      fill_replies rest
        (match txStore !! tr_Sha r with
         | None => txStore
         | Some txD =>
             <[tr_Sha r := match tr_Err r with
                           | None => mkTxData (tr_Tx r) (td_Hash txD) (tr_Height r) (tr_TxSpent r) None
                           | Some e => mkTxData (td_Tx txD) (td_Hash txD) (td_BlockHeight txD) (td_Spent txD) (Some e)
                           end]> txStore
         end)
  end.

Definition fetchTxStoreMain (fetch : FetchTxs) (txSet : gset Hash) (includeSpent : bool) : TxStore :=
  if decide (txSet = ∅) then ∅
  else fill_replies (fetch includeSpent (elements txSet)) (set_to_map (fun h => (h, missing h)) txSet).

(** What the lookup reads of the chain: the database, the tree with the best node, the blocks of
    the database and those of the block cache, by hash. *)
Record Lookup := mkLookup {
  lk_fetch : FetchTxs;
  lk_last : LastSpent;
  lk_tree : BlockTree;
  lk_block : Hash -> val MsgBlock;
  lk_cached : Hash -> val MsgBlock;
}.

Definition block_Height (b : MsgBlock) : Z := bh_Height (Header b).

(** Undoing the blocks of the main chain, and applying those of the branch. *)
Fixpoint undo_blocks (lk : Lookup) (ps : list ptr) : prog TxStore val_error unit :=
  match ps with
  | [] => mret tt
  | p :: rest =>
      n ← lift (deref (nodes (lk_tree lk) !! p));
      block ← lift (lk_block lk (node_Hash n));
      disconnectTransactions (lk_last lk) (block_Height block) (Transactions block);;
      undo_blocks lk rest
  end.

Fixpoint apply_blocks (lk : Lookup) (ps : list ptr) : prog TxStore val_error unit :=
  match ps with
  | [] => mret tt
  | p :: rest =>
      n ← lift (deref (nodes (lk_tree lk) !! p));
      block ← lift (lk_cached lk (node_Hash n));
      connectTransactions (block_Height block) (Transactions block);;
      apply_blocks lk rest
  end.

(** Whether the node after [prev] extends the main chain, or there is none yet. *)
Definition extends_best (t : BlockTree) (prev : option ptr) : val bool :=
  match bestNode t with
  | None => Ret true
  | Some b =>
      match prev with
      | None => Ret false
      | Some p => np ← deref (nodes t !! p); nb ← deref (nodes t !! b); Ret (bytes_Equal (node_Hash np) (node_Hash nb))
      end
  end.

(** [getReorganizeNodes] on a node that may be absent; it does not change the tree. *)
Definition reorganize_nodes (t : BlockTree) (prev : option ptr) : val (list ptr * list ptr) :=
  match prev with
  | None => Ret ([], [])
  | Some p => match fst (getReorganizeNodes p t) with Ret r => Ret r | Err _ | Panic => Panic end
  end.

(** [prev] is the node before the one the store is for, from [getPrevNodeFromNode]. *)
Definition fetchTxStore (lk : Lookup) (prev : val (option ptr)) (txSet : gset Hash) : val TxStore :=
  prevNode ← prev;
  extends ← extends_best (lk_tree lk) prevNode;
  if (extends : bool) then Ret (fetchTxStoreMain (lk_fetch lk) txSet false)
  else
    '(detachNodes, attachNodes) ← reorganize_nodes (lk_tree lk) prevNode;
    match (undo_blocks lk detachNodes;; apply_blocks lk attachNodes) (fetchTxStoreMain (lk_fetch lk) txSet true) with
    | (Ret _, txStore) => Ret txStore
    | (Err e, _) => Err e
    | (Panic, _) => Panic
    end.

(** ** The inputs of a block *)

(** The position of the last transaction with each hash. *)
Fixpoint in_flight (i : nat) (txs : list MsgTx) (m : gmap Hash nat) : gmap Hash nat :=
  match txs with
  | [] => m
  | tx :: rest => in_flight (S i) rest (<[tx_sha tx := i]> m)
  end.

Definition inputs_of (tx : MsgTx) : val (list TxIn) :=
  if IsCoinBase tx then slice (TxIns tx) 1 (len (TxIns tx)) else Ret (TxIns tx).

(** The inputs of the [i]-th transaction: those that refer to the block itself are filled in,
    the others are needed from the chain. *)
Fixpoint gather_inputs (height : Z) (txs : list MsgTx) (flight : gmap Hash nat) (i : nat) (ins : list TxIn)
    (st : TxStore * gset Hash) : val (TxStore * gset Hash) :=
  match ins with
  | [] => Ret st
  | txIn :: rest =>
      let originHash := op_Hash (PreviousOutPoint txIn) in
      let '(txStore, needed) := st in
      st' ← (match flight !! originHash with
             | Some k =>
                 if (k <=? i)%nat then
                   originTx ← index txs (Z.of_nat k);
                   Ret (<[originHash := found originHash originTx height (unspent originTx)]> txStore, needed)
                 else Ret (<[originHash := missing originHash]> txStore, {[originHash]} ∪ needed)
             | None => Ret (<[originHash := missing originHash]> txStore, {[originHash]} ∪ needed)
             end);
      gather_inputs height txs flight i rest st'
  end.

Fixpoint gather_txs (height : Z) (txs : list MsgTx) (flight : gmap Hash nat) (i : nat) (todo : list MsgTx)
    (st : TxStore * gset Hash) : val (TxStore * gset Hash) :=
  match todo with
  | [] => Ret st
  | tx :: rest =>
      txIns ← inputs_of tx;
      st' ← gather_inputs height txs flight i txIns st;
      gather_txs height txs flight (S i) rest st'
  end.

Definition fetchInputTransactions (lk : Lookup) (prev : val (option ptr)) (nodeHeight : Z) (transactions : list MsgTx) : val TxStore :=
  let txInFlight := in_flight 0 transactions ∅ in
  '(txStore, txNeededSet) ← gather_txs nodeHeight transactions txInFlight 0 transactions (∅, ∅);
  txNeededStore ← fetchTxStore lk prev txNeededSet;
  Ret (txNeededStore ∪ txStore).

(** The store of a transaction that is not in a block. *)
Definition FetchTransactionStore (fetch : FetchTxs) (tx : MsgTx) (includeSpent : bool) : TxStore :=
  fetchTxStoreMain fetch (list_to_set (tx_sha tx :: ((fun txIn => op_Hash (PreviousOutPoint txIn)) <$> TxIns tx))) includeSpent.
End lookup.
