(* ===== verification/TxLookupSpec.v ===== *)
(** The transaction store of a side chain is the ledger of that chain: undoing the blocks of the
    main chain and applying those of the branch (blockchain/txlookup.go) gives, for every
    requested transaction, what executing the branch from the fork point gives. *)

From S2P Require Import Prelude Hashes Wire Poc Block MsgBlock BlockTree Validate ValidateSpec TxLookup.

(** * The ledger *)

Section ledger.
Context {HF : HashFunctions} {CL : ChiaLib}.

(** The last transaction with a hash, its height and which of its outputs are spent. *)
Record Coin := mkCoin { c_tx : MsgTx; c_height : Z; c_spent : list bool }.
Abbreviation Ledger := (gmap Hash Coin).

Definition set_flag (flag : bool) (op : OutPoint) (c : Coin) : Coin :=
  mkCoin (c_tx c) (c_height c) (<[Z.to_nat (op_Index op) := flag]> (c_spent c)).

Definition spend (flag : bool) (L : Ledger) (op : OutPoint) : Ledger := alter (set_flag flag op) (op_Hash op) L.
Definition spend_all (flag : bool) (ops : list OutPoint) (L : Ledger) : Ledger := foldl (spend flag) L ops.

Definition apply_tx (height : Z) (L : Ledger) (tx : MsgTx) : Ledger :=
  spend_all true (spent_by tx) (<[tx_sha tx := mkCoin tx height (unspent tx)]> L).

Definition apply_block (L : Ledger) (b : MsgBlock) : Ledger := foldl (apply_tx (block_Height b)) L (Transactions b).
Definition apply_chain (L : Ledger) (bs : list MsgBlock) : Ledger := foldl apply_block L bs.

(** An output that exists, with a flag. *)
Definition has_output (L : Ledger) (op : OutPoint) : Prop :=
  exists c, L !! op_Hash op = Some c /\ 0 <= op_Index op < len (c_spent c) /\ len (c_spent c) < 2 ^ 32.

(** What validation guarantees of a transaction: it spend_all distinct outputs that exist and are not
    spent, none its own, and replaces at most a transaction whose outputs are all spent. *)
Record tx_valid (L : Ledger) (tx : MsgTx) : Prop := {
  tx_fresh : forall c, L !! tx_sha tx = Some c -> c_spent c = all_spent (c_tx c);
  tx_nodup : NoDup (spent_by tx);
  tx_other : Forall (fun op => op_Hash op <> tx_sha tx) (spent_by tx);
  tx_has : Forall (has_output L) (spent_by tx);
  tx_free : Forall (fun op => forall c, L !! op_Hash op = Some c -> c_spent c !! Z.to_nat (op_Index op) = Some false) (spent_by tx);
}.

Fixpoint txs_ok (height : Z) (L : Ledger) (txs : list MsgTx) : Prop :=
  match txs with
  | [] => True
  | tx :: rest => tx_valid L tx /\ txs_ok height (apply_tx height L tx) rest
  end.

Definition block_ok (L : Ledger) (b : MsgBlock) : Prop :=
  NoDup (tx_sha <$> Transactions b) /\ txs_ok (block_Height b) L (Transactions b).

Fixpoint chain_valid (L : Ledger) (bs : list MsgBlock) : Prop :=
  match bs with
  | [] => True
  | b :: rest => block_ok L b /\ chain_valid (apply_block L b) rest
  end.

(** The entry of a store that shows the ledger, and a store that does. *)
Definition entry (h : Hash) (c : option Coin) : TxData :=
  match c with Some c => found h (c_tx c) (c_height c) (c_spent c) | None => missing h end.

Definition views (L : Ledger) (st : TxStore) : Prop := map_Forall (fun h d => d = entry h (L !! h)) st.

(** The database finds the transaction a hash stood for before the block at [height]. *)
Definition remembers (last : LastSpent) (height : Z) (L : Ledger) (h : Hash) : Prop :=
  match L !! h with
  | Some c => last h height = Ret (Some (c_tx c, c_height c))
  | None => last h height = Ret None \/ last h height = Err ErrTxShaMissing
  end.

(** * Theorems *)

Lemma spend_all_cons flag op ops L : spend_all flag (op :: ops) L = spend_all flag ops (spend flag L op).
Proof. done. Qed.

Lemma spend_other flag op L h : op_Hash op <> h -> spend flag L op !! h = L !! h.
Proof. apply lookup_alter_ne. Qed.

Lemma spend_all_other flag ops L h : Forall (fun op => op_Hash op <> h) ops -> spend_all flag ops L !! h = L !! h.
Proof.
  revert L. induction ops as [|op ops IH]; intros L Ho; [done|]. apply Forall_cons in Ho as [H1 H2].
  rewrite spend_all_cons, IH by done. by apply spend_other.
Qed.

(** Spending keeps the transactions, their heights and the number of flags. *)
Lemma spend_all_keeps flag ops L h c :
  L !! h = Some c -> exists c', spend_all flag ops L !! h = Some c' /\ c_tx c' = c_tx c /\ c_height c' = c_height c /\ length (c_spent c') = length (c_spent c).
Proof.
  revert L c. induction ops as [|op ops IH]; intros L c Hc; [by exists c|]. rewrite spend_all_cons.
  destruct (decide (op_Hash op = h)) as [<-|Hne].
  - destruct (IH (spend flag L op) (set_flag flag op c)) as (c' & H1 & H2 & H3 & H4).
    { unfold spend. by rewrite lookup_alter_eq, Hc. }
    exists c'. rewrite H2, H3, H4. cbn. by rewrite length_insert.
  - apply (IH (spend flag L op) c). by rewrite spend_other.
Qed.

Lemma spend_all_None flag ops L h : spend_all flag ops L !! h = None <-> L !! h = None.
Proof.
  revert L. induction ops as [|op ops IH]; intros L; [done|]. rewrite spend_all_cons, IH. unfold spend.
  destruct (decide (op_Hash op = h)) as [<-|Hne]; [rewrite lookup_alter_eq; by destruct (L !! _)|by rewrite lookup_alter_ne].
Qed.

Lemma has_output_spend flag L op op' : has_output L op' -> has_output (spend flag L op) op'.
Proof.
  intros (c & Hc & Hi & Hl). destruct (spend_all_keeps flag [op] L _ c Hc) as (c' & H1 & _ & _ & H4).
  exists c'. unfold len in *. rewrite H4. done.
Qed.

Lemma spend_commute f g L op op' : 0 <= op_Index op -> 0 <= op_Index op' -> op <> op' -> spend f (spend g L op') op = spend g (spend f L op) op'.
Proof.
  intros Hp Hp' Hne. unfold spend. destruct (decide (op_Hash op = op_Hash op')) as [E|E].
  - rewrite E, !alter_alter_eq. apply alter_ext. intros c Hc. unfold compose, set_flag. cbn. f_equal. apply list_insert_insert_ne.
    intros Hi. apply Hne. destruct op, op'. cbn in *. f_equal; [done|lia].
  - by rewrite alter_alter_ne.
Qed.

Lemma spend_all_commute f g ops L op :
  0 <= op_Index op -> Forall (fun op' => 0 <= op_Index op') ops -> op ∉ ops -> spend f (spend_all g ops L) op = spend_all g ops (spend f L op).
Proof.
  intros Hp Hops Hn. revert L. induction ops as [|op' ops IH]; intros L; [done|]. apply Forall_cons in Hops as [H1 H2].
  apply not_elem_of_cons in Hn as [Hn1 Hn2]. rewrite !spend_all_cons, IH by done. by rewrite spend_commute.
Qed.

Lemma spend_undo L op :
  (forall c, L !! op_Hash op = Some c -> c_spent c !! Z.to_nat (op_Index op) = Some false) -> spend false (spend true L op) op = L.
Proof.
  intros Hf. apply map_eq. intros h. unfold spend. destruct (decide (op_Hash op = h)) as [<-|Hne]; [|by rewrite !lookup_alter_ne].
  rewrite !lookup_alter_eq. destruct (L !! op_Hash op) as [c|] eqn:Hc; [|done]. cbn. f_equal. unfold set_flag. cbn.
  rewrite list_insert_insert_eq, list_insert_id by (by apply Hf). by destruct c.
Qed.

(** Undoing the spend_all of a transaction. *)
Lemma spend_all_undo ops L :
  NoDup ops -> Forall (has_output L) ops ->
  Forall (fun op => forall c, L !! op_Hash op = Some c -> c_spent c !! Z.to_nat (op_Index op) = Some false) ops ->
  spend_all false ops (spend_all true ops L) = L.
Proof.
  revert L. induction ops as [|op ops IH]; intros L Hn Hh Hf; [done|].
  apply NoDup_cons in Hn as [Hn1 Hn2]. apply Forall_cons in Hh as [Hh1 Hh2]. apply Forall_cons in Hf as [Hf1 Hf2].
  rewrite !spend_all_cons. rewrite spend_all_commute; [|destruct Hh1 as (? & _ & ? & _); lia| |done].
  - rewrite spend_undo by done. by apply IH.
  - eapply Forall_impl; [exact Hh2|]. intros op' (? & _ & ? & _). lia.
Qed.

(** ** Stores that show a ledger *)

Lemma views_lookup L st h d : views L st -> st !! h = Some d -> d = entry h (L !! h).
Proof. intros Hv. apply Hv. Qed.

(** The store follows a change of the ledger at one hash. *)
Lemma views_update L L' st h d :
  views L st -> (forall h', h' <> h -> L' !! h' = L !! h') -> d = entry h (L' !! h) -> views L' (<[h := d]> st).
Proof.
  intros Hv Ho ->. intros h' d'. destruct (decide (h' = h)) as [->|Hne].
  - rewrite lookup_insert_eq. congruence.
  - rewrite lookup_insert_ne by done. rewrite Ho by done. apply Hv.
Qed.

Lemma views_absent L L' st h : views L st -> st !! h = None -> (forall h', h' <> h -> L' !! h' = L !! h') -> views L' st.
Proof. intros Hv Hn Ho h' d Hd. rewrite Ho; [by apply Hv|]. intros ->. congruence. Qed.

Lemma set_spends_views flag ins L st :
  views L st -> Forall (has_output L) (PreviousOutPoint <$> ins) ->
  exists st', set_spends flag ins st = (Ret tt, st') /\ views (spend_all flag (PreviousOutPoint <$> ins) L) st' /\ dom st' = dom st.
Proof.
  revert L st. induction ins as [|txIn ins IH]; intros L st Hv Hh; [by exists st|].
  rewrite fmap_cons in *. apply Forall_cons in Hh as [(c & Hc & Hi & Hl) Hh]. rewrite spend_all_cons. cbn [set_spends].
  set (op := PreviousOutPoint txIn) in *.
  assert (Forall (has_output (spend flag L op)) (PreviousOutPoint <$> ins)) as Hh'.
  { eapply Forall_impl; [exact Hh|]. intros o. apply has_output_spend. }
  assert (forall h', h' <> op_Hash op -> spend flag L op !! h' = L !! h') as Ho by (intros; by apply spend_other).
  rewrite bind_gets. unfold available, id. destruct (st !! op_Hash op) as [d|] eqn:Hd.
  - pose proof (views_lookup _ _ _ _ Hv Hd) as ->. rewrite Hc. cbn [entry found td_Err td_Tx].
    destruct (IH (spend flag L op) (<[op_Hash op := set_Spent (found (op_Hash op) (c_tx c) (c_height c) (c_spent c)) (<[Z.to_nat (op_Index op) := flag]> (c_spent c))]> st)) as (st' & Hr & Hv' & Hdom).
    + eapply views_update; [exact Hv|exact Ho|]. unfold spend. by rewrite lookup_alter_eq, Hc.
    + exact Hh'.
    + exists st'. split_and!; [|done|rewrite Hdom; apply dom_insert_lookup_L; by eexists].
      unfold fail_if. rewrite (wrapU_small 32) by (unfold len in *; cbn in *; lia).
      destruct (op_Index op >=? len (td_Spent (found (op_Hash op) (c_tx c) (c_height c) (c_spent c)))) eqn:E; [cbn in E; lia|]. exact Hr.
  - destruct (IH (spend flag L op) st) as (st' & Hr & Hv' & Hdom); [by eapply views_absent|done|].
    exists st'. split_and!; [exact Hr|done|done].
Qed.

(** The spends of a transaction, none for a coinbase. *)
Lemma tx_spends_views flag tx L st :
  views L st -> Forall (has_output L) (spent_by tx) ->
  exists st', (if IsCoinBase tx then mret tt else set_spends flag (TxIns tx)) st = (Ret tt, st') /\
    views (spend_all flag (spent_by tx) L) st' /\ dom st' = dom st.
Proof.
  unfold spent_by. destruct (IsCoinBase tx); intros Hv Hh; [by exists st|]. by apply set_spends_views.
Qed.

Lemma create_has_output L tx c op : op_Hash op <> tx_sha tx -> has_output L op -> has_output (<[tx_sha tx := c]> L) op.
Proof. intros Hne (c' & Hc' & Hr). exists c'. by rewrite lookup_insert_ne. Qed.

Lemma created_outputs L tx c : tx_valid L tx -> Forall (has_output (<[tx_sha tx := c]> L)) (spent_by tx).
Proof.
  intros Hok. pose proof (tx_other _ _ Hok) as Ho. pose proof (tx_has _ _ Hok) as Hh. rewrite Forall_forall in *.
  intros op Hop. apply create_has_output; auto.
Qed.

Lemma all_spent_forallb tx : forallb id (all_spent tx) = true.
Proof. unfold all_spent. induction (length (TxOuts tx)); cbn; auto. Qed.

Lemma connect_tx_views height tx L st :
  views L st -> tx_valid L tx -> exists st', connect_tx height tx st = (Ret tt, st') /\ views (apply_tx height L tx) st' /\ dom st' = dom st.
Proof.
  intros Hv Hok. unfold connect_tx. rewrite bind_gets. unfold id. set (c := mkCoin tx height (unspent tx)).
  assert (forall h', h' <> tx_sha tx -> <[tx_sha tx := c]> L !! h' = L !! h') as Ho by (intros; by rewrite lookup_insert_ne).
  destruct (st !! tx_sha tx) as [d|] eqn:Hd.
  - pose proof (views_lookup _ _ _ _ Hv Hd) as ->.
    assert (bool_decide (is_Some (td_Tx (entry (tx_sha tx) (L !! tx_sha tx)))) && negb (isTransactionSpent (entry (tx_sha tx) (L !! tx_sha tx))) = false) as Hf.
    { destruct (L !! tx_sha tx) as [c0|] eqn:Hc0; cbn [entry]; [|by rewrite bool_decide_false by (cbn; by intros [? [=]])].
      unfold isTransactionSpent. cbn [found td_Spent]. rewrite (tx_fresh _ _ Hok _ Hc0), all_spent_forallb. apply andb_false_r. }
    destruct (tx_spends_views true tx (<[tx_sha tx := c]> L) (<[tx_sha tx := found (td_Hash (entry (tx_sha tx) (L !! tx_sha tx))) tx height (unspent tx)]> st)) as (st' & Hr & Hv' & Hdom).
    + eapply views_update; [exact Hv|exact Ho|]. rewrite lookup_insert_eq. cbn. f_equal. by destruct (L !! tx_sha tx).
    + by apply created_outputs.
    + exists st'. split_and!; [|exact Hv'|rewrite Hdom; apply dom_insert_lookup_L; by eexists]. rewrite Hf. exact Hr.
  - destruct (tx_spends_views true tx (<[tx_sha tx := c]> L) st) as (st' & Hr & Hv' & Hdom); [by eapply views_absent|by apply created_outputs|].
    exists st'. split_and!; [exact Hr|exact Hv'|done].
Qed.

Lemma spend_all_insert flag ops L h c :
  Forall (fun op => op_Hash op <> h) ops -> spend_all flag ops (<[h := c]> L) = <[h := c]> (spend_all flag ops L).
Proof.
  revert L. induction ops as [|op ops IH]; intros L Ho; [done|]. apply Forall_cons in Ho as [H1 H2].
  rewrite !spend_all_cons. unfold spend at 1. rewrite alter_insert_ne by done. by apply IH.
Qed.

Lemma spend_all_outputs flag ops L ops' : Forall (has_output L) ops' -> Forall (has_output (spend_all flag ops L)) ops'.
Proof.
  revert L. induction ops as [|op ops IH]; intros L Ho; [done|]. rewrite spend_all_cons. apply IH.
  eapply Forall_impl; [exact Ho|]. intros o. apply has_output_spend.
Qed.

Lemma disconnect_tx_views last height tx L st :
  views (apply_tx height L tx) st -> tx_valid L tx -> remembers last height L (tx_sha tx) ->
  exists st', disconnect_tx last height tx st = (Ret tt, st') /\ views L st' /\ dom st' = dom st.
Proof.
  intros Hv Hok Hrem. pose proof (tx_other _ _ Hok) as Hot. unfold disconnect_tx. rewrite bind_gets. unfold id.
  set (L1 := spend_all true (spent_by tx) L).
  assert (L1 !! tx_sha tx = L !! tx_sha tx) as H1 by (by apply spend_all_other).
  assert (forall h', h' <> tx_sha tx -> L1 !! h' = apply_tx height L tx !! h') as Ho.
  { intros h' Hne. unfold apply_tx. rewrite spend_all_insert by done. by rewrite lookup_insert_ne. }
  assert (spend_all false (spent_by tx) L1 = L) as Hundo by (apply spend_all_undo; apply Hok).
  assert (Forall (has_output L1) (spent_by tx)) as Hout by (apply spend_all_outputs; apply Hok).
  destruct (st !! tx_sha tx) as [d|] eqn:Hd.
  - assert (td_Hash d = tx_sha tx) as Hh. { pose proof (views_lookup _ _ _ _ Hv Hd) as ->. by destruct (apply_tx height L tx !! tx_sha tx). }
    destruct (tx_spends_views false tx L1 (<[tx_sha tx := entry (tx_sha tx) (L !! tx_sha tx)]> st)) as (st' & Hr & Hv' & Hdom);
      [eapply views_update; [exact Hv|exact Ho|by rewrite H1]|done|].
    exists st'. rewrite Hundo in Hv'. split_and!; [|done|rewrite Hdom; apply dom_insert_lookup_L; by eexists]. rewrite <- Hr, Hh.
    unfold remembers in Hrem. destruct (L !! tx_sha tx) as [c|] eqn:Hc.
    + rewrite Hrem, bind_bind, bind_lift_Ret. cbn [entry]. by rewrite (tx_fresh _ _ Hok _ Hc).
    + by destruct Hrem as [-> | ->].
  - destruct (tx_spends_views false tx L1 st) as (st' & Hr & Hv' & Hdom); [by eapply views_absent|done|].
    exists st'. rewrite Hundo in Hv'. split_and!; [exact Hr|done|done].
Qed.

(** ** Blocks *)

Lemma connectTransactions_views height txs L st :
  views L st -> txs_ok height L txs ->
  exists st', connectTransactions height txs st = (Ret tt, st') /\ views (foldl (apply_tx height) L txs) st' /\ dom st' = dom st.
Proof.
  revert L st. induction txs as [|tx txs IH]; intros L st Hv; [by exists st|]. intros [H1 H2]. cbn [connectTransactions].
  destruct (connect_tx_views height tx L st Hv H1) as (st1 & Hr1 & Hv1 & Hd1).
  destruct (IH _ st1 Hv1 H2) as (st2 & Hr2 & Hv2 & Hd2). exists st2. rewrite (bind_step _ _ _ _ _ Hr1). split_and!; [done|done|congruence].
Qed.

Lemma txs_ok_app height L t1 t2 : txs_ok height L (t1 ++ t2) <-> txs_ok height L t1 /\ txs_ok height (foldl (apply_tx height) L t1) t2.
Proof. revert L. induction t1 as [|tx t1 IH]; intros L; cbn; [naive_solver|]. rewrite IH. tauto. Qed.

(** A block that does not create a hash leaves its transaction and height. *)
Lemma apply_txs_remembers last height txs L h :
  h ∉ (tx_sha <$> txs) -> remembers last height L h -> remembers last height (foldl (apply_tx height) L txs) h.
Proof.
  revert L. induction txs as [|tx txs IH]; intros L Hn Hr; [done|]. rewrite fmap_cons, not_elem_of_cons in Hn. destruct Hn as [Hn1 Hn2].
  apply IH; [done|]. unfold remembers, apply_tx in *. destruct (L !! h) as [c|] eqn:Hc.
  - destruct (spend_all_keeps true (spent_by tx) (<[tx_sha tx := mkCoin tx height (unspent tx)]> L) h c) as (c' & -> & -> & -> & _); [by rewrite lookup_insert_ne|done].
  - assert (spend_all true (spent_by tx) (<[tx_sha tx := mkCoin tx height (unspent tx)]> L) !! h = None) as ->; [|done].
    apply spend_all_None. by rewrite lookup_insert_ne.
Qed.

Lemma disconnect_txs_views last height txs L st :
  views (foldl (apply_tx height) L txs) st -> NoDup (tx_sha <$> txs) -> txs_ok height L txs -> Forall (remembers last height L) (tx_sha <$> txs) ->
  exists st', disconnectTransactions last height txs st = (Ret tt, st') /\ views L st' /\ dom st' = dom st.
Proof.
  revert st. induction txs as [|tx txs IH] using rev_ind; intros st Hv Hn Hok Hrem; [by exists st|].
  rewrite foldl_snoc in Hv. rewrite fmap_app in Hn, Hrem. apply txs_ok_app in Hok as [Hok1 [Hok2 _]].
  apply NoDup_app in Hn as (Hn & Hx & _). apply Forall_app in Hrem as [Hrem1 Hrem2]. apply Forall_cons in Hrem2 as [Hrem2 _].
  unfold disconnectTransactions. rewrite rev_unit. cbn [disconnect_txs].
  destruct (disconnect_tx_views last height tx _ st Hv Hok2) as (st1 & Hr1 & Hv1 & Hd1).
  { apply apply_txs_remembers; [|done]. intros Hin. apply (Hx _ Hin). by left. }
  destruct (IH st1 Hv1 Hn Hok1 Hrem1) as (st2 & Hr2 & Hv2 & Hd2). exists st2. rewrite (bind_step _ _ _ _ _ Hr1). split_and!; [exact Hr2|done|congruence].
Qed.

(** ** The database *)

Definition reply (h : Hash) (c : option Coin) : TxReply :=
  match c with
  | Some c => mkTxReply h (Some (c_tx c)) (c_height c) (c_spent c) None
  | None => mkTxReply h None 0 [] (Some ErrTxShaMissing)
  end.

(** The database holds the ledger of the main chain; without the fully spent transactions it
    shows the rest of it. *)
Definition has_unspent (L : Ledger) : Ledger := filter (fun '(_, c) => forallb id (c_spent c) = false) L.

Definition answers (fetch : FetchTxs) (L : Ledger) : Prop :=
  forall hs, fetch true hs = (fun h => reply h (L !! h)) <$> hs /\ fetch false hs = (fun h => reply h (has_unspent L !! h)) <$> hs.

Lemma fill_replies_views L hs st :
  (forall h d, st !! h = Some d -> d = entry h (L !! h) \/ h ∈ hs /\ d = missing h) ->
  views L (fill_replies ((fun h => reply h (L !! h)) <$> hs) st) /\ dom (fill_replies ((fun h => reply h (L !! h)) <$> hs) st) = dom st.
Proof.
  revert st. induction hs as [|h hs IH]; intros st Hst; cbn [fmap list_fmap fill_replies].
  - split; [|done]. intros h d Hd. destruct (Hst h d Hd) as [|[[]%not_elem_of_nil _]]. done.
  - assert (tr_Sha (reply h (L !! h)) = h) as -> by (by destruct (L !! h)).
    destruct (st !! h) as [d|] eqn:Hd.
    + match goal with |- context [<[h := ?e]> st] => assert (e = entry h (L !! h)) as -> end.
      { destruct (Hst h d Hd) as [-> | [_ ->]]; by destruct (L !! h). }
      destruct (IH (<[h := entry h (L !! h)]> st)) as [Hv Hdom].
      * intros h' d'. destruct (decide (h' = h)) as [->|Hne]; [rewrite lookup_insert_eq; intros [= <-]; by left|].
        rewrite lookup_insert_ne by done. intros Hd'. destruct (Hst h' d' Hd') as [|[[->|]%elem_of_cons]]; naive_solver.
      * split; [done|]. rewrite Hdom. apply dom_insert_lookup_L. by eexists.
    + apply IH. intros h' d' Hd'. destruct (Hst h' d' Hd') as [|[[->|]%elem_of_cons]]; [by left|congruence|by right].
Qed.

Lemma missing_store (S : gset Hash) h d : (set_to_map (fun h => (h, missing h)) S : TxStore) !! h = Some d <-> h ∈ S /\ d = missing h.
Proof.
  rewrite lookup_set_to_map by (intros; cbn in *; congruence). split.
  - intros (h' & Hin & [= -> <-]). done.
  - intros [Hin ->]. by exists h.
Qed.

Lemma fetchTxStoreMain_views fetch L L' b S :
  (forall hs, fetch b hs = (fun h => reply h (L !! h)) <$> hs) -> L' = L ->
  views L' (fetchTxStoreMain fetch S b) /\ dom (fetchTxStoreMain fetch S b) = S.
Proof.
  intros Hf ->. unfold fetchTxStoreMain. case_decide as HS; [subst; split; [apply map_Forall_empty|apply dom_empty_L]|].
  rewrite Hf. destruct (fill_replies_views L (elements S) (set_to_map (fun h => (h, missing h)) S)) as [Hv Hd].
  - intros h d [Hin ->]%missing_store. right. by rewrite elem_of_elements.
  - split; [done|]. rewrite Hd. apply set_eq. intros h. rewrite elem_of_dom. split.
    + by intros [d [Hin _]%missing_store].
    + intros Hin. exists (missing h). by apply missing_store.
Qed.

(** ** Side chains *)

Fixpoint chain_remembers (last : LastSpent) (L : Ledger) (bs : list MsgBlock) : Prop :=
  match bs with
  | [] => True
  | b :: rest => Forall (remembers last (block_Height b) L) (tx_sha <$> Transactions b) /\ chain_remembers last (apply_block L b) rest
  end.

Definition holds (t : BlockTree) (get : Hash -> val MsgBlock) (p : ptr) (b : MsgBlock) : Prop :=
  exists n, nodes t !! p = Some n /\ get (node_Hash n) = Ret b.

(** A node [p] off the main chain: [L0] is the ledger at the fork, [main] the blocks of the main
    chain after it and [branch] those up to [p]. *)
Record side_chain (lk : Lookup) (p : ptr) (L0 : Ledger) (main branch : list MsgBlock) : Prop := {
  sc_side : extends_best (lk_tree lk) (Some p) = Ret false;
  sc_nodes : exists detach attach, reorganize_nodes (lk_tree lk) (Some p) = Ret (detach, attach) /\
    Forall2 (holds (lk_tree lk) (lk_block lk)) detach (rev main) /\ Forall2 (holds (lk_tree lk) (lk_cached lk)) attach branch;
  sc_main : chain_valid L0 main;
  sc_branch : chain_valid L0 branch;
  sc_db : answers (lk_fetch lk) (apply_chain L0 main);
  sc_last : chain_remembers (lk_last lk) L0 main;
}.

Lemma chain_valid_app L b1 b2 : chain_valid L (b1 ++ b2) <-> chain_valid L b1 /\ chain_valid (apply_chain L b1) b2.
Proof. revert L. induction b1 as [|b b1 IH]; intros L; cbn; [naive_solver|]. rewrite IH. tauto. Qed.

Lemma chain_remembers_app last L b1 b2 :
  chain_remembers last L (b1 ++ b2) <-> chain_remembers last L b1 /\ chain_remembers last (apply_chain L b1) b2.
Proof. revert L. induction b1 as [|b b1 IH]; intros L; cbn; [naive_solver|]. rewrite IH. tauto. Qed.

Lemma undo_blocks_views lk main ps L st :
  Forall2 (holds (lk_tree lk) (lk_block lk)) ps (rev main) -> chain_valid L main -> chain_remembers (lk_last lk) L main ->
  views (apply_chain L main) st -> exists st', undo_blocks lk ps st = (Ret tt, st') /\ views L st' /\ dom st' = dom st.
Proof.
  revert ps st. induction main as [|b main IH] using rev_ind; intros ps st Hps Hok Hrem Hv.
  - apply Forall2_nil_inv_r in Hps as ->. by exists st.
  - rewrite rev_unit in Hps. apply Forall2_cons_inv_r in Hps as (p & ps' & (n & Hn & Hb) & Hps & ->).
    apply chain_valid_app in Hok as [Hok1 [[Hnd Htx] _]]. apply chain_remembers_app in Hrem as [Hrem1 [Hrem2 _]].
    unfold apply_chain in Hv. rewrite foldl_snoc in Hv.
    destruct (disconnect_txs_views _ _ _ _ _ Hv Hnd Htx Hrem2) as (st1 & Hr1 & Hv1 & Hd1).
    destruct (IH ps' st1 Hps Hok1 Hrem1 Hv1) as (st2 & Hr2 & Hv2 & Hd2). exists st2. cbn [undo_blocks].
    rewrite Hn. cbn [deref]. rewrite bind_lift_Ret, Hb, bind_lift_Ret, (bind_step _ _ _ _ _ Hr1). split_and!; [done|done|congruence].
Qed.

Lemma apply_blocks_views lk branch ps L st :
  Forall2 (holds (lk_tree lk) (lk_cached lk)) ps branch -> chain_valid L branch -> views L st ->
  exists st', apply_blocks lk ps st = (Ret tt, st') /\ views (apply_chain L branch) st' /\ dom st' = dom st.
Proof.
  revert ps L st. induction branch as [|b branch IH]; intros ps L st Hps Hok Hv.
  - apply Forall2_nil_inv_r in Hps as ->. by exists st.
  - apply Forall2_cons_inv_r in Hps as (p & ps' & (n & Hn & Hb) & Hps & ->). destruct Hok as [[_ Htx] Hok].
    destruct (connectTransactions_views _ _ _ _ Hv Htx) as (st1 & Hr1 & Hv1 & Hd1).
    destruct (IH ps' _ st1 Hps Hok Hv1) as (st2 & Hr2 & Hv2 & Hd2). exists st2. cbn [apply_blocks].
    rewrite Hn. cbn [deref]. rewrite bind_lift_Ret, Hb, bind_lift_Ret, (bind_step _ _ _ _ _ Hr1). split_and!; [done|done|congruence].
Qed.

(** C7: The store of a block on a side chain is the ledger of that chain: [fetchTxStore] succeeds, has
    an entry for exactly the requested hashes, and each shows the transaction, its height and its
    spent outputs as executing the branch from the fork point leaves them, although the database
    only has the main chain.  This is for blocks that are valid on the ledger they extend, on
    both chains, for a database that answers with the ledger of the main chain, and for nodes
    whose blocks can be fetched ([side_chain]). *)
Theorem side_chain_view lk p L0 main branch txSet :
  side_chain lk p L0 main branch ->
  exists st, fetchTxStore lk (Ret (Some p)) txSet = Ret st /\ dom st = txSet /\ views (apply_chain L0 branch) st.
Proof.
  intros [Hside (detach & attach & Hnodes & Hdet & Hatt) Hmain Hbranch Hdb Hlast].
  unfold fetchTxStore. cbn [mbind outcome_bind]. rewrite Hside. cbn [mbind outcome_bind]. rewrite Hnodes. cbn [mbind outcome_bind].
  destruct (fetchTxStoreMain_views (lk_fetch lk) _ _ true txSet (fun hs => proj1 (Hdb hs)) eq_refl) as [Hv0 Hd0].
  destruct (undo_blocks_views lk main detach L0 _ Hdet Hmain Hlast Hv0) as (st1 & Hr1 & Hv1 & Hd1).
  destruct (apply_blocks_views lk branch attach L0 st1 Hatt Hbranch Hv1) as (st2 & Hr2 & Hv2 & Hd2).
  exists st2. rewrite (bind_step _ _ _ _ _ Hr1), Hr2. split_and!; [done|congruence|done].
Qed.
End ledger.
