(* ===== verification/Staking.v ===== *)
(** The staking nodes and their ranking: [StakingNodes] of database/db.go, [SortMap] of
    database/sort.go, and the staking part of blockchain/txlookup.go.  The ranking decides who is
    paid by a block, so it must not depend on the order in which Go ranges over a map. *)

From S2P Require Import Prelude AddressText TxCommon Opcodes Script Hashes Wire Standard Amount Forks Rewards Poc Block MsgBlock BlockTree Payload Validate BindingState Coinbase TxLookup.

#[global] Instance OutPoint_countable : Countable OutPoint :=
  inj_countable' (fun op => (op_Hash op, op_Index op)) (fun '(h, i) => mkOutPoint h i) ltac:(by intros []).

(** * Definitions *)

Record StakingTxInfo := mkStakingTxInfo { st_Value : Z; st_FrozenPeriod : Z; st_BlkHeight : Z }.

Abbreviation StakingTxOutAtHeight := (gmap Z (gmap OutPoint StakingTxInfo)).
Abbreviation StakingNodes := (gmap Hash StakingTxOutAtHeight).
Abbreviation staking := (prog StakingNodes val_error).

(** [StakingTxOutAtHeight.Put]: whether the output is new; the map of the height exists afterwards. *)
Definition AtHeight_Put (op : OutPoint) (stk : StakingTxInfo) (sh : StakingTxOutAtHeight) : bool * StakingTxOutAtHeight :=
  let m := default ∅ (sh !! st_BlkHeight stk) in
  match m !! op with
  | Some _ => (false, <[st_BlkHeight stk := m]> sh)
  | None => (true, <[st_BlkHeight stk := <[op := stk]> m]> sh)
  end.

(** [Get(key).Put(op, stk)]: the node exists afterwards. *)
Definition put_staking (rsh : Hash) (op : OutPoint) (stk : StakingTxInfo) : staking unit :=
  nodes ← gets id;
  let '(ok, sh) := AtHeight_Put op stk (default ∅ (nodes !! rsh)) in
  modify <[rsh := sh]>;;
  fail_if (negb ok) ErrDuplicateStaking.

Definition StakingNodes_IsEmpty (key : Hash) (nodes : StakingNodes) : bool :=
  forallb (fun v : gmap OutPoint StakingTxInfo => bool_decide (v = ∅)) (snd <$> map_to_list (default ∅ (nodes !! key) : StakingTxOutAtHeight)).

Definition StakingNodes_Delete (key : Hash) (blkHeight : Z) (op : OutPoint) (nodes : StakingNodes) : option StakingNodes :=
  match nodes !! key with
  | None => None
  | Some m1 =>
      match m1 !! blkHeight with
      | None => None
      | Some m2 =>
          match m2 !! op with
          | None => None
          | Some _ => Some (<[key := <[blkHeight := delete op m2]> m1]> nodes)
          end
      end
  end.

Section staking.
Context {HF : HashFunctions}.

(** The frozen period and the script hash of a staking output. *)
Definition staking_output (txOut : TxOut) : val (option (Z * Hash)) :=
  let '(class, pops) := GetScriptInfo (PkScript txOut) in
  if bool_decide (class = StakingScriptHashTy) then r ← script (GetParsedOpcode pops class); Ret (Some r) else Ret None.

(** The staking outputs of a transaction, from the [i]-th output on, and of a block. *)
Fixpoint add_stakes (height : Z) (hash : Hash) (i : Z) (outs : list TxOut) : staking unit :=
  match outs with
  | [] => mret tt
  | txOut :: rest =>
      o ← lift (staking_output txOut);
      (match o with
       | Some (frozenPeriod, rsh) => put_staking rsh (mkOutPoint hash (uint32 i)) (mkStakingTxInfo (uint64 (Value txOut)) frozenPeriod height)
       | None => mret tt
       end);;
      add_stakes height hash (i + 1) rest
  end.

Fixpoint connect_stakes (height : Z) (txs : list MsgTx) : staking unit :=
  match txs with
  | [] => mret tt
  | tx :: rest => add_stakes height (tx_sha tx) 0 (TxOuts tx);; connect_stakes height rest
  end.

Definition expires (height : Z) (v : StakingTxInfo) : bool := height =? uint64 (st_BlkHeight v + st_FrozenPeriod v).

(** The outputs that expire leave, and so do the nodes that have none left; the order of the two
    loops over the maps does not matter. *)
Definition expire_stakes (height : Z) (nodes : StakingNodes) : StakingNodes :=
  let nodes' := fmap (M := gmap Hash) (fmap (M := gmap Z) (filter (fun '(_, v) => expires height v = false))) nodes in
  filter (fun '(rsh, _) => StakingNodes_IsEmpty rsh nodes' = false) nodes'.

Definition connectStakingTransactions (height : Z) (txs : list MsgTx) : staking unit :=
  connect_stakes height txs;; modify (expire_stakes height).

Fixpoint remove_stakes (height : Z) (hash : Hash) (i : Z) (outs : list TxOut) : staking unit :=
  match outs with
  | [] => mret tt
  | txOut :: rest =>
      o ← lift (staking_output txOut);
      (match o with
       | Some (_, rsh) =>
           nodes ← gets id;
           match StakingNodes_Delete rsh height (mkOutPoint hash (uint32 i)) nodes with
           | None => throw errStakingTxNotFound
           | Some nodes' => modify (fun _ => if StakingNodes_IsEmpty rsh nodes' then delete rsh nodes' else nodes')
           end
       | None => mret tt
       end);;
      remove_stakes height hash (i + 1) rest
  end.

Fixpoint disconnect_stakes (height : Z) (txs : list MsgTx) : staking unit :=
  match txs with
  | [] => mret tt
  | tx :: rest => remove_stakes height (tx_sha tx) 0 (TxOuts tx);; disconnect_stakes height rest
  end.

(** The outputs of a [StakingNodes], in the order of [map_to_list]; Go ranges in any order. *)
Definition stakes_of (nodes : StakingNodes) : list (Hash * OutPoint * StakingTxInfo) :=
  concat ((fun '(rsh, node) =>
    concat ((fun '(_, m) => (fun '(op, v) => (rsh, op, v)) <$> map_to_list m) <$> map_to_list (node : StakingTxOutAtHeight))) <$> map_to_list nodes).

Fixpoint put_stakes (l : list (Hash * OutPoint * StakingTxInfo)) : staking unit :=
  match l with
  | [] => mret tt
  | (rsh, op, v) :: rest => put_staking rsh op v;; put_stakes rest
  end.

(** [expired] is the answer of [FetchExpiredStakingTxListByHeight], as a list in the order of the
    loops over it. *)
Definition disconnectStakingTransactions (expired : Z -> val (list (Hash * OutPoint * StakingTxInfo))) (height : Z) (txs : list MsgTx) : staking unit :=
  l ← lift (expired height);
  put_stakes l;;
  disconnect_stakes height txs.
End staking.

(** ** The ranking *)

Definition StakingTxRewardStart : Z := 24.
Definition MaxStakingRewardNum : nat := 30.

Record Pair := mkPair { p_Key : Hash; p_Value : Z; p_Weight : Uint128 }.

(** [bytes.Compare(a, b) < 0] *)
Fixpoint bytes_lt (a b : bytes) : bool :=
  match a, b with
  | _, [] => false
  | [], _ :: _ => true
  | x :: a', y :: b' => if x <? y then true else if y <? x then false else bytes_lt a' b'
  end.

(** [PairList.Less] *)
Definition pair_less (weightFirst : bool) (p q : Pair) : bool :=
  if weightFirst then
    if Uint128_Lt (p_Weight p) (p_Weight q) then true
    else if Uint128_Gt (p_Weight p) (p_Weight q) then false
    else if p_Value p <? p_Value q then true
    else if p_Value p >? p_Value q then false
    else bytes_lt (p_Key p) (p_Key q)
  else
    if p_Value p <? p_Value q then true
    else if p_Value p >? p_Value q then false
    else if Uint128_Lt (p_Weight p) (p_Weight q) then true
    else if Uint128_Gt (p_Weight p) (p_Weight q) then false
    else bytes_lt (p_Key p) (p_Key q).

(** [sort.Stable(sort.Reverse(pl))]: [p] stays before the later pairs it is not less than. *)
Fixpoint insert_pair (weightFirst : bool) (p : Pair) (l : list Pair) : list Pair :=
  match l with
  | [] => [p]
  | q :: rest => if pair_less weightFirst p q then q :: insert_pair weightFirst p rest else p :: l
  end.

Definition sort_pairs (weightFirst : bool) (l : list Pair) : list Pair := foldr (insert_pair weightFirst) [] l.

(** The value and weight of the outputs of one node. *)
Fixpoint node_totals (newestHeight : Z) (totalValue : Amount) (totalWeight : Uint128) (stakingTxs : list StakingTxInfo) : val (Amount * Uint128) :=
  match stakingTxs with
  | [] => Ret (totalValue, totalWeight)
  | stakingTx :: rest =>
      va ← wrap OfAmount (NewAmountFromUint (st_Value stakingTx));
      totalValue ← wrap OfAmount (Amount_Add totalValue va);
      check (newestHeight <? uint64 (st_BlkHeight stakingTx + StakingTxRewardStart)) errRewardBeforeHeight;;
      check (uint64 (st_BlkHeight stakingTx + st_FrozenPeriod stakingTx) <? newestHeight) errExpiredStaking;;
      let period := CalcEffectiveStakingPeriod newestHeight (mkStakingTx (st_BlkHeight stakingTx) (st_FrozenPeriod stakingTx)) in
      uWeight ← wrap OfAmount (Uint128_Mul (Amount_Value va) (NewUint128FromUint period));
      totalWeight ← wrap OfAmount (Uint128_Add totalWeight uWeight);
      node_totals newestHeight totalValue totalWeight rest
  end.

Fixpoint make_pairs (newestHeight : Z) (m : list (Hash * list StakingTxInfo)) : val (list Pair) :=
  match m with
  | [] => Ret []
  | (k, stakingTxs) :: rest =>
      '(totalValue, totalWeight) ← node_totals newestHeight ZeroAmount NewUint128 stakingTxs;
      v ← wrap OfAmount (Amount_IntValue totalValue);
      ps ← make_pairs newestHeight rest;
      Ret (mkPair k v totalWeight :: ps)
  end.

(** The number of nodes that are rewarded: from the 30th down to one that differs from the next;
    none when all of them are equal. *)
Fixpoint reward_cut (i : nat) (pairs : list Pair) : nat :=
  match i with
  | O => O
  | S j =>
      match pairs !! i, pairs !! j with
      | Some p, Some q => if (p_Value p =? p_Value q) && Uint128_Eq (p_Weight p) (p_Weight q) then reward_cut j pairs else i
      | _, _ => i
      end
  end.

(** [m] lists the entries of the map in the order of the loop. *)
Definition SortMap (m : list (Hash * list StakingTxInfo)) (newestHeight : Z) (isOnlyReward : bool) : val (list Pair) :=
  pairs ← make_pairs newestHeight m;
  let pairs := sort_pairs (SortStakingNodesByWeight newestHeight) pairs in
  if isOnlyReward && (MaxStakingRewardNum <? length pairs)%nat then Ret (take (reward_cut MaxStakingRewardNum pairs) pairs)
  else Ret pairs.

(** The store as [getReward] ranges over it: its nodes, each with all its outputs. *)
Definition list_stakes (nodes : StakingNodes) : list (Hash * list StakingTxInfo) :=
  (fun '(rsh, node) => (rsh, concat ((fun '(_, m) => snd <$> map_to_list m) <$> map_to_list node))) <$> map_to_list nodes.

(** The outputs that are old enough, by node; a node without one is not in the map. *)
Definition rewardable (height : Z) (v : StakingTxInfo) : bool := uint64 (height - st_BlkHeight v) >=? StakingTxRewardStart.

Fixpoint reward_list (height : Z) (stakingTxStore : list (Hash * list StakingTxInfo)) : list (Hash * list StakingTxInfo) :=
  match stakingTxStore with
  | [] => []
  | (rsh, node) :: rest =>
      match filter (fun v => rewardable height v = true) node with
      | [] => reward_list height rest
      | l => (rsh, l) :: reward_list height rest
      end
  end.

Definition pair_rank (p : Pair) : Rank := mkRank (p_Value p) (p_Key p) (p_Weight p).

(** [stakingTxStore] lists the store in the order of the loops over it.  [SortMap] ranges over
    the map built here in the same order; its answer does not depend on it, see StakingSpec.v. *)
Definition getReward (stakingTxStore : list (Hash * list StakingTxInfo)) (height : Z) : val (list Rank) :=
  let txList := reward_list height stakingTxStore in
  SortedStakingTx ← SortMap txList height true;
  Ret (map pair_rank SortedStakingTx).

(** ** The ranking of a block *)

Section lookup.
Context {HF : HashFunctions} {CL : ChiaLib}.

(** The staking part of the database. *)
Record StakingDb := mkStakingDb {
  sd_FetchUnexpiredStakingRank : Z -> val (list Rank);
  sd_FetchStakingTxMap : val StakingNodes;
  sd_FetchExpired : Z -> val (list (Hash * OutPoint * StakingTxInfo));
}.

Fixpoint undo_stakes (lk : Lookup) (db : StakingDb) (ps : list ptr) : staking unit :=
  match ps with
  | [] => mret tt
  | p :: rest =>
      n ← lift (deref (nodes (lk_tree lk) !! p));
      block ← lift (lk_block lk (node_Hash n));
      disconnectStakingTransactions (sd_FetchExpired db) (block_Height block) (Transactions block);;
      undo_stakes lk db rest
  end.

Fixpoint apply_stakes (lk : Lookup) (ps : list ptr) : staking unit :=
  match ps with
  | [] => mret tt
  | p :: rest =>
      n ← lift (deref (nodes (lk_tree lk) !! p));
      block ← lift (lk_cached lk (node_Hash n));
      connectStakingTransactions (block_Height block) (Transactions block);;
      apply_stakes lk rest
  end.

Definition fetchStakingTxStore (lk : Lookup) (db : StakingDb) (prev : val (option ptr)) (nodeHeight : Z) : val (list Rank) :=
  prevNode ← prev;
  extends ← extends_best (lk_tree lk) prevNode;
  if (extends : bool) then sd_FetchUnexpiredStakingRank db nodeHeight
  else
    stakingTxStore ← sd_FetchStakingTxMap db;
    '(detachNodes, attachNodes) ← reorganize_nodes (lk_tree lk) prevNode;
    match (undo_stakes lk db detachNodes;; apply_stakes lk attachNodes) stakingTxStore with
    | (Ret _, store) => getReward (list_stakes store) nodeHeight
    | (Err e, _) => Err e
    | (Panic, _) => Panic
    end.
End lookup.
