(* ===== verification/StakingSpec.v ===== *)
(** The ranking of the staking nodes is a function of the staking outputs: neither the order in
    which the nodes are listed nor that of the outputs of a node changes it. *)

From stdpp Require Import sorting.
From S2P Require Import Prelude AddressText TxCommon Wire Amount Forks Rewards Block MsgBlock Validate ValidateSpec BindingState BindingSpec Coinbase Staking.

(** * Totals *)

(** The fields of an output are unsigned. *)
Definition stake_ok (v : StakingTxInfo) : Prop := 0 <= st_Value v /\ 0 <= st_FrozenPeriod v /\ 0 <= st_BlkHeight v.

Definition stake_period (height : Z) (v : StakingTxInfo) : Z :=
  CalcEffectiveStakingPeriod height (mkStakingTx (st_BlkHeight v) (st_FrozenPeriod v)).

Definition stake_weight (height : Z) (v : StakingTxInfo) : Z := st_Value v * stake_period height v.

(** The output is old enough and has not expired. *)
Definition stake_active (height : Z) (v : StakingTxInfo) : Prop :=
  uint64 (st_BlkHeight v + StakingTxRewardStart) <= height <= uint64 (st_BlkHeight v + st_FrozenPeriod v).

Definition sum_of (f : StakingTxInfo -> Z) (l : list StakingTxInfo) : Z := foldr Z.add 0 (f <$> l).

Lemma sum_of_cons f v l : sum_of f (v :: l) = f v + sum_of f l.
Proof. done. Qed.

Lemma sum_of_perm f l l' : l ≡ₚ l' -> sum_of f l = sum_of f l'.
Proof. induction 1; rewrite ?sum_of_cons in *; lia. Qed.

Lemma stake_period_nonneg height v : stake_ok v -> 0 <= stake_period height v.
Proof.
  intros (_ & Hf & _). unfold stake_period, CalcEffectiveStakingPeriod. cbn [GetBlockHeight GetFrozenPeriod].
  repeat case_match; try lia; try (apply wrapU_range; lia). done.
Qed.

Lemma sum_of_nonneg f l : Forall (fun v => 0 <= f v) l -> 0 <= sum_of f l.
Proof. induction 1; [done|]. rewrite sum_of_cons. lia. Qed.

Lemma weights_nonneg height l : Forall stake_ok l -> Forall (fun v => 0 <= stake_weight height v) l.
Proof.
  intros Hl. eapply Forall_impl; [exact Hl|]. intros v Hv. pose proof (stake_period_nonneg height v Hv). destruct Hv. unfold stake_weight. nia.
Qed.

Lemma node_totals_Ret height tv tw l r :
  Forall stake_ok l -> 0 <= maxwells tv -> 0 <= u_value tw < 2 ^ 128 ->
  node_totals height tv tw l = Ret r <->
  Forall (stake_active height) l /\ (l = [] \/ maxwells tv + sum_of st_Value l <= max_maxwells) /\
  u_value tw + sum_of (stake_weight height) l < 2 ^ 128 /\
  r = (amount (maxwells tv + sum_of st_Value l), mkUint128 (u_value tw + sum_of (stake_weight height) l)).
Proof.
  revert tv tw. induction l as [|v l IH]; intros tv tw Hok Htv Htw; cbn [node_totals].
  - change (sum_of st_Value []) with 0. change (sum_of (stake_weight height) []) with 0. rewrite !Z.add_0_r.
    destruct tv as [[tv]], tw as [tw]. unfold amount, maxwells. cbn [a_value u_value] in *. split.
    + intros [= <-]. split_and!; [constructor|by left|lia|done].
    + by intros (_ & _ & _ & ->).
  - apply Forall_cons in Hok as [Hv Hok]. pose proof Hv as (Hv0 & Hf0 & Hb0). rewrite !sum_of_cons.
    pose proof (stake_period_nonneg height v Hv) as Hp. fold (stake_period height v).
    pose proof (sum_of_nonneg _ _ (weights_nonneg height l Hok)) as Hws.
    assert (0 <= sum_of st_Value l) as Hvs by (apply sum_of_nonneg; eapply Forall_impl; [exact Hok|]; by intros ? []).
    assert (0 <= stake_weight height v) as Hw by (unfold stake_weight; nia).
    unfold NewAmountFromUint, NewAmount. rewrite checkedAmount_spec.
    split.
    + intros (va & Hva & (tv' & Htv' & [Hc1 [Hc2 (uw & Huw & (tw' & Htw' & Hr)%bind_Ret)%bind_Ret]%check_bind]%check_bind)%bind_Ret)%bind_Ret.
      apply wrap_Ret in Hva, Htv'. case_decide; [|done]. injection Hva as <-. apply Add_Ret in Htv' as [Hr1 ->]. unfold maxwells in Hr1 at 2. cbn [a_value NewUint128FromUint u_value] in Hr1.
      apply wrap_Ret, validated_ok in Huw as [Eu Huw]. apply wrap_Ret, validated_ok in Htw' as [Et Htw'].
      cbn [Amount_Value a_value NewUint128FromUint u_value] in Eu. fold (stake_weight height v) in Eu.
      apply IH in Hr; [|done|cbn; lia|done]. destruct Hr as (Ha & Hs & Hlt & ->). cbn [amount maxwells a_value u_value NewUint128FromUint] in *.
      unfold maxwells in *. cbn [amount a_value u_value NewUint128FromUint] in *. unfold stake_active in *.
      split_and!; [constructor; [lia|done]|right|lia|f_equal; [|f_equal; lia]; unfold amount; do 2 f_equal; lia].
      destruct Hs as [-> | Hs]; [|lia]. change (sum_of st_Value []) with 0. lia.
    + intros ([Ha Hal]%Forall_cons & [[=]|Hs] & Hlt & ->).
      apply bind_Ret. exists (amount (st_Value v)). rewrite decide_True by (change (u_value (a_value MaxAmount)) with max_maxwells; cbn; lia). split; [done|].
      apply bind_Ret. exists (amount (maxwells tv + st_Value v)). split; [apply wrap_Ret, Add_Ret; split; [unfold maxwells in *; cbn; lia|done]|].
      unfold stake_active in Ha. apply check_bind. split; [lia|]. apply check_bind. split; [lia|]. apply bind_Ret. exists (mkUint128 (stake_weight height v)).
      split; [apply wrap_Ret, validated_Ret; unfold stake_weight in *; cbn; lia|]. apply bind_Ret. exists (mkUint128 (u_value tw + stake_weight height v)).
      split; [apply wrap_Ret, validated_Ret; cbn; lia|].
      apply IH; [done|unfold maxwells in *; cbn; lia|cbn; lia|]. unfold maxwells in *. cbn [amount a_value u_value] in *.
      split_and!; [done|right; lia|lia|f_equal; [unfold amount; do 2 f_equal; lia|f_equal; lia]].
Qed.

(** The totals of a node do not depend on the order of its outputs. *)
Lemma node_totals_perm height l l' r :
  Forall stake_ok l -> l ≡ₚ l' -> node_totals height ZeroAmount NewUint128 l = Ret r -> node_totals height ZeroAmount NewUint128 l' = Ret r.
Proof.
  intros Hok Hp. assert (Forall stake_ok l') as Hok' by (by rewrite <- Hp).
  rewrite !node_totals_Ret by (done || cbn; lia). intros (Ha & Hs & Hlt & ->). rewrite <- !(sum_of_perm _ _ _ Hp).
  split_and!; [by rewrite <- Hp| |done|done]. destruct Hs as [-> | Hs]; [left; symmetry; by apply Permutation_nil_l|by right].
Qed.

(** * The order *)

Lemma bytes_lt_irrefl a : bytes_lt a a = false.
Proof. induction a as [|x a IH]; [done|]. cbn. rewrite Z.ltb_irrefl. done. Qed.

Lemma bytes_lt_total a b : bytes_lt a b = false -> bytes_lt b a = false -> a = b.
Proof.
  revert b. induction a as [|x a IH]; intros [|y b]; cbn; try done.
  destruct (Z.ltb_spec x y), (Z.ltb_spec y x); try done; try lia. intros. f_equal; [lia|auto].
Qed.

Lemma bytes_lt_asym a b : bytes_lt a b = true -> bytes_lt b a = false.
Proof.
  revert b. induction a as [|x a IH]; intros [|y b]; cbn; try done.
  destruct (Z.ltb_spec x y), (Z.ltb_spec y x); try done; try lia. apply IH.
Qed.

Lemma bytes_ge_trans a b c : bytes_lt a b = false -> bytes_lt b c = false -> bytes_lt a c = false.
Proof.
  revert b c. induction a as [|x a IH]; intros [|y b] [|z c]; cbn; try done.
  destruct (Z.ltb_spec x y), (Z.ltb_spec y x); try done; try lia;
    destruct (Z.ltb_spec y z), (Z.ltb_spec z y); try done; try lia;
    destruct (Z.ltb_spec x z), (Z.ltb_spec z x); try done; try lia. apply IH.
Qed.

(** A node ranks before another: by weight, then value, then key, or by value, then weight, then
    key. *)
Definition pair_ge (w : bool) (p q : Pair) : Prop :=
  let '(a, b, a', b') := if w then (u_value (p_Weight p), p_Value p, u_value (p_Weight q), p_Value q) else (p_Value p, u_value (p_Weight p), p_Value q, u_value (p_Weight q)) in
  a' < a \/ a = a' /\ (b' < b \/ b = b' /\ bytes_lt (p_Key p) (p_Key q) = false).

Lemma pair_ge_spec w p q : pair_less w p q = false <-> pair_ge w p q.
Proof.
  unfold pair_ge, pair_less, Uint128_Lt, Uint128_Gt, Uint128_Cmp. rewrite !Z.gtb_ltb.
  destruct w, (Z.compare_spec (u_value (p_Weight p)) (u_value (p_Weight q))), (Z.ltb_spec (p_Value p) (p_Value q)), (Z.ltb_spec (p_Value q) (p_Value p));
    cbn; try lia; naive_solver lia.
Qed.

#[global] Instance pair_ge_trans w : Transitive (pair_ge w).
Proof.
  intros p q r. unfold pair_ge. pose proof (bytes_ge_trans (p_Key p) (p_Key q) (p_Key r)). destruct w; intuition lia.
Qed.

#[global] Instance pair_ge_anti w : AntiSymm (=) (pair_ge w).
Proof.
  intros p q. unfold pair_ge. pose proof (bytes_lt_total (p_Key p) (p_Key q)). intros H1 H2.
  assert (p_Key p = p_Key q /\ p_Value p = p_Value q /\ u_value (p_Weight p) = u_value (p_Weight q)) as (? & ? & ?) by (destruct w; intuition lia).
  destruct p as [? ? []], q as [? ? []]. cbn in *. congruence.
Qed.

Lemma pair_ge_refl w p : pair_ge w p p.
Proof. unfold pair_ge. destruct w; right; (split; [done|]); right; (split; [done|]); apply bytes_lt_irrefl. Qed.

Lemma pair_less_ge w p q : pair_less w p q = true -> pair_ge w q p.
Proof.
  intros H. apply not_false_iff_true in H. rewrite pair_ge_spec in H. unfold pair_ge in *.
  pose proof (bytes_lt_asym (p_Key p) (p_Key q)) as Ha.
  destruct (Z.lt_total (u_value (p_Weight p)) (u_value (p_Weight q))) as [?|[?|?]], (Z.lt_total (p_Value p) (p_Value q)) as [?|[?|?]],
    w, (bytes_lt (p_Key p) (p_Key q)); naive_solver lia.
Qed.

Lemma insert_pair_perm w p l : insert_pair w p l ≡ₚ p :: l.
Proof. induction l as [|q l IH]; [done|]. cbn. case_match; [|done]. rewrite IH. constructor. Qed.

Lemma sort_pairs_perm w l : sort_pairs w l ≡ₚ l.
Proof. induction l as [|p l IH]; [done|]. cbn. by rewrite insert_pair_perm, IH. Qed.

Lemma insert_pair_sorted w p l : StronglySorted (pair_ge w) l -> StronglySorted (pair_ge w) (insert_pair w p l).
Proof.
  induction 1 as [|q l Hs IH Hq]; [repeat constructor|]. cbn. case_match eqn:E.
  - constructor; [done|]. rewrite insert_pair_perm. constructor; [by apply pair_less_ge|done].
  - apply pair_ge_spec in E. constructor; [by constructor|]. constructor; [done|]. eapply Forall_impl; [exact Hq|]. intros r Hr. by transitivity q.
Qed.

Lemma sort_pairs_sorted w l : StronglySorted (pair_ge w) (sort_pairs w l).
Proof. induction l as [|p l IH]; [constructor|]. by apply insert_pair_sorted. Qed.

Lemma sort_pairs_unique w l l' : l ≡ₚ l' -> sort_pairs w l = sort_pairs w l'.
Proof.
  intros Hp. apply (StronglySorted_unique (pair_ge w)); [apply sort_pairs_sorted|apply sort_pairs_sorted|]. by rewrite !sort_pairs_perm.
Qed.

(** * The ranking *)

(** Two listings of the same outputs by node. *)
Definition same_stakes (m m' : list (Hash * list StakingTxInfo)) : Prop :=
  exists m1, m ≡ₚ m1 /\ Forall2 (fun x y => x.1 = y.1 /\ x.2 ≡ₚ y.2) m1 m'.

Definition stakes_ok (m : list (Hash * list StakingTxInfo)) : Prop := Forall (fun x => Forall stake_ok x.2) m.

Lemma make_pairs_cons height k l m ps :
  make_pairs height ((k, l) :: m) = Ret ps <->
  exists tv tw v ps', node_totals height ZeroAmount NewUint128 l = Ret (tv, tw) /\ Amount_IntValue tv = Ret v /\ make_pairs height m = Ret ps' /\ ps = mkPair k v tw :: ps'.
Proof.
  cbn [make_pairs]. split.
  - intros ([tv tw] & Ht & (v & Hv & (ps' & Hp & [= <-])%bind_Ret)%bind_Ret)%bind_Ret. apply wrap_Ret in Hv. eauto 10.
  - intros (tv & tw & v & ps' & -> & Hv & -> & ->). cbn. by rewrite Hv.
Qed.

Lemma make_pairs_perm height m m' ps : m ≡ₚ m' -> make_pairs height m = Ret ps -> exists ps', make_pairs height m' = Ret ps' /\ ps ≡ₚ ps'.
Proof.
  intros Hp. revert ps. induction Hp as [|[k l] m m' Hp IH|[k l] [k' l'] m|m m1 m2 Hp1 IH1 Hp2 IH2]; intros ps.
  - intros [= <-]. by exists [].
  - rewrite make_pairs_cons. intros (tv & tw & v & ps' & Ht & Hv & (ps1 & H1 & Hps)%IH & ->). exists (mkPair k v tw :: ps1).
    rewrite make_pairs_cons. split; [eauto 10|by constructor].
  - rewrite make_pairs_cons. intros (tv & tw & v & ps' & Ht & Hv & (tv' & tw' & v' & ps2 & Ht' & Hv' & Hm & ->)%make_pairs_cons & ->).
    exists (mkPair k v' tw' :: mkPair k' v tw :: ps2). rewrite make_pairs_cons. split; [|apply Permutation_swap].
    exists tv', tw', v', (mkPair k' v tw :: ps2). rewrite make_pairs_cons. eauto 15.
  - intros (ps1 & Hm1 & Hq1)%IH1. destruct (IH2 _ Hm1) as (ps2 & Hm2 & Hq2). exists ps2. split; [done|]. by rewrite Hq1.
Qed.

Lemma make_pairs_same height m m' ps :
  stakes_ok m -> Forall2 (fun x y => x.1 = y.1 /\ x.2 ≡ₚ y.2) m m' -> make_pairs height m = Ret ps -> make_pairs height m' = Ret ps.
Proof.
  intros Hok H2. revert ps Hok. induction H2 as [|[k l] [k' l'] m m' [[= ->] Hl] H2 IH]; intros ps Hok; [done|].
  apply Forall_cons in Hok as [Hok1 Hok2]. rewrite !make_pairs_cons. intros (tv & tw & v & ps' & Ht & Hv & Hm & ->).
  exists tv, tw, v, ps'. split_and!; [by eapply node_totals_perm|done|by apply IH|done].
Qed.

Lemma make_pairs_stakes height m m' ps :
  stakes_ok m -> same_stakes m m' -> make_pairs height m = Ret ps -> exists ps', make_pairs height m' = Ret ps' /\ ps ≡ₚ ps'.
Proof.
  intros Hok (m1 & Hp & H2) Hm. destruct (make_pairs_perm _ _ _ _ Hp Hm) as (ps1 & Hm1 & Hps). exists ps1. split; [|done].
  eapply make_pairs_same; [|exact H2|exact Hm1]. unfold stakes_ok. by rewrite <- Hp.
Qed.

(** The answer of [SortMap] does not depend on the order of the loops. *)
Lemma SortMap_stakes height only m m' ps : stakes_ok m -> same_stakes m m' -> SortMap m height only = Ret ps -> SortMap m' height only = Ret ps.
Proof.
  intros Hok Hs (ps1 & Hm & Hr)%bind_Ret. destruct (make_pairs_stakes _ _ _ _ Hok Hs Hm) as (ps2 & Hm' & Hp).
  unfold SortMap. rewrite Hm'. cbn [mbind outcome_bind]. cbv zeta in Hr |- *. by rewrite <- (sort_pairs_unique _ _ _ Hp).
Qed.

(** Nor does the map [getReward] builds, up to that order. *)
Lemma reward_list_cons height k l m : reward_list height ((k, l) :: m) = reward_list height [(k, l)] ++ reward_list height m.
Proof. cbn. by destruct (filter _ l). Qed.

Lemma reward_list_perm height m m' : m ≡ₚ m' -> reward_list height m ≡ₚ reward_list height m'.
Proof.
  induction 1 as [|[k l] m m' _ IH|[k l] [k' l'] m|m m1 m2 _ IH1 _ IH2]; [done| | |by rewrite IH1].
  - by rewrite reward_list_cons, IH, <- reward_list_cons.
  - rewrite reward_list_cons, (reward_list_cons _ k l), (reward_list_cons _ k l (_ :: _)), (reward_list_cons _ k' l' m). solve_Permutation.
Qed.

Lemma reward_list_same height m m' : same_stakes m m' -> same_stakes (reward_list height m) (reward_list height m').
Proof.
  intros (m1 & Hp & H2). exists (reward_list height m1). split; [by apply reward_list_perm|].
  clear Hp. induction H2 as [|[k l] [k' l'] m1' m'' [[= ->] Hl] H2 IH]; [constructor|]. cbn.
  assert (filter (fun v => rewardable height v = true) l ≡ₚ filter (fun v => rewardable height v = true) l') as Hf by by rewrite Hl.
  destruct (filter _ l) as [|x f], (filter _ l') as [|y f']; [done| | |].
  - by apply Permutation_nil_cons in Hf.
  - symmetry in Hf. by apply Permutation_nil_cons in Hf.
  - by constructor.
Qed.

Lemma reward_cut_le i ps : (reward_cut i ps <= i)%nat.
Proof. induction i as [|i IH]; [done|]. cbn [reward_cut]. repeat case_match; lia. Qed.

(** C20: The ranking of the staking nodes is the same on every node of the network: whatever the
    order in which the store of nodes and the outputs of each are ranged over, and whatever the
    order in which [SortMap] ranges over the outputs old enough to be rewarded, [getReward]
    returns the same ranks; they are in descending order of weight, value and key (of value
    first before MASSip1), and no more than 30. *)
Theorem staking_rank_deterministic store store' height ranks :
  stakes_ok (reward_list height store) -> same_stakes store store' -> getReward store height = Ret ranks ->
  getReward store' height = Ret ranks /\ (length ranks <= MaxStakingRewardNum)%nat /\
  exists pairs, ranks = map pair_rank pairs /\ StronglySorted (pair_ge (SortStakingNodesByWeight height)) pairs /\
    forall txList, same_stakes (reward_list height store) txList -> SortMap txList height true = Ret pairs.
Proof.
  intros Hok Hs (pairs & Hm & [= <-])%bind_Ret. split.
  - unfold getReward. cbv zeta. by rewrite (SortMap_stakes _ _ _ _ _ Hok (reward_list_same height _ _ Hs) Hm).
  - assert (forall txList, same_stakes (reward_list height store) txList -> SortMap txList height true = Ret pairs) as Hany.
    { intros txList Ht. by apply (SortMap_stakes _ _ _ _ _ Hok Ht). }
    apply bind_Ret in Hm as (ps & _ & Hr). cbv zeta in Hr.
    pose proof (sort_pairs_sorted (SortStakingNodesByWeight height) ps) as Hsort. rewrite andb_true_l in Hr. case_match eqn:E; apply Ret_inj in Hr; subst pairs.
    + rewrite length_map, length_take. pose proof (reward_cut_le MaxStakingRewardNum (sort_pairs (SortStakingNodesByWeight height) ps)). split; [lia|].
      eexists. split; [done|]. split; [|exact Hany]. rewrite <- (take_drop (reward_cut MaxStakingRewardNum (sort_pairs (SortStakingNodesByWeight height) ps)) _) in Hsort.
      by apply StronglySorted_app in Hsort as (_ & ? & _).
    + rewrite length_map. apply Nat.ltb_ge in E. split; [done|]. by eexists.
Qed.
