(* ===== verification/StakingUndo.v ===== *)
(** Undoing a block restores the staking outputs: [disconnectStakingTransactions] after
    [connectStakingTransactions], for the ranking of a block on a side chain.  The nested maps
    of [StakingNodes] are related to a flat map of the outputs, since they may keep empty parts. *)

From S2P Require Import Prelude AddressText TxCommon Hashes Wire Amount Forks Block MsgBlock Validate ValidateSpec BindingState BindingSpec Coinbase Staking.

(** * The outputs as a flat map *)

Abbreviation StakeKey := (Hash * Z * OutPoint)%type.
Abbreviation Stakes := (gmap StakeKey StakingTxInfo).

Definition staked (s : StakingNodes) (k : StakeKey) : option StakingTxInfo :=
  s !! k.1.1 ≫= fun node => node !! k.1.2 ≫= fun m => m !! k.2.

(** Every output is filed under its height. *)
Record flattens (s : StakingNodes) (F : Stakes) : Prop := {
  rep_lookup : forall k, staked s k = F !! k;
  rep_height : forall k v, F !! k = Some v -> st_BlkHeight v = k.1.2;
}.

Definition key_of (x : Hash * OutPoint * StakingTxInfo) : StakeKey := (x.1.1, st_BlkHeight x.2, x.1.2).
Definition add_stake (F : Stakes) (x : Hash * OutPoint * StakingTxInfo) : Stakes := <[key_of x := x.2]> F.

(** A change of one entry of the nested maps. *)
Lemma staked_insert s rsh h m (sh : StakingTxOutAtHeight) k :
  default ∅ (s !! rsh) = sh ->
  staked (<[rsh := <[h := m]> sh]> s) k = if decide (k.1 = (rsh, h)) then m !! k.2 else staked s k.
Proof.
  intros <-. unfold staked. destruct k as [[r h'] op]. cbn [fst snd].
  destruct (decide (r = rsh)) as [->|Hne].
  - rewrite lookup_insert_eq. cbn. destruct (decide (h' = h)) as [->|Hh].
    + rewrite lookup_insert_eq. cbn. by rewrite decide_True.
    + rewrite lookup_insert_ne by done. rewrite decide_False by congruence. by destruct (s !! rsh).
  - rewrite lookup_insert_ne by done. by rewrite decide_False by congruence.
Qed.

Lemma staked_default s k : staked s k = default ∅ (default ∅ (s !! k.1.1) !! k.1.2) !! k.2.
Proof. unfold staked. destruct (s !! k.1.1) as [node|]; [|done]. cbn. by destruct (node !! k.1.2). Qed.

Lemma put_staking_rep s F rsh op v :
  flattens s F -> F !! (rsh, st_BlkHeight v, op) = None ->
  exists s', put_staking rsh op v s = (Ret tt, s') /\ flattens s' (add_stake F (rsh, op, v)).
Proof.
  intros [Hl Hh] HN. rewrite <- Hl, staked_default in HN. cbn [fst snd] in HN.
  exists (<[rsh := <[st_BlkHeight v := <[op := v]> (default ∅ (default ∅ (s !! rsh) !! st_BlkHeight v))]> (default ∅ (s !! rsh))]> s). split.
  - unfold put_staking, AtHeight_Put. rewrite bind_gets. cbn [id]. by rewrite HN.
  - unfold add_stake, key_of. cbn [fst snd]. split.
    + intros k. rewrite (staked_insert s rsh (st_BlkHeight v) _ _ k eq_refl). destruct k as [[r h] o]. cbn [fst snd]. case_decide as E.
      * injection E as -> ->. destruct (decide (o = op)) as [->|Ho]; [by rewrite !lookup_insert_eq|].
        rewrite !lookup_insert_ne by congruence. rewrite <- Hl, staked_default. done.
      * rewrite lookup_insert_ne by congruence. apply Hl.
    + intros k v'. destruct (decide (k = (rsh, st_BlkHeight v, op))) as [->|Hne]; [rewrite lookup_insert_eq; by intros [= <-]|].
      rewrite lookup_insert_ne by done. apply Hh.
Qed.

Lemma put_staking_dup s F rsh op v v' :
  flattens s F -> F !! (rsh, st_BlkHeight v, op) = Some v' -> forall s', put_staking rsh op v s <> (Ret tt, s').
Proof.
  intros [Hl _] HS s'. rewrite <- Hl, staked_default in HS. cbn [fst snd] in HS.
  unfold put_staking, AtHeight_Put. rewrite bind_gets. cbn [id]. by rewrite HS.
Qed.

Lemma put_stakes_rep l s F :
  flattens s F -> NoDup (key_of <$> l) -> Forall (fun x => F !! key_of x = None) l ->
  exists s', put_stakes l s = (Ret tt, s') /\ flattens s' (foldl add_stake F l).
Proof.
  revert s F. induction l as [|[[rsh op] v] l IH]; intros s F Hr Hn Hf; [by exists s|].
  rewrite fmap_cons in Hn. apply NoDup_cons in Hn as [Hn1 Hn2]. apply Forall_cons in Hf as [Hf1 Hf2].
  destruct (put_staking_rep s F rsh op v Hr Hf1) as (s1 & H1 & Hr1).
  destruct (IH s1 (add_stake F (rsh, op, v)) Hr1 Hn2) as (s2 & H2 & Hr2).
  - rewrite Forall_forall in *. intros x Hx. unfold add_stake. rewrite lookup_insert_ne; [by apply Hf2|].
    intros E. apply Hn1. rewrite E. by apply list_elem_of_fmap_2.
  - exists s2. cbn [put_stakes]. by rewrite (bind_step _ _ _ _ _ H1).
Qed.

(** When all the outputs could be put, they were new and distinct. *)
Lemma put_stakes_Ret l s F s' :
  flattens s F -> put_stakes l s = (Ret tt, s') -> NoDup (key_of <$> l) /\ Forall (fun x => F !! key_of x = None) l /\ flattens s' (foldl add_stake F l).
Proof.
  revert s F. induction l as [|[[rsh op] v] l IH]; intros s F Hr.
  - intros [= <-]. split_and!; [constructor|constructor|done].
  - cbn [put_stakes]. intros ([] & s1 & H1 & H2)%prog_bind_Ret. destruct (F !! (rsh, st_BlkHeight v, op)) as [v'|] eqn:HF.
    { by destruct (put_staking_dup s F rsh op v v' Hr HF s1). }
    destruct (put_staking_rep s F rsh op v Hr HF) as (s1' & H1' & Hr1). rewrite H1 in H1'. injection H1' as <-.
    destruct (IH s1 _ Hr1 H2) as (Hn & Hf & Hr2). split_and!; [|constructor; [done|]|done].
    + rewrite fmap_cons. apply NoDup_cons. split; [|done]. intros (x & E & Hx)%list_elem_of_fmap.
      rewrite Forall_forall in Hf. specialize (Hf x Hx). unfold add_stake in Hf. change (key_of (rsh, op, v)) with (rsh, st_BlkHeight v, op) in *.
      rewrite <- E, lookup_insert_eq in Hf. done.
    + eapply Forall_impl; [exact Hf|]. intros x Hx. unfold add_stake in Hx. destruct (decide (key_of (rsh, op, v) = key_of x)) as [E|Hne];
      [rewrite E, lookup_insert_eq in Hx; done|by rewrite lookup_insert_ne in Hx].
Qed.

(** ** Deleting *)

Fixpoint delete_stakes (height : Z) (l : list (Hash * OutPoint * StakingTxInfo)) : staking unit :=
  match l with
  | [] => mret tt
  | (rsh, op, _) :: rest =>
      (nodes ← gets id;
       match StakingNodes_Delete rsh height op nodes with
       | None => throw errStakingTxNotFound
       | Some nodes' => modify (fun _ => if StakingNodes_IsEmpty rsh nodes' then delete rsh nodes' else nodes')
       end);;
      delete_stakes height rest
  end.

Lemma IsEmpty_staked s rsh : StakingNodes_IsEmpty rsh s = true -> forall h op, staked s (rsh, h, op) = None.
Proof.
  unfold StakingNodes_IsEmpty. intros He h op. rewrite forallb_forall in He. rewrite staked_default. cbn [fst snd].
  destruct (default ∅ (s !! rsh) !! h) as [m|] eqn:Hm; [|done]. cbn.
  assert (m = ∅) as ->; [|done]. apply (bool_decide_eq_true_1 _), He, list_elem_of_In, list_elem_of_fmap. exists (h, m). split; [done|]. by apply elem_of_map_to_list.
Qed.

(** A node without outputs may be dropped. *)
Lemma drop_empty s rsh k : staked (if StakingNodes_IsEmpty rsh s then delete rsh s else s) k = staked s k.
Proof.
  destruct (StakingNodes_IsEmpty rsh s) eqn:He; [|done]. destruct k as [[r h] op]. destruct (decide (r = rsh)) as [->|Hne].
  - rewrite (IsEmpty_staked _ _ He). unfold staked. cbn [fst]. by rewrite lookup_delete_eq.
  - unfold staked. cbn [fst snd]. by rewrite lookup_delete_ne.
Qed.

Lemma delete_stake_rep s F rsh h op v :
  flattens s F -> F !! (rsh, h, op) = Some v ->
  exists s', StakingNodes_Delete rsh h op s = Some s' /\ flattens (if StakingNodes_IsEmpty rsh s' then delete rsh s' else s') (delete (rsh, h, op) F).
Proof.
  intros [Hl Hh] HF. rewrite <- Hl in HF. unfold staked in HF. cbn [fst snd] in HF.
  destruct (s !! rsh) as [m1|] eqn:H1; [|done]. cbn in HF. destruct (m1 !! h) as [m2|] eqn:H2; [|done]. cbn in HF.
  exists (<[rsh := <[h := delete op m2]> m1]> s). unfold StakingNodes_Delete. rewrite H1, H2, HF. split; [done|]. split.
  - intros k. rewrite drop_empty, (staked_insert s rsh h (delete op m2) m1 k) by (by rewrite H1). destruct k as [[r h'] o]. cbn [fst snd]. case_decide as E.
    + injection E as -> ->. destruct (decide (o = op)) as [->|Ho]; [by rewrite !lookup_delete_eq|].
      rewrite !lookup_delete_ne by congruence. rewrite <- Hl. unfold staked. cbn [fst snd]. by rewrite H1; cbn; rewrite H2.
    + rewrite lookup_delete_ne by congruence. apply Hl.
  - intros k v' Hk. apply lookup_delete_Some in Hk as [_ Hk]. by apply Hh.
Qed.

Definition remove_stake (F : Stakes) (x : Hash * OutPoint * StakingTxInfo) : Stakes := delete (key_of x) F.

Lemma delete_stakes_rep height l s F :
  flattens s F -> NoDup (key_of <$> l) -> Forall (fun x => st_BlkHeight x.2 = height /\ is_Some (F !! key_of x)) l ->
  exists s', delete_stakes height l s = (Ret tt, s') /\ flattens s' (foldl remove_stake F l).
Proof.
  revert s F. induction l as [|[[rsh op] v] l IH]; intros s F Hr Hn Hf; [by exists s|].
  rewrite fmap_cons in Hn. apply NoDup_cons in Hn as [Hn1 Hn2]. apply Forall_cons in Hf as [[E [v' Hv']] Hf2]. cbn [snd] in E.
  unfold key_of in Hv'. cbn [fst snd] in Hv'. rewrite E in Hv'.
  destruct (delete_stake_rep s F rsh height op v' Hr Hv') as (s1 & H1 & Hr1).
  destruct (IH _ (remove_stake F (rsh, op, v)) ltac:(unfold remove_stake, key_of; cbn [fst snd]; rewrite E; exact Hr1) Hn2) as (s2 & H2 & Hr2).
  - rewrite Forall_forall in *. intros x Hx. destruct (Hf2 x Hx) as [Ex Hs]. split; [done|]. unfold remove_stake. rewrite lookup_delete_ne; [done|].
    intros E'. apply Hn1. rewrite E'. by apply list_elem_of_fmap_2.
  - exists s2. cbn [delete_stakes]. rewrite bind_bind, bind_gets. cbn [id]. rewrite H1, bind_modify. by split.
Qed.

(** ** Expiry *)

Lemma expire_staked height s k : staked (expire_stakes height s) k = staked s k ≫= fun v => if expires height v then None else Some v.
Proof.
  unfold expire_stakes. set (s' := fmap _ s).
  assert (staked s' k = staked s k ≫= fun v => if expires height v then None else Some v) as E.
  { unfold staked, s'. rewrite lookup_fmap. destruct (s !! k.1.1) as [node|]; [|done]. cbn. rewrite lookup_fmap. destruct (node !! k.1.2) as [m|]; [|done]. cbn.
    destruct (m !! k.2) as [v|] eqn:Hv; cbn.
    - destruct (expires height v) eqn:Hx.
      + apply map_lookup_filter_None. right. intros v'. rewrite Hv. intros [= <-]. by rewrite Hx.
      + by apply map_lookup_filter_Some.
    - apply map_lookup_filter_None. by left. }
  rewrite <- E. clear E. destruct k as [[r h] op]. unfold staked at 1. cbn [fst snd].
  destruct (StakingNodes_IsEmpty r s') eqn:He.
  - rewrite (IsEmpty_staked _ _ He). assert (filter (fun '(rsh, _) => StakingNodes_IsEmpty rsh s' = false) s' !! r = None) as ->; [|done].
    apply map_lookup_filter_None. right. intros x _. by rewrite He.
  - assert (filter (fun '(rsh, _) => StakingNodes_IsEmpty rsh s' = false) s' !! r = s' !! r) as ->; [|done].
    destruct (s' !! r) eqn:Hr; [by apply map_lookup_filter_Some|]. apply map_lookup_filter_None. by left.
Qed.

Lemma expire_rep height s F : flattens s F -> flattens (expire_stakes height s) (filter (fun '(_, v) => expires height v = false) F).
Proof.
  intros [Hl Hh]. split.
  - intros k. rewrite expire_staked, Hl. symmetry. destruct (F !! k) as [v|] eqn:Hv; cbn.
    + destruct (expires height v) eqn:Hx; [|by apply map_lookup_filter_Some]. apply map_lookup_filter_None. right. intros v'. rewrite Hv. intros [= <-]. by rewrite Hx.
    + apply map_lookup_filter_None. by left.
  - intros k v [Hk _]%map_lookup_filter_Some. by apply Hh.
Qed.

(** * Undoing a block *)

Section undo.
Context {HF : HashFunctions}.

Lemma put_stakes_app l1 l2 s s1 : put_stakes l1 s = (Ret tt, s1) -> put_stakes (l1 ++ l2) s = put_stakes l2 s1.
Proof.
  revert s. induction l1 as [|[[rsh op] v] l1 IH]; intros s; [by intros [= ->]|]. cbn [put_stakes app].
  intros ([] & t & H1 & H2)%prog_bind_Ret. rewrite (bind_step _ _ _ _ _ H1). by apply IH.
Qed.

Lemma delete_stakes_app height l1 l2 s :
  delete_stakes height (l1 ++ l2) s = (delete_stakes height l1;; delete_stakes height l2) s.
Proof.
  revert s. induction l1 as [|[[rsh op] v] l1 IH]; intros s; [done|]. cbn [delete_stakes app].
  unfold mbind, prog_bind. repeat (case_match; simplify_eq/=; try done); rewrite IH; unfold mbind, prog_bind; by repeat (case_match; simplify_eq/=).
Qed.

(** An entry made for one of the outputs. *)
Definition stake_from (height : Z) (outs : list TxOut) (x : Hash * OutPoint * StakingTxInfo) : Prop :=
  st_BlkHeight x.2 = height /\ exists out, out ∈ outs /\ staking_output out = Ret (Some (st_FrozenPeriod x.2, x.1.1)).

Lemma stake_from_mono height outs outs' l : outs ⊆ outs' -> Forall (stake_from height outs) l -> Forall (stake_from height outs') l.
Proof. intros Hs Hl. eapply Forall_impl; [exact Hl|]. intros x (H1 & out & Ho & H2). split; [done|]. exists out. auto. Qed.

(** The staking outputs that a run of [connect_stakes] put, which [disconnect_stakes] deletes. *)
Lemma add_stakes_Ret height hash i outs s s' :
  add_stakes height hash i outs s = (Ret tt, s') ->
  exists l, Forall (stake_from height outs) l /\ put_stakes l s = (Ret tt, s') /\ forall t, remove_stakes height hash i outs t = delete_stakes height l t.
Proof.
  revert i s. induction outs as [|out outs IH]; intros i s; cbn [add_stakes].
  - intros [= <-]. by exists [].
  - intros (o & t & [= Ho <-] & ([] & s1 & H1 & H2)%prog_bind_Ret)%prog_bind_Ret. destruct (IH _ _ H2) as (l & Hl & Hp & Hd).
    destruct o as [[frozen rsh]|].
    + exists ((rsh, mkOutPoint hash (uint32 i), mkStakingTxInfo (uint64 (Value out)) frozen height) :: l). split_and!; [constructor; [split; [done|]; exists out; split; [by left|done]|eapply stake_from_mono; [|exact Hl]; set_solver]| |].
      * cbn [put_stakes]. by rewrite (bind_step _ _ _ _ _ H1).
      * intros t. cbn [remove_stakes delete_stakes]. rewrite Ho, bind_lift_Ret. unfold mbind, prog_bind. by repeat (case_match; simplify_eq/=).
    + injection H1 as <-. exists l. split_and!; [eapply stake_from_mono; [|exact Hl]; set_solver|done|]. intros t. cbn [remove_stakes]. rewrite Ho, bind_lift_Ret. apply Hd.
Qed.

Lemma connect_stakes_Ret height txs s s' :
  connect_stakes height txs s = (Ret tt, s') ->
  exists l, Forall (stake_from height (concat (TxOuts <$> txs))) l /\ put_stakes l s = (Ret tt, s') /\ forall t, disconnect_stakes height txs t = delete_stakes height l t.
Proof.
  revert s. induction txs as [|tx txs IH]; intros s; cbn [connect_stakes].
  - intros [= <-]. by exists [].
  - intros ([] & s1 & (l1 & Hl1 & Hp1 & Hd1)%add_stakes_Ret & (l2 & Hl2 & Hp2 & Hd2)%IH)%prog_bind_Ret.
    exists (l1 ++ l2). rewrite fmap_cons. cbn [concat]. split_and!; [apply Forall_app; split; (eapply stake_from_mono; [|eassumption]; set_solver)|by rewrite (put_stakes_app _ _ _ _ Hp1)|].
    intros t. rewrite delete_stakes_app. cbn [disconnect_stakes]. unfold mbind, prog_bind. rewrite Hd1. by repeat (case_match; simplify_eq/=).
Qed.

Lemma add_stakes_lookup (l : list (Hash * OutPoint * StakingTxInfo)) F k :
  NoDup (key_of <$> l) -> foldl add_stake F l !! k = match list_find (fun x => key_of x = k) l with Some (_, x) => Some x.2 | None => F !! k end.
Proof.
  revert F. induction l as [|x l IH]; intros F Hn; [done|]. rewrite fmap_cons in Hn. apply NoDup_cons in Hn as [Hn1 Hn2]. cbn [foldl list_find]. rewrite IH by done.
  destruct (decide (key_of x = k)) as [E|E].
  - destruct (list_find (fun x0 => key_of x0 = k) l) as [[j y]|] eqn:Hf; cbn [fmap option_fmap option_map prod_map].
    + apply list_find_Some in Hf as (Hy & Ey & _). destruct Hn1. rewrite E, <- Ey. apply list_elem_of_fmap_2. by eapply list_elem_of_lookup_2.
    + unfold add_stake. by rewrite E, lookup_insert_eq.
  - destruct (list_find (fun x0 => key_of x0 = k) l) as [[j y]|] eqn:Hf; cbn [fmap option_fmap option_map prod_map]; [done|]. unfold add_stake. by rewrite lookup_insert_ne.
Qed.

Lemma remove_stakes_lookup (l : list (Hash * OutPoint * StakingTxInfo)) F k : foldl remove_stake F l !! k = if decide (k ∈ (key_of <$> l)) then None else F !! k.
Proof.
  revert F. induction l as [|x l IH]; intros F; [done|]. cbn [foldl]. rewrite IH, fmap_cons. unfold remove_stake.
  destruct (decide (k = key_of x)) as [->|Hne].
  - rewrite lookup_delete_eq. by repeat case_decide; set_solver.
  - rewrite lookup_delete_ne by done. by repeat case_decide; set_solver.
Qed.

(** C21: Undoing a block restores the staking outputs: after a block was applied to the staking
    nodes (its staking outputs were added and those that expire at its height removed), undoing
    it with the list of the outputs that expired there succeeds and leaves exactly the outputs of
    before.  The staking outputs of a block have a frozen period, as validation demands. *)
Theorem staking_undo s s1 F height txs expired :
  0 <= height < 2 ^ 63 ->
  (forall out frozen rsh, out ∈ concat (TxOuts <$> txs) -> staking_output out = Ret (Some (frozen, rsh)) -> 0 < frozen < 2 ^ 63) ->
  flattens s F -> NoDup (key_of <$> expired) -> (forall x, x ∈ expired <-> F !! key_of x = Some x.2 /\ expires height x.2 = true) ->
  connectStakingTransactions height txs s = (Ret tt, s1) ->
  exists s2, disconnectStakingTransactions (fun _ => Ret expired) height txs s1 = (Ret tt, s2) /\ flattens s2 F.
Proof.
  intros Hh Hfrozen Hr Hne Hexp ([] & s0 & (l & Hl & Hp & Hd)%connect_stakes_Ret & [= <-])%prog_bind_Ret.
  destruct (put_stakes_Ret _ _ _ _ Hr Hp) as (Hn & Hf & Hr0). pose proof (expire_rep height _ _ Hr0) as Hr1.
  assert (Forall (fun x => expires height x.2 = false) l) as Hlive.
  { eapply Forall_impl; [exact Hl|]. intros x (Hx & out & Ho & Hso). specialize (Hfrozen _ _ _ Ho Hso). unfold expires. rewrite Hx, wrapU_small by lia. lia. }
  assert (forall x, x ∈ expired -> foldl add_stake F l !! key_of x = Some x.2) as Hold.
  { intros x [Hx _]%Hexp. rewrite add_stakes_lookup by done. destruct (list_find _ l) as [[j y]|] eqn:Hy; [|done].
    apply list_find_Some in Hy as (Hy & Ey & _). rewrite Forall_lookup in Hf. specialize (Hf _ _ Hy). cbn in Hf. congruence. }
  destruct (put_stakes_rep expired _ _ Hr1 Hne) as (s2 & H2 & Hr2).
  { apply Forall_forall. intros x Hx. apply map_lookup_filter_None. right. intros v. rewrite (Hold x Hx). intros [= <-]. apply Hexp in Hx as [_ ->]. done. }
  assert (foldl add_stake (filter (fun '(_, v) => expires height v = false) (foldl add_stake F l)) expired = foldl add_stake F l) as Eback.
  { apply map_eq. intros k. rewrite add_stakes_lookup by done. destruct (list_find (fun x => key_of x = k) expired) as [[j x]|] eqn:Hx.
    - apply list_find_Some in Hx as (Hx & <- & _). symmetry. apply Hold. by eapply list_elem_of_lookup_2.
    - apply list_find_None in Hx. destruct (foldl add_stake F l !! k) as [v|] eqn:Hk; [|apply map_lookup_filter_None; by left].
      apply map_lookup_filter_Some. split; [done|]. apply not_true_iff_false. intros Hv. rewrite add_stakes_lookup in Hk by done.
      destruct (list_find _ l) as [[j y]|] eqn:Hy.
      + apply list_find_Some in Hy as (Hy & _ & _). rewrite Forall_lookup in Hlive. specialize (Hlive _ _ Hy). cbn in Hlive. congruence.
      + rewrite Forall_forall in Hx. destruct k as [[rsh h] op]. pose proof (rep_height _ _ Hr _ _ Hk) as Eh. cbn in Eh.
        apply (Hx (rsh, op, v)); [|unfold key_of; cbn; by rewrite Eh]. apply Hexp. unfold key_of. cbn [fst snd]. by rewrite Eh. }
  rewrite Eback in Hr2. destruct (delete_stakes_rep height l _ _ Hr2 Hn) as (s3 & H3 & Hr3).
  { rewrite Forall_forall in *. intros x Hx. split; [apply (Hl x Hx)|]. rewrite add_stakes_lookup by done.
    destruct (list_find (fun y => key_of y = key_of x) l) as [[j y]|] eqn:Hy; [by eexists|]. apply list_find_None in Hy. rewrite Forall_forall in Hy. by destruct (Hy x Hx). }
  exists s3. split.
  - unfold disconnectStakingTransactions. rewrite bind_lift_Ret, (bind_step _ _ _ _ _ H2), Hd. exact H3.
  - assert (foldl remove_stake (foldl add_stake F l) l = F) as <-; [|done]. apply map_eq. intros k. rewrite remove_stakes_lookup, add_stakes_lookup by done. case_decide as Hk.
    + apply list_elem_of_fmap in Hk as (x & -> & Hx). rewrite Forall_forall in Hf. by rewrite (Hf x Hx).
    + destruct (list_find _ l) as [[j y]|] eqn:Hy; [|done]. apply list_find_Some in Hy as (Hy & <- & _). destruct Hk. apply list_elem_of_fmap_2. by eapply list_elem_of_lookup_2.
Qed.
End undo.
