(* ===== verification/Policy.v ===== *)
(** The relay policy: blockchain/policy.go.  Priorities are 64-bit floating-point numbers; they
    are computed with the specification of IEEE 754 of the Standard Library. *)

From Stdlib Require Import SpecFloat.
From S2P Require Import Prelude AddressText TxCommon Opcodes Script Hashes Wire Standard Amount Forks Poc Block MsgBlock Payload Validate BindingState.

(** * Definitions *)

(** ** Floating-point numbers *)

Abbreviation float64 := spec_float.
Definition prec : Z := 53.
Definition emax : Z := 1024.

(** [float64(z)]: the nearest, ties to even. *)
Definition float_of (z : Z) : float64 := binary_normalize prec emax z 0 false.
Definition fdiv : float64 -> float64 -> float64 := SFdiv prec emax.
Definition fmul : float64 -> float64 -> float64 := SFmul prec emax.
Definition fadd : float64 -> float64 -> float64 := SFadd prec emax.
Definition fle : float64 -> float64 -> bool := SFleb.

Definition Uint128_Float64 (u : Uint128) : float64 := float_of (u_value u).

Example float_quotient : fle (fdiv (float_of 1) (float_of 3)) (fdiv (float_of 2) (float_of 6)) = true /\ fle (float_of (2 ^ 53 + 1)) (float_of (2 ^ 53)) = true.
Proof. split; vm_compute; reflexivity. Qed.

(** ** Fees and priorities *)

Definition maxStandardTxSize : Z := 100000.
Definition maxStandardWitnessSize : Z := 1650.

Definition CalcMinRequiredTxRelayFee (serializedSize : Z) (minTxRelayFee : Amount) : checked Amount :=
  u ← Uint128_MulInt (Amount_Value minTxRelayFee) serializedSize;
  required ← Uint128_DivInt u 1000;
  if Uint128_IsZero required && negb (Amount_IsZero minTxRelayFee) then Ret minTxRelayFee
  else match NewAmount required with Err ErrMaxAmount => Ret MaxAmount | r => r end.

Definition minInt (a b : Z) : Z := if a <? b then a else b.

Definition calcPriority (tx : MsgTx) (inputValueAge : Uint128) : float64 :=
  let overhead := foldl (fun o txIn => o + 44 + minInt 110 (TxWitness_PlainSize (Witness txIn))) 0 (TxIns tx) in
  let serializedTxSize := PlainSize tx in
  if overhead >=? serializedTxSize then float_of 0
  else fdiv (Uint128_Float64 inputValueAge) (float_of (serializedTxSize - overhead)).

(** The age-weighted value and the value of the inputs that are known. *)
Fixpoint input_value_age (txStore : TxStore) (nextBlockHeight : Z) (ins : list TxIn) (totalInputAge : Uint128) (totalInputValue : Amount)
    : val (Uint128 * Amount) :=
  match ins with
  | [] => Ret (totalInputAge, totalInputValue)
  | txIn :: rest =>
      let op := PreviousOutPoint txIn in
      match txStore !! op_Hash op with
      | Some txData =>
          match td_Tx txData with
          | Some tx =>
              let delta := if negb (td_BlockHeight txData =? mempoolHeight) then uint64 (nextBlockHeight - td_BlockHeight txData) else 0 in
              originTxOut ← index (TxOuts tx) (op_Index op);
              totalInputValue ← wrap OfAmount (Amount_AddInt totalInputValue (Value originTxOut));
              inputAge ← wrap OfAmount (Uint128_MulInt (NewUint128FromUint delta) (Value originTxOut));
              totalInputAge ← wrap OfAmount (Uint128_Add totalInputAge inputAge);
              input_value_age txStore nextBlockHeight rest totalInputAge totalInputValue
          | None => input_value_age txStore nextBlockHeight rest totalInputAge totalInputValue
          end
      | None => input_value_age txStore nextBlockHeight rest totalInputAge totalInputValue
      end
  end.

Definition calcInputValueAge (tx : MsgTx) (txStore : TxStore) (nextBlockHeight : Z) : val (Uint128 * Amount) :=
  input_value_age txStore nextBlockHeight (TxIns tx) NewUint128 ZeroAmount.

(** [currentPriority] of blockchain/txpool.go. *)
Definition currentPriority (tx : MsgTx) (txStore : TxStore) (blockHeight : Z) : val (float64 * Amount) :=
  '(inputAge, totalInputValue) ← calcInputValueAge tx txStore blockHeight;
  Ret (calcPriority tx inputAge, totalInputValue).

(** ** Standard transactions *)

Definition check_input_standard (txStore : TxStore) (txIn : TxIn) : val unit :=
  let prevOut := PreviousOutPoint txIn in
  txD ← deref (txStore !! op_Hash prevOut);
  originTx ← deref (td_Tx txD);
  out ← index (TxOuts originTx) (op_Index prevOut);
  check (negb (len (Witness txIn) =? 2)) ErrWitnessLength;;
  scriptInfo ← match CalcScriptInfo (PkScript out) (Witness txIn) with Err _ => Err ErrParseInputScript | Ret i => Ret i | Panic => Panic end;
  check (ExpectedInputs scriptInfo <? 0) ErrExpectedSignInput;;
  check (negb (NumInputs scriptInfo =? ExpectedInputs scriptInfo)) ErrExpectedSignInput.

Definition checkInputsStandard (tx : MsgTx) (txStore : TxStore) : val unit := check_all (check_input_standard txStore) (TxIns tx).

Definition isDust (txOut : TxOut) (minRelayTxFee : Amount) : checked bool :=
  if IsUnspendable (PkScript txOut) then Ret true
  else
    let totalSize := TxOut_PlainSize txOut + 154 in
    v ← NewUint128FromInt (Value txOut);
    v ← Uint128_MulInt v 1000;
    v ← Uint128_DivInt v (3 * totalSize);
    Ret (Uint128_Lt v (Amount_Value minRelayTxFee)).

Definition check_witness (txIn : TxIn) : val unit :=
  check (negb (len (Witness txIn) =? 2)) ErrWitnessLength;;
  check (TxWitness_PlainSize (Witness txIn) >? maxStandardWitnessSize) ErrWitnessSize;;
  sig ← index (Witness txIn) 0;
  check (negb (IsPushOnlyScript sig)) ErrSignaturePushOnly.

(** The outputs that only carry data are counted, the others must not be dust. *)
Fixpoint check_dust (minRelayTxFee : Amount) (numNullDataOutputs : Z) (outs : list TxOut) : val Z :=
  match outs with
  | [] => Ret numNullDataOutputs
  | txOut :: rest =>
      '(class, _, _, _) ← script (WitPkScriptParseFunc (PkScript txOut));
      if bool_decide (class = NullDataTy) then check_dust minRelayTxFee (numNullDataOutputs + 1) rest
      else
        dust ← wrap OfAmount (isDust txOut minRelayTxFee);
        check dust ErrDust;;
        check_dust minRelayTxFee numNullDataOutputs rest
  end.

Section policy.
Context {HF : HashFunctions} {T : Type} {ST : StateTrie T}.

(** The checks before those of the output scripts; [now] is the clock, in seconds. *)
Definition check_form (now : Z) (tx : MsgTx) (nextBlockHeight : Z) : val unit :=
  check ((Version tx >? TxVersion) || (Version tx <? 1)) ErrInvalidTxVersion;;
  check (negb (IsFinalizedTransaction tx nextBlockHeight now)) ErrUnfinalizedTx;;
  check (PlainSize tx >? maxStandardTxSize) ErrNonStandardTxSize;;
  check_all check_witness (TxIns tx).

(** [fuel] is that of the price of a binding. *)
Definition checkTransactionStandard (fuel : nat) (now : Z) (tx : MsgTx) (nextBlockHeight : Z) (minRelayTxFee : Amount) (txStore : TxStore)
    (bindingExistInPool : bytes -> bool) (bst : T) : val unit :=
  check_form now tx nextBlockHeight;;
  (checkParsePkScriptNew fuel nextBlockHeight bindingExistInPool txStore [tx] bst).1;;
  numNullDataOutputs ← check_dust minRelayTxFee 0 (TxOuts tx);
  check (numNullDataOutputs >? 1) ErrNuLLDataScript.

(** The binding targets [bindingExistInPool] is asked for: those of the binding outputs up to the
    first output that is refused. *)
Fixpoint consulted_outs (fuel : nat) (nextBlockHeight : Z) (inPool : bytes -> bool) (networkBinding : Amount) (outs : list TxOut)
    (seen : gset bytes) (bst : T) : list bytes :=
  match outs with
  | [] => []
  | txOut :: rest =>
      match WitPkScriptParseFunc (PkScript txOut) with
      | Ret (BindingScriptHashTy, _, _, bound) =>
          if EnforceMASSIP0002WarmUp nextBlockHeight && (len bound =? OP_DATA_22) && bool_decide (bound ∉ seen) then [bound] else []
      | _ => []
      end ++
      match check_outs fuel nextBlockHeight inPool networkBinding [txOut] seen false bst with
      | (Ret (seen', _), bst') => consulted_outs fuel nextBlockHeight inPool networkBinding rest seen' bst'
      | _ => []
      end
  end.

Definition consulted_targets (fuel : nat) (now : Z) (tx : MsgTx) (nextBlockHeight : Z) (inPool : bytes -> bool) (bst : T) : list bytes :=
  match check_form now tx nextBlockHeight with
  | Ret _ =>
      match (if EnforceMASSIP0002WarmUp nextBlockHeight then GetNetworkBinding else mret ZeroAmount) bst with
      | (Ret nb, bst') => consulted_outs fuel nextBlockHeight inPool nb (TxOuts tx) ∅ bst'
      | _ => []
      end
  | _ => []
  end.
End policy.
