(* ===== verification/TxPool.v ===== *)
(** The memory pool: blockchain/txpool.go.

    A transaction is a pointer with the message it points to ([orphanTx]); the maps of the pool
    are never nil, and the channel of new transactions is the list of what was sent on it.  What
    the pool reads of the rest of the node is the record [PoolChain]. *)

From S2P Require Import Prelude AddressText TxCommon Opcodes Script Hashes Address Wire SigHash SigCache Engine EngineSafety Standard Amount Forks Poc Block MsgBlock.
From S2P Require Import OrphanPool Payload Validate ScriptVal BindingState TxLookup Staking Policy.

(** * Definitions *)

Definition maxSigOpsPerTx : Z := MaxSigOpsPerBlock / 5.
Definition defaultBlockPrioritySize : Z := 50000.
Definition maxTxPoolTxPayload : Z := 200.
Definition MinHighPriority : float64 := float_of (10 ^ 8 * 1920 / 250).
Definition free_relay_limit : float64 := float_of (15 * 10 * 1000).

Abbreviation Tx := (orphanTx MsgTx).

Record TxDesc := mkTxDesc {
  d_Tx : Tx;
  d_Added : Z;
  d_Height : Z;
  startingPriority : float64;
  d_Fee : Amount;
  totalInputValue : Amount;
}.

(** [sent] is what was sent on [NewTxCh], the last first. *)
Record TxPool := mkTxPool {
  pool : gmap Hash TxDesc;
  orphanTxPool : OrphanTxPool MsgTx;
  addrindex : gmap bytes (gset Hash);
  outpoints : gmap OutPoint Tx;
  lastUpdated : Z;
  pennyTotal : float64;
  lastPennyUnix : Z;
  bindingTargets : gmap bytes Hash;
  sent : list Tx;
}.

Definition set_pool (f : gmap Hash TxDesc -> gmap Hash TxDesc) (tp : TxPool) : TxPool :=
  mkTxPool (f (pool tp)) (orphanTxPool tp) (addrindex tp) (outpoints tp) (lastUpdated tp) (pennyTotal tp) (lastPennyUnix tp) (bindingTargets tp) (sent tp).
Definition set_orphanTxPool (tp : TxPool) (o : OrphanTxPool MsgTx) : TxPool :=
  mkTxPool (pool tp) o (addrindex tp) (outpoints tp) (lastUpdated tp) (pennyTotal tp) (lastPennyUnix tp) (bindingTargets tp) (sent tp).
Definition set_addrindex (f : gmap bytes (gset Hash) -> gmap bytes (gset Hash)) (tp : TxPool) : TxPool :=
  mkTxPool (pool tp) (orphanTxPool tp) (f (addrindex tp)) (outpoints tp) (lastUpdated tp) (pennyTotal tp) (lastPennyUnix tp) (bindingTargets tp) (sent tp).
Definition set_outpoints (f : gmap OutPoint Tx -> gmap OutPoint Tx) (tp : TxPool) : TxPool :=
  mkTxPool (pool tp) (orphanTxPool tp) (addrindex tp) (f (outpoints tp)) (lastUpdated tp) (pennyTotal tp) (lastPennyUnix tp) (bindingTargets tp) (sent tp).
Definition set_lastUpdated (now : Z) (tp : TxPool) : TxPool :=
  mkTxPool (pool tp) (orphanTxPool tp) (addrindex tp) (outpoints tp) now (pennyTotal tp) (lastPennyUnix tp) (bindingTargets tp) (sent tp).
Definition set_penny (total : float64) (unix : Z) (tp : TxPool) : TxPool :=
  mkTxPool (pool tp) (orphanTxPool tp) (addrindex tp) (outpoints tp) (lastUpdated tp) total unix (bindingTargets tp) (sent tp).
Definition set_bindingTargets (f : gmap bytes Hash -> gmap bytes Hash) (tp : TxPool) : TxPool :=
  mkTxPool (pool tp) (orphanTxPool tp) (addrindex tp) (outpoints tp) (lastUpdated tp) (pennyTotal tp) (lastPennyUnix tp) (f (bindingTargets tp)) (sent tp).
Definition send (tx : Tx) (tp : TxPool) : TxPool :=
  mkTxPool (pool tp) (orphanTxPool tp) (addrindex tp) (outpoints tp) (lastUpdated tp) (pennyTotal tp) (lastPennyUnix tp) (bindingTargets tp) (tx :: sent tp).

(** [NewTxPool]; the zero time is 0. *)
Definition NewTxPool : TxPool := mkTxPool ∅ newOrphanTxPool ∅ ∅ 0 (float_of 0) 0 ∅ [].

(** The errors of the validation, and the end of the bound on a recursion of the model. *)
Inductive pool_error := OfVal (e : val_error) | OfOrphan (e : orphan_error) | OutOfFuel.

Abbreviation pprog := (prog TxPool pool_error).

Definition lift_val {A} (o : val A) : pprog A := lift (wrap OfVal o).
Definition fail_val (b : bool) (e : val_error) : pprog unit := fail_if b (OfVal e).

Section txpool.
Context {HF : HashFunctions} {CL : ChiaLib} {BC : Btcec} {EV : Env} {T : Type} {ST : StateTrie T}.

#[global] Instance msgtx_orphan : OrphanTxData MsgTx :=
  {| tx_Hash := tx_sha; tx_parents tx := (fun txIn => op_Hash (PreviousOutPoint txIn)) <$> TxIns tx; tx_PlainSize := PlainSize |}.

Definition hash_of (tx : Tx) : Hash := tx_sha (ot_tx tx).
Definition spent_outpoints (tx : Tx) : list OutPoint := PreviousOutPoint <$> TxIns (ot_tx tx).

(** What the pool reads of the node: the best block, the database, the binding state of the best
    block, the listeners, the clock, the settings, [math.Pow], the random source and the order of
    the ids of the orphans. *)
Record PoolChain := mkPoolChain {
  pc_height : Z;
  pc_medianTime : val Z;
  pc_median : Z -> Z;
  pc_fetch : FetchTxs;
  pc_state : val T;
  pc_notify : MsgTx -> val unit;
  pc_now : Z;
  pc_AddrIndex : bool;
  pc_NoRelayPriority : bool;
  pc_RelayNonStdTxs : bool;
  pc_pow : float64 -> float64 -> float64;
  pc_rand : OrphanTxPool MsgTx -> option bytes;
  pc_ids : OrphanTxPool MsgTx -> list Hash;
  pc_fuel : nat;
}.

Context (pc : PoolChain).

Definition isTransactionInPool (hash : Hash) (tp : TxPool) : bool := bool_decide (is_Some (pool tp !! hash)).
Definition haveTransaction (hash : Hash) (tp : TxPool) : bool := isTransactionInPool hash tp || isOrphanTxInPool hash (orphanTxPool tp).

(** A method of the orphan pool. *)
Definition on_orphans {A} (c : prog (OrphanTxPool MsgTx) orphan_error A) : pprog A := fun tp =>
  let (o, otp) := c (orphanTxPool tp) in (wrap OfOrphan o, set_orphanTxPool tp otp).

Definition RemoveOrphan (hash : Hash) : pprog unit := on_orphans (removeOrphan hash).
Definition add_orphan (tx : Tx) : pprog unit := on_orphans (fun otp => addOrphan (pc_ids pc otp) (pc_rand pc otp) tx otp).
Definition maybe_add_orphan (tx : Tx) : pprog unit := on_orphans (fun otp => maybeAddOrphan (pc_ids pc otp) (pc_rand pc otp) tx otp).

(** ** Looking up inputs *)

Definition is_missing (txD : TxData) : bool := match td_Err txD with Some ErrTxShaMissing => true | _ => false end.

(** An entry that the chain does not have, from the pool. *)
Definition from_pool (tp : TxPool) (txD : TxData) : TxData :=
  if is_missing txD || negb (bool_decide (is_Some (td_Tx txD))) then
    match pool tp !! td_Hash txD with
    | Some poolTxDesc => let poolTx := ot_tx (d_Tx poolTxDesc) in mkTxData (Some poolTx) (td_Hash txD) mempoolHeight (unspent poolTx) None
    | None => txD
    end
  else txD.

Definition FetchInputTransactions (tx : Tx) (includeSpent : bool) (tp : TxPool) : TxStore :=
  from_pool tp <$> FetchTransactionStore (pc_fetch pc) (ot_tx tx) includeSpent.

Fixpoint referenced_scripts (txStore : TxStore) (ins : list TxIn) : val (list bytes) :=
  match ins with
  | [] => Ret []
  | txIn :: rest =>
      let outPoint := PreviousOutPoint txIn in
      txD ← deref (txStore !! op_Hash outPoint);
      match td_Err txD with
      | Some _ => referenced_scripts txStore rest
      | None =>
          tx ← deref (td_Tx txD);
          out ← index (TxOuts tx) (op_Index outPoint);
          l ← referenced_scripts txStore rest;
          Ret (PkScript out :: l)
      end
  end.

Definition fetchReferencedOutputScripts (tx : Tx) : pprog (list bytes) :=
  tp ← gets id;
  let txStore := FetchInputTransactions tx false tp in
  fail_val (bool_decide (txStore = ∅)) ErrFindReferenceInput;;
  lift_val (referenced_scripts txStore (TxIns (ot_tx tx))).

(** ** The address index *)

(** The encoded addresses of a script; encoding an address does not fail. *)
Definition script_addresses (pkScript : bytes) : val (list bytes) :=
  '(_, addresses, _, _) ← script (ExtractPkScriptAddrs pkScript ChainParams);
  mapM (fun addr => match EncodeAddress addr with Ret ea => Ret ea | _ => Panic end) addresses.

Definition unindex_address (hash : Hash) (m : gmap bytes (gset Hash)) (ea : bytes) : gmap bytes (gset Hash) :=
  match m !! ea with
  | Some s => let s' := s ∖ {[hash]} in if bool_decide (s' = ∅) then delete ea m else <[ea := s']> m
  | None => m
  end.

Definition removeScriptFromAddrIndex (pkScript : bytes) (tx : Tx) : pprog unit :=
  addresses ← lift_val (script_addresses pkScript);
  modify (set_addrindex (fun m => foldl (unindex_address (hash_of tx)) m addresses)).

Definition indexScriptAddressToTx (pkScript : bytes) (tx : Tx) : pprog unit :=
  addresses ← lift_val (script_addresses pkScript);
  modify (set_addrindex (fun m => foldl (fun m ea => <[ea := {[hash_of tx]} ∪ default ∅ (m !! ea)]> m) m addresses)).

Fixpoint for_scripts (f : bytes -> pprog unit) (scripts : list bytes) : pprog unit :=
  match scripts with
  | [] => mret tt
  | pkScript :: rest => f pkScript;; for_scripts f rest
  end.

Definition removeTransactionFromAddrIndex (tx : Tx) : pprog unit :=
  previousOutputScripts ← fetchReferencedOutputScripts tx;
  for_scripts (fun s => removeScriptFromAddrIndex s tx) previousOutputScripts;;
  for_scripts (fun s => removeScriptFromAddrIndex s tx) (PkScript <$> TxOuts (ot_tx tx)).

Definition addTransactionToAddrIndex (tx : Tx) : pprog unit :=
  previousOutScripts ← fetchReferencedOutputScripts tx;
  for_scripts (fun s => indexScriptAddressToTx s tx) previousOutScripts;;
  for_scripts (fun s => indexScriptAddressToTx s tx) (PkScript <$> TxOuts (ot_tx tx)).

(** ** Removing *)

(** The transaction leaves the pool and its inputs are unspent again. *)
Definition remove_entry (tx : Tx) : pprog unit :=
  tp ← gets id;
  match pool tp !! hash_of tx with
  | None => mret tt
  | Some txDesc =>
      (if pc_AddrIndex pc then ignore_err (removeTransactionFromAddrIndex tx) else mret tt);;
      modify (fun tp => set_lastUpdated (pc_now pc)
        (set_pool (delete (hash_of tx)) (set_outpoints (fun m => foldl (fun m op => delete op m) m (spent_outpoints (d_Tx txDesc))) tp)))
  end.

(** The transactions that spend the outputs of [hash] with the given indices, removed by [rec]. *)
Fixpoint remove_redeemers (rec : Tx -> pprog unit) (hash : Hash) (indices : list Z) : pprog unit :=
  match indices with
  | [] => mret tt
  | i :: rest =>
      tp ← gets id;
      (match outpoints tp !! mkOutPoint hash i with
       | Some txRedeemer => rec txRedeemer
       | None => mret tt
       end);;
      remove_redeemers rec hash rest
  end.

Definition output_indices (tx : Tx) : list Z := Z.of_nat <$> seq 0 (length (TxOuts (ot_tx tx))).

(** [fuel] bounds the depth of the recursion over the transactions that rely on [tx]. *)
Fixpoint removeTransaction (fuel : nat) (tx : Tx) (redeemers : bool) : pprog unit :=
  match fuel with
  | O => throw OutOfFuel
  | S fuel' =>
      (if redeemers then remove_redeemers (fun r => removeTransaction fuel' r true) (hash_of tx) (output_indices tx) else mret tt);;
      remove_entry tx
  end.

(** One level for each transaction of the pool, and one for [tx]. *)
Definition remove_transaction (tx : Tx) (redeemers : bool) : pprog unit := fun tp =>
  removeTransaction (S (size (pool tp))) tx redeemers tp.

Fixpoint remove_spenders (tx : Tx) (ins : list TxIn) : pprog unit :=
  match ins with
  | [] => mret tt
  | txIn :: rest =>
      tp ← gets id;
      (match outpoints tp !! PreviousOutPoint txIn with
       | Some txRedeemer => if negb (bytes_Equal (hash_of txRedeemer) (hash_of tx)) then remove_transaction txRedeemer true else mret tt
       | None => mret tt
       end);;
      remove_spenders tx rest
  end.

Definition removeDoubleSpends (tx : Tx) : pprog unit := remove_spenders tx (TxIns (ot_tx tx)).

(** ** Adding *)

Fixpoint bind_targets (height : Z) (hash : Hash) (outs : list TxOut) : pprog unit :=
  match outs with
  | [] => mret tt
  | txOut :: rest =>
      '(class, _, _, bound) ← lift_val (script (WitPkScriptParseFunc (PkScript txOut)));
      (if EnforceMASSIP0002WarmUp (uint64 (height + 1)) && bool_decide (class = BindingScriptHashTy) && (len bound =? OP_DATA_22)
       then modify (set_bindingTargets <[bound := hash]>) else mret tt);;
      bind_targets height hash rest
  end.

Definition addTransaction (tx : Tx) (height : Z) (priority : float64) (inputValue fee : Amount) : pprog unit :=
  modify (set_pool <[hash_of tx := mkTxDesc tx (pc_now pc) height priority fee inputValue]>);;
  modify (set_outpoints (fun m => foldl (fun m op => <[op := tx]> m) m (spent_outpoints tx)));;
  bind_targets height (hash_of tx) (TxOuts (ot_tx tx));;
  modify (set_lastUpdated (pc_now pc));;
  modify (send tx);;
  if pc_AddrIndex pc then addTransactionToAddrIndex tx else mret tt.

Definition checkPoolDoubleSpend (tx : Tx) (tp : TxPool) : val unit :=
  check_all (fun op => check (bool_decide (is_Some (outpoints tp !! op))) ErrDoubleSpend) (spent_outpoints tx).

(** The closure [maybeAcceptTransaction] passes on: a target of a transaction that has left is
    forgotten when it is asked for. *)
Definition target_in_pool (tp : TxPool) (target : bytes) : bool :=
  match bindingTargets tp !! target with Some hash => haveTransaction hash tp | None => false end.

Definition forget_target (tp : TxPool) (m : gmap bytes Hash) (target : bytes) : gmap bytes Hash :=
  match m !! target with Some hash => if haveTransaction hash tp then m else delete target m | None => m end.

Definition check_standard (tx : Tx) (txStore : TxStore) : pprog unit :=
  bst ← lift_val (pc_state pc);
  tp ← gets id;
  let nextBlockHeight := uint64 (pc_height pc + 1) in
  modify (set_bindingTargets (fun m => foldl (forget_target tp) m
    (consulted_targets (pc_fuel pc) (pc_now pc) (ot_tx tx) nextBlockHeight (target_in_pool tp) bst)));;
  lift_val (checkTransactionStandard (pc_fuel pc) (pc_now pc) (ot_tx tx) nextBlockHeight MinRelayTxFee txStore (target_in_pool tp) bst).

(** The limit on transactions without fee. *)
Definition rate_limited (serializedSize : Z) : pprog unit :=
  tp ← gets id;
  let total := fmul (pennyTotal tp) (pc_pow pc (fdiv (float_of 599) (float_of 600)) (float_of (pc_now pc - lastPennyUnix tp))) in
  modify (set_penny total (pc_now pc));;
  fail_val (fle free_relay_limit total) ErrInsufficientFee;;
  modify (set_penny (fadd total (float_of serializedSize)) (pc_now pc)).

Definition check_fee (tx : Tx) (txStore : TxStore) (txFee : Amount) (isNew rateLimit : bool) : pprog unit :=
  let serializedSize := PlainSize (ot_tx tx) in
  requiredFee ← lift_val (wrap OfAmount (CalcMinRequiredTxRelayFee serializedSize MinRelayTxFee));
  if Amount_Cmp txFee requiredFee <? 0 then
    fail_val (serializedSize >=? defaultBlockPrioritySize - 1000) ErrInsufficientFee;;
    (if isNew && negb (pc_NoRelayPriority pc) then
       '(priority, _) ← lift_val (currentPriority (ot_tx tx) txStore (uint64 (pc_height pc + 1)));
       fail_val (fle priority MinHighPriority) ErrInsufficientPriority
     else mret tt);;
    if rateLimit then rate_limited serializedSize else mret tt
  else mret tt.

(** The checks once the inputs are known, and the fee. *)
Definition check_inputs_known (tx : Tx) (txStore : TxStore) (medianTimePast : Z) (isNew rateLimit : bool) : pprog (Amount * TxStore) :=
  let nextBlockHeight := uint64 (pc_height pc + 1) in
  let '(fee, txStore) := CheckTransactionInputs (ot_tx tx) nextBlockHeight txStore in
  txFee ← lift_val fee;
  lift_val (check_pool_payload txFee (ot_tx tx));;
  sequenceLock ← lift_val (calcSequenceLock (pc_height pc) (pc_median pc) (ot_tx tx) txStore);
  fail_val (negb (SequenceLockActive sequenceLock nextBlockHeight medianTimePast)) ErrSequenceNotSatisfied;;
  (if negb (pc_RelayNonStdTxs pc) then lift_val (checkInputsStandard (ot_tx tx) txStore) else mret tt);;
  numSigOps ← lift_val (CountSigOps (ot_tx tx));
  fail_val (numSigOps >? maxSigOpsPerTx) ErrTooManySigOps;;
  check_fee tx txStore txFee isNew rateLimit;;
  lift_val (ValidateTransactionScripts (ot_tx tx) txStore StandardVerifyFlags);;
  mret (txFee, txStore).

(** The hashes of the transactions that are missing; their order is not specified. *)
Definition missing_parents (txStore : TxStore) : list Hash :=
  (fun '(_, txD) => td_Hash txD) <$> filter (fun '(_, txD) => is_missing txD = true) (map_to_list txStore).

Definition maybeAcceptTransaction (tx : Tx) (isNew rateLimit : bool) : pprog (list Hash) :=
  tp ← gets id;
  fail_val (haveTransaction (hash_of tx) tp) ErrTxAlreadyExists;;
  fail_val (len (Wire.Payload (ot_tx tx)) >? maxTxPoolTxPayload) ErrTxMsgPayloadSize;;
  lift_val (CheckTransactionSanity (ot_tx tx));;
  fail_val (IsCoinBase (ot_tx tx)) ErrCoinbaseTx;;
  fail_val (LockTime (ot_tx tx) >? 2 ^ 63 - 1) ErrImmatureSpend;;
  medianTimePast ← lift_val (pc_medianTime pc);
  let txStore := FetchInputTransactions tx false tp in
  fail_val (match txStore !! hash_of tx with Some txD => negb (bool_decide (is_Some (td_Err txD))) | None => false end) ErrTxAlreadyExists;;
  let txStore := delete (hash_of tx) txStore in
  (if negb (pc_RelayNonStdTxs pc) then check_standard tx txStore else mret tt);;
  tp ← gets id;
  lift_val (checkPoolDoubleSpend tx tp);;
  let missingParents := missing_parents txStore in
  if negb (len missingParents =? 0) then mret missingParents
  else
    '(txFee, txStore) ← check_inputs_known tx txStore medianTimePast isNew rateLimit;
    '(priority, inputValue) ← lift_val (currentPriority (ot_tx tx) txStore (pc_height pc));
    addTransaction tx (pc_height pc) priority inputValue txFee;;
    lift_val (pc_notify pc (ot_tx tx));;
    mret [].

(** ** Orphans *)

(** The orphans of one parent: the hashes of those that were accepted. *)
Fixpoint adopt_orphans (orphans : list Tx) : pprog (list Hash) :=
  match orphans with
  | [] => mret []
  | tx :: rest =>
      RemoveOrphan (hash_of tx);;
      accepted ← (fun tp =>
        match maybeAcceptTransaction tx true true tp with
        | (Err _, tp') => (Ret [], tp')
        | (Ret missingParents, tp') => if negb (len missingParents =? 0) then (add_orphan tx;; mret []) tp' else (Ret [hash_of tx], tp')
        | (Panic, tp') => (Panic, tp')
        end);
      hashes ← adopt_orphans rest;
      mret (accepted ++ hashes)
  end.

(** [processHashes] is the list of hashes to process; [fuel] bounds how many are. *)
Fixpoint process_orphans (fuel : nat) (processHashes : list Hash) : pprog unit :=
  match processHashes with
  | [] => mret tt
  | processHash :: rest =>
      match fuel with
      | O => throw OutOfFuel
      | S fuel' =>
          tp ← gets id;
          accepted ← adopt_orphans (ReadSubs processHash (tx_pool (orphanTxPool tp)));
          process_orphans fuel' (rest ++ accepted)
      end
  end.

(** One round for the hash, and one for each orphan. *)
Definition ProcessOrphans (hash : Hash) : pprog unit := fun tp =>
  process_orphans (S (size (entryIndex (tx_pool (orphanTxPool tp))))) [hash] tp.

Definition ProcessTransaction (tx : Tx) (allowOrphan rateLimit : bool) : pprog bool :=
  missingParents ← maybeAcceptTransaction tx true rateLimit;
  if len missingParents =? 0 then ProcessOrphans (hash_of tx);; mret false
  else
    fail_val (negb allowOrphan) ErrProhibitionOrphanTx;;
    maybe_add_orphan tx;;
    mret true.

(** ** Blocks *)

Fixpoint attach_txs (txs : list Tx) : pprog unit :=
  match txs with
  | [] => mret tt
  | tx :: rest =>
      remove_transaction tx false;;
      removeDoubleSpends tx;;
      RemoveOrphan (hash_of tx);;
      ProcessOrphans (hash_of tx);;
      attach_txs rest
  end.

Fixpoint detach_txs (txs : list Tx) : pprog unit :=
  match txs with
  | [] => mret tt
  | tx :: rest =>
      (fun tp => match maybeAcceptTransaction tx false false tp with
                 | (Err _, tp') => remove_transaction tx true tp'
                 | (Ret _, tp') => (Ret tt, tp')
                 | (Panic, tp') => (Panic, tp')
                 end);;
      detach_txs rest
  end.

(** [block.Transactions()[1:]] *)
Definition without_coinbase (txs : list Tx) : pprog (list Tx) := match txs with [] => panic | _ :: rest => mret rest end.

Definition pool_SyncAttachBlock (txs : list Tx) : pprog unit := rest ← without_coinbase txs; attach_txs rest.
Definition pool_SyncDetachBlock (txs : list Tx) : pprog unit := rest ← without_coinbase txs; detach_txs rest.

(** ** Reading *)

Definition CheckPoolOutPointSpend (op : OutPoint) (tp : TxPool) : bool := bool_decide (is_Some (outpoints tp !! op)).

Definition FetchTransaction (hash : Hash) (tp : TxPool) : val Tx :=
  match pool tp !! hash with Some txDesc => Ret (d_Tx txDesc) | None => Err ErrTxExsit end.

(** The order of the transactions is not specified. *)
Definition FilterTransactionsByAddress (ea : bytes) (tp : TxPool) : val (list Tx) :=
  match addrindex tp !! ea with
  | Some txs => Ret (omap (fun hash => d_Tx <$> pool tp !! hash) (elements txs))
  | None => Err ErrFindTxByAddr
  end.

Definition TxPool_Count (tp : TxPool) : Z := Z.of_nat (size (pool tp)).
Definition TxShas (tp : TxPool) : list Hash := fst <$> map_to_list (pool tp).
Definition TxDescs (tp : TxPool) : list TxDesc := snd <$> map_to_list (pool tp).
End txpool.
