(* ===== verification/TxPoolSpec.v ===== *)
(** The memory pool stays consistent: no output is spent twice in it, its index of spent outputs
    agrees with its transactions, and no transaction is in the pool and an orphan at once. *)

From S2P Require Import Prelude AddressText TxCommon Opcodes Script Hashes Address Wire SigHash SigCache Engine EngineSafety Standard Amount Forks Poc Block MsgBlock.
From S2P Require Import OrphanPool OrphanPoolSpec Payload Validate ValidateSpec ScriptVal BindingState TxLookup Staking Policy TxPool.

(** * Programs that leave the transactions alone *)

(** The transactions, the spent outputs and the orphans are the same. *)
Definition same_core (tp tp' : TxPool) : Prop :=
  pool tp' = pool tp /\ outpoints tp' = outpoints tp /\ orphanTxPool tp' = orphanTxPool tp.

Definition frames {A} (c : pprog A) : Prop := forall tp o tp', c tp = (o, tp') -> same_core tp tp'.

#[global] Instance same_core_preorder : PreOrder same_core.
Proof. split; [done|]. intros x y z (? & ? & ?) (? & ? & ?). split_and!; congruence. Qed.

Create HintDb frames.

Lemma frames_mret {A} (a : A) : frames (mret a).
Proof. by intros tp o tp' [= <- <-]. Qed.
Lemma frames_throw {A} e : frames (A := A) (throw e).
Proof. by intros tp o tp' [= <- <-]. Qed.
Lemma frames_gets {A} (f : TxPool -> A) : frames (gets f).
Proof. by intros tp o tp' [= <- <-]. Qed.
Lemma frames_lift_val {A} (o : val A) : frames (lift_val o).
Proof. by intros tp o' tp' [= <- <-]. Qed.
Lemma frames_fail b e : frames (fail_val b e).
Proof. intros tp o tp'. unfold fail_val, fail_if. case_match; by intros [= <- <-]. Qed.
Lemma frames_modify f : (forall tp, same_core tp (f tp)) -> frames (modify f).
Proof. intros Hf tp o tp' [= <- <-]. apply Hf. Qed.
Lemma frames_bind {A B} (c : pprog A) (f : A -> pprog B) : frames c -> (forall a, frames (f a)) -> frames (c ≫= f).
Proof.
  intros Hc Hf tp o tp'. unfold mbind, prog_bind. destruct (c tp) as [[a|e|] t] eqn:E; intros Hr; [|by injection Hr as <- <-; eapply Hc|by injection Hr as <- <-; eapply Hc].
  transitivity t; [by eapply Hc|by eapply Hf].
Qed.
Lemma frames_if {A} (b : bool) (c d : pprog A) : frames c -> frames d -> frames (if b then c else d).
Proof. by destruct b. Qed.
Lemma frames_ignore c : frames c -> frames (ignore_err c).
Proof. intros Hc tp o tp'. unfold ignore_err. destruct (c tp) as [[]] eqn:E; intros [= <- <-]; by eapply Hc. Qed.

Lemma core_addrindex f tp : same_core tp (set_addrindex f tp).
Proof. done. Qed.
Lemma core_penny x y tp : same_core tp (set_penny x y tp).
Proof. done. Qed.
Lemma core_targets f tp : same_core tp (set_bindingTargets f tp).
Proof. done. Qed.
Lemma core_updated n tp : same_core tp (set_lastUpdated n tp).
Proof. done. Qed.
Lemma core_send tx tp : same_core tp (send tx tp).
Proof. done. Qed.

#[export] Hint Resolve frames_mret frames_throw frames_gets frames_lift_val frames_fail frames_modify frames_ignore
  core_addrindex core_penny core_targets core_updated core_send : frames.

Ltac frames := repeat first [progress intros | solve [eauto 3 with frames] | apply frames_bind | apply frames_if | apply frames_modify | case_match].

Section pool.
Context {HF : HashFunctions} {CL : ChiaLib} {BC : Btcec} {EV : Env} {T : Type} {ST : StateTrie T}.
Implicit Types (pc : PoolChain (T := T)) (tp : TxPool) (tx : Tx).

Lemma frames_for_scripts f l : (forall s, frames (f s)) -> frames (for_scripts f l).
Proof. intros Hf. induction l; cbn [for_scripts]; frames. Qed.

Lemma frames_addrindex pc tx : frames (removeTransactionFromAddrIndex pc tx) /\ frames (addTransactionToAddrIndex pc tx).
Proof.
  assert (frames (fetchReferencedOutputScripts pc tx)) as Hf by (unfold fetchReferencedOutputScripts; frames).
  split; (apply frames_bind; [done|]; intros l; apply frames_bind; intros; apply frames_for_scripts; intros s;
    unfold removeScriptFromAddrIndex, indexScriptAddressToTx; frames).
Qed.

Lemma frames_bind_targets height hash outs : frames (bind_targets height hash outs).
Proof. induction outs as [|out outs IH]; cbn [bind_targets]; frames. Qed.

Lemma frames_check_standard pc tx st : frames (check_standard pc tx st).
Proof. unfold check_standard. frames. Qed.

Lemma frames_check_fee pc tx st fee n r : frames (check_fee pc tx st fee n r).
Proof. unfold check_fee, rate_limited. frames. Qed.

Lemma frames_check_inputs_known pc tx st m n r : frames (check_inputs_known pc tx st m n r).
Proof. unfold check_inputs_known. pose proof frames_check_fee. frames. Qed.

(** * Accepting a transaction *)

(** The transaction is in the pool and owns the outputs it spends. *)
Definition added (tx : Tx) (tp tp' : TxPool) : Prop :=
  (exists d, pool tp' = <[hash_of tx := d]> (pool tp) /\ d_Tx d = tx) /\
  outpoints tp' = foldl (fun m op => <[op := tx]> m) (outpoints tp) (spent_outpoints tx) /\
  orphanTxPool tp' = orphanTxPool tp.

Lemma added_core tx tp1 tp2 tp3 tp4 : same_core tp1 tp2 -> added tx tp2 tp3 -> same_core tp3 tp4 -> added tx tp1 tp4.
Proof.
  intros (Hp & Ho & Hq) ((d & H1 & H2) & H3 & H4) (H5 & H6 & H7). split; [exists d; split; congruence|]. split; congruence.
Qed.

(** A program that framed its first part: it failed there, or went on. *)
Lemma frames_bind_inv {A B} (c : pprog A) (f : A -> pprog B) tp o tp' :
  (c ≫= f) tp = (o, tp') -> frames c ->
  (exists a t, c tp = (Ret a, t) /\ same_core tp t /\ f a t = (o, tp')) \/ (same_core tp tp' /\ forall b, o <> Ret b).
Proof.
  unfold mbind, prog_bind. intros Hr Hc. destruct (c tp) as [[a|e|] t] eqn:E.
  - left. exists a, t. split_and!; [done|by eapply Hc|done].
  - injection Hr as <- <-. right. split; [by eapply Hc|done].
  - injection Hr as <- <-. right. split; [by eapply Hc|done].
Qed.

Lemma addTransaction_added pc tx height p v fee tp o tp' : addTransaction pc tx height p v fee tp = (o, tp') -> added tx tp tp'.
Proof.
  unfold addTransaction. rewrite !bind_modify. intros Hr.
  assert (frames (bind_targets height (hash_of tx) (TxOuts (ot_tx tx));; modify (set_lastUpdated (pc_now pc));; modify (send tx);;
    (if pc_AddrIndex pc then addTransactionToAddrIndex pc tx else mret tt))) as Hf.
  { destruct (frames_addrindex pc tx) as [_ Ha]. pose proof frames_bind_targets. frames. }
  eapply (added_core tx tp tp); [done| |by eapply Hf]. split; [eexists; split; [done|done]|]. split; done.
Qed.

(** What [maybeAcceptTransaction] checks before it looks at the inputs. *)
Record admitted (pc : PoolChain (T := T)) (tp : TxPool) (tx : Tx) : Prop := {
  adm_new : haveTransaction (hash_of tx) tp = false;
  adm_payload : len (Wire.Payload (ot_tx tx)) <= maxTxPoolTxPayload;
  adm_sane : CheckTransactionSanity (ot_tx tx) = Ret tt;
  adm_coinbase : IsCoinBase (ot_tx tx) = false;
  adm_free : Forall (fun op => outpoints tp !! op = None) (spent_outpoints tx);
}.

(** The store it checks the inputs with: the chain and the pool, without the transaction itself. *)
Definition accept_store (pc : PoolChain (T := T)) (tp : TxPool) (tx : Tx) : TxStore :=
  delete (hash_of tx) (FetchInputTransactions pc tx false tp).

Lemma checkPoolDoubleSpend_Ret tx tp : checkPoolDoubleSpend tx tp = Ret tt <-> Forall (fun op => outpoints tp !! op = None) (spent_outpoints tx).
Proof.
  unfold checkPoolDoubleSpend. rewrite check_all_Ret. apply Forall_proper; [|done]. intros op. rewrite check_pass, bool_decide_eq_false.
  symmetry. apply eq_None_not_Some.
Qed.

Lemma fail_val_Ret b e tp a tp' : fail_val b e tp = (Ret a, tp') -> b = false.
Proof. unfold fail_val, fail_if. by case_match. Qed.

Lemma lift_val_Ret {A} (o : val A) tp a tp' : lift_val o tp = (Ret a, tp') -> o = Ret a /\ tp' = tp.
Proof. unfold lift_val, lift. intros [= Ho <-]. by apply wrap_Ret in Ho. Qed.

(** The next step of a run from [tp] that has left the core alone so far ([C]): a failure ends it. *)
Ltac next C a H :=
  match goal with
  | Hr : (_ ≫= _) _ = (_, _) |- _ =>
      let t := fresh "t" in let C' := fresh "C" in let Hc := fresh "Hc" in let Hn := fresh "Hn" in
      apply frames_bind_inv in Hr as [(a & t & H & C' & Hr)|[Hc Hn]];
      [apply (transitivity C) in C'; clear C; rename C' into C
      |left; split_and!; [etransitivity; [exact C|exact Hc]|apply Hn|intros l El; destruct (Hn l El)]
      |first [apply frames_fail | apply frames_lift_val | apply frames_gets | apply frames_check_inputs_known
             | apply frames_if; [apply frames_check_standard|apply frames_mret]]]
  end.

(** The outcomes of [maybeAcceptTransaction]: the transaction was not added; or it was, all checks
    having passed. *)
Lemma maybeAccept_cases pc tx n r tp o tp' :
  maybeAcceptTransaction pc tx n r tp = (o, tp') ->
  (same_core tp tp' /\ o <> Ret [] /\ (forall l, o = Ret l -> admitted pc tp tx)) \/
  (admitted pc tp tx /\ added tx tp tp' /\ (forall l, o = Ret l -> l = []) /\ missing_parents (accept_store pc tp tx) = [] /\
   exists mtp t res t', pc_medianTime pc = Ret mtp /\ same_core tp t /\ check_inputs_known pc tx (accept_store pc tp tx) mtp n r t = (Ret res, t')).
Proof.
  unfold maybeAcceptTransaction. rewrite bind_gets. cbn [id]. intros Hr. assert (same_core tp tp) as C by done.
  next C u1 H1. next C u2 H2. next C u3 H3. next C u4 H4. next C u5 H5. next C mtp H6. next C u7 H7. fold (accept_store pc tp tx) in Hr.
  next C u8 H8. rewrite bind_gets in Hr. cbn [id] in Hr. next C u9 H9. destruct u3, u9.
  apply lift_val_Ret in H9 as [H9 ->]. assert (admitted pc tp tx) as Hadm.
  { apply fail_val_Ret in H1, H2, H4. apply lift_val_Ret in H3 as [H3 _]. split; [done|lia|done|done|].
    apply checkPoolDoubleSpend_Ret in H9. by destruct C as (_ & <- & _). }
  destruct (len (missing_parents (accept_store pc tp tx)) =? 0) eqn:Hm; cbn [negb] in Hr; [|injection Hr as <- <-; left; split_and!; [done| |done]].
  2:{ intros [= E]. rewrite E in Hm. done. }
  apply Z.eqb_eq, len_zero_iff in Hm.
  pose proof C as C0. next C res Hk. destruct res as [fee st]. next C pv Hp. destruct pv as [priority inputValue].
  right. unfold mbind, prog_bind in Hr.
  match type of Hr with context [addTransaction ?a ?b ?c ?d ?e ?f ?t] => destruct (addTransaction a b c d e f t) as [oa ta] eqn:Ea end.
  pose proof (addTransaction_added _ _ _ _ _ _ _ _ _ Ea) as Hadd.
  assert (tp' = ta /\ forall l, o = Ret l -> l = []) as [-> Hl].
  { destruct oa; [|by injection Hr as <- <-|by injection Hr as <- <-]. unfold lift_val, lift in Hr. destruct (pc_notify pc (ot_tx tx)); cbn in Hr; injection Hr as <- <-; (split; [done|]); congruence. }
  split_and!; [done|eapply added_core; [exact C|exact Hadd|done]|done|done|]. apply lift_val_Ret in H6 as [H6 _]. eauto 10.
Qed.

(** * The invariant *)

(** A pointer determines the transaction it points to. *)
Context (heap : positive -> MsgTx).
Definition in_heap (tx : Tx) : Prop := ot_tx tx = heap (ot_ptr tx).

Definition orphan_index (otp : OrphanTxPool MsgTx) : gmap Hash Tx := entryIndex (tx_pool otp).

Record orphans_ok (otp : OrphanTxPool MsgTx) : Prop := {
  otk_pool : pool_ok (tx_pool otp);
  otk_heap : forall id e, orphan_index otp !! id = Some e -> in_heap e;
}.

Record txpool_ok (tp : TxPool) : Prop := {
  tpk_hash : forall h d, pool tp !! h = Some d -> hash_of (d_Tx d) = h;
  tpk_spent : forall h d op, pool tp !! h = Some d -> op ∈ spent_outpoints (d_Tx d) -> outpoints tp !! op = Some (d_Tx d);
  tpk_owner : forall op tx, outpoints tp !! op = Some tx -> op ∈ spent_outpoints tx /\ exists d, pool tp !! hash_of tx = Some d /\ d_Tx d = tx;
  tpk_disjoint : forall h, is_Some (pool tp !! h) -> orphan_index (orphanTxPool tp) !! h = None;
  tpk_orphans : orphans_ok (orphanTxPool tp);
}.

Lemma txpool_ok_new : txpool_ok NewTxPool.
Proof.
  split; cbn [NewTxPool pool outpoints orphanTxPool]; [by intros ? ? ?%lookup_empty_Some|by intros ? ? ? ?%lookup_empty_Some|by intros ? ? ?%lookup_empty_Some| |].
  - by intros h [? ?%lookup_empty_Some].
  - split; [apply pool_ok_new|]. intros id e. unfold orphan_index. cbn. by intros ?%lookup_empty_Some.
Qed.

Lemma same_core_ok tp tp' : same_core tp tp' -> txpool_ok tp -> txpool_ok tp'.
Proof. intros (Hp & Ho & Hq) [H1 H2 H3 H4 H5]. split; rewrite ?Hp, ?Ho, ?Hq; eauto. Qed.

Lemma foldl_insert_lookup tx (ops : list OutPoint) (m : gmap OutPoint Tx) op :
  foldl (fun m op => <[op := tx]> m) m ops !! op = if decide (op ∈ ops) then Some tx else m !! op.
Proof.
  revert m. induction ops as [|x ops IH]; intros m; [done|]. cbn [foldl]. rewrite IH.
  destruct (decide (op = x)) as [->|Hne]; [rewrite lookup_insert_eq; by repeat case_decide; set_solver|].
  rewrite lookup_insert_ne by done. by repeat case_decide; set_solver.
Qed.

Lemma foldl_delete_lookup (ops : list OutPoint) (m : gmap OutPoint Tx) op :
  foldl (fun m op => delete op m) m ops !! op = if decide (op ∈ ops) then None else m !! op.
Proof.
  revert m. induction ops as [|x ops IH]; intros m; [done|]. cbn [foldl]. rewrite IH.
  destruct (decide (op = x)) as [->|Hne]; [rewrite lookup_delete_eq; by repeat case_decide; set_solver|].
  rewrite lookup_delete_ne by done. by repeat case_decide; set_solver.
Qed.

Lemma have_false h tp : haveTransaction h tp = false <-> pool tp !! h = None /\ orphan_index (orphanTxPool tp) !! h = None.
Proof.
  unfold haveTransaction, isTransactionInPool, isOrphanTxInPool, Has, orphan_index. rewrite orb_false_iff, !bool_decide_eq_false, !eq_None_not_Some. done.
Qed.

Lemma added_ok pc tx tp tp' : txpool_ok tp -> admitted pc tp tx -> added tx tp tp' -> txpool_ok tp'.
Proof.
  intros [Hhash Hspent Howner Hdis Horph] Hadm ((d & Hp & Hd) & Ho & Hq). destruct (proj1 (have_false _ _) (adm_new _ _ _ Hadm)) as [Hnew Hnorph].
  pose proof (adm_free _ _ _ Hadm) as Hfree. rewrite Forall_forall in Hfree.
  split; rewrite ?Hp, ?Ho, ?Hq; try done.
  - intros h d' [[<- <-]|[_ Hl]]%lookup_insert_Some; [by rewrite Hd|by apply Hhash].
  - intros h d' op Hl Hop. rewrite foldl_insert_lookup. apply lookup_insert_Some in Hl as [[<- <-]|[Hne Hl]].
    + rewrite decide_True; [by rewrite Hd|by rewrite <- Hd].
    + rewrite decide_False; [by eapply Hspent|]. intros Hin. specialize (Hfree _ Hin). pose proof (Hspent _ _ _ Hl Hop). congruence.
  - intros op t. rewrite foldl_insert_lookup. case_decide as Hin.
    + intros [= <-]. split; [done|]. exists d. by rewrite lookup_insert_eq.
    + intros Ht. destruct (Howner _ _ Ht) as [Hop (d' & Hd' & E)]. split; [done|]. exists d'. rewrite lookup_insert_ne; [done|]. intros E'. rewrite E', Hd' in Hnew. done.
  - intros h [d' [[<- _]|[_ Hl]]%lookup_insert_Some]; [done|]. apply Hdis. by eexists.
Qed.

(** ** Removing *)

(** The transaction [tx] stands for has left. *)
Definition removed (tx : Tx) (tp tp' : TxPool) : Prop :=
  pool tp' = delete (hash_of tx) (pool tp) /\ orphanTxPool tp' = orphanTxPool tp /\
  outpoints tp' = match pool tp !! hash_of tx with
                  | Some d => foldl (fun m op => delete op m) (outpoints tp) (spent_outpoints (d_Tx d))
                  | None => outpoints tp
                  end.

Lemma remove_entry_cases pc tx tp o tp' :
  remove_entry pc tx tp = (o, tp') -> (o = Ret tt /\ removed tx tp tp') \/ ((o = Panic /\ pc_AddrIndex pc = true) /\ same_core tp tp').
Proof.
  unfold remove_entry. rewrite bind_gets. cbn [id]. destruct (pool tp !! hash_of tx) as [d|] eqn:Hd.
  2:{ intros [= <- <-]. left. split; [done|]. split_and!; [by rewrite delete_id|done|by rewrite Hd]. }
  assert (frames (if pc_AddrIndex pc then ignore_err (removeTransactionFromAddrIndex pc tx) else mret tt)) as Hf.
  { destruct (frames_addrindex pc tx) as [Ha _]. apply frames_if; [by apply frames_ignore|apply frames_mret]. }
  unfold mbind, prog_bind. destruct ((if pc_AddrIndex pc then ignore_err (removeTransactionFromAddrIndex pc tx) else mret tt) tp) as [o1 t1] eqn:E. pose proof (Hf _ _ _ E) as (C1 & C2 & C3).
  assert (forall e, o1 <> Err e) as Hne.
  { intros e ->. destruct (pc_AddrIndex pc); [|done]. unfold ignore_err in E. destruct (removeTransactionFromAddrIndex pc tx tp) as [[]]; done. }
  destruct o1 as [[]|e|]; [|by destruct (Hne e)|].
  - intros [= <- <-]. left. split; [done|]. split_and!; cbn; [by rewrite C1|by rewrite C3|by rewrite Hd, C2].
  - intros [= <- <-]. right. split; [split; [done|by destruct (pc_AddrIndex pc)]|done].
Qed.

Lemma removed_ok tx tp tp' : txpool_ok tp -> removed tx tp tp' -> txpool_ok tp'.
Proof.
  intros [Hhash Hspent Howner Hdis Horph] (Hp & Hq & Ho). destruct (pool tp !! hash_of tx) as [d|] eqn:Hd; [|].
  2:{ rewrite delete_id in Hp by done. split; rewrite ?Hp, ?Hq, ?Ho; done. }
  split; rewrite ?Hp, ?Hq, ?Ho; try done.
  - intros h d' [_ Hl]%lookup_delete_Some. by apply Hhash.
  - intros h d' op [Hne Hl]%lookup_delete_Some Hop. rewrite foldl_delete_lookup. rewrite decide_False; [by eapply Hspent|].
    intros Hin. apply Hne. pose proof (Hspent _ _ _ Hd Hin) as E1. rewrite (Hspent _ _ _ Hl Hop) in E1. injection E1 as E1.
    rewrite <- (Hhash _ _ Hl), <- (Hhash _ _ Hd). congruence.
  - intros op t. rewrite foldl_delete_lookup. case_decide as Hin; [done|]. intros Ht. destruct (Howner _ _ Ht) as [Hop (d' & Hd' & E)].
    split; [done|]. exists d'. split; [|done]. apply lookup_delete_Some. split; [|done]. intros E'. apply Hin. rewrite E', Hd' in Hd. injection Hd as ->. by rewrite E.
  - intros h [d' [_ Hl]%lookup_delete_Some]. apply Hdis. by eexists.
Qed.

(** Programs that keep the invariant, and only remove transactions. *)
Definition shrinks {A} (c : pprog A) : Prop := forall tp o tp', txpool_ok tp -> c tp = (o, tp') ->
  txpool_ok tp' /\ pool tp' ⊆ pool tp /\ orphanTxPool tp' = orphanTxPool tp.

Lemma shrinks_bind {A B} (c : pprog A) (f : A -> pprog B) : shrinks c -> (forall a, shrinks (f a)) -> shrinks (c ≫= f).
Proof.
  intros Hc Hf tp o tp' Hok. unfold mbind, prog_bind. destruct (c tp) as [[a|e|] t] eqn:E; intros Hr;
    destruct (Hc _ _ _ Hok E) as (Hok1 & Hs1 & Hq1); [|by injection Hr as <- <-|by injection Hr as <- <-].
  destruct (Hf a _ _ _ Hok1 Hr) as (Hok2 & Hs2 & Hq2). split_and!; [done|by etransitivity|congruence].
Qed.

Lemma shrinks_frames {A} (c : pprog A) : frames c -> shrinks c.
Proof. intros Hf tp o tp' Hok Hr. pose proof (Hf _ _ _ Hr) as Hc. split; [by eapply same_core_ok|]. destruct Hc as (-> & _ & ->). done. Qed.

Lemma remove_entry_shrinks pc tx : shrinks (remove_entry pc tx).
Proof.
  intros tp o tp' Hok [[-> Hr]|[[-> _] Hc]]%remove_entry_cases.
  - split; [by eapply removed_ok|]. destruct Hr as (-> & -> & _). split; [apply delete_subseteq|done].
  - split; [by eapply same_core_ok|]. by destruct Hc as (-> & _ & ->).
Qed.

Lemma remove_redeemers_shrinks rec h l : (forall t, shrinks (rec t)) -> shrinks (remove_redeemers rec h l).
Proof.
  intros Hrec. induction l as [|i l IH]; cbn [remove_redeemers]; [apply shrinks_frames, frames_mret|].
  apply shrinks_bind; [apply shrinks_frames, frames_gets|]. intros tp. apply shrinks_bind; [|done]. case_match; [done|apply shrinks_frames, frames_mret].
Qed.

Lemma removeTransaction_shrinks pc fuel tx b : shrinks (removeTransaction pc fuel tx b).
Proof.
  revert tx b. induction fuel as [|fuel IH]; intros tx b; cbn [removeTransaction]; [apply shrinks_frames, frames_throw|].
  apply shrinks_bind; [|intros; apply remove_entry_shrinks]. destruct b; [|apply shrinks_frames, frames_mret]. apply remove_redeemers_shrinks. auto.
Qed.

Lemma remove_transaction_shrinks pc tx b : shrinks (remove_transaction pc tx b).
Proof. intros tp o tp' Hok Hr. by eapply removeTransaction_shrinks. Qed.

Lemma removeDoubleSpends_shrinks pc tx : shrinks (removeDoubleSpends pc tx).
Proof.
  unfold removeDoubleSpends. induction (TxIns (ot_tx tx)) as [|txIn l IH]; cbn [remove_spenders]; [apply shrinks_frames, frames_mret|].
  apply shrinks_bind; [apply shrinks_frames, frames_gets|]. intros tp. apply shrinks_bind; [|done].
  repeat case_match; first [apply remove_transaction_shrinks|apply shrinks_frames, frames_mret].
Qed.

(** ** Orphans *)

Lemma removeOrphan_spec h otp :
  orphans_ok otp -> exists otp', removeOrphan h otp = (Ret tt, otp') /\ orphans_ok otp' /\ orphan_index otp' = delete h (orphan_index otp) /\
    (forall a, is_Some (subToPriorIndex (tx_pool otp') !! a) -> is_Some (subToPriorIndex (tx_pool otp) !! a)).
Proof.
  intros [Hp Hh]. destruct (fetch_spec h _ Hp) as (aop & Hf & Hok & Hi & Hs). exists (mkOrphanTxPool (maxOrphanTransactions otp) aop). split_and!.
  - unfold removeOrphan, on_pool, mbind, prog_bind, Fetch. by rewrite Hf.
  - split; [done|]. intros id e. unfold orphan_index. cbn. rewrite Hi. intros [_ He]%lookup_delete_Some. by eapply Hh.
  - done.
  - intros a. cbn. rewrite Hs. case_decide; [by intros []|done].
Qed.

(** Making room for an orphan only removes orphans. *)
Lemma limitNumOrphans_spec ids rand otp o otp' :
  orphans_ok otp -> limitNumOrphans ids rand otp = (o, otp') -> orphans_ok otp' /\ orphan_index otp' ⊆ orphan_index otp /\
    (forall a, is_Some (subToPriorIndex (tx_pool otp') !! a) -> is_Some (subToPriorIndex (tx_pool otp) !! a)).
Proof.
  intros Hok. unfold limitNumOrphans. rewrite bind_gets. cbn [id]. case_match; [|by intros [= <- <-]].
  destruct rand as [r|]; [|by intros [= <- <-]]. case_match; [by intros [= <- <-]|].
  unfold mbind, prog_bind, mret, prog_ret, lift. destruct (index ids _) as [x|e|]; [|by intros [= <- <-]|by intros [= <- <-]].
  destruct (removeOrphan_spec x otp Hok) as (otp1 & -> & Hok1 & Hi & Hs). intros [= <- <-]. split_and!; [done|rewrite Hi; apply delete_subseteq|done].
Qed.

Lemma addOrphan_spec ids rand tx otp o otp' :
  orphans_ok otp -> in_heap tx -> orphan_index otp !! hash_of tx = None -> addOrphan ids rand tx otp = (o, otp') ->
  orphans_ok otp' /\ (o = Ret tt \/ o = Panic) /\ forall id, is_Some (orphan_index otp' !! id) -> id = hash_of tx \/ is_Some (orphan_index otp !! id).
Proof.
  intros Hok Hh Hn. unfold addOrphan, mbind, prog_bind. unfold ignore_err. destruct (limitNumOrphans ids rand otp) as [o1 otp1] eqn:E1.
  destruct (limitNumOrphans_spec _ _ _ _ _ Hok E1) as (Hok1 & Hsub & Hpri).
  assert (forall id, is_Some (orphan_index otp1 !! id) -> is_Some (orphan_index otp !! id)) as Hsome by (intros id [e He]; exists e; by eapply lookup_weaken).
  assert (orphan_index otp1 !! hash_of tx = None) as Hn1.
  { apply eq_None_not_Some. intros Hs. apply Hsome in Hs. rewrite Hn in Hs. by destruct Hs. }
  assert (subToPriorIndex (tx_pool otp1) !! ot_ptr tx = None) as Hptr.
  { apply eq_None_not_Some. intros Hs. destruct (ok_live _ (otk_pool _ Hok1) _ Hs) as (id & e & He & Ha).
    assert (e = tx) as ->. { pose proof (otk_heap _ Hok1 _ _ He) as H1. unfold in_heap in *. destruct e, tx. cbn in *. congruence. }
    pose proof (ok_id _ (otk_pool _ Hok1) _ _ He) as Hid. cbn in Hid. unfold orphan_index, hash_of in Hn1. rewrite <- Hid in He. congruence. }
  pose proof (Put_ok tx (tx_parents (ot_tx tx)) _ (otk_pool _ Hok1) Hn1 Hptr) as Hput.
  destruct o1 as [[]|er|]; [| |intros [= <- <-]; split_and!; [done|by right|auto]]; (cbn [on_pool]; intros [= <- <-]; split_and!; [split; [exact Hput|]|by left|]).
  1, 3: intros id e; unfold orphan_index; cbn; intros [[<- <-]|[_ He]]%lookup_insert_Some; [done|by eapply (otk_heap _ Hok1)].
  all: intros id; unfold orphan_index; cbn; intros [e [[<- _]|[_ He]]%lookup_insert_Some]; [by left|right; apply Hsome; by eexists].
Qed.

Lemma on_orphans_ok otp tp :
  txpool_ok tp -> orphans_ok otp -> (forall id, is_Some (orphan_index otp !! id) -> pool tp !! id = None) -> txpool_ok (set_orphanTxPool tp otp).
Proof.
  intros [H1 H2 H3 H4 H5] Hok Hd. split; cbn; try done. intros h Hh. apply eq_None_not_Some. intros Hs. rewrite (Hd h Hs) in Hh. by destruct Hh.
Qed.

Lemma orphan_not_pooled tp id : txpool_ok tp -> is_Some (orphan_index (orphanTxPool tp) !! id) -> pool tp !! id = None.
Proof. intros Hok Hs. apply eq_None_not_Some. intros Hp. rewrite (tpk_disjoint _ Hok id Hp) in Hs. by destruct Hs. Qed.

Lemma RemoveOrphan_spec h tp :
  txpool_ok tp -> exists tp', RemoveOrphan h tp = (Ret tt, tp') /\ txpool_ok tp' /\ pool tp' = pool tp /\ outpoints tp' = outpoints tp /\
    orphan_index (orphanTxPool tp') = delete h (orphan_index (orphanTxPool tp)).
Proof.
  intros Hok. destruct (removeOrphan_spec h _ (tpk_orphans _ Hok)) as (otp & Hr & Ho & Hi & _). exists (set_orphanTxPool tp otp).
  split_and!; [unfold RemoveOrphan, on_orphans; by rewrite Hr| |done|done|done].
  apply on_orphans_ok; [done|done|]. intros id [e He]. rewrite Hi in He. apply lookup_delete_Some in He as [_ He]. apply orphan_not_pooled; [done|by eexists].
Qed.

Lemma add_orphan_spec pc tx tp o tp' :
  txpool_ok tp -> in_heap tx -> haveTransaction (hash_of tx) tp = false -> add_orphan pc tx tp = (o, tp') ->
  txpool_ok tp' /\ pool tp' = pool tp /\ (o = Ret tt \/ o = Panic) /\
  forall id, is_Some (orphan_index (orphanTxPool tp') !! id) -> id = hash_of tx \/ is_Some (orphan_index (orphanTxPool tp) !! id).
Proof.
  intros Hok Hh [Hp Ho]%have_false. unfold add_orphan, on_orphans. destruct (addOrphan _ _ _ _) as [o1 otp] eqn:E. intros [= <- <-].
  destruct (addOrphan_spec _ _ _ _ _ _ (tpk_orphans _ Hok) Hh Ho E) as (Hok1 & Ho1 & Hs). split_and!; [|done|destruct Ho1 as [-> | ->]; auto|done].
  apply on_orphans_ok; [done|done|]. intros id [->|Hid]%Hs; [done|by apply orphan_not_pooled].
Qed.

(** ** Adopting orphans *)

(** From [tp] to [tp'] the pool has grown by the hashes [acc], all orphans from [O]. *)
Record adopts (O : gset Hash) (tp tp' : TxPool) (acc : list Hash) : Prop := {
  ado_ok : txpool_ok tp';
  ado_orphans : dom (orphan_index (orphanTxPool tp')) ⊆ O;
  ado_pool : dom (pool tp) ⊆ dom (pool tp');
  ado_new : NoDup acc /\ forall h, h ∈ acc -> h ∈ O /\ h ∉ dom (pool tp) /\ h ∈ dom (pool tp');
}.

Lemma adopts_app O tp1 tp2 tp3 a b : adopts O tp1 tp2 a -> adopts O tp2 tp3 b -> adopts O tp1 tp3 (a ++ b).
Proof.
  intros [_ _ Hp1 [Hn1 Ha1]] [Hok Ho Hp2 [Hn2 Ha2]]. split; [done|done|set_solver|]. split.
  - apply NoDup_app. split_and!; [done| |done]. intros h Ha Hb. by destruct (Ha1 h Ha) as (_ & _ & ?), (Ha2 h Hb) as (_ & ? & _).
  - intros h [Ha|Hb]%elem_of_app; [destruct (Ha1 h Ha) as (? & ? & ?)|destruct (Ha2 h Hb) as (? & ? & ?)]; set_solver.
Qed.

Lemma adopts_none O tp tp' : txpool_ok tp' -> dom (orphan_index (orphanTxPool tp')) ⊆ O -> pool tp' = pool tp -> adopts O tp tp' [].
Proof. intros Hok Ho Hp. split; [done|done|by rewrite Hp|]. split; [constructor|]. by intros h Hh%not_elem_of_nil. Qed.

(** One orphan: it is accepted, dropped or put back. *)
Definition adopt_one pc (tx : Tx) : pprog (list Hash) := fun tp =>
  match maybeAcceptTransaction pc tx true true tp with
  | (Err _, tp') => (Ret [], tp')
  | (Ret missingParents, tp') => if negb (len missingParents =? 0) then (add_orphan pc tx;; mret []) tp' else (Ret [hash_of tx], tp')
  | (Panic, tp') => (Panic, tp')
  end.

Lemma adopt_one_spec pc O tx tp o tp' :
  txpool_ok tp -> in_heap tx -> hash_of tx ∈ O -> dom (orphan_index (orphanTxPool tp)) ⊆ O -> adopt_one pc tx tp = (o, tp') ->
  txpool_ok tp' /\ (o = Panic \/ exists acc, o = Ret acc /\ adopts O tp tp' acc).
Proof.
  intros Hok Hh Hin HO. unfold adopt_one. destruct (maybeAcceptTransaction pc tx true true tp) as [o1 t] eqn:E.
  destruct (maybeAccept_cases _ _ _ _ _ _ _ E) as [(Hc & Hne & Hadm)|(Hadm & Hadd & Hl & _)].
  - assert (txpool_ok t) as Hokt by (by eapply same_core_ok). destruct Hc as (Hp & _ & Hq).
    destruct o1 as [l|e|]; [|intros [= <- <-]; split; [done|]; right; exists []; split; [done|]; apply adopts_none; [done|by rewrite Hq|done]|intros [= <- <-]; auto].
    case_match eqn:El.
    + unfold mbind, prog_bind. destruct (add_orphan pc tx t) as [o2 t2] eqn:E2.
      assert (haveTransaction (hash_of tx) t = false) as Hhave. { pose proof (adm_new _ _ _ (Hadm l eq_refl)) as H1. apply have_false in H1. apply have_false. by rewrite Hp, Hq. }
      destruct (add_orphan_spec _ _ _ _ _ Hokt Hh Hhave E2) as (Hok2 & Hp2 & Ho2 & Hs2).
      destruct Ho2 as [-> | ->]; intros [= <- <-]; (split; [done|]); [|by left]. right. exists []. split; [done|]. apply adopts_none; [done| |congruence].
      intros h [->|Hh2]%elem_of_dom%Hs2; [done|]. apply HO, elem_of_dom. by rewrite <- Hq.
    + apply negb_false_iff, Z.eqb_eq, len_zero_iff in El. by subst l.
  - pose proof (added_ok _ _ _ _ Hok Hadm Hadd) as Hokt. destruct Hadd as ((d & Hp & Hd) & _ & Hq). destruct (proj1 (have_false _ _) (adm_new _ _ _ Hadm)) as [Hnew _].
    assert (dom (pool tp) ⊆ dom (pool t)) as Hsub by (rewrite Hp, dom_insert_L; set_solver).
    destruct o1 as [l|e|]; [|intros [= <- <-]; split; [done|]; right; exists []; split; [done|]; split; [done|by rewrite Hq|done|split; [constructor|by intros h ?%not_elem_of_nil]]|intros [= <- <-]; auto].
    rewrite (Hl l eq_refl). cbn. intros [= <- <-]. split; [done|]. right. exists [hash_of tx]. split; [done|]. split; [done|by rewrite Hq|done|].
    split; [apply NoDup_singleton|]. intros h ->%list_elem_of_singleton. split_and!; [done|by apply not_elem_of_dom|]. rewrite Hp, dom_insert_L. set_solver.
Qed.

Lemma adopt_orphans_cons pc tx rest :
  adopt_orphans pc (tx :: rest) = (RemoveOrphan (hash_of tx);; accepted ← adopt_one pc tx; hashes ← adopt_orphans pc rest; mret (accepted ++ hashes)).
Proof. done. Qed.

Lemma adopt_orphans_spec pc O l tp o tp' :
  txpool_ok tp -> Forall (fun tx => in_heap tx /\ hash_of tx ∈ O) l -> dom (orphan_index (orphanTxPool tp)) ⊆ O -> adopt_orphans pc l tp = (o, tp') ->
  txpool_ok tp' /\ (o = Panic \/ exists acc, o = Ret acc /\ adopts O tp tp' acc).
Proof.
  revert tp o tp'. induction l as [|tx l IH]; intros tp o tp' Hok Hl HO.
  - intros [= <- <-]. split; [done|]. right. exists []. split; [done|]. by apply adopts_none.
  - apply Forall_cons in Hl as [[Hh Hin] Hl]. rewrite adopt_orphans_cons.
    destruct (RemoveOrphan_spec (hash_of tx) tp Hok) as (t0 & H0 & Hok0 & Hp0 & _ & Hi0). rewrite (bind_step _ _ _ _ _ H0).
    assert (dom (orphan_index (orphanTxPool t0)) ⊆ O) as HO0 by (rewrite Hi0, dom_delete_L; set_solver).
    unfold mbind, prog_bind. destruct (adopt_one pc tx t0) as [o1 t1] eqn:E1.
    destruct (adopt_one_spec _ _ _ _ _ _ Hok0 Hh Hin HO0 E1) as [Hok1 [-> | (a1 & -> & Ha1)]]; [intros [= <- <-]; auto|].
    destruct (adopt_orphans pc l t1) as [o2 t2] eqn:E2. destruct (IH _ _ _ Hok1 Hl (ado_orphans _ _ _ _ Ha1) E2) as [Hok2 [-> | (a2 & -> & Ha2)]]; [intros [= <- <-]; auto|].
    intros [= <- <-]. split; [done|]. right. exists (a1 ++ a2). split; [done|].
    apply (adopts_app O tp t1 t2); [|done]. destruct Ha1 as [H1 H2 H3 H4]. rewrite Hp0 in *. done.
Qed.

(** The orphans that are not in the pool yet. *)
Definition waiting (O : gset Hash) (tp : TxPool) : nat := size (O ∖ dom (pool tp)).

Lemma adopts_waiting O tp tp' acc : adopts O tp tp' acc -> (waiting O tp' + length acc <= waiting O tp)%nat.
Proof.
  intros [_ _ Hp [Hn Ha]]. unfold waiting. rewrite <- (size_list_to_set (C := gset Hash) acc Hn), <- size_union by set_solver. apply subseteq_size. set_solver.
Qed.

Lemma process_orphans_spec pc O fuel q tp o tp' :
  txpool_ok tp -> dom (orphan_index (orphanTxPool tp)) ⊆ O -> (waiting O tp + length q <= fuel)%nat -> process_orphans pc fuel q tp = (o, tp') ->
  txpool_ok tp' /\ (o = Panic \/ o = Ret tt /\ dom (pool tp) ⊆ dom (pool tp')).
Proof.
  revert q tp o tp'. induction fuel as [|fuel IH]; intros [|h q] tp o tp' Hok HO Hf; cbn [process_orphans]; try (intros [= <- <-]; by auto); [cbn in Hf; lia|].
  rewrite bind_gets. cbn [id]. unfold mbind, prog_bind. destruct (adopt_orphans pc _ tp) as [o1 t1] eqn:E1.
  assert (Forall (fun tx => in_heap tx /\ hash_of tx ∈ O) (ReadSubs h (tx_pool (orphanTxPool tp)))) as Hsubs.
  { apply Forall_forall. intros tx Htx. pose proof (ok_subs _ (otk_pool _ (tpk_orphans _ Hok)) _ _ Htx) as He. split; [by eapply (otk_heap _ (tpk_orphans _ Hok))|].
    apply HO, elem_of_dom. by exists tx. }
  destruct (adopt_orphans_spec pc O _ _ _ _ Hok Hsubs HO E1) as [Hok1 [-> | (acc & -> & Hacc)]]; [intros [= <- <-]; auto|].
  intros Hr. pose proof (adopts_waiting _ _ _ _ Hacc). destruct (IH (q ++ acc) t1 o tp' Hok1 (ado_orphans _ _ _ _ Hacc)) as [Hok' Ho']; [|done|].
  - rewrite length_app. cbn in Hf. lia.
  - split; [done|]. destruct Ho' as [?|[? ?]]; [by left|right]. split; [done|]. pose proof (ado_pool _ _ _ _ Hacc). set_solver.
Qed.

Lemma ProcessOrphans_spec pc h tp o tp' :
  txpool_ok tp -> ProcessOrphans pc h tp = (o, tp') -> txpool_ok tp' /\ (o = Panic \/ o = Ret tt /\ dom (pool tp) ⊆ dom (pool tp')).
Proof.
  intros Hok. unfold ProcessOrphans. apply (process_orphans_spec pc (dom (orphan_index (orphanTxPool tp)))); [done|done|].
  unfold waiting. cbn [length]. rewrite <- size_dom. assert (size (dom (orphan_index (orphanTxPool tp)) ∖ dom (pool tp)) <= size (dom (orphan_index (orphanTxPool tp))))%nat by (apply subseteq_size; set_solver).
  unfold orphan_index in *. lia.
Qed.

(** * The operations *)

Inductive pool_op :=
| OpProcessTransaction (tx : Tx) (allowOrphan rateLimit : bool)
| OpMaybeAcceptTransaction (tx : Tx) (isNew rateLimit : bool)
| OpRemoveTransaction (tx : Tx) (redeemers : bool)
| OpRemoveDoubleSpends (tx : Tx)
| OpRemoveOrphan (hash : Hash)
| OpProcessOrphans (hash : Hash)
| OpSyncAttachBlock (txs : list Tx)
| OpSyncDetachBlock (txs : list Tx).

Definition run_op pc (op : pool_op) : pprog unit :=
  match op with
  | OpProcessTransaction tx allowOrphan rateLimit => ProcessTransaction pc tx allowOrphan rateLimit;; mret tt
  | OpMaybeAcceptTransaction tx isNew rateLimit => maybeAcceptTransaction pc tx isNew rateLimit;; mret tt
  | OpRemoveTransaction tx redeemers => remove_transaction pc tx redeemers
  | OpRemoveDoubleSpends tx => removeDoubleSpends pc tx
  | OpRemoveOrphan hash => RemoveOrphan hash
  | OpProcessOrphans hash => ProcessOrphans pc hash
  | OpSyncAttachBlock txs => pool_SyncAttachBlock pc txs
  | OpSyncDetachBlock txs => pool_SyncDetachBlock pc txs
  end.

Definition op_txs (op : pool_op) : list Tx :=
  match op with
  | OpProcessTransaction tx _ _ | OpMaybeAcceptTransaction tx _ _ | OpRemoveTransaction tx _ | OpRemoveDoubleSpends tx => [tx]
  | OpRemoveOrphan _ | OpProcessOrphans _ => []
  | OpSyncAttachBlock txs | OpSyncDetachBlock txs => txs
  end.

Definition keeps {A} (c : pprog A) : Prop := forall tp o tp', txpool_ok tp -> c tp = (o, tp') -> txpool_ok tp'.

Lemma keeps_bind {A B} (c : pprog A) (f : A -> pprog B) : keeps c -> (forall a, keeps (f a)) -> keeps (c ≫= f).
Proof.
  intros Hc Hf tp o tp' Hok. unfold mbind, prog_bind. destruct (c tp) as [[a|e|] t] eqn:E; intros Hr; [|by injection Hr as <- <-; eapply Hc|by injection Hr as <- <-; eapply Hc].
  eapply Hf; [by eapply Hc|done].
Qed.

Lemma keeps_frames {A} (c : pprog A) : frames c -> keeps c.
Proof. intros Hf tp o tp' Hok Hr. by eapply same_core_ok; [eapply Hf|]. Qed.

Lemma keeps_shrinks {A} (c : pprog A) : shrinks c -> keeps c.
Proof. intros Hs tp o tp' Hok Hr. by eapply Hs. Qed.

Lemma keeps_accept pc tx n r : keeps (maybeAcceptTransaction pc tx n r).
Proof.
  intros tp o tp' Hok [(Hc & _)|(Hadm & Hadd & _)]%maybeAccept_cases; [by eapply same_core_ok|by eapply added_ok].
Qed.

Lemma keeps_removeOrphan h : keeps (RemoveOrphan h).
Proof. intros tp o tp' Hok Hr. destruct (RemoveOrphan_spec h tp Hok) as (t & H1 & H2 & _). rewrite Hr in H1. by injection H1 as -> ->. Qed.

Lemma keeps_processOrphans pc h : keeps (ProcessOrphans pc h).
Proof. intros tp o tp' Hok Hr. by destruct (ProcessOrphans_spec _ _ _ _ _ Hok Hr). Qed.

(** A transaction with missing parents becomes an orphan. *)
Lemma keeps_process pc tx a r : in_heap tx -> keeps (ProcessTransaction pc tx a r).
Proof.
  intros Hh tp o tp' Hok. unfold ProcessTransaction, mbind, prog_bind. destruct (maybeAcceptTransaction pc tx true r tp) as [o1 t1] eqn:E.
  pose proof (keeps_accept _ _ _ _ _ _ _ Hok E) as Hok1. destruct o1 as [l|e|]; [|by intros [= <- <-]|by intros [= <- <-]].
  destruct (len l =? 0) eqn:El.
  - destruct (ProcessOrphans pc (hash_of tx) t1) as [o2 t2] eqn:E2. pose proof (keeps_processOrphans _ _ _ _ _ Hok1 E2). destruct o2; by intros [= <- <-].
  - destruct (maybeAccept_cases _ _ _ _ _ _ _ E) as [((Hp & _ & Hq) & _ & Hadm)|(_ & _ & Hl & _)]; [|by rewrite (Hl l eq_refl) in El].
    unfold fail_val, fail_if. destruct (negb a); [by intros [= <- <-]|].
    assert (haveTransaction (hash_of tx) t1 = false) as Hhave. { pose proof (adm_new _ _ _ (Hadm l eq_refl)) as H1. apply have_false in H1. apply have_false. by rewrite Hp, Hq. }
    unfold maybe_add_orphan, maybeAddOrphan, on_orphans, mbind, prog_bind. unfold fail_if. destruct (_ >? maxOrphanTxSize).
    + intros [= <- <-]. by destruct t1.
    + unfold mret, prog_ret. pose proof (add_orphan_spec pc tx t1) as Hadd. unfold add_orphan, on_orphans in Hadd. destruct (addOrphan _ _ _ _) as [o2 otp].
      destruct (Hadd _ _ Hok1 Hh Hhave eq_refl) as [Hok2 _]. destruct o2; intros Er; apply (f_equal snd) in Er; cbn [snd] in Er; by subst tp'.
Qed.

Lemma keeps_attach pc txs : keeps (attach_txs pc txs).
Proof.
  induction txs as [|tx txs IH]; cbn [attach_txs]; [apply keeps_frames, frames_mret|].
  apply keeps_bind; [apply keeps_shrinks, remove_transaction_shrinks|intros _]. apply keeps_bind; [apply keeps_shrinks, removeDoubleSpends_shrinks|intros _].
  apply keeps_bind; [apply keeps_removeOrphan|intros _]. apply keeps_bind; [apply keeps_processOrphans|auto].
Qed.

Lemma keeps_detach pc txs : keeps (detach_txs pc txs).
Proof.
  induction txs as [|tx txs IH]; cbn [detach_txs]; [apply keeps_frames, frames_mret|]. apply keeps_bind; [|auto].
  intros tp o tp' Hok. destruct (maybeAcceptTransaction pc tx false false tp) as [o1 t1] eqn:E. pose proof (keeps_accept _ _ _ _ _ _ _ Hok E) as Hok1.
  destruct o1; [by intros [= <- <-]| |by intros [= <- <-]]. intros Hr. by eapply (keeps_shrinks _ (remove_transaction_shrinks pc tx true)).
Qed.

Lemma run_op_keeps pc op : Forall in_heap (op_txs op) -> keeps (run_op pc op).
Proof.
  intros Hh. destruct op as [tx a r|tx n r|tx b|tx|h|h|txs|txs]; cbn [run_op op_txs] in *.
  - apply Forall_cons in Hh as [Hh _]. apply keeps_bind; [exact (keeps_process _ _ _ _ Hh)|intros; apply keeps_frames, frames_mret].
  - apply keeps_bind; [apply keeps_accept|intros; apply keeps_frames, frames_mret].
  - apply keeps_shrinks, remove_transaction_shrinks.
  - apply keeps_shrinks, removeDoubleSpends_shrinks.
  - apply keeps_removeOrphan.
  - apply keeps_processOrphans.
  - apply keeps_bind; [destruct txs; apply keeps_frames; [by intros ? ? ? [= <- <-]|apply frames_mret]|intros; apply keeps_attach].
  - apply keeps_bind; [destruct txs; apply keeps_frames; [by intros ? ? ? [= <- <-]|apply frames_mret]|intros; apply keeps_detach].
Qed.

(** An operation, with or without an error, on transactions of the heap; the node may change
    between operations. *)
Inductive pool_run : TxPool -> TxPool -> Prop :=
| run_step pc op tp o tp' : Forall in_heap (op_txs op) -> run_op pc op tp = (o, tp') -> pool_run tp tp'.

Lemma pool_runs_ok tp : rtc pool_run NewTxPool tp -> txpool_ok tp.
Proof.
  pose proof txpool_ok_new as Hnew. revert Hnew. generalize NewTxPool. intros tp0 Hok Hrun. revert Hok.
  induction Hrun as [|tp0 tp1 tp2 [pc op t o t' Hh Hr] _ IH]; [done|]. intros Hok. apply IH. by eapply run_op_keeps.
Qed.

(** C5: The memory pool never holds a double spend: after any sequence of operations, on whatever
    state of the chain and with whatever errors, no two transactions of the pool spend the same
    output; the index of spent outputs lists exactly the outputs the transactions of the pool
    spend, each under its spender; and no transaction is at once in the pool and an orphan. *)
Theorem pool_no_double_spend tp :
  rtc pool_run NewTxPool tp ->
  (forall h h' d d' op, pool tp !! h = Some d -> pool tp !! h' = Some d' -> op ∈ spent_outpoints (d_Tx d) -> op ∈ spent_outpoints (d_Tx d') -> h = h') /\
  (forall op tx, outpoints tp !! op = Some tx <-> op ∈ spent_outpoints tx /\ exists d, pool tp !! hash_of tx = Some d /\ d_Tx d = tx) /\
  (forall h, is_Some (pool tp !! h) -> isOrphanTxInPool h (orphanTxPool tp) = false).
Proof.
  intros Hrun. pose proof (pool_runs_ok _ Hrun) as [Hhash Hspent Howner Hdis _]. split_and!.
  - intros h h' d d' op Hd Hd' Hop Hop'. pose proof (Hspent _ _ _ Hd Hop) as E. rewrite (Hspent _ _ _ Hd' Hop') in E. injection E as E.
    rewrite <- (Hhash _ _ Hd), <- (Hhash _ _ Hd'). congruence.
  - intros op tx. split; [apply Howner|]. intros [Hop (d & Hd & <-)]. by eapply Hspent.
  - intros h Hh. apply bool_decide_eq_false. rewrite <- eq_None_not_Some. by apply Hdis.
Qed.
End pool.
