(* ===== verification/TxPoolRules.v ===== *)
(** What the memory pool admits, and what removing a transaction takes with it. *)

From S2P Require Import Prelude AddressText TxCommon Opcodes Script Hashes Address Wire SigHash SigCache Engine EngineSafety Standard Amount Forks Poc Block MsgBlock.
From S2P Require Import OrphanPool OrphanPoolSpec Payload Validate ValidateSpec ScriptVal BindingState TxLookup Staking Policy TxPool TxPoolSpec.

Section rules.
Context {HF : HashFunctions} {CL : ChiaLib} {BC : Btcec} {EV : Env} {T : Type} {ST : StateTrie T}.
Implicit Types (pc : PoolChain (T := T)) (tp : TxPool) (tx : Tx).

(** * Admission *)

Lemma prog_lift_Ret {A B} (o : val A) (f : A -> pprog B) tp b tp' :
  (lift_val o ≫= f) tp = (Ret b, tp') -> exists a, o = Ret a /\ f a tp = (Ret b, tp').
Proof. intros (a & t & [Ho ->]%lift_val_Ret & Hf)%prog_bind_Ret. by exists a. Qed.

(** The checks on the inputs that an accepted transaction passed. *)
Lemma check_inputs_known_Ret pc tx st mtp n r tp res tp' :
  check_inputs_known pc tx st mtp n r tp = (Ret res, tp') ->
  exists lock, CheckTransactionInputs (ot_tx tx) (uint64 (pc_height pc + 1)) st = (Ret res.1, res.2) /\
    calcSequenceLock (pc_height pc) (pc_median pc) (ot_tx tx) res.2 = Ret lock /\ SequenceLockActive lock (uint64 (pc_height pc + 1)) mtp = true /\
    ValidateTransactionScripts (ot_tx tx) res.2 StandardVerifyFlags = Ret tt.
Proof.
  unfold check_inputs_known. destruct (CheckTransactionInputs (ot_tx tx) (uint64 (pc_height pc + 1)) st) as [fee st'] eqn:Ei.
  intros (txFee & -> & (u1 & _ & (lock & Hl & ([] & t1 & Ha & Hr)%prog_bind_Ret)%prog_lift_Ret)%prog_lift_Ret)%prog_lift_Ret.
  apply prog_bind_Ret in Hr as ([] & t2 & _ & Hr). apply prog_lift_Ret in Hr as (sigops & _ & Hr). apply prog_bind_Ret in Hr as ([] & t3 & _ & Hr).
  apply prog_bind_Ret in Hr as ([] & t4 & _ & Hr). apply prog_lift_Ret in Hr as ([] & Hv & [= <- <-]). exists lock. cbn [fst snd].
  split_and!; [done|done| |done]. by apply fail_val_Ret, negb_false_iff in Ha.
Qed.


(** * Removal *)

Context (heap : positive -> MsgTx) (rank : Hash -> nat).

(** A transaction cannot be an ancestor of itself: a rank increases from an output to its spender. *)
Definition acyclic (tp : TxPool) : Prop :=
  forall h d op, pool tp !! h = Some d -> op ∈ spent_outpoints (d_Tx d) -> (rank (op_Hash op) < rank h)%nat.

(** No transaction of the pool spends one of the first [n] outputs of [h]. *)
Definition no_spender (tp : TxPool) (h : Hash) (n : nat) : Prop :=
  forall i, 0 <= i < Z.of_nat n -> outpoints tp !! mkOutPoint h i = None.

(** The pool has shrunk, and what is left does not rely on what has gone. *)
Record closed (tp tp' : TxPool) : Prop := {
  cl_ok : txpool_ok heap tp';
  cl_sub : pool tp' ⊆ pool tp;
  cl_gone : forall h d, pool tp !! h = Some d -> pool tp' !! h = None -> no_spender tp' h (length (TxOuts (ot_tx (d_Tx d))));
}.

Lemma outpoints_sub tp tp' op t : txpool_ok heap tp -> txpool_ok heap tp' -> pool tp' ⊆ pool tp -> outpoints tp' !! op = Some t -> outpoints tp !! op = Some t.
Proof.
  intros Hok Hok' Hsub Ht. destruct (tpk_owner _ _ Hok' _ _ Ht) as [Hop (d & Hd & <-)]. apply (tpk_spent _ _ Hok (hash_of (d_Tx d)) d op); [by eapply lookup_weaken|done].
Qed.

Lemma no_spender_sub tp tp' h n : txpool_ok heap tp -> txpool_ok heap tp' -> pool tp' ⊆ pool tp -> no_spender tp h n -> no_spender tp' h n.
Proof.
  intros Hok Hok' Hsub Hn i Hi. apply eq_None_not_Some. intros [t Ht]. apply (outpoints_sub tp) in Ht; [|done|done|done]. rewrite Hn in Ht; done.
Qed.

Lemma acyclic_sub tp tp' : acyclic tp -> pool tp' ⊆ pool tp -> acyclic tp'.
Proof. intros Ha Hs h d op Hd. apply Ha. by eapply lookup_weaken. Qed.

Lemma closed_refl tp : txpool_ok heap tp -> closed tp tp.
Proof. intros Hok. split; [done|done|]. intros h d Hd Hn. congruence. Qed.

Lemma closed_trans tp1 tp2 tp3 : closed tp1 tp2 -> closed tp2 tp3 -> closed tp1 tp3.
Proof.
  intros [Ho1 Hs1 Hg1] [Ho2 Hs2 Hg2]. split; [done|by etransitivity|]. intros h d Hd Hn. destruct (pool tp2 !! h) as [d2|] eqn:E.
  - assert (d2 = d) as -> by (pose proof (lookup_weaken _ _ _ _ E Hs1); congruence). by apply Hg2.
  - apply (no_spender_sub tp2); [done|done|done|]. by apply Hg1.
Qed.

(** The transactions of the pool that can rely on [h]. *)
Definition above (h : Hash) (tp : TxPool) : nat := size (filter (fun '(h', _) => (rank h < rank h')%nat) (pool tp)).

Lemma above_sub h tp tp' : pool tp' ⊆ pool tp -> (above h tp' <= above h tp)%nat.
Proof. intros Hs. apply map_subseteq_size. by apply map_filter_subseteq_mono. Qed.

Lemma above_spender tp h t : (rank h < rank (hash_of t))%nat -> is_Some (pool tp !! hash_of t) -> (above (hash_of t) tp < above h tp)%nat.
Proof.
  intros Hr [d Hd]. unfold above. apply map_subset_size. split.
  - apply map_filter_subseteq_ext. intros h' d' _ ?. lia.
  - intros Hsub. assert (filter (fun '(h', _) => (rank h < rank h')%nat) (pool tp) !! hash_of t = Some d) as Hf by (by apply map_lookup_filter_Some).
    eapply lookup_weaken in Hf; [|exact Hsub]. apply map_lookup_filter_Some in Hf as [_ ?]. lia.
Qed.

(** A spender, as the pool has it. *)
Definition pooled (tp : TxPool) (t : Tx) : Prop := exists d, pool tp !! hash_of t = Some d /\ d_Tx d = t.

Lemma remove_redeemers_closed (P : Prop) (rec : Tx -> pprog unit) h (indices : list Z) tp0 tp o tp' :
  (forall t tp o tp', txpool_ok heap tp -> pool tp ⊆ pool tp0 -> pooled tp t -> (rank h < rank (hash_of t))%nat -> rec t tp = (o, tp') ->
     (o = Panic /\ P) \/ o = Ret tt /\ closed tp tp' /\ pool tp' !! hash_of t = None) ->
  txpool_ok heap tp -> pool tp ⊆ pool tp0 -> acyclic tp -> remove_redeemers rec h indices tp = (o, tp') ->
  (o = Panic /\ P) \/ o = Ret tt /\ closed tp tp' /\ forall i, i ∈ indices -> outpoints tp' !! mkOutPoint h i = None.
Proof.
  intros Hrec. revert tp. induction indices as [|i indices IH]; intros tp Hok Hsub Hac; cbn [remove_redeemers].
  - intros [= <- <-]. right. split_and!; [done|by apply closed_refl|]. by intros i Hi%not_elem_of_nil.
  - rewrite bind_gets. cbn [id]. unfold mbind, prog_bind.
    destruct ((match outpoints tp !! mkOutPoint h i with Some r => rec r | None => mret tt : pprog unit end) tp) as [o1 t1] eqn:E1.
    assert ((o1 = Panic /\ P) \/ o1 = Ret tt /\ closed tp t1 /\ outpoints t1 !! mkOutPoint h i = None) as [[-> HP] | (-> & Hc1 & Hn1)].
    { destruct (outpoints tp !! mkOutPoint h i) as [r|] eqn:Hr; [|injection E1 as <- <-; right; split_and!; [done|by apply closed_refl|done]].
      destruct (tpk_owner _ _ Hok _ _ Hr) as [Hop Hd]. assert (rank h < rank (hash_of r))%nat as Hrank by (destruct Hd as (d & Hd & E); rewrite <- E in Hop; apply (Hac _ _ _ Hd Hop)).
      destruct (Hrec r tp o1 t1 Hok Hsub Hd Hrank E1) as [[-> HP] | (-> & Hc & Hn)]; [by left|right]. split_and!; [done|done|]. apply eq_None_not_Some. intros [r' Hr'].
      pose proof (outpoints_sub _ _ _ _ Hok (cl_ok _ _ Hc) (cl_sub _ _ Hc) Hr') as E. rewrite Hr in E. injection E as <-.
      destruct (tpk_owner _ _ (cl_ok _ _ Hc) _ _ Hr') as [_ (d' & Hd' & _)]. congruence. }
    { intros [= <- <-]. by left. }
    intros Hr. destruct (IH t1 (cl_ok _ _ Hc1)) as [[-> HP] | (-> & Hc2 & Hn2)]; [etransitivity; [apply Hc1|done]|by eapply acyclic_sub; [|apply Hc1]|done|by left|].
    right. split_and!; [done|by eapply closed_trans|]. intros j [->|Hj]%elem_of_cons; [|by apply Hn2].
    apply eq_None_not_Some. intros [r' Hr']. apply (outpoints_sub t1) in Hr'; [congruence|apply Hc1|apply Hc2|apply Hc2].
Qed.

Lemma indices_bound tx n i : n = length (TxOuts (ot_tx tx)) -> 0 <= i < Z.of_nat n -> i ∈ output_indices tx.
Proof.
  intros -> Hi. unfold output_indices. apply list_elem_of_fmap. exists (Z.to_nat i). split; [lia|]. apply elem_of_seq. lia.
Qed.

(** The pool has lost [tx]; nothing left in it relies on the outputs of [tx] or on those of what
    else has gone.  The pool may hold another transaction under the hash of [tx], since a hash
    does not determine the number of outputs: the outputs meant are those of [tx]. *)
Record closed_from (tx : Tx) (tp tp' : TxPool) : Prop := {
  cf_ok : txpool_ok heap tp';
  cf_sub : pool tp' ⊆ pool tp;
  cf_tx : pool tp' !! hash_of tx = None;
  cf_redeemers : no_spender tp' (hash_of tx) (length (TxOuts (ot_tx tx)));
  cf_gone : forall h d, h <> hash_of tx -> pool tp !! h = Some d -> pool tp' !! h = None -> no_spender tp' h (length (TxOuts (ot_tx (d_Tx d))));
}.

Lemma closed_from_pooled t tp tp' : pooled tp t -> closed_from t tp tp' -> closed tp tp'.
Proof.
  intros (d & Hd & E) [Ho Hs Ht Hr Hg]. split; [done|done|]. intros h d' Hd' Hn. destruct (decide (h = hash_of t)) as [->|Hne]; [|by apply Hg].
  rewrite Hd in Hd'. injection Hd' as <-. by rewrite E.
Qed.

Lemma removed_closed tx tp t1 tp' :
  closed tp t1 -> no_spender t1 (hash_of tx) (length (TxOuts (ot_tx tx))) -> removed tx t1 tp' -> closed_from tx tp tp'.
Proof.
  intros Hc Hns Hrm. pose proof (removed_ok heap _ _ _ (cl_ok _ _ Hc) Hrm) as Hok2. destruct Hrm as (Hp2 & _ & _).
  assert (pool tp' ⊆ pool t1) as Hsub by (rewrite Hp2; apply delete_subseteq). split; [done| |by rewrite Hp2, lookup_delete_eq| |].
  - etransitivity; [exact Hsub|apply Hc].
  - eapply no_spender_sub; [apply Hc|done|done|done].
  - intros h d Hne Hd Hn. eapply no_spender_sub; [apply Hc|done|done|]. apply (cl_gone _ _ Hc); [done|].
    rewrite Hp2 in Hn. apply lookup_delete_None in Hn as [E|Hn]; [congruence|done].
Qed.

Lemma removeTransaction_closed pc fuel tx tp o tp' :
  txpool_ok heap tp -> acyclic tp -> (above (hash_of tx) tp < fuel)%nat -> removeTransaction pc fuel tx true tp = (o, tp') ->
  (o = Panic /\ pc_AddrIndex pc = true) \/ o = Ret tt /\ closed_from tx tp tp'.
Proof.
  revert tx tp o tp'. induction fuel as [|fuel IH]; intros tx tp o tp' Hok Hac Hf; [lia|]. cbn [removeTransaction].
  unfold mbind, prog_bind. destruct (remove_redeemers _ (hash_of tx) (output_indices tx) tp) as [o1 t1] eqn:E1.
  destruct (remove_redeemers_closed (pc_AddrIndex pc = true) (fun r => removeTransaction pc fuel r true) (hash_of tx) (output_indices tx) tp tp o1 t1) as [[-> HP] | (-> & Hc1 & Hn1)]; [|done|done|done|done|intros [= <- <-]; by left|].
  { intros t s o' s' Hok' Hsub Ht Hrank Hr. destruct (IH t s o' s' Hok') as [[-> HP] | (-> & Hc)]; [by eapply acyclic_sub| |done|by left|right; eauto using closed_from_pooled, cf_tx].
    destruct Ht as (d & Hd & _). assert (above (hash_of t) s < above (hash_of tx) s)%nat by (apply above_spender; [done|by eexists]).
    pose proof (above_sub (hash_of tx) _ _ Hsub). lia. }
  intros [[-> Hrm]|[HP _]]%remove_entry_cases; [right|by left]. split; [done|]. apply (removed_closed _ _ t1); [done| |done].
  intros i Hi. eapply Hn1, indices_bound; done.
Qed.

(** C22: Removing a transaction with its redeemers ends and takes every transaction that relies on
    it: in a consistent pool (every pool the operations lead to is) whose transactions do not
    spend one another in a circle (which takes a transaction whose hash depends on itself), the
    recursion never runs out, only the address index can make it crash, and otherwise the
    transaction has left the pool, no transaction left in the pool spends an output of it, and
    none spends an output of another transaction that was removed.  The outputs of the
    transaction are those of the value that is passed: ids do not cover the number of outputs,
    and the pool could hold another transaction with more of them under the same id. *)
Theorem removal_closes pc tx tp o tp' :
  txpool_ok heap tp -> acyclic tp -> remove_transaction pc tx true tp = (o, tp') ->
  (o = Panic /\ pc_AddrIndex pc = true) \/
  o = Ret tt /\ txpool_ok heap tp' /\ pool tp' ⊆ pool tp /\ pool tp' !! hash_of tx = None /\
  forall h' d', pool tp' !! h' = Some d' ->
    (forall i, 0 <= i < Z.of_nat (length (TxOuts (ot_tx tx))) -> mkOutPoint (hash_of tx) i ∉ spent_outpoints (d_Tx d')) /\
    (forall h d i, h <> hash_of tx -> pool tp !! h = Some d -> pool tp' !! h = None ->
       0 <= i < Z.of_nat (length (TxOuts (ot_tx (d_Tx d)))) -> mkOutPoint h i ∉ spent_outpoints (d_Tx d')).
Proof.
  intros Hok Hac Hr. destruct (removeTransaction_closed pc (S (size (pool tp))) tx tp o tp' Hok Hac) as [HP|(-> & [Ho Hs Hn Hx Hg])]; [|done|by left|right].
  - unfold above. assert (size (filter (fun '(h', _) => (rank (hash_of tx) < rank h')%nat) (pool tp)) <= size (pool tp))%nat by (apply map_subseteq_size, map_filter_subseteq). lia.
  - split_and!; [done|done|done|done|]. intros h' d' Hd'. split.
    + intros i Hi Hop. pose proof (tpk_spent _ _ Ho _ _ _ Hd' Hop) as E. by rewrite (Hx i Hi) in E.
    + intros h d i Hne Hd Hgone Hi Hop. pose proof (tpk_spent _ _ Ho _ _ _ Hd' Hop) as E. by rewrite (Hg h d Hne Hd Hgone i Hi) in E.
Qed.
End rules.
