(* ===== verification/Connect.v ===== *)
(** Connecting a block: [checkDupTx] and [checkConnectBlock] of blockchain/validate.go, the
    composition of the checks of Validate.v, Coinbase.v, BindingState.v and ScriptVal.v. *)

From S2P Require Import Prelude Chain AddressText TxCommon Script Hashes Wire SigHash SigCache Engine EngineSafety Standard Amount Forks Rewards Poc Block MsgBlock.
From S2P Require Import Payload Validate ValidateSpec ScriptVal BindingState Coinbase CoinbaseSpec.

(** * Definitions *)

Definition check_dup_entry (txD : TxData) : val unit :=
  match td_Err txD with
  | Some ErrTxShaMissing => Ret tt
  | Some e => Err e
  | None => check (negb (isTransactionSpent txD)) ErrOverwriteTx
  end.

(** [txResults] is what [fetchTxStore] returns; the order of the entries is not specified. *)
Definition checkDupTx (txResults : val TxStore) : val unit :=
  txStore ← txResults;
  check_all check_dup_entry (snd <$> map_to_list txStore).

(** The sequence locks of the transactions of a block. *)
Definition check_lock (nodeHeight : Z) (median : Z -> Z) (medianTime : Z) (txStore : TxStore) (tx : MsgTx) : val unit :=
  sequenceLock ← calcSequenceLock nodeHeight median tx txStore;
  check (negb (SequenceLockActive sequenceLock nodeHeight medianTime)) ErrSequenceNotSatisfied.

Section connect.
Context {HF : HashFunctions} {CL : ChiaLib} {T : Type} {ST : StateTrie T} {BC : Btcec} {EV : Env}.

(** The arguments the other parts of the node give: the stores of [fetchTxStore] and
    [fetchInputTransactions], the binding state, the ranks, the median time of the best block
    and those of the ancestors, the answer of [LatestCheckpoint], and [IsFastImport] of the
    block, which the tool that imports old blocks sets. *)
Record ConnectContext := mkConnectContext {
  cc_genesis : bool;
  cc_dup : val TxStore;
  cc_inputs : val TxStore;
  cc_state : val T;
  cc_ranks : val (list Rank);
  cc_medianTime : val Z;
  cc_median : Z -> Z;
  cc_checkpoint : option Checkpoint;
  cc_fastImport : bool;
}.

Definition runScripts (cc : ConnectContext) (nodeHeight : Z) : bool :=
  negb (match cc_checkpoint cc with Some checkpoint => nodeHeight <=? cp_Height checkpoint | None => false end || cc_fastImport cc).

Definition checkConnectBlock (fuel : nat) (cc : ConnectContext) (header : BlockHeader) (txs : list MsgTx) (nodeHeight halving : Z) (noPoC : bool) : val unit :=
  check (cc_genesis cc) ErrConnectGenesis;;
  checkDupTx (cc_dup cc);;
  txInputStore ← cc_inputs cc;
  check_sigops 0 txs;;
  let '(fees, txInputStore) := sum_fees nodeHeight true ZeroAmount txs txInputStore in
  totalFees ← fees;
  (if negb noPoC then
     coinbaseTx ← index txs 0;
     validateCoinbase fuel (cc_state cc) (cc_ranks cc) header coinbaseTx nodeHeight halving txInputStore totalFees
   else Ret tt);;
  medianTime ← cc_medianTime cc;
  check_all (check_lock nodeHeight (cc_median cc) medianTime txInputStore) txs;;
  bst ← cc_state cc;
  (checkParsePkScriptNew fuel (bh_Height header) (fun _ => false) txInputStore txs bst).1;;
  if runScripts cc nodeHeight then checkBlockScripts txs txInputStore 0 else Ret tt.

(** * Theorems *)

Lemma connect_Ret fuel cc header coinbase txs height halving :
  checkConnectBlock fuel cc header (coinbase :: txs) height halving false = Ret tt ->
  exists store store' fees mtp, cc_inputs cc = Ret store /\
    sum_fees height true ZeroAmount (coinbase :: txs) store = (Ret fees, store') /\
    validateCoinbase fuel (cc_state cc) (cc_ranks cc) header coinbase height halving store' fees = Ret tt /\
    cc_medianTime cc = Ret mtp /\
    Forall (fun tx => check_lock height (cc_median cc) mtp store' tx = Ret tt) (coinbase :: txs) /\
    (runScripts cc height = true -> Forall (fun it => validate_item store' 0 it = Ret tt) (block_items txs)).
Proof.
  unfold checkConnectBlock. intros Hr. apply check_bind in Hr as [_ Hr].
  apply bind_Ret in Hr as (_ & _ & (store & Hst & (_ & _ & Hr)%bind_Ret)%bind_Ret).
  destruct (sum_fees height true ZeroAmount (coinbase :: txs) store) as [fees store'] eqn:Hf.
  apply bind_Ret in Hr as (f & -> & (u & Hv & (mtp & Hm & (u2 & Hl & (bst & _ & (u3 & _ & Hs)%bind_Ret)%bind_Ret)%bind_Ret)%bind_Ret)%bind_Ret).
  cbn [negb] in Hv. apply bind_Ret in Hv as (c & [= <-] & Hv). destruct u, u2.
  exists store, store', f, mtp. split_and!; [done|done|done|done|by apply check_all_Ret|].
  intros Hrun. rewrite Hrun in Hs. cbn in Hs. by apply check_all_Ret.
Qed.

End connect.
