(* ===== verification/ValidateSample.v ===== *)
(** Concrete blocks, stores and states that the theorems on validation apply to. *)

From S2P Require Import Prelude AddressText TxCommon Opcodes Script Hashes Wire Merkle Standard Amount Forks Rewards TrieEncoding Trie TrieSpec.
From S2P Require Import Keys Poc PocSpec Block MsgBlock BlockSpec Genesis Payload Validate ValidateSpec BindingState TrieState BindingSpec Coinbase CoinbaseSpec.
From S2P Require Import SigHash SigCache Engine EngineSafety Scenario ScriptVal Connect.

#[local] Existing Instance Sha.concrete.

(** A library that accepts keys, signatures and proofs by their length, with a high quality. *)
Definition generous_chia : ChiaLib.
Proof.
  refine {| chia_Hash256 := Sha.sha256; chia_Hash256_length := Sha.length_sha256;
    g1_valid b := (len b =? 48); g2_valid b := (len b =? 96);
    ValidateProof _ _ _ _ := Some [1]; aug_verify _ _ _ := Some true; quality_of _ _ := 2 ^ 64 |}.
  - intros. apply Sha.digest_ok.
  - intros b H. apply Z.eqb_eq in H. unfold len in H. lia.
  - intros b H. apply Z.eqb_eq in H. unfold len in H. lia.
Defined.
#[local] Existing Instance generous_chia.
#[local] Instance accepting_ecdsa : Ecdsa := { ecdsa_Verify _ _ _ := true }.
#[local] Instance no_protobuf : Protobuf := {
  marshal_base _ := Some []; unmarshal_base _ := None; marshal_tx _ := Some []; unmarshal_tx _ := None;
  marshal_block _ := Some []; unmarshal_block _ := None }.

(** * Transactions *)

(** A transaction of two outputs, spent at height 5 by one that leaves a fee of 40. *)
Definition origin_hash : Hash := replicate 32 1.
Definition spend_of (h : Hash) (i : Z) : TxIn := mkTxIn (mkOutPoint h i) [[81]; [81]] 0.
Definition origin_tx : MsgTx := mkMsgTx 1 [spend_of (replicate 32 2) 0] [mkTxOut 100 [81]; mkTxOut 7 [81]] 0 [].
Definition origin_store : TxStore := {[ origin_hash := mkTxData (Some origin_tx) origin_hash 4 [false; false] None ]}.
Definition paying_tx : MsgTx := mkMsgTx 1 [spend_of origin_hash 0] [mkTxOut 60 [81]] 0 [].
Definition coinbase_of (height num : Z) (outs : list TxOut) : MsgTx :=
  mkMsgTx 1 [mkTxIn (mkOutPoint (replicate 32 0) (2 ^ 32 - 1)) [] 0] outs 0 (standardCoinbasePayload height num).

Lemma block_conserves_value_witness :
  exists fees store', sum_fees 5 true ZeroAmount [coinbase_of 5 0 []; paying_tx] origin_store = (Ret fees, store') /\
    100 = maxwells fees + 60.
Proof.
  destruct (sum_fees 5 true ZeroAmount [coinbase_of 5 0 []; paying_tx] origin_store) as [o store'] eqn:E.
  assert (o = Ret (amount 40)) as -> by (change o with (o, store').1; rewrite <- E; vm_compute; reflexivity).
  exists (amount 40), store'. split; [reflexivity|].
  destruct (block_conserves_value 5 _ _ _ _ ltac:(lia) E) as (_ & _ & _ & H & _). exact H.
Defined.

Lemma transaction_sane_witness : CheckTransactionSanity paying_tx <> Panic /\ NoDup [mkOutPoint origin_hash 0].
Proof.
  destruct (transaction_sane paying_tx) as [H1 H2].
  - intros o Ho. apply list_elem_of_singleton in Ho. subst o. cbn. lia.
  - split; [exact H1|]. apply H2. vm_compute. reflexivity.
Defined.

(** The median times of a chain. *)
Definition sample_median (h : Z) : Z := 1000 + h mod 1000.

Lemma sample_median_range h : 0 <= sample_median h < 2 ^ 62.
Proof. unfold sample_median. pose proof (Z.mod_pos_bound h 1000 ltac:(lia)). lia. Qed.

Lemma sequence_lock_spec_witness :
  exists lock, calcSequenceLock 8 sample_median paying_tx origin_store = Ret lock /\ SequenceLockActive lock 9 1005 = true.
Proof.
  destruct (sequence_lock_spec 8 sample_median paying_tx origin_store 9 1005) as (lock & Hl & Ha); [reflexivity|lia|lia|lia|exact sample_median_range| |].
  - apply Forall_singleton. split; [vm_compute; split; congruence|by eexists].
  - exists lock. split; [exact Hl|]. apply Ha. apply Forall_singleton. vm_compute. split; congruence.
Defined.

(** * Payloads *)

Definition sample_payload : TransactionPayload := mkTransactionPayload BindPoolCoinbase (Payload.mkParams (replicate 48 3) (replicate 96 4) (replicate 32 5) 1).

Lemma sample_payload_ok : bytes_ok (EncodePayload sample_payload).
Proof. solve_bytes. Qed.

Lemma payload_canonical_witness : DecodePayload (EncodePayload sample_payload) = Some sample_payload.
Proof.
  apply (payload_canonical (EncodePayload sample_payload) sample_payload sample_payload_ok).
  split; [reflexivity|]. split; [reflexivity|]. split; [reflexivity|]. split; [reflexivity|]. split; [cbn; lia|reflexivity].
Defined.

(** * The genesis block *)

Lemma genesis_sane : checkBlockSanity (2 * 10 ^ 18) genesisBlock (bh_ChainID genesisHeader) 1 false = Ret tt.
Proof. vm_compute. reflexivity. Qed.


(** * Bindings *)

#[local] Instance sample_state : StateTrie Trie := trie_state (fun _ => None) 200 (fun _ => replicate 32 0).

Definition warm_height : Z := 1398801.
Definition sample_target : bytes := replicate 20 9 ++ [0; 32].
Definition binding_out : TxOut := mkTxOut 700 (program_script (replicate 32 6) (Some sample_target)).
Definition binding_tx : MsgTx := mkMsgTx 1 [spend_of origin_hash 0] [binding_out; mkTxOut 5 (program_script (replicate 32 6) None)] 0 (EncodePayload sample_payload).
Definition binding_txs : list MsgTx := [coinbase_of warm_height 0 [mkTxOut 5 (program_script (replicate 32 6) None)]; binding_tx].
Definition sample_locs : list TxLoc := [mkTxLoc 100 50; mkTxLoc 150 70].
Definition known (h : Hash) : option BlockPlace := if bool_decide (h = origin_hash) then Some (mkBlockPlace 4 (mkTxLoc 10 20)) else None.
Definition empty_trie : Trie := mkTrie NilNode 0.

Lemma empty_represents : st_map empty_trie (∅ : gmap bytes bytes).
Proof. exact (represents_empty (fun _ => None) 0). Qed.

Lemma binding_txs_ok : Forall tx_ok binding_txs.
Proof.
  apply Forall_cons_2; [|apply Forall_singleton]; (split; [|solve_bytes]).
  - apply Forall_singleton. unfold out_ok. solve_bytes.
  - apply Forall_cons_2; [|apply Forall_singleton]; unfold out_ok; solve_bytes.
Qed.

Lemma origin_sound : sound_store origin_store.
Proof.
  intros h td tx Hh Htx. unfold origin_store in Hh. apply lookup_singleton_Some in Hh as [<- <-]. injection Htx as <-.
  repeat constructor; intros Hs; exfalso; vm_compute in Hs; by destruct Hs.
Qed.

(** The run of the index over the block that binds a target and sets the address of a pool key. *)
Lemma attach_runs : exists data t', indexBlockAddrs known warm_height binding_txs (Ret sample_locs) origin_store empty_trie = (Ret data, t').
Proof.
  destruct (indexBlockAddrs _ _ _ _ _ _) as [o t'] eqn:E.
  assert (match o with Ret _ => True | _ => False end) as H by (change o with (o, t').1; rewrite <- E; vm_compute; exact I).
  destruct o as [data|e|]; [|done|done]. by exists data, t'.
Qed.

Lemma binding_total_kept_witness : exists data t' m',
  indexBlockAddrs known warm_height binding_txs (Ret sample_locs) origin_store empty_trie = (Ret data, t') /\ st_map t' m' /\ total_recorded m'.
Proof.
  destruct attach_runs as (data & t' & Hr).
  destruct (binding_total_kept known warm_height binding_txs sample_locs origin_store empty_trie ∅ data t'
    origin_sound binding_txs_ok empty_represents eq_refl Hr) as (m' & Hm & Ht & _).
  exists data, t', m'. split; [exact Hr|]. split; [exact Hm|exact Ht].
Defined.

Definition side_header : BlockHeader :=
  mkBlockHeader (replicate 32 0) 2 warm_height 0 (replicate 32 0) (replicate 32 0) (replicate 32 0) (replicate 32 0) 1 (replicate 32 0)
    (bh_PubKey genesisHeader) (bh_Proof genesisHeader) (bh_Signature genesisHeader) [] (replicate 32 0).

Lemma connect_runs : exists t', connectState side_header binding_txs (Ret sample_locs) empty_trie = (Ret tt, t').
Proof.
  destruct (connectState _ _ _ _) as [o t'] eqn:E.
  assert (o = Ret tt) as -> by (change o with (o, t').1; rewrite <- E; vm_compute; reflexivity). by exists t'.
Qed.

Lemma connect_matches_attach_witness : exists data t1 t2 m,
  connectState side_header binding_txs (Ret sample_locs) empty_trie = (Ret tt, t1) /\
  indexBlockAddrs known warm_height binding_txs (Ret sample_locs) origin_store empty_trie = (Ret data, t2) /\ st_map t1 m /\ st_map t2 m.
Proof.
  destruct attach_runs as (data & t2 & Hi). destruct connect_runs as (t1 & Hc).
  destruct (connect_matches_attach known side_header binding_txs sample_locs origin_store empty_trie empty_trie ∅ tt data t1 t2
    origin_sound binding_txs_ok ltac:(repeat constructor; discriminate) empty_represents empty_represents eq_refl Hc Hi) as (m & H1 & H2 & _).
  exists data, t1, t2, m. split; [exact Hc|]. split; [exact Hi|]. split; [exact H1|exact H2].
Defined.

Lemma pool_nonce_increases_witness : exists t' m',
  CheckNonceAndSetPoolPkCoinbase (EncodePayload sample_payload) empty_trie = (Ret tt, t') /\ st_map t' m'.
Proof.
  destruct (CheckNonceAndSetPoolPkCoinbase (EncodePayload sample_payload) empty_trie) as [o t'] eqn:E.
  assert (o = Ret tt) as -> by (change o with (o, t').1; rewrite <- E; vm_compute; reflexivity).
  destruct (pool_nonce_increases (EncodePayload sample_payload) empty_trie ∅ tt t' [] sample_payload_ok
    ltac:(intros k v H; rewrite lookup_empty in H; discriminate) empty_represents E) as (m' & Hm & _).
  exists t', m'. split; [reflexivity|exact Hm].
Defined.

(** The block that takes the binding back. *)
Definition bound_store : TxStore := {[ origin_hash := mkTxData (Some (mkMsgTx 1 [] [binding_out] 0 [])) origin_hash warm_height [false] None ]}.
Definition known_warm (h : Hash) : option BlockPlace := if bool_decide (h = origin_hash) then Some (mkBlockPlace warm_height (mkTxLoc 10 20)) else None.

Lemma withdrawal_panics_witness :
  exists t', SyncAttachBlock (Ret (replicate 32 0, warm_height - 1)) (fun _ => Ret tt) known_warm side_header [paying_tx] (Ret sample_locs) bound_store empty_trie = (Panic, t').
Proof.
  apply (withdrawal_panics _ _ known_warm side_header [paying_tx] (Ret sample_locs) bound_store empty_trie paying_tx (spend_of origin_hash 0)).
  - reflexivity.
  - cbn. unfold warm_height. lia.
  - apply list_elem_of_singleton. reflexivity.
  - reflexivity.
  - apply list_elem_of_singleton. reflexivity.
  - do 4 eexists. split; [apply lookup_singleton_eq|]. split; [reflexivity|]. split; [reflexivity|]. split; [by eexists|].
    split; [cbn; lia|]. split; reflexivity.
Defined.

(** * Coinbases *)

Definition early_header : BlockHeader :=
  mkBlockHeader (replicate 32 0) 1 10 0 (replicate 32 0) (replicate 32 0) (replicate 32 0) (replicate 32 0) 1 (replicate 32 0)
    (bh_PubKey genesisHeader) (bh_Proof genesisHeader) (bh_Signature genesisHeader) [] (replicate 32 0).
Definition early_rank : Rank := mkRank (3000 * MaxwellPerMass) (replicate 32 8) (mkUint128 1).
Definition early_coinbase : MsgTx :=
  coinbase_of 10 1 [mkTxOut 83200000000 (program_script (replicate 32 8) None); mkTxOut 19200000040 [81]].

(** A miner without a binding, one staking node, and the fee of 40. *)
Lemma block_mints_subsidy_witness :
  exists b, 83200000000 + 19200000040 + 60 <= 100 + minted_by 10 b true.
Proof.
  destruct (sum_fees 10 true ZeroAmount [early_coinbase; paying_tx] origin_store) as [o store'] eqn:E.
  assert (o = Ret (amount 40)) as -> by (change o with (o, store').1; rewrite <- E; vm_compute; reflexivity).
  assert (store' = (sum_fees 10 true ZeroAmount [early_coinbase; paying_tx] origin_store).2) as Hs by (by rewrite E).
  destruct (block_mints_subsidy 0 (Err OfTrie) (Ret [early_rank]) early_header early_coinbase [paying_tx] 10 origin_store (amount 40) store'
    eq_refl ltac:(lia) E) as (ranks & b & Hr & Hle & _).
  - rewrite Hs. vm_compute. reflexivity.
  - injection Hr as <-. exists b. exact Hle.
Defined.

Lemma short_coinbase_panics_witness :
  check_rewards 10 (amount 1000) (mkUint128 (3000 * MaxwellPerMass)) 0 [early_rank] [] = Panic.
Proof.
  apply (short_coinbase_panics 10 (amount 1000) (mkUint128 (3000 * MaxwellPerMass)) 0 [early_rank] [] early_rank (amount 1000)).
  - constructor.
  - reflexivity.
  - vm_compute. reflexivity.
  - cbn. discriminate.
Defined.

(** * A whole block *)

#[local] Existing Instances Toy.btcec Toy.env.

(** The program of Scenario.v, worth 5000, spent with the toy signature. *)
Definition signed_spend (w : list bytes) : MsgTx :=
  mkMsgTx 1 [mkTxIn (mkOutPoint origin_hash 0) w 0] [mkTxOut 4000 (program_script (replicate 32 6) None)] 0 [].
Definition signed_tx : MsgTx :=
  let r := match calcWitnessSignatureHash (parseScript redeem).1 (NewTxSigHashes (signed_spend [])) SigHashAll (signed_spend []) 0 5000 with
           | Ret h => nth 0 h 0 mod 128 | _ => 0 end in
  signed_spend [OP_DATA_9 :: signature r; redeem].
Definition program_store : TxStore :=
  {[ origin_hash := mkTxData (Some (mkMsgTx 1 [] [mkTxOut 5000 (program_script program None)] 0 [])) origin_hash 4 [false] None ]}.
Definition block_coinbase : MsgTx :=
  coinbase_of 10 1 [mkTxOut 83200000000 (program_script (replicate 32 8) None); mkTxOut 19200001000 (program_script (replicate 32 6) None)].
Definition block_context : ConnectContext :=
  mkConnectContext false (Ret ∅) (Ret program_store) (Ret empty_trie) (Ret [early_rank]) (Ret 1000) (fun h => 100 + h) (Some (Chain.mkCheckpoint 5 (replicate 32 0))) false.

Lemma block_connects : checkConnectBlock 10 block_context early_header [block_coinbase; signed_tx] 10 SubsidyHalvingInterval false = Ret tt.
Proof. vm_compute. reflexivity. Qed.


(** Three inputs, the second of which is not valid, on one processor. *)
Lemma validator_decides_witness :
  let verdict (n : Z) : val unit := if n =? 2 then Err ErrScriptValidation else Ret tt in
  exists v, nsteps (validate_step verdict) 5 (newTxValidator 1 [1; 2; 3]) v /\ v_result v = Some (Err ErrScriptValidation) /\
    exists it, it ∈ [1; 2; 3] /\ verdict it = Err ErrScriptValidation.
Proof.
  intros verdict. assert (nsteps (validate_step verdict) 5 (newTxValidator 1 [1; 2; 3]) (mkValidator [] [3] 1 (Some (Err ErrScriptValidation)))) as H.
  { apply (nsteps_l _ _ _ (mkValidator [2; 3] [1] 2 None)); [apply step_send|].
    apply (nsteps_l _ _ _ (mkValidator [3] [2; 1] 1 None)); [apply step_send|].
    apply (nsteps_l _ _ _ (mkValidator [3] [2] 2 None)); [by apply (step_answer verdict 1 [3] [2] [])|].
    apply (nsteps_l _ _ _ (mkValidator [] [3; 2] 1 None)); [apply step_send|].
    apply (nsteps_l _ _ _ (mkValidator [] [3] 1 (Some (Err ErrScriptValidation)))); [by apply (step_error verdict 2 [] [3] [])|]. constructor. }
  exact (ex_intro _ _ (conj H (conj eq_refl (proj1 (proj2 (proj2 (proj2 (validator_decides verdict 1 [1; 2; 3] 5 _ H)))) _ eq_refl)))).
Defined.
