(* ===== verification/LookupSample.v ===== *)
(** A fork of two blocks, for the theorems on the transaction store. *)

From S2P Require Import Prelude AddressText TxCommon Hashes Wire Poc PocSpec Block MsgBlock Genesis BlockTree Validate ValidateSpec TxLookup TxLookupSpec.

#[local] Existing Instances Sha.concrete sample_chia.

(** Each block spends one of the two outputs of a transaction of the common chain. *)
Definition forked_hash : Hash := replicate 32 1.
Definition forked_spend (h : Hash) (i : Z) : TxIn := mkTxIn (mkOutPoint h i) [[81]; [81]] 0.
Definition forked_tx : MsgTx := mkMsgTx 1 [forked_spend (replicate 32 2) 0] [mkTxOut 100 [81]; mkTxOut 7 [81]] 0 [].
Definition spends_output (i : Z) : MsgTx := mkMsgTx 1 [forked_spend forked_hash i] [mkTxOut 5 [81]] 0 [].
Definition fork_coinbase (tag : Z) : MsgTx := mkMsgTx 1 [mkTxIn (mkOutPoint (replicate 32 0) (2 ^ 32 - 1)) [] 0] [mkTxOut 5 [81]] 0 [tag].
Definition fork_header (height : Z) : BlockHeader :=
  mkBlockHeader (replicate 32 0) 1 height 0 (replicate 32 0) (replicate 32 0) (replicate 32 0) (replicate 32 0) 1 (replicate 32 0)
    (bh_PubKey genesisHeader) (bh_Proof genesisHeader) (bh_Signature genesisHeader) [] (replicate 32 0).
Definition fork_block (i : Z) : MsgBlock := mkMsgBlock (fork_header 5) (mkProposalArea [] []) [fork_coinbase i; spends_output i].

Definition common_ledger : gmap Hash Coin := {[ forked_hash := mkCoin forked_tx 4 [false; false] ]}.
Definition main_ledger : gmap Hash Coin := apply_block common_ledger (fork_block 0).

Definition fork_node (main : bool) (parent : option ptr) (tag height : Z) : BlockNode := mkNode main parent [tag] 0 0 (fork_header height).
Definition fork_tree : BlockTree :=
  mkTree {[ 1%positive := fork_node true None 0 4; 2%positive := fork_node true (Some 1%positive) 1 5; 3%positive := fork_node false (Some 1%positive) 2 5 ]}
    (Some 1%positive) (Some 2%positive) {[ [0] := 1%positive; [1] := 2%positive; [2] := 3%positive ]} {[ [0] := [2%positive; 3%positive] ]}.

Definition fork_lookup : Lookup :=
  mkLookup (fun b hs => (fun h => reply h ((if b then main_ledger else has_unspent main_ledger) !! h)) <$> hs) (fun _ _ => Ret None) fork_tree
    (fun _ => Ret (fork_block 0)) (fun _ => Ret (fork_block 1)).

Lemma fork_tx_valid L i : L !! forked_hash = Some (mkCoin forked_tx 4 [false; false]) -> i = 0 \/ i = 1 ->
  L !! tx_sha (spends_output i) = None -> tx_valid L (spends_output i).
Proof.
  intros HL Hi HN. assert (spent_by (spends_output i) = [mkOutPoint forked_hash i]) as E by (destruct Hi as [-> | ->]; reflexivity). split; rewrite ?E.
  - intros c Hc. congruence.
  - apply NoDup_singleton.
  - apply Forall_singleton. destruct Hi as [-> | ->]; vm_compute; discriminate.
  - apply Forall_singleton. exists (mkCoin forked_tx 4 [false; false]). cbn [op_Hash op_Index]. split; [done|]. destruct Hi as [-> | ->]; unfold len; cbn [c_spent length]; lia.
  - apply Forall_singleton. cbn [op_Hash op_Index]. intros c. rewrite HL. intros [= <-]. by destruct Hi as [-> | ->].
Qed.

Lemma fork_block_ok i : i = 0 \/ i = 1 -> block_ok common_ledger (fork_block i).
Proof.
  intros Hi. split; [|split; [|split; [|done]]].
  - apply (bool_decide_unpack _). destruct Hi as [-> | ->]; vm_compute; exact I.
  - split; [|constructor|constructor|constructor|constructor]. intros c Hc. destruct Hi as [-> | ->]; vm_compute in Hc; discriminate.
  - destruct Hi as [-> | ->]; apply fork_tx_valid; (vm_compute; auto; reflexivity).
Qed.

Lemma fork_side_chain : side_chain fork_lookup 3 common_ledger [fork_block 0] [fork_block 1].
Proof.
  split.
  - vm_compute. reflexivity.
  - exists [2%positive], [3%positive]. split; [vm_compute; reflexivity|]. split; (constructor; [|constructor]).
    + exists (fork_node true (Some 1%positive) 1 5). split; reflexivity.
    + exists (fork_node false (Some 1%positive) 2 5). split; reflexivity.
  - split; [apply fork_block_ok; left; reflexivity|exact I].
  - split; [apply fork_block_ok; right; reflexivity|exact I].
  - intros hs. split; reflexivity.
  - split; [|exact I]. apply Forall_fmap, Forall_forall. intros tx Htx. unfold compose, remembers.
    assert (common_ledger !! tx_sha tx = None) as ->; [|left; reflexivity].
    cbn [Transactions fork_block] in Htx. rewrite !elem_of_cons in Htx. destruct Htx as [-> | [-> | []%not_elem_of_nil]]; vm_compute; reflexivity.
Qed.

(** The output the main chain spent is unspent on the branch, and the other is spent. *)
Lemma side_chain_view_witness :
  exists st, fetchTxStore fork_lookup (Ret (Some 3%positive)) {[ forked_hash ]} = Ret st /\
    st !! forked_hash = Some (found forked_hash forked_tx 4 [false; true]).
Proof.
  destruct (side_chain_view fork_lookup 3 common_ledger [fork_block 0] [fork_block 1] {[ forked_hash ]} fork_side_chain) as (st & Hr & Hd & Hv).
  exists st. split; [exact Hr|]. assert (forked_hash ∈ dom st) as [d Hst]%elem_of_dom by (rewrite Hd; apply elem_of_singleton; reflexivity).
  rewrite Hst. f_equal. rewrite (Hv _ _ Hst). vm_compute. reflexivity.
Defined.
