(* ===== verification/PoolSample.v ===== *)
(** Staking nodes and a memory pool that the theorems on them apply to. *)

From S2P Require Import Prelude AddressText TxCommon Opcodes Script Hashes Wire Standard Amount Forks TrieEncoding Trie Poc Block MsgBlock Genesis Payload Validate ValidateSpec.
From S2P Require Import SigHash SigCache Engine EngineSafety Scenario ScriptVal BindingState TrieState Coinbase TxLookup TxLookupSpec Staking StakingSpec StakingUndo.
From S2P Require Import OrphanPool OrphanPoolSpec Policy TxPool TxPoolSpec TxPoolRules ValidateSample.

#[local] Existing Instances Sha.concrete generous_chia Toy.btcec Toy.env.

(** * Staking *)

(** Three nodes, the second with two outputs old enough and one that is not, the third with none
    that is, listed in two orders. *)
Definition stake (v : Z) : StakingTxInfo := mkStakingTxInfo v 100000 10.
Definition young : StakingTxInfo := mkStakingTxInfo 900 100000 90.
Definition listed : list (Hash * list StakingTxInfo) := [([1], [stake 500]); ([2], [stake 300; young; stake 400]); ([3], [young])].
Definition relisted : list (Hash * list StakingTxInfo) := [([2], [stake 300; stake 400; young]); ([1], [stake 500]); ([3], [young])].

Lemma staking_rank_deterministic_witness :
  exists ranks, getReward listed 100 = Ret ranks /\ getReward relisted 100 = Ret ranks /\ map r_ScriptHash ranks = [[2]; [1]].
Proof.
  destruct (getReward listed 100) as [ranks| |] eqn:E; [|vm_compute in E; discriminate|vm_compute in E; discriminate].
  exists ranks. split; [reflexivity|].
  destruct (staking_rank_deterministic listed relisted 100 ranks) as (H1 & _ & _); [| |exact E|].
  - repeat constructor; cbn; lia.
  - exists [([2], [stake 300; young; stake 400]); ([1], [stake 500]); ([3], [young])]. split; [apply Permutation_swap|]. repeat constructor.
  - split; [exact H1|]. vm_compute in E. injection E as <-. reflexivity.
Defined.

(** A node with an output that expires at height 15, and a block with a new staking output. *)
Definition old_stake : StakingTxInfo := mkStakingTxInfo 500 5 10.
Definition old_point : OutPoint := mkOutPoint (replicate 32 4) 0.
Definition old_nodes : StakingNodes := {[ replicate 32 7 := {[ 10 := {[ old_point := old_stake ]} ]} ]}.
Definition staking_tx : MsgTx := mkMsgTx 1 [spend_of origin_hash 0] [mkTxOut 300 (program_script (replicate 32 6) (Some (le_encode 8 61440)))] 0 [].
Definition old_flat : Stakes := {[ (replicate 32 7, 10, old_point) := old_stake ]}.

Lemma old_represents : flattens old_nodes old_flat.
Proof.
  split.
  - intros [[rsh h] op]. unfold staked, old_nodes, old_flat. cbn [fst snd].
    destruct (decide (rsh = replicate 32 7)) as [->|Hr].
    + rewrite lookup_singleton_eq. cbn [mbind option_bind]. destruct (decide (h = 10)) as [->|Hh].
      * rewrite lookup_singleton_eq. cbn [mbind option_bind]. destruct (decide (op = old_point)) as [->|Hop]; [by rewrite !lookup_singleton_eq|by rewrite !lookup_singleton_ne by congruence].
      * rewrite !lookup_singleton_ne by congruence. done.
    + rewrite !lookup_singleton_ne by congruence. done.
  - intros k v. unfold old_flat. intros [<- <-]%lookup_singleton_Some. reflexivity.
Qed.

Lemma staking_undo_witness :
  exists s1 s2, connectStakingTransactions 15 [staking_tx] old_nodes = (Ret tt, s1) /\ staked s1 (replicate 32 7, 10, old_point) = None /\
    disconnectStakingTransactions (fun _ => Ret [(replicate 32 7, old_point, old_stake)]) 15 [staking_tx] s1 = (Ret tt, s2) /\
    staked s2 (replicate 32 7, 10, old_point) = Some old_stake.
Proof.
  destruct (connectStakingTransactions 15 [staking_tx] old_nodes) as [o s1] eqn:E.
  assert (o = Ret tt) as -> by (change o with (o, s1).1; rewrite <- E; vm_compute; reflexivity).
  destruct (staking_undo old_nodes s1 old_flat 15 [staking_tx] [(replicate 32 7, old_point, old_stake)]) as (s2 & Hr & Hrep).
  - lia.
  - intros out frozen rsh Hin. cbn [staking_tx TxOuts concat fmap list_fmap app] in Hin. apply list_elem_of_singleton in Hin as ->.
    assert (staking_output (mkTxOut 300 (program_script (replicate 32 6) (Some (le_encode 8 61440)))) = Ret (Some (61440, replicate 32 6))) as -> by (vm_compute; reflexivity).
    intros H. assert (frozen = 61440) as -> by congruence. lia.
  - exact old_represents.
  - apply NoDup_singleton.
  - intros [[rsh op] v]. rewrite list_elem_of_singleton. unfold key_of, old_flat. cbn [fst snd]. split.
    + intros [= -> -> ->]. rewrite lookup_singleton_eq. split; reflexivity.
    + intros [[E1 <-]%lookup_singleton_Some _]. injection E1 as <- <-. reflexivity.
  - exact E.
  - exists s1, s2. split; [reflexivity|]. split; [|split; [exact Hr|]].
    + change s1 with (Ret (E := val_error) tt, s1).2. rewrite <- E. vm_compute. reflexivity.
    + rewrite (rep_lookup _ _ Hrep). unfold old_flat. by rewrite lookup_singleton_eq.
Defined.

(** * The memory pool *)

#[local] Instance pool_state : StateTrie Trie := trie_state (fun _ => None) 200 (fun _ => replicate 32 0).

(** The node at height 9, whose database has the transaction that [signed_tx] spends. *)
Definition pool_fetch : FetchTxs := fun _ hs =>
  (fun h => if bool_decide (h = origin_hash) then mkTxReply h (Some (mkMsgTx 1 [] [mkTxOut 5000 (program_script program None)] 0 [])) 4 [false] None
            else mkTxReply h None 0 [] (Some ErrTxShaMissing)) <$> hs.
Definition pool_chain : PoolChain :=
  mkPoolChain 9 (Ret 1000) (fun h => 100 + h) pool_fetch (Ret empty_trie) (fun _ => Ret tt) 2000 true true true (fun x _ => x)
    (fun _ => Some [1; 2; 3; 4]) (fun otp => IDs (tx_pool otp)) 10.
Definition pooled_tx : Tx := mkOrphanTx 1 signed_tx.

Lemma signed_accepted : (maybeAcceptTransaction pool_chain pooled_tx true false NewTxPool).1 = Ret [].
Proof. vm_compute. reflexivity. Qed.

(** The pool after the transaction was accepted. *)
Definition signed_pool : TxPool := (maybeAcceptTransaction pool_chain pooled_tx true false NewTxPool).2.

Lemma signed_run : maybeAcceptTransaction pool_chain pooled_tx true false NewTxPool = (Ret [], signed_pool).
Proof. unfold signed_pool. rewrite <- signed_accepted. symmetry. apply surjective_pairing. Qed.


Lemma signed_pooled : pooled signed_pool pooled_tx.
Proof.
  destruct (maybeAccept_cases _ _ _ _ _ _ _ signed_run) as [(_ & [] & _)|(_ & ((d & Hp & Hd) & _) & _)]; [reflexivity|].
  exists d. split; [rewrite Hp; apply lookup_insert_eq|exact Hd].
Qed.

Lemma pool_no_double_spend_witness :
  rtc (pool_run (fun _ => signed_tx)) NewTxPool signed_pool /\ outpoints signed_pool !! mkOutPoint origin_hash 0 = Some pooled_tx /\
  isOrphanTxInPool (hash_of pooled_tx) (orphanTxPool signed_pool) = false.
Proof.
  assert (rtc (pool_run (fun _ => signed_tx)) NewTxPool signed_pool) as Hrun.
  { apply rtc_once. apply (run_step _ pool_chain (OpMaybeAcceptTransaction pooled_tx true false) _ (Ret tt)); [constructor; [reflexivity|constructor]|].
    cbn [run_op]. rewrite (bind_step _ _ _ _ _ signed_run). reflexivity. }
  destruct (pool_no_double_spend (fun _ => signed_tx) signed_pool Hrun) as (_ & Hown & Hdis).
  destruct signed_pooled as (d & Hd & E).
  split; [exact Hrun|]. split.
  - apply Hown. split; [vm_compute; left|exists d; exact (conj Hd E)].
  - apply Hdis. exists d. exact Hd.
Defined.

(** A transaction and one that spends its output. *)
Definition parent_tx : Tx := mkOrphanTx 1 paying_tx.
Definition child_tx : Tx := mkOrphanTx 2 (mkMsgTx 1 [spend_of (tx_sha paying_tx) 0] [mkTxOut 50 [81]] 0 []).
Definition sample_heap (p : positive) : MsgTx := if bool_decide (p = 1%positive) then paying_tx else ot_tx child_tx.
Definition sample_rank (h : Hash) : nat := if bool_decide (h = hash_of child_tx) then 2 else if bool_decide (h = hash_of parent_tx) then 1 else 0.

Definition with_tx (tx : Tx) (tp : TxPool) : TxPool :=
  set_pool <[hash_of tx := mkTxDesc tx 0 9 (float_of 0) ZeroAmount ZeroAmount]>
    (set_outpoints (fun m => foldl (fun m op => <[op := tx]> m) m (spent_outpoints tx)) tp).
Definition family_pool : TxPool := with_tx child_tx (with_tx parent_tx NewTxPool).

Lemma with_tx_added tx tp : added tx tp (with_tx tx tp).
Proof. split; [eexists; split; reflexivity|]. split; reflexivity. Qed.

Lemma with_tx_lookup tx tp h d : pool (with_tx tx tp) !! h = Some d -> (h = hash_of tx /\ d_Tx d = tx) \/ pool tp !! h = Some d.
Proof. unfold with_tx. cbn [pool set_pool set_outpoints]. intros [[<- <-]|[_ H]]%lookup_insert_Some; [by left|by right]. Qed.

Lemma family_lookup h d : pool family_pool !! h = Some d -> (h = hash_of child_tx /\ d_Tx d = child_tx) \/ (h = hash_of parent_tx /\ d_Tx d = parent_tx).
Proof.
  intros [H|[H|H]%with_tx_lookup]%with_tx_lookup; [by left|by right|]. cbn [pool NewTxPool] in H. by apply lookup_empty_Some in H.
Qed.

Lemma family_ok : txpool_ok sample_heap family_pool.
Proof.
  apply (added_ok sample_heap pool_chain child_tx (with_tx parent_tx NewTxPool)); [apply (added_ok sample_heap pool_chain parent_tx NewTxPool)| |apply with_tx_added].
  - apply txpool_ok_new.
  - split; [vm_compute; reflexivity|vm_compute; discriminate|vm_compute; reflexivity|reflexivity|repeat constructor].
  - apply with_tx_added.
  - split; [vm_compute; reflexivity|vm_compute; discriminate|vm_compute; reflexivity|vm_compute; reflexivity|].
    apply Forall_singleton. vm_compute. reflexivity.
Qed.

Lemma removal_closes_witness :
  exists o tp', remove_transaction pool_chain parent_tx true family_pool = (o, tp') /\ o = Ret tt /\ pool tp' !! hash_of child_tx = None.
Proof.
  destruct (remove_transaction pool_chain parent_tx true family_pool) as [o tp'] eqn:E. exists o, tp'. split; [reflexivity|].
  destruct (removal_closes sample_heap sample_rank pool_chain parent_tx family_pool o tp') as [[HP _]|(Ho & _ & Hsub & Hgone & Hclosed)].
  - exact family_ok.
  - intros h d op [[-> Hd]|[-> Hd]]%family_lookup Hop; rewrite Hd in Hop; cbv [spent_outpoints child_tx parent_tx paying_tx spend_of ot_tx TxIns fmap list_fmap PreviousOutPoint] in Hop;
      apply list_elem_of_singleton in Hop as ->; vm_compute; repeat constructor.
  - exact E.
  - assert ((o, tp').1 = Panic) as HP' by exact HP. rewrite <- E in HP'. vm_compute in HP'. discriminate.
  - split; [exact Ho|]. apply eq_None_not_Some. intros [d Hd].
    pose proof (lookup_weaken _ _ _ _ Hd Hsub) as Hd0. assert (d_Tx d = child_tx) as Ed.
    { unfold family_pool, with_tx in Hd0. cbn [pool set_pool] in Hd0. rewrite lookup_insert_eq in Hd0. by injection Hd0 as <-. }
    apply (proj1 (Hclosed _ _ Hd) 0); [cbn; lia|]. rewrite Ed. by left.
Defined.
